(* ===== verification/_CoqProject ===== *)
-Q . S2P
Prelude.v
Types.v
Monad.v
Clib.v
Digest.v
Md5.v
Vectors.v
Wire.v
Layout.v
Outputs.v
Procs.v
RoleSelect.v
PortSM.v
TreeSM.v
Prtsm.v
Bridge.v
Mgmt.v
Kernel.v
Track.v
Control.v
Wf.v
Safety.v
Links.v
System.v
Sample.v
Frame.v
Follows.v
Daemon.v
Inventory.v
Events.v
Requests.v
Service.v
Scenario.v
DryRun.v
Termination.v
Pres.v
Blocked.v
Settle.v
Master.v
Steady.v
Progress.v
Lists.v
Tables.v
Client.v
Show.v
Json.v
Commands.v
Batch.v
Remote.v
Session.v
Ctlmain.v
Netlink.v
Linkmsg.v
Loop.v
Mainloop.v
Lifetime.v
Terminal.v
Boot.v
Sim.v
Silent.v
Cables.v
Moves.v
Simulation.v
Queue.v
Network.v
Ring.v
JsonText.v
Builder.v
Documents.v
Topology.v
Captures.v
Calls.v
Packet.v
Xstrata.v
Switch.v
Talk.v
Answers.v
Sockets.v
