(* ===== verification/Prelude.v ===== *)
(** * A verification library for mstpd, the Multiple Spanning Tree daemon

    mstpd runs the spanning tree protocols (STP, RSTP, MSTP) for Linux bridges.  Its
    protocol entity is src/mstp.c, on the data of src/mstp.h, with the configuration
    digest of src/hmac_md5.c; src/bridge_track.c feeds it with events (ports that come
    and go, BPDUs, the one-second tick, control requests) and carries out its external
    actions through src/driver_deps.c.  This library models the whole protocol entity
    and the daemon around it, and proves properties of both.

    ** The program and its model

    A [world] (Monad) is the state kept for one bridge: the bridge object and a store
    for each kind of C object, trees, ports and per-tree ports, addressed by its
    pointer.  A C function is a computation [M A] on worlds, written statement by
    statement; a dereference of an invalid pointer or an index out of its array is
    [Fault], a recursion deeper than the bound it was given is [OutOfFuel].  The
    intrusive lists of the structures are lists of pointers, and a per-tree port is
    addressed by its (port, tree) pair, of which there is one object each.  What the
    code takes from the outside is part of the world: the clock readings
    ([w_clock]) and the outcomes of calloc ([w_calloc]); what it sends to the kernel
    is appended to [w_out].  Machine integers are [Z] with their wrap-around written
    out; fields in network order hold their value and are compared by [memcmp] of
    their big-endian bytes, as the code does.

    - Prelude: record update, machine integers, bytes, memcmp, lists.
    - Types: the constants, enumerations, wire format and objects of mstp.h.
    - Monad: worlds, computations, loops; the weakest-precondition calculus [wp].
    - Digest: MD5 and HMAC as RFC 1321 and RFC 2104 define them, for reference.
    - Md5: hmac_md5.c, from the bit functions to hmac_md5.
    - Vectors: comparison of priority vectors and times; path costs; identifiers.
    - Outputs: the MSTP_OUT functions of bridge_track.c and driver_deps.c.
    - Procs: the procedures of clause 13.26 (received messages, flags, timers, and
      the construction of BPDUs).
    - RoleSelect: updtRolesTree and the Port Role Selection machine.
    - PortSM: the port timers and the machines of a port: Port Receive (PRSM), Port
      Protocol Migration (PPMSM), Bridge Detection (BDSM), Port Transmit (PTSM).
    - TreeSM: machines of a per-tree port: Port Information (PISM), Port State
      Transition (PSTSM), Topology Change (TCSM).
    - Prtsm: the Port Role Transitions machine (PRTSM).
    - Bridge: br_state_machines_run and the BEGIN sequences; creation, deletion and
      interface events; validation and reception of BPDUs.
    - Clib: strtoul, strtol and the printing of numbers.
    - Wire: the packed structures of mstp.h as octets; a class for what they promise.
    - Layout: the octets of a BPDU as IEEE 802.1Q (14.6) numbers them, for reference.
    - Mgmt: the MSTP_IN_get and MSTP_IN_set functions, the VID/FID/MSTID maps, MSTIs.

    The daemon is modelled over this.  A [daemon] (Kernel) holds one world per bridge
    object; its functions are computations [D A], and call the protocol entity of one
    bridge with [in_bridge].  The kernel is a parameter: a record of its answers, indexed
    by the number of system calls made so far.

    - Kernel: the daemon's state, its monad, and netif_utils.c.
    - Track: bridge_track.c without its commands: the bridges and ports the daemon
      knows, bridge_notify, the one-second tick, bridge_track_fini.
    - Control: the frames (bridge_bpdu_rcv, packet.c), the CTL commands of
      bridge_track.c, the requests of ctl_functions.h and ctl_socket_server.c.  How C
      lays the request structures out in memory is a parameter, the record [abi].

    A C function of a machine, XXX_to_STATE, that ends by running the machine again
    takes that run as an argument; XXX_runf ties the knot with a bound on the depth.
    The bounds are 4 (PPMSM, PSTSM), 16 (PISM), 24 (TCSM), 32 (PTSM) and 48 (PRTSM);
    Termination and Settle prove that they are enough, but for Master ports of an MSTI, of
    which Master shows one that no depth is enough for.  The loop of
    br_state_machines_run takes one clock reading per iteration and is bounded by the
    readings its environment supplies.

    - Netlink: the link messages of the kernel (brmon.c and what it uses of libnetlink.c):
      datagrams, headers and attributes as octets in the byte order of the host, the class
      [HostOrder].  The request that br_set_state sends.
    - Talk: the rest of libnetlink.c that the daemon uses: opening a socket, the request for
      all links, rtnl_talk with the receiving of answers, br_set_state.
    - Packet: packet.c: the filter of the raw socket, as data for a machine whose laws are
      the class [BpfLaws]; packet_send, packet_sock_init.
    - Sockets: the log text of an answer, the sockets of the control channel, if_shutdown.
    - Loop: epoll_loop.c, as an object of its own: handlers that are added, removed and
      freed while events are dispatched; the one-second timer.
    - Mainloop: main.c: options, set-up, and the loop over the daemon's descriptors.

    The client, mstpctl, is modelled over a daemon it talks to.  Its functions are
    computations [C A] on the state of the client and the daemon; exit() is an outcome.

    - Tables: reading and printing of VID/FID/MSTID tables.
    - Client: ctl_socket_client.c, the exchange of a request and its answer.
    - Show: the commands that show parameters, in plain text and JSON.
    - Commands: the commands that set them.
    - Batch: the table of commands and batch mode.
    - Ctlmain: main() of mstpctl.

    wasm/wasm_api.c runs many bridges in one process, their ports joined by virtual cables,
    over the same protocol entity.  Its functions are computations [N A] on a [sim], which
    holds a world per bridge, the table of ports and the frames on their way; the actions a
    call has left in [w_out] are carried out when it returns ([call_with]).

    - Sim: the state, cables and carriers, delivery, and the calls of the API ([api]).
    - Builder: the string builder of the API, with the outcomes of malloc and realloc, and
      the JSON documents written with it.
    - Calls: the whole API, the calls that change the simulation and those that ask for a
      document ([call]).

    broadcom_xstrata/ has another driver, which types commands into the shell of a switch.

    - Xstrata: its commands, and bcmexp, the program that types them.

    - Lists: list.h, nodes with two pointers in a memory; the library uses lists as the
      sequences of their entries, which the theorems of this file justify.

    ** The theorems

    - Wf, Safety, Links, System: the representation invariant of a bridge, that every
      procedure and machine preserves it and never faults, and the same for every event
      a bridge can receive ([handle]), hence for all reachable worlds.  The invariant
      covers the pointer lists, the bounds of every array index the code computes, the
      VID to FID to MSTID maps and the configuration digest.
    - Sample: a concrete well-formed bridge, on which the theorems are instantiated.
    - Frame, DryRun: what a run leaves alone; the dry-run convention of the machines, and
      that a run of br_state_machines_run that returns leaves a stable bridge.
    - Termination: a measure for every machine but Port Role Transitions.
    - Md5: hmac_md5 is RFC 2104's HMAC over RFC 1321's MD5; Digest writes both down without
      a definition of Md5, the table of MD5 from the sine, and checks their test vectors.
    - Wire, Layout, Kernel: the octets of BPDUs, both ways and against the standard; the
      text of port numbers, both ways.
    - Follows: relations between the world before and after a call; the protocol entity
      leaves alone what bridge_track.c works with, and does nothing on a monitored bridge.
    - Daemon, Inventory, Events, Requests: the invariant of the daemon, and that lookups,
      creation, deletion, events and requests keep it.
    - Service: the daemon from its start, with any events: no fault, coherence of the
      protocol with the interfaces, monitoring is passive, requests of users change
      nothing, a frame that is sent is received; and the one request that does fault.
    - Scenario: a kernel and a run of the daemon, on which these are instantiated.
    - Vectors, Procs: functional properties of single procedures.
    - Lists: the operations of list.h are operations on sequences; deletion while
      iterating.
    - Tables, Json, Batch: printed tables are read back; the JSON of showport is read
      back and where JSON output goes wrong; a batch is checked before it runs, and the
      words of its lines stay in their arrays.
    - Remote: a request and its answer are a remote call of the daemon's function.
    - Session, Ctlmain: no use of mstpctl makes it or the daemon fault.
    - Linkmsg: taking messages apart stays in the buffer; a datagram of link messages is
      the sequence of their notifications; what br_set_state sends.
    - Loop: dispatch uses no freed handler, as long as a handler is not freed while it is
      registered nor registered while it is (add_epoll() then loses its pending event, see
      [add_registered_breaks]); the timer keeps time.
    - Answers: what br_set_state makes of the kernel's answers.
    - Lifetime: main() of mstpd never faults, but for the requests and link messages that
      [ready_ok] excludes.
    - Settle, Master: the runs of the machines return, except that a Master port may go
      round the states of Port Role Transitions forever; a bridge can get there.
    - Steady, Progress: without MSTIs no event can run into that: what the machines need to
      come to an end is kept by every event, and so every event returns, and the
      run of the machines returns with a stable bridge.
    - Terminal, Boot: a client and a starting daemon, on which these are instantiated.
    - Pres, Blocked: conditions on every per-tree port that all events keep; ports
      without an active role are blocked in every stable bridge a run can reach.  What the
      interface layer writes into a bridge between events is a step of the runs
      ([env_step]).
    - Silent: the actions a call leaves: which calls send nothing, and that what is sent has
      its header.  Queue: so have the frames on their way, after any calls.
      Cables: the invariant of the table of ports.
      Moves: relations between the state before and after a call of the API.
    - Simulation, Network: cables join ports that know each other, and delivery ends.
    - Ring: a port in the place of another one hears its cable; the bridges on which the
      theorems on the simulation are instantiated.
    - JsonText: a reader of JSON.  Documents, Topology: the documents of the simulation are
      those of its values, and what happens when memory is refused.  Captures: the capture
      ring holds the latest of the frames that were sent.  Calls: no sequence of calls of
      the API faults, a document that is refused memory apart, and every document is read
      back.
    - Packet: the filter stops no BPDU.  Switch: what bcmexp types and shows, and where its
      buffers end.

    ** Assumptions and what is not modelled

    Logging has no effect on the protocol state and is left out.  The static locals of
    PRTSM_runr are computed once per run and passed along.  The stack buffers the code
    leaves uninitialised are an argument of RecalcConfigDigest and are zero in the BPDUs
    of txConfig, txMstp and txTcn, where only the octets up to the size sent matter.
    The bounds that Netlink and Lists give their loops are the number of octets or entries
    left, and their theorems show that they are enough.  Delivery in the simulation has 2^21
    rounds, more than the cap on frames; talk_loop has one round per event that comes.

    In the simulation the calls of the protocol entity send their BPDUs when they return,
    in their order, where the code hands them over at once; nothing but the queue depends on
    it, since a port that sends never changes a cable.

    Not modelled: the system calls themselves, whose outcomes are arguments; the rest of
    libnetlink.c, a library of iproute2 of which the daemon uses little, and libmnl's
    extended acknowledgements; the hash lists of list.h, which nothing uses; text on
    standard error and in the log, and the log level that a signal sets; the trace of the
    simulation (mstpw_trace_enable and its ring), which records state changes that the
    interface layer of the daemon does not report; its mstpw_init and mstpw_set_log_level,
    which do nothing and set the log level; forkpty and the terminal settings of bcmexp; and
    the tests.

    With an MSTI a run of the Port Role Transitions machine need not end: the theorems that
    nothing faults admit [OutOfFuel], and that events return is proved without MSTIs. *)
From Stdlib Require Export ZArith Lia Bool.
From stdpp Require Export base tactics list gmap strings fin_maps.

Open Scope Z_scope.

(** ** Record update

    The C structures have up to fifty members, so every record of the model
    declares its eta-expansion once and a [Setter] instance per member;
    [r <| f := v |>] is then the C assignment [r.f = v] and [r <| f ::= g |>]
    applies [g] to the member. *)

Class Eta (R : Type) := eta_expand : R → R.
Class Setter {R E : Type} (f : R → E) := upd_field : (E → E) → R → R.
Global Arguments upd_field {R E} f {_} _ _.

Ltac build_setter :=
  lazymatch goal with
  | |- @Setter ?R ?E ?f =>
      let g := fresh "g" in
      let r := fresh "r" in
      intros g r;
      let t := eval hnf in (@eta_expand R _ r) in
      let p := eval pattern (f r) in t in
      lazymatch p with
      | ?k _ => let b := eval cbv beta in (k (g (f r))) in exact b
      end
  end.

Declare Scope c_scope.
Delimit Scope c_scope with c.
Open Scope c_scope.

#[warnings="-postfix-notation-not-level-1"]
Notation "r <| f := v |>" := (upd_field f (fun _ => v) r)
  (at level 12, f at next level, left associativity,
   format "r  <| f  :=  v |>") : c_scope.
#[warnings="-postfix-notation-not-level-1"]
Notation "r <| f ::= g |>" := (upd_field f g r)
  (at level 12, f at next level, left associativity,
   format "r  <| f  ::=  g |>") : c_scope.

(** ** Comparisons

    [x ==? y] is the C [==] on enums, identifiers and structures (any type
    with decidable equality); on integers the Standard Library's [=?] is used
    so that [lia] understands the test. *)
Notation "x ==? y" := (bool_decide (x = y)) (at level 70) : c_scope.
Notation "x !=? y" := (negb (bool_decide (x = y))) (at level 70) : c_scope.
Notation "x ≠? y" := (negb (x =? y)%Z) (at level 70) : c_scope.

(** ** Machine integers: a [w]-bit unsigned integer is a [Z] in [0, 2^w), and
    every store into a narrower variable wraps. *)
Definition u8 (x : Z) : Z := x mod 2 ^ 8.
Definition u16 (x : Z) : Z := x mod 2 ^ 16.
Definition u32 (x : Z) : Z := x mod 2 ^ 32.
Definition u64 (x : Z) : Z := x mod 2 ^ 64.
Definition s32 (x : Z) : Z := (x + 2 ^ 31) mod 2 ^ 32 - 2 ^ 31.

Definition UINT32_MAX : Z := 4294967295.

Definition in_u8 (x : Z) : Prop := 0 <= x < 256.
Definition in_u16 (x : Z) : Prop := 0 <= x < 65536.
Definition in_u32 (x : Z) : Prop := 0 <= x < 4294967296.

(** ** Bytes and [memcmp]

    Identifiers and costs travel in network byte order and are compared with
    [memcmp], so their order is that of their big-endian bytes. *)

Fixpoint be_bytes (n : nat) (v : Z) : list Z :=
  match n with
  | O => []
  | S m => (v / 2 ^ (8 * Z.of_nat m)) mod 256 :: be_bytes m v
  end.

Fixpoint memcmp (a b : list Z) : Z :=
  match a, b with
  | x :: a', y :: b' =>
      if x <? y then -1 else if y <? x then 1 else memcmp a' b'
  | _, _ => 0
  end.

(** ** Lists *)

(** The elements after the first occurrence of [x]: where
    [list_for_each_entry_continue] resumes. *)
Fixpoint after {A} `{EqDecision A} (x : A) (l : list A) : list A :=
  match l with
  | [] => []
  | y :: l' => if decide (x = y) then l' else after x l'
  end.

(** [list_add new x]: insert [y] just after [x]. *)
Fixpoint insert_after {A} `{EqDecision A} (x y : A) (l : list A) : list A :=
  match l with
  | [] => []
  | z :: l' => if decide (x = z) then z :: y :: l' else z :: insert_after x y l'
  end.

(** [list_del]: unlink [x]. *)
Definition list_del {A} `{EqDecision A} (x : A) (l : list A) : list A :=
  filter (λ y, y ≠ x) l.

(** [strncpy(dst, src, n)] where [dst] has room for [n] characters. *)
Definition strncpy (n : nat) (src : string) : string := String.substring 0 n src.

Definition zrange (lo hi : Z) : list Z :=
  map (λ i, lo + Z.of_nat i) (seq 0 (Z.to_nat (hi - lo + 1))).

(** ** Lemmas *)

Lemma elem_of_zrange x lo hi : x ∈ zrange lo hi ↔ lo <= x <= hi.
Proof.
  unfold zrange. rewrite list_elem_of_fmap. split.
  - intros (i & -> & Hi%elem_of_seq). lia.
  - intros. exists (Z.to_nat (x - lo)). rewrite elem_of_seq. lia.
Qed.

Lemma length_be_bytes n v : length (be_bytes n v) = n.
Proof. induction n; simpl; congruence. Qed.

Lemma memcmp_refl a : memcmp a a = 0.
Proof. induction a as [|x a IH]; simpl; [done|]. by rewrite Z.ltb_irrefl. Qed.

Lemma memcmp_eq a b : length a = length b → memcmp a b = 0 ↔ a = b.
Proof.
  revert b; induction a as [|x a IH]; intros [|y b]; simpl; try done.
  intros [= Hl]. specialize (IH b Hl).
  destruct (Z.ltb_spec x y); [split; [done|intros [= ->]; lia]|].
  destruct (Z.ltb_spec y x); [split; [done|intros [= ->]; lia]|].
  assert (x = y) as -> by lia. rewrite IH. split; [by intros ->|by intros [= ->]].
Qed.

Lemma memcmp_range a b : memcmp a b = -1 ∨ memcmp a b = 0 ∨ memcmp a b = 1.
Proof.
  revert b; induction a as [|x a IH]; intros [|y b]; simpl; auto.
  repeat case_match; auto.
Qed.

Lemma memcmp_antisym a b : memcmp b a = - memcmp a b.
Proof.
  revert b; induction a as [|x a IH]; intros [|y b]; simpl; auto.
  destruct (Z.ltb_spec x y), (Z.ltb_spec y x); try lia; auto.
Qed.

Lemma memcmp_app a1 a2 b1 b2 :
  length a1 = length b1 →
  memcmp (a1 ++ a2) (b1 ++ b2) =
    if memcmp a1 b1 =? 0 then memcmp a2 b2 else memcmp a1 b1.
Proof.
  revert b1; induction a1 as [|x a IH]; intros [|y b]; simpl; try done.
  intros [= Hl]. repeat case_match; auto. all: try lia.
  all: rewrite IH by done; repeat case_match; auto; lia.
Qed.

(** *** The sequence operations *)

Lemma list_del_notin {A} `{EqDecision A} (x : A) l : x ∉ l → list_del x l = l.
Proof.
  intros Hx. unfold list_del. induction l as [|y l IH]; [done|].
  rewrite filter_cons_True by set_solver. f_equal. apply IH. set_solver.
Qed.

Lemma list_del_cons {A} `{EqDecision A} (x : A) l : x ∉ l → list_del x (x :: l) = l.
Proof.
  intros Hx. unfold list_del. rewrite filter_cons_False by naive_solver. by apply list_del_notin.
Qed.

Lemma elem_of_list_del {A} `{EqDecision A} (x y : A) l : y ∈ list_del x l ↔ y ∈ l ∧ y ≠ x.
Proof. unfold list_del. rewrite list_elem_of_filter. tauto. Qed.

Lemma list_del_snoc {A} `{EqDecision A} (x : A) l : x ∉ l → list_del x (l ++ [x]) = l.
Proof.
  intros Hx. unfold list_del. rewrite filter_app, filter_cons_False by naive_solver.
  rewrite filter_nil, app_nil_r. by apply list_del_notin.
Qed.

Lemma elem_of_insert_after {A} `{EqDecision A} (x y z : A) l :
  x ∈ l → z ∈ insert_after x y l ↔ z = y ∨ z ∈ l.
Proof.
  induction l as [|u l IH]; [by intros ?%elem_of_nil|]. cbn [insert_after].
  intros Hx. destruct (decide (x = u)) as [->|Hne]; [rewrite !elem_of_cons; tauto|].
  apply elem_of_cons in Hx as [?|Hx]; [done|]. rewrite !elem_of_cons, IH by done. tauto.
Qed.

Lemma list_del_insert_after {A} `{EqDecision A} (x y : A) l :
  y ∉ l → list_del y (insert_after x y l) = l.
Proof.
  induction l as [|u l IH]; [done|]. cbn [insert_after]. intros Hy.
  unfold list_del in *. assert (u ≠ y) by set_solver. assert (Hl : y ∉ l) by set_solver.
  destruct (decide (x = u)).
  - rewrite filter_cons_True, filter_cons_False by naive_solver.
    f_equal. by apply list_del_notin.
  - rewrite filter_cons_True by done. f_equal. auto.
Qed.

Lemma list_del_place {A} `{EqDecision A} (x : A) l1 l2 :
  NoDup (l1 ++ x :: l2) → list_del x (l1 ++ x :: l2) = l1 ++ l2.
Proof.
  intros (_ & Hx & [Hx2 _]%NoDup_cons)%NoDup_app. unfold list_del.
  rewrite filter_app, filter_cons_False by naive_solver.
  f_equal; apply list_del_notin; set_solver.
Qed.

Lemma insert_after_place {A} `{EqDecision A} (x y : A) l1 l2 :
  x ∉ l1 → insert_after x y (l1 ++ x :: l2) = l1 ++ x :: y :: l2.
Proof.
  induction l1 as [|z l1 IH]; simpl; intros Hx; [by rewrite decide_True|].
  apply not_elem_of_cons in Hx as [? ?]. by rewrite decide_False, IH by done.
Qed.

Lemma after_place {A} `{EqDecision A} (x : A) l1 l2 :
  x ∉ l1 → after x (l1 ++ x :: l2) = l2.
Proof.
  induction l1 as [|z l1 IH]; simpl; intros Hx; [by rewrite decide_True|].
  apply not_elem_of_cons in Hx as [? ?]. by rewrite decide_False, IH by done.
Qed.

(** *** Bit operations *)

Lemma land_shiftl_small a b k :
  0 <= k → 0 <= a < 2 ^ k → Z.land a (Z.shiftl b k) = 0.
Proof.
  intros Hk Ha. apply Z.bits_inj'; intros n Hn. rewrite Z.land_spec, Z.bits_0.
  destruct (Z.lt_ge_cases n k) as [?|?].
  - rewrite (Z.shiftl_spec_low b) by lia. apply andb_false_r.
  - rewrite <- (Z.mod_small a (2 ^ k)) by lia. by rewrite Z.mod_pow2_bits_high by lia.
Qed.

(** Bit fields that do not overlap add up. *)
Lemma lor_shiftl_add a b k :
  0 <= k → 0 <= a < 2 ^ k → Z.lor a (Z.shiftl b k) = a + b * 2 ^ k.
Proof.
  intros Hk Ha. rewrite <- Z.shiftl_mul_pow2 by done.
  rewrite <- Z.add_lor_land, land_shiftl_small by done. lia.
Qed.

Lemma land_ones_mod x k : 0 <= k → Z.land x (2 ^ k - 1) = x mod 2 ^ k.
Proof. intros. rewrite <- Z.land_ones by done. f_equal. rewrite Z.ones_equiv. lia. Qed.

(** [lia] with the defining equations of [/] and [mod]. *)
Ltac zlia := Z.div_mod_to_equations; lia.

(** The hint database of the development. *)
Create HintDb mstp.
