(* ===== verification/Types.v ===== *)
(** The data of mstp.h: protocol enumerations, identifiers, priority vectors,
    the wire format and the three kinds of state object (bridge, tree, port and
    per-tree port).  A C enum that only ever holds its own enumerators is an
    inductive type; one that also receives values from the wire or from the
    control socket stays an integer with named constants. *)
From S2P Require Import Prelude.

(** ** Constants *)

Definition MAX_PORT_NUMBER : Z := 4095.
Definition MAX_VID : Z := 4094.
Definition MAX_FID : Z := 4095.
Definition MAX_MSTID : Z := 4094.
Definition MAX_STANDARD_MSTIS : Z := 64.
Definition MAX_IMPLEMENTATION_MSTIS : Z := 63.
Definition MAX_PATH_COST : Z := 200000000.
Definition IFNAMSIZ : nat := 16.
Definition ETH_ALEN : nat := 6.
Definition CONFIGURATION_NAME_LEN : nat := 32.
Definition CONFIGURATION_DIGEST_LEN : nat := 16.

Definition protoSTP : Z := 0.
Definition protoRSTP : Z := 2.
Definition protoMSTP : Z := 3.

Definition bpduTypeConfig : Z := 0.
Definition bpduTypeRST : Z := 2.
Definition bpduTypeTCN : Z := 128.

Definition offsetTc : Z := 0.
Definition offsetProposal : Z := 1.
Definition offsetRole : Z := 2.
Definition offsetLearnig : Z := 4.
Definition offsetForwarding : Z := 5.
Definition offsetAgreement : Z := 6.
Definition offsetTcAck : Z := 7.
Definition offsetMaster : Z := offsetTcAck.

Definition encodedRoleMaster : Z := 0.
Definition encodedRoleAlternateBackup : Z := 1.
Definition encodedRoleRoot : Z := 2.
Definition encodedRoleDesignated : Z := 3.

Definition BPDU_FLAGS_ROLE_SET (role : Z) : Z := Z.shiftl (Z.land role 3) offsetRole.
Definition BPDU_FLAGS_ROLE_GET (flags : Z) : Z := Z.land (Z.shiftr flags offsetRole) 3.

(** [flags & (1 << off)] as a truth value. *)
Definition flag_set (flags off : Z) : bool := Z.land flags (Z.shiftl 1 off) ≠? 0.

Definition p2pAuto : Z := 0.
Definition p2pForceTrue : Z := 1.
Definition p2pForceFalse : Z := 2.

(** The kernel's port states (linux/if_bridge.h). *)
Definition BR_STATE_DISABLED : Z := 0.
Definition BR_STATE_LISTENING : Z := 1.
Definition BR_STATE_LEARNING : Z := 2.
Definition BR_STATE_FORWARDING : Z := 3.
Definition BR_STATE_BLOCKING : Z := 4.

(** ** Enumerations *)

Inductive port_info_t :=
| OtherInfo
| SuperiorDesignatedInfo
| RepeatedDesignatedInfo
| InferiorDesignatedInfo
| InferiorRootAlternateInfo.
#[export] Instance port_info_t_eq_dec : EqDecision port_info_t := ltac:(solve_decision).

Inductive port_info_origin_t :=
| ioDisabled
| ioMine
| ioAged
| ioReceived.
#[export] Instance port_info_origin_t_eq_dec : EqDecision port_info_origin_t := ltac:(solve_decision).

Inductive port_role_t :=
| roleDisabled
| roleRoot
| roleDesignated
| roleAlternate
| roleBackup
| roleMaster.
#[export] Instance port_role_t_eq_dec : EqDecision port_role_t := ltac:(solve_decision).

(** 13.28 Port Receive state machine *)
Inductive PRSM_states_t :=
| PRSM_DISCARD
| PRSM_RECEIVE.
#[export] Instance PRSM_states_t_eq_dec : EqDecision PRSM_states_t := ltac:(solve_decision).

(** 13.29 Port Protocol Migration state machine *)
Inductive PPMSM_states_t :=
| PPMSM_CHECKING_RSTP
| PPMSM_SELECTING_STP
| PPMSM_SENSING.
#[export] Instance PPMSM_states_t_eq_dec : EqDecision PPMSM_states_t := ltac:(solve_decision).

(** 13.30 Bridge Detection state machine *)
Inductive BDSM_states_t :=
| BDSM_EDGE
| BDSM_NOT_EDGE.
#[export] Instance BDSM_states_t_eq_dec : EqDecision BDSM_states_t := ltac:(solve_decision).

(** 13.31 Port Transmit state machine *)
Inductive PTSM_states_t :=
| PTSM_TRANSMIT_INIT
| PTSM_TRANSMIT_CONFIG
| PTSM_TRANSMIT_TCN
| PTSM_TRANSMIT_RSTP
| PTSM_TRANSMIT_PERIODIC
| PTSM_IDLE.
#[export] Instance PTSM_states_t_eq_dec : EqDecision PTSM_states_t := ltac:(solve_decision).

(** 13.32 Port Information state machine *)
Inductive PISM_states_t :=
| PISM_DISABLED
| PISM_AGED
| PISM_UPDATE
| PISM_SUPERIOR_DESIGNATED
| PISM_REPEATED_DESIGNATED
| PISM_INFERIOR_DESIGNATED
| PISM_NOT_DESIGNATED
| PISM_OTHER
| PISM_CURRENT
| PISM_RECEIVE.
#[export] Instance PISM_states_t_eq_dec : EqDecision PISM_states_t := ltac:(solve_decision).

(** 13.33 Port Role Selection state machine *)
Inductive PRSSM_states_t :=
| PRSSM_INIT_TREE
| PRSSM_ROLE_SELECTION.
#[export] Instance PRSSM_states_t_eq_dec : EqDecision PRSSM_states_t := ltac:(solve_decision).

(** 13.34 Port Role Transitions state machine *)
Inductive PRTSM_states_t :=
| PRTSM_INIT_PORT
| PRTSM_DISABLE_PORT
| PRTSM_DISABLED_PORT
| PRTSM_MASTER_PROPOSED
| PRTSM_MASTER_AGREED
| PRTSM_MASTER_SYNCED
| PRTSM_MASTER_RETIRED
| PRTSM_MASTER_FORWARD
| PRTSM_MASTER_LEARN
| PRTSM_MASTER_DISCARD
| PRTSM_MASTER_PORT
| PRTSM_ROOT_PROPOSED
| PRTSM_ROOT_AGREED
| PRTSM_ROOT_SYNCED
| PRTSM_REROOT
| PRTSM_ROOT_FORWARD
| PRTSM_ROOT_LEARN
| PRTSM_REROOTED
| PRTSM_ROOT_PORT
| PRTSM_DESIGNATED_PROPOSE
| PRTSM_DESIGNATED_AGREED
| PRTSM_DESIGNATED_SYNCED
| PRTSM_DESIGNATED_RETIRED
| PRTSM_DESIGNATED_FORWARD
| PRTSM_DESIGNATED_LEARN
| PRTSM_DESIGNATED_DISCARD
| PRTSM_DESIGNATED_PORT
| PRTSM_BLOCK_PORT
| PRTSM_BACKUP_PORT
| PRTSM_ALTERNATE_PROPOSED
| PRTSM_ALTERNATE_AGREED
| PRTSM_ALTERNATE_PORT.
#[export] Instance PRTSM_states_t_eq_dec : EqDecision PRTSM_states_t := ltac:(solve_decision).

(** 13.35 Port State Transition state machine *)
Inductive PSTSM_states_t :=
| PSTSM_DISCARDING
| PSTSM_LEARNING
| PSTSM_FORWARDING.
#[export] Instance PSTSM_states_t_eq_dec : EqDecision PSTSM_states_t := ltac:(solve_decision).

(** 13.36 Topology Change state machine *)
Inductive TCSM_states_t :=
| TCSM_INACTIVE
| TCSM_LEARNING
| TCSM_DETECTED
| TCSM_NOTIFIED_TCN
| TCSM_NOTIFIED_TC
| TCSM_PROPAGATING
| TCSM_ACKNOWLEDGED
| TCSM_ACTIVE.
#[export] Instance TCSM_states_t_eq_dec : EqDecision TCSM_states_t := ltac:(solve_decision).

(** ** Identifiers and vectors

    Multi-byte network-order fields hold the value they have in host order;
    [be_bytes] recovers the bytes wherever the code compares or sends them. *)

Record bridge_identifier_t := mk_bridge_identifier {
  priority : Z;
  mac_address : list Z
}.
#[export] Instance eta_bridge_identifier_t : Eta bridge_identifier_t := λ r,
  mk_bridge_identifier
    (priority r) (mac_address r).
#[export] Instance set_priority : Setter priority := ltac:(build_setter).
#[export] Instance set_mac_address : Setter mac_address := ltac:(build_setter).
#[export] Instance bridge_identifier_t_eq_dec : EqDecision bridge_identifier_t := ltac:(solve_decision).

Definition bridge_id_bytes (b : bridge_identifier_t) : list Z :=
  be_bytes 2 (priority b) ++ mac_address b.

(** [GET_PRIORITY_FROM_IDENTIFIER] and [SET_PRIORITY_IN_IDENTIFIER] work on the
    first octet of a 16-bit field: of the port identifier itself, or of the
    priority of a bridge identifier. *)
Definition GET_PRIORITY_FROM_IDENTIFIER (id : Z) : Z := Z.land (id / 256) 0xF0.
Definition SET_PRIORITY_IN_IDENTIFIER (pri id : Z) : Z :=
  let first_octet := Z.lor (Z.land (id / 256) 0x0F) (Z.land pri 0xF0) in
  first_octet * 256 + id mod 256.

Record mst_configuration_identifier_t := mk_mst_configuration_identifier {
  selector : Z;
  configuration_name : list Z;
  revision_level : Z;
  configuration_digest : list Z
}.
#[export] Instance eta_mst_configuration_identifier_t : Eta mst_configuration_identifier_t := λ r,
  mk_mst_configuration_identifier
    (selector r) (configuration_name r) (revision_level r)
    (configuration_digest r).
#[export] Instance set_selector : Setter selector := ltac:(build_setter).
#[export] Instance set_configuration_name : Setter configuration_name := ltac:(build_setter).
#[export] Instance set_revision_level : Setter revision_level := ltac:(build_setter).
#[export] Instance set_configuration_digest : Setter configuration_digest := ltac:(build_setter).
#[export] Instance mst_configuration_identifier_t_eq_dec : EqDecision mst_configuration_identifier_t := ltac:(solve_decision).

Record port_priority_vector_t := mk_port_priority_vector {
  RRootID : bridge_identifier_t;
  IntRootPathCost : Z;
  DesignatedBridgeID : bridge_identifier_t;
  DesignatedPortID : Z;
  (* not used for MSTIs, only for CIST *)
  RootID : bridge_identifier_t;
  ExtRootPathCost : Z
}.
#[export] Instance eta_port_priority_vector_t : Eta port_priority_vector_t := λ r,
  mk_port_priority_vector
    (RRootID r) (IntRootPathCost r) (DesignatedBridgeID r)
    (DesignatedPortID r) (RootID r) (ExtRootPathCost r).
#[export] Instance set_RRootID : Setter RRootID := ltac:(build_setter).
#[export] Instance set_IntRootPathCost : Setter IntRootPathCost := ltac:(build_setter).
#[export] Instance set_DesignatedBridgeID : Setter DesignatedBridgeID := ltac:(build_setter).
#[export] Instance set_DesignatedPortID : Setter DesignatedPortID := ltac:(build_setter).
#[export] Instance set_RootID : Setter RootID := ltac:(build_setter).
#[export] Instance set_ExtRootPathCost : Setter ExtRootPathCost := ltac:(build_setter).
#[export] Instance port_priority_vector_t_eq_dec : EqDecision port_priority_vector_t := ltac:(solve_decision).

Record times_t := mk_times {
  remainingHops : Z;
  (* not used for MSTIs, only for CIST *)
  Forward_Delay : Z;
  Max_Age : Z;
  Message_Age : Z;
  Hello_Time : Z
}.
#[export] Instance eta_times_t : Eta times_t := λ r,
  mk_times
    (remainingHops r) (Forward_Delay r) (Max_Age r) (Message_Age r)
    (Hello_Time r).
#[export] Instance set_remainingHops : Setter remainingHops := ltac:(build_setter).
#[export] Instance set_Forward_Delay : Setter Forward_Delay := ltac:(build_setter).
#[export] Instance set_Max_Age : Setter Max_Age := ltac:(build_setter).
#[export] Instance set_Message_Age : Setter Message_Age := ltac:(build_setter).
#[export] Instance set_Hello_Time : Setter Hello_Time := ltac:(build_setter).
#[export] Instance times_t_eq_dec : EqDecision times_t := ltac:(solve_decision).

(** ** Wire format *)

Record msti_configuration_message_t := mk_msti_configuration_message {
  msti_flags : Z;
  mstiRRootID : bridge_identifier_t;
  mstiIntRootPathCost : Z;
  bridgeIdentifierPriority : Z;
  portIdentifierPriority : Z;
  msti_remainingHops : Z
}.
#[export] Instance eta_msti_configuration_message_t : Eta msti_configuration_message_t := λ r,
  mk_msti_configuration_message
    (msti_flags r) (mstiRRootID r) (mstiIntRootPathCost r)
    (bridgeIdentifierPriority r) (portIdentifierPriority r)
    (msti_remainingHops r).
#[export] Instance set_msti_flags : Setter msti_flags := ltac:(build_setter).
#[export] Instance set_mstiRRootID : Setter mstiRRootID := ltac:(build_setter).
#[export] Instance set_mstiIntRootPathCost : Setter mstiIntRootPathCost := ltac:(build_setter).
#[export] Instance set_bridgeIdentifierPriority : Setter bridgeIdentifierPriority := ltac:(build_setter).
#[export] Instance set_portIdentifierPriority : Setter portIdentifierPriority := ltac:(build_setter).
#[export] Instance set_msti_remainingHops : Setter msti_remainingHops := ltac:(build_setter).
#[export] Instance msti_configuration_message_t_eq_dec : EqDecision msti_configuration_message_t := ltac:(solve_decision).

Record bpdu_t := mk_bpdu {
  protocolIdentifier : Z;
  protocolVersion : Z;
  bpduType : Z;
  (* TCN BPDU ends here *)
  flags : Z;
  cistRootID : bridge_identifier_t;
  cistExtRootPathCost : Z;
  cistRRootID : bridge_identifier_t;
  cistPortID : Z;
  (* each time is two octets: whole seconds, then 1/256 s *)
  MessageAge : Z * Z;
  MaxAge : Z * Z;
  HelloTime : Z * Z;
  ForwardDelay : Z * Z;
  (* Config BPDU ends here *)
  version1_len : Z;
  (* RST BPDU ends here *)
  version3_len : Z;
  mstConfigurationIdentifier : mst_configuration_identifier_t;
  cistIntRootPathCost : Z;
  cistBridgeID : bridge_identifier_t;
  cistRemainingHops : Z;
  mstConfiguration : list msti_configuration_message_t
}.
#[export] Instance eta_bpdu_t : Eta bpdu_t := λ r,
  mk_bpdu
    (protocolIdentifier r) (protocolVersion r) (bpduType r) (flags r)
    (cistRootID r) (cistExtRootPathCost r) (cistRRootID r) (cistPortID r)
    (MessageAge r) (MaxAge r) (HelloTime r) (ForwardDelay r) (version1_len
    r) (version3_len r) (mstConfigurationIdentifier r)
    (cistIntRootPathCost r) (cistBridgeID r) (cistRemainingHops r)
    (mstConfiguration r).
#[export] Instance set_protocolIdentifier : Setter protocolIdentifier := ltac:(build_setter).
#[export] Instance set_protocolVersion : Setter protocolVersion := ltac:(build_setter).
#[export] Instance set_bpduType : Setter bpduType := ltac:(build_setter).
#[export] Instance set_flags : Setter flags := ltac:(build_setter).
#[export] Instance set_cistRootID : Setter cistRootID := ltac:(build_setter).
#[export] Instance set_cistExtRootPathCost : Setter cistExtRootPathCost := ltac:(build_setter).
#[export] Instance set_cistRRootID : Setter cistRRootID := ltac:(build_setter).
#[export] Instance set_cistPortID : Setter cistPortID := ltac:(build_setter).
#[export] Instance set_MessageAge : Setter MessageAge := ltac:(build_setter).
#[export] Instance set_MaxAge : Setter MaxAge := ltac:(build_setter).
#[export] Instance set_HelloTime : Setter HelloTime := ltac:(build_setter).
#[export] Instance set_ForwardDelay : Setter ForwardDelay := ltac:(build_setter).
#[export] Instance set_version1_len : Setter version1_len := ltac:(build_setter).
#[export] Instance set_version3_len : Setter version3_len := ltac:(build_setter).
#[export] Instance set_mstConfigurationIdentifier : Setter mstConfigurationIdentifier := ltac:(build_setter).
#[export] Instance set_cistIntRootPathCost : Setter cistIntRootPathCost := ltac:(build_setter).
#[export] Instance set_cistBridgeID : Setter cistBridgeID := ltac:(build_setter).
#[export] Instance set_cistRemainingHops : Setter cistRemainingHops := ltac:(build_setter).
#[export] Instance set_mstConfiguration : Setter mstConfiguration := ltac:(build_setter).
#[export] Instance bpdu_t_eq_dec : EqDecision bpdu_t := ltac:(solve_decision).

(** Sizes of the packed structures. *)
Definition sizeof_bridge_identifier : Z := 2 + 6.
Definition sizeof_mst_configuration_identifier : Z := 1 + 32 + 2 + 16.
Definition sizeof_msti_configuration_message : Z :=
  1 + sizeof_bridge_identifier + 4 + 1 + 1 + 1.
Definition TCN_BPDU_SIZE : Z := 2 + 1 + 1.
Definition CONFIG_BPDU_SIZE : Z :=
  TCN_BPDU_SIZE + 1 + sizeof_bridge_identifier + 4 + sizeof_bridge_identifier + 2
  + 2 + 2 + 2 + 2.
Definition RST_BPDU_SIZE : Z := CONFIG_BPDU_SIZE + 1.
Definition MST_BPDU_SIZE_WO_MSTI_MSGS : Z :=
  RST_BPDU_SIZE + 2 + sizeof_mst_configuration_identifier + 4
  + sizeof_bridge_identifier + 1.
Definition MST_BPDU_VER3LEN_WO_MSTI_MSGS : Z :=
  MST_BPDU_SIZE_WO_MSTI_MSGS - (RST_BPDU_SIZE + 2).

(** ** State objects

    The intrusive lists of the C structures are kept as lists of the addresses
    of their members.  A port is addressed by its [port_t *] (a number), a tree
    by its MSTID (distinct in [br_trees]), and a per-tree port, which is created
    once for each (port, tree) pair, by that pair; its back pointers [port] and
    [tree] and its member [MSTID] are the components of the address. *)
Definition port_id : Type := nat.
Definition tree_id : Type := Z.
Definition ptp_id : Type := port_id * tree_id.

Definition ptp_port (k : ptp_id) : port_id := fst k.
Definition ptp_tree (k : ptp_id) : tree_id := snd k.
Definition ptp_MSTID (k : ptp_id) : Z := snd k.

Record sysdep_br_data_t := mk_sysdep_br_data {
  br_if_index : Z;
  br_macaddr : list Z;
  br_name : string;
  br_up : bool
}.
#[export] Instance eta_sysdep_br_data_t : Eta sysdep_br_data_t := λ r,
  mk_sysdep_br_data
    (br_if_index r) (br_macaddr r) (br_name r) (br_up r).
#[export] Instance set_br_if_index : Setter br_if_index := ltac:(build_setter).
#[export] Instance set_br_macaddr : Setter br_macaddr := ltac:(build_setter).
#[export] Instance set_br_name : Setter br_name := ltac:(build_setter).
#[export] Instance set_br_up : Setter br_up := ltac:(build_setter).

Record sysdep_if_data_t := mk_sysdep_if_data {
  if_index : Z;
  macaddr : list Z;
  name : string;
  up : bool;
  speed : Z;
  duplex : Z
}.
#[export] Instance eta_sysdep_if_data_t : Eta sysdep_if_data_t := λ r,
  mk_sysdep_if_data
    (if_index r) (macaddr r) (name r) (up r) (speed r) (duplex r).
#[export] Instance set_if_index : Setter if_index := ltac:(build_setter).
#[export] Instance set_macaddr : Setter macaddr := ltac:(build_setter).
#[export] Instance set_name : Setter name := ltac:(build_setter).
#[export] Instance set_up : Setter up := ltac:(build_setter).
#[export] Instance set_speed : Setter speed := ltac:(build_setter).
#[export] Instance set_duplex : Setter duplex := ltac:(build_setter).

Record bridge_t := mk_bridge {
  br_ports : list port_id;
  br_trees : list tree_id;  (* first is the CIST *)
  bridgeEnabled : bool;
  MstConfigId : mst_configuration_identifier_t;
  ForceProtocolVersion : Z;
  MaxHops : Z;
  br_Forward_Delay : Z;
  br_Max_Age : Z;
  br_Hello_Time : Z;
  Transmit_Hold_Count : Z;
  Migrate_Time : Z;
  Ageing_Time : Z;
  vid2fid : list Z;  (* [MAX_VID + 1] *)
  fid2mstid : list Z;  (* [MAX_FID + 1] *)
  uptime : Z;
  stp_enabled : bool;
  br_sysdeps : sysdep_br_data_t
}.
#[export] Instance eta_bridge_t : Eta bridge_t := λ r,
  mk_bridge
    (br_ports r) (br_trees r) (bridgeEnabled r) (MstConfigId r)
    (ForceProtocolVersion r) (MaxHops r) (br_Forward_Delay r) (br_Max_Age
    r) (br_Hello_Time r) (Transmit_Hold_Count r) (Migrate_Time r)
    (Ageing_Time r) (vid2fid r) (fid2mstid r) (uptime r) (stp_enabled r)
    (br_sysdeps r).
#[export] Instance set_br_ports : Setter br_ports := ltac:(build_setter).
#[export] Instance set_br_trees : Setter br_trees := ltac:(build_setter).
#[export] Instance set_bridgeEnabled : Setter bridgeEnabled := ltac:(build_setter).
#[export] Instance set_MstConfigId : Setter MstConfigId := ltac:(build_setter).
#[export] Instance set_ForceProtocolVersion : Setter ForceProtocolVersion := ltac:(build_setter).
#[export] Instance set_MaxHops : Setter MaxHops := ltac:(build_setter).
#[export] Instance set_br_Forward_Delay : Setter br_Forward_Delay := ltac:(build_setter).
#[export] Instance set_br_Max_Age : Setter br_Max_Age := ltac:(build_setter).
#[export] Instance set_br_Hello_Time : Setter br_Hello_Time := ltac:(build_setter).
#[export] Instance set_Transmit_Hold_Count : Setter Transmit_Hold_Count := ltac:(build_setter).
#[export] Instance set_Migrate_Time : Setter Migrate_Time := ltac:(build_setter).
#[export] Instance set_Ageing_Time : Setter Ageing_Time := ltac:(build_setter).
#[export] Instance set_vid2fid : Setter vid2fid := ltac:(build_setter).
#[export] Instance set_fid2mstid : Setter fid2mstid := ltac:(build_setter).
#[export] Instance set_uptime : Setter uptime := ltac:(build_setter).
#[export] Instance set_stp_enabled : Setter stp_enabled := ltac:(build_setter).
#[export] Instance set_br_sysdeps : Setter br_sysdeps := ltac:(build_setter).

Record tree_t := mk_tree {
  tree_ports : list port_id;  (* ports of the per-tree-port list, in its order *)
  BridgeIdentifier : bridge_identifier_t;
  rootPortId : Z;
  rootPriority : port_priority_vector_t;
  BridgePriority : port_priority_vector_t;
  BridgeTimes : times_t;
  rootTimes : times_t;
  time_since_topology_change : Z;
  topology_change_count : Z;
  topology_change : bool;
  topology_change_port : string;
  last_topology_change_port : string;
  PRSSM_state : PRSSM_states_t
}.
#[export] Instance eta_tree_t : Eta tree_t := λ r,
  mk_tree
    (tree_ports r) (BridgeIdentifier r) (rootPortId r) (rootPriority r)
    (BridgePriority r) (BridgeTimes r) (rootTimes r)
    (time_since_topology_change r) (topology_change_count r)
    (topology_change r) (topology_change_port r)
    (last_topology_change_port r) (PRSSM_state r).
#[export] Instance set_tree_ports : Setter tree_ports := ltac:(build_setter).
#[export] Instance set_BridgeIdentifier : Setter BridgeIdentifier := ltac:(build_setter).
#[export] Instance set_rootPortId : Setter rootPortId := ltac:(build_setter).
#[export] Instance set_rootPriority : Setter rootPriority := ltac:(build_setter).
#[export] Instance set_BridgePriority : Setter BridgePriority := ltac:(build_setter).
#[export] Instance set_BridgeTimes : Setter BridgeTimes := ltac:(build_setter).
#[export] Instance set_rootTimes : Setter rootTimes := ltac:(build_setter).
#[export] Instance set_time_since_topology_change : Setter time_since_topology_change := ltac:(build_setter).
#[export] Instance set_topology_change_count : Setter topology_change_count := ltac:(build_setter).
#[export] Instance set_topology_change : Setter topology_change := ltac:(build_setter).
#[export] Instance set_topology_change_port : Setter topology_change_port := ltac:(build_setter).
#[export] Instance set_last_topology_change_port : Setter last_topology_change_port := ltac:(build_setter).
#[export] Instance set_PRSSM_state : Setter PRSSM_state := ltac:(build_setter).

Record port_t := mk_port {
  port_number : Z;
  prt_trees : list tree_id;  (* trees of the per-tree-port list, in its order *)
  mdelayWhile : Z;
  helloWhen : Z;
  edgeDelayWhile : Z;
  txCount : Z;
  operEdge : bool;
  portEnabled : bool;
  infoInternal : bool;
  rcvdInternal : bool;
  mcheck : bool;
  rcvdBpdu : bool;
  rcvdRSTP : bool;
  rcvdSTP : bool;
  rcvdTcAck : bool;
  rcvdTcn : bool;
  sendRSTP : bool;
  tcAck : bool;
  newInfo : bool;
  newInfoMsti : bool;
  operPointToPointMAC : bool;
  restrictedRole : bool;
  restrictedTcn : bool;
  ExternalPortPathCost : Z;
  AdminExternalPortPathCost : Z;
  AdminP2P : Z;
  AdminEdgePort : bool;
  AutoEdge : bool;
  BpduGuardPort : bool;
  BpduGuardError : bool;
  NetworkPort : bool;
  BaInconsistent : bool;
  dontTxmtBpdu : bool;
  bpduFilterPort : bool;
  rapidAgeingWhile : Z;
  brAssuRcvdInfoWhile : Z;
  PRSM_state : PRSM_states_t;
  PPMSM_state : PPMSM_states_t;
  BDSM_state : BDSM_states_t;
  PTSM_state : PTSM_states_t;
  rcvdBpduData : bpdu_t;
  rcvdBpduNumOfMstis : Z;
  deleted : bool;
  prt_sysdeps : sysdep_if_data_t;
  num_rx_bpdu_filtered : Z;
  num_rx_bpdu : Z;
  num_rx_tcn : Z;
  num_tx_bpdu : Z;
  num_tx_tcn : Z;
  num_trans_fwd : Z;
  num_trans_blk : Z
}.
#[export] Instance eta_port_t : Eta port_t := λ r,
  mk_port
    (port_number r) (prt_trees r) (mdelayWhile r) (helloWhen r)
    (edgeDelayWhile r) (txCount r) (operEdge r) (portEnabled r)
    (infoInternal r) (rcvdInternal r) (mcheck r) (rcvdBpdu r) (rcvdRSTP r)
    (rcvdSTP r) (rcvdTcAck r) (rcvdTcn r) (sendRSTP r) (tcAck r) (newInfo
    r) (newInfoMsti r) (operPointToPointMAC r) (restrictedRole r)
    (restrictedTcn r) (ExternalPortPathCost r) (AdminExternalPortPathCost
    r) (AdminP2P r) (AdminEdgePort r) (AutoEdge r) (BpduGuardPort r)
    (BpduGuardError r) (NetworkPort r) (BaInconsistent r) (dontTxmtBpdu r)
    (bpduFilterPort r) (rapidAgeingWhile r) (brAssuRcvdInfoWhile r)
    (PRSM_state r) (PPMSM_state r) (BDSM_state r) (PTSM_state r)
    (rcvdBpduData r) (rcvdBpduNumOfMstis r) (deleted r) (prt_sysdeps r)
    (num_rx_bpdu_filtered r) (num_rx_bpdu r) (num_rx_tcn r) (num_tx_bpdu
    r) (num_tx_tcn r) (num_trans_fwd r) (num_trans_blk r).
#[export] Instance set_port_number : Setter port_number := ltac:(build_setter).
#[export] Instance set_prt_trees : Setter prt_trees := ltac:(build_setter).
#[export] Instance set_mdelayWhile : Setter mdelayWhile := ltac:(build_setter).
#[export] Instance set_helloWhen : Setter helloWhen := ltac:(build_setter).
#[export] Instance set_edgeDelayWhile : Setter edgeDelayWhile := ltac:(build_setter).
#[export] Instance set_txCount : Setter txCount := ltac:(build_setter).
#[export] Instance set_operEdge : Setter operEdge := ltac:(build_setter).
#[export] Instance set_portEnabled : Setter portEnabled := ltac:(build_setter).
#[export] Instance set_infoInternal : Setter infoInternal := ltac:(build_setter).
#[export] Instance set_rcvdInternal : Setter rcvdInternal := ltac:(build_setter).
#[export] Instance set_mcheck : Setter mcheck := ltac:(build_setter).
#[export] Instance set_rcvdBpdu : Setter rcvdBpdu := ltac:(build_setter).
#[export] Instance set_rcvdRSTP : Setter rcvdRSTP := ltac:(build_setter).
#[export] Instance set_rcvdSTP : Setter rcvdSTP := ltac:(build_setter).
#[export] Instance set_rcvdTcAck : Setter rcvdTcAck := ltac:(build_setter).
#[export] Instance set_rcvdTcn : Setter rcvdTcn := ltac:(build_setter).
#[export] Instance set_sendRSTP : Setter sendRSTP := ltac:(build_setter).
#[export] Instance set_tcAck : Setter tcAck := ltac:(build_setter).
#[export] Instance set_newInfo : Setter newInfo := ltac:(build_setter).
#[export] Instance set_newInfoMsti : Setter newInfoMsti := ltac:(build_setter).
#[export] Instance set_operPointToPointMAC : Setter operPointToPointMAC := ltac:(build_setter).
#[export] Instance set_restrictedRole : Setter restrictedRole := ltac:(build_setter).
#[export] Instance set_restrictedTcn : Setter restrictedTcn := ltac:(build_setter).
#[export] Instance set_ExternalPortPathCost : Setter ExternalPortPathCost := ltac:(build_setter).
#[export] Instance set_AdminExternalPortPathCost : Setter AdminExternalPortPathCost := ltac:(build_setter).
#[export] Instance set_AdminP2P : Setter AdminP2P := ltac:(build_setter).
#[export] Instance set_AdminEdgePort : Setter AdminEdgePort := ltac:(build_setter).
#[export] Instance set_AutoEdge : Setter AutoEdge := ltac:(build_setter).
#[export] Instance set_BpduGuardPort : Setter BpduGuardPort := ltac:(build_setter).
#[export] Instance set_BpduGuardError : Setter BpduGuardError := ltac:(build_setter).
#[export] Instance set_NetworkPort : Setter NetworkPort := ltac:(build_setter).
#[export] Instance set_BaInconsistent : Setter BaInconsistent := ltac:(build_setter).
#[export] Instance set_dontTxmtBpdu : Setter dontTxmtBpdu := ltac:(build_setter).
#[export] Instance set_bpduFilterPort : Setter bpduFilterPort := ltac:(build_setter).
#[export] Instance set_rapidAgeingWhile : Setter rapidAgeingWhile := ltac:(build_setter).
#[export] Instance set_brAssuRcvdInfoWhile : Setter brAssuRcvdInfoWhile := ltac:(build_setter).
#[export] Instance set_PRSM_state : Setter PRSM_state := ltac:(build_setter).
#[export] Instance set_PPMSM_state : Setter PPMSM_state := ltac:(build_setter).
#[export] Instance set_BDSM_state : Setter BDSM_state := ltac:(build_setter).
#[export] Instance set_PTSM_state : Setter PTSM_state := ltac:(build_setter).
#[export] Instance set_rcvdBpduData : Setter rcvdBpduData := ltac:(build_setter).
#[export] Instance set_rcvdBpduNumOfMstis : Setter rcvdBpduNumOfMstis := ltac:(build_setter).
#[export] Instance set_deleted : Setter deleted := ltac:(build_setter).
#[export] Instance set_prt_sysdeps : Setter prt_sysdeps := ltac:(build_setter).
#[export] Instance set_num_rx_bpdu_filtered : Setter num_rx_bpdu_filtered := ltac:(build_setter).
#[export] Instance set_num_rx_bpdu : Setter num_rx_bpdu := ltac:(build_setter).
#[export] Instance set_num_rx_tcn : Setter num_rx_tcn := ltac:(build_setter).
#[export] Instance set_num_tx_bpdu : Setter num_tx_bpdu := ltac:(build_setter).
#[export] Instance set_num_tx_tcn : Setter num_tx_tcn := ltac:(build_setter).
#[export] Instance set_num_trans_fwd : Setter num_trans_fwd := ltac:(build_setter).
#[export] Instance set_num_trans_blk : Setter num_trans_blk := ltac:(build_setter).

Record per_tree_port_t := mk_per_tree_port {
  ptp_state : Z;  (* BR_STATE_xxx *)
  fdWhile : Z;
  rrWhile : Z;
  rbWhile : Z;
  tcWhile : Z;
  rcvdInfoWhile : Z;
  agree : bool;
  agreed : bool;
  disputed : bool;
  forward : bool;
  forwarding : bool;
  learn : bool;
  learning : bool;
  rcvdInfo : port_info_t;
  infoIs : port_info_origin_t;
  proposed : bool;
  proposing : bool;
  rcvdMsg : bool;
  rcvdTc : bool;
  reRoot : bool;
  reselect : bool;
  selected : bool;
  fdbFlush : bool;
  tcProp : bool;
  updtInfo : bool;
  sync : bool;
  synced : bool;
  portId : Z;
  role : port_role_t;
  selectedRole : port_role_t;
  designatedPriority : port_priority_vector_t;
  msgPriority : port_priority_vector_t;
  portPriority : port_priority_vector_t;
  designatedTimes : times_t;
  msgTimes : times_t;
  portTimes : times_t;
  master : bool;
  mastered : bool;
  InternalPortPathCost : Z;
  AdminInternalPortPathCost : Z;
  start_time : Z;
  PISM_state : PISM_states_t;
  PRTSM_state : PRTSM_states_t;
  PSTSM_state : PSTSM_states_t;
  TCSM_state : TCSM_states_t;
  calledFromFlushRoutine : bool;
  rcvdMstiConfig : option nat  (* index into rcvdBpduData.mstConfiguration *)
}.
#[export] Instance eta_per_tree_port_t : Eta per_tree_port_t := λ r,
  mk_per_tree_port
    (ptp_state r) (fdWhile r) (rrWhile r) (rbWhile r) (tcWhile r)
    (rcvdInfoWhile r) (agree r) (agreed r) (disputed r) (forward r)
    (forwarding r) (learn r) (learning r) (rcvdInfo r) (infoIs r)
    (proposed r) (proposing r) (rcvdMsg r) (rcvdTc r) (reRoot r) (reselect
    r) (selected r) (fdbFlush r) (tcProp r) (updtInfo r) (sync r) (synced
    r) (portId r) (role r) (selectedRole r) (designatedPriority r)
    (msgPriority r) (portPriority r) (designatedTimes r) (msgTimes r)
    (portTimes r) (master r) (mastered r) (InternalPortPathCost r)
    (AdminInternalPortPathCost r) (start_time r) (PISM_state r)
    (PRTSM_state r) (PSTSM_state r) (TCSM_state r) (calledFromFlushRoutine
    r) (rcvdMstiConfig r).
#[export] Instance set_ptp_state : Setter ptp_state := ltac:(build_setter).
#[export] Instance set_fdWhile : Setter fdWhile := ltac:(build_setter).
#[export] Instance set_rrWhile : Setter rrWhile := ltac:(build_setter).
#[export] Instance set_rbWhile : Setter rbWhile := ltac:(build_setter).
#[export] Instance set_tcWhile : Setter tcWhile := ltac:(build_setter).
#[export] Instance set_rcvdInfoWhile : Setter rcvdInfoWhile := ltac:(build_setter).
#[export] Instance set_agree : Setter agree := ltac:(build_setter).
#[export] Instance set_agreed : Setter agreed := ltac:(build_setter).
#[export] Instance set_disputed : Setter disputed := ltac:(build_setter).
#[export] Instance set_forward : Setter forward := ltac:(build_setter).
#[export] Instance set_forwarding : Setter forwarding := ltac:(build_setter).
#[export] Instance set_learn : Setter learn := ltac:(build_setter).
#[export] Instance set_learning : Setter learning := ltac:(build_setter).
#[export] Instance set_rcvdInfo : Setter rcvdInfo := ltac:(build_setter).
#[export] Instance set_infoIs : Setter infoIs := ltac:(build_setter).
#[export] Instance set_proposed : Setter proposed := ltac:(build_setter).
#[export] Instance set_proposing : Setter proposing := ltac:(build_setter).
#[export] Instance set_rcvdMsg : Setter rcvdMsg := ltac:(build_setter).
#[export] Instance set_rcvdTc : Setter rcvdTc := ltac:(build_setter).
#[export] Instance set_reRoot : Setter reRoot := ltac:(build_setter).
#[export] Instance set_reselect : Setter reselect := ltac:(build_setter).
#[export] Instance set_selected : Setter selected := ltac:(build_setter).
#[export] Instance set_fdbFlush : Setter fdbFlush := ltac:(build_setter).
#[export] Instance set_tcProp : Setter tcProp := ltac:(build_setter).
#[export] Instance set_updtInfo : Setter updtInfo := ltac:(build_setter).
#[export] Instance set_sync : Setter sync := ltac:(build_setter).
#[export] Instance set_synced : Setter synced := ltac:(build_setter).
#[export] Instance set_portId : Setter portId := ltac:(build_setter).
#[export] Instance set_role : Setter role := ltac:(build_setter).
#[export] Instance set_selectedRole : Setter selectedRole := ltac:(build_setter).
#[export] Instance set_designatedPriority : Setter designatedPriority := ltac:(build_setter).
#[export] Instance set_msgPriority : Setter msgPriority := ltac:(build_setter).
#[export] Instance set_portPriority : Setter portPriority := ltac:(build_setter).
#[export] Instance set_designatedTimes : Setter designatedTimes := ltac:(build_setter).
#[export] Instance set_msgTimes : Setter msgTimes := ltac:(build_setter).
#[export] Instance set_portTimes : Setter portTimes := ltac:(build_setter).
#[export] Instance set_master : Setter master := ltac:(build_setter).
#[export] Instance set_mastered : Setter mastered := ltac:(build_setter).
#[export] Instance set_InternalPortPathCost : Setter InternalPortPathCost := ltac:(build_setter).
#[export] Instance set_AdminInternalPortPathCost : Setter AdminInternalPortPathCost := ltac:(build_setter).
#[export] Instance set_start_time : Setter start_time := ltac:(build_setter).
#[export] Instance set_PISM_state : Setter PISM_state := ltac:(build_setter).
#[export] Instance set_PRTSM_state : Setter PRTSM_state := ltac:(build_setter).
#[export] Instance set_PSTSM_state : Setter PSTSM_state := ltac:(build_setter).
#[export] Instance set_TCSM_state : Setter TCSM_state := ltac:(build_setter).
#[export] Instance set_calledFromFlushRoutine : Setter calledFromFlushRoutine := ltac:(build_setter).
#[export] Instance set_rcvdMstiConfig : Setter rcvdMstiConfig := ltac:(build_setter).

(** Zero-filled objects, as [calloc] and [memset] leave them. *)
Definition zero_bridge_id : bridge_identifier_t := mk_bridge_identifier 0 (replicate ETH_ALEN 0).
Definition zero_vector : port_priority_vector_t :=
  mk_port_priority_vector zero_bridge_id 0 zero_bridge_id 0 zero_bridge_id 0.
Definition zero_times : times_t := mk_times 0 0 0 0 0.
Definition zero_config_id : mst_configuration_identifier_t :=
  mk_mst_configuration_identifier 0 (replicate CONFIGURATION_NAME_LEN 0) 0
    (replicate CONFIGURATION_DIGEST_LEN 0).
Definition zero_msti_message : msti_configuration_message_t :=
  mk_msti_configuration_message 0 zero_bridge_id 0 0 0 0.
Definition zero_bpdu : bpdu_t :=
  mk_bpdu 0 0 0 0 zero_bridge_id 0 zero_bridge_id 0 (0, 0) (0, 0) (0, 0) (0, 0) 0 0
    zero_config_id 0 zero_bridge_id 0
    (replicate (Z.to_nat MAX_STANDARD_MSTIS) zero_msti_message).
Definition zero_tree : tree_t :=
  mk_tree [] zero_bridge_id 0 zero_vector zero_vector zero_times zero_times 0 0 false
    EmptyString EmptyString PRSSM_INIT_TREE.
Definition zero_per_tree_port : per_tree_port_t :=
  mk_per_tree_port 0 0 0 0 0 0 false false false false false false false OtherInfo
    ioDisabled false false false false false false false false false false false false
    0 roleDisabled roleDisabled zero_vector zero_vector zero_vector
    zero_times zero_times zero_times false false 0 0 0
    PISM_DISABLED PRTSM_INIT_PORT PSTSM_DISCARDING TCSM_INACTIVE false None.
Definition zero_port : port_t :=
  mk_port 0 [] 0 0 0 0 false false false false
    false false false false false false false false false false
    false false false 0 0 0 false false false false false false false false 0 0
    PRSM_DISCARD PPMSM_CHECKING_RSTP BDSM_EDGE PTSM_TRANSMIT_INIT zero_bpdu 0 false
    (mk_sysdep_if_data 0 (replicate ETH_ALEN 0) EmptyString false 0 0) 0 0 0 0 0 0 0.
Definition zero_bridge : bridge_t :=
  mk_bridge [] [] false zero_config_id 0 0 0 0 0 0 0 0 [] [] 0 false
    (mk_sysdep_br_data 0 (replicate ETH_ALEN 0) EmptyString false).

