(* ===== verification/Monad.v ===== *)
(** The state the daemon keeps for one bridge, and the monad its functions run
    in.  The objects live in stores addressed by their pointers; dereferencing
    a pointer that is not in its store is a [Fault], and a recursion that
    exhausts the depth it was given is [OutOfFuel].  The second half is a
    weakest-precondition calculus for these computations. *)
From S2P Require Import Prelude Types.

(** ** World *)

(** What the code does to the outside: the calls into the kernel that
    bridge_track.c makes for the MSTP_OUT_xxx actions. *)
Inductive event :=
| EvSetState (if_index new_state : Z)
| EvFlush (ifname : string)
| EvAgeing (brname : string) (time : Z)
| EvSend (if_index : Z) (src : list Z) (len8023 : Z) (b : bpdu_t) (size : Z)
| EvShutdown (ifname : string).
#[export] Instance event_eq_dec : EqDecision event := ltac:(solve_decision).

(** A reading of CLOCK_MONOTONIC: seconds and nanoseconds. *)
Definition timespec : Type := Z * Z.

(** [w_clock] holds the clock readings still to come and [w_calloc] the
    outcomes of the allocations still to come (allocation succeeds once the
    list is used up). *)
Record world := mk_world {
  w_br : bridge_t;
  w_trees : gmap tree_id tree_t;
  w_ports : gmap port_id port_t;
  w_ptps : gmap ptp_id per_tree_port_t;
  w_out : list event;
  w_clock : list timespec;
  w_calloc : list bool
}.
#[export] Instance eta_world : Eta world := λ r,
  mk_world (w_br r) (w_trees r) (w_ports r) (w_ptps r) (w_out r) (w_clock r) (w_calloc r).
#[export] Instance set_w_br : Setter w_br := ltac:(build_setter).
#[export] Instance set_w_trees : Setter w_trees := ltac:(build_setter).
#[export] Instance set_w_ports : Setter w_ports := ltac:(build_setter).
#[export] Instance set_w_ptps : Setter w_ptps := ltac:(build_setter).
#[export] Instance set_w_out : Setter w_out := ltac:(build_setter).
#[export] Instance set_w_clock : Setter w_clock := ltac:(build_setter).
#[export] Instance set_w_calloc : Setter w_calloc := ltac:(build_setter).

(** ** Monad *)

Inductive outcome (A : Type) :=
| Done (a : A) (w : world)
| Fault
| OutOfFuel.
Arguments Done {A} a w.
Arguments Fault {A}.
Arguments OutOfFuel {A}.

Definition M (A : Type) : Type := world → outcome A.

#[export] Instance M_ret : MRet M := λ A a w, Done a w.
#[export] Instance M_bind : MBind M := λ A B f m w,
  match m w with
  | Done a w' => f a w'
  | Fault => Fault
  | OutOfFuel => OutOfFuel
  end.

Definition fault {A} : M A := λ _, Fault.
Definition out_of_fuel {A} : M A := λ _, OutOfFuel.
Definition skip : M unit := mret tt.

Definition of_option {A} (o : option A) : M A :=
  match o with Some a => mret a | None => fault end.

(** [if(b) m] *)
Definition when (b : bool) (m : M unit) : M unit := if b then m else skip.

(** Reading and writing through pointers. *)
Definition get_br : M bridge_t := λ w, Done (w_br w) w.
Definition upd_br (f : bridge_t → bridge_t) : M unit := λ w, Done tt (w <| w_br ::= f |>).

Definition get_tree (t : tree_id) : M tree_t := λ w, of_option (w_trees w !! t) w.
Definition upd_tree (t : tree_id) (f : tree_t → tree_t) : M unit := λ w,
  match w_trees w !! t with
  | Some x => Done tt (w <| w_trees := <[t := f x]> (w_trees w) |>)
  | None => Fault
  end.

Definition get_port (p : port_id) : M port_t := λ w, of_option (w_ports w !! p) w.
Definition upd_port (p : port_id) (f : port_t → port_t) : M unit := λ w,
  match w_ports w !! p with
  | Some x => Done tt (w <| w_ports := <[p := f x]> (w_ports w) |>)
  | None => Fault
  end.

Definition get_ptp (k : ptp_id) : M per_tree_port_t := λ w, of_option (w_ptps w !! k) w.
Definition upd_ptp (k : ptp_id) (f : per_tree_port_t → per_tree_port_t) : M unit := λ w,
  match w_ptps w !! k with
  | Some x => Done tt (w <| w_ptps := <[k := f x]> (w_ptps w) |>)
  | None => Fault
  end.

(** Allocation and release. *)
Definition calloc_ok : M bool := λ w,
  match w_calloc w with
  | [] => Done true w
  | b :: l => Done b (w <| w_calloc := l |>)
  end.
Definition new_tree (t : tree_id) (x : tree_t) : M unit :=
  λ w, Done tt (w <| w_trees ::= <[t := x]> |>).
Definition free_tree (t : tree_id) : M unit := λ w, Done tt (w <| w_trees ::= delete t |>).
Definition new_ptp (k : ptp_id) (x : per_tree_port_t) : M unit :=
  λ w, Done tt (w <| w_ptps ::= <[k := x]> |>).
Definition free_ptp (k : ptp_id) : M unit := λ w, Done tt (w <| w_ptps ::= delete k |>).
Definition alloc_port (p : port_id) (x : port_t) : M unit :=
  λ w, Done tt (w <| w_ports ::= <[p := x]> |>).
Definition free_port (p : port_id) : M unit := λ w, Done tt (w <| w_ports ::= delete p |>).

Definition emit (e : event) : M unit := λ w, Done tt (w <| w_out ::= λ l, l ++ [e] |>).

(** [clock_gettime(CLOCK_MONOTONIC, ...)]; the run ends when the environment
    supplies no further reading. *)
Definition clock_gettime : M timespec := λ w,
  match w_clock w with
  | [] => OutOfFuel
  | t :: l => Done t (w <| w_clock := l |>)
  end.

(** How many readings the environment still has: a bound for the loops that
    take one per iteration. *)
Definition clock_readings : M nat := λ w, Done (length (w_clock w)) w.

(** ** Loops *)

(** [FOREACH_xxx] over a list whose members the body does not unlink. *)
Fixpoint for_each {A} (l : list A) (body : A → M unit) : M unit :=
  match l with
  | [] => skip
  | x :: l' => body x ;; for_each l' body
  end.

(** A loop that leaves with [return true] as soon as the body says so. *)
Fixpoint any_of {A} (l : list A) (body : A → M bool) : M bool :=
  match l with
  | [] => mret false
  | x :: l' => b ← body x; if (b : bool) then mret true else any_of l' body
  end.

(** A loop that leaves as soon as the body says [false]. *)
Fixpoint all_of {A} (l : list A) (body : A → M bool) : M bool :=
  match l with
  | [] => mret true
  | x :: l' => b ← body x; if (b : bool) then all_of l' body else mret false
  end.

(** The members of the lists, as addresses. *)
Definition ports_of_bridge : M (list port_id) := br ← get_br; mret (br_ports br).
Definition trees_of_bridge : M (list tree_id) := br ← get_br; mret (br_trees br).
Definition ptps_of_port (p : port_id) : M (list ptp_id) :=
  x ← get_port p; mret (map (λ t, (p, t)) (prt_trees x)).
Definition ptps_of_tree (t : tree_id) : M (list ptp_id) :=
  x ← get_tree t; mret (map (λ p, (p, t)) (tree_ports x)).

Definition FOREACH_PORT_IN_BRIDGE (body : port_id → M unit) : M unit :=
  l ← ports_of_bridge; for_each l body.
Definition FOREACH_TREE_IN_BRIDGE (body : tree_id → M unit) : M unit :=
  l ← trees_of_bridge; for_each l body.
Definition FOREACH_PTP_IN_PORT (p : port_id) (body : ptp_id → M unit) : M unit :=
  l ← ptps_of_port p; for_each l body.
Definition FOREACH_PTP_IN_TREE (t : tree_id) (body : ptp_id → M unit) : M unit :=
  l ← ptps_of_tree t; for_each l body.

(** [list_for_each_entry_continue(ptp, &prt->trees, port_list)] *)
Definition ptps_of_port_after (k : ptp_id) : M (list ptp_id) :=
  l ← ptps_of_port (ptp_port k); mret (after k l).

(** [GET_CIST_TREE] and [GET_CIST_PTP_FROM_PORT]: the first list entry. *)
Definition GET_CIST_TREE : M tree_id :=
  l ← trees_of_bridge; of_option (head l).
Definition GET_CIST_PTP_FROM_PORT (p : port_id) : M ptp_id :=
  l ← ptps_of_port p; of_option (head l).

(** One guarded transition of a state machine: a dry run only reports it. *)
Definition transition (dry_run : bool) (act : M unit) : M bool :=
  if dry_run then mret true else act ;; mret false.

(** ** Weakest preconditions

    [wp E m Q w]: run from [w], [m] does not fault and ends in a result that
    satisfies [Q]; running out of fuel is allowed exactly when [E] holds. *)
Definition wp {A} (E : Prop) (m : M A) (Q : A → world → Prop) (w : world) : Prop :=
  match m w with
  | Done a w' => Q a w'
  | Fault => False
  | OutOfFuel => E
  end.

Section wp.
Context {E : Prop}.

Lemma wp_ret {A} (a : A) Q w : Q a w → wp E (mret a) Q w.
Proof. done. Qed.

Lemma wp_bind {A B} (m : M A) (f : A → M B) Q w :
  wp E m (λ a w', wp E (f a) Q w') w → wp E (m ≫= f) Q w.
Proof. unfold wp, mbind, M_bind. by destruct (m w). Qed.

Lemma wp_mono {A} (m : M A) (Q Q' : A → world → Prop) w :
  wp E m Q w → (∀ a w', Q a w' → Q' a w') → wp E m Q' w.
Proof. unfold wp. destruct (m w); auto. Qed.

Lemma wp_get_br Q w : Q (w_br w) w → wp E get_br Q w.
Proof. done. Qed.

Lemma wp_upd_br f Q w : Q tt (w <| w_br ::= f |>) → wp E (upd_br f) Q w.
Proof. done. Qed.

Lemma wp_get_port p x Q w : w_ports w !! p = Some x → Q x w → wp E (get_port p) Q w.
Proof. unfold wp, get_port. by intros ->. Qed.

Lemma wp_get_tree t x Q w : w_trees w !! t = Some x → Q x w → wp E (get_tree t) Q w.
Proof. unfold wp, get_tree. by intros ->. Qed.

Lemma wp_get_ptp k x Q w : w_ptps w !! k = Some x → Q x w → wp E (get_ptp k) Q w.
Proof. unfold wp, get_ptp. by intros ->. Qed.

Lemma wp_upd_port p x f Q w :
  w_ports w !! p = Some x → Q tt (w <| w_ports := <[p := f x]> (w_ports w) |>) →
  wp E (upd_port p f) Q w.
Proof. unfold wp, upd_port. by intros ->. Qed.

Lemma wp_upd_tree t x f Q w :
  w_trees w !! t = Some x → Q tt (w <| w_trees := <[t := f x]> (w_trees w) |>) →
  wp E (upd_tree t f) Q w.
Proof. unfold wp, upd_tree. by intros ->. Qed.

Lemma wp_upd_ptp k x f Q w :
  w_ptps w !! k = Some x → Q tt (w <| w_ptps := <[k := f x]> (w_ptps w) |>) →
  wp E (upd_ptp k f) Q w.
Proof. unfold wp, upd_ptp. by intros ->. Qed.

(** Loops that keep an invariant. *)
Lemma wp_for_each {A} (I : world → Prop) (l : list A) (body : A → M unit) w :
  (∀ x w, x ∈ l → I w → wp E (body x) (λ _, I) w) →
  I w → wp E (for_each l body) (λ _, I) w.
Proof.
  revert w. induction l as [|x l IH]; intros w Hb Hw; simpl; [done|].
  apply wp_bind. eapply wp_mono; [apply Hb; [left|done]|].
  intros ? w' Hw'. apply IH; [|done]. intros; apply Hb; [by right|done].
Qed.

Lemma wp_any_of {A} (I : world → Prop) (l : list A) (body : A → M bool) w :
  (∀ x w, x ∈ l → I w → wp E (body x) (λ _, I) w) →
  I w → wp E (any_of l body) (λ _, I) w.
Proof.
  revert w. induction l as [|x l IH]; intros w Hb Hw; simpl; [done|].
  apply wp_bind. eapply wp_mono; [apply Hb; [left|done]|].
  intros [] w' Hw'; [done|]. apply IH; [|done]. intros; apply Hb; [by right|done].
Qed.

Lemma wp_all_of {A} (I : world → Prop) (l : list A) (body : A → M bool) w :
  (∀ x w, x ∈ l → I w → wp E (body x) (λ _, I) w) →
  I w → wp E (all_of l body) (λ _, I) w.
Proof.
  revert w. induction l as [|x l IH]; intros w Hb Hw; simpl; [done|].
  apply wp_bind. eapply wp_mono; [apply Hb; [left|done]|].
  intros [] w' Hw'; [|done]. apply IH; [|done]. intros; apply Hb; [by right|done].
Qed.
End wp.

(** Reading a computation back from its weakest precondition. *)
Lemma wp_Done {A} (E : Prop) (m : M A) Q w a w' :
  wp E m Q w → m w = Done a w' → Q a w'.
Proof. unfold wp. intros Hm Heq. by rewrite Heq in Hm. Qed.

Lemma wp_returns {A} (m : M A) Q w :
  wp False m Q w → ∃ a w', m w = Done a w' ∧ Q a w'.
Proof. unfold wp. destruct (m w); [eauto|done|done]. Qed.

Lemma bind_Done {A B} (m : M A) (f : A → M B) w a w' :
  m w = Done a w' → (m ≫= f) w = f a w'.
Proof. unfold mbind, M_bind. by intros ->. Qed.

Lemma bind_Done_inv {A B} (m : M A) (f : A → M B) w b w' :
  (m ≫= f) w = Done b w' → ∃ a w1, m w = Done a w1 ∧ f a w1 = Done b w'.
Proof. unfold mbind, M_bind. destruct (m w); [eauto|done|done]. Qed.

Lemma bind_ext {A B} (m : M A) (f g : A → M B) w :
  (∀ a w', m w = Done a w' → f a w' = g a w') → (m ≫= f) w = (m ≫= g) w.
Proof. unfold mbind, M_bind. destruct (m w); auto. Qed.

Lemma bind_congr {A B} (m m' : M A) (f : A → M B) w :
  m w = m' w → (m ≫= f) w = (m' ≫= f) w.
Proof. unfold mbind, M_bind. by intros ->. Qed.

(** What the primitives did when they returned. *)
Lemma get_tree_Done t w x w' : get_tree t w = Done x w' → w_trees w !! t = Some x ∧ w' = w.
Proof. unfold get_tree. destruct (w_trees w !! t); [by intros [= <- <-]|done]. Qed.
Lemma get_port_Done p w x w' : get_port p w = Done x w' → w_ports w !! p = Some x ∧ w' = w.
Proof. unfold get_port. destruct (w_ports w !! p); [by intros [= -> ->]|done]. Qed.

Lemma get_ptp_Done k w x w' : get_ptp k w = Done x w' → w_ptps w !! k = Some x ∧ w' = w.
Proof. unfold get_ptp. destruct (w_ptps w !! k); [by intros [= -> ->]|done]. Qed.

Lemma upd_port_Done p f w w' :
  upd_port p f w = Done tt w' →
  ∃ x, w_ports w !! p = Some x ∧ w' = w <| w_ports := <[p := f x]> (w_ports w) |>.
Proof. unfold upd_port. destruct (w_ports w !! p) as [x|]; [|done]. intros [= <-]. eauto. Qed.

Lemma upd_ptp_Done k f w w' :
  upd_ptp k f w = Done tt w' →
  ∃ x, w_ptps w !! k = Some x ∧ w' = w <| w_ptps := <[k := f x]> (w_ptps w) |>.
Proof. unfold upd_ptp. destruct (w_ptps w !! k) as [x|]; [|done]. intros [= <-]. eauto. Qed.
