(* ===== verification/Clib.v ===== *)
(** The parts of the C library the daemon and its client use on text: characters are
    integers, a C string is the list of its characters without the final NUL. *)
From S2P Require Import Prelude.

(** ** Characters *)

Definition is_digit (c : Z) : bool := (48 <=? c) && (c <=? 57).

(** isspace() in the C locale. *)
Definition is_space (c : Z) : bool := (c =? 32) || ((9 <=? c) && (c <=? 13)).

(** The value of a digit in bases up to 36. *)
Definition digit_value (c : Z) : option Z :=
  if is_digit c then Some (c - 48)
  else if (97 <=? c) && (c <=? 122) then Some (c - 87)
  else if (65 <=? c) && (c <=? 90) then Some (c - 55)
  else None.

Definition digit_in (base c : Z) : option Z :=
  v ← digit_value c; if v <? base then Some v else None.

Definition chars (s : string) : list Z :=
  map (λ a, Z.of_nat (Ascii.nat_of_ascii a)) (String.list_ascii_of_string s).

(** What is before the first NUL of a buffer. *)
Fixpoint until_nul (buf : list Z) : list Z :=
  match buf with
  | [] => []
  | c :: buf' => if c =? 0 then [] else c :: until_nul buf'
  end.

(** ** strtoul() and strtol() *)

Fixpoint skip_spaces (s : list Z) : list Z :=
  match s with
  | c :: s' => if is_space c then skip_spaces s' else s
  | [] => []
  end.

(** The digits at the head of [s]: their value after [acc], and the rest. *)
Fixpoint scan_digits (base acc : Z) (s : list Z) : Z * list Z :=
  match s with
  | c :: s' =>
      match digit_in base c with
      | Some v => scan_digits base (acc * base + v) s'
      | None => (acc, s)
      end
  | [] => (acc, [])
  end.

Definition starts_digit (base : Z) (s : list Z) : bool :=
  match s with c :: _ => bool_decide (is_Some (digit_in base c)) | [] => false end.

(** The base that applies, and the digits after the prefix. *)
Definition strip_prefix (base : Z) (s : list Z) : Z * list Z :=
  match s with
  | 48 :: x :: s' =>
      if ((base =? 0) || (base =? 16)) && ((x =? 120) || (x =? 88)) && starts_digit 16 s'
      then (16, s') else (if base =? 0 then 8 else base, s)
  | 48 :: [] => (if base =? 0 then 8 else base, s)
  | _ => (if base =? 0 then 10 else base, s)
  end.

(** The sign, the magnitude and the rest; [None] when there is no number, in which
    case [*end] is the start of the string. *)
Definition scan_number (base : Z) (s : list Z) : option (bool * Z * list Z) :=
  let s1 := skip_spaces s in
  let '(neg, s2) :=
    match s1 with
    | 45 :: s' => (true, s')
    | 43 :: s' => (false, s')
    | _ => (false, s1)
    end in
  let '(b, s3) := strip_prefix base s2 in
  if starts_digit b s3 then let '(v, rest) := scan_digits b 0 s3 in Some (neg, v, rest)
  else None.

Definition ULONG_MAX : Z := 2 ^ 64 - 1.
Definition LONG_MAX : Z := 2 ^ 63 - 1.
Definition INT_MAX : Z := 2 ^ 31 - 1.

(** The value and [*end]. *)
Definition strtoul (base : Z) (s : list Z) : Z * list Z :=
  match scan_number base s with
  | None => (0, s)
  | Some (neg, v, rest) =>
      (if ULONG_MAX <? v then ULONG_MAX else if neg then u64 (- v) else v, rest)
  end.

Definition strtol (base : Z) (s : list Z) : Z * list Z :=
  match scan_number base s with
  | None => (0, s)
  | Some (neg, v, rest) => (if neg then Z.max (- v) (- LONG_MAX - 1) else Z.min v LONG_MAX, rest)
  end.

(** The conversion of an unsigned long to a long. *)
Definition s64 (x : Z) : Z := (x + 2 ^ 63) mod 2 ^ 64 - 2 ^ 63.

(** ** printf() of numbers *)

Definition digit_char (d : Z) : Z := if d <? 10 then 48 + d else 87 + d.

Fixpoint print_digits (fuel : nat) (base v : Z) (acc : list Z) : list Z :=
  match fuel with
  | O => acc
  | S fuel' =>
      let acc' := digit_char (v mod base) :: acc in
      if v / base =? 0 then acc' else print_digits fuel' base (v / base) acc'
  end.

(** ["%u"] and ["0x%x"] of a value below 2^64. *)
Definition print_u (v : Z) : list Z := print_digits 64 10 v [].
Definition print_0x (v : Z) : list Z := 48 :: 120 :: print_digits 64 16 v [].

(** ** Reading back what was printed *)

Lemma digit_in_char base d : 2 <= base <= 36 → 0 <= d < base → digit_in base (digit_char d) = Some d.
Proof.
  intros Hb Hd. unfold digit_in, digit_value, digit_char, is_digit.
  destruct (Z.ltb_spec d 10).
  - replace ((48 <=? 48 + d) && (48 + d <=? 57)) with true by lia. cbn.
    destruct (Z.ltb_spec (48 + d - 48) base); [f_equal|]; lia.
  - replace ((48 <=? 87 + d) && (87 + d <=? 57)) with false by lia.
    replace ((97 <=? 87 + d) && (87 + d <=? 122)) with true by lia. cbn.
    destruct (Z.ltb_spec (87 + d - 87) base); [f_equal|]; lia.
Qed.

(** What [print_digits] puts before [acc] has the value [v] and starts with a digit. *)
Lemma scan_print_digits fuel base v acc tail n :
  2 <= base <= 36 → 0 <= v < base ^ Z.of_nat fuel → (0 < fuel)%nat →
  ∃ l, print_digits fuel base v acc = l ++ acc ∧ starts_digit base (l ++ tail) = true ∧
       scan_digits base n (l ++ tail) =
       scan_digits base (n * base ^ Z.of_nat (length l) + v) tail.
Proof.
  intros Hb. revert v acc tail. induction fuel as [|fuel IH]; intros v acc tail Hv Hf; [lia|].
  cbn [print_digits]. set (c := digit_char (v mod base)).
  assert (Hc : digit_in base c = Some (v mod base))
    by (apply digit_in_char; [done|apply Z.mod_pos_bound; lia]).
  pose proof (Z.div_mod v base ltac:(lia)) as Hdm.
  destruct (Z.eqb_spec (v / base) 0) as [H0|H0].
  - exists [c]. split; [done|]. cbn [app length starts_digit scan_digits].
    rewrite Hc. split; [by apply bool_decide_eq_true|]. f_equal.
    change (Z.of_nat 1) with 1. rewrite Z.pow_1_r. lia.
  - rewrite Nat2Z.inj_succ, Z.pow_succ_r in Hv by lia.
    assert (Hfuel : (0 < fuel)%nat).
    { destruct fuel; [|lia]. cbn in Hv. rewrite Z.div_small in H0; lia. }
    destruct (IH (v / base) (c :: acc) (c :: tail)) as (l & Hl & Hs & Hscan); [|done|].
    { split; [apply Z.div_pos; lia|]. apply Z.div_lt_upper_bound; lia. }
    exists (l ++ [c]). rewrite <- !app_assoc. split; [done|]. split; [done|]. cbn [app].
    rewrite Hscan. cbn [scan_digits]. rewrite Hc. f_equal.
    rewrite length_app, Nat2Z.inj_add. cbn [length]. change (Z.of_nat 1) with 1.
    rewrite Z.pow_add_r, Z.pow_1_r by lia. nia.
Qed.

Lemma scan_digits_stop base acc s : starts_digit base s = false → scan_digits base acc s = (acc, s).
Proof.
  destruct s as [|c s]; [done|]. cbn. destruct (digit_in base c); [|done].
  intros H. by apply bool_decide_eq_false in H as [].
Qed.

Lemma strtoul_print_0x v tail : 0 <= v < 2 ^ 64 → starts_digit 16 tail = false →
  strtoul 0 (print_0x v ++ tail) = (v, tail).
Proof.
  intros Hv Ht. unfold strtoul, print_0x.
  destruct (scan_print_digits 64 16 v [] tail 0) as (l & Hl & Hs & Hscan); [lia| |lia|].
  { split; [lia|]. eapply Z.lt_le_trans; [apply Hv|]. by vm_compute. }
  rewrite Hl, app_nil_r. rewrite (scan_digits_stop 16 _ tail Ht) in Hscan.
  unfold scan_number. cbn [app skip_spaces is_space]. change (is_space 48) with false.
  cbv iota. cbn [strip_prefix]. rewrite Hs. change ((0 =? 0) || (0 =? 16)) with true.
  change ((120 =? 120) || (120 =? 88)) with true. cbn [andb]. rewrite Hs, Hscan, Z.mul_0_l, Z.add_0_l. cbn [negb].
  destruct (Z.ltb_spec ULONG_MAX v) as [H|]; [|done]. unfold ULONG_MAX in H. lia.
Qed.
