(* ===== verification/Digest.v ===== *)
(** The digests as their RFCs define them, written without regard to the code: MD5 (RFC 1321)
    with its table computed from the sine, and HMAC (RFC 2104). *)
From S2P Require Import Prelude.

Module Rfc.

(** ** RFC 1321 *)

(** The sum of [n] terms of the series of the sine; a number is held as a multiple of
    2^-200. [term] is the last term, which has the power [k]. *)
Definition one : Z := 2 ^ 200.
Fixpoint sine_series (n : nat) (x k term sum : Z) : Z :=
  match n with
  | O => sum
  | S n =>
      let term := - (term * x * x) / ((k + 1) * (k + 2)) in
      sine_series n x (k + 2) term (sum + term)
  end.
(** The sine of [x] radians. *)
Definition sine (x : Z) : Z := sine_series 150 x 1 (x * one) (x * one).

(** "The integer part of 4294967296 times abs(sin(i))" *)
Definition T (i : Z) : Z := 4294967296 * Z.abs (sine i) / one.

(** The complement of a word, and its rotation by [s] bits. *)
Definition complement (x : Z) : Z := 2 ^ 32 - 1 - x.
Definition rotate (x s : Z) : Z := x * 2 ^ s mod 2 ^ 32 + x / 2 ^ (32 - s).

(** The functions of the four rounds. *)
Definition aux (round : nat) (x y z : Z) : Z :=
  match round with
  | 0%nat => Z.lor (Z.land x y) (Z.land (complement x) z)
  | 1%nat => Z.lor (Z.land x z) (Z.land y (complement z))
  | 2%nat => Z.lxor x (Z.lxor y z)
  | _ => Z.lxor y (Z.lor x (complement z))
  end.

(** Step [i] uses the word [k] of the block, a shift by [s] and an entry of the table. *)
Record md5_step := mk_md5_step { st_round : nat; st_k : nat; st_s : Z; st_T : Z }.
Definition shifts (round : nat) : list Z :=
  match round with
  | 0%nat => [7; 12; 17; 22]
  | 1%nat => [5; 9; 14; 20]
  | 2%nat => [4; 11; 16; 23]
  | _ => [6; 10; 15; 21]
  end.
Definition nth_step (i : nat) : md5_step :=
  let round := (i / 16)%nat in
  mk_md5_step round
    (match round with 0 => i | 1 => 5 * i + 1 | 2 => 3 * i + 5 | _ => 7 * i end mod 16)%nat
    (nth (i mod 4) (shifts round) 0) (T (Z.of_nat (S i))).
Definition md5_steps : list md5_step := map nth_step (seq 0 64).

(** "a = b + ((a + F(b,c,d) + X[k] + T[i]) <<< s)"; then the words change places. *)
Definition quad : Type := Z * Z * Z * Z.
Definition run_step (X : nat → Z) (q : quad) (o : md5_step) : quad :=
  let '(a, b, c, d) := q in
  (d, (b + rotate ((a + aux (st_round o) b c d + X (st_k o) + st_T o) mod 2 ^ 32) (st_s o)) mod 2 ^ 32, b, c).

(** Words from octets and back, the low-order octet first. *)
Fixpoint words (l : list Z) : list Z :=
  match l with
  | a :: b :: c :: d :: l => (a + 256 * b + 65536 * c + 16777216 * d) :: words l
  | _ => []
  end.
Definition octets (n : nat) (x : Z) : list Z := map (λ i, x / 256 ^ Z.of_nat i mod 256) (seq 0 n).

Definition compress (q : quad) (block : list Z) : quad :=
  let '(a, b, c, d) := q in
  let '(a', b', c', d') := foldl (run_step (λ k, nth k (words block) 0)) q md5_steps in
  ((a + a') mod 2 ^ 32, (b + b') mod 2 ^ 32, (c + c') mod 2 ^ 32, (d + d') mod 2 ^ 32).

(** The blocks of 64 octets. *)
Fixpoint blocks (n : nat) (l : list Z) : list (list Z) :=
  match n with O => [] | S n => take 64 l :: blocks n (drop 64 l) end.

(** A one bit, zeros up to 56 modulo 64 octets, and the length in bits as 8 octets. *)
Definition pad (msg : list Z) : list Z :=
  let n := Z.of_nat (length msg) in
  msg ++ [0x80] ++ replicate (Z.to_nat ((55 - n) mod 64)) 0 ++ octets 8 (8 * n).

Definition md5 (msg : list Z) : list Z :=
  let p := pad msg in
  let '(a, b, c, d) := foldl compress (0x67452301, 0xefcdab89, 0x98badcfe, 0x10325476) (blocks (length p / 64) p) in
  octets 4 a ++ octets 4 b ++ octets 4 c ++ octets 4 d.

(** ** RFC 2104 *)
Definition hmac (text key : list Z) : list Z :=
  let key := if (64 <? length key)%nat then md5 key else key in
  let xored byte := zip_with Z.lxor (key ++ replicate (64 - length key) 0) (replicate 64 byte) in
  md5 (xored 0x5c ++ md5 (xored 0x36 ++ text)).

(** ** The test suites of the RFCs *)
Definition ascii (s : string) : list Z := map (λ a, Z.of_nat (Ascii.nat_of_ascii a)) (String.list_ascii_of_string s).
Definition hex (l : list Z) : Z := foldl (λ v x, 256 * v + x) 0 l.

Example md5_a : hex (md5 (ascii "a")) = 0x0cc175b9c0f1b6a831c399e269772661.
Proof. vm_compute. reflexivity. Qed.
Example md5_digits :
  hex (md5 (ascii "12345678901234567890123456789012345678901234567890123456789012345678901234567890")) =
  0x57edf4a22be3c955ac49da2e2107b67a.
Proof. vm_compute. reflexivity. Qed.
Example hmac_jefe : hex (hmac (ascii "what do ya want for nothing?") (ascii "Jefe")) = 0x750c783e6ab0b503eaa86e310a5db738.
Proof. vm_compute. reflexivity. Qed.
End Rfc.
