(* ===== verification/Md5.v ===== *)
(** hmac_md5.c: MD5 and HMAC-MD5, which compute the configuration digest of 802.1Q 13.7.
    The unrolled transformation is proved equal to the 64 steps of RFC 1321, the incremental
    routines (MD5Init, MD5Update, MD5Final over a buffer and a 64-bit bit count) to its
    digest, however the message is split, and hmac_md5 to RFC 2104 over it; both as Digest
    writes them down. *)
From S2P Require Import Prelude Digest.

(** ** Words *)
Definition S11 := 7.
Definition S12 := 12.
Definition S13 := 17.
Definition S14 := 22.
Definition S21 := 5.
Definition S22 := 9.
Definition S23 := 14.
Definition S24 := 20.
Definition S31 := 4.
Definition S32 := 11.
Definition S33 := 16.
Definition S34 := 23.
Definition S41 := 6.
Definition S42 := 10.
Definition S43 := 15.
Definition S44 := 21.

Definition PADDING : list Z := 0x80 :: replicate 63 0.

Definition not32 (x : Z) : Z := Z.lxor x 0xffffffff.
Definition F (x y z : Z) : Z := Z.lor (Z.land x y) (Z.land (not32 x) z).
Definition G (x y z : Z) : Z := Z.lor (Z.land x z) (Z.land y (not32 z)).
Definition H (x y z : Z) : Z := Z.lxor (Z.lxor x y) z.
Definition I (x y z : Z) : Z := Z.lxor y (Z.lor x (not32 z)).

Definition ROTATE_LEFT (x n : Z) : Z := Z.lor (u32 (Z.shiftl x n)) (Z.shiftr x (32 - n)).

Definition FF (a b c d x s ac : Z) : Z := u32 (ROTATE_LEFT (u32 (a + (F b c d + x + ac))) s + b).
Definition GG (a b c d x s ac : Z) : Z := u32 (ROTATE_LEFT (u32 (a + (G b c d + x + ac))) s + b).
Definition HH (a b c d x s ac : Z) : Z := u32 (ROTATE_LEFT (u32 (a + (H b c d + x + ac))) s + b).
Definition II (a b c d x s ac : Z) : Z := u32 (ROTATE_LEFT (u32 (a + (I b c d + x + ac))) s + b).

(** ** Encode and Decode: little-endian words *)
Fixpoint Encode (input : list Z) : list Z :=
  match input with
  | [] => []
  | w :: ws =>
      Z.land w 0xff :: Z.land (Z.shiftr w 8) 0xff :: Z.land (Z.shiftr w 16) 0xff
      :: Z.land (Z.shiftr w 24) 0xff :: Encode ws
  end.

Fixpoint Decode (input : list Z) : list Z :=
  match input with
  | b0 :: b1 :: b2 :: b3 :: bs =>
      Z.lor (Z.lor (Z.lor b0 (Z.shiftl b1 8)) (Z.shiftl b2 16)) (Z.shiftl b3 24)
      :: Decode bs
  | _ => []
  end.

(** ** The block transformation *)
Definition MD5_round1 (x : nat → Z) (abcd : Z * Z * Z * Z) : Z * Z * Z * Z :=
  let '(a, b, c, d) := abcd in
  let a := FF a b c d (x 0%nat) S11 0xd76aa478 in
  let d := FF d a b c (x 1%nat) S12 0xe8c7b756 in
  let c := FF c d a b (x 2%nat) S13 0x242070db in
  let b := FF b c d a (x 3%nat) S14 0xc1bdceee in
  let a := FF a b c d (x 4%nat) S11 0xf57c0faf in
  let d := FF d a b c (x 5%nat) S12 0x4787c62a in
  let c := FF c d a b (x 6%nat) S13 0xa8304613 in
  let b := FF b c d a (x 7%nat) S14 0xfd469501 in
  let a := FF a b c d (x 8%nat) S11 0x698098d8 in
  let d := FF d a b c (x 9%nat) S12 0x8b44f7af in
  let c := FF c d a b (x 10%nat) S13 0xffff5bb1 in
  let b := FF b c d a (x 11%nat) S14 0x895cd7be in
  let a := FF a b c d (x 12%nat) S11 0x6b901122 in
  let d := FF d a b c (x 13%nat) S12 0xfd987193 in
  let c := FF c d a b (x 14%nat) S13 0xa679438e in
  let b := FF b c d a (x 15%nat) S14 0x49b40821 in
  (a, b, c, d).

Definition MD5_round2 (x : nat → Z) (abcd : Z * Z * Z * Z) : Z * Z * Z * Z :=
  let '(a, b, c, d) := abcd in
  let a := GG a b c d (x 1%nat) S21 0xf61e2562 in
  let d := GG d a b c (x 6%nat) S22 0xc040b340 in
  let c := GG c d a b (x 11%nat) S23 0x265e5a51 in
  let b := GG b c d a (x 0%nat) S24 0xe9b6c7aa in
  let a := GG a b c d (x 5%nat) S21 0xd62f105d in
  let d := GG d a b c (x 10%nat) S22 0x2441453 in
  let c := GG c d a b (x 15%nat) S23 0xd8a1e681 in
  let b := GG b c d a (x 4%nat) S24 0xe7d3fbc8 in
  let a := GG a b c d (x 9%nat) S21 0x21e1cde6 in
  let d := GG d a b c (x 14%nat) S22 0xc33707d6 in
  let c := GG c d a b (x 3%nat) S23 0xf4d50d87 in
  let b := GG b c d a (x 8%nat) S24 0x455a14ed in
  let a := GG a b c d (x 13%nat) S21 0xa9e3e905 in
  let d := GG d a b c (x 2%nat) S22 0xfcefa3f8 in
  let c := GG c d a b (x 7%nat) S23 0x676f02d9 in
  let b := GG b c d a (x 12%nat) S24 0x8d2a4c8a in
  (a, b, c, d).

Definition MD5_round3 (x : nat → Z) (abcd : Z * Z * Z * Z) : Z * Z * Z * Z :=
  let '(a, b, c, d) := abcd in
  let a := HH a b c d (x 5%nat) S31 0xfffa3942 in
  let d := HH d a b c (x 8%nat) S32 0x8771f681 in
  let c := HH c d a b (x 11%nat) S33 0x6d9d6122 in
  let b := HH b c d a (x 14%nat) S34 0xfde5380c in
  let a := HH a b c d (x 1%nat) S31 0xa4beea44 in
  let d := HH d a b c (x 4%nat) S32 0x4bdecfa9 in
  let c := HH c d a b (x 7%nat) S33 0xf6bb4b60 in
  let b := HH b c d a (x 10%nat) S34 0xbebfbc70 in
  let a := HH a b c d (x 13%nat) S31 0x289b7ec6 in
  let d := HH d a b c (x 0%nat) S32 0xeaa127fa in
  let c := HH c d a b (x 3%nat) S33 0xd4ef3085 in
  let b := HH b c d a (x 6%nat) S34 0x4881d05 in
  let a := HH a b c d (x 9%nat) S31 0xd9d4d039 in
  let d := HH d a b c (x 12%nat) S32 0xe6db99e5 in
  let c := HH c d a b (x 15%nat) S33 0x1fa27cf8 in
  let b := HH b c d a (x 2%nat) S34 0xc4ac5665 in
  (a, b, c, d).

Definition MD5_round4 (x : nat → Z) (abcd : Z * Z * Z * Z) : Z * Z * Z * Z :=
  let '(a, b, c, d) := abcd in
  let a := II a b c d (x 0%nat) S41 0xf4292244 in
  let d := II d a b c (x 7%nat) S42 0x432aff97 in
  let c := II c d a b (x 14%nat) S43 0xab9423a7 in
  let b := II b c d a (x 5%nat) S44 0xfc93a039 in
  let a := II a b c d (x 12%nat) S41 0x655b59c3 in
  let d := II d a b c (x 3%nat) S42 0x8f0ccc92 in
  let c := II c d a b (x 10%nat) S43 0xffeff47d in
  let b := II b c d a (x 1%nat) S44 0x85845dd1 in
  let a := II a b c d (x 8%nat) S41 0x6fa87e4f in
  let d := II d a b c (x 15%nat) S42 0xfe2ce6e0 in
  let c := II c d a b (x 6%nat) S43 0xa3014314 in
  let b := II b c d a (x 13%nat) S44 0x4e0811a1 in
  let a := II a b c d (x 4%nat) S41 0xf7537e82 in
  let d := II d a b c (x 11%nat) S42 0xbd3af235 in
  let c := II c d a b (x 2%nat) S43 0x2ad7d2bb in
  let b := II b c d a (x 9%nat) S44 0xeb86d391 in
  (a, b, c, d).

Definition MD5Transform (state : Z * Z * Z * Z) (block : list Z) : Z * Z * Z * Z :=
  let xs := Decode block in
  let x := λ i, List.nth i xs 0 in
  let '(a, b, c, d) := MD5_round4 x (MD5_round3 x (MD5_round2 x (MD5_round1 x state))) in
  let '(s0, s1, s2, s3) := state in
  (u32 (s0 + a), u32 (s1 + b), u32 (s2 + c), u32 (s3 + d)).

(** ** The incremental interface *)
Record MD5_CTX := mk_MD5_CTX {
  md5_state : Z * Z * Z * Z;
  md5_count : Z * Z;  (* number of bits, modulo 2^64 (lsb first) *)
  md5_buffer : list Z (* [64] *)
}.

Definition MD5_init_state : Z * Z * Z * Z :=
  (0x67452301, 0xefcdab89, 0x98badcfe, 0x10325476).

(** MD5Init leaves the buffer as it finds it. *)
Definition MD5Init (buffer : list Z) : MD5_CTX := mk_MD5_CTX MD5_init_state (0, 0) buffer.

(** [memcpy(&buf[i], src, length src)] *)
Definition memcpy_at (buf : list Z) (i : nat) (src : list Z) : list Z :=
  take i buf ++ src ++ drop (i + length src) buf.

(** [for(; i + 63 < inputLen; i += 64) MD5Transform(state, &input[i])]; returns
    the state and what is left of the input. *)
Fixpoint MD5Update_loop (fuel : nat) (state : Z * Z * Z * Z) (rest : list Z)
  : (Z * Z * Z * Z) * list Z :=
  match fuel with
  | O => (state, rest)
  | S fuel' =>
      if (63 <? length rest)%nat
      then MD5Update_loop fuel' (MD5Transform state (take 64 rest)) (drop 64 rest)
      else (state, rest)
  end.

Definition MD5Update (context : MD5_CTX) (input : list Z) : MD5_CTX :=
  let inputLen := u32 (Z.of_nat (length input)) in
  let '(c0, c1) := md5_count context in
  let index := Z.land (Z.shiftr c0 3) 0x3F in
  let add := u32 (Z.shiftl inputLen 3) in
  let c0' := u32 (c0 + add) in
  let c1' := if c0' <? add then u32 (c1 + 1) else c1 in
  let c1'' := u32 (c1' + Z.shiftr inputLen 29) in
  let partLen := 64 - index in
  if partLen <=? inputLen
  then
    let buf := memcpy_at (md5_buffer context) (Z.to_nat index) (take (Z.to_nat partLen) input) in
    let st := MD5Transform (md5_state context) buf in
    let '(st', rest) := MD5Update_loop (length input) st (drop (Z.to_nat partLen) input) in
    mk_MD5_CTX st' (c0', c1'') (memcpy_at buf 0 rest)
  else
    mk_MD5_CTX (md5_state context) (c0', c1'')
      (memcpy_at (md5_buffer context) (Z.to_nat index) input).

Definition MD5Final (context : MD5_CTX) : list Z :=
  let '(c0, c1) := md5_count context in
  let bits := Encode [c0; c1] in
  let index := Z.land (Z.shiftr c0 3) 0x3f in
  let padLen := if index <? 56 then 56 - index else 120 - index in
  let ctx1 := MD5Update context (take (Z.to_nat padLen) PADDING) in
  let ctx2 := MD5Update ctx1 bits in
  let '(a, b, c, d) := md5_state ctx2 in
  Encode [a; b; c; d].

(** [buffer] is the uninitialised stack buffer of the context. *)
Definition MD5 (buffer msg : list Z) : list Z := MD5Final (MD5Update (MD5Init buffer) msg).

Definition xor_pad (key : list Z) (pad : Z) : list Z :=
  map (λ b, Z.lxor b pad) (key ++ replicate (64 - length key) 0).

(** [hmac_md5]; [stack] are the uninitialised buffers of [context] and [tctx]. *)
Definition hmac_md5 (stack text key : list Z) : list Z :=
  let key := if (64 <? length key)%nat then MD5 stack key else key in
  let k_ipad := xor_pad key 0x36 in
  let k_opad := xor_pad key 0x5c in
  let inner := MD5Update (MD5Update (MD5Init stack) k_ipad) text in
  let digest := MD5Final inner in
  MD5Final (MD5Update (MD5Update (MD5Init (md5_buffer inner)) k_opad) digest).

(** ** The blocks of a message, and its digest in one go *)

Definition md5_pad (len : Z) : list Z :=
  let k := (55 - len) mod 64 in
  0x80 :: replicate (Z.to_nat k) 0
  ++ Encode [u32 (8 * len); u32 ((8 * len) / 2 ^ 32)].

Fixpoint md5_blocks (n : nat) (state : Z * Z * Z * Z) (msg : list Z) : Z * Z * Z * Z :=
  match n with
  | O => state
  | S n' => md5_blocks n' (MD5Transform state (take 64 msg)) (drop 64 msg)
  end.

Definition one_shot (msg : list Z) : list Z :=
  let padded := msg ++ md5_pad (Z.of_nat (length msg)) in
  let '(a, b, c, d) := md5_blocks (length padded / 64) MD5_init_state padded in
  Encode [a; b; c; d].

(** ** Proofs *)

Lemma length_Encode ws : length (Encode ws) = (4 * length ws)%nat.
Proof. induction ws as [|w ws IH]; simpl; [done|]. rewrite IH. lia. Qed.

Lemma land_255 x : Z.land x 255 = x mod 256.
Proof. exact (land_ones_mod x 8 ltac:(lia)). Qed.

Lemma Decode_word b0 b1 b2 b3 :
  in_u8 b0 → in_u8 b1 → in_u8 b2 →
  Z.lor (Z.lor (Z.lor b0 (Z.shiftl b1 8)) (Z.shiftl b2 16)) (Z.shiftl b3 24)
  = b0 + b1 * 2 ^ 8 + b2 * 2 ^ 16 + b3 * 2 ^ 24.
Proof.
  unfold in_u8; intros. rewrite (lor_shiftl_add b0) by lia.
  rewrite (lor_shiftl_add (b0 + _)) by lia. by rewrite lor_shiftl_add by lia.
Qed.

Lemma Decode_Encode ws :
  Forall in_u32 ws → Decode (Encode ws) = ws.
Proof.
  induction 1 as [|w ws Hw _ IH]; cbn [Encode Decode]; [done|]. rewrite IH. f_equal.
  unfold in_u32 in Hw. rewrite !land_255, !Z.shiftr_div_pow2 by lia.
  rewrite Decode_word by (unfold in_u8; zlia).
  change (2 ^ 8) with 256. change (2 ^ 16) with 65536. change (2 ^ 24) with 16777216.
  zlia.
Qed.

(** *** Block lemmas *)

Lemma md5_blocks_app_r n st m x :
  (64 * n <= length m)%nat → md5_blocks n st (m ++ x) = md5_blocks n st m.
Proof.
  revert st m; induction n as [|n IH]; intros st m Hm; simpl; [done|].
  rewrite take_app_le, drop_app_le by lia.
  apply IH. rewrite length_drop. lia.
Qed.

Lemma md5_blocks_add a b st m :
  md5_blocks (a + b) st m = md5_blocks b (md5_blocks a st m) (drop (64 * a) m).
Proof.
  revert st m; induction a as [|a IH]; intros st m; [done|].
  cbn [Nat.add md5_blocks]. rewrite IH, drop_drop. do 2 f_equal. lia.
Qed.

Lemma MD5Update_loop_blocks fuel st rest :
  (length rest <= fuel)%nat →
  MD5Update_loop fuel st rest
  = (md5_blocks (length rest / 64) st rest, drop (64 * (length rest / 64)) rest).
Proof.
  revert st rest; induction fuel as [|fuel IH]; intros st rest Hf.
  { destruct rest; [done|simpl in Hf; lia]. }
  cbn [MD5Update_loop]. destruct (Nat.ltb_spec 63 (length rest)) as [Hl|Hl].
  - rewrite IH by (rewrite length_drop; lia). rewrite length_drop.
    assert (length rest / 64 = S ((length rest - 64) / 64))%nat as ->.
    { rewrite <- (Nat.div_add_l 1 64) by lia. f_equal. lia. }
    cbn [md5_blocks]. rewrite drop_drop. do 2 f_equal. lia.
  - rewrite Nat.div_small by lia. done.
Qed.

(** *** What a context stands for: the bytes absorbed so far *)

Definition absorbed (ctx : MD5_CTX) (m : list Z) : Prop :=
  length (md5_buffer ctx) = 64%nat ∧
  md5_state ctx = md5_blocks (length m / 64) MD5_init_state m ∧
  take (length m mod 64) (md5_buffer ctx) = drop (64 * (length m / 64)) m ∧
  md5_count ctx = (u32 (8 * Z.of_nat (length m)), u32 (8 * Z.of_nat (length m) / 2 ^ 32)).

Lemma absorbed_init buffer : length buffer = 64%nat → absorbed (MD5Init buffer) [].
Proof. done. Qed.

(** The byte index read back from the bit count. *)
Lemma count_index n :
  Z.land (Z.shiftr (u32 (8 * Z.of_nat n)) 3) 63 = Z.of_nat (n mod 64).
Proof.
  rewrite (land_ones_mod _ 6) by lia. rewrite Z.shiftr_div_pow2 by lia. unfold u32.
  rewrite Nat2Z.inj_mod. change (2 ^ 6) with 64. change (2 ^ 3) with 8.
  change (2 ^ 32) with (8 * 536870912).
  rewrite Z.mul_mod_distr_l, (Z.mul_comm 8), Z.div_mul by lia. zlia.
Qed.

(** The 64-bit bit count, kept in two words with an explicit carry. *)
Lemma count_add n l :
  0 <= n → 0 <= l < 2 ^ 31 →
  let add := u32 (Z.shiftl (u32 l) 3) in
  let c0' := u32 (u32 (8 * n) + add) in
  let c1 := u32 (8 * n / 2 ^ 32) in
  let c1' := if c0' <? add then u32 (c1 + 1) else c1 in
  (c0', u32 (c1' + Z.shiftr (u32 l) 29)) = (u32 (8 * (n + l)), u32 (8 * (n + l) / 2 ^ 32)).
Proof.
  intros Hn Hl. unfold u32. rewrite (Z.mod_small l) by lia.
  rewrite Z.shiftl_mul_pow2, Z.shiftr_div_pow2 by lia.
  change (2 ^ 32) with 4294967296. change (2 ^ 3) with 8. change (2 ^ 29) with 536870912.
  change (2 ^ 31) with 2147483648 in *. cbv zeta.
  match goal with |- context [if ?c then _ else _] => destruct c eqn:E end;
  [apply Z.ltb_lt in E | apply Z.ltb_ge in E]; f_equal; zlia.
Qed.

Lemma length_memcpy_at buf i src :
  (i + length src <= length buf)%nat → length (memcpy_at buf i src) = length buf.
Proof.
  intros. unfold memcpy_at. rewrite !length_app, length_take, length_drop. lia.
Qed.

Lemma take_memcpy_at buf i src :
  (i <= length buf)%nat →
  take (i + length src) (memcpy_at buf i src) = take i buf ++ src.
Proof.
  intros. unfold memcpy_at. rewrite app_assoc, take_app_le.
  - apply take_ge. rewrite length_app, length_take. lia.
  - rewrite length_app, length_take. lia.
Qed.

(** Blocks of [m ++ inp] when the tail of [m] is topped up to a whole block. *)
Lemma md5_blocks_top_up m inp :
  let i := (length m mod 64)%nat in
  let tail := drop (64 * (length m / 64)) m in
  (64 - i <= length inp)%nat →
  md5_blocks (length (m ++ inp) / 64) MD5_init_state (m ++ inp)
  = md5_blocks ((length inp - (64 - i)) / 64)
      (MD5Transform (md5_blocks (length m / 64) MD5_init_state m)
         (tail ++ take (64 - i) inp))
      (drop (64 - i) inp).
Proof.
  intros i tail Hl. set (q := (length m / 64)%nat).
  assert (Hm : length m = (64 * q + i)%nat) by apply Nat.div_mod_eq.
  assert (Hi : (i < 64)%nat) by (apply Nat.mod_upper_bound; lia).
  assert (Ht : length tail = i) by (unfold tail; rewrite length_drop; fold q; lia).
  assert (length (m ++ inp) / 64 = q + S ((length inp - (64 - i)) / 64))%nat as ->.
  { rewrite length_app. symmetry.
    pose proof (Nat.div_mod_eq (length inp - (64 - i)) 64).
    apply (Nat.div_unique _ _ _ ((length inp - (64 - i)) mod 64)); [|lia].
    apply Nat.mod_upper_bound. lia. }
  rewrite md5_blocks_add, md5_blocks_app_r by lia.
  rewrite drop_app_le by lia. change (drop (64 * q) m) with tail. cbn [md5_blocks].
  rewrite take_app_ge, drop_app_ge by lia. by rewrite Ht.
Qed.

Lemma MD5Update_absorbed ctx m inp :
  absorbed ctx m → Z.of_nat (length inp) < 2 ^ 31 →
  absorbed (MD5Update ctx inp) (m ++ inp).
Proof.
  intros (Hb & Hs & Htl & Hc) Hl.
  set (i := (length m mod 64)%nat) in *. set (q := (length m / 64)%nat) in *.
  assert (Hm : length m = (64 * q + i)%nat) by apply Nat.div_mod_eq.
  assert (Hi : (i < 64)%nat) by (apply Nat.mod_upper_bound; lia).
  assert (Hlen : length (m ++ inp) = (length m + length inp)%nat) by apply length_app.
  pose proof (count_add (Z.of_nat (length m)) (Z.of_nat (length inp)) ltac:(lia) ltac:(lia)) as Hcnt.
  unfold MD5Update. rewrite Hc. cbn zeta in Hcnt |- *.
  rewrite count_index. fold i.
  replace (u32 (Z.of_nat (length inp))) with (Z.of_nat (length inp)) in *
    by (unfold u32; rewrite Z.mod_small; lia).
  assert (Hp : Z.to_nat (64 - Z.of_nat i) = (64 - i)%nat) by lia. rewrite Hp, Nat2Z.id.
  destruct (Z.leb_spec (64 - Z.of_nat i) (Z.of_nat (length inp))) as [Hle|Hgt].
  - assert (Hbuf : memcpy_at (md5_buffer ctx) i (take (64 - i) inp)
                   = drop (64 * q) m ++ take (64 - i) inp).
    { unfold memcpy_at. rewrite length_take, Htl, (drop_ge (md5_buffer ctx)), app_nil_r by lia. done. }
    rewrite Hbuf, MD5Update_loop_blocks by (rewrite length_drop; lia).
    rewrite length_drop, drop_drop.
    set (rest := drop (64 - i + _) inp).
    assert (Hr : length rest = ((length m + length inp) mod 64)%nat).
    { unfold rest. rewrite length_drop, Hm.
      replace (64 * q + i + length inp)%nat
        with (length inp - (64 - i) + S q * 64)%nat by lia.
      rewrite Nat.Div0.mod_add.
      pose proof (Nat.div_mod_eq (length inp - (64 - i)) 64). lia. }
    assert (Hb' : length (drop (64 * q) m ++ take (64 - i) inp) = 64%nat)
      by (rewrite length_app, length_drop, length_take; lia).
    pose proof (Nat.mod_upper_bound (length m + length inp) 64 ltac:(lia)).
    repeat split; cbn [md5_buffer md5_state md5_count].
    + rewrite length_memcpy_at; lia.
    + rewrite md5_blocks_top_up, Hs by (fold i; lia); reflexivity.
    + rewrite Hlen, <- Hr. change (length rest) with (0 + length rest)%nat at 1.
      rewrite take_memcpy_at by lia. rewrite take_0, app_nil_l.
      pose proof (Nat.div_mod_eq (length m + length inp) 64).
      pose proof (Nat.div_mod_eq (length inp - (64 - i)) 64).
      unfold rest in Hr |- *. rewrite length_drop in Hr.
      rewrite drop_app_ge by lia. f_equal. lia.
    + by rewrite Hlen, Nat2Z.inj_add.
  - assert (Hd : ((length m + length inp) / 64 = q)%nat).
    { symmetry. apply (Nat.div_unique _ _ _ (i + length inp)); lia. }
    assert (Hr : ((length m + length inp) mod 64 = i + length inp)%nat).
    { symmetry. apply (Nat.mod_unique _ _ q); lia. }
    repeat split; cbn [md5_buffer md5_state md5_count].
    + rewrite length_memcpy_at; lia.
    + by rewrite Hlen, Hd, md5_blocks_app_r by lia.
    + rewrite Hlen, Hd, Hr, take_memcpy_at, Htl by lia. by rewrite drop_app_le by lia.
    + by rewrite Hlen, Nat2Z.inj_add.
Qed.

Lemma absorbed_unique_digest ctx m :
  absorbed ctx m → Z.of_nat (length m) < 2 ^ 61 → MD5Final ctx = one_shot m.
Proof.
  intros Ha Hl. pose proof Ha as (_ & _ & _ & Hc). unfold MD5Final. rewrite Hc.
  change 0x3f with 63. rewrite count_index.
  set (i := (length m mod 64)%nat).
  assert (Hi : (i < 64)%nat) by (apply Nat.mod_upper_bound; lia).
  set (padLen := if Z.of_nat i <? 56 then _ else _).
  assert (Hpad : take (Z.to_nat padLen) PADDING
    = 0x80 :: replicate (Z.to_nat ((55 - Z.of_nat (length m)) mod 64)) 0).
  { assert (Z.to_nat padLen = S (Z.to_nat ((55 - Z.of_nat (length m)) mod 64))) as ->.
    { assert (Z.of_nat i = Z.of_nat (length m) mod 64) as Hz by (unfold i; by rewrite Nat2Z.inj_mod).
      unfold padLen. destruct (Z.ltb_spec (Z.of_nat i) 56); zlia. }
    unfold PADDING. cbn [take]. f_equal. rewrite take_replicate. f_equal.
    pose proof (Z.mod_pos_bound (55 - Z.of_nat (length m)) 64). lia. }
  pose proof (MD5Update_absorbed _ _ (take (Z.to_nat padLen) PADDING) Ha) as H1.
  set (bits := Encode _).
  pose proof (MD5Update_absorbed _ _ bits (H1 ltac:(rewrite length_take; simpl; lia))
                ltac:(unfold bits; rewrite length_Encode; simpl; lia)) as (_ & Hs & _ & _).
  rewrite Hpad, <- app_assoc in Hs. rewrite Hpad. rewrite Hs. unfold one_shot, md5_pad.
  reflexivity.
Qed.

(** Absorbing a list of pieces. *)
Definition MD5_updates (ctx : MD5_CTX) (pieces : list (list Z)) : MD5_CTX :=
  foldl MD5Update ctx pieces.

Lemma MD5_updates_absorbed ctx m pieces :
  absorbed ctx m → Forall (λ p, Z.of_nat (length p) < 2 ^ 31) pieces →
  absorbed (MD5_updates ctx pieces) (m ++ concat pieces).
Proof.
  intros Ha Hp. revert ctx m Ha. induction Hp as [|p ps Hl _ IH]; intros ctx m Ha; simpl.
  - by rewrite app_nil_r.
  - rewrite app_assoc. apply IH. by apply MD5Update_absorbed.
Qed.

(** ** The transformation is that of RFC 1321 *)

Definition word_quad (q : Rfc.quad) : Prop :=
  let '(a, b, c, d) := q in in_u32 a ∧ in_u32 b ∧ in_u32 c ∧ in_u32 d.

Lemma u32_word x : in_u32 (u32 x).
Proof. unfold in_u32, u32. by apply Z.mod_pos_bound. Qed.

Lemma not32_complement x : in_u32 x → not32 x = Rfc.complement x.
Proof.
  intros Hx. unfold not32, Rfc.complement, in_u32 in *. apply Z.bits_inj'. intros i Hi.
  rewrite Z.lxor_spec. change 0xffffffff with (Z.ones 32).
  assert (E : 2 ^ 32 - 1 - x = Z.land (Z.lnot x) (Z.ones 32)).
  { rewrite Z.land_ones by lia. unfold Z.lnot. rewrite <- (Z.mod_add _ 1) by lia. rewrite Z.mod_small; lia. }
  rewrite E, Z.land_spec, Z.lnot_spec by done. destruct (Z.lt_ge_cases i 32) as [Hl|Hl].
  - rewrite Z.ones_spec_low by lia. by destruct (Z.testbit x i).
  - rewrite Z.ones_spec_high by lia. rewrite andb_false_r, xorb_false_r.
    destruct (Z.eq_dec x 0) as [->|Hn]; [apply Z.bits_0|]. apply Z.bits_above_log2; [lia|].
    apply Z.log2_lt_pow2; [lia|]. assert (2 ^ 32 <= 2 ^ i) by (apply Z.pow_le_mono_r; lia). lia.
Qed.

Lemma ROTATE_LEFT_rotate x s : in_u32 x → 0 < s < 32 → ROTATE_LEFT x s = Rfc.rotate x s.
Proof.
  intros Hx Hs. unfold ROTATE_LEFT, Rfc.rotate, in_u32, u32 in *. rewrite Z.shiftl_mul_pow2, Z.shiftr_div_pow2 by lia.
  assert (E : x * 2 ^ s mod 2 ^ 32 = (x mod 2 ^ (32 - s)) * 2 ^ s).
  { replace (2 ^ 32) with (2 ^ (32 - s) * 2 ^ s) by (rewrite <- Z.pow_add_r by lia; f_equal; lia).
    apply Z.mul_mod_distr_r; lia. }
  rewrite E, <- Z.shiftl_mul_pow2 by lia. rewrite Z.lor_comm, lor_shiftl_add; [rewrite Z.shiftl_mul_pow2 by lia; lia|lia|].
  split; [apply Z.div_pos; lia|]. apply Z.div_lt_upper_bound; [lia|].
  rewrite <- Z.pow_add_r by lia. replace (32 - s + s) with 32 by lia. lia.
Qed.

(** One step: [f] is F, G, H or I. *)
Lemma step_word (f : Z → Z → Z → Z) r a b c d x s ac :
  f b c d = Rfc.aux r b c d → 0 < s < 32 →
  u32 (ROTATE_LEFT (u32 (a + (f b c d + x + ac))) s + b) =
  (b + Rfc.rotate ((a + Rfc.aux r b c d + x + ac) mod 2 ^ 32) s) mod 2 ^ 32.
Proof.
  intros Hf Hs. rewrite Hf, ROTATE_LEFT_rotate by (done || apply u32_word). unfold u32.
  rewrite Z.add_comm. do 3 f_equal. f_equal. lia.
Qed.

Section rounds.
Context (x : nat → Z).
Local Notation step r k s t := (Rfc.mk_md5_step r k s t) (only parsing).

Lemma FF_step a b c d k s t : word_quad (a, b, c, d) → 0 < s < 32 →
  Rfc.run_step x (a, b, c, d) (step 0 k s t) = (d, FF a b c d (x k) s t, b, c).
Proof.
  intros (_ & Hb & _ & _) Hs. unfold Rfc.run_step, FF. cbn [Rfc.st_round Rfc.st_k Rfc.st_s Rfc.st_T].
  rewrite (step_word F 0); [done| |done]. unfold F. by rewrite not32_complement.
Qed.
Lemma GG_step a b c d k s t : word_quad (a, b, c, d) → 0 < s < 32 →
  Rfc.run_step x (a, b, c, d) (step 1 k s t) = (d, GG a b c d (x k) s t, b, c).
Proof.
  intros (_ & _ & _ & Hd) Hs. unfold Rfc.run_step, GG. cbn [Rfc.st_round Rfc.st_k Rfc.st_s Rfc.st_T].
  rewrite (step_word G 1); [done| |done]. unfold G. by rewrite not32_complement.
Qed.
Lemma HH_step a b c d k s t : word_quad (a, b, c, d) → 0 < s < 32 →
  Rfc.run_step x (a, b, c, d) (step 2 k s t) = (d, HH a b c d (x k) s t, b, c).
Proof.
  intros _ Hs. unfold Rfc.run_step, HH. cbn [Rfc.st_round Rfc.st_k Rfc.st_s Rfc.st_T].
  rewrite (step_word H 2); [done| |done]. unfold H. by rewrite Z.lxor_assoc.
Qed.
Lemma II_step a b c d k s t : word_quad (a, b, c, d) → 0 < s < 32 →
  Rfc.run_step x (a, b, c, d) (step 3 k s t) = (d, II a b c d (x k) s t, b, c).
Proof.
  intros (_ & _ & _ & Hd) Hs. unfold Rfc.run_step, II. cbn [Rfc.st_round Rfc.st_k Rfc.st_s Rfc.st_T].
  rewrite (step_word I 3); [done| |done]. unfold I. by rewrite not32_complement.
Qed.

(** Four steps bring the words back to their places. *)
Section four.
Context (op : Z → Z → Z → Z → Z → Z → Z → Z) (r : nat) (s1 s2 s3 s4 : Z).
Context (Hs1 : 0 < s1 < 32) (Hs2 : 0 < s2 < 32) (Hs3 : 0 < s3 < 32) (Hs4 : 0 < s4 < 32).
Context (Hop : ∀ a b c d k s t, word_quad (a, b, c, d) → 0 < s < 32 →
  Rfc.run_step x (a, b, c, d) (step r k s t) = (d, op a b c d (x k) s t, b, c)).
Context (Hword : ∀ a b c d k s t, in_u32 (op a b c d k s t)).

Definition four (o : (nat * Z) * (nat * Z) * (nat * Z) * (nat * Z)) (q : Rfc.quad) : Rfc.quad :=
  let '(a, b, c, d) := q in
  let '((k1, t1), (k2, t2), (k3, t3), (k4, t4)) := o in
  let a := op a b c d (x k1) s1 t1 in
  let d := op d a b c (x k2) s2 t2 in
  let c := op c d a b (x k3) s3 t3 in
  let b := op b c d a (x k4) s4 t4 in
  (a, b, c, d).
Definition steps_of (o : (nat * Z) * (nat * Z) * (nat * Z) * (nat * Z)) : list Rfc.md5_step :=
  let '((k1, t1), (k2, t2), (k3, t3), (k4, t4)) := o in
  [step r k1 s1 t1; step r k2 s2 t2; step r k3 s3 t3; step r k4 s4 t4].

Lemma four_word o q : word_quad (four o q).
Proof.
  destruct q as [[[a b] c] d], o as [[[[k1 t1] [k2 t2]] [k3 t3]] [k4 t4]].
  split; [|split; [|split]]; apply Hword.
Qed.
Lemma four_steps o q : word_quad q → foldl (Rfc.run_step x) q (steps_of o) = four o q.
Proof.
  destruct q as [[[a b] c] d], o as [[[[k1 t1] [k2 t2]] [k3 t3]] [k4 t4]]. intros (? & ? & ? & ?).
  cbn [foldl steps_of four].
  do 4 (rewrite Hop; [|by (split; [|split; [|split]]; first [assumption|apply Hword])|assumption]). done.
Qed.
Lemma round_steps o1 o2 o3 o4 q : word_quad q →
  foldl (Rfc.run_step x) q (steps_of o1 ++ steps_of o2 ++ steps_of o3 ++ steps_of o4) =
    four o4 (four o3 (four o2 (four o1 q))) ∧
  word_quad (four o4 (four o3 (four o2 (four o1 q)))).
Proof.
  intros Hq. split; [|apply four_word]. rewrite !foldl_app.
  rewrite (four_steps o1 q Hq), (four_steps o2), (four_steps o3), (four_steps o4) by apply four_word. done.
Qed.
End four.

Lemma FF_word a b c d k s t : in_u32 (FF a b c d k s t).
Proof. apply u32_word. Qed.
Lemma GG_word a b c d k s t : in_u32 (GG a b c d k s t).
Proof. apply u32_word. Qed.
Lemma HH_word a b c d k s t : in_u32 (HH a b c d k s t).
Proof. apply u32_word. Qed.
Lemma II_word a b c d k s t : in_u32 (II a b c d k s t).
Proof. apply u32_word. Qed.

Definition round1 : list Rfc.md5_step :=
  steps_of 0 7 12 17 22 ((0%nat, 0xd76aa478), (1%nat, 0xe8c7b756), (2%nat, 0x242070db), (3%nat, 0xc1bdceee)) ++
  steps_of 0 7 12 17 22 ((4%nat, 0xf57c0faf), (5%nat, 0x4787c62a), (6%nat, 0xa8304613), (7%nat, 0xfd469501)) ++
  steps_of 0 7 12 17 22 ((8%nat, 0x698098d8), (9%nat, 0x8b44f7af), (10%nat, 0xffff5bb1), (11%nat, 0x895cd7be)) ++
  steps_of 0 7 12 17 22 ((12%nat, 0x6b901122), (13%nat, 0xfd987193), (14%nat, 0xa679438e), (15%nat, 0x49b40821)).
Lemma round1_steps q : word_quad q → foldl (Rfc.run_step x) q round1 = MD5_round1 x q ∧ word_quad (MD5_round1 x q).
Proof.
  intros Hq. unfold round1. rewrite (proj1 (round_steps FF 0 7 12 17 22 ltac:(lia) ltac:(lia) ltac:(lia) ltac:(lia)
    FF_step FF_word _ _ _ _ q Hq)).
  destruct q as [[[a b] c] d]. split; [reflexivity|]. split; [|split; [|split]]; apply u32_word.
Qed.

Definition round2 : list Rfc.md5_step :=
  steps_of 1 5 9 14 20 ((1%nat, 0xf61e2562), (6%nat, 0xc040b340), (11%nat, 0x265e5a51), (0%nat, 0xe9b6c7aa)) ++
  steps_of 1 5 9 14 20 ((5%nat, 0xd62f105d), (10%nat, 0x2441453), (15%nat, 0xd8a1e681), (4%nat, 0xe7d3fbc8)) ++
  steps_of 1 5 9 14 20 ((9%nat, 0x21e1cde6), (14%nat, 0xc33707d6), (3%nat, 0xf4d50d87), (8%nat, 0x455a14ed)) ++
  steps_of 1 5 9 14 20 ((13%nat, 0xa9e3e905), (2%nat, 0xfcefa3f8), (7%nat, 0x676f02d9), (12%nat, 0x8d2a4c8a)).
Lemma round2_steps q : word_quad q → foldl (Rfc.run_step x) q round2 = MD5_round2 x q ∧ word_quad (MD5_round2 x q).
Proof.
  intros Hq. unfold round2. rewrite (proj1 (round_steps GG 1 5 9 14 20 ltac:(lia) ltac:(lia) ltac:(lia) ltac:(lia)
    GG_step GG_word _ _ _ _ q Hq)).
  destruct q as [[[a b] c] d]. split; [reflexivity|]. split; [|split; [|split]]; apply u32_word.
Qed.

Definition round3 : list Rfc.md5_step :=
  steps_of 2 4 11 16 23 ((5%nat, 0xfffa3942), (8%nat, 0x8771f681), (11%nat, 0x6d9d6122), (14%nat, 0xfde5380c)) ++
  steps_of 2 4 11 16 23 ((1%nat, 0xa4beea44), (4%nat, 0x4bdecfa9), (7%nat, 0xf6bb4b60), (10%nat, 0xbebfbc70)) ++
  steps_of 2 4 11 16 23 ((13%nat, 0x289b7ec6), (0%nat, 0xeaa127fa), (3%nat, 0xd4ef3085), (6%nat, 0x4881d05)) ++
  steps_of 2 4 11 16 23 ((9%nat, 0xd9d4d039), (12%nat, 0xe6db99e5), (15%nat, 0x1fa27cf8), (2%nat, 0xc4ac5665)).
Lemma round3_steps q : word_quad q → foldl (Rfc.run_step x) q round3 = MD5_round3 x q ∧ word_quad (MD5_round3 x q).
Proof.
  intros Hq. unfold round3. rewrite (proj1 (round_steps HH 2 4 11 16 23 ltac:(lia) ltac:(lia) ltac:(lia) ltac:(lia)
    HH_step HH_word _ _ _ _ q Hq)).
  destruct q as [[[a b] c] d]. split; [reflexivity|]. split; [|split; [|split]]; apply u32_word.
Qed.

Definition round4 : list Rfc.md5_step :=
  steps_of 3 6 10 15 21 ((0%nat, 0xf4292244), (7%nat, 0x432aff97), (14%nat, 0xab9423a7), (5%nat, 0xfc93a039)) ++
  steps_of 3 6 10 15 21 ((12%nat, 0x655b59c3), (3%nat, 0x8f0ccc92), (10%nat, 0xffeff47d), (1%nat, 0x85845dd1)) ++
  steps_of 3 6 10 15 21 ((8%nat, 0x6fa87e4f), (15%nat, 0xfe2ce6e0), (6%nat, 0xa3014314), (13%nat, 0x4e0811a1)) ++
  steps_of 3 6 10 15 21 ((4%nat, 0xf7537e82), (11%nat, 0xbd3af235), (2%nat, 0x2ad7d2bb), (9%nat, 0xeb86d391)).
Lemma round4_steps q : word_quad q → foldl (Rfc.run_step x) q round4 = MD5_round4 x q ∧ word_quad (MD5_round4 x q).
Proof.
  intros Hq. unfold round4. rewrite (proj1 (round_steps II 3 6 10 15 21 ltac:(lia) ltac:(lia) ltac:(lia) ltac:(lia)
    II_step II_word _ _ _ _ q Hq)).
  destruct q as [[[a b] c] d]. split; [reflexivity|]. split; [|split; [|split]]; apply u32_word.
Qed.
End rounds.

(** The order of the words, the shifts and the table. *)
Lemma md5_steps_rounds : Rfc.md5_steps = round1 ++ round2 ++ round3 ++ round4.
Proof. vm_compute. reflexivity. Qed.


Lemma length_xor_pad key pad : (length key <= 64)%nat → length (xor_pad key pad) = 64%nat.
Proof. intros. unfold xor_pad. rewrite length_map, length_app, length_replicate. lia. Qed.

Lemma Decode_words n : ∀ l, Forall in_u8 l → (length l <= n)%nat → Decode l = Rfc.words l.
Proof.
  induction n as [|n IH]; intros l Hl Hn; [by destruct l; [|cbn in Hn; lia]|].
  destruct l as [|a [|b [|c [|d l]]]]; [done..|]. cbn [Decode Rfc.words]. cbn [length] in Hn.
  repeat match goal with H : Forall _ (_ :: _) |- _ => apply Forall_cons in H as [? H] end.
  rewrite Decode_word, IH by (done || lia). f_equal.
  change (2 ^ 8) with 256. change (2 ^ 16) with 65536. change (2 ^ 24) with 16777216. lia.
Qed.

Lemma MD5Transform_compress q block : word_quad q → Forall in_u8 block →
  MD5Transform q block = Rfc.compress q block ∧ word_quad (MD5Transform q block).
Proof.
  intros Hq Hb. unfold MD5Transform, Rfc.compress. rewrite (Decode_words _ block Hb (le_n _)), md5_steps_rounds, !foldl_app.
  set (x := λ i, nth i (Rfc.words block) 0).
  destruct (round1_steps x q Hq) as [-> H1]. destruct (round2_steps x _ H1) as [-> H2].
  destruct (round3_steps x _ H2) as [-> H3]. destruct (round4_steps x _ H3) as [-> H4].
  destruct (MD5_round4 _ _) as [[[a' b'] c'] d']. destruct q as [[[a b] c] d].
  split; [done|]. split; [|split; [|split]]; apply u32_word.
Qed.

Lemma md5_blocks_compress n : ∀ q msg, word_quad q → Forall in_u8 msg →
  md5_blocks n q msg = foldl Rfc.compress q (Rfc.blocks n msg).
Proof.
  induction n as [|n IH]; intros q msg Hq Hm; [done|]. cbn [md5_blocks Rfc.blocks foldl].
  destruct (MD5Transform_compress q (take 64 msg) Hq (Forall_take _ _ _ Hm)) as [<- Hw].
  apply IH; [done|by apply Forall_drop].
Qed.

Lemma octet_of_word v k : 0 <= k <= 24 → (v mod 2 ^ 32) / 2 ^ k mod 2 ^ 8 = v / 2 ^ k mod 2 ^ 8.
Proof.
  intros Hk. apply Z.bits_inj'. intros i Hi. destruct (Z.lt_ge_cases i 8).
  - rewrite !Z.mod_pow2_bits_low, !Z.div_pow2_bits, Z.mod_pow2_bits_low by lia. done.
  - by rewrite !Z.mod_pow2_bits_high by lia.
Qed.

Lemma Encode_octets ws : Encode ws = concat (map (Rfc.octets 4) ws).
Proof.
  induction ws as [|w ws IH]; [done|]. cbn [Encode map concat]. rewrite IH, !land_255, !Z.shiftr_div_pow2 by lia.
  unfold Rfc.octets. cbn [seq map app]. change (256 ^ Z.of_nat 0) with 1. by rewrite Z.div_1_r.
Qed.

Lemma length_octets v : Encode [u32 v; u32 (v / 2 ^ 32)] = Rfc.octets 8 v.
Proof.
  rewrite Encode_octets. cbn [map concat]. rewrite app_nil_r. unfold Rfc.octets. cbn [seq map app]. unfold u32.
  change 256 with (2 ^ 8). rewrite <- !Z.pow_mul_r by lia.
  change (8 * Z.of_nat 0) with 0. change (8 * Z.of_nat 1) with 8. change (8 * Z.of_nat 2) with 16. change (8 * Z.of_nat 3) with 24.
  change (8 * Z.of_nat 4) with (32 + 0). change (8 * Z.of_nat 5) with (32 + 8). change (8 * Z.of_nat 6) with (32 + 16).
  change (8 * Z.of_nat 7) with (32 + 24). rewrite !octet_of_word by lia. rewrite !Z.div_div by lia. by rewrite <- !Z.pow_add_r by lia.
Qed.

Lemma one_shot_md5 msg : Forall in_u8 msg → one_shot msg = Rfc.md5 msg.
Proof.
  intros Hm. unfold one_shot, Rfc.md5.
  assert (Hp : msg ++ md5_pad (Z.of_nat (length msg)) = Rfc.pad msg).
  { unfold md5_pad, Rfc.pad. by rewrite length_octets. }
  assert (Ho : Forall in_u8 (Rfc.pad msg)).
  { unfold Rfc.pad. repeat (apply Forall_app; split); [done|by repeat constructor|by apply Forall_replicate|].
    apply Forall_forall. intros v (i & -> & _)%list_elem_of_fmap. unfold in_u8. apply Z.mod_pos_bound. lia. }
  rewrite Hp, md5_blocks_compress by (done || by split; [|split; [|split]]).
  unfold MD5_init_state. destruct (foldl _ _ _) as [[[a b] c] d]. rewrite Encode_octets. cbn [map concat]. by rewrite app_nil_r.
Qed.

Lemma Rfc_md5_octets msg : Forall in_u8 (Rfc.md5 msg) ∧ length (Rfc.md5 msg) = 16%nat.
Proof.
  unfold Rfc.md5. destruct (foldl _ _ _) as [[[a b] c] d]. split; [|done].
  repeat (apply Forall_app; split); apply Forall_forall; intros v (i & -> & _)%list_elem_of_fmap;
    unfold in_u8; apply Z.mod_pos_bound; lia.
Qed.

Lemma xor_pad_octets key byte : Forall in_u8 key → in_u8 byte → Forall in_u8 (xor_pad key byte).
Proof.
  intros Hk Hb. assert (Forall in_u8 (key ++ replicate (64 - length key) 0)) as Hf
    by (apply Forall_app; split; [done|by apply Forall_replicate]).
  apply Forall_forall. intros v (x & -> & Hx)%list_elem_of_fmap. rewrite Forall_forall in Hf. apply Hf in Hx.
  unfold in_u8 in *. assert (0 <= Z.lxor x byte) as H0 by (apply Z.lxor_nonneg; lia). split; [done|].
  destruct (Z.eq_dec (Z.lxor x byte) 0) as [->|Hn]; [lia|]. change 256 with (2 ^ 8). apply Z.log2_lt_pow2; [lia|].
  eapply Z.le_lt_trans; [apply Z.log2_lxor; lia|]. apply Z.max_lub_lt; apply (Z.le_lt_trans _ (Z.log2 255)); try done; apply Z.log2_le_mono; lia.
Qed.

Lemma hmac_md5_hmac (stack text key : list Z) :
  length stack = 64%nat → Forall in_u8 text → Forall in_u8 key →
  Z.of_nat (length text) < 2 ^ 31 → Z.of_nat (length key) < 2 ^ 31 →
  hmac_md5 stack text key = Rfc.hmac text key.
Proof.
  intros Hs Hot Hok Ht Hk. unfold hmac_md5, Rfc.hmac.
  assert (MD5 stack key = Rfc.md5 key) as ->.
  { rewrite <- one_shot_md5 by done. apply absorbed_unique_digest; [|lia].
    apply (MD5Update_absorbed _ []); [by apply absorbed_init|done]. }
  set (key' := if (64 <? length key)%nat then Rfc.md5 key else key).
  assert (Hk' : (length key' <= 64)%nat ∧ Forall in_u8 key').
  { unfold key'. destruct (Nat.ltb_spec 64 (length key)); [destruct (Rfc_md5_octets key) as [? ->]|]; split; done || lia. }
  destruct Hk' as [Hk' Hok'].
  assert (Hz : ∀ byte, zip_with Z.lxor (key' ++ replicate (64 - length key') 0) (replicate 64 byte) = xor_pad key' byte).
  { intros byte. apply zip_with_replicate_r. rewrite length_app, length_replicate. lia. }
  rewrite !Hz.
  pose proof (length_xor_pad key' 0x36 Hk') as Hi. pose proof (length_xor_pad key' 0x5c Hk') as Ho.
  assert (Hin : absorbed (MD5Update (MD5Update (MD5Init stack) (xor_pad key' 0x36)) text)
                  (xor_pad key' 0x36 ++ text)).
  { apply MD5Update_absorbed; [|done].
    apply (MD5Update_absorbed _ []); [by apply absorbed_init|lia]. }
  rewrite (absorbed_unique_digest _ _ Hin) by (rewrite length_app; lia).
  rewrite one_shot_md5 by (apply Forall_app; split; [by apply xor_pad_octets|done]).
  destruct (Rfc_md5_octets (xor_pad key' 0x36 ++ text)) as [Hod Hld]. set (digest := Rfc.md5 (xor_pad key' 0x36 ++ text)) in *.
  rewrite <- (one_shot_md5 (xor_pad key' 0x5c ++ digest)) by (apply Forall_app; split; [by apply xor_pad_octets|done]).
  apply absorbed_unique_digest; [|rewrite length_app; lia].
  apply MD5Update_absorbed; [|lia]. apply (MD5Update_absorbed _ []); [apply absorbed_init, Hin|lia].
Qed.

(** ** Properties *)

(** C22: the incremental MD5 routines compute RFC 1321's digest of the concatenation of the
    pieces they were given, for every way of cutting a message of octets and whatever the
    uninitialised context buffer holds. *)
Theorem MD5_incremental_correct (buffer : list Z) (pieces : list (list Z)) :
  length buffer = 64%nat → Forall in_u8 (concat pieces) →
  Forall (λ p, Z.of_nat (length p) < 2 ^ 31) pieces →
  Z.of_nat (length (concat pieces)) < 2 ^ 61 →
  MD5Final (MD5_updates (MD5Init buffer) pieces) = Rfc.md5 (concat pieces).
Proof.
  intros Hb Ho Hp Hl. rewrite <- one_shot_md5 by done. apply absorbed_unique_digest; [|done].
  apply (MD5_updates_absorbed _ []); [by apply absorbed_init|done].
Qed.

Lemma MD5_incremental_correct_witness :
  MD5Final (MD5_updates (MD5Init (replicate 64 7)) [[97]; [98; 99]]) = Rfc.md5 [97; 98; 99].
Proof.
  apply (MD5_incremental_correct (replicate 64 7) [[97]; [98; 99]]);
    [done|by apply (bool_decide_unpack _); vm_compute|by repeat constructor|done].
Defined.

(** C21: [hmac_md5] computes RFC 2104's HMAC over RFC 1321's MD5, on every key of octets (the
    ones longer than a block are hashed first) and every text. *)
Theorem hmac_md5_correct (stack text key : list Z) :
  length stack = 64%nat → Forall in_u8 text → Forall in_u8 key →
  Z.of_nat (length text) < 2 ^ 31 → Z.of_nat (length key) < 2 ^ 31 →
  hmac_md5 stack text key = Rfc.hmac text key.
Proof. apply hmac_md5_hmac. Qed.

Lemma hmac_md5_correct_witness :
  hmac_md5 (replicate 64 0) [72; 105] [11; 11; 11] = Rfc.hmac [72; 105] [11; 11; 11].
Proof.
  apply (hmac_md5_correct (replicate 64 0) [72; 105] [11; 11; 11]); try done; by apply (bool_decide_unpack _); vm_compute.
Defined.
