(* ===== verification/Vectors.v ===== *)
(** Priority vectors and port costs (mstp.c, "Helper functions, compare two
    priority vectors" and compute_pcost).  The comparisons of the code work on
    bytes, member by member; they are proved to be the lexicographic order of
    the numbers those bytes encode. *)
From S2P Require Import Prelude Types.

(** ** Definitions *)

(** 13.37.1 - Table 13-3; [speed] is in Mb/s *)
Definition compute_pcost (speed : Z) : Z :=
  if 0 <? speed
  then if speed <? 20000000 then 20000000 / speed else 1
  else MAX_PATH_COST.

(** [_ncmp] on the types the code uses it with. *)
Definition ncmp8 (x y : Z) : Z := memcmp [x] [y].
Definition ncmp16 (x y : Z) : Z := memcmp (be_bytes 2 x) (be_bytes 2 y).
Definition ncmp32 (x y : Z) : Z := memcmp (be_bytes 4 x) (be_bytes 4 y).
Definition ncmp_bridge_id (x y : bridge_identifier_t) : Z :=
  memcmp (bridge_id_bytes x) (bridge_id_bytes y).

Definition samePriorityAndTimers (vec1 vec2 : port_priority_vector_t)
    (time1 time2 : times_t) (cist : bool) : bool :=
  if cist && (ncmp8 (Forward_Delay time1) (Forward_Delay time2) ≠? 0) then false
  else if cist && (ncmp8 (Max_Age time1) (Max_Age time2) ≠? 0) then false
  else if cist && (ncmp8 (Message_Age time1) (Message_Age time2) ≠? 0) then false
  else if cist && (ncmp8 (Hello_Time time1) (Hello_Time time2) ≠? 0) then false
  else if cist && (ncmp_bridge_id (RootID vec1) (RootID vec2) ≠? 0) then false
  else if cist && (ncmp32 (ExtRootPathCost vec1) (ExtRootPathCost vec2) ≠? 0) then false
  else if ncmp8 (remainingHops time1) (remainingHops time2) ≠? 0 then false
  else if ncmp_bridge_id (RRootID vec1) (RRootID vec2) ≠? 0 then false
  else if ncmp32 (IntRootPathCost vec1) (IntRootPathCost vec2) ≠? 0 then false
  else if ncmp_bridge_id (DesignatedBridgeID vec1) (DesignatedBridgeID vec2) ≠? 0 then false
  else if ncmp16 (DesignatedPortID vec1) (DesignatedPortID vec2) ≠? 0 then false
  else true.

(** One step of the cascade: worse, better, or go on. *)
Definition cascade (result : Z) (next : bool) : bool :=
  if 0 <? result then false (* worse *)
  else if result <? 0 then true (* better *)
  else next.

Definition betterorsamePriority (vec1 vec2 : port_priority_vector_t)
    (pId1 pId2 : Z) (cist : bool) : bool :=
  let rest :=
    cascade (ncmp_bridge_id (RRootID vec1) (RRootID vec2))
    (cascade (ncmp32 (IntRootPathCost vec1) (IntRootPathCost vec2))
    (cascade (ncmp_bridge_id (DesignatedBridgeID vec1) (DesignatedBridgeID vec2))
    (cascade (ncmp16 (DesignatedPortID vec1) (DesignatedPortID vec2))
    (* Port ID is a tie-breaker *)
    (ncmp16 pId1 pId2 <=? 0)))) in
  if cist
  then cascade (ncmp_bridge_id (RootID vec1) (RootID vec2))
       (cascade (ncmp32 (ExtRootPathCost vec1) (ExtRootPathCost vec2)) rest)
  else rest.

(** ** Specification: the lexicographic order of the components *)

(** The number a bridge identifier encodes. *)
Definition be_value (l : list Z) : Z := foldl (λ acc b, acc * 256 + b) 0 l.
Definition bridge_id_value (b : bridge_identifier_t) : Z := be_value (bridge_id_bytes b).

Definition wf_bridge_id (b : bridge_identifier_t) : Prop :=
  in_u16 (priority b) ∧ length (mac_address b) = ETH_ALEN ∧ Forall in_u8 (mac_address b).

Record wf_vector (v : port_priority_vector_t) : Prop := {
  wf_RRootID : wf_bridge_id (RRootID v);
  wf_IntRootPathCost : in_u32 (IntRootPathCost v);
  wf_DesignatedBridgeID : wf_bridge_id (DesignatedBridgeID v);
  wf_DesignatedPortID : in_u16 (DesignatedPortID v);
  wf_RootID : wf_bridge_id (RootID v);
  wf_ExtRootPathCost : in_u32 (ExtRootPathCost v)
}.

(** The components that take part in the comparison, most significant first. *)
Definition vector_key (v : port_priority_vector_t) (pId : Z) (cist : bool) : list Z :=
  (if cist then [bridge_id_value (RootID v); ExtRootPathCost v] else [])
  ++ [bridge_id_value (RRootID v); IntRootPathCost v;
      bridge_id_value (DesignatedBridgeID v); DesignatedPortID v; pId].

(** Lexicographic order on lists of numbers. *)
Fixpoint lex_le (a b : list Z) : Prop :=
  match a, b with
  | x :: a', y :: b' => x < y ∨ (x = y ∧ lex_le a' b')
  | [], _ => True
  | _ :: _, [] => False
  end.

(** ** Lemmas *)

Lemma be_value_acc l acc :
  foldl (λ a b, a * 256 + b) acc l = acc * 256 ^ Z.of_nat (length l) + be_value l.
Proof.
  unfold be_value. revert acc. induction l as [|b l IH]; intros acc; cbn [foldl length].
  - rewrite Z.pow_0_r. lia.
  - rewrite IH, (IH (0 * 256 + b)).
    replace (Z.of_nat (S (length l))) with (1 + Z.of_nat (length l)) by lia.
    rewrite Z.pow_add_r by lia. lia.
Qed.

Lemma be_value_cons b l : be_value (b :: l) = b * 256 ^ Z.of_nat (length l) + be_value l.
Proof. unfold be_value at 1. simpl. by rewrite be_value_acc. Qed.

Lemma be_value_bound l : Forall in_u8 l → 0 <= be_value l < 256 ^ Z.of_nat (length l).
Proof.
  induction 1 as [|b l Hb _ IH]; [done|]. rewrite be_value_cons. cbn [length].
  replace (Z.of_nat (S (length l))) with (1 + Z.of_nat (length l)) by lia.
  rewrite Z.pow_add_r by lia. unfold in_u8 in Hb. nia.
Qed.

(** [memcmp] on equally long byte strings is the sign of the difference of the
    numbers they encode. *)
Lemma memcmp_value a b :
  length a = length b → Forall in_u8 a → Forall in_u8 b →
  memcmp a b = Z.sgn (be_value a - be_value b).
Proof.
  intros Hl Ha. revert b Hl. induction Ha as [|x a Hx Ha IH]; intros [|y b] Hl Hb;
    try done.
  simpl in Hl. injection Hl as Hl. inversion_clear Hb as [|?? Hy Hb'].
  rewrite !be_value_cons, <- Hl. cbn [memcmp].
  pose proof (be_value_bound a Ha). pose proof (be_value_bound b Hb') as Hbb.
  rewrite <- Hl in Hbb.
  destruct (Z.ltb_spec x y); [rewrite Z.sgn_neg; nia|].
  destruct (Z.ltb_spec y x); [rewrite Z.sgn_pos; nia|].
  assert (x = y) as -> by lia. rewrite (IH b) by done. f_equal. lia.
Qed.

Lemma Forall_be_bytes n v : Forall in_u8 (be_bytes n v).
Proof.
  induction n; simpl; constructor; [|done]. unfold in_u8. by apply Z.mod_pos_bound.
Qed.

Lemma be_value_be_bytes n v : be_value (be_bytes n v) = v mod 256 ^ Z.of_nat n.
Proof.
  induction n as [|n IH]; [by rewrite Z.mod_1_r|].
  cbn [be_bytes]. rewrite be_value_cons, length_be_bytes, IH.
  replace (Z.of_nat (S n)) with (Z.of_nat n + 1) by lia.
  rewrite Z.pow_add_r, Z.pow_1_r by lia. rewrite Z.rem_mul_r by lia.
  replace (2 ^ (8 * Z.of_nat n)) with (256 ^ Z.of_nat n); [ring|].
  change 256 with (2 ^ 8). by rewrite <- Z.pow_mul_r by lia.
Qed.

Lemma Forall_bridge_id_bytes b : wf_bridge_id b → Forall in_u8 (bridge_id_bytes b).
Proof. intros (_ & _ & Hm). apply Forall_app. split; [apply Forall_be_bytes|done]. Qed.

Lemma length_bridge_id_bytes b : wf_bridge_id b → length (bridge_id_bytes b) = 8%nat.
Proof. intros (_ & Hl & _). unfold bridge_id_bytes. by rewrite length_app, length_be_bytes, Hl. Qed.

Lemma ncmp_bridge_id_sgn x y :
  wf_bridge_id x → wf_bridge_id y →
  ncmp_bridge_id x y = Z.sgn (bridge_id_value x - bridge_id_value y).
Proof.
  intros Hx Hy. apply memcmp_value; auto using Forall_bridge_id_bytes.
  by rewrite !length_bridge_id_bytes.
Qed.

Lemma ncmp16_sgn x y : in_u16 x → in_u16 y → ncmp16 x y = Z.sgn (x - y).
Proof.
  unfold in_u16. intros. unfold ncmp16.
  rewrite memcmp_value by (rewrite ?length_be_bytes; auto using Forall_be_bytes).
  rewrite !be_value_be_bytes. change (256 ^ Z.of_nat 2) with 65536.
  by rewrite !Z.mod_small by lia.
Qed.

Lemma ncmp32_sgn x y : in_u32 x → in_u32 y → ncmp32 x y = Z.sgn (x - y).
Proof.
  unfold in_u32. intros. unfold ncmp32.
  rewrite memcmp_value by (rewrite ?length_be_bytes; auto using Forall_be_bytes).
  rewrite !be_value_be_bytes. change (256 ^ Z.of_nat 4) with 4294967296.
  by rewrite !Z.mod_small by lia.
Qed.

Lemma cascade_lex x y next a b :
  (next = true ↔ lex_le a b) →
  cascade (Z.sgn (x - y)) next = true ↔ lex_le (x :: a) (y :: b).
Proof.
  intros Hn. unfold cascade. cbn [lex_le].
  destruct (Z.ltb_spec 0 (Z.sgn (x - y))); [split; [done|lia]|].
  destruct (Z.ltb_spec (Z.sgn (x - y)) 0); [split; [lia|done]|].
  assert (x = y) as -> by lia. rewrite Hn. split; [auto|intros [?|[_ ?]]; [lia|done]].
Qed.

Lemma lex_le_refl a : lex_le a a.
Proof. induction a; simpl; auto. Qed.

Lemma lex_le_trans a b c : length a = length b → lex_le a b → lex_le b c → lex_le a c.
Proof.
  revert b c. induction a as [|x a IH]; intros [|y b] [|z c]; simpl; try done.
  intros [= Hl]. pose proof (IH b c Hl).
  intros [?|[-> ?]] [?|[-> ?]]; auto; left; lia.
Qed.

Lemma lex_le_total a b : length a = length b → lex_le a b ∨ lex_le b a.
Proof.
  revert b. induction a as [|x a IH]; intros [|y b]; simpl; auto; try done.
  intros [= Hl]. destruct (IH b Hl); destruct (Z.lt_trichotomy x y) as [?|[->|?]]; auto.
Qed.

Lemma lex_le_antisym a b : length a = length b → lex_le a b → lex_le b a → a = b.
Proof.
  revert b. induction a as [|x a IH]; intros [|y b]; simpl; auto; try done.
  intros [= Hl] [?|[-> ?]] [?|[? ?]]; try lia. f_equal. auto.
Qed.

Lemma length_vector_key v1 v2 p1 p2 cist :
  length (vector_key v1 p1 cist) = length (vector_key v2 p2 cist).
Proof. by destruct cist. Qed.

#[export] Hint Resolve wf_RRootID wf_IntRootPathCost wf_DesignatedBridgeID
  wf_DesignatedPortID wf_RootID wf_ExtRootPathCost : mstp.

(** Shared form of the comparison: the lexicographic order of the keys. *)
Lemma betterorsamePriority_key v1 v2 p1 p2 cist :
  wf_vector v1 → wf_vector v2 → in_u16 p1 → in_u16 p2 →
  betterorsamePriority v1 v2 p1 p2 cist = true
  ↔ lex_le (vector_key v1 p1 cist) (vector_key v2 p2 cist).
Proof.
  intros H1 H2 Hp1 Hp2. unfold betterorsamePriority, vector_key.
  rewrite !ncmp_bridge_id_sgn, !ncmp32_sgn, !ncmp16_sgn by auto with mstp.
  assert (Htie : (Z.sgn (p1 - p2) <=? 0) = true ↔ lex_le [p1] [p2])
    by (rewrite Z.leb_le; simpl; lia).
  destruct cist; cbn [app]; repeat apply cascade_lex; exact Htie.
Qed.

Lemma betterorsamePriority_refl v p cist : betterorsamePriority v v p p cist = true.
Proof.
  unfold betterorsamePriority, ncmp_bridge_id, ncmp32, ncmp16.
  rewrite !memcmp_refl. by destruct cist.
Qed.

Lemma be_bytes_inj n x y :
  0 <= x < 256 ^ Z.of_nat n → 0 <= y < 256 ^ Z.of_nat n →
  be_bytes n x = be_bytes n y → x = y.
Proof.
  intros Hx Hy Heq. apply (f_equal be_value) in Heq.
  rewrite !be_value_be_bytes, !Z.mod_small in Heq by done. done.
Qed.

Lemma ncmp8_eq x y : ncmp8 x y = 0 ↔ x = y.
Proof. unfold ncmp8. rewrite memcmp_eq by done. split; [by intros [=]|by intros ->]. Qed.

Lemma ncmp_bytes_eq n x y :
  0 <= x < 256 ^ Z.of_nat n → 0 <= y < 256 ^ Z.of_nat n →
  memcmp (be_bytes n x) (be_bytes n y) = 0 ↔ x = y.
Proof.
  intros. rewrite memcmp_eq by (by rewrite !length_be_bytes).
  split; [by apply be_bytes_inj|by intros ->].
Qed.

Lemma ncmp16_eq x y : in_u16 x → in_u16 y → ncmp16 x y = 0 ↔ x = y.
Proof. apply (ncmp_bytes_eq 2). Qed.

Lemma ncmp32_eq x y : in_u32 x → in_u32 y → ncmp32 x y = 0 ↔ x = y.
Proof. apply (ncmp_bytes_eq 4). Qed.

Lemma bridge_id_bytes_inj x y :
  wf_bridge_id x → wf_bridge_id y → bridge_id_bytes x = bridge_id_bytes y → x = y.
Proof.
  destruct x as [px mx], y as [py my]. intros (Hx & _ & _) (Hy & _ & _) Heq.
  apply app_inj_1 in Heq as [Hp Hm]; [|by rewrite !length_be_bytes].
  simpl in *. subst. f_equal. by apply (be_bytes_inj 2).
Qed.

Lemma ncmp_bridge_id_eq x y :
  wf_bridge_id x → wf_bridge_id y → ncmp_bridge_id x y = 0 ↔ x = y.
Proof.
  intros Hx Hy. unfold ncmp_bridge_id.
  rewrite memcmp_eq by (by rewrite !length_bridge_id_bytes).
  split; [by apply bridge_id_bytes_inj|by intros ->].
Qed.

(** [if(cmp(..., !=, ...)) return false;] *)
Lemma guard_true (c next : bool) (P Q : Prop) :
  (c = false ↔ P) → (next = true ↔ Q) → (if c then false else next) = true ↔ P ∧ Q.
Proof. intros Hc Hn. destruct c; intuition discriminate. Qed.

Lemma cist_guard (cist : bool) r P :
  (r = 0 ↔ P) → cist && (r ≠? 0) = false ↔ (cist = true → P).
Proof.
  intros H. destruct cist; simpl; [|intuition discriminate].
  rewrite negb_false_iff, Z.eqb_eq, H. intuition.
Qed.

Lemma plain_guard r P : (r = 0 ↔ P) → (r ≠? 0) = false ↔ P.
Proof. intros H. by rewrite negb_false_iff, Z.eqb_eq, H. Qed.

Lemma GET_SET_PRIORITY_bound id : in_u16 id → 0 <= id / 256 < 256.
Proof. unfold in_u16. intros. zlia. Qed.

(** The first octet SET_PRIORITY_IN_IDENTIFIER builds: low nibble kept, high
    nibble replaced. *)
Lemma priority_octet x pri :
  in_u8 x → in_u8 pri →
  Z.lor (Z.land x 0x0F) (Z.land pri 0xF0) = x mod 16 + (pri / 16) * 16.
Proof.
  unfold in_u8. intros Hx Hp.
  assert (Z.land pri 0xF0 = Z.shiftl (pri / 16) 4) as ->.
  { change 0xF0 with (Z.shiftl 15 4). change (pri / 16) with (pri / 2 ^ 4).
    rewrite <- Z.shiftr_div_pow2 by lia. apply Z.bits_inj'. intros n Hn.
    rewrite Z.land_spec. destruct (Z.lt_ge_cases n 4) as [?|?].
    - rewrite !Z.shiftl_spec_low by lia. apply andb_false_r.
    - rewrite !Z.shiftl_spec, Z.shiftr_spec by lia.
      replace (n - 4 + 4) with n by lia.
      change 15 with (Z.ones 4). destruct (Z.lt_ge_cases (n - 4) 4) as [?|?].
      + rewrite Z.ones_spec_low by lia. apply andb_true_r.
      + rewrite Z.ones_spec_high, andb_false_r by lia. symmetry.
        rewrite <- (Z.mod_small pri (2 ^ 8)) by lia. by rewrite Z.mod_pow2_bits_high by lia. }
  change 0x0F with (2 ^ 4 - 1). rewrite land_ones_mod by lia. change (2 ^ 4) with 16.
  rewrite lor_shiftl_add; [done|lia|]. apply Z.mod_pos_bound. lia.
Qed.

(** ** Properties *)

(** C23: [betterorsamePriority] is the lexicographic order of the vector's
    numbers (root identifier and external cost only for the CIST, the port
    identifier as tie-breaker): a total preorder in which the better vector
    comes first. *)
Theorem betterorsamePriority_order (v1 v2 v3 : port_priority_vector_t) (p1 p2 p3 : Z) (cist : bool) :
  wf_vector v1 → wf_vector v2 → wf_vector v3 → in_u16 p1 → in_u16 p2 → in_u16 p3 →
  (betterorsamePriority v1 v2 p1 p2 cist = true
     ↔ lex_le (vector_key v1 p1 cist) (vector_key v2 p2 cist))
  ∧ (betterorsamePriority v1 v2 p1 p2 cist = true ∨ betterorsamePriority v2 v1 p2 p1 cist = true)
  ∧ (betterorsamePriority v1 v2 p1 p2 cist = true →
     betterorsamePriority v2 v3 p2 p3 cist = true →
     betterorsamePriority v1 v3 p1 p3 cist = true).
Proof.
  intros. rewrite !betterorsamePriority_key by done. split; [done|split].
  - apply lex_le_total, length_vector_key.
  - apply lex_le_trans, length_vector_key.
Qed.

Definition sample_vector (p c : Z) : port_priority_vector_t :=
  let id := mk_bridge_identifier p (replicate 6 1) in
  mk_port_priority_vector id c id 0x8001 id c.

Lemma sample_vector_wf p c : in_u16 p → in_u32 c → wf_vector (sample_vector p c).
Proof.
  intros Hp Hc.
  assert (wf_bridge_id (mk_bridge_identifier p (replicate 6 1)))
    by (split; [done|split; [done|by apply Forall_replicate]]).
  by split.
Qed.

Lemma betterorsamePriority_order_witness :
  betterorsamePriority (sample_vector 1 5) (sample_vector 1 5) 7 7 true = true.
Proof.
  pose proof (betterorsamePriority_order (sample_vector 1 5) (sample_vector 1 5)
    (sample_vector 1 5) 7 7 7 true
    (sample_vector_wf 1 5 ltac:(done) ltac:(done)) (sample_vector_wf 1 5 ltac:(done) ltac:(done))
    (sample_vector_wf 1 5 ltac:(done) ltac:(done)) ltac:(done) ltac:(done) ltac:(done))
    as [_ [[H|H] _]]; exact H.
Defined.

(** [samePriorityAndTimers] holds exactly when every compared member is
    equal: always the hop count and the regional part of the vector, and for the
    CIST also the times, the root identifier and the external cost. *)
Theorem samePriorityAndTimers_spec (v1 v2 : port_priority_vector_t) (t1 t2 : times_t) (cist : bool) :
  wf_vector v1 → wf_vector v2 →
  samePriorityAndTimers v1 v2 t1 t2 cist = true ↔
    (cist = true →
       Forward_Delay t1 = Forward_Delay t2 ∧ Max_Age t1 = Max_Age t2
       ∧ Message_Age t1 = Message_Age t2 ∧ Hello_Time t1 = Hello_Time t2
       ∧ RootID v1 = RootID v2 ∧ ExtRootPathCost v1 = ExtRootPathCost v2)
    ∧ remainingHops t1 = remainingHops t2
    ∧ RRootID v1 = RRootID v2 ∧ IntRootPathCost v1 = IntRootPathCost v2
    ∧ DesignatedBridgeID v1 = DesignatedBridgeID v2
    ∧ DesignatedPortID v1 = DesignatedPortID v2.
Proof.
  intros H1 H2. unfold samePriorityAndTimers.
  repeat (erewrite guard_true;
    [|first [apply cist_guard|apply plain_guard];
      first [apply ncmp8_eq|apply ncmp_bridge_id_eq|apply ncmp32_eq|apply ncmp16_eq];
      auto with mstp|reflexivity]).
  tauto.
Qed.

Lemma samePriorityAndTimers_spec_witness :
  samePriorityAndTimers (sample_vector 1 5) (sample_vector 1 5)
    (mk_times 20 15 20 0 2) (mk_times 20 15 20 0 2) true = true.
Proof.
  apply (samePriorityAndTimers_spec (sample_vector 1 5) (sample_vector 1 5)
    (mk_times 20 15 20 0 2) (mk_times 20 15 20 0 2) true).
  - apply sample_vector_wf; done.
  - apply sample_vector_wf; done.
  - repeat split.
Defined.

(** A port path cost computed from a speed lies in 1..MAX_PATH_COST, never
    grows with the speed, and a port without a usable speed gets the worst one. *)
Theorem compute_pcost_bounds (s1 s2 : Z) :
  1 <= compute_pcost s1 <= MAX_PATH_COST
  ∧ (0 < s1 <= s2 → compute_pcost s2 <= compute_pcost s1)
  ∧ (s1 <= 0 → compute_pcost s1 = MAX_PATH_COST)
  ∧ (0 < s1 → compute_pcost s1 <= 20000000).
Proof.
  unfold compute_pcost, MAX_PATH_COST.
  assert (Hdiv : ∀ s, 0 < s → s < 20000000 → 1 <= 20000000 / s <= 20000000).
  { intros. split; [apply Z.div_le_lower_bound; lia|apply Z.div_le_upper_bound; nia]. }
  destruct (Z.ltb_spec 0 s1), (Z.ltb_spec s1 20000000), (Z.ltb_spec 0 s2),
    (Z.ltb_spec s2 20000000);
    try pose proof (Hdiv s1 ltac:(lia) ltac:(lia)); try pose proof (Hdiv s2 ltac:(lia) ltac:(lia));
    repeat split; intros; try lia.
  apply Z.div_le_compat_l; lia.
Qed.

(** SET_PRIORITY_IN_IDENTIFIER stores the high nibble of the priority, which
    GET_PRIORITY_FROM_IDENTIFIER reads back, and leaves the low twelve bits (port
    number or system ID extension) alone. *)
Theorem priority_identifier_roundtrip (pri id : Z) :
  in_u8 pri → in_u16 id →
  in_u16 (SET_PRIORITY_IN_IDENTIFIER pri id)
  ∧ GET_PRIORITY_FROM_IDENTIFIER (SET_PRIORITY_IN_IDENTIFIER pri id) = 16 * (pri / 16)
  ∧ SET_PRIORITY_IN_IDENTIFIER pri id mod 4096 = id mod 4096.
Proof.
  intros Hp Hid. pose proof (GET_SET_PRIORITY_bound id Hid) as Hx.
  unfold GET_PRIORITY_FROM_IDENTIFIER, SET_PRIORITY_IN_IDENTIFIER. cbv zeta.
  rewrite priority_octet by done. unfold in_u8, in_u16 in *.
  set (o := (id / 256) mod 16 + pri / 16 * 16).
  assert (Ho : 0 <= o < 256) by (unfold o; zlia).
  assert ((o * 256 + id mod 256) / 256 = o) as -> by zlia.
  pose proof (priority_octet 0 o ltac:(unfold in_u8; lia) Ho) as Hl.
  rewrite Z.land_0_l, Z.lor_0_l in Hl. rewrite Hl. unfold o in *.
  repeat split; zlia.
Qed.

Lemma priority_identifier_roundtrip_witness :
  GET_PRIORITY_FROM_IDENTIFIER (SET_PRIORITY_IN_IDENTIFIER 0x70 0x8003) = 0x70.
Proof.
  apply (priority_identifier_roundtrip 0x70 0x8003); unfold in_u8, in_u16; lia.
Defined.
