(* ===== verification/Wire.v ===== *)
(** The octets of BPDUs: the packed structures of mstp.h as they lie in a frame.

    [put] writes a structure member by member and [get] is the cast of a pointer to
    octets, which fails when there are fewer octets than the structure has. *)
From S2P Require Import Prelude Types Vectors.

(** ** Structures of octets *)

Definition reader (A : Type) : Type := list Z → option (A * list Z).
#[export] Instance reader_ret : MRet reader := λ A a l, Some (a, l).
#[export] Instance reader_bind : MBind reader := λ A B f m l,
  match m l with Some (a, l') => f a l' | None => None end.

Class Wire (A : Type) := {
  put : A → list Z;
  get : reader A;
  wire_ok : A → Prop;   (* the members are in the range of their C types *)
  get_put x rest : wire_ok x → get (put x ++ rest) = Some (x, rest)
}.

(** [n] octets, as they are. *)
Definition get_octets (n : nat) : reader (list Z) := λ l,
  if (n <=? length l)%nat then Some (take n l, drop n l) else None.

(** An unsigned integer of [n] octets in network order. *)
Definition get_be (n : nat) : reader Z := l ← get_octets n; mret (be_value l).

Lemma get_octets_app l rest n : length l = n → get_octets n (l ++ rest) = Some (l, rest).
Proof.
  intros <-. unfold get_octets. rewrite length_app.
  destruct (Nat.leb_spec (length l) (length l + length rest)); [|lia].
  by rewrite take_app_length, drop_app_length.
Qed.

Lemma get_be_app n v rest : 0 <= v < 256 ^ Z.of_nat n → get_be n (be_bytes n v ++ rest) = Some (v, rest).
Proof.
  intros Hv. unfold get_be, mbind, reader_bind.
  rewrite get_octets_app by apply length_be_bytes. cbn.
  by rewrite be_value_be_bytes, Z.mod_small.
Qed.

Lemma reader_bind_Some {A B} (m : reader A) (f : A → reader B) l a l' :
  m l = Some (a, l') → (m ≫= f) l = f a l'.
Proof. intros H. unfold mbind, reader_bind. by rewrite H. Qed.

(** Reading one member after the other. *)
Ltac get_member :=
  rewrite <- ?app_assoc;
  first [ erewrite reader_bind_Some by (apply get_be_app; assumption)
        | erewrite reader_bind_Some by (apply get_octets_app; assumption)
        | erewrite reader_bind_Some by (apply get_put; assumption) ].

(** ** The packed structures *)

#[export] Program Instance bridge_identifier_wire : Wire bridge_identifier_t := {|
  put x := be_bytes 2 (priority x) ++ mac_address x;
  get := p ← get_be 2; m ← get_octets ETH_ALEN; mret (mk_bridge_identifier p m);
  wire_ok x := in_u16 (priority x) ∧ length (mac_address x) = ETH_ALEN
|}.
Next Obligation. intros [p m] rest [Hp Hm]; cbn -[be_bytes] in *. repeat get_member. done. Qed.

#[export] Program Instance configuration_identifier_wire : Wire mst_configuration_identifier_t := {|
  put x := be_bytes 1 (selector x) ++ configuration_name x ++ be_bytes 2 (revision_level x)
           ++ configuration_digest x;
  get := s ← get_be 1; n ← get_octets CONFIGURATION_NAME_LEN; r ← get_be 2;
         d ← get_octets CONFIGURATION_DIGEST_LEN;
         mret (mk_mst_configuration_identifier s n r d);
  wire_ok x := in_u8 (selector x) ∧ length (configuration_name x) = CONFIGURATION_NAME_LEN ∧
    in_u16 (revision_level x) ∧ length (configuration_digest x) = CONFIGURATION_DIGEST_LEN
|}.
Next Obligation.
  intros [s n r d] rest (Hs & Hn & Hr & Hd); cbn -[be_bytes] in *. repeat get_member. done.
Qed.

#[export] Program Instance msti_message_wire : Wire msti_configuration_message_t := {|
  put x := be_bytes 1 (msti_flags x) ++ put (mstiRRootID x) ++ be_bytes 4 (mstiIntRootPathCost x)
           ++ be_bytes 1 (bridgeIdentifierPriority x) ++ be_bytes 1 (portIdentifierPriority x)
           ++ be_bytes 1 (msti_remainingHops x);
  get := f ← get_be 1; r ← get; c ← get_be 4; b ← get_be 1; p ← get_be 1; h ← get_be 1;
         mret (mk_msti_configuration_message f r c b p h);
  wire_ok x := in_u8 (msti_flags x) ∧ wire_ok (mstiRRootID x) ∧ in_u32 (mstiIntRootPathCost x) ∧
    in_u8 (bridgeIdentifierPriority x) ∧ in_u8 (portIdentifierPriority x) ∧
    in_u8 (msti_remainingHops x)
|}.
Next Obligation.
  intros [f r c b p h] rest (Hf & Hr & Hc & Hb & Hp & Hh); cbn -[be_bytes put get] in *.
  repeat get_member. done.
Qed.

(** An array of structures. *)
Fixpoint get_array {A} (g : reader A) (n : nat) : reader (list A) :=
  match n with
  | O => mret []
  | S n' => x ← g; l ← get_array g n'; mret (x :: l)
  end.

Lemma get_array_app {A} `{Wire A} (l : list A) rest n :
  length l = n → Forall wire_ok l → get_array get n (concat (map put l) ++ rest) = Some (l, rest).
Proof.
  intros <- Hl. revert rest. induction Hl as [|x l Hx _ IH]; intros rest; [done|].
  cbn [length get_array map concat]. rewrite <- app_assoc.
  erewrite reader_bind_Some by (by apply get_put).
  erewrite reader_bind_Some by apply IH. done.
Qed.

(** The four times, two octets each. *)
Definition put_time (t : Z * Z) : list Z := be_bytes 1 (fst t) ++ be_bytes 1 (snd t).
Definition get_time : reader (Z * Z) := a ← get_be 1; b ← get_be 1; mret (a, b).

Lemma get_time_app t rest : in_u8 (fst t) ∧ in_u8 (snd t) → get_time (put_time t ++ rest) = Some (t, rest).
Proof.
  intros [Ha Hb]. destruct t as [a b]. unfold put_time, get_time. cbn -[be_bytes] in *.
  repeat get_member. done.
Qed.

(** ** BPDUs *)

Definition wf_bpdu (b : bpdu_t) : Prop :=
  in_u16 (protocolIdentifier b) ∧ in_u8 (protocolVersion b) ∧ in_u8 (bpduType b) ∧
  in_u8 (flags b) ∧ wire_ok (cistRootID b) ∧ in_u32 (cistExtRootPathCost b) ∧
  wire_ok (cistRRootID b) ∧ in_u16 (cistPortID b) ∧
  (in_u8 (fst (MessageAge b)) ∧ in_u8 (snd (MessageAge b))) ∧
  (in_u8 (fst (MaxAge b)) ∧ in_u8 (snd (MaxAge b))) ∧
  (in_u8 (fst (HelloTime b)) ∧ in_u8 (snd (HelloTime b))) ∧
  (in_u8 (fst (ForwardDelay b)) ∧ in_u8 (snd (ForwardDelay b))) ∧
  in_u8 (version1_len b) ∧ in_u16 (version3_len b) ∧ wire_ok (mstConfigurationIdentifier b) ∧
  in_u32 (cistIntRootPathCost b) ∧ wire_ok (cistBridgeID b) ∧ in_u8 (cistRemainingHops b) ∧
  length (mstConfiguration b) = Z.to_nat MAX_STANDARD_MSTIS ∧ Forall wire_ok (mstConfiguration b).

Definition put_bpdu (b : bpdu_t) : list Z :=
  be_bytes 2 (protocolIdentifier b) ++ be_bytes 1 (protocolVersion b) ++ be_bytes 1 (bpduType b)
  ++ be_bytes 1 (flags b) ++ put (cistRootID b) ++ be_bytes 4 (cistExtRootPathCost b)
  ++ put (cistRRootID b) ++ be_bytes 2 (cistPortID b)
  ++ put_time (MessageAge b) ++ put_time (MaxAge b) ++ put_time (HelloTime b)
  ++ put_time (ForwardDelay b)
  ++ be_bytes 1 (version1_len b) ++ be_bytes 2 (version3_len b)
  ++ put (mstConfigurationIdentifier b) ++ be_bytes 4 (cistIntRootPathCost b)
  ++ put (cistBridgeID b) ++ be_bytes 1 (cistRemainingHops b)
  ++ concat (map put (mstConfiguration b)).

Definition get_bpdu : reader bpdu_t :=
  pid ← get_be 2; ver ← get_be 1; type ← get_be 1; fl ← get_be 1;
  root ← get; ext ← get_be 4; rroot ← get; port ← get_be 2;
  age ← get_time; max ← get_time; hello ← get_time; fwd ← get_time;
  v1 ← get_be 1; v3 ← get_be 2; cfg ← get; int ← get_be 4; br ← get; hops ← get_be 1;
  mstis ← get_array get (Z.to_nat MAX_STANDARD_MSTIS);
  mret (mk_bpdu pid ver type fl root ext rroot port age max hello fwd v1 v3 cfg int br hops mstis).

Lemma get_put_bpdu b rest : wf_bpdu b → get_bpdu (put_bpdu b ++ rest) = Some (b, rest).
Proof.
  destruct b. intros (?&?&?&?&?&?&?&?&?&?&?&?&?&?&?&?&?&?&?&?).
  unfold put_bpdu, get_bpdu. cbn -[be_bytes put get get_array Z.to_nat] in *.
  repeat first
    [ get_member
    | erewrite reader_bind_Some by (rewrite <- ?app_assoc; apply get_time_app; assumption) ].
  erewrite reader_bind_Some by (by apply get_array_app). done.
Qed.

#[export] Instance bpdu_wire : Wire bpdu_t := {|
  put := put_bpdu; get := get_bpdu; wire_ok := wf_bpdu; get_put := get_put_bpdu |}.

Definition sizeof_bpdu : Z :=
  MST_BPDU_SIZE_WO_MSTI_MSGS + MAX_STANDARD_MSTIS * sizeof_msti_configuration_message.

(** ** Sizes *)

Class Sized (A : Type) `{Wire A} (n : nat) := { put_length x : wire_ok x → length (put x) = n }.

#[export] Instance bridge_identifier_sized : Sized bridge_identifier_t 8.
Proof.
  split. intros [p m] [_ Hm]. cbn [put bridge_identifier_wire]. cbn -[be_bytes] in *.
  by rewrite length_app, length_be_bytes, Hm.
Qed.
#[export] Instance configuration_identifier_sized : Sized mst_configuration_identifier_t 51.
Proof.
  split. intros [s n r d] (_ & Hn & _ & Hd). cbn [put configuration_identifier_wire].
  cbn -[be_bytes] in *. by rewrite !length_app, !length_be_bytes, Hn, Hd.
Qed.
#[export] Instance msti_message_sized : Sized msti_configuration_message_t 16.
Proof.
  split. intros x (_ & Hr & _). pose proof (put_length (mstiRRootID x) Hr) as Hl.
  cbn [put msti_message_wire]. by rewrite !length_app, !length_be_bytes, Hl.
Qed.

Lemma length_concat_put {A} `{Sized A n} (l : list A) :
  Forall wire_ok l → length (concat (map put l)) = (n * length l)%nat.
Proof.
  induction 1 as [|x l Hx _ IH]; cbn; [lia|]. rewrite length_app, (put_length x Hx), IH. lia.
Qed.

#[export] Instance bpdu_sized : Sized bpdu_t (Z.to_nat sizeof_bpdu).
Proof.
  split. intros b. change (wire_ok b) with (wf_bpdu b).
  intros (?&?&?&?&?&?&?&?&?&?&?&?&?&?&?&?&?&?&Hn&?).
  change (put b) with (put_bpdu b). unfold put_bpdu, put_time.
  rewrite !length_app, !length_be_bytes, !put_length by assumption.
  rewrite (length_concat_put (n := 16)) by assumption. rewrite Hn. reflexivity.
Qed.

(** ** Every sufficiently long buffer can be read

    [takes n g P]: given at least [n] octets the reader succeeds, consumes [n] of them
    and returns a value with the property [P]. *)
Definition takes {A} (n : nat) (g : reader A) (P : A → Prop) : Prop :=
  ∀ l, (n <= length l)%nat → Forall in_u8 l →
    ∃ a l', g l = Some (a, l') ∧ length l = (n + length l')%nat ∧ Forall in_u8 l' ∧ P a.

Lemma takes_ret {A} (a : A) (P : A → Prop) : P a → takes 0 (mret a) P.
Proof. intros Ha l _ Hl. by exists a, l. Qed.

Lemma takes_bind {A B} n1 n2 (g : reader A) (f : A → reader B) P Q :
  takes n1 g P → (∀ a, P a → takes n2 (f a) Q) → takes (n1 + n2) (g ≫= f) Q.
Proof.
  intros Hg Hf l Hn Hl. destruct (Hg l) as (a & l1 & H1 & Hl1 & Hu1 & Ha); [lia|done|].
  destruct (Hf a Ha l1) as (b & l2 & H2 & Hl2 & Hu2 & Hb); [lia|done|].
  exists b, l2. rewrite (reader_bind_Some _ _ _ _ _ H1). split; [done|]. split; [lia|done].
Qed.

Lemma takes_octets n : takes n (get_octets n) (λ l, length l = n ∧ Forall in_u8 l).
Proof.
  intros l Hn Hl. unfold get_octets. destruct (Nat.leb_spec n (length l)); [|lia].
  exists (take n l), (drop n l). split; [done|]. rewrite length_take, length_drop.
  split; [lia|]. split; [by apply Forall_drop|]. split; [lia|by apply Forall_take].
Qed.

Lemma takes_be n : takes n (get_be n) (λ v, 0 <= v < 256 ^ Z.of_nat n).
Proof.
  unfold get_be. rewrite <- (Nat.add_0_r n) at 1. eapply takes_bind; [apply takes_octets|].
  intros l [<- Hl]. by apply takes_ret, be_value_bound.
Qed.

Lemma takes_more {A B} n n1 n2 (g : reader A) (f : A → reader B) P Q :
  takes n1 g P → (∀ a, P a → takes n2 (f a) Q) → n = (n1 + n2)%nat → takes n (g ≫= f) Q.
Proof. intros ? ? ->. by eapply takes_bind. Qed.

(** The structures are made of octets in the range of their types. *)
Class Readable (A : Type) `{Wire A} (n : nat) := { takes_get : takes n get wire_ok }.

Lemma takes_array {A} `{Readable A n} k :
  takes (k * n) (get_array get k) (λ l, length l = k ∧ Forall wire_ok l).
Proof.
  induction k as [|k IH]; cbn [get_array]; [by apply takes_ret|].
  eapply takes_bind; [apply takes_get|]. intros x Hx.
  eapply takes_more; [exact IH| |by rewrite Nat.add_0_r]. intros l [Hl Hf]. apply takes_ret.
  split; [cbn; lia|by constructor].
Qed.

Lemma takes_time : takes 2 get_time (λ t, in_u8 (fst t) ∧ in_u8 (snd t)).
Proof.
  eapply takes_more; [apply takes_be|intros a Ha|reflexivity].
  eapply takes_more; [apply takes_be|intros b Hb|reflexivity]. by apply takes_ret.
Qed.

(** Member after member; what remains is the range of each. *)
Ltac take_member :=
  eapply takes_more;
    [first [apply takes_be|apply takes_octets|apply takes_get|apply takes_time|apply takes_array]
    |intros ? ?|].
Ltac take_members := repeat take_member; [apply takes_ret|reflexivity..].

#[export] Instance bridge_identifier_readable : Readable bridge_identifier_t 8.
Proof. split. cbn [get bridge_identifier_wire]. take_members. cbv beta in *. destruct_and?. by repeat split. Qed.
#[export] Instance configuration_identifier_readable : Readable mst_configuration_identifier_t 51.
Proof. split. cbn [get configuration_identifier_wire]. take_members. cbv beta in *. destruct_and?. by repeat split. Qed.
#[export] Instance msti_message_readable : Readable msti_configuration_message_t 16.
Proof. split. cbn [get wire_ok msti_message_wire]. take_members. by split_and!. Qed.
#[export] Instance bpdu_readable : Readable bpdu_t (Z.to_nat sizeof_bpdu).
Proof.
  split. change (takes (Z.to_nat sizeof_bpdu) get_bpdu wf_bpdu). unfold get_bpdu.
  take_members. cbv beta in *. destruct_and?. unfold wf_bpdu. cbn -[wire_ok Z.to_nat].
  by split_and!.
Qed.

(** ** What is read is what was there *)

Lemma be_bytes_be_value l : Forall in_u8 l → be_bytes (length l) (be_value l) = l.
Proof.
  intros Hl. pose proof (be_value_bound l Hl). apply memcmp_eq; [by rewrite length_be_bytes|].
  rewrite memcmp_value; [|by rewrite length_be_bytes|apply Forall_be_bytes|done].
  rewrite be_value_be_bytes, Z.mod_small by done. by rewrite Z.sub_diag.
Qed.

(** [reads_back g e]: what [g] reads is the encoding [e] of its result. *)
Definition reads_back {A} (g : reader A) (e : A → list Z) : Prop :=
  ∀ l a l', g l = Some (a, l') → Forall in_u8 l → l = e a ++ l' ∧ Forall in_u8 l'.

Lemma reads_back_octets n : reads_back (get_octets n) id.
Proof.
  intros l a l'. unfold get_octets. destruct (n <=? length l)%nat; [|done]. intros [= <- <-] Hl.
  split; [unfold id; by rewrite take_drop|by apply Forall_drop].
Qed.

Lemma reads_back_be n : reads_back (get_be n) (be_bytes n).
Proof.
  intros l v l' H Hl. unfold get_be, mbind, reader_bind, get_octets in H.
  destruct (Nat.leb_spec n (length l)); [|done]. injection H as <- <-.
  split; [|by apply Forall_drop]. rewrite <- (take_drop n l) at 1. f_equal.
  rewrite <- (be_bytes_be_value (take n l)) at 1 by by apply Forall_take.
  by rewrite length_take_le by lia.
Qed.

Class Faithful (A : Type) `{Wire A} := { reads_back_get : reads_back get put }.

Lemma reader_bind_inv {A B} (m : reader A) (f : A → reader B) l b l' :
  (m ≫= f) l = Some (b, l') → ∃ a l1, m l = Some (a, l1) ∧ f a l1 = Some (b, l').
Proof. unfold mbind, reader_bind. destruct (m l) as [[a l1]|]; [|done]. intros H. by exists a, l1. Qed.

Lemma reads_back_array {A} `{Faithful A} n : reads_back (get_array get n) (λ l, concat (map put l)).
Proof.
  induction n as [|n IH]; cbn [get_array].
  { intros l a l' [= <- <-] Hl. by split. }
  intros l a l' (x & l1 & H1 & (xs & l2 & H2 & [= <- <-])%reader_bind_inv)%reader_bind_inv Hl.
  destruct (reads_back_get _ _ _ H1 Hl) as [-> Hl1]. destruct (IH _ _ _ H2 Hl1) as [-> Hl2].
  split; [|done]. cbn. by rewrite app_assoc.
Qed.

Lemma reads_back_time : reads_back get_time put_time.
Proof.
  intros l a l' (x & l1 & H1 & (y & l2 & H2 & [= <- <-])%reader_bind_inv)%reader_bind_inv Hl.
  destruct (reads_back_be 1 _ _ _ H1 Hl) as [-> Hl1]. destruct (reads_back_be 1 _ _ _ H2 Hl1) as [-> Hl2].
  split; [|done]. unfold put_time. by rewrite <- app_assoc.
Qed.

(** Member after member. *)
Ltac read_member H Hl :=
  let Hm := fresh "Hm" in
  apply reader_bind_inv in H as (? & ? & Hm & H);
  first [eapply (reads_back_be _ _ _ _ Hm) in Hl|eapply (reads_back_octets _ _ _ _ Hm) in Hl
        |eapply (reads_back_time _ _ _ Hm) in Hl|eapply (reads_back_array _ _ _ _ Hm) in Hl
        |eapply (reads_back_get _ _ _ Hm) in Hl];
  clear Hm; destruct Hl as [-> Hl].
Ltac reads_back_members :=
  let H := fresh "H" in let Hl := fresh "Hl" in
  intros ? ? ? H Hl; repeat read_member H Hl; injection H as <- <-; split; [|exact Hl];
  rewrite <- ?app_assoc; reflexivity.

#[export] Instance bridge_identifier_faithful : Faithful bridge_identifier_t.
Proof. split. cbn [get put bridge_identifier_wire]. reads_back_members. Qed.
#[export] Instance configuration_identifier_faithful : Faithful mst_configuration_identifier_t.
Proof. split. cbn [get put configuration_identifier_wire]. reads_back_members. Qed.
#[export] Instance msti_message_faithful : Faithful msti_configuration_message_t.
Proof. split. cbn [get put msti_message_wire]. reads_back_members. Qed.
#[export] Instance bpdu_faithful : Faithful bpdu_t.
Proof.
  split. change (reads_back get_bpdu put_bpdu). unfold get_bpdu, put_bpdu. reads_back_members.
Qed.

(** The octets of a BPDU buffer and the structure they are overlaid with determine each
    other. *)
Lemma octets_bpdu l : Forall in_u8 l → length l = Z.to_nat sizeof_bpdu →
  ∃ b, get_bpdu l = Some (b, []) ∧ wf_bpdu b ∧ put_bpdu b = l ∧
    ∀ b', wf_bpdu b' → put_bpdu b' = l → b' = b.
Proof.
  intros Hu Hl. destruct (takes_get (A := bpdu_t) l) as (b & rest & Hb & Hlen & _ & Hw); [lia|done|].
  destruct (reads_back_get (A := bpdu_t) _ _ _ Hb Hu) as [Heq _].
  destruct rest as [|x rest]; [|cbn [length] in Hlen; lia]. rewrite app_nil_r in Heq.
  exists b. split; [done|]. split; [done|]. split; [done|]. intros b' Hw' Hp.
  pose proof (get_put_bpdu b' [] Hw') as Hg. rewrite app_nil_r, Hp in Hg.
  change (get_bpdu l = Some (b, [])) in Hb. congruence.
Qed.
