(* ===== verification/Layout.v ===== *)
(** The layout of a BPDU as IEEE 802.1Q (14.6) gives it, octet by octet, and that it is the
    one of the packed structures of mstp.h. *)
From S2P Require Import Prelude Types Vectors Wire.

(** ** The standard

    The octets of a BPDU are numbered from 1. *)
Inductive content :=
| Number (v : Z)          (* the most significant octet first *)
| Octets (l : list Z).
Record field := mk_field { first_octet : nat; last_octet : nat; holds : content }.

Definition number (l : list Z) : Z := foldl (λ v x, v * 256 + x) 0 l.
Definition octets_of (first last : nat) (l : list Z) : list Z := take (last + 1 - first) (drop (first - 1) l).
Definition field_in (l : list Z) (f : field) : Prop :=
  let o := octets_of (first_octet f) (last_octet f) l in
  length o = (last_octet f + 1 - first_octet f)%nat ∧
  match holds f with Number v => number o = v | Octets x => o = x end.

(** A bridge identifier from octet [n]. *)
Definition identifier (n : nat) (id : bridge_identifier_t) : list field :=
  [mk_field n (n + 1) (Number (priority id)); mk_field (n + 2) (n + 7) (Octets (mac_address id))].

Definition bpdu_layout (b : bpdu_t) : list field :=
  [mk_field 1 2 (Number (protocolIdentifier b));
   mk_field 3 3 (Number (protocolVersion b));
   mk_field 4 4 (Number (bpduType b));
   mk_field 5 5 (Number (flags b))] ++
  identifier 6 (cistRootID b) ++
  [mk_field 14 17 (Number (cistExtRootPathCost b))] ++
  identifier 18 (cistRRootID b) ++
  [mk_field 26 27 (Number (cistPortID b));
   mk_field 28 29 (Octets [fst (MessageAge b); snd (MessageAge b)]);
   mk_field 30 31 (Octets [fst (MaxAge b); snd (MaxAge b)]);
   mk_field 32 33 (Octets [fst (HelloTime b); snd (HelloTime b)]);
   mk_field 34 35 (Octets [fst (ForwardDelay b); snd (ForwardDelay b)]);
   mk_field 36 36 (Number (version1_len b));
   mk_field 37 38 (Number (version3_len b));
   mk_field 39 39 (Number (selector (mstConfigurationIdentifier b)));
   mk_field 40 71 (Octets (configuration_name (mstConfigurationIdentifier b)));
   mk_field 72 73 (Number (revision_level (mstConfigurationIdentifier b)));
   mk_field 74 89 (Octets (configuration_digest (mstConfigurationIdentifier b)));
   mk_field 90 93 (Number (cistIntRootPathCost b))] ++
  identifier 94 (cistBridgeID b) ++
  [mk_field 102 102 (Number (cistRemainingHops b))].

(** The [i]-th MSTI message begins at octet 103 + 16 i; these are its own octets. *)
Definition msti_layout (x : msti_configuration_message_t) : list field :=
  [mk_field 1 1 (Number (msti_flags x))] ++
  identifier 2 (mstiRRootID x) ++
  [mk_field 10 13 (Number (mstiIntRootPathCost x));
   mk_field 14 14 (Number (bridgeIdentifierPriority x));
   mk_field 15 15 (Number (portIdentifierPriority x));
   mk_field 16 16 (Number (msti_remainingHops x))].

(** ** The structures have this layout *)

Lemma number_be_bytes n v : 0 <= v < 256 ^ Z.of_nat n → number (be_bytes n v) = v.
Proof. intros Hv. change (number ?l) with (be_value l). by rewrite be_value_be_bytes, Z.mod_small. Qed.

Lemma octet_be_bytes v : in_u8 v → be_bytes 1 v = [v].
Proof. intros Hv. cbn [be_bytes]. change (2 ^ (8 * Z.of_nat 0)) with 1. by rewrite Z.div_1_r, Z.mod_small. Qed.
Lemma put_time_octets t : in_u8 (fst t) ∧ in_u8 (snd t) → put_time t = [fst t; snd t].
Proof. intros [? ?]. unfold put_time. by rewrite !octet_be_bytes. Qed.

Ltac field_holds :=
  split; [reflexivity|];
  first [ reflexivity
        | apply (number_be_bytes 1); assumption | apply (number_be_bytes 2); assumption
        | apply (number_be_bytes 4); assumption ].

Lemma msti_message_layout x rest : wire_ok x → Forall (field_in (put x ++ rest)) (msti_layout x).
Proof.
  destruct x as [f [p m] c b q h]. intros (Hf & (Hp & Hm) & Hc & Hb & Hq & Hh). cbn [wire_ok msti_flags mstiRRootID
    mstiIntRootPathCost bridgeIdentifierPriority portIdentifierPriority msti_remainingHops priority mac_address] in *.
  unfold ETH_ALEN in Hm. destruct m as [|m0 [|m1 [|m2 [|m3 [|m4 [|m5 [|m6 m]]]]]]]; try discriminate Hm.
  repeat (apply Forall_cons_2; [field_holds|]). apply Forall_nil_2.
Qed.

Lemma field_in_app l rest f : field_in l f → field_in (l ++ rest) f.
Proof.
  unfold field_in, octets_of. destruct f as [first last c]. cbn [first_octet last_octet holds].
  intros [Hl Hc]. rewrite length_take, length_drop in Hl.
  destruct (decide (last + 1 - first = 0)%nat) as [E|].
  - rewrite E in *. by rewrite !take_0 in *.
  - rewrite drop_app_le, take_app_le by (rewrite ?length_drop; lia).
    split; [|done]. rewrite length_take, length_drop. lia.
Qed.

(** The members before the MSTI messages. *)
Definition put_fixed (b : bpdu_t) : list Z := put_bpdu (b <| mstConfiguration := [] |>).
Lemma put_bpdu_split b : put_bpdu b = put_fixed b ++ concat (map put (mstConfiguration b)).
Proof. unfold put_fixed, put_bpdu. cbn [map concat]. rewrite <- ?app_assoc. reflexivity. Qed.

(** A list of a known length, element by element. *)
Ltac elements l H :=
  first [ destruct l as [|? l]; [discriminate H|]; elements l H
        | destruct l as [|? l]; [clear H|discriminate H] ].

Lemma fixed_layout b : wf_bpdu b → length (put_fixed b) = 102%nat ∧ Forall (field_in (put_fixed b)) (bpdu_layout b).
Proof.
  destruct b as [pid ver type fl [rp rm] ext [rrp rrm] port age max hello fwd v1 v3 [sel nam rev dig] int [bp bm] hops ms].
  intros (?&?&?&?&(?&Hr)&?&(?&Hrr)&?&Ha&Hm&Hh&Hf&?&?&(?&Hn&?&Hd)&?&(?&Hb)&?&_&_).
  cbn [mac_address priority selector configuration_name revision_level configuration_digest protocolIdentifier
    protocolVersion bpduType flags cistRootID cistExtRootPathCost cistRRootID cistPortID MessageAge MaxAge HelloTime
    ForwardDelay version1_len version3_len mstConfigurationIdentifier cistIntRootPathCost cistBridgeID
    cistRemainingHops] in *.
  elements rm Hr. elements rrm Hrr. elements bm Hb. elements nam Hn. elements dig Hd.
  unfold put_fixed, put_bpdu.
  cbn [upd_field set_mstConfiguration protocolIdentifier protocolVersion bpduType flags cistRootID
    cistExtRootPathCost cistRRootID cistPortID MessageAge MaxAge HelloTime ForwardDelay version1_len version3_len
    mstConfigurationIdentifier cistIntRootPathCost cistBridgeID cistRemainingHops].
  rewrite !put_time_octets by assumption. split; [reflexivity|].
  repeat (apply Forall_cons_2; [field_holds|]). apply Forall_nil_2.
Qed.

(** C24: a BPDU buffer is read and written octet by octet as IEEE 802.1Q lays it out: every
    buffer of octets is the encoding of exactly one structure whose members are in the range
    of their types; each member is what the octets hold that the standard assigns to it, a
    number with its most significant octet first; and so are the members of the 64 MSTI
    messages, the [i]-th of which begins at octet 103 + 16 i. *)
Theorem bpdu_octets l : Forall in_u8 l → length l = Z.to_nat sizeof_bpdu →
  ∃ b, get_bpdu l = Some (b, []) ∧ wf_bpdu b ∧ put_bpdu b = l ∧
    (∀ b', wf_bpdu b' → put_bpdu b' = l → b' = b) ∧
    Forall (field_in l) (bpdu_layout b) ∧
    ∀ i x, mstConfiguration b !! i = Some x → Forall (field_in (drop (102 + 16 * i) l)) (msti_layout x).
Proof.
  intros Hu Hl. destruct (octets_bpdu l Hu Hl) as (b & Hg & Hw & Hp & Hb). exists b.
  do 4 (split; [done|]). destruct (fixed_layout b Hw) as [Hlen Hfix].
  rewrite put_bpdu_split in Hp. rewrite <- Hp. split.
  - eapply Forall_impl; [exact Hfix|]. intros f. apply field_in_app.
  - intros i x Hx. destruct Hw as (_&_&_&_&_&_&_&_&_&_&_&_&_&_&_&_&_&_&_&Hms).
    rewrite drop_app_ge, Hlen by lia. replace (102 + 16 * i - 102)%nat with (16 * i)%nat by lia. clear -Hx Hms.
    revert i Hx. induction Hms as [|y ms Hy _ IH]; intros i Hx; [done|].
    destruct i as [|i]; cbn [map concat].
    + injection Hx as ->. rewrite Nat.mul_0_r. by apply msti_message_layout.
    + rewrite drop_app_ge by (rewrite (put_length (n := 16) y) by done; lia).
      rewrite (put_length (n := 16) y) by done. replace (16 * S i - 16)%nat with (16 * i)%nat by lia. by apply IH.
Qed.

Lemma bpdu_octets_witness : ∃ b, get_bpdu (replicate (Z.to_nat sizeof_bpdu) 255) = Some (b, []) ∧
  wf_bpdu b ∧ cistPortID b = 65535.
Proof.
  destruct (bpdu_octets (replicate (Z.to_nat sizeof_bpdu) 255)) as (b & H1 & H2 & _ & _ & H3 & _).
  - apply Forall_replicate. unfold in_u8. lia.
  - by rewrite length_replicate.
  - exists b. split; [exact H1|]. split; [exact H2|].
    rewrite Forall_forall in H3. destruct (H3 (mk_field 26 27 (Number (cistPortID b)))) as [_ H].
    + unfold bpdu_layout, identifier. cbn [app]. do 9 right. left.
    + rewrite <- H. reflexivity.
Defined.
