(* ===== verification/Outputs.v ===== *)
(** The external actions of the protocol code: the MSTP_OUT_xxx functions of
    bridge_track.c and the driver stubs of driver_deps.c they call.  What reaches
    the kernel is recorded as an [event]. *)
From S2P Require Import Prelude Types Monad.

(** ** driver_deps.c *)

Definition driver_set_new_state (k : ptp_id) (new_state : Z) : Z := new_state.
Definition driver_set_ageing_time (p : port_id) (ageingTime : Z) : Z := ageingTime.
Definition driver_create_msti (mstid : Z) : bool := true.
Definition driver_delete_msti (mstid : Z) : bool := true.

(** ** MSTP_IN_all_fids_flushed, the completion signal of a flush

    [rerun] is the re-entry into the state machines it makes when it is not
    called from within the flush routine. *)
Definition MSTP_IN_all_fids_flushed_with (rerun : M unit) (k : ptp_id) : M unit :=
  upd_ptp k (λ x, x <| fdbFlush := false |>) ;;
  br ← get_br;
  if negb (bridgeEnabled br) then skip else
  ptp ← get_ptp k;
  if negb (calledFromFlushRoutine ptp) then rerun else skip.

Definition driver_flush_all_fids (rerun : M unit) (k : ptp_id) : M unit :=
  MSTP_IN_all_fids_flushed_with rerun k.

(** ** bridge_track.c *)

Definition MSTP_OUT_set_state (k : ptp_id) (new_state : Z) : M unit :=
  ptp ← get_ptp k;
  if ptp_state ptp =? new_state then skip else
  let st := driver_set_new_state k new_state in
  upd_ptp k (λ x, x <| ptp_state := st |>) ;;
  (if st =? BR_STATE_FORWARDING
   then upd_port (ptp_port k) (λ x, x <| num_trans_fwd ::= λ n, u32 (n + 1) |>)
   else if st =? BR_STATE_BLOCKING
   then upd_port (ptp_port k) (λ x, x <| num_trans_blk ::= λ n, u32 (n + 1) |>)
   else skip) ;;
  prt ← get_port (ptp_port k);
  if negb (up (prt_sysdeps prt)) && (st ≠? BR_STATE_DISABLED) && (st ≠? BR_STATE_BLOCKING)
  then skip (* logged: trying to set a down port *)
  else when ((ptp_MSTID k =? 0) && up (prt_sysdeps prt))
         (emit (EvSetState (if_index (prt_sysdeps prt)) st)).

Definition MSTP_OUT_flush_all_fids (rerun : M unit) (k : ptp_id) : M unit :=
  prt ← get_port (ptp_port k);
  when (ptp_MSTID k =? 0) (emit (EvFlush (name (prt_sysdeps prt)))) ;;
  driver_flush_all_fids rerun k.

Definition MSTP_OUT_set_ageing_time (p : port_id) (ageingTime : Z) : M unit :=
  get_port p ;;
  br ← get_br;
  emit (EvAgeing (br_name (br_sysdeps br)) (driver_set_ageing_time p ageingTime)).

(** LLC_PDU_LEN_U *)
Definition LLC_PDU_LEN_U : Z := 3.

Definition MSTP_OUT_tx_bpdu (p : port_id) (b : bpdu_t) (size : Z) : M unit :=
  upd_port p (λ x, x <| num_tx_bpdu ::= λ n, u32 (n + 1) |>) ;;
  when ((protocolVersion b =? protoSTP) && (bpduType b =? bpduTypeTCN)
        || flag_set (flags b) offsetTc)
    (upd_port p (λ x, x <| num_tx_tcn ::= λ n, u32 (n + 1) |>)) ;;
  prt ← get_port p;
  emit (EvSend (if_index (prt_sysdeps prt)) (macaddr (prt_sysdeps prt))
          (u16 (size + LLC_PDU_LEN_U)) b size).

Definition MSTP_OUT_shutdown_port (p : port_id) : M unit :=
  prt ← get_port p; emit (EvShutdown (name (prt_sysdeps prt))).
