(* ===== verification/Procs.v ===== *)
(** The procedures of 802.1Q 13.26 as mstp.c has them: recording received
    information, setting tree-wide flags, topology-change bookkeeping and building
    BPDUs. *)
From S2P Require Import Prelude Types Monad Vectors Outputs.

(** ** Shared conditions *)

(** 17.20.11 of 802.1D *)
Definition rstpVersion (br : bridge_t) : bool := protoRSTP <=? ForceProtocolVersion br.

Definition assurancePort (prt : port_t) : bool :=
  NetworkPort prt && operPointToPointMAC prt && sendRSTP prt.

(** newInfoXst = TRUE *)
Definition set_newInfoXst (k : ptp_id) : M unit :=
  if ptp_MSTID k =? 0
  then upd_port (ptp_port k) (λ x, x <| newInfo := true |>)
  else upd_port (ptp_port k) (λ x, x <| newInfoMsti := true |>).

(** ** Topology change bookkeeping *)

Definition set_TopologyChange (t : tree_id) (hint_SetToYes : bool) (p : port_id) : M unit :=
  tree ← get_tree t;
  let prev_tc_not_set := negb (topology_change tree) in
  if hint_SetToYes then
    prt ← get_port p;
    upd_tree t (λ x, x
      <| topology_change := true |>
      <| time_since_topology_change := 0 |>
      <| topology_change_count ::= λ n, if prev_tc_not_set then u32 (n + 1) else n |>
      <| topology_change_port := strncpy IFNAMSIZ (last_topology_change_port x) |>
      <| last_topology_change_port := strncpy IFNAMSIZ (name (prt_sysdeps prt)) |>)
  else if prev_tc_not_set then skip
  else
    upd_tree t (λ x, x <| topology_change := false |>) ;;
    l ← ptps_of_tree t;
    found ← any_of l (λ k, ptp ← get_ptp k; mret (tcWhile ptp ≠? 0));
    when found (upd_tree t (λ x, x <| topology_change := true |>
                                   <| time_since_topology_change := 0 |>)).

(** 13.26.5 *)
Definition newTcWhile (k : ptp_id) : M unit :=
  ptp ← get_ptp k;
  if tcWhile ptp ≠? 0 then skip else
  prt ← get_port (ptp_port k);
  if sendRSTP prt then
    ck ← GET_CIST_PTP_FROM_PORT (ptp_port k);
    cist ← get_ptp ck;
    upd_ptp k (λ x, x <| tcWhile := Hello_Time (portTimes cist) + 1 |>) ;;
    set_TopologyChange (ptp_tree k) true (ptp_port k) ;;
    set_newInfoXst k
  else
    tree ← get_tree (ptp_tree k);
    let times := rootTimes tree in
    upd_ptp k (λ x, x <| tcWhile := Max_Age times + Forward_Delay times |>) ;;
    set_TopologyChange (ptp_tree k) true (ptp_port k).

(** ** Flags set across a port or a tree *)

(** 13.26.1 *)
Definition betterorsameInfo (k : ptp_id) (newInfoIs : port_info_origin_t) : M bool :=
  ptp ← get_ptp k;
  if (newInfoIs ==? ioReceived) && (infoIs ptp ==? ioReceived)
  then mret (betterorsamePriority (msgPriority ptp) (portPriority ptp) 0 0 (ptp_MSTID k =? 0))
  else if (newInfoIs ==? ioMine) && (infoIs ptp ==? ioMine)
  then mret (betterorsamePriority (designatedPriority ptp) (portPriority ptp) 0 0 (ptp_MSTID k =? 0))
  else mret false.

(** 13.26.2 *)
Definition clearAllRcvdMsgs (p : port_id) (dry_run : bool) : M bool :=
  if dry_run then
    l ← ptps_of_port p; any_of l (λ k, ptp ← get_ptp k; mret (rcvdMsg ptp))
  else
    FOREACH_PTP_IN_PORT p (λ k, upd_ptp k (λ x, x <| rcvdMsg := false |>)) ;; mret false.

(** 13.26.3 *)
Definition clearReselectTree (t : tree_id) : M unit :=
  FOREACH_PTP_IN_TREE t (λ k, upd_ptp k (λ x, x <| reselect := false |>)).

(** 13.26.4 *)
Definition fromSameRegion (p : port_id) : M bool :=
  prt ← get_port p;
  if protocolVersion (rcvdBpduData prt) <? protoMSTP then mret false else
  br ← get_br;
  mret (MstConfigId br ==? mstConfigurationIdentifier (rcvdBpduData prt)).

(** 13.26.13 *)
Definition setReRootTree (t : tree_id) : M unit :=
  FOREACH_PTP_IN_TREE t (λ k, upd_ptp k (λ x, x <| reRoot := true |>)).

(** 13.26.14 *)
Definition setSelectedTree (t : tree_id) : M unit :=
  FOREACH_PTP_IN_TREE t (λ k, upd_ptp k (λ x, x <| selected := true |>)).

(** 13.26.15 *)
Definition setSyncTree (t : tree_id) : M unit :=
  FOREACH_PTP_IN_TREE t (λ k, upd_ptp k (λ x, x <| sync := true |>)).

(** 13.26.17 *)
Definition setTcPropTree (k : ptp_id) : M unit :=
  prt ← get_port (ptp_port k);
  if restrictedTcn prt then skip else
  FOREACH_PTP_IN_TREE (ptp_tree k) (λ k1,
    when (k !=? k1) (upd_ptp k1 (λ x, x <| tcProp := true |>))).

(** 13.26.18 *)
Definition syncMaster : M unit :=
  c ← GET_CIST_TREE;
  l ← trees_of_bridge;
  for_each (after c l) (λ t,
    FOREACH_PTP_IN_TREE t (λ k,
      prt ← get_port (ptp_port k);
      when (infoInternal prt)
        (upd_ptp k (λ x, x <| agree := false |> <| agreed := false |>
                           <| synced := false |> <| sync := true |>)))).

(** 13.26.24 *)
Definition updtRolesDisabledTree (t : tree_id) : M unit :=
  FOREACH_PTP_IN_TREE t (λ k, upd_ptp k (λ x, x <| selectedRole := roleDisabled |>)).

Definition reselectMSTIs (p : port_id) : M unit :=
  c ← GET_CIST_PTP_FROM_PORT p;
  l ← ptps_of_port_after c;
  for_each l (λ k, upd_ptp k (λ x, x <| reselect := true |>)).

(** ** Recording a received BPDU *)

(** The MSTI Configuration Message [ptp->rcvdMstiConfig] points to. *)
Definition get_rcvdMstiConfig (k : ptp_id) : M msti_configuration_message_t :=
  ptp ← get_ptp k;
  prt ← get_port (ptp_port k);
  i ← of_option (rcvdMstiConfig ptp);
  of_option (mstConfiguration (rcvdBpduData prt) !! (i : nat)).

(** NEAREST_WHOLE_SECOND, stored in an octet *)
Definition NEAREST_WHOLE_SECOND (msgTime : Z * Z) : Z :=
  if snd msgTime <? 128 then u8 (fst msgTime) else u8 (fst msgTime + 1).

(** 13.26.6, the role the CIST part of a BPDU conveys: [None] stands for
    [return OtherInfo]. *)
Definition rcvInfo_cist_role (b : bpdu_t) : option bool :=
  if protocolVersion b ≠? protoSTP then
    let r := BPDU_FLAGS_ROLE_GET (flags b) in
    if (r =? encodedRoleAlternateBackup) || (r =? encodedRoleRoot) then Some false
    else if r =? encodedRoleDesignated then Some true
    else if r =? encodedRoleMaster then
      if protocolVersion b =? protoRSTP then Some true else None
    else None
  else Some true.

Definition rcvInfo_msti_role (m : msti_configuration_message_t) : option bool :=
  let r := BPDU_FLAGS_ROLE_GET (msti_flags m) in
  if (r =? encodedRoleAlternateBackup) || (r =? encodedRoleRoot) then Some false
  else if r =? encodedRoleDesignated then Some true
  else None.

(** 13.26.6, the priority vector and the times of the message for the CIST. *)
Definition rcvInfo_cist_msg (br : bridge_t) (b : bpdu_t) (x : per_tree_port_t) : per_tree_port_t :=
  let stp := protocolVersion b <? protoMSTP in
  x <| msgPriority ::= λ v, v
         <| RRootID := cistRRootID b |>
         <| DesignatedPortID := cistPortID b |>
         <| RootID := cistRootID b |>
         <| ExtRootPathCost := cistExtRootPathCost b |>
         <| IntRootPathCost := if stp then 0 else cistIntRootPathCost b |>
         <| DesignatedBridgeID := if stp then cistRRootID b else cistBridgeID b |> |>
    <| msgTimes ::= λ t, t
         <| Forward_Delay := NEAREST_WHOLE_SECOND (ForwardDelay b) |>
         <| Max_Age := NEAREST_WHOLE_SECOND (MaxAge b) |>
         <| Message_Age := NEAREST_WHOLE_SECOND (MessageAge b) |>
         <| Hello_Time := NEAREST_WHOLE_SECOND (HelloTime b) |>
         <| remainingHops := if stp then MaxHops br else cistRemainingHops b |> |>.

(** ... and for an MSTI. *)
Definition rcvInfo_msti_msg (MSTID : Z) (b : bpdu_t) (m : msti_configuration_message_t)
    (x : per_tree_port_t) : per_tree_port_t :=
  let dbid := cistBridgeID b
    <| priority := SET_PRIORITY_IN_IDENTIFIER (bridgeIdentifierPriority m) MSTID |> in
  x <| msgPriority ::= λ v, v
         <| RRootID := mstiRRootID m |>
         <| IntRootPathCost := mstiIntRootPathCost m |>
         <| DesignatedBridgeID := dbid |>
         <| DesignatedPortID :=
              SET_PRIORITY_IN_IDENTIFIER (portIdentifierPriority m) (cistPortID b) |> |>
    <| msgTimes ::= λ t, t <| remainingHops := msti_remainingHops m |> |>.

(** 13.26.6, the classification against the port's own information. *)
Definition rcvInfo_classify (ptp : per_tree_port_t) (roleIsDesignated cist : bool) : port_info_t :=
  let mPri := msgPriority ptp in
  let mTimes := msgTimes ptp in
  let msg_Better_port := negb (betterorsamePriority (portPriority ptp) mPri 0 0 cist) in
  if roleIsDesignated then
    if msg_Better_port
       || ((memcmp (mac_address (DesignatedBridgeID mPri))
                   (mac_address (DesignatedBridgeID (portPriority ptp))) =? 0)
           && (Z.land (Z.lxor (DesignatedPortID mPri) (DesignatedPortID (portPriority ptp)))
                      0x0FFF =? 0))
    then SuperiorDesignatedInfo (* a).1) *)
    else
      let msg_SamePriorityAndTimers_port :=
        samePriorityAndTimers mPri (portPriority ptp) mTimes (portTimes ptp) cist in
      if negb msg_SamePriorityAndTimers_port
         && betterorsamePriority mPri (portPriority ptp) 0 0 cist
      then SuperiorDesignatedInfo (* a).2) *)
      else if msg_SamePriorityAndTimers_port && (infoIs ptp ==? ioReceived)
      then RepeatedDesignatedInfo (* b) *)
      else InferiorDesignatedInfo (* c) *)
  else if negb msg_Better_port then InferiorRootAlternateInfo (* d) *)
  else OtherInfo.

(** 13.26.6 *)
Definition rcvInfo (k : ptp_id) : M port_info_t :=
  let p := ptp_port k in
  prt ← get_port p;
  let b := rcvdBpduData prt in
  if bpduType b =? bpduTypeTCN then
    upd_port p (λ x, x <| rcvdTcn := true |>) ;;
    FOREACH_PTP_IN_PORT p (λ k1, upd_ptp k1 (λ x, x <| rcvdTc := true |>)) ;;
    mret OtherInfo
  else if ptp_MSTID k =? 0 then
    match rcvInfo_cist_role b with
    | None => mret OtherInfo
    | Some roleIsDesignated =>
        br ← get_br;
        upd_ptp k (rcvInfo_cist_msg br b) ;;
        ptp ← get_ptp k; mret (rcvInfo_classify ptp roleIsDesignated true)
    end
  else if protocolVersion b <? protoMSTP then mret OtherInfo
  else
    m ← get_rcvdMstiConfig k;
    match rcvInfo_msti_role m with
    | None => mret OtherInfo
    | Some roleIsDesignated =>
        upd_ptp k (rcvInfo_msti_msg (ptp_MSTID k) b m) ;;
        ptp ← get_ptp k; mret (rcvInfo_classify ptp roleIsDesignated false)
    end.

(** 13.26.7 *)
Definition recordAgreement (k : ptp_id) : M unit :=
  let p := ptp_port k in
  prt ← get_port p;
  let b := rcvdBpduData prt in
  if ptp_MSTID k =? 0 then
    br ← get_br;
    (if rstpVersion br && operPointToPointMAC prt && flag_set (flags b) offsetAgreement
     then upd_ptp k (λ x, x <| agreed := true |> <| proposing := false |>)
     else upd_ptp k (λ x, x <| agreed := false |>)) ;;
    ptp ← get_ptp k;
    when (negb (rcvdInternal prt))
      (l ← ptps_of_port_after k;
       for_each l (λ k1, upd_ptp k1 (λ x, x <| agreed := agreed ptp |>
                                            <| proposing := proposing ptp |>)))
  else
    ck ← GET_CIST_PTP_FROM_PORT p;
    cist ← get_ptp ck;
    if operPointToPointMAC prt
       && (ncmp_bridge_id (cistRootID b) (RootID (portPriority cist)) =? 0)
       && (ncmp32 (cistExtRootPathCost b) (ExtRootPathCost (portPriority cist)) =? 0)
       && (ncmp_bridge_id (cistRRootID b) (RRootID (portPriority cist)) =? 0)
    then
      m ← get_rcvdMstiConfig k;
      if flag_set (msti_flags m) offsetAgreement
      then upd_ptp k (λ x, x <| agreed := true |> <| proposing := false |>)
      else upd_ptp k (λ x, x <| agreed := false |>)
    else upd_ptp k (λ x, x <| agreed := false |>).

(** 13.26.8 *)
Definition recordDispute (k : ptp_id) : M unit :=
  let dispute x := x <| disputed := true |> <| agreed := false |> in
  if ptp_MSTID k =? 0 then
    prt ← get_port (ptp_port k);
    when (flag_set (flags (rcvdBpduData prt)) offsetLearnig)
      (upd_ptp k dispute ;;
       when (negb (rcvdInternal prt))
         (l ← ptps_of_port_after k; for_each l (λ k1, upd_ptp k1 dispute)))
  else
    m ← get_rcvdMstiConfig k;
    when (flag_set (msti_flags m) offsetLearnig) (upd_ptp k dispute).

(** 13.26.9 *)
Definition recordMastered (k : ptp_id) : M unit :=
  prt ← get_port (ptp_port k);
  if ptp_MSTID k =? 0 then
    when (negb (rcvdInternal prt))
      (l ← ptps_of_port_after k;
       for_each l (λ k1, upd_ptp k1 (λ x, x <| mastered := false |>)))
  else if operPointToPointMAC prt then
    m ← get_rcvdMstiConfig k;
    upd_ptp k (λ x, x <| mastered := flag_set (msti_flags m) offsetMaster |>)
  else upd_ptp k (λ x, x <| mastered := false |>).

(** 13.26.f) *)
Definition recordPriority (k : ptp_id) : M unit :=
  upd_ptp k (λ x, x <| portPriority := msgPriority x |>).

(** 13.26.10 *)
Definition recordProposal (k : ptp_id) : M unit :=
  if ptp_MSTID k =? 0 then
    prt ← get_port (ptp_port k);
    when (flag_set (flags (rcvdBpduData prt)) offsetProposal)
      (upd_ptp k (λ x, x <| proposed := true |>)) ;;
    ptp ← get_ptp k;
    when (negb (rcvdInternal prt))
      (l ← ptps_of_port_after k;
       for_each l (λ k1, upd_ptp k1 (λ x, x <| proposed := proposed ptp |>)))
  else
    m ← get_rcvdMstiConfig k;
    when (flag_set (msti_flags m) offsetProposal)
      (upd_ptp k (λ x, x <| proposed := true |>)).

(** 13.26.11: the configured Hello_Time of the port is kept *)
Definition recordTimes (k : ptp_id) : M unit :=
  upd_ptp k (λ x, x
    <| portTimes := msgTimes x <| Hello_Time := Hello_Time (portTimes x) |> |>).

(** 13.24.s) + 17.19.7 of 802.1D : fdbFlush.  [rerun] is what a completion
    signal outside of the flush routine would run; [set_fdbFlush] takes a fault for
    it, which is proved below to be unreachable. *)
Definition set_fdbFlush_with (rerun : M unit) (k : ptp_id) : M unit :=
  let p := ptp_port k in
  prt ← get_port p;
  if operEdge prt || deleted prt then upd_ptp k (λ x, x <| fdbFlush := false |>) else
  br ← get_br;
  if rstpVersion br then
    upd_ptp k (λ x, x <| fdbFlush := true |> <| calledFromFlushRoutine := true |>) ;;
    (* calledFromFlushRoutine keeps the completion signal from re-entering *)
    MSTP_OUT_flush_all_fids rerun k ;;
    upd_ptp k (λ x, x <| calledFromFlushRoutine := false |>)
  else
    ck ← GET_CIST_PTP_FROM_PORT p;
    cist ← get_ptp ck;
    let FwdDelay := Forward_Delay (designatedTimes cist) in
    MSTP_OUT_set_ageing_time p FwdDelay ;;
    upd_port p (λ x, x <| rapidAgeingWhile := FwdDelay |>) ;;
    upd_ptp k (λ x, x <| fdbFlush := false |>).

Definition set_fdbFlush : ptp_id → M unit := set_fdbFlush_with fault.

(** 13.26.12: index of the first of the [n] received messages that is for
    [MSTID].  The search reads [n] array members; one past the end is a fault. *)
Fixpoint find_msti_msg (msgs : list msti_configuration_message_t) (i n : nat) (MSTID : Z)
  : M (option nat) :=
  match n with
  | O => mret None
  | S n' =>
      m ← of_option (msgs !! i);
      if Z.land (priority (mstiRRootID m)) 0x0FFF =? MSTID
      then mret (Some i)
      else find_msti_msg msgs (S i) n' MSTID
  end.

Definition setRcvdMsgs (p : port_id) : M unit :=
  c ← GET_CIST_PTP_FROM_PORT p;
  upd_ptp c (λ x, x <| rcvdMsg := true |>) ;;
  prt ← get_port p;
  when (rcvdInternal prt)
    (l ← ptps_of_port_after c;
     for_each l (λ k,
       found ← find_msti_msg (mstConfiguration (rcvdBpduData prt)) 0
                 (Z.to_nat (rcvdBpduNumOfMstis prt)) (ptp_MSTID k);
       match found with
       | Some i => upd_ptp k (λ x, x <| rcvdMsg := true |> <| rcvdMstiConfig := Some i |>)
       | None => skip
       end)).

(** 13.26.16 *)
Definition setTcFlags (k : ptp_id) : M unit :=
  let p := ptp_port k in
  if ptp_MSTID k =? 0 then
    prt ← get_port p;
    let cistFlags := flags (rcvdBpduData prt) in
    when (flag_set cistFlags offsetTcAck) (upd_port p (λ x, x <| rcvdTcAck := true |>)) ;;
    when (flag_set cistFlags offsetTc)
      (upd_ptp k (λ x, x <| rcvdTc := true |>) ;;
       when (negb (rcvdInternal prt))
         (l ← ptps_of_port_after k;
          for_each l (λ k1, upd_ptp k1 (λ x, x <| proposed := true |>))))
  else
    m ← get_rcvdMstiConfig k;
    when (flag_set (msti_flags m) offsetTc) (upd_ptp k (λ x, x <| rcvdTc := true |>)).

(** 13.26.21 *)
Definition updtBPDUVersion (p : port_id) : M unit :=
  prt ← get_port p;
  if protoRSTP <=? protocolVersion (rcvdBpduData prt)
  then upd_port p (λ x, x <| rcvdRSTP := true |>)
  else upd_port p (λ x, x <| rcvdSTP := true |>).

(** 13.26.22 *)
Definition updtRcvdInfoWhile (k : ptp_id) : M unit :=
  let p := ptp_port k in
  prt ← get_port p;
  ck ← GET_CIST_PTP_FROM_PORT p;
  cist ← get_ptp ck;
  ptp ← get_ptp k;
  if (negb (rcvdInternal prt)
      && (Message_Age (portTimes cist) + 1 <=? Max_Age (portTimes cist)))
     || (rcvdInternal prt && (1 <? remainingHops (portTimes ptp)))
  then upd_ptp k (λ x, x <| rcvdInfoWhile := 3 * Hello_Time (portTimes cist) |>)
  else upd_ptp k (λ x, x <| rcvdInfoWhile := 0 |>).

Definition updtbrAssuRcvdInfoWhile (p : port_id) : M unit :=
  ck ← GET_CIST_PTP_FROM_PORT p;
  cist ← get_ptp ck;
  upd_port p (λ x, x <| brAssuRcvdInfoWhile := 3 * Hello_Time (portTimes cist) |>).

(** ** Building and sending BPDUs *)

Definition bit_if (c : bool) (off : Z) : Z := if c then Z.shiftl 1 off else 0.

(** [prt->deleted || (roleDisabled == cist->role) || prt->dontTxmtBpdu] *)
Definition tx_suppressed (prt : port_t) (cist : per_tree_port_t) : bool :=
  deleted prt || (role cist ==? roleDisabled) || dontTxmtBpdu prt.

(** 13.26.19; [b] is the stack variable the fields are stored into. *)
Definition txConfig_bpdu (b : bpdu_t) (prt : port_t) (cist : per_tree_port_t) : bpdu_t :=
  b <| protocolIdentifier := 0 |>
    <| protocolVersion := protoSTP |>
    <| bpduType := bpduTypeConfig |>
    <| flags := Z.lor (bit_if (tcWhile cist ≠? 0) offsetTc) (bit_if (tcAck prt) offsetTcAck) |>
    <| cistRootID := RootID (designatedPriority cist) |>
    <| cistExtRootPathCost := ExtRootPathCost (designatedPriority cist) |>
    <| cistRRootID := DesignatedBridgeID (designatedPriority cist) |>
    <| cistPortID := DesignatedPortID (designatedPriority cist) |>
    <| MessageAge := (Message_Age (designatedTimes cist), 0) |>
    <| MaxAge := (Max_Age (designatedTimes cist), 0) |>
    <| HelloTime := (Hello_Time (portTimes cist), 0) |> (* ! use portTimes ! *)
    <| ForwardDelay := (Forward_Delay (designatedTimes cist), 0) |>.

Definition txConfig (p : port_id) : M unit :=
  ck ← GET_CIST_PTP_FROM_PORT p;
  cist ← get_ptp ck;
  prt ← get_port p;
  if tx_suppressed prt cist then skip else
  MSTP_OUT_tx_bpdu p (txConfig_bpdu zero_bpdu prt cist) CONFIG_BPDU_SIZE.

Definition message_role_from_port_role (ptp : per_tree_port_t) : Z :=
  match role ptp with
  | roleRoot => encodedRoleRoot
  | roleDesignated => encodedRoleDesignated
  | roleAlternate | roleBackup => encodedRoleAlternateBackup
  | roleMaster => encodedRoleMaster
  | roleDisabled => encodedRoleAlternateBackup (* logged *)
  end.

(** The flags both message kinds share. *)
Definition tx_flags (ptp : per_tree_port_t) : Z :=
  Z.lor (Z.lor (Z.lor (Z.lor (Z.lor
    (BPDU_FLAGS_ROLE_SET (message_role_from_port_role ptp))
    (bit_if (tcWhile ptp ≠? 0) offsetTc))
    (bit_if (proposing ptp) offsetProposal))
    (bit_if (learning ptp) offsetLearnig))
    (bit_if (forwarding ptp) offsetForwarding))
    (bit_if (agree ptp) offsetAgreement).

Definition txMstp_rst_part (b : bpdu_t) (cist : per_tree_port_t) : bpdu_t :=
  b <| protocolIdentifier := 0 |>
    <| bpduType := bpduTypeRST |>
    <| flags := tx_flags cist |>
    <| cistRootID := RootID (designatedPriority cist) |>
    <| cistExtRootPathCost := ExtRootPathCost (designatedPriority cist) |>
    <| cistRRootID := RRootID (designatedPriority cist) |>
    <| cistPortID := DesignatedPortID (designatedPriority cist) |>
    <| MessageAge := (Message_Age (designatedTimes cist), 0) |>
    <| MaxAge := (Max_Age (designatedTimes cist), 0) |>
    <| HelloTime := (Hello_Time (portTimes cist), 0) |> (* ! use portTimes ! *)
    <| ForwardDelay := (Forward_Delay (designatedTimes cist), 0) |>
    <| version1_len := 0 |>.

Definition txMstp_mst_part (b : bpdu_t) (br : bridge_t) (cist : per_tree_port_t) : bpdu_t :=
  b <| protocolVersion := protoMSTP |>
    <| mstConfigurationIdentifier := MstConfigId br |>
    <| cistIntRootPathCost := IntRootPathCost (designatedPriority cist) |>
    <| cistBridgeID := DesignatedBridgeID (designatedPriority cist) |>
    <| cistRemainingHops := remainingHops (designatedTimes cist) |>.

Definition txMstp_msti_msg (ptp : per_tree_port_t) : msti_configuration_message_t :=
  mk_msti_configuration_message
    (Z.lor (tx_flags ptp) (bit_if (master ptp) offsetMaster))
    (RRootID (designatedPriority ptp))
    (IntRootPathCost (designatedPriority ptp))
    (GET_PRIORITY_FROM_IDENTIFIER (priority (DesignatedBridgeID (designatedPriority ptp))))
    (GET_PRIORITY_FROM_IDENTIFIER (DesignatedPortID (designatedPriority ptp)))
    (remainingHops (designatedTimes ptp)).

(** One MSTI Configuration Message for each tree after the CIST; [i] counts the
    messages stored.  Storing past the array is a fault. *)
Fixpoint txMstp_mstis (l : list ptp_id) (i : nat) (b : bpdu_t) : M (nat * bpdu_t) :=
  match l with
  | [] => mret (i, b)
  | k :: l' =>
      ptp ← get_ptp k;
      if (i <? length (mstConfiguration b))%nat
      then txMstp_mstis l' (S i)
             (b <| mstConfiguration ::= λ a, <[i := txMstp_msti_msg ptp]> a |>)
      else fault
  end.

(** 802.1Q-2005: 13.26.20 *)
Definition txMstp (p : port_id) : M unit :=
  br ← get_br;
  ck ← GET_CIST_PTP_FROM_PORT p;
  cist ← get_ptp ck;
  prt ← get_port p;
  if tx_suppressed prt cist then skip else
  let b := txMstp_rst_part zero_bpdu cist in
  if ForceProtocolVersion br <? protoMSTP
  then MSTP_OUT_tx_bpdu p (b <| protocolVersion := protoRSTP |>) RST_BPDU_SIZE
  else
    l ← ptps_of_port_after ck;
    '(n, b') ← txMstp_mstis l 0 (txMstp_mst_part b br cist);
    let msti_msgs_total_size := sizeof_msti_configuration_message * Z.of_nat n in
    MSTP_OUT_tx_bpdu p
      (b' <| version3_len := u16 (MST_BPDU_VER3LEN_WO_MSTI_MSGS + msti_msgs_total_size) |>)
      (MST_BPDU_SIZE_WO_MSTI_MSGS + msti_msgs_total_size).

(** 13.26.a) *)
Definition txTcn (p : port_id) : M unit :=
  ck ← GET_CIST_PTP_FROM_PORT p;
  cist ← get_ptp ck;
  prt ← get_port p;
  if tx_suppressed prt cist then skip else
  MSTP_OUT_tx_bpdu p
    (zero_bpdu <| protocolIdentifier := 0 |> <| protocolVersion := protoSTP |>
               <| bpduType := bpduTypeTCN |>)
    TCN_BPDU_SIZE.

(** ** The completion signal of a flush does not re-enter the machines *)

Lemma flush_rerun_irrelevant rerun rerun' k x w :
  w_ptps w !! k = Some x → calledFromFlushRoutine x = true →
  MSTP_OUT_flush_all_fids rerun k w = MSTP_OUT_flush_all_fids rerun' k w.
Proof.
  intros Hx Hc. unfold MSTP_OUT_flush_all_fids, driver_flush_all_fids,
    MSTP_IN_all_fids_flushed_with, mbind, M_bind, upd_ptp, get_port, get_ptp, get_br.
  destruct (w_ports w !! _) as [prt|]; [|done]. cbn.
  destruct (ptp_MSTID k =? 0); cbn; rewrite Hx; cbn; destruct (bridgeEnabled _); cbn; try done;
  rewrite lookup_insert_eq; cbn; by rewrite Hc.
Qed.

Lemma set_fdbFlush_rerun rerun rerun' k w :
  set_fdbFlush_with rerun k w = set_fdbFlush_with rerun' k w.
Proof.
  unfold set_fdbFlush_with.
  apply bind_ext; intros prt w1 _. destruct (operEdge prt || deleted prt); [done|].
  apply bind_ext; intros br w2 _. destruct (rstpVersion br); [|done].
  apply bind_ext; intros [] w3 Hw3. apply bind_congr.
  unfold upd_ptp in Hw3. destruct (w_ptps w2 !! k) as [x|]; [|done]. simplify_eq.
  eapply flush_rerun_irrelevant; [apply lookup_insert_eq|done].
Qed.

(** What a flush leaves of the port's own flag: it was cleared by the signal. *)
Lemma flush_clears k w w' :
  MSTP_OUT_flush_all_fids skip k w = Done tt w' →
  ∃ x, w_ptps w' !! k = Some x ∧ fdbFlush x = false.
Proof.
  unfold MSTP_OUT_flush_all_fids, driver_flush_all_fids, MSTP_IN_all_fids_flushed_with.
  intros (prt & w1 & _ & (? & w2 & _ & ([] & w3 & (x & _ & ->)%upd_ptp_Done & H)%bind_Done_inv)
    %bind_Done_inv)%bind_Done_inv.
  exists (x <| fdbFlush := false |>). split; [|done].
  apply bind_Done_inv in H as (br & ? & [= <- <-] & H). cbn in H.
  destruct (bridgeEnabled _); cbn in H; [|by injection H as <-; apply lookup_insert_eq].
  apply bind_Done_inv in H as (y & ? & Hy & H). unfold get_ptp in Hy. cbn in Hy.
  rewrite lookup_insert_eq in Hy. injection Hy as <- <-.
  destruct (negb _); injection H as <-; apply lookup_insert_eq.
Qed.

(** setting fdbFlush completes synchronously: the completion signal that the
    driver raises from within the flush finds calledFromFlushRoutine set, so that
    whatever it would re-run (the Topology Change machine and all the others) is not
    run and the recursion the flag guards against cannot happen; and on every path
    (edge port, flush, rapid ageing) the port's fdbFlush is clear afterwards. *)
Theorem set_fdbFlush_synchronous (rerun : M unit) (k : ptp_id) (w : world) :
  set_fdbFlush_with rerun k w = set_fdbFlush k w ∧
  ∀ w', set_fdbFlush k w = Done tt w' → ∃ x, w_ptps w' !! k = Some x ∧ fdbFlush x = false.
Proof.
  split; [apply set_fdbFlush_rerun|]. intros w'. unfold set_fdbFlush.
  rewrite (set_fdbFlush_rerun fault skip). unfold set_fdbFlush_with.
  intros (prt & w1 & _ & H)%bind_Done_inv.
  destruct (operEdge prt || deleted prt).
  { apply upd_ptp_Done in H as (x & _ & ->). eexists; split; [apply lookup_insert_eq|done]. }
  apply bind_Done_inv in H as (br & w2 & _ & H). destruct (rstpVersion br).
  - apply bind_Done_inv in H as ([] & w3 & _ & H).
    apply bind_Done_inv in H as ([] & w4 & Hf & H).
    apply flush_clears in Hf as (x & Hx & Hfl).
    apply upd_ptp_Done in H as (y & Hy & ->). simplify_eq.
    eexists; split; [apply lookup_insert_eq|done].
  - do 4 apply bind_Done_inv in H as (? & ? & _ & H).
    apply upd_ptp_Done in H as (y & Hy & ->). eexists; split; [apply lookup_insert_eq|done].
Qed.
