(* ===== verification/RoleSelect.v ===== *)
(** updtRolesTree (13.26.23) and the Port Role Selection state machine (13.33). *)
From S2P Require Import Prelude Types Monad Vectors Outputs Procs.

(** ** a), b): the root priority vector *)

(** A port offers a root path when its information was received, it may become
    Root Port, and it was not sent by this bridge. *)
Definition root_path_candidate (tree : tree_t) (prt : port_t) (ptp : per_tree_port_t) : bool :=
  (infoIs ptp ==? ioReceived) && negb (restrictedRole prt)
  && (ncmp_bridge_id (DesignatedBridgeID (portPriority ptp)) (BridgeIdentifier tree) ≠? 0).

(** [cost] plus [port_cost], saturating at UINT32_MAX. *)
Definition add_path_cost (cost port_cost : Z) : Z :=
  if u32 (UINT32_MAX - port_cost) <? cost then UINT32_MAX else u32 (cost + port_cost).

Definition root_path_priority (cist : bool) (tree : tree_t) (prt : port_t) (ptp : per_tree_port_t)
  : port_priority_vector_t :=
  let v := portPriority ptp in
  if rcvdInternal prt then
    v <| IntRootPathCost := add_path_cost (IntRootPathCost v) (InternalPortPathCost ptp) |>
  else if cist then
    v <| ExtRootPathCost := add_path_cost (ExtRootPathCost v) (ExternalPortPathCost prt) |>
      <| RRootID := BridgeIdentifier tree |>
      <| IntRootPathCost := 0 |>
  else v.

(** The selection loop; [root_ptp] is the local of that name. *)
Fixpoint select_root (t : tree_id) (l : list ptp_id) (root_ptp : option ptp_id)
  : M (option ptp_id) :=
  match l with
  | [] => mret root_ptp
  | k :: l' =>
      tree ← get_tree t;
      prt ← get_port (ptp_port k);
      ptp ← get_ptp k;
      let cist := t =? 0 in
      let v := root_path_priority cist tree prt ptp in
      if root_path_candidate tree prt ptp
         && betterorsamePriority v (rootPriority tree) (portId ptp) (rootPortId tree) cist
      then
        upd_tree t (λ x, x <| rootPriority := v |> <| rootPortId := portId ptp |>) ;;
        select_root t l' (Some k)
      else select_root t l' root_ptp
  end.

(** ** c): the root times *)
Definition set_rootTimes (t : tree_id) (root_ptp : option ptp_id) : M unit :=
  match root_ptp with
  | Some k =>
      ptp ← get_ptp k;
      prt ← get_port (ptp_port k);
      upd_tree t (λ x, x <| rootTimes :=
        if rcvdInternal prt
        then portTimes ptp <| remainingHops ::= λ h, if h ≠? 0 then h - 1 else h |>
        else portTimes ptp <| Message_Age ::= λ a, u8 (a + 1) |> |>)
  | None => upd_tree t (λ x, x <| rootTimes := BridgeTimes x |>)
  end.

(** ** d), e): the designated vector and times of a port *)
Definition designated_vector (cist : bool) (tree : tree_t) (prt : port_t) (ptp : per_tree_port_t)
  : port_priority_vector_t :=
  let v := rootPriority tree
    <| DesignatedBridgeID := BridgeIdentifier tree |>
    <| DesignatedPortID := portId ptp |> in
  if cist && negb (sendRSTP prt) then v <| RRootID := BridgeIdentifier tree |> else v.

Definition set_designated (t : tree_id) (k : ptp_id) : M unit :=
  tree ← get_tree t;
  prt ← get_port (ptp_port k);
  upd_ptp k (λ x, x
    <| designatedPriority := designated_vector (t =? 0) tree prt x |>
    <| designatedTimes := rootTimes tree <| Hello_Time := Hello_Time (portTimes x) |> |>).

(** ** f) .. m): the role of a port *)

Definition needs_update (cist : bool) (ptp : per_tree_port_t) : bool :=
  negb (samePriorityAndTimers (portPriority ptp) (designatedPriority ptp)
          (portTimes ptp) (designatedTimes ptp) cist).

Definition select_role (t : tree_id) (root_ptp : option ptp_id) (k : ptp_id) : M unit :=
  let cist := t =? 0 in
  tree ← get_tree t;
  prt ← get_port (ptp_port k);
  ck ← GET_CIST_PTP_FROM_PORT (ptp_port k);
  ptp ← get_ptp k;
  cist_tree ← get_ptp ck;
  if infoIs ptp ==? ioDisabled then (* f) *)
    upd_ptp k (λ x, x <| selectedRole := roleDisabled |>)
  else if negb cist && (infoIs cist_tree ==? ioReceived) && negb (infoInternal prt) then (* g) *)
    upd_ptp k (λ x, x
      <| selectedRole := if selectedRole cist_tree ==? roleRoot
                         then roleMaster else selectedRole cist_tree |>
      <| updtInfo := needs_update false ptp || updtInfo x |>)
  else
    match infoIs ptp with
    | ioAged => (* h) *)
        upd_ptp k (λ x, x <| selectedRole := roleDesignated |> <| updtInfo := true |>)
    | ioMine => (* i) *)
        upd_ptp k (λ x, x <| selectedRole := roleDesignated |>
                          <| updtInfo := needs_update cist ptp || updtInfo x |>)
    | ioReceived =>
        (if root_ptp ==? Some k then (* j) *)
           upd_ptp k (λ x, x <| selectedRole := roleRoot |> <| updtInfo := false |>)
         else if betterorsamePriority (portPriority ptp) (designatedPriority ptp) 0 0 cist then
           upd_ptp k (λ x, x
             <| selectedRole :=
                  if ncmp_bridge_id (DesignatedBridgeID (portPriority ptp)) (BridgeIdentifier tree) ≠? 0
                  then roleAlternate (* k) *) else roleBackup (* l) *) |>
             <| updtInfo := false |>)
         else (* m) *)
           upd_ptp k (λ x, x <| selectedRole := roleDesignated |> <| updtInfo := true |>)) ;;
        ptp' ← get_ptp k;
        when (cist && (selectedRole ptp' !=? role ptp')) (reselectMSTIs (ptp_port k))
    | ioDisabled => skip
    end.

(** ** 13.26.23 *)
Definition updtRolesTree (t : tree_id) : M unit :=
  tree0 ← get_tree t;
  let prevRRootID := RRootID (rootPriority tree0) in
  let prevExtRootPathCost := ExtRootPathCost (rootPriority tree0) in
  let cist := t =? 0 in
  upd_tree t (λ x, x <| rootPriority := BridgePriority x |> <| rootPortId := 0 |>) ;;
  l ← ptps_of_tree t;
  root_ptp ← select_root t l None;
  set_rootTimes t root_ptp ;;
  for_each l (set_designated t) ;;
  tree ← get_tree t;
  when (cist && (ncmp_bridge_id (RRootID (rootPriority tree)) prevRRootID ≠? 0)
        && ((ExtRootPathCost (rootPriority tree) ≠? 0) || (prevExtRootPathCost ≠? 0)))
    syncMaster ;;
  for_each l (select_role t root_ptp).

(** ** 13.33 Port Role Selection state machine *)

Definition PRSSM_to_INIT_TREE (t : tree_id) : M unit :=
  upd_tree t (λ x, x <| PRSSM_state := PRSSM_INIT_TREE |>) ;;
  updtRolesDisabledTree t.

Definition PRSSM_to_ROLE_SELECTION (t : tree_id) : M unit :=
  upd_tree t (λ x, x <| PRSSM_state := PRSSM_ROLE_SELECTION |>) ;;
  clearReselectTree t ;;
  updtRolesTree t ;;
  setSelectedTree t.

Definition PRSSM_run (t : tree_id) (dry_run : bool) : M bool :=
  tree ← get_tree t;
  match PRSSM_state tree with
  | PRSSM_INIT_TREE => transition dry_run (PRSSM_to_ROLE_SELECTION t)
  | PRSSM_ROLE_SELECTION =>
      l ← ptps_of_tree t;
      wanted ← any_of l (λ k, ptp ← get_ptp k; mret (reselect ptp));
      if (wanted : bool) then transition dry_run (PRSSM_to_ROLE_SELECTION t) else mret false
  end.
