(* ===== verification/PortSM.v ===== *)
(** The per-port state machines: the port timers (13.27), Port Receive (13.28),
    Port Protocol Migration (13.29), Bridge Detection (13.30) and Port Transmit
    (13.31).

    A C function XXX_to_STATE that ends by calling XXX_run again takes that call
    as its argument [run]; XXX_runf ties the knot with a bound on the depth of the
    recursion, and XXX_run fixes a bound that is proved to be enough. *)
From S2P Require Import Prelude Types Monad Vectors Outputs Procs.

(** ** 13.27 The Port Timers state machine *)

(** [if(timer) --timer] *)
Definition dec (timer : Z) : Z := if timer ≠? 0 then timer - 1 else timer.

Definition PTSM_tick (p : port_id) : M unit :=
  upd_port p (λ x, x
    <| helloWhen ::= dec |> <| mdelayWhile ::= dec |> <| edgeDelayWhile ::= dec |>
    <| txCount ::= dec |> <| brAssuRcvdInfoWhile ::= dec |>) ;;
  FOREACH_PTP_IN_PORT p (λ k,
    upd_ptp k (λ x, x <| fdWhile ::= dec |> <| rrWhile ::= dec |> <| rbWhile ::= dec |>) ;;
    ptp ← get_ptp k;
    when (tcWhile ptp ≠? 0)
      (upd_ptp k (λ x, x <| tcWhile ::= dec |>) ;;
       when (tcWhile ptp - 1 =? 0) (set_TopologyChange (ptp_tree k) false p)) ;;
    upd_ptp k (λ x, x <| rcvdInfoWhile ::= dec |>)).

(** ** 13.28 Port Receive state machine *)

Definition PRSM_to_DISCARD (p : port_id) (dry_run : bool) : M bool :=
  prt ← get_port p;
  br ← get_br;
  if dry_run then
    if (PRSM_state prt !=? PRSM_DISCARD) || rcvdBpdu prt || rcvdRSTP prt || rcvdSTP prt
       || (edgeDelayWhile prt ≠? Migrate_Time br)
    then mret true else clearAllRcvdMsgs p dry_run
  else
    upd_port p (λ x, x <| PRSM_state := PRSM_DISCARD |> <| rcvdBpdu := false |>
                       <| rcvdRSTP := false |> <| rcvdSTP := false |>) ;;
    clearAllRcvdMsgs p false ;;
    upd_port p (λ x, x <| edgeDelayWhile := Migrate_Time br |>) ;;
    mret false.

Definition PRSM_begin (p : port_id) : M unit := PRSM_to_DISCARD p false ;; skip.

Definition PRSM_to_RECEIVE (p : port_id) : M unit :=
  upd_port p (λ x, x <| PRSM_state := PRSM_RECEIVE |>) ;;
  updtBPDUVersion p ;;
  same ← fromSameRegion p;
  upd_port p (λ x, x <| rcvdInternal := same |>) ;;
  setRcvdMsgs p ;;
  br ← get_br;
  upd_port p (λ x, x <| operEdge := false |> <| rcvdBpdu := false |>
                     <| edgeDelayWhile := Migrate_Time br |>).

Definition PRSM_run (p : port_id) (dry_run : bool) : M bool :=
  prt ← get_port p;
  br ← get_br;
  if (rcvdBpdu prt || (edgeDelayWhile prt ≠? Migrate_Time br)) && negb (portEnabled prt)
  then PRSM_to_DISCARD p dry_run
  else
    match PRSM_state prt with
    | PRSM_DISCARD =>
        if rcvdBpdu prt && portEnabled prt
        then transition dry_run (PRSM_to_RECEIVE p) else mret false
    | PRSM_RECEIVE =>
        l ← ptps_of_port p;
        rcvdAnyMsg ← any_of l (λ k, ptp ← get_ptp k; mret (rcvdMsg ptp));
        if rcvdBpdu prt && portEnabled prt && negb rcvdAnyMsg
        then transition dry_run (PRSM_to_RECEIVE p) else mret false
    end.

(** ** 13.29 Port Protocol Migration state machine *)

Definition PPMSM_to_CHECKING_RSTP (p : port_id) : M unit :=
  br ← get_br;
  upd_port p (λ x, x <| PPMSM_state := PPMSM_CHECKING_RSTP |> <| mcheck := false |>
                     <| sendRSTP := rstpVersion br |> <| mdelayWhile := Migrate_Time br |>).

Definition PPMSM_begin (p : port_id) : M unit := PPMSM_to_CHECKING_RSTP p.

Definition PPMSM_to_SELECTING_STP (run : M bool) (p : port_id) : M unit :=
  br ← get_br;
  upd_port p (λ x, x <| PPMSM_state := PPMSM_SELECTING_STP |> <| sendRSTP := false |>
                     <| mdelayWhile := Migrate_Time br |>) ;;
  run ;; skip.

Definition PPMSM_to_SENSING (run : M bool) (p : port_id) : M unit :=
  upd_port p (λ x, x <| PPMSM_state := PPMSM_SENSING |> <| rcvdRSTP := false |>
                     <| rcvdSTP := false |>) ;;
  run ;; skip.

Fixpoint PPMSM_runf (fuel : nat) (p : port_id) (dry_run : bool) : M bool :=
  match fuel with
  | O => out_of_fuel
  | S fuel' =>
      let run := PPMSM_runf fuel' p false in
      prt ← get_port p;
      br ← get_br;
      match PPMSM_state prt with
      | PPMSM_CHECKING_RSTP =>
          if (mdelayWhile prt ≠? Migrate_Time br) && negb (portEnabled prt)
          then transition dry_run (PPMSM_to_CHECKING_RSTP p)
          else if mdelayWhile prt =? 0
          then transition dry_run (PPMSM_to_SENSING run p)
          else mret false
      | PPMSM_SELECTING_STP =>
          if (mdelayWhile prt =? 0) || negb (portEnabled prt) || mcheck prt
          then transition dry_run (PPMSM_to_SENSING run p)
          else mret false
      | PPMSM_SENSING =>
          if negb (portEnabled prt) || mcheck prt
             || (rstpVersion br && negb (sendRSTP prt) && rcvdRSTP prt)
          then transition dry_run (PPMSM_to_CHECKING_RSTP p)
          else if sendRSTP prt && rcvdSTP prt
          then transition dry_run (PPMSM_to_SELECTING_STP run p)
          else mret false
      end
  end.

Definition PPMSM_FUEL : nat := 4.
Definition PPMSM_run : port_id → bool → M bool := PPMSM_runf PPMSM_FUEL.

(** ** 13.30 Bridge Detection state machine *)

Definition BDSM_to_EDGE (p : port_id) : M unit :=
  upd_port p (λ x, x <| BDSM_state := BDSM_EDGE |> <| operEdge := true |>).

Definition BDSM_to_NOT_EDGE (p : port_id) : M unit :=
  upd_port p (λ x, x <| BDSM_state := BDSM_NOT_EDGE |> <| operEdge := false |>).

Definition BDSM_begin (p : port_id) : M unit :=
  prt ← get_port p;
  if AdminEdgePort prt then BDSM_to_EDGE p else BDSM_to_NOT_EDGE p.

Definition BDSM_run (p : port_id) (dry_run : bool) : M bool :=
  prt ← get_port p;
  match BDSM_state prt with
  | BDSM_EDGE =>
      if ((negb (portEnabled prt) || negb (AutoEdge prt)) && negb (AdminEdgePort prt))
         || negb (operEdge prt)
      then transition dry_run (BDSM_to_NOT_EDGE p) else mret false
  | BDSM_NOT_EDGE =>
      ck ← GET_CIST_PTP_FROM_PORT p;
      cist ← get_ptp ck;
      if (negb (portEnabled prt) && AdminEdgePort prt)
         || ((edgeDelayWhile prt =? 0) && AutoEdge prt && sendRSTP prt && proposing cist)
      then transition dry_run (BDSM_to_EDGE p) else mret false
  end.

(** ** 13.31 Port Transmit state machine *)

Definition PTSM_to_TRANSMIT_INIT (run : M bool) (p : port_id) (begin dry_run : bool) : M bool :=
  prt ← get_port p;
  if dry_run then
    mret ((PTSM_state prt !=? PTSM_TRANSMIT_INIT) || negb (newInfo prt)
          || negb (newInfoMsti prt) || (txCount prt ≠? 0))
  else
    upd_port p (λ x, x <| PTSM_state := PTSM_TRANSMIT_INIT |> <| newInfo := true |>
                       <| newInfoMsti := true |> <| txCount := 0 |>) ;;
    (if negb begin && portEnabled prt then run ;; skip else skip) ;;
    mret false.

Definition PTSM_begin (p : port_id) : M unit :=
  PTSM_to_TRANSMIT_INIT out_of_fuel p true false ;; skip.

Definition incr_txCount (p : port_id) : M unit :=
  upd_port p (λ x, x <| txCount ::= λ n, u32 (n + 1) |>).

Definition PTSM_to_TRANSMIT_CONFIG (run : M bool) (p : port_id) : M unit :=
  upd_port p (λ x, x <| PTSM_state := PTSM_TRANSMIT_CONFIG |> <| newInfo := false |>) ;;
  txConfig p ;;
  incr_txCount p ;;
  upd_port p (λ x, x <| tcAck := false |>) ;;
  run ;; skip.

Definition PTSM_to_TRANSMIT_TCN (run : M bool) (p : port_id) : M unit :=
  upd_port p (λ x, x <| PTSM_state := PTSM_TRANSMIT_TCN |> <| newInfo := false |>) ;;
  txTcn p ;;
  incr_txCount p ;;
  run ;; skip.

Definition PTSM_to_TRANSMIT_RSTP (run : M bool) (p : port_id) : M unit :=
  upd_port p (λ x, x <| PTSM_state := PTSM_TRANSMIT_RSTP |> <| newInfo := false |>
                     <| newInfoMsti := false |>) ;;
  txMstp p ;;
  incr_txCount p ;;
  upd_port p (λ x, x <| tcAck := false |>) ;;
  run ;; skip.

(** A Designated Port, or a Root Port propagating a topology change. *)
Definition DesignatedOrTCpropagatingRootPort (ptp : per_tree_port_t) : bool :=
  (role ptp ==? roleDesignated) || ((role ptp ==? roleRoot) && (tcWhile ptp ≠? 0)).

Definition PTSM_to_TRANSMIT_PERIODIC (run : M bool) (p : port_id) : M unit :=
  upd_port p (λ x, x <| PTSM_state := PTSM_TRANSMIT_PERIODIC |>) ;;
  ck ← GET_CIST_PTP_FROM_PORT p;
  cist ← get_ptp ck;
  l ← ptps_of_port_after ck;
  msti ← any_of l (λ k, ptp ← get_ptp k; mret (DesignatedOrTCpropagatingRootPort ptp));
  upd_port p (λ x, x <| newInfo ::= λ b, b || DesignatedOrTCpropagatingRootPort cist |>
                     <| newInfoMsti ::= λ b, b || msti |>) ;;
  run ;; skip.

Definition PTSM_to_IDLE (run : M bool) (p : port_id) : M unit :=
  upd_port p (λ x, x <| PTSM_state := PTSM_IDLE |>) ;;
  ck ← GET_CIST_PTP_FROM_PORT p;
  cist ← get_ptp ck;
  upd_port p (λ x, x <| helloWhen := Hello_Time (portTimes cist) |>) ;;
  run ;; skip.

(** The scan of PTSM_IDLE: [None] when some tree is not ready to transmit, else
    whether one of the MSTIs makes this port a Master Port. *)
Fixpoint allTransmitReady (l : list ptp_id) (mstiMasterPort : bool) : M (option bool) :=
  match l with
  | [] => mret (Some mstiMasterPort)
  | k :: l' =>
      ptp ← get_ptp k;
      if negb (selected ptp) || updtInfo ptp then mret None
      else allTransmitReady l' (mstiMasterPort || (role ptp ==? roleMaster))
  end.

Fixpoint PTSM_runf (fuel : nat) (p : port_id) (dry_run : bool) : M bool :=
  match fuel with
  | O => out_of_fuel
  | S fuel' =>
      let run := PTSM_runf fuel' p false in
      prt ← get_port p;
      if negb (portEnabled prt) then PTSM_to_TRANSMIT_INIT run p false dry_run else
      match PTSM_state prt with
      | PTSM_TRANSMIT_INIT | PTSM_TRANSMIT_CONFIG | PTSM_TRANSMIT_TCN
      | PTSM_TRANSMIT_RSTP | PTSM_TRANSMIT_PERIODIC =>
          transition dry_run (PTSM_to_IDLE run p) (* UnConditional Transition *)
      | PTSM_IDLE =>
          ck ← GET_CIST_PTP_FROM_PORT p;
          cist ← get_ptp ck;
          if negb (selected cist) || updtInfo cist then mret false else
          let cistRole := role cist in
          l ← ptps_of_port_after ck;
          ready ← allTransmitReady l false;
          match (ready : option bool) with
          | None => mret false
          | Some mstiMasterPort =>
              if helloWhen prt =? 0 then transition dry_run (PTSM_to_TRANSMIT_PERIODIC run p) else
              br ← get_br;
              if negb (txCount prt <? Transmit_Hold_Count br) then mret false else
              if bpduFilterPort prt then mret false else
              if sendRSTP prt then
                if newInfo prt || (newInfoMsti prt && negb mstiMasterPort) || assurancePort prt
                then transition dry_run (PTSM_to_TRANSMIT_RSTP run p) else mret false
              else if newInfo prt && (cistRole ==? roleDesignated)
              then transition dry_run (PTSM_to_TRANSMIT_CONFIG run p)
              else if newInfo prt && (cistRole ==? roleRoot)
              then transition dry_run (PTSM_to_TRANSMIT_TCN run p)
              else mret false
          end
      end
  end.

(** Enough for the ten transmissions the largest Transmit Hold Count allows. *)
Definition PTSM_FUEL : nat := 32.
Definition PTSM_run : port_id → bool → M bool := PTSM_runf PTSM_FUEL.
