(* ===== verification/TreeSM.v ===== *)
(** The per-tree, per-port state machines: Port Information (13.32), Port State
    Transition (13.35) and Topology Change (13.36).  Recursion is bounded as in
    PortSM. *)
From S2P Require Import Prelude Types Monad Vectors Outputs Procs.

(** ** 13.32 Port Information state machine *)

Definition set_PISM (s : PISM_states_t) (k : ptp_id) : M unit :=
  upd_ptp k (λ x, x <| PISM_state := s |>).

Definition PISM_to_DISABLED (run : M bool) (k : ptp_id) (begin : bool) : M unit :=
  upd_ptp k (λ x, x <| PISM_state := PISM_DISABLED |>
    <| rcvdMsg := false |> <| proposing := false |> <| proposed := false |>
    <| agree := false |> <| agreed := false |> <| rcvdInfoWhile := 0 |>
    <| infoIs := ioDisabled |> <| reselect := true |> <| selected := false |>) ;;
  when (negb begin) (run ;; skip).

Definition PISM_begin (k : ptp_id) : M unit := PISM_to_DISABLED out_of_fuel k true.

Definition PISM_to_AGED (run : M bool) (k : ptp_id) : M unit :=
  upd_ptp k (λ x, x <| PISM_state := PISM_AGED |>
    <| infoIs := ioAged |> <| reselect := true |> <| selected := false |>) ;;
  run ;; skip.

Definition PISM_to_UPDATE (run : M bool) (k : ptp_id) : M unit :=
  upd_ptp k (λ x, x <| PISM_state := PISM_UPDATE |>
    <| proposing := false |> <| proposed := false |>) ;;
  ptp ← get_ptp k;
  b ← (if agreed ptp then betterorsameInfo k ioMine else mret false);
  upd_ptp k (λ x, x <| agreed := b |>) ;;
  upd_ptp k (λ x, x
    <| synced ::= λ s, s && agreed x |>
    <| portPriority := designatedPriority x |>
    <| portTimes := designatedTimes x |>
    <| updtInfo := false |> <| infoIs := ioMine |>) ;;
  set_newInfoXst k ;;
  run ;; skip.

Definition PISM_to_SUPERIOR_DESIGNATED (run : M bool) (k : ptp_id) : M unit :=
  set_PISM PISM_SUPERIOR_DESIGNATED k ;;
  upd_port (ptp_port k) (λ x, x <| infoInternal := rcvdInternal x |>) ;;
  upd_ptp k (λ x, x <| agreed := false |> <| proposing := false |>) ;;
  recordProposal k ;;
  setTcFlags k ;;
  ptp ← get_ptp k;
  b ← (if agree ptp then betterorsameInfo k ioReceived else mret false);
  upd_ptp k (λ x, x <| agree := b |>) ;;
  recordAgreement k ;;
  upd_ptp k (λ x, x <| synced ::= λ s, s && agreed x |>) ;;
  recordPriority k ;;
  recordTimes k ;;
  updtRcvdInfoWhile k ;;
  upd_ptp k (λ x, x <| infoIs := ioReceived |> <| reselect := true |>
                    <| selected := false |> <| rcvdMsg := false |>) ;;
  run ;; skip.

Definition PISM_to_REPEATED_DESIGNATED (run : M bool) (k : ptp_id) : M unit :=
  set_PISM PISM_REPEATED_DESIGNATED k ;;
  upd_port (ptp_port k) (λ x, x <| infoInternal := rcvdInternal x |>) ;;
  recordProposal k ;;
  setTcFlags k ;;
  recordAgreement k ;;
  updtRcvdInfoWhile k ;;
  upd_ptp k (λ x, x <| rcvdMsg := false |>) ;;
  run ;; skip.

Definition PISM_to_INFERIOR_DESIGNATED (run : M bool) (k : ptp_id) : M unit :=
  set_PISM PISM_INFERIOR_DESIGNATED k ;;
  recordDispute k ;;
  upd_ptp k (λ x, x <| rcvdMsg := false |>) ;;
  run ;; skip.

Definition PISM_to_NOT_DESIGNATED (run : M bool) (k : ptp_id) : M unit :=
  set_PISM PISM_NOT_DESIGNATED k ;;
  recordAgreement k ;;
  setTcFlags k ;;
  upd_ptp k (λ x, x <| rcvdMsg := false |>) ;;
  run ;; skip.

Definition PISM_to_OTHER (run : M bool) (k : ptp_id) : M unit :=
  set_PISM PISM_OTHER k ;;
  upd_ptp k (λ x, x <| rcvdMsg := false |>) ;;
  run ;; skip.

Definition PISM_to_CURRENT (run : M bool) (k : ptp_id) : M unit :=
  set_PISM PISM_CURRENT k ;;
  run ;; skip.

Definition PISM_to_RECEIVE (run : M bool) (k : ptp_id) : M unit :=
  set_PISM PISM_RECEIVE k ;;
  info ← rcvInfo k;
  upd_ptp k (λ x, x <| rcvdInfo := info |>) ;;
  recordMastered k ;;
  run ;; skip.

(** rcvdXstMsg and updtXstInfo, 13.25.12 .. 13.25.17 *)
Definition PISM_xst (k : ptp_id) (ptp : per_tree_port_t) : M (bool * bool) :=
  if ptp_MSTID k =? 0 then mret (rcvdMsg ptp, updtInfo ptp)
  else
    ck ← GET_CIST_PTP_FROM_PORT (ptp_port k);
    cist ← get_ptp ck;
    mret (negb (rcvdMsg cist) && rcvdMsg ptp, updtInfo ptp || updtInfo cist).

Fixpoint PISM_runf (fuel : nat) (k : ptp_id) (dry_run : bool) : M bool :=
  match fuel with
  | O => out_of_fuel
  | S fuel' =>
      let run := PISM_runf fuel' k false in
      prt ← get_port (ptp_port k);
      ptp ← get_ptp k;
      if negb (portEnabled prt) && (infoIs ptp !=? ioDisabled)
      then transition dry_run (PISM_to_DISABLED run k false)
      else
      match PISM_state ptp with
      | PISM_DISABLED =>
          if portEnabled prt then transition dry_run (PISM_to_AGED run k)
          else if rcvdMsg ptp then transition dry_run (PISM_to_DISABLED run k false)
          else mret false
      | PISM_AGED =>
          if selected ptp && updtInfo ptp
          then transition dry_run (PISM_to_UPDATE run k) else mret false
      | PISM_UPDATE | PISM_SUPERIOR_DESIGNATED | PISM_REPEATED_DESIGNATED
      | PISM_INFERIOR_DESIGNATED | PISM_NOT_DESIGNATED | PISM_OTHER =>
          transition dry_run (PISM_to_CURRENT run k)
      | PISM_CURRENT =>
          '(rcvdXstMsg, updtXstInfo) ← PISM_xst k ptp;
          if rcvdXstMsg && negb updtXstInfo then transition dry_run (PISM_to_RECEIVE run k)
          else if (infoIs ptp ==? ioReceived) && (rcvdInfoWhile ptp =? 0)
                  && negb (updtInfo ptp) && negb rcvdXstMsg
          then transition dry_run (PISM_to_AGED run k)
          else if selected ptp && updtInfo ptp
          then transition dry_run (PISM_to_UPDATE run k)
          else mret false
      | PISM_RECEIVE =>
          match rcvdInfo ptp with
          | SuperiorDesignatedInfo => transition dry_run (PISM_to_SUPERIOR_DESIGNATED run k)
          | RepeatedDesignatedInfo => transition dry_run (PISM_to_REPEATED_DESIGNATED run k)
          | InferiorDesignatedInfo => transition dry_run (PISM_to_INFERIOR_DESIGNATED run k)
          | InferiorRootAlternateInfo => transition dry_run (PISM_to_NOT_DESIGNATED run k)
          | OtherInfo => transition dry_run (PISM_to_OTHER run k)
          end
      end
  end.

Definition PISM_FUEL : nat := 16.
Definition PISM_run : ptp_id → bool → M bool := PISM_runf PISM_FUEL.

(** ** 13.35 Port State Transition state machine *)

(** [if(state != ptp->state) { if(!deleted) MSTP_OUT_set_state(...) }] *)
Definition PSTSM_set_state (k : ptp_id) (new_state : Z) : M unit :=
  ptp ← get_ptp k;
  when (new_state ≠? ptp_state ptp)
    (prt ← get_port (ptp_port k);
     when (negb (deleted prt)) (MSTP_OUT_set_state k new_state)).

Definition PSTSM_to_DISCARDING (run : M bool) (k : ptp_id) (begin : bool) : M unit :=
  upd_ptp k (λ x, x <| PSTSM_state := PSTSM_DISCARDING |>) ;;
  PSTSM_set_state k BR_STATE_BLOCKING ;;
  upd_ptp k (λ x, x <| learning := false |> <| forwarding := false |>) ;;
  when (negb begin) (run ;; skip).

Definition PSTSM_begin (k : ptp_id) : M unit := PSTSM_to_DISCARDING out_of_fuel k true.

Definition PSTSM_to_LEARNING (run : M bool) (k : ptp_id) : M unit :=
  upd_ptp k (λ x, x <| PSTSM_state := PSTSM_LEARNING |>) ;;
  PSTSM_set_state k BR_STATE_LEARNING ;;
  upd_ptp k (λ x, x <| learning := true |>) ;;
  run ;; skip.

Definition PSTSM_to_FORWARDING (k : ptp_id) : M unit :=
  upd_ptp k (λ x, x <| PSTSM_state := PSTSM_FORWARDING |>) ;;
  PSTSM_set_state k BR_STATE_FORWARDING ;;
  upd_ptp k (λ x, x <| forwarding := true |>).

Fixpoint PSTSM_runf (fuel : nat) (k : ptp_id) (dry_run : bool) : M bool :=
  match fuel with
  | O => out_of_fuel
  | S fuel' =>
      let run := PSTSM_runf fuel' k false in
      ptp ← get_ptp k;
      match PSTSM_state ptp with
      | PSTSM_DISCARDING =>
          if learn ptp then transition dry_run (PSTSM_to_LEARNING run k) else mret false
      | PSTSM_LEARNING =>
          if negb (learn ptp) then transition dry_run (PSTSM_to_DISCARDING run k false)
          else if forward ptp then transition dry_run (PSTSM_to_FORWARDING k)
          else mret false
      | PSTSM_FORWARDING =>
          if negb (forward ptp) then transition dry_run (PSTSM_to_DISCARDING run k false)
          else mret false
      end
  end.

Definition PSTSM_FUEL : nat := 4.
Definition PSTSM_run : ptp_id → bool → M bool := PSTSM_runf PSTSM_FUEL.

(** ** 13.36 Topology Change state machine *)

Definition set_TCSM (s : TCSM_states_t) (k : ptp_id) : M unit :=
  upd_ptp k (λ x, x <| TCSM_state := s |>).

Definition TCSM_to_INACTIVE (run : M bool) (k : ptp_id) (begin : bool) : M unit :=
  set_TCSM TCSM_INACTIVE k ;;
  set_fdbFlush k ;;
  upd_ptp k (λ x, x <| tcWhile := 0 |>) ;;
  set_TopologyChange (ptp_tree k) false (ptp_port k) ;;
  when (ptp_MSTID k =? 0) (upd_port (ptp_port k) (λ x, x <| tcAck := false |>)) ;;
  when (negb begin) (run ;; skip).

Definition TCSM_begin (k : ptp_id) : M unit := TCSM_to_INACTIVE out_of_fuel k true.

Definition TCSM_to_LEARNING (run : M bool) (k : ptp_id) (dry_run : bool) : M bool :=
  if dry_run then
    ptp ← get_ptp k;
    if (TCSM_state ptp !=? TCSM_LEARNING) || rcvdTc ptp || tcProp ptp then mret true
    else if ptp_MSTID k =? 0 then
      prt ← get_port (ptp_port k); mret (rcvdTcn prt || rcvdTcAck prt)
    else mret false
  else
    set_TCSM TCSM_LEARNING k ;;
    when (ptp_MSTID k =? 0)
      (upd_port (ptp_port k) (λ x, x <| rcvdTcn := false |> <| rcvdTcAck := false |>)) ;;
    upd_ptp k (λ x, x <| rcvdTc := false |> <| tcProp := false |>) ;;
    run ;; mret false.

Definition TCSM_to_DETECTED (run : M bool) (k : ptp_id) : M unit :=
  set_TCSM TCSM_DETECTED k ;;
  newTcWhile k ;;
  setTcPropTree k ;;
  set_newInfoXst k ;;
  run ;; skip.

Definition TCSM_to_NOTIFIED_TCN (run : M bool) (k : ptp_id) : M unit :=
  set_TCSM TCSM_NOTIFIED_TCN k ;;
  newTcWhile k ;;
  run ;; skip.

Definition TCSM_to_NOTIFIED_TC (run : M bool) (k : ptp_id) : M unit :=
  set_TCSM TCSM_NOTIFIED_TC k ;;
  upd_ptp k (λ x, x <| rcvdTc := false |>) ;;
  ptp ← get_ptp k;
  when (ptp_MSTID k =? 0)
    (upd_port (ptp_port k) (λ x, x <| rcvdTcn := false |>
       <| tcAck ::= λ b, if role ptp ==? roleDesignated then true else b |>)) ;;
  setTcPropTree k ;;
  run ;; skip.

Definition TCSM_to_PROPAGATING (run : M bool) (k : ptp_id) : M unit :=
  set_TCSM TCSM_PROPAGATING k ;;
  newTcWhile k ;;
  set_fdbFlush k ;;
  upd_ptp k (λ x, x <| tcProp := false |>) ;;
  run ;; skip.

Definition TCSM_to_ACKNOWLEDGED (run : M bool) (k : ptp_id) : M unit :=
  set_TCSM TCSM_ACKNOWLEDGED k ;;
  upd_ptp k (λ x, x <| tcWhile := 0 |>) ;;
  set_TopologyChange (ptp_tree k) false (ptp_port k) ;;
  upd_port (ptp_port k) (λ x, x <| rcvdTcAck := false |>) ;;
  run ;; skip.

Definition TCSM_to_ACTIVE (run : M bool) (k : ptp_id) : M unit :=
  set_TCSM TCSM_ACTIVE k ;;
  run ;; skip.

Definition TCSM_active_port (ptp : per_tree_port_t) : bool :=
  (role ptp ==? roleRoot) || (role ptp ==? roleDesignated) || (role ptp ==? roleMaster).

Fixpoint TCSM_runf (fuel : nat) (k : ptp_id) (dry_run : bool) : M bool :=
  match fuel with
  | O => out_of_fuel
  | S fuel' =>
      let run := TCSM_runf fuel' k false in
      prt ← get_port (ptp_port k);
      ptp ← get_ptp k;
      let cist := ptp_MSTID k =? 0 in
      let active_port := TCSM_active_port ptp in
      match TCSM_state ptp with
      | TCSM_INACTIVE =>
          if learn ptp && negb (fdbFlush ptp)
          then transition dry_run (TCSM_to_LEARNING run k false ;; skip) else mret false
      | TCSM_LEARNING =>
          if active_port && forward ptp && negb (operEdge prt)
          then transition dry_run (TCSM_to_DETECTED run k)
          else if rcvdTc ptp || tcProp ptp || (cist && (rcvdTcn prt || rcvdTcAck prt))
          then TCSM_to_LEARNING run k dry_run
          else if negb active_port && negb (learn ptp || learning ptp)
          then transition dry_run (TCSM_to_INACTIVE run k false)
          else mret false
      | TCSM_NOTIFIED_TCN => transition dry_run (TCSM_to_NOTIFIED_TC run k)
      | TCSM_DETECTED | TCSM_NOTIFIED_TC | TCSM_PROPAGATING | TCSM_ACKNOWLEDGED =>
          transition dry_run (TCSM_to_ACTIVE run k)
      | TCSM_ACTIVE =>
          if negb active_port || operEdge prt
          then transition dry_run (TCSM_to_LEARNING run k false ;; skip)
          else if cist && rcvdTcn prt then transition dry_run (TCSM_to_NOTIFIED_TCN run k)
          else if rcvdTc ptp then transition dry_run (TCSM_to_NOTIFIED_TC run k)
          else if tcProp ptp then transition dry_run (TCSM_to_PROPAGATING run k)
          else if cist && rcvdTcAck prt then transition dry_run (TCSM_to_ACKNOWLEDGED run k)
          else mret false
      end
  end.

Definition TCSM_FUEL : nat := 24.
Definition TCSM_run : ptp_id → bool → M bool := TCSM_runf TCSM_FUEL.
