(* ===== verification/Prtsm.v ===== *)
(** The Port Role Transitions state machine (13.34).

    PRTSM_runr keeps in C statics the values it computes on the outermost call
    only; they are the record [prtsm_vars] that the recursive calls pass on.
    [prt] and [tree] are the components of the port's address. *)
From S2P Require Import Prelude Types Monad Vectors Outputs Procs.

(** ** The statics of PRTSM_runr *)

Record prtsm_vars := mk_prtsm_vars {
  v_MaxAge : Z;
  v_FwdDelay : Z;
  v_forwardDelay : Z;
  v_HelloTime : Z
}.

Definition PRTSM_vars (k : ptp_id) : M prtsm_vars :=
  prt ← get_port (ptp_port k);
  get_tree (ptp_tree k) ;;
  ck ← GET_CIST_PTP_FROM_PORT (ptp_port k);
  cist ← get_ptp ck;
  let FwdDelay := Forward_Delay (designatedTimes cist) in
  let HelloTime := Hello_Time (portTimes cist) in
  mret (mk_prtsm_vars (Max_Age (designatedTimes cist)) FwdDelay
          (if sendRSTP prt then HelloTime else FwdDelay) HelloTime).

(** 13.25.1 allSynced.  [role ptp] is read by every iteration, so a port of
    the list that is the port itself is compared with its own entry. *)
Definition allSynced_a (ptp_1 : per_tree_port_t) : bool :=
  negb (selected ptp_1) || (role ptp_1 !=? selectedRole ptp_1) || updtInfo ptp_1.

Definition allSynced_b (k k1 : ptp_id) (r : port_role_t) (ptp_1 : per_tree_port_t) : bool :=
  match r with
  | roleRoot | roleAlternate => negb ((role ptp_1 !=? roleRoot) && negb (synced ptp_1))
  | roleDesignated | roleMaster => negb ((k !=? k1) && negb (synced ptp_1))
  | _ => false
  end.

Definition PRTSM_allSynced (k : ptp_id) : M bool :=
  l ← ptps_of_tree (ptp_tree k);
  all_of l (λ k1,
    ptp_1 ← get_ptp k1;
    ptp ← get_ptp k;
    mret (negb (allSynced_a ptp_1) && allSynced_b k k1 (role ptp) ptp_1)).

(** 17.20.10 of 802.1D : reRooted *)
Definition PRTSM_reRooted (k : ptp_id) : M bool :=
  l ← ptps_of_tree (ptp_tree k);
  all_of l (λ k1, ptp_1 ← get_ptp k1; mret (negb ((k !=? k1) && (rrWhile ptp_1 ≠? 0)))).

(** ** The states *)

Section states.
Variables (run : M bool) (v : prtsm_vars) (k : ptp_id).

(** Enter state [s] with the assignments [f] and run the machine again. *)
Definition PRTSM_enter (s : PRTSM_states_t) (f : per_tree_port_t → per_tree_port_t)
    (extra : M unit) : M unit :=
  upd_ptp k (λ x, x <| PRTSM_state := s |>) ;;
  extra ;;
  upd_ptp k f ;;
  run ;; skip.

(** Disabled Port role transitions *)
Definition PRTSM_to_DISABLE_PORT : M unit :=
  PRTSM_enter PRTSM_DISABLE_PORT (λ x, x
    <| role := roleDisabled |> (* not selectedRole, see the source *)
    <| learn := false |> <| forward := false |>) skip.

Definition PRTSM_to_DISABLED_PORT : M unit :=
  PRTSM_enter PRTSM_DISABLED_PORT (λ x, x
    <| fdWhile := v_MaxAge v |> <| synced := true |> <| rrWhile := 0 |>
    <| sync := false |> <| reRoot := false |>) skip.

(** MasterPort role transitions *)
Definition PRTSM_to_MASTER_PROPOSED : M unit :=
  PRTSM_enter PRTSM_MASTER_PROPOSED (λ x, x <| proposed := false |>)
    (setSyncTree (ptp_tree k)).

Definition PRTSM_to_MASTER_AGREED : M unit :=
  PRTSM_enter PRTSM_MASTER_AGREED (λ x, x
    <| proposed := false |> <| sync := false |> <| agree := true |>) skip.

Definition PRTSM_to_MASTER_SYNCED : M unit :=
  PRTSM_enter PRTSM_MASTER_SYNCED (λ x, x
    <| rrWhile := 0 |> <| synced := true |> <| sync := false |>) skip.

Definition PRTSM_to_MASTER_RETIRED : M unit :=
  PRTSM_enter PRTSM_MASTER_RETIRED (λ x, x <| reRoot := false |>) skip.

Definition PRTSM_to_MASTER_FORWARD : M unit :=
  upd_ptp k (λ x, x <| PRTSM_state := PRTSM_MASTER_FORWARD |>
                    <| forward := true |> <| fdWhile := 0 |>) ;;
  prt ← get_port (ptp_port k);
  upd_ptp k (λ x, x <| agreed := sendRSTP prt |>) ;;
  run ;; skip.

Definition PRTSM_to_MASTER_LEARN : M unit :=
  PRTSM_enter PRTSM_MASTER_LEARN (λ x, x
    <| learn := true |> <| fdWhile := v_forwardDelay v |>) skip.

Definition PRTSM_to_MASTER_DISCARD : M unit :=
  PRTSM_enter PRTSM_MASTER_DISCARD (λ x, x
    <| learn := false |> <| forward := false |> <| disputed := false |>
    <| fdWhile := v_forwardDelay v |>) skip.

Definition PRTSM_to_MASTER_PORT : M unit :=
  PRTSM_enter PRTSM_MASTER_PORT (λ x, x <| role := roleMaster |>) skip.

(** RootPort role transitions *)
Definition PRTSM_to_ROOT_PROPOSED : M unit :=
  PRTSM_enter PRTSM_ROOT_PROPOSED (λ x, x <| proposed := false |>)
    (setSyncTree (ptp_tree k)).

Definition PRTSM_to_ROOT_AGREED : M unit :=
  upd_ptp k (λ x, x <| PRTSM_state := PRTSM_ROOT_AGREED |>
    <| proposed := false |> <| sync := false |> <| agree := true |>) ;;
  set_newInfoXst k ;;
  run ;; skip.

Definition PRTSM_to_ROOT_SYNCED : M unit :=
  PRTSM_enter PRTSM_ROOT_SYNCED (λ x, x <| synced := true |> <| sync := false |>) skip.

Definition PRTSM_to_REROOT : M unit :=
  upd_ptp k (λ x, x <| PRTSM_state := PRTSM_REROOT |>) ;;
  setReRootTree (ptp_tree k) ;;
  run ;; skip.

Definition PRTSM_to_ROOT_FORWARD : M unit :=
  PRTSM_enter PRTSM_ROOT_FORWARD (λ x, x <| fdWhile := 0 |> <| forward := true |>) skip.

Definition PRTSM_to_ROOT_LEARN : M unit :=
  PRTSM_enter PRTSM_ROOT_LEARN (λ x, x
    <| fdWhile := v_forwardDelay v |> <| learn := true |>) skip.

Definition PRTSM_to_REROOTED : M unit :=
  PRTSM_enter PRTSM_REROOTED (λ x, x <| reRoot := false |>) skip.

Definition PRTSM_to_ROOT_PORT : M unit :=
  PRTSM_enter PRTSM_ROOT_PORT (λ x, x
    <| role := roleRoot |> <| rrWhile := v_FwdDelay v |>) skip.

(** DesignatedPort role transitions *)
Definition PRTSM_to_DESIGNATED_PROPOSE : M unit :=
  upd_ptp k (λ x, x <| PRTSM_state := PRTSM_DESIGNATED_PROPOSE |>
                    <| proposing := true |>) ;;
  (if ptp_MSTID k =? 0 then
     ptp ← get_ptp k;
     br ← get_br;
     let MaxAge := Max_Age (designatedTimes ptp) in
     upd_port (ptp_port k) (λ x, x
       <| edgeDelayWhile := if operPointToPointMAC x then Migrate_Time br else MaxAge |>
       <| newInfo := true |>)
   else upd_port (ptp_port k) (λ x, x <| newInfoMsti := true |>)) ;;
  run ;; skip.

Definition PRTSM_to_DESIGNATED_AGREED : M unit :=
  upd_ptp k (λ x, x <| PRTSM_state := PRTSM_DESIGNATED_AGREED |>
    <| proposed := false |> <| sync := false |> <| agree := true |>) ;;
  set_newInfoXst k ;;
  run ;; skip.

Definition PRTSM_to_DESIGNATED_SYNCED : M unit :=
  PRTSM_enter PRTSM_DESIGNATED_SYNCED (λ x, x
    <| rrWhile := 0 |> <| synced := true |> <| sync := false |>) skip.

Definition PRTSM_to_DESIGNATED_RETIRED : M unit :=
  PRTSM_enter PRTSM_DESIGNATED_RETIRED (λ x, x <| reRoot := false |>) skip.

Definition PRTSM_to_DESIGNATED_FORWARD : M unit :=
  upd_ptp k (λ x, x <| PRTSM_state := PRTSM_DESIGNATED_FORWARD |>
                    <| forward := true |> <| fdWhile := 0 |>) ;;
  prt ← get_port (ptp_port k);
  upd_ptp k (λ x, x <| agreed := sendRSTP prt |>) ;;
  run ;; skip.

Definition PRTSM_to_DESIGNATED_LEARN : M unit :=
  PRTSM_enter PRTSM_DESIGNATED_LEARN (λ x, x
    <| learn := true |> <| fdWhile := v_forwardDelay v |>) skip.

Definition PRTSM_to_DESIGNATED_DISCARD : M unit :=
  PRTSM_enter PRTSM_DESIGNATED_DISCARD (λ x, x
    <| learn := false |> <| forward := false |> <| disputed := false |>
    <| fdWhile := v_forwardDelay v |>) skip.

Definition PRTSM_to_DESIGNATED_PORT : M unit :=
  PRTSM_enter PRTSM_DESIGNATED_PORT (λ x, x <| role := roleDesignated |>) skip.

(** AlternatePort and BackupPort role transitions *)
Definition PRTSM_to_BLOCK_PORT : M unit :=
  PRTSM_enter PRTSM_BLOCK_PORT (λ x, x
    <| role := selectedRole x |> <| learn := false |> <| forward := false |>) skip.

Definition PRTSM_to_BACKUP_PORT : M unit :=
  PRTSM_enter PRTSM_BACKUP_PORT (λ x, x <| rbWhile := 2 * v_HelloTime v |>) skip.

Definition PRTSM_to_ALTERNATE_PROPOSED : M unit :=
  PRTSM_enter PRTSM_ALTERNATE_PROPOSED (λ x, x <| proposed := false |>)
    (setSyncTree (ptp_tree k)).

Definition PRTSM_to_ALTERNATE_AGREED : M unit :=
  upd_ptp k (λ x, x <| PRTSM_state := PRTSM_ALTERNATE_AGREED |>
    <| proposed := false |> <| agree := true |>) ;;
  set_newInfoXst k ;;
  run ;; skip.

Definition PRTSM_to_ALTERNATE_PORT : M unit :=
  PRTSM_enter PRTSM_ALTERNATE_PORT (λ x, x
    <| fdWhile := v_forwardDelay v |> <| synced := true |> <| rrWhile := 0 |>
    <| sync := false |> <| reRoot := false |>) skip.

(** ** The transitions out of each role's resting state *)

Definition PRTSM_master_port (dry_run : bool) (prt : port_t) (ptp : per_tree_port_t)
    (allSynced : bool) : M bool :=
  if negb (selected ptp && negb (updtInfo ptp)) then mret false else
  if reRoot ptp && (rrWhile ptp =? 0) then transition dry_run PRTSM_to_MASTER_RETIRED else
  if (negb (learning ptp) && negb (forwarding ptp) && negb (synced ptp))
     || (agreed ptp && negb (synced ptp))
     || (operEdge prt && negb (synced ptp))
     || (sync ptp && synced ptp)
  then transition dry_run PRTSM_to_MASTER_SYNCED else
  if (allSynced && negb (agree ptp)) || (proposed ptp && agree ptp)
  then transition dry_run PRTSM_to_MASTER_AGREED else
  if proposed ptp && negb (agree ptp) then transition dry_run PRTSM_to_MASTER_PROPOSED else
  if ((fdWhile ptp =? 0) || allSynced) && learn ptp && negb (forward ptp)
  then transition dry_run PRTSM_to_MASTER_FORWARD else
  if ((fdWhile ptp =? 0) || allSynced) && negb (learn ptp)
  then transition dry_run PRTSM_to_MASTER_LEARN else
  if ((sync ptp && negb (synced ptp)) || (reRoot ptp && (rrWhile ptp ≠? 0)) || disputed ptp)
     && negb (operEdge prt) && (learn ptp || forward ptp)
  then transition dry_run PRTSM_to_MASTER_DISCARD
  else mret false.

Definition PRTSM_root_port (dry_run : bool) (ptp : per_tree_port_t)
    (allSynced : bool) : M bool :=
  if negb (selected ptp && negb (updtInfo ptp)) then mret false else
  if negb (forward ptp) && negb (reRoot ptp) then transition dry_run PRTSM_to_REROOT else
  if (agreed ptp && negb (synced ptp)) || (sync ptp && synced ptp)
  then transition dry_run PRTSM_to_ROOT_SYNCED else
  if (allSynced && negb (agree ptp)) || (proposed ptp && agree ptp)
  then transition dry_run PRTSM_to_ROOT_AGREED else
  if proposed ptp && negb (agree ptp) then transition dry_run PRTSM_to_ROOT_PROPOSED else
  reRooted ← PRTSM_reRooted k;
  br ← get_br;
  let may_forward := (fdWhile ptp =? 0)
                     || (reRooted && (rbWhile ptp =? 0) && rstpVersion br) in
  if may_forward && negb (learn ptp) then transition dry_run PRTSM_to_ROOT_LEARN else
  if may_forward && negb (forward ptp) then transition dry_run PRTSM_to_ROOT_FORWARD else
  if reRoot ptp && forward ptp then transition dry_run PRTSM_to_REROOTED else
  if rrWhile ptp ≠? v_FwdDelay v then transition dry_run PRTSM_to_ROOT_PORT
  else mret false.

Definition PRTSM_designated_port (dry_run : bool) (prt : port_t) (ptp : per_tree_port_t)
    (allSynced : bool) : M bool :=
  if negb (selected ptp && negb (updtInfo ptp)) then mret false else
  if reRoot ptp && (rrWhile ptp =? 0) then transition dry_run PRTSM_to_DESIGNATED_RETIRED else
  if (negb (learning ptp) && negb (forwarding ptp) && negb (synced ptp))
     || (agreed ptp && negb (synced ptp))
     || (operEdge prt && negb (synced ptp))
     || (sync ptp && synced ptp)
  then transition dry_run PRTSM_to_DESIGNATED_SYNCED else
  if allSynced && (proposed ptp || negb (agree ptp))
  then transition dry_run PRTSM_to_DESIGNATED_AGREED else
  if negb (forward ptp) && negb (agreed ptp) && negb (proposing ptp) && negb (operEdge prt)
  then transition dry_run PRTSM_to_DESIGNATED_PROPOSE else
  (* Dont transition to learn/forward when BA inconsistent *)
  let may_forward := ((fdWhile ptp =? 0) || agreed ptp || operEdge prt)
                     && ((rrWhile ptp =? 0) || negb (reRoot ptp)) && negb (sync ptp)
                     && negb (BaInconsistent prt) in
  if may_forward && negb (learn ptp) then transition dry_run PRTSM_to_DESIGNATED_LEARN else
  if may_forward && negb (forward ptp) then transition dry_run PRTSM_to_DESIGNATED_FORWARD else
  (* Transition to discarding when BA inconsistent *)
  if ((sync ptp && negb (synced ptp)) || (reRoot ptp && (rrWhile ptp ≠? 0))
      || disputed ptp || BaInconsistent prt)
     && negb (operEdge prt) && (learn ptp || forward ptp)
  then transition dry_run PRTSM_to_DESIGNATED_DISCARD
  else mret false.

Definition PRTSM_alternate_port (dry_run : bool) (ptp : per_tree_port_t)
    (allSynced : bool) : M bool :=
  if negb (selected ptp && negb (updtInfo ptp)) then mret false else
  if (allSynced && negb (agree ptp)) || (proposed ptp && agree ptp)
  then transition dry_run PRTSM_to_ALTERNATE_AGREED else
  if proposed ptp && negb (agree ptp) then transition dry_run PRTSM_to_ALTERNATE_PROPOSED else
  if (rbWhile ptp ≠? 2 * v_HelloTime v) && (role ptp ==? roleBackup)
  then transition dry_run PRTSM_to_BACKUP_PORT else
  if (fdWhile ptp ≠? v_forwardDelay v) || sync ptp || reRoot ptp || negb (synced ptp)
  then transition dry_run PRTSM_to_ALTERNATE_PORT
  else mret false.

(** The first switch: the selected role is not the current one. *)
Definition PRTSM_change_role (dry_run : bool) (r : port_role_t) : M bool :=
  transition dry_run
    (match r with
     | roleDisabled => PRTSM_to_DISABLE_PORT
     | roleMaster => PRTSM_to_MASTER_PORT
     | roleRoot => PRTSM_to_ROOT_PORT
     | roleDesignated => PRTSM_to_DESIGNATED_PORT
     | roleAlternate | roleBackup => PRTSM_to_BLOCK_PORT
     end).

(** The second switch. *)
Definition PRTSM_switch (dry_run : bool) (prt : port_t) (ptp : per_tree_port_t)
    (allSynced : bool) : M bool :=
  match PRTSM_state ptp with
  | PRTSM_INIT_PORT => transition dry_run PRTSM_to_DISABLE_PORT
  | PRTSM_DISABLE_PORT =>
      if selected ptp && negb (updtInfo ptp) && negb (learning ptp) && negb (forwarding ptp)
      then transition dry_run PRTSM_to_DISABLED_PORT else mret false
  | PRTSM_DISABLED_PORT =>
      if selected ptp && negb (updtInfo ptp)
         && (sync ptp || reRoot ptp || negb (synced ptp) || (fdWhile ptp ≠? v_MaxAge v))
      then transition dry_run PRTSM_to_DISABLED_PORT else mret false
  | PRTSM_MASTER_PROPOSED | PRTSM_MASTER_AGREED | PRTSM_MASTER_SYNCED
  | PRTSM_MASTER_RETIRED | PRTSM_MASTER_FORWARD | PRTSM_MASTER_LEARN
  | PRTSM_MASTER_DISCARD => transition dry_run PRTSM_to_MASTER_PORT
  | PRTSM_MASTER_PORT => PRTSM_master_port dry_run prt ptp allSynced
  | PRTSM_ROOT_PROPOSED | PRTSM_ROOT_AGREED | PRTSM_ROOT_SYNCED | PRTSM_REROOT
  | PRTSM_ROOT_FORWARD | PRTSM_ROOT_LEARN | PRTSM_REROOTED =>
      transition dry_run PRTSM_to_ROOT_PORT
  | PRTSM_ROOT_PORT => PRTSM_root_port dry_run ptp allSynced
  | PRTSM_DESIGNATED_PROPOSE | PRTSM_DESIGNATED_AGREED | PRTSM_DESIGNATED_SYNCED
  | PRTSM_DESIGNATED_RETIRED | PRTSM_DESIGNATED_FORWARD | PRTSM_DESIGNATED_LEARN
  | PRTSM_DESIGNATED_DISCARD => transition dry_run PRTSM_to_DESIGNATED_PORT
  | PRTSM_DESIGNATED_PORT => PRTSM_designated_port dry_run prt ptp allSynced
  | PRTSM_BLOCK_PORT =>
      if selected ptp && negb (updtInfo ptp) && negb (learning ptp) && negb (forwarding ptp)
      then transition dry_run PRTSM_to_ALTERNATE_PORT else mret false
  | PRTSM_BACKUP_PORT | PRTSM_ALTERNATE_PROPOSED | PRTSM_ALTERNATE_AGREED =>
      transition dry_run PRTSM_to_ALTERNATE_PORT
  | PRTSM_ALTERNATE_PORT => PRTSM_alternate_port dry_run ptp allSynced
  end.
End states.

(** ** The machine *)

(** [PRTSM_runr(ptp, true, dry_run)] *)
Fixpoint PRTSM_runf (fuel : nat) (v : prtsm_vars) (k : ptp_id) (dry_run : bool) : M bool :=
  match fuel with
  | O => out_of_fuel
  | S fuel' =>
      let run := PRTSM_runf fuel' v k false in
      prt ← get_port (ptp_port k);
      ptp ← get_ptp k;
      if (role ptp !=? selectedRole ptp) && selected ptp && negb (updtInfo ptp)
      then PRTSM_change_role run v k dry_run (selectedRole ptp)
      else
        allSynced ← PRTSM_allSynced k;
        PRTSM_switch run v k dry_run prt ptp allSynced
  end.

Definition PRTSM_FUEL : nat := 48.

(** [PRTSM_runr(ptp, false, dry_run)] *)
Definition PRTSM_run (k : ptp_id) (dry_run : bool) : M bool :=
  v ← PRTSM_vars k; PRTSM_runf PRTSM_FUEL v k dry_run.

Definition PRTSM_to_INIT_PORT (k : ptp_id) : M unit :=
  upd_ptp k (λ x, x <| PRTSM_state := PRTSM_INIT_PORT |>) ;;
  ck ← GET_CIST_PTP_FROM_PORT (ptp_port k);
  upd_ptp k (λ x, x <| role := roleDisabled |> <| learn := false |> <| forward := false |>
                    <| synced := false |> <| sync := true |> <| reRoot := true |>) ;;
  cist ← get_ptp ck;
  upd_ptp k (λ x, x <| rrWhile := Forward_Delay (designatedTimes cist) |>
                    <| fdWhile := Max_Age (designatedTimes cist) |> <| rbWhile := 0 |>).

Definition PRTSM_begin (k : ptp_id) : M unit := PRTSM_to_INIT_PORT k.
