(* ===== verification/Bridge.v ===== *)
(** Running the machines of a bridge until they are stable, and the external
    events MSTP_IN_xxx that create, delete and drive bridges and ports. *)
From S2P Require Import Prelude Types Monad Md5 Vectors Outputs Procs RoleSelect PortSM TreeSM.
From S2P Require Import Prtsm.

(** ** Running every state machine *)

(** [if(a) return true; b] *)
Definition or_else (a b : M bool) : M bool :=
  x ← a; if (x : bool) then mret true else b.

(** One loop of __br_state_machines_run: leave when a dry run reports a change. *)
Definition run_ports (dry_run : bool) (sm : port_id → bool → M bool) : M bool :=
  l ← ports_of_bridge;
  any_of l (λ p, b ← sm p dry_run; mret (b && dry_run)).

Definition run_trees (dry_run : bool) (sm : tree_id → bool → M bool) : M bool :=
  l ← trees_of_bridge;
  any_of l (λ t, b ← sm t dry_run; mret (b && dry_run)).

Definition run_ptps (dry_run : bool) (sm : ptp_id → bool → M bool) : M bool :=
  l ← ports_of_bridge;
  any_of l (λ p,
    l' ← ptps_of_port p;
    any_of l' (λ k, b ← sm k dry_run; mret (b && dry_run))).

(** The bridge assurance timer has expired. *)
Definition BA_expired (prt : port_t) : bool :=
  portEnabled prt && assurancePort prt && (brAssuRcvdInfoWhile prt =? 0)
  && negb (BaInconsistent prt).

Definition BA_run (p : port_id) (dry_run : bool) : M bool :=
  prt ← get_port p;
  if BA_expired prt
  then transition dry_run (upd_port p (λ x, x <| BaInconsistent := true |>))
  else mret false.

Definition __br_state_machines_run (dry_run : bool) : M bool :=
  or_else (run_ports dry_run BA_run) (
  or_else (run_ports dry_run PRSM_run) (
  or_else (run_ports dry_run PPMSM_run) (
  or_else (run_ports dry_run BDSM_run) (
  or_else (run_ports dry_run PTSM_run) (
  or_else (run_ptps dry_run PISM_run) (
  or_else (run_trees dry_run PRSSM_run) (
  or_else (run_ptps dry_run PRTSM_run) (
  or_else (run_ptps dry_run PSTSM_run)
          (run_ptps dry_run TCSM_run))))))))).

(** The run is over when a clock reading lies after the deadline. *)
Definition past_deadline (tv tv_end : timespec) : bool :=
  (0 <? fst tv - fst tv_end)
  || ((fst tv - fst tv_end =? 0) && (0 <? snd tv - snd tv_end)).

(** Every iteration takes a reading, so the readings bound the iterations. *)
Fixpoint br_state_machines_loop (fuel : nat) (tv_end : timespec) : M unit :=
  match fuel with
  | O => out_of_fuel
  | S fuel' =>
      change ← __br_state_machines_run true;
      if negb change then skip else
      __br_state_machines_run false ;;
      tv ← clock_gettime;
      if past_deadline tv tv_end then skip else br_state_machines_loop fuel' tv_end
  end.

Definition br_state_machines_run : M unit :=
  br ← get_br;
  if negb (bridgeEnabled br) then skip else
  tv ← clock_gettime;
  n ← clock_readings;
  br_state_machines_loop (S n) (fst tv + 1, snd tv).

(** ** BEGIN *)

Definition ptp_begin (k : ptp_id) : M unit :=
  br ← get_br;
  upd_ptp k (λ x, x <| start_time := uptime br |>) ;;
  PISM_begin k.

Definition PRSSM_begin : tree_id → M unit := PRSSM_to_INIT_TREE.

Definition tree_state_machines_begin (t : tree_id) : M unit :=
  br ← get_br;
  if negb (bridgeEnabled br) then skip else
  FOREACH_PTP_IN_TREE t ptp_begin ;;
  PRSSM_begin t ;;
  FOREACH_PTP_IN_TREE t PRTSM_begin ;;
  FOREACH_PTP_IN_TREE t PSTSM_begin ;;
  FOREACH_PTP_IN_TREE t TCSM_begin ;;
  br_state_machines_run.

Definition prt_state_machines_begin (p : port_id) : M unit :=
  br ← get_br;
  if negb (bridgeEnabled br) then skip else
  PRSM_begin p ;;
  PPMSM_begin p ;;
  BDSM_begin p ;;
  PTSM_begin p ;;
  FOREACH_PTP_IN_PORT p ptp_begin ;;
  FOREACH_TREE_IN_BRIDGE (λ t, PRSSM_run t false ;; skip) ;;
  FOREACH_PTP_IN_PORT p PRTSM_begin ;;
  FOREACH_PTP_IN_PORT p PSTSM_begin ;;
  FOREACH_PTP_IN_PORT p TCSM_begin ;;
  br_state_machines_run.

Definition br_state_machines_begin : M unit :=
  br ← get_br;
  if negb (bridgeEnabled br) then skip else
  FOREACH_PORT_IN_BRIDGE PRSM_begin ;;
  FOREACH_PORT_IN_BRIDGE PPMSM_begin ;;
  FOREACH_PORT_IN_BRIDGE BDSM_begin ;;
  FOREACH_PORT_IN_BRIDGE PTSM_begin ;;
  FOREACH_PORT_IN_BRIDGE (λ p, FOREACH_PTP_IN_PORT p ptp_begin) ;;
  FOREACH_TREE_IN_BRIDGE PRSSM_begin ;;
  FOREACH_PORT_IN_BRIDGE (λ p, FOREACH_PTP_IN_PORT p PRTSM_begin) ;;
  FOREACH_PORT_IN_BRIDGE (λ p, FOREACH_PTP_IN_PORT p PSTSM_begin) ;;
  FOREACH_PORT_IN_BRIDGE (λ p, FOREACH_PTP_IN_PORT p TCSM_begin) ;;
  br_state_machines_run.

(** ** Default values *)

Definition bridge_default_internal_vars (br : bridge_t) : bridge_t := br <| uptime := 0 |>.

Definition tree_default_internal_vars (x : tree_t) : tree_t :=
  x <| time_since_topology_change := 0 |> <| topology_change_count := 0 |>
    <| topology_change := false |>
    <| topology_change_port := strncpy IFNAMSIZ "None" |>
    <| last_topology_change_port := strncpy IFNAMSIZ "None" |>.

Definition port_default_internal_vars (x : port_t) : port_t :=
  x <| infoInternal := false |> <| rcvdInternal := false |> <| rcvdTcAck := false |>
    <| rcvdTcn := false |> <| rapidAgeingWhile := 0 |> <| brAssuRcvdInfoWhile := 0 |>
    <| BaInconsistent := false |> <| num_rx_bpdu_filtered := 0 |> <| num_rx_bpdu := 0 |>
    <| num_rx_tcn := 0 |> <| num_tx_bpdu := 0 |> <| num_tx_tcn := 0 |>
    <| num_trans_fwd := 0 |> <| num_trans_blk := 0 |>.

Definition ptp_default_internal_vars (x : per_tree_port_t) : per_tree_port_t :=
  x <| rcvdTc := false |> <| tcProp := false |> <| updtInfo := false |>
    <| master := false |> <| disputed := false |> <| rcvdInfo := OtherInfo |>
    <| mastered := false |> <| msgPriority := zero_vector |> <| msgTimes := zero_times |>.

(** ** Allocation of trees and per-tree ports *)

Definition set_all_BridgePriority (id : bridge_identifier_t) (v : port_priority_vector_t)
  : port_priority_vector_t :=
  v <| RootID := id |> <| RRootID := id |> <| DesignatedBridgeID := id |>.

Definition created_tree (br : bridge_t) (mac : list Z) (MSTID : Z) : tree_t :=
  let id := mk_bridge_identifier (Z.lor 0x8000 MSTID) mac in
  tree_default_internal_vars
    (zero_tree
       <| BridgeIdentifier := id |>
       <| BridgePriority ::= set_all_BridgePriority id |>
       <| BridgeTimes := mk_times (MaxHops br) (br_Forward_Delay br) (br_Max_Age br) 0
                           (br_Hello_Time br) |>).

Definition create_tree (mac : list Z) (MSTID : Z) : M (option tree_id) :=
  ok ← calloc_ok;
  if negb ok then mret None else
  br ← get_br;
  new_tree MSTID (created_tree br mac MSTID) ;;
  mret (Some MSTID).

Definition created_ptp (tree : tree_t) (prt : port_t) : per_tree_port_t :=
  ptp_default_internal_vars
    (zero_per_tree_port
       <| ptp_state := BR_STATE_DISABLED |>
       <| portId := Z.lor 0x8000 (port_number prt) |>
       <| InternalPortPathCost := compute_pcost (speed (prt_sysdeps prt)) |>
       <| portPriority := BridgePriority tree |>
       <| portTimes := BridgeTimes tree |>).

Definition create_ptp (t : tree_id) (p : port_id) : M (option ptp_id) :=
  ok ← calloc_ok;
  if negb ok then mret None else
  tree ← get_tree t;
  prt ← get_port p;
  new_ptp (p, t) (created_ptp tree prt) ;;
  mret (Some (p, t)).

(** Unlink a per-tree port from both of its lists and free it. *)
Definition unlink_ptp (k : ptp_id) : M unit :=
  upd_port (ptp_port k) (λ x, x <| prt_trees ::= list_del (ptp_tree k) |>) ;;
  upd_tree (ptp_tree k) (λ x, x <| tree_ports ::= list_del (ptp_port k) |>) ;;
  free_ptp k.

(** ** The configuration digest (13.7) *)

(** 13.7, Table 13-1 *)
Definition HMAC_KEY : list Z :=
  [0x13; 0xAC; 0x06; 0xA6; 0x2E; 0x47; 0xFD; 0x51;
   0xF9; 0x5D; 0x2B; 0xA2; 0x43; 0xCD; 0x03; 0x46].

(** [a[i]]: [None] when [i] is outside of the array. *)
Definition array_get (a : list Z) (i : Z) : option Z :=
  if i <? 0 then None else a !! Z.to_nat i.

(** [br->fid2mstid[br->vid2fid[vid]]] *)
Definition vid2mstid (br : bridge_t) (vid : Z) : option Z :=
  fid ← array_get (vid2fid br) vid; array_get (fid2mstid br) fid.

(** The table [vid2mstid[MAX_VID + 2]] of the digest. *)
Definition vid2mstid_table (br : bridge_t) : option (list Z) :=
  l ← mapM (vid2mstid br) (zrange 1 MAX_VID); mret ([0] ++ l ++ [0]).

(** [stack] is the content of the uninitialised buffers of [hmac_md5]. *)
Definition RecalcConfigDigest (stack : list Z) : M unit :=
  br ← get_br;
  table ← of_option (vid2mstid_table br);
  let digest := hmac_md5 stack (concat (map (be_bytes 2) table)) HMAC_KEY in
  upd_br (λ br, br <| MstConfigId ::= λ c, c <| configuration_digest := digest |> |>).

(** ** Creating and deleting *)

Definition hex_digit (d : Z) : Z := if d <? 10 then 48 + d else 55 + d.

(** [sprintf(dst, "%02hhX..")] of the six octets: twelve digits and a NUL. *)
Definition sprintf_mac (mac dst : list Z) : list Z :=
  let s := concat (map (λ b, [hex_digit (b / 16); hex_digit (b mod 16)]) mac) ++ [0] in
  s ++ drop (length s) dst.

Definition MSTP_IN_bridge_create (stack : list Z) (macaddr : list Z) : M bool :=
  upd_br (λ br, br
    <| br_ports := [] |> <| br_trees := [] |> <| bridgeEnabled := false |>
    <| vid2fid := replicate (Z.to_nat (MAX_VID + 1)) 0 |>
    <| fid2mstid := replicate (Z.to_nat (MAX_FID + 1)) 0 |>
    <| MstConfigId ::= λ c, c <| selector := 0 |>
                              <| configuration_name ::= sprintf_mac macaddr |>
                              <| revision_level := 0 |> |>) ;;
  RecalcConfigDigest stack ;;
  upd_br (λ br, bridge_default_internal_vars (br
    <| ForceProtocolVersion := protoRSTP |>
    <| MaxHops := 20 |> <| br_Forward_Delay := 15 |> <| br_Max_Age := 20 |>
    <| Transmit_Hold_Count := 6 |> <| Migrate_Time := 3 |> <| Ageing_Time := 300 |>
    <| br_Hello_Time := 2 |>)) ;;
  (* Create CIST *)
  cist ← create_tree macaddr 0;
  match (cist : option tree_id) with
  | None => mret false
  | Some t => upd_br (λ br, br <| br_trees ::= λ l, l ++ [t] |>) ;; mret true
  end.

(** One per-tree port for every tree; [false] as soon as an allocation fails. *)
Fixpoint create_ptps_of_port (p : port_id) (l : list tree_id) : M bool :=
  match l with
  | [] => mret true
  | t :: l' =>
      k ← create_ptp t p;
      match (k : option ptp_id) with
      | None => mret false
      | Some _ =>
          upd_port p (λ x, x <| prt_trees ::= λ s, s ++ [t] |>) ;;
          upd_tree t (λ x, x <| tree_ports ::= λ s, s ++ [p] |>) ;;
          create_ptps_of_port p l'
      end
  end.

Definition created_port (portno : Z) (x : port_t) : port_t :=
  port_default_internal_vars (x
    <| prt_trees := [] |> <| port_number := portno |>
    <| AdminExternalPortPathCost := 0 |>
    <| AdminP2P := p2pAuto |> <| operPointToPointMAC := false |>
    <| portEnabled := false |> <| restrictedRole := false |> <| restrictedTcn := false |>
    <| ExternalPortPathCost := MAX_PATH_COST |>
    <| AdminEdgePort := false |> <| AutoEdge := true |>
    <| BpduGuardPort := false |> <| BpduGuardError := false |>
    <| NetworkPort := false |> <| dontTxmtBpdu := false |> <| bpduFilterPort := false |>
    <| deleted := false |>).

Definition MSTP_IN_port_create_and_add_tail (p : port_id) (portno : Z) : M bool :=
  upd_port p (created_port portno) ;;
  l ← trees_of_bridge;
  ok ← create_ptps_of_port p l;
  if negb ok then
    (* Remove and free all previously created entries in port's list *)
    FOREACH_PTP_IN_PORT p unlink_ptp ;; mret false
  else
    upd_br (λ br, br <| br_ports ::= λ s, s ++ [p] |>) ;;
    prt_state_machines_begin p ;;
    mret true.

Definition MSTP_IN_delete_port (p : port_id) : M unit :=
  upd_port p (λ x, x <| deleted := true |>) ;;
  prt ← get_port p;
  when (portEnabled prt)
    (upd_port p (λ x, x <| portEnabled := false |>) ;;
     br_state_machines_run) ;;
  FOREACH_PTP_IN_PORT p unlink_ptp ;;
  upd_br (λ br, br <| br_ports ::= list_del p |>) ;;
  br_state_machines_run.

Definition MSTP_IN_delete_bridge : M unit :=
  upd_br (λ br, br <| bridgeEnabled := false |>) ;;
  FOREACH_PORT_IN_BRIDGE (λ p, MSTP_IN_delete_port p ;; free_port p) ;;
  FOREACH_TREE_IN_BRIDGE (λ t,
    upd_br (λ br, br <| br_trees ::= list_del t |>) ;; free_tree t).

(** ** Configuration from the interface layer *)

Fixpoint set_tree_addresses (l : list tree_id) (mac : list Z) (changed : bool) : M bool :=
  match l with
  | [] => mret changed
  | t :: l' =>
      tree ← get_tree t;
      if memcmp (mac_address (BridgeIdentifier tree)) mac =? 0
      then set_tree_addresses l' mac changed
      else
        let id := BridgeIdentifier tree <| mac_address := mac |> in
        upd_tree t (λ x, x <| BridgeIdentifier := id |>
                           <| BridgePriority ::= set_all_BridgePriority id |>) ;;
        set_tree_addresses l' mac true
  end.

Definition MSTP_IN_set_bridge_address (macaddr : list Z) : M unit :=
  l ← trees_of_bridge;
  changed ← set_tree_addresses l macaddr false;
  when changed br_state_machines_begin.

Definition MSTP_IN_set_bridge_enable (up : bool) : M unit :=
  br ← get_br;
  if Bool.eqb (bridgeEnabled br) up then skip else
  upd_br (λ br, bridge_default_internal_vars (br <| bridgeEnabled := up |>)) ;;
  FOREACH_TREE_IN_BRIDGE (λ t, upd_tree t tree_default_internal_vars) ;;
  FOREACH_PORT_IN_BRIDGE (λ p,
    prt ← get_port p;
    when (rapidAgeingWhile prt ≠? 0) (MSTP_OUT_set_ageing_time p (Ageing_Time br)) ;;
    upd_port p port_default_internal_vars ;;
    FOREACH_PTP_IN_PORT p (λ k,
      ptp ← get_ptp k;
      when (ptp_state ptp ≠? BR_STATE_DISABLED) (MSTP_OUT_set_state k BR_STATE_DISABLED) ;;
      upd_ptp k ptp_default_internal_vars)) ;;
  br_state_machines_begin.

(** The administrative value if it is set, else the computed one. *)
Definition path_cost (admin computed : Z) : Z := if admin =? 0 then computed else admin.

Definition p2p_of (admin : Z) (duplex : Z) : bool :=
  if admin =? p2pForceTrue then true
  else if admin =? p2pForceFalse then false
  else duplex ≠? 0.

(** The loop over the per-tree path costs. *)
Fixpoint set_internal_costs (l : list ptp_id) (computed : Z) (changed : bool) : M bool :=
  match l with
  | [] => mret changed
  | k :: l' =>
      ptp ← get_ptp k;
      let cost := path_cost (AdminInternalPortPathCost ptp) computed in
      if InternalPortPathCost ptp ≠? cost
      then upd_ptp k (λ x, x <| InternalPortPathCost := cost |>) ;;
           set_internal_costs l' computed true
      else set_internal_costs l' computed changed
  end.

(** The branch [up]: whether something changed. *)
Definition port_goes_up (p : port_id) (speed duplex : Z) : M bool :=
  prt ← get_port p;
  let computed := compute_pcost speed in
  let cost := path_cost (AdminExternalPortPathCost prt) computed in
  upd_port p (λ x, x <| ExternalPortPathCost := cost |>) ;;
  l ← ptps_of_port p;
  changed ← set_internal_costs l computed (ExternalPortPathCost prt ≠? cost);
  let new_p2p := p2p_of (AdminP2P prt) duplex in
  upd_port p (λ x, x <| operPointToPointMAC := new_p2p |>) ;;
  let changed' := changed || negb (Bool.eqb (operPointToPointMAC prt) new_p2p) in
  if portEnabled prt then mret changed' else
  upd_port p (λ x, x
    <| portEnabled := true |> <| BpduGuardError := false |> <| BaInconsistent := false |>
    <| num_rx_bpdu_filtered := 0 |> <| num_rx_bpdu := 0 |> <| num_rx_tcn := 0 |>
    <| num_tx_bpdu := 0 |> <| num_tx_tcn := 0 |>) ;;
  updtbrAssuRcvdInfoWhile p ;;
  mret true.

Definition MSTP_IN_set_port_enable (p : port_id) (up : bool) (speed duplex : Z) : M unit :=
  changed ←
    (if up then port_goes_up p speed duplex
     else
       prt ← get_port p;
       upd_port p (λ x, x <| portEnabled := false |>) ;;
       mret (portEnabled prt));
  when changed br_state_machines_run.

(** ** Time *)

Definition rapid_ageing_tick (p : port_id) : M unit :=
  prt ← get_port p;
  when (rapidAgeingWhile prt ≠? 0)
    (upd_port p (λ x, x <| rapidAgeingWhile ::= λ n, n - 1 |>) ;;
     when ((rapidAgeingWhile prt - 1 =? 0) && negb (deleted prt))
       (br ← get_br; MSTP_OUT_set_ageing_time p (Ageing_Time br))).

Definition MSTP_IN_one_second : M unit :=
  upd_br (λ br, br <| uptime ::= λ n, u32 (n + 1) |>) ;;
  br ← get_br;
  if negb (bridgeEnabled br) then skip else
  FOREACH_TREE_IN_BRIDGE (λ t,
    tree ← get_tree t;
    when (negb (topology_change tree))
      (upd_tree t (λ x, x <| time_since_topology_change ::= λ n, u32 (n + 1) |>))) ;;
  FOREACH_PORT_IN_BRIDGE (λ p, PTSM_tick p ;; rapid_ageing_tick p) ;;
  br_state_machines_run.

Definition MSTP_IN_all_fids_flushed (k : ptp_id) : M unit :=
  MSTP_IN_all_fids_flushed_with (TCSM_run k false ;; br_state_machines_run) k.

(** ** Receiving a BPDU *)

Inductive bpdu_verdict :=
| Invalid
| Valid (version : Z) (num_mstis : option Z).

(** 14.4 Validation: the version the BPDU is handled as and, for an MST BPDU,
    the number of its MSTI messages.  [mstis_size] is an [int]; the two
    comparisons with a [size_t] convert it. *)
Definition validate_bpdu (b : bpdu_t) (size : Z) : bpdu_verdict :=
  let size := u64 size in
  if (size <? TCN_BPDU_SIZE) || (protocolIdentifier b ≠? 0) then Invalid else
  if bpduType b =? bpduTypeTCN then Valid protoSTP None (* 14.4.b) *)
  else if bpduType b =? bpduTypeConfig then (* 14.4.a) *)
    if size <? CONFIG_BPDU_SIZE then Invalid else Valid protoSTP None
  else if bpduType b =? bpduTypeRST then
    if protocolVersion b =? protoRSTP then (* 14.4.c) *)
      if size <? RST_BPDU_SIZE then Invalid else Valid protoRSTP None
    else if protocolVersion b <? protoMSTP then Invalid
    else if size <? CONFIG_BPDU_SIZE then Invalid else
    let mstis_size := version3_len b - MST_BPDU_VER3LEN_WO_MSTI_MSGS in
    if (size <? MST_BPDU_SIZE_WO_MSTI_MSGS) || (version1_len b ≠? 0) || (mstis_size <? 0)
       || (MAX_STANDARD_MSTIS * sizeof_msti_configuration_message <? u64 mstis_size)
       || (u64 mstis_size mod sizeof_msti_configuration_message ≠? 0)
    then Valid protoRSTP None (* 14.4.d) *)
    else Valid protoMSTP (* 14.4.e) *)
           (Some (s32 (u64 mstis_size / sizeof_msti_configuration_message)))
  else Invalid.

Definition counts_as_tcn (b : bpdu_t) : bool :=
  ((protocolVersion b =? protoSTP) && (bpduType b =? bpduTypeTCN)) || flag_set (flags b) offsetTc.

Definition accept_bpdu (p : port_id) (b : bpdu_t) (num_mstis : option Z) : M unit :=
  upd_port p (λ x, x
    <| rcvdBpduNumOfMstis ::= λ n, default n num_mstis |>
    <| num_rx_tcn ::= λ n, if counts_as_tcn b then u32 (n + 1) else n |>
    <| rcvdBpduData := b |>
    <| rcvdBpdu := true |>
    <| BaInconsistent := false |>) ;;
  updtbrAssuRcvdInfoWhile p ;;
  br_state_machines_run.

Definition MSTP_IN_rx_bpdu (p : port_id) (b : bpdu_t) (size : Z) : M unit :=
  upd_port p (λ x, x <| num_rx_bpdu ::= λ n, u32 (n + 1) |>) ;;
  prt ← get_port p;
  br ← get_br;
  if BpduGuardPort prt then
    upd_port p (λ x, x <| BpduGuardError := true |>) ;;
    MSTP_OUT_shutdown_port p
  else if bpduFilterPort prt then
    upd_port p (λ x, x <| num_rx_bpdu_filtered ::= λ n, u32 (n + 1) |>)
  else if negb (bridgeEnabled br) then skip
  else if rcvdBpdu prt then skip (* the previous BPDU is still pending *)
  else
    match validate_bpdu b size with
    | Invalid => skip
    | Valid version num_mstis => accept_bpdu p (b <| protocolVersion := version |>) num_mstis
    end.
