(* ===== verification/Mgmt.v ===== *)
(** The management interface (12.8, 12.10, 12.12): reading status, setting
    bridge and port parameters, the VID/FID/MSTID tables and the MSTIs. *)
From S2P Require Import Prelude Types Monad Md5 Vectors Outputs Procs RoleSelect PortSM TreeSM.
From S2P Require Import Prtsm Bridge.

(** ** 12.8.1.1, 12.8.1.2: bridge status *)

Record CIST_BridgeStatus := mk_CIST_BridgeStatus {
  cbs_bridge_id : bridge_identifier_t;
  cbs_time_since_topology_change : Z;
  cbs_topology_change_count : Z;
  cbs_topology_change : bool;
  cbs_topology_change_port : string;
  cbs_last_topology_change_port : string;
  cbs_designated_root : bridge_identifier_t;
  cbs_root_path_cost : Z;
  cbs_root_port_id : Z;
  cbs_root_max_age : Z;
  cbs_root_forward_delay : Z;
  cbs_bridge_max_age : Z;
  cbs_bridge_forward_delay : Z;
  cbs_tx_hold_count : Z;
  cbs_protocol_version : Z;
  cbs_regional_root : bridge_identifier_t;
  cbs_internal_path_cost : Z;
  cbs_enabled : bool;
  cbs_stp_enabled : bool;
  cbs_Ageing_Time : Z;
  cbs_max_hops : Z;
  cbs_bridge_hello_time : Z
}.

Definition MSTP_IN_get_cist_bridge_status : M CIST_BridgeStatus :=
  t ← GET_CIST_TREE;
  cist ← get_tree t;
  br ← get_br;
  mret {|
    cbs_bridge_id := BridgeIdentifier cist;
    cbs_time_since_topology_change := time_since_topology_change cist;
    cbs_topology_change_count := topology_change_count cist;
    cbs_topology_change := topology_change cist;
    cbs_topology_change_port := strncpy IFNAMSIZ (topology_change_port cist);
    cbs_last_topology_change_port := strncpy IFNAMSIZ (last_topology_change_port cist);
    cbs_designated_root := RootID (rootPriority cist);
    cbs_root_path_cost := ExtRootPathCost (rootPriority cist);
    cbs_root_port_id := rootPortId cist;
    cbs_root_max_age := Max_Age (rootTimes cist);
    cbs_root_forward_delay := Forward_Delay (rootTimes cist);
    cbs_bridge_max_age := br_Max_Age br;
    cbs_bridge_forward_delay := br_Forward_Delay br;
    cbs_tx_hold_count := Transmit_Hold_Count br;
    cbs_protocol_version := ForceProtocolVersion br;
    cbs_regional_root := RRootID (rootPriority cist);
    cbs_internal_path_cost := IntRootPathCost (rootPriority cist);
    cbs_enabled := bridgeEnabled br;
    cbs_stp_enabled := stp_enabled br;
    cbs_Ageing_Time := Ageing_Time br;
    cbs_max_hops := MaxHops br;
    cbs_bridge_hello_time := br_Hello_Time br
  |}.

Record MSTI_BridgeStatus := mk_MSTI_BridgeStatus {
  mbs_bridge_id : bridge_identifier_t;
  mbs_time_since_topology_change : Z;
  mbs_topology_change_count : Z;
  mbs_topology_change : bool;
  mbs_topology_change_port : string;
  mbs_last_topology_change_port : string;
  mbs_regional_root : bridge_identifier_t;
  mbs_internal_path_cost : Z;
  mbs_root_port_id : Z
}.

Definition MSTP_IN_get_msti_bridge_status (t : tree_id) : M MSTI_BridgeStatus :=
  tree ← get_tree t;
  mret {|
    mbs_bridge_id := BridgeIdentifier tree;
    mbs_time_since_topology_change := time_since_topology_change tree;
    mbs_topology_change_count := topology_change_count tree;
    mbs_topology_change := topology_change tree;
    mbs_topology_change_port := strncpy IFNAMSIZ (topology_change_port tree);
    mbs_last_topology_change_port := strncpy IFNAMSIZ (last_topology_change_port tree);
    mbs_regional_root := RRootID (rootPriority tree);
    mbs_internal_path_cost := IntRootPathCost (rootPriority tree);
    mbs_root_port_id := rootPortId tree
  |}.

(** ** 12.8.2.1, 12.8.2.2: port status *)

(** [(signed int)a - (signed int)b], stored in an unsigned [uptime]. *)
Definition port_uptime (br : bridge_t) (ptp : per_tree_port_t) : Z :=
  u32 (uptime br - start_time ptp).

Record CIST_PortStatus := mk_CIST_PortStatus {
  cps_uptime : Z;
  cps_state : Z;
  cps_port_id : Z;
  cps_admin_external_port_path_cost : Z;
  cps_external_port_path_cost : Z;
  cps_designated_root : bridge_identifier_t;
  cps_designated_external_cost : Z;
  cps_designated_bridge : bridge_identifier_t;
  cps_designated_port : Z;
  cps_tc_ack : bool;
  cps_port_hello_time : Z;
  cps_admin_edge_port : bool;
  cps_auto_edge_port : bool;
  cps_oper_edge_port : bool;
  cps_enabled : bool;
  cps_admin_p2p : Z;
  cps_oper_p2p : bool;
  cps_restricted_role : bool;
  cps_restricted_tcn : bool;
  cps_role : port_role_t;
  cps_disputed : bool;
  cps_designated_regional_root : bridge_identifier_t;
  cps_designated_internal_cost : Z;
  cps_admin_internal_port_path_cost : Z;
  cps_internal_port_path_cost : Z;
  cps_bpdu_guard_port : bool;
  cps_bpdu_guard_error : bool;
  cps_bpdu_filter_port : bool;
  cps_network_port : bool;
  cps_ba_inconsistent : bool;
  cps_num_rx_bpdu_filtered : Z;
  cps_num_rx_bpdu : Z;
  cps_num_rx_tcn : Z;
  cps_num_tx_bpdu : Z;
  cps_num_tx_tcn : Z;
  cps_num_trans_fwd : Z;
  cps_num_trans_blk : Z;
  cps_rcvdBpdu : bool;
  cps_rcvdRSTP : bool;
  cps_rcvdSTP : bool;
  cps_rcvdTcAck : bool;
  cps_rcvdTcn : bool;
  cps_sendRSTP : bool
}.

Definition MSTP_IN_get_cist_port_status (p : port_id) : M CIST_PortStatus :=
  k ← GET_CIST_PTP_FROM_PORT p;
  cist ← get_ptp k;
  prt ← get_port p;
  br ← get_br;
  mret {|
    cps_uptime := port_uptime br cist;
    cps_state := ptp_state cist;
    cps_port_id := portId cist;
    cps_admin_external_port_path_cost := AdminExternalPortPathCost prt;
    cps_external_port_path_cost := ExternalPortPathCost prt;
    cps_designated_root := RootID (portPriority cist);
    cps_designated_external_cost := ExtRootPathCost (portPriority cist);
    cps_designated_bridge := DesignatedBridgeID (portPriority cist);
    cps_designated_port := DesignatedPortID (portPriority cist);
    cps_tc_ack := tcAck prt;
    cps_port_hello_time := Hello_Time (portTimes cist);
    cps_admin_edge_port := AdminEdgePort prt;
    cps_auto_edge_port := AutoEdge prt;
    cps_oper_edge_port := operEdge prt;
    cps_enabled := portEnabled prt;
    cps_admin_p2p := AdminP2P prt;
    cps_oper_p2p := operPointToPointMAC prt;
    cps_restricted_role := restrictedRole prt;
    cps_restricted_tcn := restrictedTcn prt;
    cps_role := role cist;
    cps_disputed := disputed cist;
    cps_designated_regional_root := RRootID (portPriority cist);
    cps_designated_internal_cost := IntRootPathCost (portPriority cist);
    cps_admin_internal_port_path_cost := AdminInternalPortPathCost cist;
    cps_internal_port_path_cost := InternalPortPathCost cist;
    cps_bpdu_guard_port := BpduGuardPort prt;
    cps_bpdu_guard_error := BpduGuardError prt;
    cps_bpdu_filter_port := bpduFilterPort prt;
    cps_network_port := NetworkPort prt;
    cps_ba_inconsistent := BaInconsistent prt;
    cps_num_rx_bpdu_filtered := num_rx_bpdu_filtered prt;
    cps_num_rx_bpdu := num_rx_bpdu prt;
    cps_num_rx_tcn := num_rx_tcn prt;
    cps_num_tx_bpdu := num_tx_bpdu prt;
    cps_num_tx_tcn := num_tx_tcn prt;
    cps_num_trans_fwd := num_trans_fwd prt;
    cps_num_trans_blk := num_trans_blk prt;
    cps_rcvdBpdu := rcvdBpdu prt;
    cps_rcvdRSTP := rcvdRSTP prt;
    cps_rcvdSTP := rcvdSTP prt;
    cps_rcvdTcAck := rcvdTcAck prt;
    cps_rcvdTcn := rcvdTcn prt;
    cps_sendRSTP := sendRSTP prt
  |}.

Record MSTI_PortStatus := mk_MSTI_PortStatus {
  mps_uptime : Z;
  mps_state : Z;
  mps_port_id : Z;
  mps_admin_internal_port_path_cost : Z;
  mps_internal_port_path_cost : Z;
  mps_designated_regional_root : bridge_identifier_t;
  mps_designated_internal_cost : Z;
  mps_designated_bridge : bridge_identifier_t;
  mps_designated_port : Z;
  mps_role : port_role_t;
  mps_disputed : bool
}.

Definition MSTP_IN_get_msti_port_status (k : ptp_id) : M MSTI_PortStatus :=
  ptp ← get_ptp k;
  get_port (ptp_port k) ;;
  br ← get_br;
  mret {|
    mps_uptime := port_uptime br ptp;
    mps_state := ptp_state ptp;
    mps_port_id := portId ptp;
    mps_admin_internal_port_path_cost := AdminInternalPortPathCost ptp;
    mps_internal_port_path_cost := InternalPortPathCost ptp;
    mps_designated_regional_root := RRootID (portPriority ptp);
    mps_designated_internal_cost := IntRootPathCost (portPriority ptp);
    mps_designated_bridge := DesignatedBridgeID (portPriority ptp);
    mps_designated_port := DesignatedPortID (portPriority ptp);
    mps_role := role ptp;
    mps_disputed := disputed ptp
  |}.

(** ** 12.8.1.3: CIST bridge parameters

    Each pair of a value and its [set_] flag is an [option]. *)

Record CIST_BridgeConfig := mk_CIST_BridgeConfig {
  cfg_bridge_max_age : option Z;
  cfg_bridge_forward_delay : option Z;
  cfg_protocol_version : option Z;
  cfg_tx_hold_count : option Z;
  cfg_max_hops : option Z;
  cfg_bridge_hello_time : option Z;
  cfg_bridge_ageing_time : option Z
}.

(** The value, when it is given, lies outside of [lo, hi]. *)
Definition out_of_range (v : option Z) (lo hi : Z) : bool :=
  match v with Some x => (x <? lo) || (hi <? x) | None => false end.

Definition bad_protocol_version (v : option Z) : bool :=
  match v with
  | Some x => negb ((x =? protoSTP) || (x =? protoRSTP) || (x =? protoMSTP))
  | None => false
  end.

(** "Firstly, validation": whether [r] becomes -1. *)
Definition cist_bridge_config_invalid (br : bridge_t) (cfg : CIST_BridgeConfig) : bool :=
  let new_max_age := default (br_Max_Age br) (cfg_bridge_max_age cfg) in
  let new_forward_delay := default (br_Forward_Delay br) (cfg_bridge_forward_delay cfg) in
  out_of_range (cfg_bridge_max_age cfg) 6 40
  || out_of_range (cfg_bridge_forward_delay cfg) 4 30
  || ((bool_decide (is_Some (cfg_bridge_max_age cfg))
       || bool_decide (is_Some (cfg_bridge_forward_delay cfg)))
      && (2 * (new_forward_delay - 1) <? new_max_age))
  || bad_protocol_version (cfg_protocol_version cfg)
  || out_of_range (cfg_tx_hold_count cfg) 1 10
  || out_of_range (cfg_max_hops cfg) 6 100
  || out_of_range (cfg_bridge_hello_time cfg) 2 2
  || out_of_range (cfg_bridge_ageing_time cfg) 10 1000000.

(** The new value differs from the current one. *)
Definition changes (v : option Z) (current : Z) : bool :=
  match v with Some x => x ≠? current | None => false end.

(** "Thirdly": propagate the bridge times to one tree. *)
Definition propagate_times (br : bridge_t) (t : tree_id) : M unit :=
  upd_tree t (λ x, x <| BridgeTimes ::= λ b, b
    <| remainingHops := MaxHops br |> <| Forward_Delay := br_Forward_Delay br |>
    <| Max_Age := br_Max_Age br |> <| Hello_Time := br_Hello_Time br |> |>) ;;
  FOREACH_PTP_IN_TREE t (λ k, upd_ptp k (λ x, x
    <| selected := false |> <| reselect := true |>
    <| portTimes ::= λ b, b <| Hello_Time := br_Hello_Time br |> |>)).

Definition MSTP_IN_set_cist_bridge_config (cfg : CIST_BridgeConfig) : M Z :=
  br ← get_br;
  if cist_bridge_config_invalid br cfg then mret (-1) else
  let new_max_age := default (br_Max_Age br) (cfg_bridge_max_age cfg) in
  let new_forward_delay := default (br_Forward_Delay br) (cfg_bridge_forward_delay cfg) in
  let times := (new_max_age ≠? br_Max_Age br) || (new_forward_delay ≠? br_Forward_Delay br) in
  let init := changes (cfg_protocol_version cfg) (ForceProtocolVersion br) in
  let hold := changes (cfg_tx_hold_count cfg) (Transmit_Hold_Count br) in
  let hops := changes (cfg_max_hops cfg) (MaxHops br) in
  upd_br (λ x, x
    <| br_Max_Age := new_max_age |> <| br_Forward_Delay := new_forward_delay |>
    <| ForceProtocolVersion ::= λ v, default v (cfg_protocol_version cfg) |>
    <| Transmit_Hold_Count ::= λ v, default v (cfg_tx_hold_count cfg) |>
    <| MaxHops ::= λ v, default v (cfg_max_hops cfg) |>
    <| Ageing_Time ::= λ v, default v (cfg_bridge_ageing_time cfg) |>) ;;
  when hold (FOREACH_PORT_IN_BRIDGE (λ p, upd_port p (λ x, x <| txCount := 0 |>))) ;;
  br' ← get_br;
  when (times || hops) (FOREACH_TREE_IN_BRIDGE (propagate_times br')) ;;
  when ((times || init || hold || hops) && bridgeEnabled br)
    (if init then br_state_machines_begin else br_state_machines_run) ;;
  mret 0.

(** ** 12.8.1.4: bridge priority of a tree *)

(** [GET_PRIORITY_FROM_IDENTIFIER] and [SET_...] on a bridge identifier. *)
Definition get_bridge_priority (id : bridge_identifier_t) : Z :=
  GET_PRIORITY_FROM_IDENTIFIER (priority id).
Definition set_bridge_priority (pri : Z) (id : bridge_identifier_t) : bridge_identifier_t :=
  id <| priority ::= SET_PRIORITY_IN_IDENTIFIER pri |>.

Definition MSTP_IN_set_msti_bridge_config (t : tree_id) (bridge_priority : Z) : M Z :=
  tree ← get_tree t;
  if 15 <? bridge_priority then mret (-1) else
  let valuePri := u8 (Z.shiftl bridge_priority 4) in
  if get_bridge_priority (BridgeIdentifier tree) =? valuePri then mret 0 else
  let id := set_bridge_priority valuePri (BridgeIdentifier tree) in
  upd_tree t (λ x, x <| BridgeIdentifier := id |>
                     <| BridgePriority ::= set_all_BridgePriority id |>) ;;
  FOREACH_PTP_IN_TREE t (λ k,
    upd_ptp k (λ x, x <| selected := false |> <| reselect := true |>)) ;;
  mret 0.

(** ** 12.8.2.3: CIST port parameters *)

Record CIST_PortConfig := mk_CIST_PortConfig {
  pcfg_admin_external_port_path_cost : option Z;
  pcfg_admin_edge_port : option bool;
  pcfg_auto_edge_port : option bool;
  pcfg_admin_p2p : option Z;
  pcfg_restricted_role : option bool;
  pcfg_restricted_tcn : option bool;
  pcfg_bpdu_guard_port : option bool;
  pcfg_network_port : option bool;
  pcfg_dont_txmt : option bool;
  pcfg_bpdu_filter_port : option bool
}.

(** Unknown values of [admin_p2p] are replaced by [p2pAuto]. *)
Definition sanitize_p2p (v : Z) : Z :=
  if (v =? p2pAuto) || (v =? p2pForceTrue) || (v =? p2pForceFalse) then v else p2pAuto.

Definition bool_changes (v : option bool) (current : bool) : bool :=
  match v with Some x => negb (Bool.eqb x current) | None => false end.

(** The external path cost; whether it changed. *)
Definition set_external_cost (p : port_id) (v : option Z) : M bool :=
  match v with
  | None => mret false
  | Some admin =>
      prt ← get_port p;
      let cost := path_cost admin (compute_pcost (speed (prt_sysdeps prt))) in
      upd_port p (λ x, x <| AdminExternalPortPathCost := admin |>
                         <| ExternalPortPathCost := cost |>) ;;
      if ExternalPortPathCost prt ≠? cost then
        k ← GET_CIST_PTP_FROM_PORT p; (* 12.8.2.3.4 *)
        upd_ptp k (λ x, x <| selected := false |> <| reselect := true |>) ;;
        mret true
      else mret false
  end.

Definition set_admin_p2p (p : port_id) (v : option Z) : M bool :=
  match v with
  | None => mret false
  | Some admin =>
      prt ← get_port p;
      let new_p2p := p2p_of admin (duplex (prt_sysdeps prt)) in
      upd_port p (λ x, x <| AdminP2P := admin |> <| operPointToPointMAC := new_p2p |>) ;;
      mret (negb (Bool.eqb (operPointToPointMAC prt) new_p2p))
  end.

Definition set_admin_edge (p : port_id) (v : option bool) : M bool :=
  prt ← get_port p;
  if bool_changes v (AdminEdgePort prt) then
    upd_port p (λ x, x <| AdminEdgePort ::= λ b, default b v |>) ;;
    BDSM_begin p ;;
    mret true
  else mret false.

(** The flags whose change makes the machines run again ... *)
Definition set_protocol_flags (p : port_id) (cfg : CIST_PortConfig) : M bool :=
  prt ← get_port p;
  upd_port p (λ x, x
    <| AutoEdge ::= λ b, default b (pcfg_auto_edge_port cfg) |>
    <| restrictedRole ::= λ b, default b (pcfg_restricted_role cfg) |>
    <| restrictedTcn ::= λ b, default b (pcfg_restricted_tcn cfg) |>) ;;
  mret (bool_changes (pcfg_auto_edge_port cfg) (AutoEdge prt)
        || bool_changes (pcfg_restricted_role cfg) (restrictedRole prt)
        || bool_changes (pcfg_restricted_tcn cfg) (restrictedTcn prt)).

Definition set_network_port (p : port_id) (v : option bool) : M bool :=
  prt ← get_port p;
  if bool_changes v (NetworkPort prt) then
    upd_port p (λ x, x
      <| NetworkPort ::= λ b, default b v |>
      <| BaInconsistent ::= λ b, if default (NetworkPort prt) v then b else false |>) ;;
    mret true
  else mret false.

(** ... and those whose change does not. *)
Definition set_bpdu_flags (p : port_id) (cfg : CIST_PortConfig) : M unit :=
  upd_port p (λ x, x
    <| BpduGuardPort ::= λ b, default b (pcfg_bpdu_guard_port cfg) |>
    <| dontTxmtBpdu ::= λ b, default b (pcfg_dont_txmt cfg) |>
    <| num_rx_bpdu_filtered ::=
         λ n, if bool_changes (pcfg_bpdu_filter_port cfg) (bpduFilterPort x) then 0 else n |>
    <| bpduFilterPort ::= λ b, default b (pcfg_bpdu_filter_port cfg) |>).

Definition MSTP_IN_set_cist_port_config (p : port_id) (cfg : CIST_PortConfig) : M Z :=
  if out_of_range (pcfg_admin_external_port_path_cost cfg) 0 MAX_PATH_COST then mret (-1) else
  c1 ← set_external_cost p (pcfg_admin_external_port_path_cost cfg);
  c2 ← set_admin_p2p p (sanitize_p2p <$> pcfg_admin_p2p cfg);
  c3 ← set_admin_edge p (pcfg_admin_edge_port cfg);
  c4 ← set_protocol_flags p cfg;
  c5 ← set_network_port p (pcfg_network_port cfg);
  set_bpdu_flags p cfg ;;
  prt ← get_port p;
  when ((c1 || c2 || c3 || c4 || c5) && portEnabled prt) br_state_machines_run ;;
  mret 0.

(** ** 12.8.2.4: MSTI port parameters *)

Record MSTI_PortConfig := mk_MSTI_PortConfig {
  mcfg_admin_internal_port_path_cost : option Z;
  mcfg_port_priority : option Z
}.

Definition set_port_priority (k : ptp_id) (v : option Z) : M bool :=
  match v with
  | None => mret false
  | Some pri =>
      ptp ← get_ptp k;
      let valuePri := u8 (Z.shiftl pri 4) in
      if GET_PRIORITY_FROM_IDENTIFIER (portId ptp) =? valuePri then mret false
      else upd_ptp k (λ x, x <| portId ::= SET_PRIORITY_IN_IDENTIFIER valuePri |>) ;; mret true
  end.

Definition set_internal_cost (k : ptp_id) (v : option Z) : M bool :=
  match v with
  | None => mret false
  | Some admin =>
      prt ← get_port (ptp_port k);
      ptp ← get_ptp k;
      let cost := path_cost admin (compute_pcost (speed (prt_sysdeps prt))) in
      upd_ptp k (λ x, x <| AdminInternalPortPathCost := admin |>
                        <| InternalPortPathCost := cost |>) ;;
      mret (InternalPortPathCost ptp ≠? cost)
  end.

Definition MSTP_IN_set_msti_port_config (k : ptp_id) (cfg : MSTI_PortConfig) : M Z :=
  prt ← get_port (ptp_port k);
  if out_of_range (mcfg_port_priority cfg) 0 15 then mret (-1) else
  if out_of_range (mcfg_admin_internal_port_path_cost cfg) 0 MAX_PATH_COST then mret (-1) else
  c1 ← set_port_priority k (mcfg_port_priority cfg);
  c2 ← set_internal_cost k (mcfg_admin_internal_port_path_cost cfg);
  when ((c1 || c2) && portEnabled prt)
    (upd_ptp k (λ x, x <| selected := false |> <| reselect := true |>) ;; (* 12.8.2.4.4 *)
     br_state_machines_run) ;;
  mret 0.

(** ** 12.8.2.5: force BPDU migration check *)

Definition MSTP_IN_port_mcheck (p : port_id) : M Z :=
  br ← get_br;
  k ← GET_CIST_PTP_FROM_PORT p;
  prt ← get_port p;
  when (rstpVersion br && portEnabled prt && bridgeEnabled br)
    (upd_port p (λ x, x <| mcheck := true |>) ;;
     upd_ptp k (λ x, x <| proposing := true |>) ;;
     br_state_machines_run) ;;
  mret 0.

(** ** 12.10.3.8: VID to FID allocation

    The tables are C arrays: reading outside of them is a fault. *)

Definition recalc_and_begin (stack : list Z) : M unit :=
  RecalcConfigDigest stack ;; br_state_machines_begin.

Definition MSTP_IN_set_vid2fid (stack : list Z) (vid fid : Z) : M bool :=
  if (vid <? 1) || (MAX_VID <? vid) || (MAX_FID <? fid) then mret false else
  br ← get_br;
  new ← of_option (array_get (fid2mstid br) fid);
  old ← of_option (vid2mstid br vid);
  upd_br (λ x, x <| vid2fid ::= <[Z.to_nat vid := fid]> |>) ;;
  when (new ≠? old) (recalc_and_begin stack) ;;
  mret true.

(** One VID of the loop: the value kept in the caller's array, and whether its
    MSTID changes. *)
Definition check_vid2fid (br : bridge_t) (vids2fids : list Z) (vid : Z) : option (Z * bool) :=
  fid ← array_get vids2fids vid;
  old_fid ← array_get (vid2fid br) vid;
  if MAX_FID <? fid then Some (old_fid, false) (* Incorrect value == keep prev value *)
  else
    new ← array_get (fid2mstid br) fid;
    old ← array_get (fid2mstid br) old_fid;
    Some (fid, new ≠? old).

Definition MSTP_IN_set_all_vids2fids (stack : list Z) (vids2fids : list Z) : M bool :=
  br ← get_br;
  first ← of_option (array_get vids2fids 0);
  checked ← of_option (mapM (check_vid2fid br vids2fids) (zrange 1 MAX_VID));
  upd_br (λ x, x <| vid2fid := first :: map fst checked |>) ;;
  when (existsb snd checked) (recalc_and_begin stack) ;;
  mret true.

(** ** 12.12.2.2: FID to MSTID allocation *)

Definition MSTP_IN_set_fid2mstid (stack : list Z) (fid mstid : Z) : M bool :=
  if MAX_FID <? fid then mret false else
  l ← trees_of_bridge;
  if negb (bool_decide (mstid ∈ l)) then mret false else
  br ← get_br;
  old ← of_option (array_get (fid2mstid br) fid);
  when (old ≠? mstid)
    (upd_br (λ x, x <| fid2mstid ::= <[Z.to_nat fid := mstid]> |>) ;;
     (* check if there are VLANs using this FID *)
     used ← of_option (mapM (array_get (vid2fid br)) (zrange 1 MAX_VID));
     when (bool_decide (fid ∈ used)) (recalc_and_begin stack)) ;;
  mret true.

(** The loop over the FIDs: [None] when the MSTID of one of them has no tree. *)
Fixpoint check_fids2mstids (trees old new : list Z) : option (list Z) :=
  match old, new with
  | o :: old', n :: new' =>
      let MSTID := if MAX_MSTID <? n then o else n in
      if bool_decide (MSTID ∈ trees)
      then cons MSTID <$> check_fids2mstids trees old' new'
      else None
  | _, _ => Some []
  end.

Definition MSTP_IN_set_all_fids2mstids (stack : list Z) (fids2mstids : list Z) : M bool :=
  l ← trees_of_bridge;
  br ← get_br;
  if (length fids2mstids <? length (fid2mstid br))%nat then fault else
  match check_fids2mstids l (fid2mstid br) fids2mstids with
  | None => mret false
  | Some MSTID =>
      prev ← of_option (vid2mstid_table br);
      upd_br (λ x, x <| fid2mstid := MSTID |>) ;;
      br' ← get_br;
      new ← of_option (vid2mstid_table br');
      when (prev !=? new) (recalc_and_begin stack) ;;
      mret true
  end.

(** ** 12.12.1: the MSTI list *)

(** At most [MAX_IMPLEMENTATION_MSTIS] + 1 entries, the CIST included. *)
Definition MSTP_IN_get_mstilist : M (list Z) :=
  l ← trees_of_bridge;
  mret (take (Z.to_nat (MAX_IMPLEMENTATION_MSTIS + 1)) l).

(** Where to insert [MSTID]: the last tree with a smaller one. *)
Definition find_tree_after (l : list tree_id) (MSTID : Z) : option tree_id :=
  foldl (λ after t, if ncmp16 t MSTID <? 0 then Some t else after) None l.

(** Per-tree ports of the new tree, next to those of [tree_after]. *)
Fixpoint create_ptps_of_tree (t tree_after : tree_id) (l : list port_id) : M bool :=
  match l with
  | [] => mret true
  | p :: l' =>
      k ← create_ptp t p;
      match (k : option ptp_id) with
      | None => mret false
      | Some _ =>
          upd_port p (λ x, x <| prt_trees ::= insert_after tree_after t |>) ;;
          upd_tree t (λ x, x <| tree_ports ::= λ s, s ++ [p] |>) ;;
          create_ptps_of_tree t tree_after l'
      end
  end.

Definition MSTP_IN_create_msti (mstid : Z) : M bool :=
  if (mstid <? 1) || (MAX_MSTID <? mstid) then mret false else
  l ← trees_of_bridge;
  if bool_decide (mstid ∈ l) then mret true (* yes, it is success *) else
  match find_tree_after l mstid with
  | None => mret false
  | Some tree_after =>
      if MAX_IMPLEMENTATION_MSTIS <? Z.of_nat (length l) then mret false else
      c ← GET_CIST_TREE;
      cist ← get_tree c;
      new_tree ← create_tree (mac_address (BridgeIdentifier cist)) mstid;
      match (new_tree : option tree_id) with
      | None => mret false
      | Some t =>
          after_t ← get_tree tree_after;
          ok ← create_ptps_of_tree t tree_after (tree_ports after_t);
          if negb ok then FOREACH_PTP_IN_TREE t unlink_ptp ;; mret false
          else
            upd_br (λ x, x <| br_trees ::= insert_after tree_after t |>) ;;
            tree_state_machines_begin t ;;
            mret true
      end
  end.

Definition MSTP_IN_delete_msti (mstid : Z) : M bool :=
  if (mstid <? 1) || (MAX_MSTID <? mstid) then mret false else
  br ← get_br;
  if bool_decide (mstid ∈ fid2mstid br) then mret false else
  if negb (bool_decide (mstid ∈ br_trees br)) then mret true (* yes, it is success *) else
  upd_br (λ x, x <| br_trees ::= list_del mstid |>) ;;
  FOREACH_PTP_IN_TREE mstid unlink_ptp ;;
  free_tree mstid ;;
  br_state_machines_run ;;
  mret true.

(** ** 12.12.3.4: MST Configuration Identifier *)

(** What [strncpy] and [strncmp] see of a C string, at most [n] characters. *)
Fixpoint c_string (n : nat) (s : list Z) : list Z :=
  match n, s with
  | S n', c :: s' => if c =? 0 then [] else c :: c_string n' s'
  | _, _ => []
  end.

Definition pad_zeros (n : nat) (s : list Z) : list Z := s ++ replicate (n - length s) 0.

Definition MSTP_IN_set_mst_config_id (revision : Z) (name : list Z) : M unit :=
  br ← get_br;
  let id := MstConfigId br in
  let s := c_string CONFIGURATION_NAME_LEN name in
  when ((s !=? c_string CONFIGURATION_NAME_LEN (configuration_name id))
        || (revision ≠? revision_level id))
    (upd_br (λ x, x <| MstConfigId ::= λ c, c
       <| revision_level := revision |>
       <| configuration_name := pad_zeros CONFIGURATION_NAME_LEN s |> |>) ;;
     br_state_machines_begin).
