(* ===== verification/Kernel.v ===== *)
(** The daemon as a whole: the list of its bridges, the monad its functions run in,
    and the questions it asks the kernel (netif_utils.c).

    A [daemon] holds one world per bridge object, addressed by its pointer; what a
    [world] keeps of the outside (clock readings, allocation outcomes, actions) belongs
    to the daemon, and is handed to the bridge for the time of a call ([in_bridge]). *)
From S2P Require Import Prelude Types Monad Clib.

Definition br_ptr : Type := nat.

Record daemon := mk_daemon {
  d_heap : gmap br_ptr world;
  d_bridges : list br_ptr;      (* static LIST_HEAD(bridges) *)
  d_out : list (br_ptr * event);  (* with the bridge that acts *)
  d_clock : list timespec;
  d_calloc : list bool;
  d_calls : nat;                (* system calls made so far *)
  d_log_level : Z
}.
#[export] Instance eta_daemon : Eta daemon := λ r,
  mk_daemon (d_heap r) (d_bridges r) (d_out r) (d_clock r) (d_calloc r) (d_calls r)
    (d_log_level r).
#[export] Instance set_d_heap : Setter d_heap := ltac:(build_setter).
#[export] Instance set_d_bridges : Setter d_bridges := ltac:(build_setter).
#[export] Instance set_d_out : Setter d_out := ltac:(build_setter).
#[export] Instance set_d_clock : Setter d_clock := ltac:(build_setter).
#[export] Instance set_d_calloc : Setter d_calloc := ltac:(build_setter).
#[export] Instance set_d_calls : Setter d_calls := ltac:(build_setter).
#[export] Instance set_d_log_level : Setter d_log_level := ltac:(build_setter).

(** ** Computations of the daemon *)

Inductive doutcome (A : Type) :=
| DDone (a : A) (d : daemon)
| DFault
| DOutOfFuel.
Arguments DDone {A} a d.
Arguments DFault {A}.
Arguments DOutOfFuel {A}.

Definition D (A : Type) : Type := daemon → doutcome A.

#[export] Instance D_ret : MRet D := λ A a d, DDone a d.
#[export] Instance D_bind : MBind D := λ A B f m d,
  match m d with
  | DDone a d' => f a d'
  | DFault => DFault
  | DOutOfFuel => DOutOfFuel
  end.

Definition dskip : D unit := mret tt.
Definition dfault {A} : D A := λ _, DFault.
Definition dwhen (b : bool) (m : D unit) : D unit := if b then m else dskip.

(** [calloc] of a bridge or a port object. *)
Definition dcalloc : D bool := λ d,
  match d_calloc d with
  | [] => DDone true d
  | b :: l => DDone b (d <| d_calloc := l |>)
  end.

(** The bridge object with what the daemon lends it, and the way back. *)
Definition lend (d : daemon) (w : world) : world :=
  w <| w_out := [] |> <| w_clock := d_clock d |> <| w_calloc := d_calloc d |>.
Definition give_back (b : br_ptr) (w : world) (d : daemon) : daemon :=
  d <| d_heap ::= <[b := w]> |> <| d_out ::= λ l, l ++ map (pair b) (w_out w) |>
    <| d_clock := w_clock w |>
    <| d_calloc := w_calloc w |>.

Definition in_bridge {A} (b : br_ptr) (m : M A) : D A := λ d,
  match d_heap d !! b with
  | None => DFault
  | Some w =>
      match m (lend d w) with
      | Done a w' => DDone a (give_back b w' d)
      | Fault => DFault
      | OutOfFuel => DOutOfFuel
      end
  end.

(** Reading through a [bridge_t *] or a [port_t *]; a port is known by its bridge,
    [prt->bridge], and its address. *)
Definition read_br (b : br_ptr) : D bridge_t := λ d,
  match d_heap d !! b with Some w => DDone (w_br w) d | None => DFault end.
Definition read_port (b : br_ptr) (p : port_id) : D port_t := λ d,
  match d_heap d !! b with
  | Some w => match w_ports w !! p with Some x => DDone x d | None => DFault end
  | None => DFault
  end.

(** An address that is not in use. *)
Definition fresh_addr {A} (m : gmap nat A) : nat := S (foldr Nat.max 0%nat (map fst (map_to_list m))).

Definition bridges : D (list br_ptr) := λ d, DDone (d_bridges d) d.

Fixpoint dfor_each {A} (l : list A) (body : A → D unit) : D unit :=
  match l with
  | [] => dskip
  | x :: l' => body x ;; dfor_each l' body
  end.

(** A loop that breaks at the first element the body accepts. *)
Fixpoint dfind {A} (l : list A) (body : A → D bool) : D (option A) :=
  match l with
  | [] => mret None
  | x :: l' => b ← body x; if (b : bool) then mret (Some x) else dfind l' body
  end.

(** ** The kernel

    Its answers may differ from one call to the next: each takes the number of system
    calls made so far.  [k_stack] is the content of the uninitialised stack buffers. *)
Record kernel := mk_kernel {
  if_indextoname : nat → Z → option string;
  SIOCGIFHWADDR : nat → string → option (list Z);   (* sa_data *)
  SIOCGIFFLAGS : nat → string → option Z;           (* ifr_flags, a short *)
  SIOCETHTOOL : nat → string → option (Z * Z);      (* ETHTOOL_GSET: speed and duplex *)
  sysfs_read : nat → string → option (list Z);      (* None: cannot be opened or read *)
  sysfs_access : nat → string → bool;
  k_stack : nat → list Z
}.

Section netif.
Context (K : kernel).

Definition syscall {A} (f : nat → A) : D A := λ d,
  DDone (f (d_calls d)) (d <| d_calls ::= S |>).

(** ** netif_utils.c *)

(** [strncpy(ifr.ifr_name, ifname, IFNAMSIZ - 1)] on a zeroed structure *)
Definition ifr_name (ifname : string) : string := strncpy (IFNAMSIZ - 1) ifname.

(** [None] is the result -1. *)
Definition get_hwaddr (ifname : string) : D (option (list Z)) :=
  r ← syscall (λ n, SIOCGIFHWADDR K n (ifr_name ifname));
  mret (take ETH_ALEN <$> (r : option (list Z))).

Definition get_flags (ifname : string) : D Z :=
  r ← syscall (λ n, SIOCGIFFLAGS K n (ifr_name ifname));
  mret (default (-1) r).

Definition ethtool_get_speed_duplex (ifname : string) : D (option (Z * Z)) :=
  r ← syscall (λ n, SIOCETHTOOL K n (ifr_name ifname));
  mret ((λ '(speed, duplex), (s32 speed, duplex)) <$> (r : option (Z * Z))).

Definition index_to_name (index : Z) : D (option string) := syscall (λ n, if_indextoname K n index).
Definition index_to_port_name (index : Z) : D (option string) :=
  syscall (λ n, if_indextoname K n index).

Definition SYSFS_CLASS_NET : string := "/sys/class/net".

Definition is_bridge (if_name : string) : D bool :=
  syscall (λ n, sysfs_access K n (SYSFS_CLASS_NET ++ "/" ++ if_name ++ "/bridge")).

(** What [get_bridge_portno] makes of the content of the file. *)
Definition parse_portno (contents : list Z) : Z :=
  let buf := take 127 contents in
  let l := length buf in
  if (l =? 0)%nat then -1 else
  if (l =? 127)%nat then -1 else
  let buf := if default 0 (last buf) =? 10 then removelast buf else buf in
  let '(v, rest) := strtoul 0 (until_nul buf) in
  let res := s64 v in
  if (0 <? Z.of_nat (length rest)) || (INT_MAX <? res) then -1 else s32 res.

Definition get_bridge_portno (if_name : string) : D Z :=
  r ← syscall (λ n, sysfs_read K n (SYSFS_CLASS_NET ++ "/" ++ if_name ++ "/brport/port_no"));
  mret (match (r : option (list Z)) with None => -1 | Some contents => parse_portno contents end).
End netif.

(** ** The port number file

    The kernel writes the number of a port as ["0x%x\n"]. *)

Lemma until_nul_no_nul l : Forall (λ c, c ≠ 0) l → until_nul l = l.
Proof.
  induction 1 as [|c l Hc _ IH]; cbn; [done|]. destruct (Z.eqb_spec c 0); [done|]. by rewrite IH.
Qed.

Lemma print_digits_chars fuel base v acc : 0 < base → Forall (λ c, c ≠ 0) acc →
  Forall (λ c, c ≠ 0) (print_digits fuel base v acc) ∧
  (length (print_digits fuel base v acc) <= fuel + length acc)%nat.
Proof.
  intros Hb. revert v acc. induction fuel as [|fuel IH]; intros v acc Ha; cbn [print_digits]; [done|].
  assert (Hc : Forall (λ c, c ≠ 0) (digit_char (v mod base) :: acc)).
  { constructor; [|done]. pose proof (Z.mod_pos_bound v base Hb). unfold digit_char.
    destruct (_ <? _); lia. }
  destruct (v / base =? 0); [split; [done|cbn; lia]|].
  destruct (IH (v / base) _ Hc) as [H1 H2]. split; [done|]. cbn [length] in H2. lia.
Qed.

(** The number of a port is what get_bridge_portno reads from the text that the kernel
    prints for it. *)
Theorem portno_roundtrip v : 0 <= v <= INT_MAX → parse_portno (print_0x v ++ [10]) = v.
Proof.
  intros Hv. destruct (print_digits_chars 64 16 v [] ltac:(lia) ltac:(constructor)) as [Hc Hl].
  unfold parse_portno. remember (print_0x v) as text eqn:Et.
  assert (Ht : Forall (λ c, c ≠ 0) text) by (rewrite Et; by repeat constructor).
  assert (Hlen : (2 <= length text <= 66)%nat) by (rewrite Et; unfold print_0x; cbn [length] in *; lia).
  rewrite take_ge by (rewrite length_app; cbn [length]; lia). rewrite length_app, last_snoc. cbn [length].
  destruct (Nat.eqb_spec (length text + 1) 0); [lia|]. destruct (Nat.eqb_spec (length text + 1) 127); [lia|].
  change (default 0 (Some 10) =? 10) with true. cbv iota. rewrite removelast_last, until_nul_no_nul by done.
  rewrite <- (app_nil_r text), Et. unfold INT_MAX in *. rewrite strtoul_print_0x by (done || lia).
  assert (Hs : s64 v = v) by (unfold s64; rewrite Z.mod_small by lia; lia). rewrite Hs.
  destruct (Z.ltb_spec (2 ^ 31 - 1) v); [lia|]. cbn [length].
  change ((0 <? Z.of_nat 0) || false) with false. cbv iota.
  unfold s32. rewrite Z.mod_small by lia. lia.
Qed.

Lemma portno_roundtrip_witness : parse_portno (print_0x 7 ++ [10]) = 7.
Proof. apply portno_roundtrip. split; [by apply Z.leb_le|by apply Z.leb_le]. Defined.
