(* ===== verification/Track.v ===== *)
(** bridge_track.c: the bridges the daemon knows, the interfaces that come and go, the
    frames received, and the commands of the control socket. *)
From S2P Require Import Prelude Types Monad Clib Vectors Outputs Kernel Wire Bridge Mgmt.

(** ** driver_deps.c: the hooks around creation and deletion *)

Definition driver_create_bridge (b : br_ptr) (macaddr : list Z) : bool := true.
Definition driver_create_port (p : port_id) (portno : Z) : bool := true.
Definition driver_delete_bridge (b : br_ptr) : D unit := dskip.
Definition driver_delete_port (p : port_id) : D unit := dskip.

(** ** Allocation of bridges and ports *)

Definition blank_world : world := mk_world zero_bridge ∅ ∅ ∅ [] [] [].
Definition new_bridge : D br_ptr := λ d,
  let b := fresh_addr (d_heap d) in DDone b (d <| d_heap ::= <[b := blank_world]> |>).
Definition free_bridge (b : br_ptr) : D unit := λ d, DDone tt (d <| d_heap ::= delete b |>).

(** The port object [calloc] returns for the bridge. *)
Definition new_port (b : br_ptr) : D port_id := λ d,
  match d_heap d !! b with
  | None => DFault
  | Some w =>
      let p := fresh_addr (w_ports w) in
      (in_bridge b (alloc_port p zero_port) ;; mret p) d
  end.

Definition upd_br_sysdeps (b : br_ptr) (f : sysdep_br_data_t → sysdep_br_data_t) : D unit :=
  in_bridge b (upd_br (λ x, x <| br_sysdeps ::= f |>)).
Definition upd_if_sysdeps (b : br_ptr) (p : port_id) (f : sysdep_if_data_t → sysdep_if_data_t) : D unit :=
  in_bridge b (upd_port p (λ x, x <| prt_sysdeps ::= f |>)).

Definition upd_bridges (f : list br_ptr → list br_ptr) : D unit := λ d,
  DDone tt (d <| d_bridges ::= f |>).

(** ** Looking up *)

Definition find_br (idx : Z) : D (option br_ptr) :=
  l ← bridges;
  dfind l (λ b, br ← read_br b; mret (br_if_index (br_sysdeps br) =? idx)).

Definition find_if (b : br_ptr) (idx : Z) : D (option port_id) :=
  br ← read_br b;
  dfind (br_ports br) (λ p, prt ← read_port b p; mret (if_index (prt_sysdeps prt) =? idx)).

Section track.
Context (K : kernel).

Definition stack_buffer : D (list Z) := syscall (k_stack K).

(** ** Creating and deleting *)

Definition create_br (idx : Z) : D (option br_ptr) :=
  ok ← dcalloc;
  if negb ok then mret None else
  b ← new_bridge;
  let err := free_bridge b ;; mret None in
  upd_br_sysdeps b (λ s, s <| br_if_index := idx |>) ;;
  name ← index_to_name K idx;
  match (name : option string) with
  | None => err
  | Some name =>
      upd_br_sysdeps b (λ s, s <| br_name := name |>) ;;
      mac ← get_hwaddr K name;
      match (mac : option (list Z)) with
      | None => err
      | Some mac =>
          upd_br_sysdeps b (λ s, s <| br_macaddr := mac |>) ;;
          if negb (driver_create_bridge b mac) then err else
          stack ← stack_buffer;
          created ← in_bridge b (MSTP_IN_bridge_create stack mac);
          if negb (created : bool) then err else
          upd_bridges (λ l, l ++ [b]) ;;
          mret (Some b)
      end
  end.

Definition create_if (b : br_ptr) (idx : Z) : D (option port_id) :=
  ok ← dcalloc;
  if negb ok then mret None else
  p ← new_port b;
  let err := in_bridge b (free_port p) ;; mret None in
  upd_if_sysdeps b p (λ s, s <| if_index := idx |>) ;;
  n ← index_to_port_name K idx;
  match (n : option string) with
  | None => err
  | Some ifname =>
      upd_if_sysdeps b p (λ s, s <| name := ifname |>) ;;
      mac ← get_hwaddr K ifname;
      match (mac : option (list Z)) with
      | None => err
      | Some mac =>
          upd_if_sysdeps b p (λ s, s <| macaddr := mac |>) ;;
          portno ← get_bridge_portno K ifname;
          if portno <? 0 then err else
          if (portno =? 0) || (MAX_PORT_NUMBER <? portno) then err else
          if negb (driver_create_port p portno) then err else
          created ← in_bridge b (MSTP_IN_port_create_and_add_tail p (u16 portno));
          if negb (created : bool) then err else mret (Some p)
      end
  end.

Definition delete_if (b : br_ptr) (p : port_id) : D unit :=
  driver_delete_port p ;;
  in_bridge b (MSTP_IN_delete_port p) ;;
  in_bridge b (free_port p).

Definition delete_if_byindex (b : br_ptr) (idx : Z) : D bool :=
  p ← find_if b idx;
  match (p : option port_id) with
  | None => mret false
  | Some p => delete_if b p ;; mret true
  end.

Definition delete_br_byindex (idx : Z) : D bool :=
  b ← find_br idx;
  match (b : option br_ptr) with
  | None => mret false
  | Some b =>
      upd_bridges (list_del b) ;;
      driver_delete_bridge b ;;
      in_bridge b MSTP_IN_delete_bridge ;;
      free_bridge b ;;
      mret true
  end.

Definition bridge_one_second : D unit :=
  l ← bridges;
  dfor_each l (λ b, br ← read_br b; dwhen (stp_enabled br) (in_bridge b MSTP_IN_one_second)).

(** ** Interfaces that change *)

(** The new address if it differs from [addr]. *)
Definition check_mac_address (ifname : string) (addr : list Z) : D (option (list Z)) :=
  temp_addr ← get_hwaddr K ifname;
  mret (match (temp_addr : option (list Z)) with
        | None => None
        | Some a => if memcmp addr a =? 0 then None else Some a
        end).

(** [check_mac_address] on the bridge, and the notification of its change. *)
Definition update_br_address (b : br_ptr) : D unit :=
  br ← read_br b;
  new ← check_mac_address (br_name (br_sysdeps br)) (br_macaddr (br_sysdeps br));
  match (new : option (list Z)) with
  | None => dskip
  | Some mac =>
      upd_br_sysdeps b (λ s, s <| br_macaddr := mac |>) ;;
      in_bridge b (MSTP_IN_set_bridge_address mac)
  end.

Definition set_br_up (b : br_ptr) (up : bool) : D unit :=
  br ← read_br b;
  let changed := negb (Bool.eqb up (br_up (br_sysdeps br))) in
  dwhen changed (upd_br_sysdeps b (λ s, s <| br_up := up |>)) ;;
  update_br_address b ;;
  br' ← read_br b;
  dwhen (changed && stp_enabled br')
    (in_bridge b (MSTP_IN_set_bridge_enable (br_up (br_sysdeps br')))).

(** The speed and duplex of an interface that is up: 10 Mb/s and half duplex when
    they are not known. *)
Definition speed_duplex (r : option (Z * Z)) : Z * Z :=
  match r with
  | None => (10, 0)
  | Some (speed, duplex) =>
      (if speed <? 0 then 10 else speed, if duplex <? 0 then 0 else duplex)
  end.

(** When the address of a port has changed, that of its bridge may have too. *)
Definition update_if_address (b : br_ptr) (p : port_id) : D unit :=
  prt ← read_port b p;
  new ← check_mac_address (name (prt_sysdeps prt)) (macaddr (prt_sysdeps prt));
  match (new : option (list Z)) with
  | None => dskip
  | Some mac => upd_if_sysdeps b p (λ s, s <| macaddr := mac |>) ;; update_br_address b
  end.

Definition set_if_up (b : br_ptr) (p : port_id) (goes_up : bool) : D unit :=
  update_if_address b p ;;
  prt ← read_port b p;
  let s := prt_sysdeps prt in
  changed ←
    (if goes_up then
       r ← ethtool_get_speed_duplex K (name s);
       let '(new_speed, new_duplex) := speed_duplex r in
       upd_if_sysdeps b p (λ s, s <| speed := new_speed |> <| duplex := new_duplex |>
                                  <| up := true |>) ;;
       mret ((new_speed ≠? speed s) || (new_duplex ≠? duplex s) || negb (up s))
     else
       upd_if_sysdeps b p (λ s, s <| up := false |>) ;;
       mret (up s));
  br ← read_br b;
  x ← read_port b p;
  dwhen ((changed : bool) && stp_enabled br)
    (in_bridge b (MSTP_IN_set_port_enable p (up (prt_sysdeps x)) (speed (prt_sysdeps x))
                    (duplex (prt_sysdeps x)))).

Definition IFF_UP : Z := 1.
Definition IFF_RUNNING : Z := 64.
Definition has_flag (flags f : Z) : bool := negb (Z.land flags f =? 0).

(** The bridge, created when it is not known yet; [None] is the result -2. *)
Definition find_or_create_br (idx : Z) : D (option br_ptr) :=
  b ← find_br idx;
  match (b : option br_ptr) with
  | Some b => mret (Some b)
  | None => create_br idx
  end.

(** The port of the interface: an unknown one is first removed from every other
    bridge that has it, up to the first. *)
Definition find_or_create_if (b : br_ptr) (idx : Z) : D (option port_id) :=
  p ← find_if b idx;
  match (p : option port_id) with
  | Some p => mret (Some p)
  | None =>
      l ← bridges;
      dfind l (λ other_br, if other_br ==? b then mret false else delete_if_byindex other_br idx) ;;
      create_if b idx
  end.

(** The interface is a port of bridge [b]. *)
Definition notify_port (b : br_ptr) (idx : Z) (newlink running : bool) : D Z :=
  if newlink then
    p ← find_or_create_if b idx;
    match (p : option port_id) with
    | None => mret (-1)
    | Some p => set_if_up b p running ;; mret 0
    end
  else
    p ← find_if b idx;
    match (p : option port_id) with
    | None => mret (-1) (* DELLINK for an unknown port *)
    | Some p => delete_if b p ;; mret 0
    end.

Definition bridge_notify (br_index idx : Z) (newlink : bool) (flags : Z) : D Z :=
  let up := has_flag flags IFF_UP in
  let running := up && has_flag flags IFF_RUNNING in
  if (0 <=? br_index) && (br_index ≠? idx) then
    b ← find_or_create_br br_index;
    match (b : option br_ptr) with
    | None => mret (-2)
    | Some b =>
        br ← read_br b;
        br_flags ← get_flags K (br_name (br_sysdeps br));
        dwhen (0 <=? br_flags) (set_br_up b (has_flag br_flags IFF_UP)) ;;
        notify_port b idx newlink running
    end
  else if negb newlink then
    (* the interface is unregistered: a bridge, or a port of one *)
    deleted ← delete_br_byindex idx;
    (if (deleted : bool) then mret 0
     else l ← bridges; dfind l (λ b, delete_if_byindex b idx) ;; mret 0)
  else if br_index =? idx then
    b ← find_or_create_br br_index;
    match (b : option br_ptr) with
    | None => mret (-2)
    | Some b => set_br_up b up ;; mret 0
    end
  else mret 0.

Definition bridge_track_fini : D unit :=
  l ← bridges; dfor_each l (λ b, set_br_up b false).
End track.
