(* ===== verification/Control.v ===== *)
(** The two ways into the daemon besides netlink: the frames of the packet socket
    (bridge_bpdu_rcv) and the requests of the control socket, from the CTL_xxx
    functions of bridge_track.c to the dispatch, the access check and the reply of
    ctl_socket_server.c. *)
From S2P Require Import Prelude Types Monad Clib Vectors Outputs Kernel Wire Bridge Mgmt Track.

(** ** Frames *)

Definition LLC_SAP_BSPAN : Z := 0x42.
Definition LLC_PDU_TYPE_U : Z := 3.
Definition ETH_DATA_LEN : Z := 1500.
Definition ETH_HLEN : Z := 14.
Definition bridge_group_address : list Z := [0x01; 0x80; 0xc2; 0; 0; 0].

Record llc_header := mk_llc_header {
  dest_addr : list Z;
  src_addr : list Z;
  h_len8023 : Z;
  d_sap : Z;
  s_sap : Z;
  llc_ctrl : Z
}.
Definition sizeof_llc_header : Z := 17.

Definition put_llc_header (h : llc_header) : list Z :=
  dest_addr h ++ src_addr h ++ be_bytes 2 (h_len8023 h) ++ be_bytes 1 (d_sap h)
  ++ be_bytes 1 (s_sap h) ++ be_bytes 1 (llc_ctrl h).

Definition get_llc_header : reader llc_header :=
  dst ← get_octets ETH_ALEN; src ← get_octets ETH_ALEN; l ← get_be 2;
  d ← get_be 1; s ← get_be 1; c ← get_be 1; mret (mk_llc_header dst src l d s c).

(** The octets MSTP_OUT_tx_bpdu hands to the packet socket for an [EvSend] action. *)
Definition sent_frame (src : list Z) (len8023 : Z) (b : bpdu_t) (size : Z) : list Z :=
  put_llc_header (mk_llc_header bridge_group_address src len8023 LLC_SAP_BSPAN LLC_SAP_BSPAN
                    LLC_PDU_TYPE_U)
  ++ take (Z.to_nat size) (put b).

(** The Ethernet and LLC header checks: the size of the BPDU if they pass.  [len] is
    an [int], compared with a [size_t] and with an [unsigned int]. *)
Definition llc_check (h : llc_header) (len : Z) : option Z :=
  if negb (sizeof_llc_header <? u64 len) then None else
  if negb (memcmp (dest_addr h) bridge_group_address =? 0) then None else
  let l := h_len8023 h in
  if negb ((l <=? ETH_DATA_LEN) && (l <=? u32 (len - ETH_HLEN)) && (LLC_PDU_LEN_U <=? l))
  then None else
  if negb ((d_sap h =? LLC_SAP_BSPAN) && (s_sap h =? LLC_SAP_BSPAN)
           && (Z.land (llc_ctrl h) 3 =? LLC_PDU_TYPE_U)) then None
  else Some (l - LLC_PDU_LEN_U).

(** The first bridge that has the interface, and its port. *)
Fixpoint find_port (l : list br_ptr) (idx : Z) : D (option (br_ptr * port_id)) :=
  match l with
  | [] => mret None
  | b :: l' =>
      p ← find_if b idx;
      match (p : option port_id) with
      | Some p => mret (Some (b, p))
      | None => find_port l' idx
      end
  end.

(** [data] is the receive buffer, of which [len] octets have been received. *)
Definition bridge_bpdu_rcv (idx : Z) (data : list Z) (len : Z) : D unit :=
  l ← bridges;
  r ← find_port l idx;
  match (r : option (br_ptr * port_id)) with
  | None => dskip
  | Some (b, p) =>
      prt ← read_port b p;
      if negb (up (prt_sysdeps prt)) then dskip else
      match get_llc_header data with
      | None => dfault
      | Some (h, rest) =>
          match llc_check h len with
          | None => dskip
          | Some size =>
              match (get : reader bpdu_t) rest with
              | None => dfault
              | Some (bpdu, _) => in_bridge b (MSTP_IN_rx_bpdu p bpdu size)
              end
          end
      end
  end.

(** packet.c: [buf] is the stack buffer after recvfrom() returned [cc]. *)
Definition sizeof_packet_buf : nat := 2048.
Definition packet_rcv (idx cc : Z) (buf : list Z) : D unit :=
  if cc <=? 0 then dskip else bridge_bpdu_rcv idx buf cc.

(** ** User interface commands

    A command fails with a code that is not zero, or succeeds with its output. *)
Definition reply (A : Type) : Type := Z + A.

Definition CTL_CHECK_BRIDGE {A} (br_index : Z) (f : br_ptr → D (reply A)) : D (reply A) :=
  b ← find_br br_index;
  match (b : option br_ptr) with None => mret (inl (-1)) | Some b => f b end.

Definition CTL_CHECK_BRIDGE_PORT {A} (br_index port_index : Z)
    (f : br_ptr → port_id → D (reply A)) : D (reply A) :=
  CTL_CHECK_BRIDGE br_index (λ b,
    p ← find_if b port_index;
    match (p : option port_id) with None => mret (inl (-1)) | Some p => f b p end).

Definition CTL_CHECK_BRIDGE_TREE {A} (br_index mstid : Z)
    (f : br_ptr → tree_id → D (reply A)) : D (reply A) :=
  CTL_CHECK_BRIDGE br_index (λ b,
    br ← read_br b;
    if bool_decide (mstid ∈ br_trees br) then f b mstid else mret (inl (-1))).

Definition CTL_CHECK_BRIDGE_PERTREEPORT {A} (br_index port_index mstid : Z)
    (f : br_ptr → ptp_id → D (reply A)) : D (reply A) :=
  CTL_CHECK_BRIDGE_PORT br_index port_index (λ b p,
    prt ← read_port b p;
    if bool_decide (mstid ∈ prt_trees prt) then f b (p, mstid) else mret (inl (-1))).

(** A command that only has a result code. *)
Definition code (m : D Z) : D (reply unit) :=
  r ← m; mret (if r =? 0 then inr tt else inl r).
Definition success (m : D bool) : D (reply unit) :=
  r ← m; mret (if (r : bool) then inr tt else inl (-1)).
Definition output {A} (m : D A) : D (reply A) := a ← m; mret (inr a).

(** The name of the first port of the tree that has the identifier. *)
Fixpoint root_port_name (l : list ptp_id) (root_port_id : Z) : M string :=
  match l with
  | [] => mret EmptyString
  | k :: l' =>
      ptp ← get_ptp k;
      if portId ptp =? root_port_id
      then prt ← get_port (ptp_port k); mret (strncpy IFNAMSIZ (name (prt_sysdeps prt)))
      else root_port_name l' root_port_id
  end.

Definition CTL_get_cist_bridge_status (br_index : Z) : D (reply (CIST_BridgeStatus * string)) :=
  CTL_CHECK_BRIDGE br_index (λ b, output (in_bridge b (
    status ← MSTP_IN_get_cist_bridge_status;
    cist ← GET_CIST_TREE;
    l ← ptps_of_tree cist;
    n ← root_port_name l (cbs_root_port_id status);
    mret (status, n)))).

Definition CTL_get_msti_bridge_status (br_index mstid : Z) : D (reply (MSTI_BridgeStatus * string)) :=
  CTL_CHECK_BRIDGE_TREE br_index mstid (λ b t, output (in_bridge b (
    status ← MSTP_IN_get_msti_bridge_status t;
    l ← ptps_of_tree t;
    n ← root_port_name l (mbs_root_port_id status);
    mret (status, n)))).

Definition CTL_set_cist_bridge_config (br_index : Z) (cfg : CIST_BridgeConfig) : D (reply unit) :=
  CTL_CHECK_BRIDGE br_index (λ b, code (in_bridge b (MSTP_IN_set_cist_bridge_config cfg))).

Definition CTL_set_msti_bridge_config (br_index mstid bridge_priority : Z) : D (reply unit) :=
  CTL_CHECK_BRIDGE_TREE br_index mstid (λ b t,
    code (in_bridge b (MSTP_IN_set_msti_bridge_config t bridge_priority))).

Definition CTL_get_cist_port_status (br_index port_index : Z) : D (reply CIST_PortStatus) :=
  CTL_CHECK_BRIDGE_PORT br_index port_index (λ b p,
    output (in_bridge b (MSTP_IN_get_cist_port_status p))).

Definition CTL_get_msti_port_status (br_index port_index mstid : Z) : D (reply MSTI_PortStatus) :=
  CTL_CHECK_BRIDGE_PERTREEPORT br_index port_index mstid (λ b k,
    output (in_bridge b (MSTP_IN_get_msti_port_status k))).

Definition CTL_set_cist_port_config (br_index port_index : Z) (cfg : CIST_PortConfig) : D (reply unit) :=
  CTL_CHECK_BRIDGE_PORT br_index port_index (λ b p,
    code (in_bridge b (MSTP_IN_set_cist_port_config p cfg))).

Definition CTL_set_msti_port_config (br_index port_index mstid : Z) (cfg : MSTI_PortConfig)
  : D (reply unit) :=
  CTL_CHECK_BRIDGE_PERTREEPORT br_index port_index mstid (λ b k,
    code (in_bridge b (MSTP_IN_set_msti_port_config k cfg))).

Definition CTL_port_mcheck (br_index port_index : Z) : D (reply unit) :=
  CTL_CHECK_BRIDGE_PORT br_index port_index (λ b p, code (in_bridge b (MSTP_IN_port_mcheck p))).

Definition CTL_set_debug_level (level : Z) : D (reply unit) :=
  (λ d, DDone tt (d <| d_log_level := level |>)) ;; mret (inr tt).

Definition CTL_get_mstilist (br_index : Z) : D (reply (list Z)) :=
  CTL_CHECK_BRIDGE br_index (λ b, output (in_bridge b MSTP_IN_get_mstilist)).

Definition CTL_create_msti (br_index mstid : Z) : D (reply unit) :=
  CTL_CHECK_BRIDGE br_index (λ b,
    if negb (driver_create_msti mstid) then mret (inl (-1))
    else success (in_bridge b (MSTP_IN_create_msti mstid))).

Definition CTL_delete_msti (br_index mstid : Z) : D (reply unit) :=
  CTL_CHECK_BRIDGE br_index (λ b,
    if negb (driver_delete_msti mstid) then mret (inl (-1))
    else success (in_bridge b (MSTP_IN_delete_msti mstid))).

Definition CTL_get_mstconfid (br_index : Z) : D (reply mst_configuration_identifier_t) :=
  CTL_CHECK_BRIDGE br_index (λ b, output (br ← read_br b; mret (MstConfigId br))).

Definition CTL_set_mstconfid (br_index revision : Z) (name : list Z) : D (reply unit) :=
  CTL_CHECK_BRIDGE br_index (λ b, output (in_bridge b (MSTP_IN_set_mst_config_id revision name))).

Definition CTL_get_vids2fids (br_index : Z) : D (reply (list Z)) :=
  CTL_CHECK_BRIDGE br_index (λ b, output (br ← read_br b; mret (vid2fid br))).

Definition CTL_get_fids2mstids (br_index : Z) : D (reply (list Z)) :=
  CTL_CHECK_BRIDGE br_index (λ b, output (br ← read_br b; mret (fid2mstid br))).

Section control.
Context (K : kernel).

Definition CTL_set_vid2fid (br_index vid fid : Z) : D (reply unit) :=
  CTL_CHECK_BRIDGE br_index (λ b,
    stack ← stack_buffer K; success (in_bridge b (MSTP_IN_set_vid2fid stack vid fid))).

Definition CTL_set_fid2mstid (br_index fid mstid : Z) : D (reply unit) :=
  CTL_CHECK_BRIDGE br_index (λ b,
    stack ← stack_buffer K; success (in_bridge b (MSTP_IN_set_fid2mstid stack fid mstid))).

Definition CTL_set_vids2fids (br_index : Z) (vids2fids : list Z) : D (reply unit) :=
  CTL_CHECK_BRIDGE br_index (λ b,
    stack ← stack_buffer K; success (in_bridge b (MSTP_IN_set_all_vids2fids stack vids2fids))).

Definition CTL_set_fids2mstids (br_index : Z) (fids2mstids : list Z) : D (reply unit) :=
  CTL_CHECK_BRIDGE br_index (λ b,
    stack ← stack_buffer K; success (in_bridge b (MSTP_IN_set_all_fids2mstids stack fids2mstids))).

(** One bridge of CTL_add_bridges; [false] stops with -1. *)
Definition enable_bridge (b : br_ptr) : D unit :=
  br ← read_br b;
  if stp_enabled br then dskip else (* already managed *)
  in_bridge b (upd_br (λ x, x <| stp_enabled := true |>)) ;;
  in_bridge b (MSTP_IN_set_bridge_enable (br_up (br_sysdeps br))) ;;
  br' ← read_br b;
  dfor_each (br_ports br') (λ p,
    prt ← read_port b p;
    in_bridge b (MSTP_IN_set_port_enable p (up (prt_sysdeps prt)) (speed (prt_sysdeps prt))
                   (duplex (prt_sysdeps prt)))).

Fixpoint add_bridges (l : list Z) : D bool :=
  match l with
  | [] => mret true
  | idx :: l' =>
      b ← find_or_create_br K idx;
      match (b : option br_ptr) with
      | None => mret false
      | Some b => enable_bridge b ;; add_bridges l'
      end
  end.

Definition disable_bridge (b : br_ptr) : D unit :=
  br ← read_br b;
  if negb (stp_enabled br) then dskip else
  dfor_each (br_ports br) (λ p, in_bridge b (MSTP_IN_set_port_enable p false 0 0)) ;;
  in_bridge b (MSTP_IN_set_bridge_enable false) ;;
  in_bridge b (upd_br (λ x, x <| stp_enabled := false |>)).

(** [br_array[1]] to [br_array[br_array[0]]], when they are all in the array. *)
Definition array_arguments (br_array : list Z) : option (list Z) :=
  match br_array with
  | [] => None
  | brcount :: l => if brcount <=? Z.of_nat (length l) then Some (take (Z.to_nat brcount) l) else None
  end.

Definition CTL_add_bridges (br_array : list Z) : D (reply unit) :=
  match array_arguments br_array with
  | None => dfault
  | Some l => success (add_bridges l)
  end.

Definition CTL_del_bridges (br_array : list Z) : D (reply unit) :=
  match array_arguments br_array with
  | None => dfault
  | Some l =>
      dfor_each l (λ idx,
        b ← find_br idx;
        match (b : option br_ptr) with None => dskip | Some b => disable_bridge b end) ;;
      mret (inr tt)
  end.

(** ** The requests (ctl_functions.h) *)

Inductive ctl_command :=
| get_cist_bridge_status | get_msti_bridge_status | set_cist_bridge_config
| set_msti_bridge_config | get_cist_port_status | get_msti_port_status
| set_cist_port_config | set_msti_port_config | port_mcheck | set_debug_level
| get_mstilist | create_msti | delete_msti | get_mstconfid | set_mstconfid
| get_vids2fids | get_fids2mstids | set_vid2fid | set_fid2mstid | set_vids2fids
| set_fids2mstids.

Definition all_commands : list ctl_command :=
  [get_cist_bridge_status; get_msti_bridge_status; set_cist_bridge_config;
   set_msti_bridge_config; get_cist_port_status; get_msti_port_status;
   set_cist_port_config; set_msti_port_config; port_mcheck; set_debug_level;
   get_mstilist; create_msti; delete_msti; get_mstconfid; set_mstconfid;
   get_vids2fids; get_fids2mstids; set_vid2fid; set_fid2mstid; set_vids2fids;
   set_fids2mstids].

Definition CMD_CODE (c : ctl_command) : Z :=
  match c with
  | get_cist_bridge_status => 101 | get_msti_bridge_status => 102
  | set_cist_bridge_config => 103 | set_msti_bridge_config => 104
  | get_cist_port_status => 105 | get_msti_port_status => 106
  | set_cist_port_config => 107 | set_msti_port_config => 108
  | port_mcheck => 109 | set_debug_level => 110 | get_mstilist => 111
  | create_msti => 112 | delete_msti => 113 | get_mstconfid => 114
  | set_mstconfid => 115 | get_vids2fids => 116 | get_fids2mstids => 117
  | set_vid2fid => 118 | set_fid2mstid => 119 | set_vids2fids => 120
  | set_fids2mstids => 121
  end.
Definition RESPONSE_FIRST_HANDLE_LATER : Z := 0x10000.
Definition CMD_CODE_add_bridges : Z := Z.lor 122 RESPONSE_FIRST_HANDLE_LATER.
Definition CMD_CODE_del_bridges : Z := Z.lor 123 RESPONSE_FIRST_HANDLE_LATER.

(** The structures xxx_IN and xxx_OUT. *)
Definition IN (c : ctl_command) : Type :=
  match c with
  | get_cist_bridge_status | get_mstilist | get_mstconfid | get_vids2fids
  | get_fids2mstids | set_debug_level => Z
  | get_msti_bridge_status | get_cist_port_status | port_mcheck | create_msti
  | delete_msti => Z * Z
  | get_msti_port_status | set_msti_bridge_config | set_vid2fid | set_fid2mstid => Z * Z * Z
  | set_cist_bridge_config => Z * CIST_BridgeConfig
  | set_cist_port_config => Z * Z * CIST_PortConfig
  | set_msti_port_config => Z * Z * Z * MSTI_PortConfig
  | set_mstconfid => Z * Z * list Z
  | set_vids2fids | set_fids2mstids => Z * list Z
  end.

Definition OUT (c : ctl_command) : Type :=
  match c with
  | get_cist_bridge_status => CIST_BridgeStatus * string
  | get_msti_bridge_status => MSTI_BridgeStatus * string
  | get_cist_port_status => CIST_PortStatus
  | get_msti_port_status => MSTI_PortStatus
  | get_mstilist | get_vids2fids | get_fids2mstids => list Z
  | get_mstconfid => mst_configuration_identifier_t
  | _ => unit
  end.

(** [CTL_xxx xxx_CALL] *)
Definition CTL (c : ctl_command) : IN c → D (reply (OUT c)) :=
  match c with
  | get_cist_bridge_status => CTL_get_cist_bridge_status
  | get_msti_bridge_status => λ '(br, mstid), CTL_get_msti_bridge_status br mstid
  | set_cist_bridge_config => λ '(br, cfg), CTL_set_cist_bridge_config br cfg
  | set_msti_bridge_config => λ '(br, mstid, pri), CTL_set_msti_bridge_config br mstid pri
  | get_cist_port_status => λ '(br, port), CTL_get_cist_port_status br port
  | get_msti_port_status => λ '(br, port, mstid), CTL_get_msti_port_status br port mstid
  | set_cist_port_config => λ '(br, port, cfg), CTL_set_cist_port_config br port cfg
  | set_msti_port_config => λ '(br, port, mstid, cfg), CTL_set_msti_port_config br port mstid cfg
  | port_mcheck => λ '(br, port), CTL_port_mcheck br port
  | set_debug_level => CTL_set_debug_level
  | get_mstilist => CTL_get_mstilist
  | create_msti => λ '(br, mstid), CTL_create_msti br mstid
  | delete_msti => λ '(br, mstid), CTL_delete_msti br mstid
  | get_mstconfid => CTL_get_mstconfid
  | set_mstconfid => λ '(br, rev, name), CTL_set_mstconfid br rev name
  | get_vids2fids => CTL_get_vids2fids
  | get_fids2mstids => CTL_get_fids2mstids
  | set_vid2fid => λ '(br, vid, fid), CTL_set_vid2fid br vid fid
  | set_fid2mstid => λ '(br, fid, mstid), CTL_set_fid2mstid br fid mstid
  | set_vids2fids => λ '(br, l), CTL_set_vids2fids br l
  | set_fids2mstids => λ '(br, l), CTL_set_fids2mstids br l
  end.

(** How the C implementation lays the structures out in memory. *)
Record abi := mk_abi {
  sizeof_IN : ctl_command → Z;
  sizeof_OUT : ctl_command → Z;
  unpack : ∀ c, list Z → IN c;
  pack : ∀ c, OUT c → list Z;
  int_of_bytes : list Z → Z    (* four octets *)
}.
Context (A : abi).

(** The [int]s at the head of a buffer. *)
Fixpoint ints_of_bytes (n : nat) (l : list Z) : list Z :=
  match n with
  | O => []
  | S n' => int_of_bytes A (take 4 l) :: ints_of_bytes n' (drop 4 l)
  end.

(** ** ctl_socket_server.c *)

Definition command_of (cmd : Z) : option ctl_command :=
  List.find (λ c, CMD_CODE c =? cmd) all_commands.

(** SERVER_MESSAGE_CASE: the result and what is copied to the output buffer. *)
Definition server_message_case (c : ctl_command) (inbuf : list Z) (lin lout : Z) : D (reply (list Z)) :=
  if (sizeof_IN A c ≠? u64 lin) || (sizeof_OUT A c ≠? u64 lout) then mret (inl (-1)) else
  r ← CTL c (unpack A c (take (Z.to_nat lin) inbuf));
  mret (match (r : reply (OUT c)) with inl e => inl e | inr o => inr (pack A c o) end).

(** The commands that carry an array of bridges; [exact] is whether the size must be
    that of the array. *)
Definition bridges_case (ctl : list Z → D (reply unit)) (exact : bool) (inbuf : list Z)
    (lin lout : Z) : D (reply (list Z)) :=
  if lout ≠? 0 then mret (inl (-1)) else
  if u64 lin <? 4 then mret (inl (-1)) else
  let br_array := ints_of_bytes (Z.to_nat (lin / 4)) inbuf in
  let size := u64 ((nth 0 br_array 0 + 1) * 4) in
  if (if exact then size ≠? u64 lin else u64 lin <? size) then mret (inl (-1)) else
  r ← ctl br_array;
  mret (match (r : reply unit) with inl e => inl e | inr _ => inr [] end).

Definition handle_message (cmd : Z) (inbuf : list Z) (lin lout : Z) : D (reply (list Z)) :=
  match command_of cmd with
  | Some c => server_message_case c inbuf lin lout
  | None =>
      if cmd =? CMD_CODE_add_bridges then bridges_case CTL_add_bridges false inbuf lin lout
      else if cmd =? CMD_CODE_del_bridges then bridges_case CTL_del_bridges true inbuf lin lout
      else mret (inl (-1))
  end.

(** The commands anyone may send. *)
Definition read_only (c : ctl_command) : bool :=
  match c with
  | get_cist_bridge_status | get_msti_bridge_status | get_cist_port_status
  | get_msti_port_status | get_mstilist | get_mstconfid | get_vids2fids
  | get_fids2mstids => true
  | _ => false
  end.

Definition ctl_access_ok (uid cmd : Z) : bool :=
  match command_of cmd with
  | Some c => if read_only c then true else uid =? 0
  | None => uid =? 0
  end.

Record ctl_msg_hdr := mk_ctl_msg_hdr { h_cmd : Z; h_lin : Z; h_lout : Z; h_llog : Z; h_res : Z }.
Definition sizeof_ctl_msg_hdr : Z := 20.
Definition MSG_BUF_LEN : Z := 10000.

(** A datagram as recvmsg() returns it: its size, its flags, the header, the rest of
    the payload and, if the credentials are as expected, the user id of the peer. *)
Record ctl_datagram := mk_ctl_datagram {
  m_size : Z;
  m_flags : Z;
  m_hdr : ctl_msg_hdr;
  m_inbuf : list Z;
  m_uid : option Z
}.

Definition unexpected_message (m : ctl_datagram) : bool :=
  let h := m_hdr m in
  (m_flags m ≠? 0) || (m_size m <? sizeof_ctl_msg_hdr)
  || (m_size m ≠? u64 (sizeof_ctl_msg_hdr + h_lin h)) || (MSG_BUF_LEN <? h_lout h)
  || (h_cmd h <? 0).

(** [memset(msg_outbuf, 0, lout)]: the count is converted to a [size_t]. *)
Definition clear_outbuf (lout : Z) : D unit := if u64 lout <=? MSG_BUF_LEN then dskip else dfault.

Definition later (cmd : Z) : bool := negb (Z.land cmd RESPONSE_FIRST_HANDLE_LATER =? 0).

(** The result is the code and the output that are sent back; [None]: no response. *)
Definition ctl_rcv_handler (m : ctl_datagram) : D (option (reply (list Z))) :=
  if negb (0 <? m_size m) then mret None else
  if unexpected_message m then mret None else
  match m_uid m with
  | None => mret None
  | Some uid =>
      let h := m_hdr m in
      let cmd := h_cmd h in
      res ← (if ctl_access_ok uid cmd then
               if negb (later cmd) then handle_message cmd (m_inbuf m) (h_lin h) (h_lout h)
               else mret (inr [])
             else mret (inl (-1)));
      match (res : reply (list Z)) with
      | inl e => dwhen (e <? 0) (clear_outbuf (h_lout h))
      | inr _ => dskip
      end ;;
      (* the response is sent here *)
      (if (match res with inr _ => true | inl _ => false end) && later cmd
       then handle_message cmd (m_inbuf m) (h_lin h) (h_lout h) ;; dskip else dskip) ;;
      mret (Some res)
  end.
End control.
