(* ===== verification/Wf.v ===== *)
(** The well-formedness invariant of a bridge: every list of the C structures
    holds valid pointers, each port has a per-tree port for each tree and in the
    same order, and what the code uses as an array index is within the array.

    [safe] is the corresponding triple: a computation started in a well-formed
    bridge does not fault, and leaves the bridge well-formed and its bridge
    object unchanged. *)
From S2P Require Import Prelude Types Monad.

(** ** The invariant of the protocol code *)

(** The MSTI Configuration Message the port points to exists. *)
Definition cfg_ok (x : per_tree_port_t) : Prop :=
  ∃ i, rcvdMstiConfig x = Some i ∧ (i < 64)%nat.

(** A per-tree port of an MSTI that has, or is processing, a message points to it. *)
Definition wf_ptp (t : tree_id) (x : per_tree_port_t) : Prop :=
  t ≠ 0 → rcvdMsg x = true ∨ PISM_state x = PISM_RECEIVE → cfg_ok x.

Record wf_port (br : bridge_t) (x : port_t) : Prop := {
  wf_port_trees : prt_trees x = br_trees br;
  wf_port_msgs : length (mstConfiguration (rcvdBpduData x)) = 64%nat;
  wf_port_num : 0 <= rcvdBpduNumOfMstis x <= 64
}.

Definition wf_tree (br : bridge_t) (x : tree_t) : Prop := tree_ports x = br_ports br.

(** The bridge's own lists: the CIST comes first, and an MST BPDU has room for
    a message of each of the other trees. *)
Record wf_bridge (br : bridge_t) : Prop := {
  wf_bridge_cist : ∃ l, br_trees br = 0 :: l;
  wf_bridge_len : (length (br_trees br) <= 65)%nat;
  wf_bridge_ports : NoDup (br_ports br);
  wf_bridge_trees : NoDup (br_trees br)
}.

Definition valid_ptp (br : bridge_t) (k : ptp_id) : Prop :=
  ptp_port k ∈ br_ports br ∧ ptp_tree k ∈ br_trees br.

(** [K] are per-tree ports known to point to their MSTI message. *)
Record Inv (br : bridge_t) (K : list ptp_id) (w : world) : Prop := {
  inv_br : w_br w = br;
  inv_port p : p ∈ br_ports br → ∃ x, w_ports w !! p = Some x ∧ wf_port br x;
  inv_tree t : t ∈ br_trees br → ∃ x, w_trees w !! t = Some x ∧ wf_tree br x;
  inv_ptp k : valid_ptp br k → ∃ x, w_ptps w !! k = Some x ∧ wf_ptp (ptp_tree k) x;
  inv_cfg k x : k ∈ K → w_ptps w !! k = Some x → cfg_ok x
}.

(** A well-formed world. *)
Definition wf (w : world) : Prop := wf_bridge (w_br w) ∧ Inv (w_br w) [] w.

(** ** Safe computations *)

Definition safe (br : bridge_t) (K : list ptp_id) {A} (P : A → Prop) (m : M A) : Prop :=
  ∀ w, Inv br K w → wp True m (λ a w', Inv br K w' ∧ P a) w.

Create HintDb safe.

Section safe.
Context (br : bridge_t).
Implicit Types (K : list ptp_id) (p : port_id) (t : tree_id) (k : ptp_id).

Lemma safe_ret K {A} (P : A → Prop) a : P a → safe br K P (mret a).
Proof. by intros ? w ?; apply wp_ret. Qed.

Lemma safe_mono K {A} (P P' : A → Prop) m :
  safe br K P m → (∀ a, P a → P' a) → safe br K P' m.
Proof.
  intros Hm HP w Hw. eapply wp_mono; [by apply Hm|]. intros a w' [? ?]; auto.
Qed.

Lemma safe_bind K {A B} (P : A → Prop) (Q : B → Prop) m f :
  safe br K P m → (∀ a, P a → safe br K Q (f a)) → safe br K Q (m ≫= f).
Proof.
  intros Hm Hf w Hw. apply wp_bind. eapply wp_mono; [by apply Hm|].
  intros a w' [? ?]. by apply Hf.
Qed.

(** The case of a call whose result does not matter. *)
Lemma safe_seq K {A B} (Q : B → Prop) (m : M A) f :
  safe br K (λ _, True) m → (∀ a, safe br K Q (f a)) → safe br K Q (m ≫= f).
Proof. intros Hm Hf. apply (safe_bind K (λ _, True)); auto. Qed.

Lemma safe_weaken K {A} (P : A → Prop) m : safe br K P m → safe br K (λ _, True) m.
Proof. intros H. by eapply safe_mono. Qed.

Lemma safe_out_of_fuel K {A} (P : A → Prop) : safe br K P (@out_of_fuel A).
Proof. by intros w ?. Qed.

Lemma safe_when K b m : safe br K (λ _, True) m → safe br K (λ _, True) (when b m).
Proof. destruct b; simpl; [done|]. by intros _; apply safe_ret. Qed.

Lemma safe_get_br K {B} (Q : B → Prop) f : safe br K Q (f br) → safe br K Q (get_br ≫= f).
Proof.
  intros Hf w Hw. apply wp_bind, wp_get_br. rewrite (inv_br _ _ _ Hw). by apply Hf.
Qed.

Lemma safe_get_port K {B} (Q : B → Prop) p f :
  p ∈ br_ports br → (∀ x, wf_port br x → safe br K Q (f x)) → safe br K Q (get_port p ≫= f).
Proof.
  intros Hp Hf w Hw. destruct (inv_port _ _ _ Hw p Hp) as (x & Hx & ?).
  eapply wp_bind, wp_get_port; [done|]. by apply Hf.
Qed.

Lemma safe_get_tree K {B} (Q : B → Prop) t f :
  t ∈ br_trees br → (∀ x, wf_tree br x → safe br K Q (f x)) → safe br K Q (get_tree t ≫= f).
Proof.
  intros Ht Hf w Hw. destruct (inv_tree _ _ _ Hw t Ht) as (x & Hx & ?).
  eapply wp_bind, wp_get_tree; [done|]. by apply Hf.
Qed.

Lemma safe_get_ptp K {B} (Q : B → Prop) k f :
  valid_ptp br k → (∀ x, wf_ptp (ptp_tree k) x → safe br K Q (f x)) →
  safe br K Q (get_ptp k ≫= f).
Proof.
  intros Hk Hf w Hw. destruct (inv_ptp _ _ _ Hw k Hk) as (x & Hx & ?).
  eapply wp_bind, wp_get_ptp; [done|]. by apply Hf.
Qed.

(** Reading a per-tree port, and remembering that it points to its message. *)
Lemma safe_get_ptp_cfg K k {B} f :
  valid_ptp br k →
  (∀ x K', wf_ptp (ptp_tree k) x → (cfg_ok x → k ∈ K') → safe br K' (λ _ : B, True) (f x)) →
  safe br K (λ _, True) (get_ptp k ≫= f).
Proof.
  intros Hk Hf w Hw. destruct (inv_ptp _ _ _ Hw k Hk) as (x & Hx & Hwf).
  eapply wp_bind, wp_get_ptp; [done|].
  assert (Hdec : cfg_ok x ∨ ¬ cfg_ok x).
  { unfold cfg_ok. destruct (rcvdMstiConfig x) as [i|]; [|right; by intros (? & ? & ?)].
    destruct (decide (i < 64)%nat) as [?|Hi]; [left; eauto|right; intros (j & [= <-] & ?); done]. }
  destruct Hdec as [Hc|Hc]; [|by apply (Hf x K)].
  eapply wp_mono; [apply (Hf x (k :: K) Hwf); [by left|]|].
  - split; [apply Hw..|]. intros k' x' [->|?]%elem_of_cons Hk'; [by simplify_eq|].
    by eapply (inv_cfg _ _ _ Hw).
  - intros b w' [Hw' _]. split; [|done]. split; [apply Hw'..|].
    intros k' x' ?. apply (inv_cfg _ _ _ Hw'). by right.
Qed.

Lemma safe_upd_port K p f :
  p ∈ br_ports br → (∀ x, wf_port br x → wf_port br (f x)) →
  safe br K (λ _, True) (upd_port p f).
Proof.
  intros Hp Hf w Hw. destruct (inv_port _ _ _ Hw p Hp) as (x & Hx & ?).
  eapply wp_upd_port; [done|]. split; [|done]. split; [apply Hw| |apply Hw..].
  intros q Hq. cbn. destruct (decide (p = q)) as [<-|].
  - rewrite lookup_insert_eq. eauto.
  - rewrite lookup_insert_ne by done. by apply (inv_port _ _ _ Hw).
Qed.

Lemma safe_upd_tree K t f :
  t ∈ br_trees br → (∀ x, wf_tree br x → wf_tree br (f x)) →
  safe br K (λ _, True) (upd_tree t f).
Proof.
  intros Ht Hf w Hw. destruct (inv_tree _ _ _ Hw t Ht) as (x & Hx & ?).
  eapply wp_upd_tree; [done|]. split; [|done]. split; [apply Hw..| |apply Hw|apply Hw].
  intros q Hq. cbn. destruct (decide (t = q)) as [<-|].
  - rewrite lookup_insert_eq. eauto.
  - rewrite lookup_insert_ne by done. by apply (inv_tree _ _ _ Hw).
Qed.

Lemma safe_upd_ptp K k f :
  valid_ptp br k →
  (∀ x, (k ∈ K → cfg_ok x) → wf_ptp (ptp_tree k) x → wf_ptp (ptp_tree k) (f x)) →
  (∀ x, cfg_ok x → cfg_ok (f x)) →
  safe br K (λ _, True) (upd_ptp k f).
Proof.
  intros Hk Hf Hc w Hw. destruct (inv_ptp _ _ _ Hw k Hk) as (x & Hx & Hwf).
  eapply wp_upd_ptp; [done|]. split; [|done]. split; [apply Hw..| |]; cbn.
  - intros q Hq. destruct (decide (k = q)) as [<-|].
    + rewrite lookup_insert_eq. eexists; split; [done|]. apply Hf; [|done].
      intros HK. by eapply (inv_cfg _ _ _ Hw).
    + rewrite lookup_insert_ne by done. by apply (inv_ptp _ _ _ Hw).
  - intros q y Hq. destruct (decide (k = q)) as [<-|].
    + rewrite lookup_insert_eq. intros [= <-]. apply Hc. by eapply (inv_cfg _ _ _ Hw).
    + rewrite lookup_insert_ne by done. by apply (inv_cfg _ _ _ Hw).
Qed.

(** Computations that do not touch the four stores. *)
Lemma safe_emit K e : safe br K (λ _, True) (emit e).
Proof. intros w Hw. unfold wp, emit. split; [|done]. split; apply Hw. Qed.

Lemma safe_clock K : safe br K (λ _, True) clock_gettime.
Proof.
  intros w Hw. unfold wp, clock_gettime. destruct (w_clock w); [done|].
  split; [|done]. split; apply Hw.
Qed.

Lemma safe_clock_readings K : safe br K (λ _, True) clock_readings.
Proof. intros w Hw. done. Qed.

(** *** Loops *)

Lemma safe_for_each K {A} (l : list A) body :
  (∀ x, x ∈ l → safe br K (λ _, True) (body x)) → safe br K (λ _, True) (for_each l body).
Proof.
  intros Hb w Hw. eapply wp_mono; [apply (wp_for_each (Inv br K)); [|done]|done].
  intros x w' Hx Hw'. eapply wp_mono; [by apply Hb|]. by intros ? ? [? _].
Qed.

Lemma safe_any_of K {A} (l : list A) body :
  (∀ x, x ∈ l → safe br K (λ _, True) (body x)) → safe br K (λ _, True) (any_of l body).
Proof.
  intros Hb w Hw. eapply wp_mono; [apply (wp_any_of (Inv br K)); [|done]|done].
  intros x w' Hx Hw'. eapply wp_mono; [by apply Hb|]. by intros ? ? [? _].
Qed.

Lemma safe_all_of K {A} (l : list A) body :
  (∀ x, x ∈ l → safe br K (λ _, True) (body x)) → safe br K (λ _, True) (all_of l body).
Proof.
  intros Hb w Hw. eapply wp_mono; [apply (wp_all_of (Inv br K)); [|done]|done].
  intros x w' Hx Hw'. eapply wp_mono; [by apply Hb|]. by intros ? ? [? _].
Qed.

(** *** The lists of the bridge *)

Lemma safe_ports_of_bridge K {B} (Q : B → Prop) f :
  safe br K Q (f (br_ports br)) → safe br K Q (ports_of_bridge ≫= f).
Proof. intros Hf w Hw. apply (safe_get_br K Q (λ b, f (br_ports b)) Hf w Hw). Qed.

Lemma safe_trees_of_bridge K {B} (Q : B → Prop) f :
  safe br K Q (f (br_trees br)) → safe br K Q (trees_of_bridge ≫= f).
Proof. intros Hf w Hw. apply (safe_get_br K Q (λ b, f (br_trees b)) Hf w Hw). Qed.

Lemma safe_ptps_of_port K {B} (Q : B → Prop) p f :
  p ∈ br_ports br → safe br K Q (f (map (λ t, (p, t)) (br_trees br))) →
  safe br K Q (ptps_of_port p ≫= f).
Proof.
  intros Hp Hf w Hw. unfold ptps_of_port.
  destruct (inv_port _ _ _ Hw p Hp) as (x & Hx & [Ht _ _]).
  apply wp_bind, wp_bind. eapply wp_get_port; [done|]. apply wp_ret. rewrite Ht. by apply Hf.
Qed.

Lemma safe_ptps_of_tree K {B} (Q : B → Prop) t f :
  t ∈ br_trees br → safe br K Q (f (map (λ p, (p, t)) (br_ports br))) →
  safe br K Q (ptps_of_tree t ≫= f).
Proof.
  intros Ht Hf w Hw. unfold ptps_of_tree.
  destruct (inv_tree _ _ _ Hw t Ht) as (x & Hx & Hp).
  apply wp_bind, wp_bind. eapply wp_get_tree; [done|]. apply wp_ret.
  rewrite Hp. by apply Hf.
Qed.

(** *** The CIST, and the loops over the lists *)

Lemma elem_of_after {A} `{EqDecision A} (x y : A) l : x ∈ after y l → x ∈ l.
Proof.
  induction l as [|z l IH]; simpl; [done|]. destruct (decide (y = z)); intros; [by right|].
  right. auto.
Qed.

Lemma valid_ptp_port p k :
  p ∈ br_ports br → k ∈ map (λ t, (p, t)) (br_trees br) → valid_ptp br k.
Proof. intros Hp (t & -> & ?)%list_elem_of_fmap. done. Qed.

Lemma valid_ptp_tree t k :
  t ∈ br_trees br → k ∈ map (λ p, (p, t)) (br_ports br) → valid_ptp br k.
Proof. intros Ht (p & -> & ?)%list_elem_of_fmap. done. Qed.

Context (Hbr : wf_bridge br).

Lemma cist_in : 0 ∈ br_trees br.
Proof. destruct (wf_bridge_cist _ Hbr) as [l ->]. by left. Qed.

Lemma valid_cist p : p ∈ br_ports br → valid_ptp br (p, 0).
Proof. split; [done|apply cist_in]. Qed.

Lemma safe_GET_CIST_TREE K {B} (Q : B → Prop) f :
  safe br K Q (f 0) → safe br K Q (GET_CIST_TREE ≫= f).
Proof.
  intros Hf w Hw. unfold GET_CIST_TREE, trees_of_bridge.
  apply wp_bind, wp_bind, wp_bind, wp_get_br, wp_ret. rewrite (inv_br _ _ _ Hw).
  destruct (wf_bridge_cist _ Hbr) as [l ->]. by apply Hf.
Qed.

Lemma safe_GET_CIST_PTP K {B} (Q : B → Prop) p f :
  p ∈ br_ports br → safe br K Q (f (p, 0)) → safe br K Q (GET_CIST_PTP_FROM_PORT p ≫= f).
Proof.
  intros Hp Hf. unfold GET_CIST_PTP_FROM_PORT. intros w Hw.
  apply wp_bind. pose proof (safe_ptps_of_port K (λ k, k = (p, 0)) p (λ l, of_option (head l)) Hp) as H.
  eapply wp_mono; [apply H; [|done]|].
  - destruct (wf_bridge_cist _ Hbr) as [l ->]. by apply safe_ret.
  - intros k w' [Hw' ->]. by apply Hf.
Qed.

Lemma safe_ptps_of_port_after K {B} (Q : B → Prop) k f :
  valid_ptp br k →
  (∀ l, (∀ k', k' ∈ l → valid_ptp br k' ∧ ptp_port k' = ptp_port k) →
        (length l < 65)%nat → safe br K Q (f l)) →
  safe br K Q (ptps_of_port_after k ≫= f).
Proof.
  intros [Hp Ht] Hf. unfold ptps_of_port_after. intros w Hw. apply wp_bind.
  eapply wp_mono; [apply (safe_ptps_of_port K
    (λ l, l = after k (map (λ t, (ptp_port k, t)) (br_trees br)))); [done|by apply safe_ret|done]|].
  intros l w' [Hw' ->]. apply Hf; [| |done].
  - intros k' (t & -> & ?)%elem_of_after%list_elem_of_fmap. done.
  - assert (Hlt : ∀ l', k ∈ l' → (length (after k l') < length l')%nat).
    { induction l' as [|y l' IH]; simpl; [by intros ?%elem_of_nil|].
      intros Hin. destruct (decide (k = y)); [lia|].
      apply elem_of_cons in Hin as [->|Hin]; [done|]. specialize (IH Hin). lia. }
    eapply Nat.lt_le_trans; [apply Hlt|].
    + apply list_elem_of_fmap. exists (ptp_tree k). by destruct k.
    + rewrite length_map. apply (wf_bridge_len _ Hbr).
Qed.

Lemma safe_FOREACH_PORT K body :
  (∀ p, p ∈ br_ports br → safe br K (λ _, True) (body p)) →
  safe br K (λ _, True) (FOREACH_PORT_IN_BRIDGE body).
Proof. intros. by apply safe_ports_of_bridge, safe_for_each. Qed.

Lemma safe_FOREACH_TREE K body :
  (∀ t, t ∈ br_trees br → safe br K (λ _, True) (body t)) →
  safe br K (λ _, True) (FOREACH_TREE_IN_BRIDGE body).
Proof. intros. by apply safe_trees_of_bridge, safe_for_each. Qed.

Lemma safe_FOREACH_PTP_PORT K p body :
  p ∈ br_ports br →
  (∀ k, valid_ptp br k → ptp_port k = p → safe br K (λ _, True) (body k)) →
  safe br K (λ _, True) (FOREACH_PTP_IN_PORT p body).
Proof.
  intros Hp Hb. apply safe_ptps_of_port, safe_for_each; [done|].
  intros k Hk. apply Hb; [by eapply valid_ptp_port|].
  by apply list_elem_of_fmap in Hk as (t & -> & _).
Qed.

Lemma safe_FOREACH_PTP_TREE K t body :
  t ∈ br_trees br →
  (∀ k, valid_ptp br k → ptp_tree k = t → safe br K (λ _, True) (body k)) →
  safe br K (λ _, True) (FOREACH_PTP_IN_TREE t body).
Proof.
  intros Hp Hb. apply safe_ptps_of_tree, safe_for_each; [done|].
  intros k Hk. apply Hb; [by eapply valid_ptp_tree|].
  by apply list_elem_of_fmap in Hk as (p & -> & _).
Qed.
End safe.

(** ** Automation *)

(** Membership and well-formedness side conditions. *)
Ltac safe_side :=
  solve
    [ done
    | eassumption
    | match goal with
      | H : valid_ptp _ ?k |- ptp_port ?k ∈ _ => exact (proj1 H)
      | H : valid_ptp _ ?k |- ptp_tree ?k ∈ _ => exact (proj2 H)
      | H : valid_ptp _ ?k |- fst ?k ∈ _ => exact (proj1 H)
      | H : valid_ptp _ ?k |- snd ?k ∈ _ => exact (proj2 H)
      | H : wf_bridge ?b |- 0 ∈ br_trees ?b => exact (cist_in b H)
      | H : wf_bridge ?b |- valid_ptp ?b (?p, 0) => apply (valid_cist b H); safe_side
      | Hl : ∀ k', k' ∈ ?l → valid_ptp _ k' ∧ _, H : ?k ∈ ?l |- valid_ptp _ ?k =>
          exact (proj1 (Hl k H))
      | |- valid_ptp _ (_, _) => split; simpl; safe_side
      | |- valid_ptp _ _ => eapply valid_ptp_port; cycle 1; [eassumption|safe_side]
      | |- valid_ptp _ _ => eapply valid_ptp_tree; cycle 1; [eassumption|safe_side]
      | |- wf_port _ _ → wf_port _ _ => let H := fresh in intros H; split; simpl; apply H
      | |- ∀ x, wf_port _ x → wf_port _ _ =>
          let H := fresh in intros ? H; split; simpl; apply H
      | |- ∀ x, wf_tree _ x → wf_tree _ _ => intros ?; exact id
      | |- ∀ x, cfg_ok x → cfg_ok _ => intros ?; exact id
      | |- ∀ x, (_ → _) → wf_ptp _ x → wf_ptp _ _ => intros ? _; exact id
      | |- ∀ x, (_ → _) → wf_ptp _ x → wf_ptp _ _ =>
          let x := fresh in let Hx := fresh in
          intros x _ Hx ?; simpl; intros [?|?]; solve [done | apply Hx; auto]
      end ].

Ltac safe_step :=
  lazymatch goal with
  | |- safe _ _ _ (let _ := _ in _) => cbv zeta
  | |- safe _ _ _ (mret _) => apply safe_ret; try done
  | |- safe _ _ _ skip => apply safe_ret; done
  | |- safe _ _ _ out_of_fuel => apply safe_out_of_fuel
  | |- safe _ _ _ (get_br ≫= _) => apply safe_get_br
  | |- safe _ _ _ (get_port _ ≫= _) => apply safe_get_port; [safe_side|intros ? ?]
  | |- safe _ _ _ (get_tree _ ≫= _) => apply safe_get_tree; [safe_side|intros ? ?]
  | |- safe _ _ _ (get_ptp _ ≫= _) => apply safe_get_ptp; [safe_side|intros ? ?]
  | |- safe _ _ _ (ports_of_bridge ≫= _) => apply safe_ports_of_bridge
  | |- safe _ _ _ (trees_of_bridge ≫= _) => apply safe_trees_of_bridge
  | |- safe _ _ _ (ptps_of_port _ ≫= _) => apply safe_ptps_of_port; [safe_side|]
  | |- safe _ _ _ (ptps_of_tree _ ≫= _) => apply safe_ptps_of_tree; [safe_side|]
  | |- safe _ _ _ (GET_CIST_TREE ≫= _) => apply safe_GET_CIST_TREE; [safe_side|]
  | |- safe _ _ _ (GET_CIST_PTP_FROM_PORT _ ≫= _) =>
      apply safe_GET_CIST_PTP; [safe_side|safe_side|]
  | |- safe _ _ _ (ptps_of_port_after _ ≫= _) =>
      let H := fresh "Hl" in
      apply safe_ptps_of_port_after; [safe_side|safe_side|intros ? H ?]
  | |- safe _ _ _ (upd_port _ _) => apply safe_upd_port; [safe_side|safe_side]
  | |- safe _ _ _ (upd_tree _ _) => apply safe_upd_tree; [safe_side|safe_side]
  | |- safe _ _ _ (upd_ptp _ _) => apply safe_upd_ptp; [safe_side|safe_side|safe_side]
  | |- safe _ _ _ (emit _) => apply safe_emit
  | |- safe _ _ _ clock_gettime => apply safe_clock
  | |- safe _ _ _ clock_readings => apply safe_clock_readings
  | |- safe _ _ _ (FOREACH_PORT_IN_BRIDGE _) => apply safe_FOREACH_PORT; intros
  | |- safe _ _ _ (FOREACH_TREE_IN_BRIDGE _) => apply safe_FOREACH_TREE; intros
  | |- safe _ _ _ (FOREACH_PTP_IN_PORT _ _) =>
      apply safe_FOREACH_PTP_PORT; [safe_side|intros]
  | |- safe _ _ _ (FOREACH_PTP_IN_TREE _ _) =>
      apply safe_FOREACH_PTP_TREE; [safe_side|intros]
  | |- safe _ _ _ (when _ _) => apply safe_when
  | |- safe _ _ _ (if ?b then _ else _) => destruct b eqn:?
  | |- safe _ _ _ (match ?b with _ => _ end) => destruct b eqn:?
  | |- safe _ _ _ (for_each _ _) => apply safe_for_each; intros
  | |- safe _ _ _ (any_of _ _) => apply safe_any_of; intros
  | |- safe _ _ _ (all_of _ _) => apply safe_all_of; intros
  | |- safe _ _ _ (transition _ _) => unfold transition
  | |- safe _ _ _ (_ ≫= _) => apply safe_seq; [|intros]
  | |- safe _ _ (λ _, True) _ => solve [eauto with safe]
  end.
Ltac safe_auto := repeat safe_step.

(** The function a term applies. *)
Ltac head_of m := lazymatch m with ?f _ => head_of f | _ => m end.
