(* ===== verification/Safety.v ===== *)
(** The protocol code is safe: in a well-formed bridge no procedure, state
    machine or run of the machines dereferences an invalid pointer or indexes
    outside of an array, and all of them keep the bridge well-formed. *)
From S2P Require Import Prelude Types Monad Md5 Vectors Outputs Procs RoleSelect PortSM TreeSM.
From S2P Require Import Prtsm Bridge Wf.

#[export] Hint Extern 1 (_ ∈ _) => safe_side : safe.
#[export] Hint Extern 1 (valid_ptp _ _) => safe_side : safe.
#[export] Hint Resolve safe_out_of_fuel : safe.

(** ** Outputs and procedures *)

Section procs.
Context (br : bridge_t) (Hbr : wf_bridge br) (K : list ptp_id).
Local Abbreviation safe_op m := (safe br K (λ _, True) m).

Lemma safe_MSTP_OUT_set_state k st : valid_ptp br k → safe_op (MSTP_OUT_set_state k st).
Proof. intros. unfold MSTP_OUT_set_state. safe_auto. Qed.

Lemma safe_MSTP_OUT_set_ageing_time p t :
  p ∈ br_ports br → safe_op (MSTP_OUT_set_ageing_time p t).
Proof. intros. unfold MSTP_OUT_set_ageing_time. safe_auto. Qed.

Lemma safe_MSTP_OUT_tx_bpdu p b n : p ∈ br_ports br → safe_op (MSTP_OUT_tx_bpdu p b n).
Proof. intros. unfold MSTP_OUT_tx_bpdu. safe_auto. Qed.

Lemma safe_MSTP_OUT_shutdown_port p : p ∈ br_ports br → safe_op (MSTP_OUT_shutdown_port p).
Proof. intros. unfold MSTP_OUT_shutdown_port. safe_auto. Qed.

Lemma safe_set_newInfoXst k : valid_ptp br k → safe_op (set_newInfoXst k).
Proof. intros. unfold set_newInfoXst. safe_auto. Qed.

Lemma safe_set_TopologyChange t b p :
  t ∈ br_trees br → p ∈ br_ports br → safe_op (set_TopologyChange t b p).
Proof. intros. unfold set_TopologyChange. safe_auto. Qed.

Hint Resolve safe_MSTP_OUT_set_state safe_MSTP_OUT_set_ageing_time safe_MSTP_OUT_tx_bpdu
  safe_MSTP_OUT_shutdown_port safe_set_newInfoXst safe_set_TopologyChange : safe.

Lemma safe_newTcWhile k : valid_ptp br k → safe_op (newTcWhile k).
Proof. intros. unfold newTcWhile. safe_auto. Qed.

Lemma safe_betterorsameInfo k i : valid_ptp br k → safe_op (betterorsameInfo k i).
Proof. intros. unfold betterorsameInfo. safe_auto. Qed.

Lemma safe_clearAllRcvdMsgs p dry : p ∈ br_ports br → safe_op (clearAllRcvdMsgs p dry).
Proof. intros. unfold clearAllRcvdMsgs. safe_auto. Qed.
Hint Resolve safe_newTcWhile safe_betterorsameInfo safe_clearAllRcvdMsgs : safe.

Lemma safe_clearReselectTree t : t ∈ br_trees br → safe_op (clearReselectTree t).
Proof. intros. unfold clearReselectTree. safe_auto. Qed.

Lemma safe_fromSameRegion p : p ∈ br_ports br → safe_op (fromSameRegion p).
Proof. intros. unfold fromSameRegion. safe_auto. Qed.

Lemma safe_setReRootTree t : t ∈ br_trees br → safe_op (setReRootTree t).
Proof. intros. unfold setReRootTree. safe_auto. Qed.

Lemma safe_setSelectedTree t : t ∈ br_trees br → safe_op (setSelectedTree t).
Proof. intros. unfold setSelectedTree. safe_auto. Qed.

Lemma safe_setSyncTree t : t ∈ br_trees br → safe_op (setSyncTree t).
Proof. intros. unfold setSyncTree. safe_auto. Qed.

Lemma safe_setTcPropTree k : valid_ptp br k → safe_op (setTcPropTree k).
Proof. intros. unfold setTcPropTree. safe_auto. Qed.

Lemma safe_syncMaster : safe_op syncMaster.
Proof.
  unfold syncMaster. safe_auto.
  match goal with H : _ ∈ after _ _ |- _ => apply elem_of_after in H end.
  safe_auto.
Qed.

Lemma safe_updtRolesDisabledTree t : t ∈ br_trees br → safe_op (updtRolesDisabledTree t).
Proof. intros. unfold updtRolesDisabledTree. safe_auto. Qed.

Lemma safe_reselectMSTIs p : p ∈ br_ports br → safe_op (reselectMSTIs p).
Proof. intros. unfold reselectMSTIs. safe_auto. Qed.

Hint Resolve safe_clearReselectTree safe_fromSameRegion safe_setReRootTree safe_setSelectedTree
  safe_setSyncTree safe_setTcPropTree safe_syncMaster safe_updtRolesDisabledTree
  safe_reselectMSTIs : safe.

(** Recording a received BPDU: the MSTI cases need the message pointer. *)

Lemma safe_get_rcvdMstiConfig k :
  valid_ptp br k → k ∈ K → safe_op (get_rcvdMstiConfig k).
Proof.
  intros [Hp Ht] Hk w Hw. unfold get_rcvdMstiConfig.
  destruct (inv_ptp _ _ _ Hw k (conj Hp Ht)) as (x & Hx & _).
  destruct (inv_port _ _ _ Hw _ Hp) as (y & Hy & [_ Hlen _]).
  destruct (inv_cfg _ _ _ Hw k x Hk Hx) as (i & Hi & Hlt).
  eapply wp_bind, wp_get_ptp; [done|]. eapply wp_bind, wp_get_port; [done|].
  rewrite Hi. apply wp_bind, wp_ret.
  destruct (lookup_lt_is_Some_2 (mstConfiguration (rcvdBpduData y)) i) as [m ->]; [lia|].
  by apply wp_ret.
Qed.
Hint Resolve safe_get_rcvdMstiConfig : safe.

(** A port of the CIST, or one known to point to its message. *)
Definition has_cfg (k : ptp_id) : Prop := ptp_tree k ≠ 0 → k ∈ K.

Lemma has_cfg_in k : has_cfg k → (ptp_MSTID k =? 0) = false → k ∈ K.
Proof. intros H Hk. apply H. by apply Z.eqb_neq. Qed.
Hint Resolve has_cfg_in : safe.

Lemma safe_rcvInfo k : valid_ptp br k → has_cfg k → safe_op (rcvInfo k).
Proof. intros. unfold rcvInfo. safe_auto. Qed.

Lemma safe_recordAgreement k : valid_ptp br k → has_cfg k → safe_op (recordAgreement k).
Proof. intros. unfold recordAgreement. safe_auto. Qed.

Lemma safe_recordDispute k : valid_ptp br k → has_cfg k → safe_op (recordDispute k).
Proof. intros. unfold recordDispute. safe_auto. Qed.

Lemma safe_recordMastered k : valid_ptp br k → has_cfg k → safe_op (recordMastered k).
Proof. intros. unfold recordMastered. safe_auto. Qed.

Lemma safe_recordPriority k : valid_ptp br k → safe_op (recordPriority k).
Proof. intros. unfold recordPriority. safe_auto. Qed.

Lemma safe_recordProposal k : valid_ptp br k → has_cfg k → safe_op (recordProposal k).
Proof. intros. unfold recordProposal. safe_auto. Qed.

Lemma safe_recordTimes k : valid_ptp br k → safe_op (recordTimes k).
Proof. intros. unfold recordTimes. safe_auto. Qed.

Lemma safe_setTcFlags k : valid_ptp br k → has_cfg k → safe_op (setTcFlags k).
Proof. intros. unfold setTcFlags. safe_auto. Qed.

Lemma safe_updtBPDUVersion p : p ∈ br_ports br → safe_op (updtBPDUVersion p).
Proof. intros. unfold updtBPDUVersion. safe_auto. Qed.

Lemma safe_updtRcvdInfoWhile k : valid_ptp br k → safe_op (updtRcvdInfoWhile k).
Proof. intros. unfold updtRcvdInfoWhile. safe_auto. Qed.

Lemma safe_updtbrAssuRcvdInfoWhile p :
  p ∈ br_ports br → safe_op (updtbrAssuRcvdInfoWhile p).
Proof. intros. unfold updtbrAssuRcvdInfoWhile. safe_auto. Qed.

Hint Resolve safe_rcvInfo safe_recordAgreement safe_recordDispute safe_recordMastered
  safe_recordPriority safe_recordProposal safe_recordTimes safe_setTcFlags
  safe_updtBPDUVersion safe_updtRcvdInfoWhile safe_updtbrAssuRcvdInfoWhile : safe.

(** The flush never reaches the re-entry, so any safe one will do. *)
Lemma safe_set_fdbFlush k : valid_ptp br k → safe_op (set_fdbFlush k).
Proof.
  intros Hk w Hw. unfold set_fdbFlush, wp. rewrite (set_fdbFlush_rerun fault skip).
  revert w Hw. change (safe_op (set_fdbFlush_with skip k)).
  unfold set_fdbFlush_with, MSTP_OUT_flush_all_fids, driver_flush_all_fids,
    MSTP_IN_all_fids_flushed_with. safe_auto.
Qed.

Lemma safe_find_msti_msg msgs i n t :
  (i + n <= length msgs)%nat →
  safe br K (λ o, ∀ j, o = Some j → (j < length msgs)%nat) (find_msti_msg msgs i n t).
Proof.
  revert i. induction n as [|n IH]; intros i Hi; cbn [find_msti_msg]; [by apply safe_ret|].
  destruct (lookup_lt_is_Some_2 msgs i) as [m Hm]; [lia|]. rewrite Hm.
  apply (safe_bind _ _ (λ x, x = m)); [by apply safe_ret|]. intros ? ->.
  destruct (_ =? t); [apply safe_ret; intros ? [= <-]; lia|]. apply IH. lia.
Qed.

Lemma safe_setRcvdMsgs p : p ∈ br_ports br → safe_op (setRcvdMsgs p).
Proof.
  intros Hp. unfold setRcvdMsgs. safe_step. safe_step.
  { apply safe_upd_ptp; [safe_side| |safe_side]. intros x _ _ Hne. by destruct Hne. }
  safe_step. apply safe_when. safe_step. apply safe_for_each. intros k Hk.
  destruct H as [_ Hlen Hnum]. eapply safe_bind; [apply safe_find_msti_msg; lia|].
  intros [i|] Hi; [|safe_auto]. specialize (Hi i eq_refl). rewrite Hlen in Hi.
  apply safe_upd_ptp; [by apply Hl| |].
  - intros x' _ _ _ _. by exists i.
  - intros x' _. by exists i.
Qed.

Lemma safe_txConfig p : p ∈ br_ports br → safe_op (txConfig p).
Proof. intros. unfold txConfig. safe_auto. Qed.

Lemma safe_txTcn p : p ∈ br_ports br → safe_op (txTcn p).
Proof. intros. unfold txTcn. safe_auto. Qed.

Lemma safe_txMstp_mstis l i b :
  (∀ k, k ∈ l → valid_ptp br k) → (i + length l <= length (mstConfiguration b))%nat →
  safe_op (txMstp_mstis l i b).
Proof.
  revert i b. induction l as [|k l IH]; intros i b Hl Hi; cbn [txMstp_mstis]; [safe_auto|].
  simpl in Hi. apply safe_get_ptp; [apply Hl; by left|]. intros x _.
  destruct (Nat.ltb_spec i (length (mstConfiguration b))); [|lia].
  apply IH; [intros; apply Hl; by right|]. cbn. rewrite length_insert. lia.
Qed.

Lemma safe_txMstp p : p ∈ br_ports br → safe_op (txMstp p).
Proof.
  intros. unfold txMstp. safe_step. safe_step. safe_step. safe_step. safe_step; [safe_auto|].
  safe_step; [safe_auto|]. safe_step. apply safe_seq; [|intros []; safe_auto].
  apply safe_txMstp_mstis; [intros; by apply Hl|]. change (length (mstConfiguration _)) with 64%nat. lia.
Qed.
End procs.
#[export] Hint Resolve safe_MSTP_OUT_set_state safe_MSTP_OUT_set_ageing_time
  safe_MSTP_OUT_tx_bpdu safe_MSTP_OUT_shutdown_port safe_set_newInfoXst safe_set_TopologyChange
  safe_newTcWhile safe_betterorsameInfo safe_clearAllRcvdMsgs safe_clearReselectTree
  safe_fromSameRegion safe_setReRootTree safe_setSelectedTree safe_setSyncTree
  safe_setTcPropTree safe_syncMaster safe_updtRolesDisabledTree safe_reselectMSTIs
  safe_rcvInfo safe_recordAgreement safe_recordDispute safe_recordMastered safe_recordPriority
  safe_recordProposal safe_recordTimes safe_setTcFlags safe_updtBPDUVersion
  safe_updtRcvdInfoWhile safe_updtbrAssuRcvdInfoWhile safe_set_fdbFlush safe_setRcvdMsgs
  safe_txConfig safe_txTcn safe_txMstp : safe.

(** ** Role selection *)

Section roles.
Context (br : bridge_t) (Hbr : wf_bridge br) (K : list ptp_id).
Local Abbreviation safe_op m := (safe br K (λ _, True) m).

Lemma safe_select_root t l r :
  t ∈ br_trees br → (∀ k, k ∈ l → valid_ptp br k) → (∀ k, r = Some k → valid_ptp br k) →
  safe br K (λ r', ∀ k, r' = Some k → valid_ptp br k) (select_root t l r).
Proof.
  intros Ht. revert r. induction l as [|k l IH]; intros r Hl Hr; cbn [select_root].
  { by apply safe_ret. }
  assert (Hk : valid_ptp br k) by (apply Hl; by left).
  assert (Hl' : ∀ k', k' ∈ l → valid_ptp br k') by (intros; apply Hl; by right).
  safe_step. safe_step. safe_step. safe_step; [|by apply IH].
  apply safe_seq; [safe_auto|]. intros _. apply IH; [done|]. by intros ? [= <-].
Qed.

Lemma safe_set_rootTimes t r :
  t ∈ br_trees br → (∀ k, r = Some k → valid_ptp br k) → safe_op (set_rootTimes t r).
Proof.
  intros Ht Hr. unfold set_rootTimes. destruct r as [k|]; [specialize (Hr k eq_refl)|]; safe_auto.
Qed.

Lemma safe_set_designated t k :
  t ∈ br_trees br → valid_ptp br k → safe_op (set_designated t k).
Proof. intros. unfold set_designated. safe_auto. Qed.

Lemma safe_select_role t r k :
  t ∈ br_trees br → valid_ptp br k → safe_op (select_role t r k).
Proof. intros. unfold select_role. safe_auto. Qed.

Hint Resolve safe_set_rootTimes safe_set_designated safe_select_role : safe.

Lemma safe_updtRolesTree t : t ∈ br_trees br → safe_op (updtRolesTree t).
Proof.
  intros Ht. unfold updtRolesTree. safe_step. safe_step; [safe_auto|]. safe_step.
  eapply safe_bind; [apply safe_select_root; [done| |done]|].
  { intros k Hk. by eapply valid_ptp_tree. }
  intros r Hr. safe_auto.
Qed.

Hint Resolve safe_updtRolesTree : safe.

Lemma safe_PRSSM_to_INIT_TREE t : t ∈ br_trees br → safe_op (PRSSM_to_INIT_TREE t).
Proof. intros. unfold PRSSM_to_INIT_TREE. safe_auto. Qed.

Lemma safe_PRSSM_run t dry : t ∈ br_trees br → safe_op (PRSSM_run t dry).
Proof. intros. unfold PRSSM_run, PRSSM_to_ROLE_SELECTION. safe_auto. Qed.
End roles.
#[export] Hint Resolve safe_PRSSM_to_INIT_TREE safe_PRSSM_run : safe.

(** ** The machines of a port *)

Section ports.
Context (br : bridge_t) (Hbr : wf_bridge br) (K : list ptp_id).
Local Abbreviation safe_op m := (safe br K (λ _, True) m).

Lemma safe_PTSM_tick p : p ∈ br_ports br → safe_op (PTSM_tick p).
Proof. intros. unfold PTSM_tick. safe_auto. Qed.

Lemma safe_PRSM_run p dry : p ∈ br_ports br → safe_op (PRSM_run p dry).
Proof. intros. unfold PRSM_run, PRSM_to_DISCARD, PRSM_to_RECEIVE. safe_auto. Qed.

Lemma safe_PRSM_begin p : p ∈ br_ports br → safe_op (PRSM_begin p).
Proof. intros. unfold PRSM_begin, PRSM_to_DISCARD. safe_auto. Qed.

Lemma safe_PPMSM_begin p : p ∈ br_ports br → safe_op (PPMSM_begin p).
Proof. intros. unfold PPMSM_begin, PPMSM_to_CHECKING_RSTP. safe_auto. Qed.

Lemma safe_PPMSM_runf n p dry : p ∈ br_ports br → safe_op (PPMSM_runf n p dry).
Proof.
  intros Hp. revert dry. induction n as [|n IH]; intros dry; cbn [PPMSM_runf]; [safe_auto|].
  unfold PPMSM_to_CHECKING_RSTP, PPMSM_to_SENSING, PPMSM_to_SELECTING_STP. safe_auto.
Qed.

Lemma safe_BDSM_begin p : p ∈ br_ports br → safe_op (BDSM_begin p).
Proof. intros. unfold BDSM_begin, BDSM_to_EDGE, BDSM_to_NOT_EDGE. safe_auto. Qed.

Lemma safe_BDSM_run p dry : p ∈ br_ports br → safe_op (BDSM_run p dry).
Proof. intros. unfold BDSM_run, BDSM_to_EDGE, BDSM_to_NOT_EDGE. safe_auto. Qed.

Lemma safe_PTSM_to_TRANSMIT_INIT run p b dry :
  p ∈ br_ports br → safe_op run → safe_op (PTSM_to_TRANSMIT_INIT run p b dry).
Proof. intros. unfold PTSM_to_TRANSMIT_INIT. safe_auto. Qed.
Hint Resolve safe_PTSM_to_TRANSMIT_INIT : safe.

Lemma safe_PTSM_begin p : p ∈ br_ports br → safe_op (PTSM_begin p).
Proof. intros. unfold PTSM_begin. safe_auto. Qed.

Lemma safe_allTransmitReady l b :
  (∀ k, k ∈ l → valid_ptp br k) → safe_op (allTransmitReady l b).
Proof.
  revert b. induction l as [|k l IH]; intros b Hl; cbn [allTransmitReady]; [safe_auto|].
  apply safe_get_ptp; [apply Hl; by left|]. intros x _. destruct (_ || _); [safe_auto|].
  apply IH. intros; apply Hl; by right.
Qed.

Lemma safe_PTSM_runf n p dry : p ∈ br_ports br → safe_op (PTSM_runf n p dry).
Proof.
  intros Hp. revert dry. induction n as [|n IH]; intros dry; cbn [PTSM_runf]; [safe_auto|].
  unfold PTSM_to_IDLE, PTSM_to_TRANSMIT_PERIODIC, PTSM_to_TRANSMIT_RSTP,
    PTSM_to_TRANSMIT_CONFIG, PTSM_to_TRANSMIT_TCN, incr_txCount.
  repeat lazymatch goal with
  | |- safe _ _ _ (allTransmitReady _ _ ≫= _) =>
      apply safe_seq; [apply safe_allTransmitReady; intros; by apply Hl|intros [?|]]
  | _ => safe_step
  end.
Qed.
End ports.
#[export] Hint Resolve safe_PTSM_tick safe_PRSM_run safe_PRSM_begin safe_PPMSM_begin
  safe_PPMSM_runf safe_BDSM_begin safe_BDSM_run safe_PTSM_begin safe_PTSM_runf : safe.

(** ** The machines of a per-tree port *)

Section ptps.
Context (br : bridge_t) (Hbr : wf_bridge br).
Local Abbreviation safe_op K m := (safe br K (λ _, True) m).

Lemma has_cfg_msg K k x :
  wf_ptp (ptp_tree k) x → (cfg_ok x → k ∈ K) →
  rcvdMsg x = true ∨ PISM_state x = PISM_RECEIVE → has_cfg K k.
Proof. intros Hx HK H Ht. auto. Qed.

Lemma safe_set_PISM K s k :
  valid_ptp br k → s ≠ PISM_RECEIVE ∨ has_cfg K k → safe_op K (set_PISM s k).
Proof.
  intros Hk Hs. unfold set_PISM. apply safe_upd_ptp; [done| |safe_side].
  intros x HK Hx Ht; cbn. destruct Hs as [Hs|Hs].
  - intros [?|?]; [apply Hx; auto|done].
  - intros _. apply HK, Hs, Ht.
Qed.
Hint Resolve safe_set_PISM : safe.

Lemma safe_PISM_to_DISABLED K run k b :
  valid_ptp br k → safe_op K run → safe_op K (PISM_to_DISABLED run k b).
Proof. intros. unfold PISM_to_DISABLED. safe_auto. Qed.

Lemma safe_PISM_begin K k : valid_ptp br k → safe_op K (PISM_begin k).
Proof. intros. apply safe_PISM_to_DISABLED; [done|apply safe_out_of_fuel]. Qed.

Lemma safe_PISM_to_AGED K run k :
  valid_ptp br k → safe_op K run → safe_op K (PISM_to_AGED run k).
Proof. intros. unfold PISM_to_AGED. safe_auto. Qed.

Lemma safe_PISM_to_UPDATE K run k :
  valid_ptp br k → safe_op K run → safe_op K (PISM_to_UPDATE run k).
Proof. intros. unfold PISM_to_UPDATE. safe_auto. Qed.

Lemma safe_PISM_to_CURRENT K run k :
  valid_ptp br k → safe_op K run → safe_op K (PISM_to_CURRENT run k).
Proof. intros. unfold PISM_to_CURRENT. safe_auto. Qed.

(** The states that handle the message. *)
Lemma safe_PISM_to_info K run k :
  valid_ptp br k → has_cfg K k → safe_op K run →
  safe_op K (PISM_to_SUPERIOR_DESIGNATED run k) ∧
  safe_op K (PISM_to_REPEATED_DESIGNATED run k) ∧
  safe_op K (PISM_to_INFERIOR_DESIGNATED run k) ∧
  safe_op K (PISM_to_NOT_DESIGNATED run k) ∧
  safe_op K (PISM_to_OTHER run k) ∧
  safe_op K (PISM_to_RECEIVE run k).
Proof.
  intros. unfold PISM_to_SUPERIOR_DESIGNATED, PISM_to_REPEATED_DESIGNATED,
    PISM_to_INFERIOR_DESIGNATED, PISM_to_NOT_DESIGNATED, PISM_to_OTHER, PISM_to_RECEIVE.
  repeat split; safe_auto.
Qed.

Lemma safe_PISM_xst K k x :
  valid_ptp br k → safe br K (λ r, r.1 = true → rcvdMsg x = true) (PISM_xst k x).
Proof.
  intros. unfold PISM_xst. destruct (_ =? 0); [by apply safe_ret|]. safe_step. safe_step.
  apply safe_ret. cbn. by intros [_ ?]%andb_true_iff.
Qed.

Lemma safe_PISM_runf n K k dry : valid_ptp br k → safe_op K (PISM_runf n k dry).
Proof.
  intros Hk. revert K dry. induction n as [|n IH]; intros K dry; cbn [PISM_runf]; [safe_auto|].
  cbv zeta. safe_step. apply safe_get_ptp_cfg; [done|]. intros ptp K' Hwf Hcfg.
  pose proof (has_cfg_msg _ _ _ Hwf Hcfg) as Hmsg.
  pose proof (λ H, safe_PISM_to_info K' _ k Hk H (IH K' false)) as Hinfo.
  safe_step; [unfold transition; safe_auto; by apply safe_PISM_to_DISABLED|].
  destruct (PISM_state ptp) eqn:Hst;
  repeat lazymatch goal with
  | |- safe _ _ _ (PISM_to_DISABLED _ _ _) => by apply safe_PISM_to_DISABLED
  | |- safe _ _ _ (PISM_to_AGED _ _) => by apply safe_PISM_to_AGED
  | |- safe _ _ _ (PISM_to_UPDATE _ _) => by apply safe_PISM_to_UPDATE
  | |- safe _ _ _ (PISM_to_CURRENT _ _) => by apply safe_PISM_to_CURRENT
  | |- safe _ _ _ (PISM_xst _ _ ≫= _) =>
      eapply safe_bind; [by apply safe_PISM_xst|intros [rcvdXstMsg updtXstInfo] Hxst; cbn in Hxst]
  | Hxst : _ → rcvdMsg ptp = true, H : _ && _ = true |- safe _ _ _ (PISM_to_RECEIVE _ _) =>
      apply Hinfo, Hmsg; left; apply Hxst; by apply andb_true_iff in H as [? _]
  | |- safe _ _ _ (PISM_to_SUPERIOR_DESIGNATED _ _) => by apply Hinfo, Hmsg; right
  | |- safe _ _ _ (PISM_to_REPEATED_DESIGNATED _ _) => by apply Hinfo, Hmsg; right
  | |- safe _ _ _ (PISM_to_INFERIOR_DESIGNATED _ _) => by apply Hinfo, Hmsg; right
  | |- safe _ _ _ (PISM_to_NOT_DESIGNATED _ _) => by apply Hinfo, Hmsg; right
  | |- safe _ _ _ (PISM_to_OTHER _ _) => by apply Hinfo, Hmsg; right
  | _ => safe_step
  end.
Qed.
End ptps.
#[export] Hint Resolve safe_PISM_begin safe_PISM_runf : safe.

Section tree_machines.
Context (br : bridge_t) (Hbr : wf_bridge br) (K : list ptp_id).
Local Abbreviation safe_op m := (safe br K (λ _, True) m).

Lemma safe_PSTSM_set_state k st : valid_ptp br k → safe_op (PSTSM_set_state k st).
Proof. intros. unfold PSTSM_set_state. safe_auto. Qed.
Hint Resolve safe_PSTSM_set_state : safe.

Lemma safe_PSTSM_begin k : valid_ptp br k → safe_op (PSTSM_begin k).
Proof. intros. unfold PSTSM_begin, PSTSM_to_DISCARDING. safe_auto. Qed.

Lemma safe_PSTSM_runf n k dry : valid_ptp br k → safe_op (PSTSM_runf n k dry).
Proof.
  intros Hk. revert dry. induction n as [|n IH]; intros dry; cbn [PSTSM_runf]; [safe_auto|].
  unfold PSTSM_to_LEARNING, PSTSM_to_DISCARDING, PSTSM_to_FORWARDING. safe_auto.
Qed.

Lemma safe_set_TCSM s k : valid_ptp br k → safe_op (set_TCSM s k).
Proof. intros. unfold set_TCSM. safe_auto. Qed.
Hint Resolve safe_set_TCSM : safe.

Lemma safe_TCSM_to_INACTIVE run k b :
  valid_ptp br k → safe_op run → safe_op (TCSM_to_INACTIVE run k b).
Proof. intros. unfold TCSM_to_INACTIVE. safe_auto. Qed.

Lemma safe_TCSM_to_LEARNING run k dry :
  valid_ptp br k → safe_op run → safe_op (TCSM_to_LEARNING run k dry).
Proof. intros. unfold TCSM_to_LEARNING. safe_auto. Qed.
Hint Resolve safe_TCSM_to_INACTIVE safe_TCSM_to_LEARNING : safe.

Lemma safe_TCSM_begin k : valid_ptp br k → safe_op (TCSM_begin k).
Proof. intros. unfold TCSM_begin. safe_auto. Qed.

Lemma safe_TCSM_runf n k dry : valid_ptp br k → safe_op (TCSM_runf n k dry).
Proof.
  intros Hk. revert dry. induction n as [|n IH]; intros dry; cbn [TCSM_runf]; [safe_auto|].
  unfold TCSM_to_DETECTED, TCSM_to_NOTIFIED_TCN, TCSM_to_NOTIFIED_TC, TCSM_to_PROPAGATING,
    TCSM_to_ACKNOWLEDGED, TCSM_to_ACTIVE. safe_auto.
Qed.

(** *** Port Role Transitions *)

Lemma safe_PRTSM_enter run k s f extra :
  valid_ptp br k → safe_op run → safe_op extra →
  (∀ x, (k ∈ K → cfg_ok x) → wf_ptp (ptp_tree k) x → wf_ptp (ptp_tree k) (f x)) →
  (∀ x, cfg_ok x → cfg_ok (f x)) →
  safe_op (PRTSM_enter run k s f extra).
Proof.
  intros. unfold PRTSM_enter. safe_step; [safe_auto|]. safe_step; [done|].
  safe_step; [by apply safe_upd_ptp|]. safe_auto.
Qed.

Lemma safe_PRTSM_change_role run v k dry r :
  valid_ptp br k → safe_op run → safe_op (PRTSM_change_role run v k dry r).
Proof.
  intros. unfold PRTSM_change_role, transition.
  destruct dry; [safe_auto|]. safe_step; [|safe_auto].
  destruct r; apply safe_PRTSM_enter; solve [safe_auto | safe_side].
Qed.

Lemma safe_PRTSM_switch run v k dry prt ptp b :
  valid_ptp br k → safe_op run → safe_op (PRTSM_switch run v k dry prt ptp b).
Proof.
  intros. unfold PRTSM_switch, PRTSM_master_port, PRTSM_root_port, PRTSM_designated_port,
    PRTSM_alternate_port, PRTSM_reRooted.
  repeat first
    [ apply safe_PRTSM_enter; solve [done | safe_auto | safe_side]
    | safe_step
    | match goal with |- safe _ _ _ ?m => let h := head_of m in unfold h end ].
Qed.
End tree_machines.
#[export] Hint Resolve safe_PSTSM_begin safe_PSTSM_runf safe_TCSM_begin safe_TCSM_runf
  safe_PRTSM_change_role safe_PRTSM_switch : safe.

(** ** All machines *)

Section bridge.
Context (br : bridge_t) (Hbr : wf_bridge br) (K : list ptp_id).
Local Abbreviation safe_op m := (safe br K (λ _, True) m).

Lemma safe_PRTSM_allSynced k : valid_ptp br k → safe_op (PRTSM_allSynced k).
Proof. intros. unfold PRTSM_allSynced. safe_auto. Qed.
Hint Resolve safe_PRTSM_allSynced : safe.

Lemma safe_PRTSM_runf n v k dry : valid_ptp br k → safe_op (PRTSM_runf n v k dry).
Proof.
  intros Hk. revert dry. induction n as [|n IH]; intros dry; cbn [PRTSM_runf]; safe_auto.
Qed.
Hint Resolve safe_PRTSM_runf : safe.

Lemma safe_PRTSM_run k dry : valid_ptp br k → safe_op (PRTSM_run k dry).
Proof.
  intros. unfold PRTSM_run. safe_step; [|safe_auto]. unfold PRTSM_vars. safe_auto.
  all: unfold get_tree; intros w Hw; destruct (inv_tree _ _ _ Hw (ptp_tree k) (proj2 H))
    as (x' & Hx & _); unfold wp; rewrite Hx; done.
Qed.

Lemma safe_PRTSM_begin k : valid_ptp br k → safe_op (PRTSM_begin k).
Proof. intros. unfold PRTSM_begin, PRTSM_to_INIT_PORT. safe_auto. Qed.

Lemma safe_BA_run p dry : p ∈ br_ports br → safe_op (BA_run p dry).
Proof. intros. unfold BA_run. safe_auto. Qed.

Lemma safe_or_else a b : safe_op a → safe_op b → safe_op (or_else a b).
Proof. intros. unfold or_else. safe_auto. Qed.

Lemma safe_run_ports dry sm :
  (∀ p, p ∈ br_ports br → safe_op (sm p dry)) → safe_op (run_ports dry sm).
Proof. intros. unfold run_ports. safe_auto. Qed.

Lemma safe_run_trees dry sm :
  (∀ t, t ∈ br_trees br → safe_op (sm t dry)) → safe_op (run_trees dry sm).
Proof. intros. unfold run_trees. safe_auto. Qed.

Lemma safe_run_ptps dry sm :
  (∀ k, valid_ptp br k → safe_op (sm k dry)) → safe_op (run_ptps dry sm).
Proof. intros. unfold run_ptps. safe_auto. Qed.
Hint Resolve safe_PRTSM_run safe_PRTSM_begin safe_BA_run : safe.

Lemma safe_br_state_machines_run_once dry : safe_op (__br_state_machines_run dry).
Proof.
  unfold __br_state_machines_run.
  repeat apply safe_or_else;
  first [apply safe_run_ports | apply safe_run_trees | apply safe_run_ptps]; intros;
  unfold PPMSM_run, PTSM_run, PISM_run, PSTSM_run, TCSM_run; auto with safe.
Qed.
Hint Resolve safe_br_state_machines_run_once : safe.

Lemma safe_br_state_machines_loop n tv : safe_op (br_state_machines_loop n tv).
Proof. induction n as [|n IH]; cbn [br_state_machines_loop]; safe_auto. Qed.
Hint Resolve safe_br_state_machines_loop : safe.

Lemma safe_br_state_machines_run : safe_op br_state_machines_run.
Proof. unfold br_state_machines_run. safe_auto. Qed.
Hint Resolve safe_br_state_machines_run : safe.

Lemma safe_ptp_begin k : valid_ptp br k → safe_op (ptp_begin k).
Proof. intros. unfold ptp_begin. safe_auto. Qed.
Hint Resolve safe_ptp_begin : safe.

Lemma safe_tree_state_machines_begin t :
  t ∈ br_trees br → safe_op (tree_state_machines_begin t).
Proof. intros. unfold tree_state_machines_begin, PRSSM_begin. safe_auto. Qed.

Lemma safe_prt_state_machines_begin p :
  p ∈ br_ports br → safe_op (prt_state_machines_begin p).
Proof. intros. unfold prt_state_machines_begin. safe_auto. Qed.

Lemma safe_br_state_machines_begin : safe_op br_state_machines_begin.
Proof. unfold br_state_machines_begin, PRSSM_begin. safe_auto. Qed.
End bridge.
#[export] Hint Resolve safe_br_state_machines_run safe_tree_state_machines_begin
  safe_prt_state_machines_begin safe_br_state_machines_begin : safe.
