(* ===== verification/Links.v ===== *)
(** Linking and unlinking: while a port or a tree is being created or deleted,
    some of the intrusive lists already hold it and others do not.  [PortLink] and
    [TreeLink] describe these intermediate worlds; they start and end in [Inv]. *)
From S2P Require Import Prelude Types Monad Md5 Vectors Outputs Procs RoleSelect PortSM TreeSM.
From S2P Require Import Prtsm Bridge Mgmt Wf.

(** ** A port being linked *)

Definition wf_port_data (x : port_t) : Prop :=
  length (mstConfiguration (rcvdBpduData x)) = 64%nat ∧ 0 <= rcvdBpduNumOfMstis x <= 64.

(** [base]: the ports without [p]; [L]: the ports with [p]; [done]: the trees
    that have [p]. *)
Record PortLink (br : bridge_t) (base L : list port_id) (p : port_id) (done : list tree_id)
    (w : world) : Prop := {
  pl_br : w_br w = br;
  pl_port q : q ∈ base →
    ∃ x, w_ports w !! q = Some x ∧ prt_trees x = br_trees br ∧ wf_port_data x;
  pl_self : ∃ x, w_ports w !! p = Some x ∧ prt_trees x = done ∧ wf_port_data x;
  pl_tree t : t ∈ br_trees br →
    ∃ x, w_trees w !! t = Some x ∧ tree_ports x = if decide (t ∈ done) then L else base;
  pl_ptp q t : q ∈ base → t ∈ br_trees br → ∃ x, w_ptps w !! (q, t) = Some x ∧ wf_ptp t x;
  pl_new t : t ∈ done → ∃ x, w_ptps w !! (p, t) = Some x ∧ wf_ptp t x
}.

Section port_link.
Context (br : bridge_t) (base L : list port_id) (p : port_id).
Context (Hp : p ∉ base) (HL : list_del p L = base) (Htrees : NoDup (br_trees br)).

Lemma PortLink_unlink done t w :
  t ∉ done → t ∈ br_trees br →
  PortLink br base L p (t :: done) w →
  wp True (unlink_ptp (p, t)) (λ _, PortLink br base L p done) w.
Proof.
  intros Ht Hin HJ. unfold unlink_ptp. cbn [ptp_port ptp_tree fst snd].
  destruct (pl_self _ _ _ _ _ _ HJ) as (x & Hx & Hxt & Hxd).
  destruct (pl_tree _ _ _ _ _ _ HJ t Hin) as (y & Hy & Hyp).
  rewrite decide_True in Hyp by (by left).
  eapply wp_bind, wp_upd_port; [done|]. eapply wp_bind, wp_upd_tree; [done|].
  unfold wp, free_ptp. split; cbn.
  - apply HJ.
  - intros q Hq. rewrite lookup_insert_ne by (by intros ->). by apply HJ.
  - rewrite lookup_insert_eq. eexists; split; [done|]. cbn. rewrite Hxt. split; [|done].
    by apply list_del_cons.
  - intros u Hu. destruct (decide (t = u)) as [<-|Hne].
    + rewrite lookup_insert_eq. eexists; split; [done|]. cbn.
      rewrite decide_False by done. by rewrite Hyp.
    + rewrite lookup_insert_ne by done.
      destruct (pl_tree _ _ _ _ _ _ HJ u Hu) as (z & Hz & Hzp). exists z; split; [done|].
      rewrite Hzp. apply decide_ext. rewrite elem_of_cons.
      split; [by intros [?|?]|auto].
  - intros q u Hq Hu. rewrite lookup_delete_ne by congruence. by apply HJ.
  - intros u Hu. rewrite lookup_delete_ne by congruence.
    apply (pl_new _ _ _ _ _ _ HJ). by right.
Qed.

Lemma PortLink_unlink_list done w :
  NoDup done → (∀ t, t ∈ done → t ∈ br_trees br) →
  PortLink br base L p done w →
  wp True (for_each (map (λ t, (p, t)) done) unlink_ptp) (λ _, PortLink br base L p []) w.
Proof.
  revert w. induction done as [|t done IH]; intros w Hnd Hin HJ; simpl; [done|].
  apply NoDup_cons in Hnd as [Ht Hnd].
  apply wp_bind. eapply wp_mono; [apply (PortLink_unlink done); [done|apply Hin; by left|done]|].
  intros ? w' HJ'. apply IH; [done| |done]. intros; apply Hin; by right.
Qed.

Lemma PortLink_unlink_all done w :
  NoDup done → (∀ t, t ∈ done → t ∈ br_trees br) →
  PortLink br base L p done w →
  wp True (FOREACH_PTP_IN_PORT p unlink_ptp) (λ _, PortLink br base L p []) w.
Proof.
  intros Hnd Hin HJ. unfold FOREACH_PTP_IN_PORT, ptps_of_port.
  destruct (pl_self _ _ _ _ _ _ HJ) as (x & Hx & <- & _).
  apply wp_bind. eapply wp_bind, wp_get_port; [done|]. apply wp_ret.
  by apply PortLink_unlink_list.
Qed.

(** One more tree: the allocation fails and nothing changes, or the new entry is
    linked into both lists. *)
Lemma PortLink_create_ptp t done w :
  t ∈ br_trees br → PortLink br base L p done w →
  wp True (create_ptp t p) (λ k w', PortLink br base L p done w' ∧
    (is_Some k → ∃ x, w_ptps w' !! (p, t) = Some x ∧ wf_ptp t x)) w.
Proof.
  intros Hin HJ. unfold create_ptp. apply wp_bind.
  assert (Hok : wp True calloc_ok (λ _, PortLink br base L p done) w).
  { unfold wp, calloc_ok. destruct (w_calloc w); [done|]. split; apply HJ. }
  eapply wp_mono; [exact Hok|]. intros [] w1 HJ1; cbn [negb]; [|apply wp_ret; split; [done|by intros [? [=]]]].
  destruct (pl_tree _ _ _ _ _ _ HJ1 t Hin) as (y & Hy & _).
  destruct (pl_self _ _ _ _ _ _ HJ1) as (x & Hx & _).
  eapply wp_bind, wp_get_tree; [done|]. eapply wp_bind, wp_get_port; [done|].
  apply wp_bind. unfold wp at 1, new_ptp. apply wp_ret. cbn. rewrite lookup_insert_eq.
  split; [|intros _; eexists; split; [done|by intros _ [?|?]]].
  split; cbn; try apply HJ1.
  - intros q u Hq Hu. rewrite lookup_insert_ne by congruence. by apply HJ1.
  - intros u Hu. destruct (decide (t = u)) as [<-|Hne].
    + rewrite lookup_insert_eq. eexists; split; [done|]. by intros _ [?|?].
    + rewrite lookup_insert_ne by congruence. by apply (pl_new _ _ _ _ _ _ HJ1).
Qed.

Lemma PortLink_link t done w x m (Q : bool → world → Prop) :
  L = base ++ [p] → t ∉ done → t ∈ br_trees br →
  PortLink br base L p done w → w_ptps w !! (p, t) = Some x → wf_ptp t x →
  (∀ w', PortLink br base L p (done ++ [t]) w' → wp True m Q w') →
  wp True (upd_port p (λ x, x <| prt_trees ::= λ s, s ++ [t] |>) ;;
           upd_tree t (λ x, x <| tree_ports ::= λ s, s ++ [p] |>) ;; m) Q w.
Proof.
  intros HL' Ht Hin HJ Hk Hwf Hm.
  destruct (pl_tree _ _ _ _ _ _ HJ t Hin) as (y & Hy & Hyp).
  destruct (pl_self _ _ _ _ _ _ HJ) as (z & Hz & Hzt & Hzd).
  rewrite decide_False in Hyp by done.
  eapply wp_bind, wp_upd_port; [done|]. eapply wp_bind, wp_upd_tree; [done|].
  apply Hm. split; cbn.
  - apply HJ.
  - intros q Hq. rewrite lookup_insert_ne by (by intros ->). by apply HJ.
  - rewrite lookup_insert_eq. eexists; split; [done|]. cbn. by rewrite Hzt.
  - intros u Hu. destruct (decide (t = u)) as [<-|Hne].
    + rewrite lookup_insert_eq. eexists; split; [done|]. cbn.
      rewrite decide_True by (apply elem_of_app; right; by left). by rewrite Hyp, HL'.
    + rewrite lookup_insert_ne by done.
      destruct (pl_tree _ _ _ _ _ _ HJ u Hu) as (v & Hv & Hvp). exists v; split; [done|].
      rewrite Hvp. apply decide_ext. rewrite elem_of_app, list_elem_of_singleton.
      split; [by left|]. by intros [?|<-].
  - apply HJ.
  - intros u [Hu| ->%list_elem_of_singleton]%elem_of_app; [by apply (pl_new _ _ _ _ _ _ HJ)|eauto].
Qed.

Lemma PortLink_create rest done w :
  L = base ++ [p] → br_trees br = done ++ rest →
  PortLink br base L p done w →
  wp True (create_ptps_of_port p rest) (λ ok w', ∃ done',
    PortLink br base L p done' w' ∧ NoDup done' ∧ (∀ t, t ∈ done' → t ∈ br_trees br) ∧
    (ok = true → done' = br_trees br)) w.
Proof.
  intros HL'. revert done w. induction rest as [|t rest IH]; intros done w Hsplit HJ; simpl.
  { rewrite app_nil_r in Hsplit. apply wp_ret. exists done. subst done. by eauto. }
  rewrite Hsplit in Htrees. apply NoDup_app in Htrees as (Hnd & Hd & _).
  assert (Ht : t ∉ done) by (intros Ht; apply (Hd t Ht); by left).
  assert (Hin : ∀ u, u ∈ done ∨ u = t → u ∈ br_trees br).
  { intros u Hu. rewrite Hsplit, elem_of_app, elem_of_cons. tauto. }
  apply wp_bind. eapply wp_mono; [apply (PortLink_create_ptp t done); auto|].
  intros [k|] w' [HJ' Hk].
  - destruct (Hk ltac:(eauto)) as (x & Hx & Hwf).
    eapply (PortLink_link t done _ x); auto. intros w'' HJ''. apply (IH (done ++ [t])); [|done].
    by rewrite <- app_assoc.
  - apply wp_ret. exists done. split; [done|]. split; [done|]. split; [auto|done].
Qed.
End port_link.

(** From and to the invariant. *)
Section port_link_inv.
Context (br : bridge_t) (p : port_id).

Lemma Inv_PortLink w :
  p ∈ br_ports br → Inv br [] w →
  PortLink br (list_del p (br_ports br)) (br_ports br) p (br_trees br) w.
Proof.
  intros Hp Hw. split.
  - apply Hw.
  - intros q [Hq _]%elem_of_list_del. destruct (inv_port _ _ _ Hw q Hq) as (x & Hx & [? ? ?]).
    exists x. split; [done|]. split; [done|by split].
  - destruct (inv_port _ _ _ Hw p Hp) as (x & Hx & [? ? ?]).
    exists x. split; [done|]. split; [done|by split].
  - intros t Ht. rewrite decide_True by done. by apply (inv_tree _ _ _ Hw).
  - intros q t [Hq _]%elem_of_list_del Ht. by apply (inv_ptp _ _ _ Hw (q, t) (conj Hq Ht)).
  - intros t Ht. by apply (inv_ptp _ _ _ Hw (p, t) (conj Hp Ht)).
Qed.

Lemma PortLink_Inv base L done br' w :
  PortLink br base L p done w →
  br_trees br' = br_trees br →
  (done = [] ∧ br_ports br' = base) ∨
  (done = br_trees br ∧ br_ports br' = L ∧ ∀ q, q ∈ L → q ∈ base ∨ q = p) →
  Inv br' [] (w <| w_br := br' |>).
Proof.
  intros HJ Ht Hcase. split; cbn; [done|..].
  - intros q Hq.
    assert (q ∈ base ∨ (q = p ∧ done = br_trees br)) as [Hq'|[-> Hd]].
    { destruct Hcase as [[-> Hb]|(-> & Hb & HL)]; rewrite Hb in Hq; [auto|].
      destruct (HL q Hq); auto. }
    + destruct (pl_port _ _ _ _ _ _ HJ q Hq') as (x & Hx & Hxt & [? ?]).
      exists x. split; [done|]. split; [congruence|done..].
    + destruct (pl_self _ _ _ _ _ _ HJ) as (x & Hx & Hxt & [? ?]).
      exists x. split; [done|]. split; [congruence|done..].
  - intros t Hin. rewrite Ht in Hin. destruct (pl_tree _ _ _ _ _ _ HJ t Hin) as (x & Hx & Hxp).
    exists x. split; [done|]. unfold wf_tree. rewrite Hxp.
    destruct Hcase as [[-> Hb]|(-> & Hb & _)].
    + by rewrite decide_False by apply not_elem_of_nil.
    + by rewrite decide_True.
  - intros [q t] [Hq Hin]; cbn in *. rewrite Ht in Hin.
    destruct Hcase as [[-> Hb]|(-> & Hb & HL)]; rewrite Hb in Hq; [by apply HJ|].
    destruct (HL q Hq) as [?| ->]; [by apply HJ|by apply (pl_new _ _ _ _ _ _ HJ)].
  - by intros ? ? ?%elem_of_nil.
Qed.
End port_link_inv.

(** ** A tree being linked *)

(** [base]: the trees without [t]; [L]: the trees with [t]; [done]: the ports
    that have [t]. *)
Record TreeLink (br : bridge_t) (base L : list tree_id) (t : tree_id) (done : list port_id)
    (w : world) : Prop := {
  tl_br : w_br w = br;
  tl_tree u : u ∈ base → ∃ x, w_trees w !! u = Some x ∧ tree_ports x = br_ports br;
  tl_self : ∃ x, w_trees w !! t = Some x ∧ tree_ports x = done;
  tl_port q : q ∈ br_ports br →
    ∃ x, w_ports w !! q = Some x ∧ prt_trees x = (if decide (q ∈ done) then L else base) ∧
         wf_port_data x;
  tl_ptp q u : q ∈ br_ports br → u ∈ base → ∃ x, w_ptps w !! (q, u) = Some x ∧ wf_ptp u x;
  tl_new q : q ∈ done → ∃ x, w_ptps w !! (q, t) = Some x ∧ wf_ptp t x
}.

Section tree_link.
Context (br : bridge_t) (base L : list tree_id) (t : tree_id).
Context (Ht : t ∉ base) (HL : list_del t L = base) (Hports : NoDup (br_ports br)).

Lemma TreeLink_unlink done q w :
  q ∉ done → q ∈ br_ports br →
  TreeLink br base L t (q :: done) w →
  wp True (unlink_ptp (q, t)) (λ _, TreeLink br base L t done) w.
Proof.
  intros Hq Hin HJ. unfold unlink_ptp. cbn [ptp_port ptp_tree fst snd].
  destruct (tl_self _ _ _ _ _ _ HJ) as (y & Hy & Hyp).
  destruct (tl_port _ _ _ _ _ _ HJ q Hin) as (x & Hx & Hxt & Hxd).
  rewrite decide_True in Hxt by (by left).
  eapply wp_bind, wp_upd_port; [done|]. eapply wp_bind, wp_upd_tree; [done|].
  unfold wp, free_ptp. split; cbn.
  - apply HJ.
  - intros u Hu. rewrite lookup_insert_ne by (by intros ->). by apply HJ.
  - rewrite lookup_insert_eq. eexists; split; [done|]. cbn. rewrite Hyp.
    by apply list_del_cons.
  - intros r Hr. destruct (decide (q = r)) as [<-|Hne].
    + rewrite lookup_insert_eq. eexists; split; [done|]. cbn.
      rewrite decide_False by done. by rewrite Hxt.
    + rewrite lookup_insert_ne by done.
      destruct (tl_port _ _ _ _ _ _ HJ r Hr) as (z & Hz & Hzt & Hzd). exists z; split; [done|].
      split; [|done]. rewrite Hzt. apply decide_ext. rewrite elem_of_cons.
      split; [by intros [?|?]|auto].
  - intros r u Hr Hu. rewrite lookup_delete_ne by congruence. by apply HJ.
  - intros r Hr. rewrite lookup_delete_ne by congruence.
    apply (tl_new _ _ _ _ _ _ HJ). by right.
Qed.

Lemma TreeLink_unlink_list done w :
  NoDup done → (∀ q, q ∈ done → q ∈ br_ports br) →
  TreeLink br base L t done w →
  wp True (for_each (map (λ q, (q, t)) done) unlink_ptp) (λ _, TreeLink br base L t []) w.
Proof.
  revert w. induction done as [|q done IH]; intros w Hnd Hin HJ; simpl; [done|].
  apply NoDup_cons in Hnd as [Hq Hnd].
  apply wp_bind. eapply wp_mono; [apply (TreeLink_unlink done); [done|apply Hin; by left|done]|].
  intros ? w' HJ'. apply IH; [done| |done]. intros; apply Hin; by right.
Qed.

Lemma TreeLink_unlink_all done w :
  NoDup done → (∀ q, q ∈ done → q ∈ br_ports br) →
  TreeLink br base L t done w →
  wp True (FOREACH_PTP_IN_TREE t unlink_ptp) (λ _, TreeLink br base L t []) w.
Proof.
  intros Hnd Hin HJ. unfold FOREACH_PTP_IN_TREE, ptps_of_tree.
  destruct (tl_self _ _ _ _ _ _ HJ) as (x & Hx & <-).
  apply wp_bind. eapply wp_bind, wp_get_tree; [done|]. apply wp_ret.
  by apply TreeLink_unlink_list.
Qed.

Lemma TreeLink_create_ptp q done w :
  q ∈ br_ports br → TreeLink br base L t done w →
  wp True (create_ptp t q) (λ k w', TreeLink br base L t done w' ∧
    (is_Some k → ∃ x, w_ptps w' !! (q, t) = Some x ∧ wf_ptp t x)) w.
Proof.
  intros Hin HJ. unfold create_ptp. apply wp_bind.
  assert (Hok : wp True calloc_ok (λ _, TreeLink br base L t done) w).
  { unfold wp, calloc_ok. destruct (w_calloc w); [done|]. split; apply HJ. }
  eapply wp_mono; [exact Hok|]. intros [] w1 HJ1; cbn [negb].
  2:{ apply wp_ret. split; [done|]. by intros [? [=]]. }
  destruct (tl_self _ _ _ _ _ _ HJ1) as (y & Hy & _).
  destruct (tl_port _ _ _ _ _ _ HJ1 q Hin) as (x & Hx & _).
  eapply wp_bind, wp_get_tree; [done|]. eapply wp_bind, wp_get_port; [done|].
  apply wp_bind. unfold wp at 1, new_ptp. apply wp_ret. cbn. rewrite lookup_insert_eq.
  split; [|intros _; eexists; split; [done|by intros _ [?|?]]].
  split; cbn; try apply HJ1.
  - intros r u Hr Hu. rewrite lookup_insert_ne by congruence. by apply HJ1.
  - intros r Hr. destruct (decide (q = r)) as [<-|Hne].
    + rewrite lookup_insert_eq. eexists; split; [done|]. by intros _ [?|?].
    + rewrite lookup_insert_ne by congruence. by apply (tl_new _ _ _ _ _ _ HJ1).
Qed.

Lemma TreeLink_link a q done w x m (Q : bool → world → Prop) :
  L = insert_after a t base → q ∉ done → q ∈ br_ports br →
  TreeLink br base L t done w → w_ptps w !! (q, t) = Some x → wf_ptp t x →
  (∀ w', TreeLink br base L t (done ++ [q]) w' → wp True m Q w') →
  wp True (upd_port q (λ x, x <| prt_trees ::= insert_after a t |>) ;;
           upd_tree t (λ x, x <| tree_ports ::= λ s, s ++ [q] |>) ;; m) Q w.
Proof.
  intros HL' Hq Hin HJ Hk Hwf Hm.
  destruct (tl_self _ _ _ _ _ _ HJ) as (y & Hy & Hyp).
  destruct (tl_port _ _ _ _ _ _ HJ q Hin) as (z & Hz & Hzt & Hzd).
  rewrite decide_False in Hzt by done.
  eapply wp_bind, wp_upd_port; [done|]. eapply wp_bind, wp_upd_tree; [done|].
  apply Hm. split; cbn.
  - apply HJ.
  - intros u Hu. rewrite lookup_insert_ne by (by intros ->). by apply HJ.
  - rewrite lookup_insert_eq. eexists; split; [done|]. cbn. by rewrite Hyp.
  - intros r Hr. destruct (decide (q = r)) as [<-|Hne].
    + rewrite lookup_insert_eq. eexists; split; [done|]. cbn.
      rewrite decide_True by (apply elem_of_app; right; by left). by rewrite Hzt, HL'.
    + rewrite lookup_insert_ne by done.
      destruct (tl_port _ _ _ _ _ _ HJ r Hr) as (v & Hv & Hvt & Hvd). exists v; split; [done|].
      split; [|done]. rewrite Hvt. apply decide_ext.
      rewrite elem_of_app, list_elem_of_singleton. split; [by left|]. by intros [?|<-].
  - apply HJ.
  - intros r [Hr| ->%list_elem_of_singleton]%elem_of_app;
      [by apply (tl_new _ _ _ _ _ _ HJ)|eauto].
Qed.

Lemma TreeLink_create a rest done w :
  L = insert_after a t base → br_ports br = done ++ rest →
  TreeLink br base L t done w →
  wp True (create_ptps_of_tree t a rest) (λ ok w', ∃ done',
    TreeLink br base L t done' w' ∧ NoDup done' ∧ (∀ q, q ∈ done' → q ∈ br_ports br) ∧
    (ok = true → done' = br_ports br)) w.
Proof.
  intros HL'. revert done w. induction rest as [|q rest IH]; intros done w Hsplit HJ; simpl.
  { rewrite app_nil_r in Hsplit. apply wp_ret. exists done. subst done. by eauto. }
  rewrite Hsplit in Hports. apply NoDup_app in Hports as (Hnd & Hd & _).
  assert (Hq : q ∉ done) by (intros Hq; apply (Hd q Hq); by left).
  assert (Hin : ∀ r, r ∈ done ∨ r = q → r ∈ br_ports br).
  { intros r Hr. rewrite Hsplit, elem_of_app, elem_of_cons. tauto. }
  apply wp_bind. eapply wp_mono; [apply (TreeLink_create_ptp q done); auto|].
  intros [k|] w' [HJ' Hk].
  - destruct (Hk ltac:(eauto)) as (x & Hx & Hwf).
    eapply (TreeLink_link a q done _ x); auto. intros w'' HJ''. apply (IH (done ++ [q])); [|done].
    by rewrite <- app_assoc.
  - apply wp_ret. exists done. split; [done|]. split; [done|]. split; [auto|done].
Qed.
End tree_link.

Section tree_link_inv.
Context (br : bridge_t) (t : tree_id).

Lemma Inv_TreeLink w :
  t ∈ br_trees br → Inv br [] w →
  TreeLink br (list_del t (br_trees br)) (br_trees br) t (br_ports br) w.
Proof.
  intros Ht Hw. split.
  - apply Hw.
  - intros u [Hu _]%elem_of_list_del. by apply (inv_tree _ _ _ Hw).
  - by apply (inv_tree _ _ _ Hw).
  - intros q Hq. rewrite decide_True by done.
    destruct (inv_port _ _ _ Hw q Hq) as (x & Hx & [? ? ?]). exists x. split; [done|].
    split; [done|by split].
  - intros q u Hq [Hu _]%elem_of_list_del. by apply (inv_ptp _ _ _ Hw (q, u) (conj Hq Hu)).
  - intros q Hq. by apply (inv_ptp _ _ _ Hw (q, t) (conj Hq Ht)).
Qed.

Lemma TreeLink_Inv base L done br' w w' :
  TreeLink br base L t done w →
  w_br w' = br' → w_ports w' = w_ports w → w_ptps w' = w_ptps w →
  (∀ u, u ∈ br_trees br' → w_trees w' !! u = w_trees w !! u) →
  br_ports br' = br_ports br →
  (done = [] ∧ br_trees br' = base) ∨
  (done = br_ports br ∧ br_trees br' = L ∧ ∀ u, u ∈ L → u ∈ base ∨ u = t) →
  Inv br' [] w'.
Proof.
  intros HJ Hbr Hwp Hwk Hwt Hports Hcase. split; [done|..].
  - intros q Hq. rewrite Hports in Hq. rewrite Hwp.
    destruct (tl_port _ _ _ _ _ _ HJ q Hq) as (x & Hx & Hxt & [? ?]).
    exists x. split; [done|]. split; [|done..]. rewrite Hxt.
    destruct Hcase as [[-> Hb]|(-> & Hb & _)].
    + by rewrite decide_False by apply not_elem_of_nil.
    + by rewrite decide_True.
  - intros u Hu. rewrite (Hwt u Hu). unfold wf_tree. rewrite Hports.
    destruct Hcase as [[-> Hb]|(-> & Hb & HL)]; rewrite Hb in Hu; [by apply HJ|].
    destruct (HL u Hu) as [?| ->]; [by apply HJ|apply (tl_self _ _ _ _ _ _ HJ)].
  - intros [q u] [Hq Hu]; cbn in *. rewrite Hports in Hq. rewrite Hwk.
    destruct Hcase as [[-> Hb]|(-> & Hb & HL)]; rewrite Hb in Hu; [by apply HJ|].
    destruct (HL u Hu) as [?| ->]; [by apply HJ|by apply (tl_new _ _ _ _ _ _ HJ)].
  - by intros ? ? ?%elem_of_nil.
Qed.
End tree_link_inv.
