(* ===== verification/System.v ===== *)
(** The whole protocol entity: the events the daemon feeds it, the worlds they
    can lead to, and the proof that every such world is well-formed and no event
    makes the code fault. *)
From Stdlib Require Import Sorting.Sorted.
From S2P Require Import Prelude Types Monad Digest Md5 Vectors Outputs Procs RoleSelect PortSM TreeSM.
From S2P Require Import Prtsm Bridge Mgmt Wf Safety Links.

(** An accepted BPDU announces at most as many MSTI messages as there is room for. *)
Lemma validate_bpdu_num b size v n :
  validate_bpdu b size = Valid v n → 0 <= default 0 n <= 64.
Proof.
  intros Hv. unfold validate_bpdu in Hv.
  repeat match type of Hv with
  | (if ?c then _ else _) = _ => destruct c eqn:?; try done
  end; simplify_eq; cbn; try lia.
  repeat match goal with H : _ || _ = false |- _ => apply orb_false_iff in H as [? ?] end.
  match goal with H : (_ <? u64 _) = false |- _ => apply Z.ltb_ge in H; revert H end.
  change (MAX_STANDARD_MSTIS * sizeof_msti_configuration_message) with 1024.
  change sizeof_msti_configuration_message with 16.
  pose proof (Z.mod_pos_bound (version3_len b - MST_BPDU_VER3LEN_WO_MSTI_MSGS) (2 ^ 64)
    ltac:(lia)). fold (u64 (version3_len b - MST_BPDU_VER3LEN_WO_MSTI_MSGS)) in *.
  generalize dependent (u64 (version3_len b - MST_BPDU_VER3LEN_WO_MSTI_MSGS)).
  intros z ? ?. unfold s32. change (2 ^ 31) with 2147483648.
  change (2 ^ 32) with 4294967296. zlia.
Qed.

(** ** Events that leave the bridge object alone *)

Section safe_events.
Context (br : bridge_t) (Hbr : wf_bridge br) (K : list ptp_id).
Local Abbreviation safe_op m := (safe br K (λ _, True) m).

Lemma safe_set_tree_addresses l mac b :
  (∀ t, t ∈ l → t ∈ br_trees br) → safe_op (set_tree_addresses l mac b).
Proof.
  revert b. induction l as [|t l IH]; intros b Hl; cbn [set_tree_addresses]; [safe_auto|].
  assert (Ht : t ∈ br_trees br) by (apply Hl; by left).
  assert (Hl' : ∀ u, u ∈ l → u ∈ br_trees br) by (intros; apply Hl; by right).
  safe_step. safe_step; [by apply IH|]. apply safe_seq; [safe_auto|]. intros _. by apply IH.
Qed.

Lemma safe_MSTP_IN_set_bridge_address mac : safe_op (MSTP_IN_set_bridge_address mac).
Proof.
  unfold MSTP_IN_set_bridge_address. safe_step. apply safe_seq; [|intros; safe_auto].
  by apply safe_set_tree_addresses.
Qed.

Lemma safe_set_internal_costs l c b :
  (∀ k, k ∈ l → valid_ptp br k) → safe_op (set_internal_costs l c b).
Proof.
  revert b. induction l as [|k l IH]; intros b Hl; cbn [set_internal_costs]; [safe_auto|].
  assert (Hk : valid_ptp br k) by (apply Hl; by left).
  assert (Hl' : ∀ k', k' ∈ l → valid_ptp br k') by (intros; apply Hl; by right).
  safe_step. safe_step; [|by apply IH]. apply safe_seq; [safe_auto|]. intros _. by apply IH.
Qed.

Lemma safe_port_goes_up p s d : p ∈ br_ports br → safe_op (port_goes_up p s d).
Proof.
  intros Hp. unfold port_goes_up. safe_step. safe_step; [safe_auto|]. safe_step.
  apply safe_seq; [|intros; safe_auto]. apply safe_set_internal_costs.
  intros k Hk. by eapply valid_ptp_port.
Qed.

Lemma safe_MSTP_IN_set_port_enable p up s d :
  p ∈ br_ports br → safe_op (MSTP_IN_set_port_enable p up s d).
Proof.
  intros Hp. unfold MSTP_IN_set_port_enable. apply safe_seq; [|intros; safe_auto].
  destruct up; [by apply safe_port_goes_up|safe_auto].
Qed.

Lemma safe_MSTP_IN_all_fids_flushed k : valid_ptp br k → safe_op (MSTP_IN_all_fids_flushed k).
Proof.
  intros. unfold MSTP_IN_all_fids_flushed, MSTP_IN_all_fids_flushed_with, TCSM_run. safe_auto.
Qed.

Lemma safe_MSTP_IN_rx_bpdu p b size :
  p ∈ br_ports br → length (mstConfiguration b) = 64%nat → safe_op (MSTP_IN_rx_bpdu p b size).
Proof.
  intros Hp Hb. unfold MSTP_IN_rx_bpdu.
  assert (Hacc : ∀ v n, validate_bpdu b size = Valid v n →
            safe_op (accept_bpdu p (b <| protocolVersion := v |>) n)).
  { intros v n Hv. unfold accept_bpdu. safe_step; [|safe_auto].
    apply safe_upd_port; [done|]. intros x [? ? Hn]. split; cbn; [done|done|].
    apply validate_bpdu_num in Hv. by destruct n. }
  safe_step; [safe_auto|]. safe_step. safe_step. safe_step; [safe_auto|].
  safe_step; [safe_auto|]. safe_step; [safe_auto|]. safe_step; [safe_auto|].
  destruct (validate_bpdu b size); [safe_auto|]. by apply Hacc.
Qed.
End safe_events.

(** ** Management events that leave the bridge object alone *)

Section safe_mgmt.
Context (br : bridge_t) (Hbr : wf_bridge br) (K : list ptp_id).
Local Abbreviation safe_op m := (safe br K (λ _, True) m).

Lemma safe_MSTP_IN_set_msti_bridge_config t pri :
  t ∈ br_trees br → safe_op (MSTP_IN_set_msti_bridge_config t pri).
Proof. intros. unfold MSTP_IN_set_msti_bridge_config. safe_auto. Qed.

Lemma safe_MSTP_IN_set_cist_port_config p cfg :
  p ∈ br_ports br → safe_op (MSTP_IN_set_cist_port_config p cfg).
Proof.
  intros. unfold MSTP_IN_set_cist_port_config, set_external_cost, set_admin_p2p, set_admin_edge,
    set_protocol_flags, set_network_port, set_bpdu_flags. safe_auto.
Qed.

Lemma safe_MSTP_IN_set_msti_port_config k cfg :
  valid_ptp br k → safe_op (MSTP_IN_set_msti_port_config k cfg).
Proof.
  intros. unfold MSTP_IN_set_msti_port_config, set_port_priority, set_internal_cost. safe_auto.
Qed.

Lemma safe_MSTP_IN_port_mcheck p : p ∈ br_ports br → safe_op (MSTP_IN_port_mcheck p).
Proof. intros. unfold MSTP_IN_port_mcheck. safe_auto. Qed.
End safe_mgmt.

(** ** The invariant of the whole entity *)

(** The digest of the current VID to MSTID mapping. *)
Definition config_digest (br : bridge_t) : option (list Z) :=
  table ← vid2mstid_table br; mret (Rfc.hmac (concat (map (be_bytes 2) table)) HMAC_KEY).

Definition digest_ok (br : bridge_t) : Prop :=
  config_digest br = Some (configuration_digest (MstConfigId br)).

(** The MSTIDs are sorted, the CIST included, and each VID leads to one of them. *)
Record wf_maps (br : bridge_t) : Prop := {
  wf_sorted : StronglySorted Z.lt (br_trees br);
  wf_range : Forall (λ t, 0 <= t <= MAX_MSTID) (br_trees br);
  wf_count : (length (br_trees br) <= 64)%nat;
  wf_vid2fid : ∀ vid, 1 <= vid <= MAX_VID →
    ∃ fid, array_get (vid2fid br) vid = Some fid ∧ 0 <= fid <= MAX_FID;
  wf_fid2mstid : length (fid2mstid br) = 4096%nat ∧ Forall (λ m, m ∈ br_trees br) (fid2mstid br)
}.

Definition wf_tables (br : bridge_t) : Prop := wf_maps br ∧ digest_ok br.

Definition wf_world (w : world) : Prop := wf w ∧ wf_tables (w_br w).

(** A safe computation keeps all of it. *)
Lemma wp_safe {A} (P : A → Prop) (m : M A) w :
  wf_world w → (wf_bridge (w_br w) → safe (w_br w) [] P m) →
  wp True m (λ a w', wf_world w' ∧ w_br w' = w_br w ∧ P a) w.
Proof.
  intros [[Hb Hi] Ht] Hm. eapply wp_mono; [by apply Hm|]. intros a w' [Hi' HP].
  pose proof (inv_br _ _ _ Hi') as Heq. unfold wf_world, wf. rewrite Heq. auto.
Qed.

Lemma Inv_set_br br br' w :
  Inv br [] w → br_ports br' = br_ports br → br_trees br' = br_trees br →
  Inv br' [] (w <| w_br := br' |>).
Proof.
  intros Hw Hp Ht. split; cbn; [done|..].
  - rewrite Hp. intros p Hin. destruct (inv_port _ _ _ Hw p Hin) as (x & Hx & [? ? ?]).
    exists x. split; [done|]. split; [congruence|done..].
  - rewrite Ht. intros t Hin. destruct (inv_tree _ _ _ Hw t Hin) as (x & Hx & ?).
    exists x. split; [done|]. unfold wf_tree in *. congruence.
  - intros k [? ?]. apply (inv_ptp _ _ _ Hw). by split; [rewrite <- Hp|rewrite <- Ht].
  - by intros ? ? ?%elem_of_nil.
Qed.

Lemma wf_bridge_lists br br' :
  wf_bridge br → br_ports br' = br_ports br → br_trees br' = br_trees br → wf_bridge br'.
Proof. intros [? ? ? ?] Hp Ht. split; rewrite ?Hp, ?Ht; done. Qed.

(** An assignment to the bridge object that keeps its lists. *)
Lemma wf_upd_br f w :
  wf w → br_ports (f (w_br w)) = br_ports (w_br w) → br_trees (f (w_br w)) = br_trees (w_br w) →
  wf (w <| w_br ::= f |>).
Proof.
  intros [Hb Hi] Hp Ht. split; cbn; [by eapply wf_bridge_lists|]. by eapply Inv_set_br.
Qed.

Lemma wf_tables_same br br' :
  wf_tables br → br_trees br' = br_trees br → vid2fid br' = vid2fid br →
  fid2mstid br' = fid2mstid br →
  configuration_digest (MstConfigId br') = configuration_digest (MstConfigId br) →
  wf_tables br'.
Proof.
  intros [[? ? ? ? ?] Hd] Ht Hv Hf Hc. split; [split; rewrite ?Ht, ?Hv, ?Hf; done|].
  unfold digest_ok, config_digest, vid2mstid_table, vid2mstid in *. by rewrite Hv, Hf, Hc.
Qed.

(** *** The digest *)

Lemma mapM_all_Some {A B} (f : A → option B) (l : list A) :
  (∀ x, x ∈ l → is_Some (f x)) → ∃ k, mapM f l = Some k ∧ length k = length l.
Proof.
  intros H. destruct (mapM f l) as [k|] eqn:E.
  - exists k. split; [done|]. by apply length_mapM in E.
  - exfalso. assert (is_Some (mapM f l)) as [? ?]; [|congruence].
    apply mapM_is_Some. by apply Forall_forall.
Qed.

Lemma array_get_Some a i : 0 <= i < Z.of_nat (length a) → ∃ v, array_get a i = Some v ∧ v ∈ a.
Proof.
  intros Hi. unfold array_get. destruct (Z.ltb_spec i 0); [lia|].
  destruct (lookup_lt_is_Some_2 a (Z.to_nat i)) as [v Hv]; [lia|].
  exists v. split; [done|]. by eapply list_elem_of_lookup_2.
Qed.

Lemma vid2mstid_Some br vid :
  wf_maps br → 1 <= vid <= MAX_VID → ∃ m, vid2mstid br vid = Some m ∧ m ∈ br_trees br.
Proof.
  intros Hm Hv. destruct (wf_vid2fid _ Hm vid Hv) as (fid & Hf & Hr).
  destruct (wf_fid2mstid _ Hm) as [Hlen Hall]. unfold vid2mstid. rewrite Hf.
  destruct (array_get_Some (fid2mstid br) fid) as (m & Hm' & Hin).
  { rewrite Hlen. unfold MAX_FID in Hr. lia. }
  exists m. split; [done|]. rewrite Forall_forall in Hall. auto.
Qed.

Lemma vid2mstid_table_Some br :
  wf_maps br → ∃ table, vid2mstid_table br = Some table ∧ length table = 4096%nat.
Proof.
  intros Hm. unfold vid2mstid_table.
  destruct (mapM_all_Some (vid2mstid br) (zrange 1 MAX_VID)) as (l & Hl & Hlen).
  { intros vid Hv%elem_of_zrange. destruct (vid2mstid_Some br vid Hm Hv) as (m & -> & _). by eexists. }
  rewrite Hl. exists ([0] ++ l ++ [0]). split; [done|].
  rewrite !length_app, Hlen. unfold zrange. by rewrite length_map, length_seq.
Qed.

Lemma length_concat_be2 l : length (concat (map (be_bytes 2) l)) = (2 * length l)%nat.
Proof.
  induction l; cbn [map concat]; [done|]. rewrite length_app, length_be_bytes, IHl. simpl. lia.
Qed.

Lemma octets_concat_be2 l : Forall in_u8 (concat (map (be_bytes 2) l)).
Proof. induction l; cbn [map concat]; [done|]. apply Forall_app. split; [apply Forall_be_bytes|done]. Qed.

Definition set_digest (d : list Z) (br : bridge_t) : bridge_t :=
  br <| MstConfigId ::= λ c, c <| configuration_digest := d |> |>.

Lemma RecalcConfigDigest_spec {E} stack table w :
  length stack = 64%nat → vid2mstid_table (w_br w) = Some table → length table = 4096%nat →
  wp E (RecalcConfigDigest stack) (λ _ w', ∃ d,
    w' = w <| w_br ::= set_digest d |> ∧ digest_ok (set_digest d (w_br w))) w.
Proof.
  intros Hs Ht Hlen. unfold RecalcConfigDigest. apply wp_bind, wp_get_br. rewrite Ht.
  apply wp_bind, wp_ret, wp_upd_br. eexists. split; [reflexivity|].
  unfold digest_ok, config_digest.
  change (vid2mstid_table (set_digest _ _)) with (vid2mstid_table (w_br w)). rewrite Ht.
  cbn [mbind option_bind mret option_ret]. f_equal. symmetry.
  apply hmac_md5_hmac; [done|apply octets_concat_be2|by apply (bool_decide_unpack _); vm_compute| |done].
  rewrite length_concat_be2, Hlen. lia.
Qed.

Lemma RecalcConfigDigest_wf stack w :
  length stack = 64%nat → wf w → wf_maps (w_br w) →
  wp True (RecalcConfigDigest stack) (λ _ w', wf_world w') w.
Proof.
  intros Hs Hw Hm. destruct (vid2mstid_table_Some _ Hm) as (table & Ht & Hlen).
  eapply wp_mono; [exact (RecalcConfigDigest_spec stack _ w Hs Ht Hlen)|]. intros ? w' (d & -> & Hd).
  split; [by apply wf_upd_br|]. split; [|exact Hd]. by destruct Hm.
Qed.

(** ** Events that change the bridge object *)

Definition keeps {A} (m : M A) (w : world) : Prop := wp True m (λ _, wf_world) w.

Lemma keeps_safe {A} (m : M A) w :
  wf_world w → (wf_bridge (w_br w) → safe (w_br w) [] (λ _, True) m) → keeps m w.
Proof.
  intros Hw Hm. eapply wp_mono; [by apply (wp_safe (λ _, True))|]. by intros a w' [? _].
Qed.

Lemma keeps_ret {A} (a : A) w : wf_world w → keeps (mret a) w.
Proof. done. Qed.

Lemma keeps_bind {A B} (m : M A) (f : A → M B) w :
  wp True m (λ a w', keeps (f a) w') w → keeps (m ≫= f) w.
Proof. apply wp_bind. Qed.

Lemma keeps_when b m w : wf_world w → keeps m w → keeps (when b m) w.
Proof. by destruct b. Qed.

(** [safe; rest] *)
Lemma keeps_seq {A B} (m : M A) (f : A → M B) w :
  wf_world w → (wf_bridge (w_br w) → safe (w_br w) [] (λ _, True) m) →
  (∀ a w', wf_world w' → w_br w' = w_br w → keeps (f a) w') → keeps (m ≫= f) w.
Proof.
  intros Hw Hm Hf. apply keeps_bind. eapply wp_mono; [by apply (wp_safe (λ _, True))|].
  intros a w' (? & ? & _). by apply Hf.
Qed.

Lemma keeps_upd_br {B} (f : bridge_t → bridge_t) (m : unit → M B) w :
  wf_world w →
  br_ports (f (w_br w)) = br_ports (w_br w) → br_trees (f (w_br w)) = br_trees (w_br w) →
  wf_tables (f (w_br w)) →
  (∀ w', wf_world w' → w_br w' = f (w_br w) → keeps (m tt) w') → keeps (upd_br f ≫= m) w.
Proof.
  intros [Hw Ht] Hp Htr Htab Hm. apply keeps_bind, wp_upd_br, Hm; [|done].
  split; [by apply wf_upd_br|done].
Qed.

Lemma keeps_begin w : wf_world w → keeps br_state_machines_begin w.
Proof. intros Hw. apply keeps_safe; [done|]. intros. by apply safe_br_state_machines_begin. Qed.

Lemma keeps_run w : wf_world w → keeps br_state_machines_run w.
Proof. intros Hw. apply keeps_safe; [done|]. intros. by apply safe_br_state_machines_run. Qed.

Lemma keeps_recalc_and_begin stack w :
  length stack = 64%nat → wf w → wf_maps (w_br w) → keeps (recalc_and_begin stack) w.
Proof.
  intros Hs Hw Hm. apply keeps_bind. eapply wp_mono; [by apply RecalcConfigDigest_wf|].
  intros ? w' ?. by apply keeps_begin.
Qed.

Lemma keeps_one_second w : wf_world w → keeps MSTP_IN_one_second w.
Proof.
  intros Hw. unfold MSTP_IN_one_second. apply keeps_upd_br; [done|done|done| |].
  { by eapply wf_tables_same; [apply Hw|..]. }
  intros w' Hw' _. apply keeps_safe; [done|]. intros Hb. safe_auto.
  unfold rapid_ageing_tick. safe_auto.
Qed.

Lemma keeps_set_bridge_enable b w : wf_world w → keeps (MSTP_IN_set_bridge_enable b) w.
Proof.
  intros Hw. unfold MSTP_IN_set_bridge_enable. apply keeps_bind, wp_get_br.
  destruct (Bool.eqb _ _); [by apply keeps_ret|]. apply keeps_upd_br; [done|done|done| |].
  { by eapply wf_tables_same; [apply Hw|..]. }
  intros w' Hw' _. apply keeps_safe; [done|]. intros Hb. safe_auto.
Qed.

Lemma keeps_set_cist_bridge_config cfg w :
  wf_world w → keeps (MSTP_IN_set_cist_bridge_config cfg) w.
Proof.
  intros Hw. unfold MSTP_IN_set_cist_bridge_config. apply keeps_bind, wp_get_br.
  destruct (cist_bridge_config_invalid _ _); [by apply keeps_ret|]. cbv zeta.
  apply keeps_upd_br; [done|done|done| |].
  { by eapply wf_tables_same; [apply Hw|..]. }
  intros w' Hw' _. apply keeps_safe; [done|]. intros Hb. unfold propagate_times. safe_auto.
Qed.

Lemma keeps_set_mst_config_id rev name w :
  wf_world w → keeps (MSTP_IN_set_mst_config_id rev name) w.
Proof.
  intros Hw. unfold MSTP_IN_set_mst_config_id. apply keeps_bind, wp_get_br.
  apply keeps_when; [done|]. apply keeps_upd_br; [done|done|done| |].
  { by eapply wf_tables_same; [apply Hw|..]. }
  intros w' Hw' _. by apply keeps_begin.
Qed.

(** *** VID and FID tables *)

Lemma array_get_insert a i j v :
  0 <= i < Z.of_nat (length a) → 0 <= j →
  array_get (<[Z.to_nat i := v]> a) j = if decide (i = j) then Some v else array_get a j.
Proof.
  intros Hi Hj. unfold array_get. destruct (Z.ltb_spec j 0); [lia|].
  destruct (decide (i = j)) as [<-|Hne].
  - apply list_lookup_insert_eq. lia.
  - apply list_lookup_insert_ne. lia.
Qed.

(** The digest depends on the VID to MSTID mapping only. *)
Lemma digest_ok_same br br' :
  digest_ok br → (∀ vid, 1 <= vid <= MAX_VID → vid2mstid br' vid = vid2mstid br vid) →
  configuration_digest (MstConfigId br') = configuration_digest (MstConfigId br) →
  digest_ok br'.
Proof.
  unfold digest_ok, config_digest, vid2mstid_table. intros Hd Hv ->. rewrite <- Hd.
  enough (mapM (vid2mstid br') (zrange 1 MAX_VID) = mapM (vid2mstid br) (zrange 1 MAX_VID)) as ->
    by done.
  apply Forall2_mapM_ext, Forall_Forall2_diag, Forall_forall.
  intros vid Hvid%elem_of_zrange. auto.
Qed.

Lemma array_get_length a i v : array_get a i = Some v → 0 <= i < Z.of_nat (length a).
Proof.
  unfold array_get. destruct (Z.ltb_spec i 0); [done|]. intros Hl%lookup_lt_Some. lia.
Qed.

Lemma array_get_map (f : Z → Z) a i : array_get (map f a) i = f <$> array_get a i.
Proof. unfold array_get. destruct (i <? 0); [done|]. apply list_lookup_fmap. Qed.

(** After an assignment to a table: recompute the digest, or leave it when the
    mapping is the same. *)
Lemma keeps_new_tables stack (f : bridge_t → bridge_t) (changed : bool) w :
  length stack = 64%nat → wf_world w →
  br_ports (f (w_br w)) = br_ports (w_br w) → br_trees (f (w_br w)) = br_trees (w_br w) →
  MstConfigId (f (w_br w)) = MstConfigId (w_br w) →
  wf_maps (f (w_br w)) →
  (changed = false → ∀ vid, 1 <= vid <= MAX_VID →
     vid2mstid (f (w_br w)) vid = vid2mstid (w_br w) vid) →
  keeps (when changed (recalc_and_begin stack)) (w <| w_br ::= f |>).
Proof.
  intros Hs [Hw [Hmaps Hd]] Hp Ht Hid Hm Hsame. pose proof (wf_upd_br f w Hw Hp Ht) as Hw'.
  destruct changed; simpl; [by apply keeps_recalc_and_begin|].
  apply keeps_ret. split; [done|]. split; [done|].
  eapply digest_ok_same; [done|by apply Hsame|]. cbn. by rewrite Hid.
Qed.

Lemma keeps_then {A B} (m : M A) (b : B) w : keeps m w → keeps (m ;; mret b) w.
Proof. intros Hm. apply keeps_bind. eapply wp_mono; [exact Hm|]. intros. by apply keeps_ret. Qed.

Lemma keeps_set_vid2fid stack vid fid w :
  length stack = 64%nat → 0 <= fid → wf_world w → keeps (MSTP_IN_set_vid2fid stack vid fid) w.
Proof.
  intros Hs Hfid Hw. unfold MSTP_IN_set_vid2fid.
  destruct ((vid <? 1) || (MAX_VID <? vid) || (MAX_FID <? fid)) eqn:Hr; [by apply keeps_ret|].
  apply orb_false_iff in Hr as [[?%Z.ltb_ge ?%Z.ltb_ge]%orb_false_iff ?%Z.ltb_ge].
  pose proof Hw as [_ [Hm _]]. apply keeps_bind, wp_get_br.
  destruct (wf_fid2mstid _ Hm) as [Hlen Hall].
  destruct (array_get_Some (fid2mstid (w_br w)) fid) as (new & Hnew & _).
  { rewrite Hlen. unfold MAX_FID in *. lia. }
  destruct (vid2mstid_Some _ vid Hm) as (old & Hold & _); [done|].
  rewrite Hnew, Hold. apply keeps_bind, wp_ret, keeps_bind, wp_ret.
  destruct (wf_vid2fid _ Hm vid) as (fid0 & Hget & _); [done|].
  pose proof (array_get_length _ _ _ Hget) as Hbound.
  apply keeps_bind, wp_upd_br, keeps_then, keeps_new_tables; [done..| |].
  - destruct Hm as [? ? ? Hv ?]. split; cbn; [done..| |done]. intros v Hvr.
    rewrite array_get_insert by lia. destruct (decide (vid = v)); [eauto|]. by apply Hv.
  - intros Heq%negb_false_iff%Z.eqb_eq v Hv. unfold vid2mstid; cbn.
    rewrite array_get_insert by lia. destruct (decide (vid = v)) as [<-|]; [|done].
    cbn. unfold vid2mstid in Hold. rewrite Hold. congruence.
Qed.

Lemma lookup_zrange lo hi i :
  lo <= i <= hi → zrange lo hi !! Z.to_nat (i - lo) = Some i.
Proof.
  intros Hi. unfold zrange. rewrite list_lookup_fmap, lookup_seq_lt by lia. simpl. f_equal. lia.
Qed.

(** What the loop over the VIDs stores for one of them. *)
Lemma check_vid2fid_spec br l vid fid changed :
  wf_maps br → 1 <= vid <= MAX_VID → Forall (λ x, 0 <= x) l →
  check_vid2fid br l vid = Some (fid, changed) →
  0 <= fid <= MAX_FID ∧
  (changed = false → array_get (fid2mstid br) fid = vid2mstid br vid).
Proof.
  intros Hm Hv Hl. unfold check_vid2fid, vid2mstid.
  destruct (wf_vid2fid _ Hm vid Hv) as (old & -> & Hold).
  destruct (array_get l vid) as [x|] eqn:Hx; [|done]. cbn.
  destruct (MAX_FID <? x) eqn:Hr; [by intros [= <- <-]|]. apply Z.ltb_ge in Hr.
  assert (Hx0 : 0 <= x).
  { rewrite Forall_forall in Hl. apply Hl. unfold array_get in Hx.
    destruct (vid <? 0); [done|]. by eapply list_elem_of_lookup_2. }
  destruct (array_get (fid2mstid br) x) as [new|] eqn:Hnew; [|done]. cbn.
  destruct (array_get (fid2mstid br) old) as [o|]; [|done]. cbn. intros [= <- <-].
  split; [done|]. intros ->%negb_false_iff%Z.eqb_eq. done.
Qed.

Lemma keeps_set_all_vids2fids stack l w :
  length stack = 64%nat → length l = 4095%nat → Forall (λ x, 0 <= x) l →
  wf_world w → keeps (MSTP_IN_set_all_vids2fids stack l) w.
Proof.
  intros Hs Hlen Hl Hw. pose proof Hw as [_ [Hm _]]. set (br := w_br w) in *.
  unfold MSTP_IN_set_all_vids2fids. apply keeps_bind, wp_get_br. fold br.
  destruct (array_get_Some l 0) as (first & -> & _); [lia|]. apply keeps_bind, wp_ret.
  assert (Hchk : ∀ vid, 1 <= vid <= MAX_VID → is_Some (check_vid2fid br l vid)).
  { intros vid Hv. unfold check_vid2fid. destruct (array_get_Some l vid) as (x & -> & Hx).
    { unfold MAX_VID in Hv. lia. }
    destruct (vid2mstid_Some br vid Hm Hv) as (m & Hvm & _). unfold vid2mstid in Hvm.
    destruct (array_get (vid2fid br) vid) as [o|]; [|done]. cbn in *. rewrite Hvm.
    destruct (MAX_FID <? x) eqn:Hr; [done|]. apply Z.ltb_ge in Hr.
    destruct (wf_fid2mstid _ Hm) as [Hlen' _].
    destruct (array_get_Some (fid2mstid br) x) as (new & -> & _); [|done].
    rewrite Forall_forall in Hl. specialize (Hl x Hx). rewrite Hlen'. unfold MAX_FID in Hr. lia. }
  destruct (mapM_all_Some (check_vid2fid br l) (zrange 1 MAX_VID)) as (checked & Hc & _).
  { intros vid ?%elem_of_zrange. auto. }
  rewrite Hc. apply keeps_bind, wp_ret.
  (* what the new table holds *)
  assert (Hget : ∀ vid, 1 <= vid <= MAX_VID → ∃ fid changed,
    array_get (first :: map fst checked) vid = Some fid ∧ (fid, changed) ∈ checked ∧
    check_vid2fid br l vid = Some (fid, changed)).
  { intros vid Hv. apply mapM_Some_1 in Hc.
    destruct (Forall2_lookup_l _ _ _ _ _ Hc (lookup_zrange 1 MAX_VID vid Hv))
      as ([fid ch] & Hlk & Heq). exists fid, ch.
    split; [|split; [by eapply list_elem_of_lookup_2|done]].
    unfold array_get. destruct (Z.ltb_spec vid 0); [lia|].
    replace (Z.to_nat vid) with (S (Z.to_nat (vid - 1))) by lia. simpl.
    change (map fst checked) with (fst <$> checked). by rewrite list_lookup_fmap, Hlk. }
  apply keeps_bind, wp_upd_br, keeps_then, keeps_new_tables; fold br; [done..| |].
  - destruct Hm as [? ? ? Hv ?]. split; cbn; [done..| |done]. intros vid Hvr.
    destruct (Hget vid Hvr) as (fid & ch & -> & _ & Hck). exists fid. split; [done|].
    by eapply check_vid2fid_spec in Hck as [? _]; [| |exact Hvr|].
  - intros Hch vid Hvr. unfold vid2mstid at 1; cbn.
    destruct (Hget vid Hvr) as (fid & ch & -> & Hin & Hck). cbn.
    eapply check_vid2fid_spec in Hck as [_ Hsame]; [| |exact Hvr|]; [|done..]. apply Hsame.
    destruct ch; [|done]. rewrite <- Hch. symmetry. apply existsb_exists. exists (fid, true).
    split; [by apply list_elem_of_In|done].
Qed.

Lemma keeps_set_fid2mstid stack fid mstid w :
  length stack = 64%nat → 0 <= fid → wf_world w → keeps (MSTP_IN_set_fid2mstid stack fid mstid) w.
Proof.
  intros Hs Hfid Hw. pose proof Hw as [_ [Hm _]]. unfold MSTP_IN_set_fid2mstid.
  destruct (Z.ltb_spec MAX_FID fid) as [|Hr]; [by apply keeps_ret|].
  apply keeps_bind, wp_bind, wp_get_br, wp_ret.
  destruct (bool_decide_reflect (mstid ∈ br_trees (w_br w))) as [Hin|]; cbn [negb];
    [|by apply keeps_ret]. apply keeps_bind, wp_get_br.
  destruct (wf_fid2mstid _ Hm) as [Hlen Hall].
  assert (Hfl : 0 <= fid < Z.of_nat (length (fid2mstid (w_br w)))).
  { rewrite Hlen. unfold MAX_FID in Hr. lia. }
  destruct (array_get_Some (fid2mstid (w_br w)) fid Hfl) as (old & Hold & _). rewrite Hold.
  apply keeps_bind, wp_ret, keeps_then, keeps_when; [done|]. apply keeps_bind, wp_upd_br.
  destruct (mapM_all_Some (array_get (vid2fid (w_br w))) (zrange 1 MAX_VID)) as (used & Hu & _).
  { intros vid Hv%elem_of_zrange. destruct (wf_vid2fid _ Hm vid Hv) as (? & -> & _). by eexists. }
  rewrite Hu. apply keeps_bind, wp_ret. apply keeps_new_tables; [done..| |].
  - destruct Hm as [? ? ? ? ?]. split; cbn; [done..|]. rewrite length_insert. split; [done|].
    apply Forall_insert; [done|done].
  - intros Hn%bool_decide_eq_false vid Hv. unfold vid2mstid; cbn.
    destruct (array_get (vid2fid (w_br w)) vid) as [f|] eqn:Hf; [|done]. cbn.
    assert (Hne : fid ≠ f).
    { intros <-. apply Hn. apply mapM_Some_1 in Hu.
      destruct (Forall2_lookup_l _ _ _ _ _ Hu (lookup_zrange 1 MAX_VID vid Hv)) as (y & Hy & Heq).
      assert (y = fid) as -> by congruence. by eapply list_elem_of_lookup_2. }
    unfold array_get. destruct (Z.ltb_spec f 0); [done|].
    apply list_lookup_insert_ne. lia.
Qed.

Lemma check_fids2mstids_spec trees old new l :
  check_fids2mstids trees old new = Some l → (length old <= length new)%nat →
  length l = length old ∧ Forall (λ m, m ∈ trees) l.
Proof.
  revert new l. induction old as [|o old IH]; intros [|n new] l; cbn; try (by intros [= <-]).
  { intros _ ?. lia. }
  destruct (bool_decide_reflect ((if MAX_MSTID <? n then o else n) ∈ trees)); [|done].
  destruct (check_fids2mstids trees old new) as [l'|] eqn:E; [|done]. intros [= <-] Hle.
  destruct (IH new l' E) as [? ?]; [lia|]. cbn. split; [lia|by constructor].
Qed.

Lemma vid2mstid_table_inj br br' :
  wf_maps br → wf_maps br' → vid2mstid_table br = vid2mstid_table br' →
  ∀ vid, 1 <= vid <= MAX_VID → vid2mstid br' vid = vid2mstid br vid.
Proof.
  intros Hm Hm' Heq vid Hv.
  destruct (vid2mstid_table_Some _ Hm) as (tb & Htb & _). rewrite Htb in Heq. symmetry in Heq.
  unfold vid2mstid_table in *.
  destruct (mapM (vid2mstid br) (zrange 1 MAX_VID)) as [l|] eqn:E; [|done].
  destruct (mapM (vid2mstid br') (zrange 1 MAX_VID)) as [l'|] eqn:E'; [|done].
  cbn in *. injection Htb as <-. injection Heq as Heq.
  apply app_inv_tail in Heq as ->.
  apply mapM_Some_1 in E, E'. pose proof (lookup_zrange 1 MAX_VID vid Hv) as Hlk.
  destruct (Forall2_lookup_l _ _ _ _ _ E Hlk) as (y & Hy & ->).
  destruct (Forall2_lookup_l _ _ _ _ _ E' Hlk) as (y' & Hy' & ->). congruence.
Qed.

Lemma keeps_set_all_fids2mstids stack l w :
  length stack = 64%nat → length l = 4096%nat →
  wf_world w → keeps (MSTP_IN_set_all_fids2mstids stack l) w.
Proof.
  intros Hs Hlen Hw. pose proof Hw as [_ [Hm _]]. unfold MSTP_IN_set_all_fids2mstids.
  apply keeps_bind, wp_bind, wp_get_br, wp_ret, keeps_bind, wp_get_br.
  pose proof Hm as [? ? ? ? [Hfl _]]. rewrite Hfl, Hlen. cbn [Nat.ltb Nat.leb].
  destruct (check_fids2mstids _ _ _) as [m|] eqn:E; [|by apply keeps_ret].
  destruct (check_fids2mstids_spec _ _ _ _ E) as [Hml Hmall]; [lia|].
  destruct (vid2mstid_table_Some _ Hm) as (tb & Htb & _). rewrite Htb.
  apply keeps_bind, wp_ret, keeps_bind, wp_upd_br.
  set (f := λ br, br <| fid2mstid := m |>).
  assert (Hm' : wf_maps (f (w_br w))) by (split; cbn; [done..|rewrite Hml; done]).
  apply keeps_bind, wp_get_br. destruct (vid2mstid_table_Some _ Hm') as (tb' & Htb' & _).
  change (w_br (w <| w_br ::= _ |>)) with (f (w_br w)). rewrite Htb'.
  apply keeps_bind, wp_ret, keeps_then, keeps_new_tables; [done..|].
  intros Heq%negb_false_iff%bool_decide_eq_true. apply vid2mstid_table_inj; [done..|congruence].
Qed.

(** ** Creating and deleting ports *)

Lemma wf_maps_same br br' :
  wf_maps br → br_trees br' = br_trees br → vid2fid br' = vid2fid br →
  fid2mstid br' = fid2mstid br → wf_maps br'.
Proof. intros [? ? ? ? ?] Ht Hv Hf. split; rewrite ?Ht, ?Hv, ?Hf; done. Qed.

Lemma upd_br_eq f w br : w_br w = br → w <| w_br ::= f |> = w <| w_br := f br |>.
Proof. by intros <-. Qed.

Lemma set_br_id w br : w_br w = br → w <| w_br := br |> = w.
Proof. intros <-. by destruct w. Qed.

(** The object the interface layer allocated for a port. *)
Definition fresh_port (w : world) (p : port_id) (x : port_t) : Prop :=
  (p ∉ br_ports (w_br w)) ∧ wf_port_data x.

Lemma PortLink_start w p x portno :
  wf w → fresh_port w p x →
  PortLink (w_br w) (br_ports (w_br w)) (br_ports (w_br w) ++ [p]) p []
    (w <| w_ports ::= <[p := x]> |>
       <| w_ports := <[p := created_port portno x]> (<[p := x]> (w_ports w)) |>).
Proof.
  intros [Hb Hi] [Hp Hx]. split; cbn; [done|..].
  - intros q Hq. rewrite !lookup_insert_ne by (by intros ->).
    destruct (inv_port _ _ _ Hi q Hq) as (y & Hy & [? ? ?]). exists y.
    split; [done|]. split; [done|by split].
  - rewrite lookup_insert_eq. eexists. split; [done|]. split; [done|]. by destruct Hx.
  - intros t Hin. by apply (inv_tree _ _ _ Hi).
  - intros q t Hq Hin. by apply (inv_ptp _ _ _ Hi (q, t) (conj Hq Hin)).
  - by intros ? ?%elem_of_nil.
Qed.

(** All trees have the port: it joins the bridge's list. *)
Lemma PortLink_finish br p w :
  wf_bridge br → p ∉ br_ports br →
  PortLink br (br_ports br) (br_ports br ++ [p]) p (br_trees br) w →
  wf (w <| w_br := br <| br_ports ::= λ s, s ++ [p] |> |>).
Proof.
  intros Hb Hp HJ. split.
  - destruct Hb as [? ? Hnp ?]. split; cbn; [done..| |done].
    apply NoDup_app. split; [done|]. split; [|apply NoDup_singleton].
    by intros q Hq ->%list_elem_of_singleton.
  - eapply PortLink_Inv; [exact HJ|done|]. right. split; [done|]. split; [done|].
    intros q [?|?%list_elem_of_singleton]%elem_of_app; auto.
Qed.

(** No tree has the port. *)
Lemma PortLink_undone br base L p w :
  br_ports br = base → PortLink br base L p [] w → Inv br [] w.
Proof.
  intros Hb HJ. pose proof (pl_br _ _ _ _ _ _ HJ) as Heq.
  rewrite <- (set_br_id _ _ Heq). eapply PortLink_Inv; [exact HJ|done|by left].
Qed.

Lemma keeps_port_create p x portno w :
  wf_world w → fresh_port w p x →
  keeps (alloc_port p x ;; MSTP_IN_port_create_and_add_tail p portno) w.
Proof.
  intros [[Hb Hi] Ht] Hf. pose proof Hf as [Hp _].
  pose proof (PortLink_start w p x portno (conj Hb Hi) Hf) as HJ.
  apply keeps_bind. unfold wp at 1, alloc_port, MSTP_IN_port_create_and_add_tail.
  set (br := w_br w) in *.
  apply keeps_bind. eapply wp_upd_port; [apply lookup_insert_eq|].
  apply keeps_bind, wp_bind, wp_get_br, wp_ret. change (w_br (_ <| _ := _ |>)) with br.
  assert (HL : list_del p (br_ports br ++ [p]) = br_ports br) by by apply list_del_snoc.
  apply keeps_bind. eapply wp_mono; [by apply (PortLink_create br (br_ports br) _ p Hp HL
    (wf_bridge_trees _ Hb) (br_trees br) [])|].
  intros ok w2 (done' & HJ2 & Hnd & Hin & Hok). destruct ok; cbn [negb].
  - rewrite (Hok eq_refl) in HJ2. apply keeps_bind, wp_upd_br, keeps_then.
    rewrite (upd_br_eq _ _ _ (pl_br _ _ _ _ _ _ HJ2)).
    apply keeps_safe.
    { split; [by apply PortLink_finish|]. by eapply wf_tables_same; [exact Ht|..]. }
    intros Hb'.
    apply safe_prt_state_machines_begin; [done|]. cbn. apply elem_of_app. right. by left.
  - apply keeps_bind. eapply wp_mono;
      [by apply (PortLink_unlink_all br (br_ports br) _ p Hp HL done')|].
    intros ? w3 HJ3. apply keeps_ret. pose proof (pl_br _ _ _ _ _ _ HJ3) as Heq.
    split; [split; rewrite Heq; [done|]|by rewrite Heq]. by eapply PortLink_undone; [|exact HJ3].
Qed.

Lemma wf_bridge_del_port br p : wf_bridge br → wf_bridge (br <| br_ports ::= list_del p |>).
Proof.
  intros [? ? Hnp ?]. split; cbn; [done..| |done]. by apply NoDup_filter.
Qed.

Lemma keeps_delete_port p w :
  wf_world w → p ∈ br_ports (w_br w) → keeps (MSTP_IN_delete_port p) w.
Proof.
  intros Hw Hp. unfold MSTP_IN_delete_port.
  apply keeps_seq; [done|intros; safe_auto|]. intros ? w1 Hw1 Heq1. rewrite <- Heq1 in Hp.
  apply keeps_seq; [done| |].
  { intros Hb w' Hw'. destruct (inv_port _ _ _ Hw' p Hp) as (x & Hx & _).
    by eapply wp_get_port. }
  intros prt w2 Hw2 Heq2. rewrite <- Heq2 in Hp.
  apply keeps_seq; [done|intros; safe_auto|]. intros ? w3 Hw3 Heq3. rewrite <- Heq3 in Hp.
  destruct Hw3 as [[Hb Hi] Ht]. set (br := w_br w3) in *.
  apply keeps_bind. eapply wp_mono; [apply (PortLink_unlink_all br (list_del p (br_ports br))
    (br_ports br) p) with (done := br_trees br)|]; [|done|apply wf_bridge_trees, Hb|done|
    by apply Inv_PortLink|].
  { by intros [_ ?]%elem_of_list_del. }
  intros ? w4 HJ. apply keeps_bind, wp_upd_br.
  rewrite (upd_br_eq _ _ _ (pl_br _ _ _ _ _ _ HJ)).
  apply keeps_run. split; [split|].
  - by apply wf_bridge_del_port.
  - eapply PortLink_Inv; [exact HJ|done|by left].
  - by eapply wf_tables_same; [exact Ht|..].
Qed.

(** ** Creating and deleting MSTIs *)

(** The place found for a new MSTID splits a sorted list. *)
Lemma find_tree_after_snoc l t m :
  find_tree_after (l ++ [t]) m = if ncmp16 t m <? 0 then Some t else find_tree_after l m.
Proof. unfold find_tree_after. by rewrite foldl_app. Qed.

Lemma StronglySorted_app_inv (l1 l2 : list Z) :
  StronglySorted Z.lt (l1 ++ l2) →
  StronglySorted Z.lt l1 ∧ StronglySorted Z.lt l2 ∧ ∀ x y, x ∈ l1 → y ∈ l2 → x < y.
Proof.
  induction l1 as [|a l1 IH]; simpl; intros H.
  - split; [constructor|]. split; [done|]. by intros ? ? ?%elem_of_nil.
  - apply StronglySorted_inv in H as [H Ha]. destruct (IH H) as (H1 & H2 & H12).
    rewrite List.Forall_forall in Ha.
    split; [constructor; [done|]|split; [done|]].
    + apply List.Forall_forall. intros x Hx. apply Ha, in_or_app. by left.
    + intros x y [->|Hx]%elem_of_cons Hy; [|by apply H12].
      apply Ha, in_or_app. right. by apply list_elem_of_In.
Qed.

Lemma StronglySorted_app (l1 l2 : list Z) :
  StronglySorted Z.lt l1 → StronglySorted Z.lt l2 → (∀ x y, x ∈ l1 → y ∈ l2 → x < y) →
  StronglySorted Z.lt (l1 ++ l2).
Proof.
  induction 1 as [|a l1 H IH Ha]; simpl; intros H2 H12; [done|].
  constructor; [apply IH; [done|]; intros; apply H12; [by right|done]|].
  apply List.Forall_forall. intros x [Hx|Hx]%in_app_or.
  - rewrite List.Forall_forall in Ha. auto.
  - apply H12; [by left|]. by apply list_elem_of_In.
Qed.

Lemma find_tree_after_split l m a :
  StronglySorted Z.lt l → Forall in_u16 l → in_u16 m → m ∉ l →
  find_tree_after l m = Some a →
  ∃ l1 l2, l = l1 ++ a :: l2 ∧ a < m ∧ (∀ x, x ∈ l2 → m < x) ∧ a ∉ l1.
Proof.
  intros Hs Hu Hm. revert Hs Hu. induction l as [|t l IH] using rev_ind; [done|].
  intros Hs Hu Hnin. rewrite find_tree_after_snoc.
  apply StronglySorted_app_inv in Hs as (Hs & _ & Hlt).
  apply Forall_app in Hu as [Hu [Ht _]%Forall_cons].
  rewrite (ncmp16_sgn t m Ht Hm). destruct (Z.ltb_spec (Z.sgn (t - m)) 0) as [H|H].
  - intros [= ->]. exists l, []. split; [done|]. split; [lia|]. split; [by intros ? ?%elem_of_nil|].
    intros Hin. specialize (Hlt a a Hin ltac:(by left)). lia.
  - intros Hf. assert (Hnl : m ∉ l) by (intros ?; apply Hnin, elem_of_app; by left).
    destruct (IH Hs Hu Hnl Hf) as (l1 & l2 & -> & Ha & Hl2 & Hal).
    exists l1, (l2 ++ [t]). split; [by rewrite <- app_assoc|]. split; [done|]. split; [|done].
    intros x [Hx| ->%list_elem_of_singleton]%elem_of_app; [auto|].
    assert (t ≠ m) by (intros ->; apply Hnin, elem_of_app; right; by left). lia.
Qed.

Lemma insert_after_split {A} `{EqDecision A} (a m : A) l1 l2 :
  a ∉ l1 → insert_after a m (l1 ++ a :: l2) = l1 ++ a :: m :: l2.
Proof.
  induction l1 as [|x l1 IH]; intros Ha; simpl; [by rewrite decide_True|].
  rewrite decide_False by (intros ->; apply Ha; by left). f_equal. apply IH.
  intros ?; apply Ha; by right.
Qed.

(** Inserting a new MSTID keeps the list sorted, with one more element. *)
Lemma insert_msti_sorted (l : list tree_id) (m a : tree_id) :
  StronglySorted Z.lt l → Forall in_u16 l → in_u16 m → m ∉ l →
  find_tree_after l m = Some a →
  StronglySorted Z.lt (insert_after a m l) ∧ length (insert_after a m l) = S (length l) ∧ a ∈ l.
Proof.
  intros Hs Hu Hm Hn Hf. destruct (find_tree_after_split l m a) as (l1 & l2 & -> & Ha & Hl2 & Hn1);
    [done..|]. rewrite insert_after_split by done.
  apply StronglySorted_app_inv in Hs as (H1 & H2 & H12).
  apply StronglySorted_inv in H2 as [H2 Hal2]. rewrite List.Forall_forall in Hal2.
  split; [|split].
  - apply StronglySorted_app; [done|repeat constructor; [done|..]|].
    + apply List.Forall_forall. intros x Hx. apply Hl2. by apply list_elem_of_In.
    + done.
    + apply List.Forall_forall. intros x Hx. auto.
    + intros x y Hx [->|[->|Hy]%elem_of_cons]%elem_of_cons.
      * apply H12; [done|by left].
      * assert (x < a) by (apply H12; [done|by left]). lia.
      * apply H12; [done|by right].
  - rewrite !(length_app (A:=tree_id)). simpl. lia.
  - apply elem_of_app. right. by left.
Qed.

Lemma StronglySorted_NoDup l : StronglySorted Z.lt l → NoDup l.
Proof.
  induction 1 as [|a l H IH Ha]; constructor; [|done]. rewrite List.Forall_forall in Ha.
  intros Hin%list_elem_of_In. apply Ha in Hin. lia.
Qed.

Lemma wf_maps_u16 br : wf_maps br → Forall in_u16 (br_trees br).
Proof.
  intros Hm. eapply Forall_impl; [apply (wf_range _ Hm)|]. unfold in_u16, MAX_MSTID. intros; lia.
Qed.

(** Linking [t] into [br_trees] between its neighbours. *)
Definition with_trees (br : bridge_t) (l : list tree_id) : bridge_t := br <| br_trees := l |>.

Lemma wf_add_msti br m a :
  wf_bridge br → wf_tables br → m ∉ br_trees br → 1 <= m <= MAX_MSTID →
  (length (br_trees br) <= 63)%nat → find_tree_after (br_trees br) m = Some a →
  a ∈ br_trees br ∧
  wf_bridge (with_trees br (insert_after a m (br_trees br))) ∧
  wf_tables (with_trees br (insert_after a m (br_trees br))).
Proof.
  intros Hb [Hm Hd] Hn Hr Hlen Hf.
  destruct (insert_msti_sorted (br_trees br) m a) as (Hs & Hl & Ha); try done.
  { apply (wf_sorted _ Hm). } { by apply wf_maps_u16. }
  { unfold in_u16, MAX_MSTID in *. lia. }
  split; [done|]. split; [|split].
  - destruct Hb as [[l Hc] ? ? ?]. split; cbn; [|rewrite Hl; lia|done|by apply StronglySorted_NoDup].
    rewrite Hc. cbn [insert_after]. destruct (decide (a = 0)); by eexists.
  - destruct Hm as [? Hrg ? ? [Hfl Hfa]]. split; cbn; [done| |rewrite Hl; lia|done|split; [done|]].
    + apply Forall_forall. intros x. rewrite elem_of_insert_after by done.
      rewrite Forall_forall in Hrg. intros [->|?]; [lia|auto].
    + eapply Forall_impl; [exact Hfa|]. intros x Hx. cbn in *.
      rewrite elem_of_insert_after by done. by right.
  - eapply digest_ok_same; [exact Hd|done|done].
Qed.

Lemma StronglySorted_list_del x l : StronglySorted Z.lt l → StronglySorted Z.lt (list_del x l).
Proof.
  induction 1 as [|a l H IH Ha]; [constructor|]. unfold list_del in *.
  rewrite filter_cons. case_decide; [|done]. constructor; [done|].
  apply List.Forall_forall. rewrite List.Forall_forall in Ha.
  intros y [_ Hy]%list_elem_of_In%list_elem_of_filter. by apply Ha, list_elem_of_In.
Qed.

Lemma wf_del_msti br m :
  wf_bridge br → wf_tables br → 1 <= m → m ∉ fid2mstid br →
  wf_bridge (with_trees br (list_del m (br_trees br))) ∧
  wf_tables (with_trees br (list_del m (br_trees br))).
Proof.
  intros Hb [Hm Hd] Hr Hn.
  assert (Hle : (length (list_del m (br_trees br)) <= length (br_trees br))%nat)
    by apply length_filter.
  split; [|split].
  - destruct Hb as [[l Hc] ? ? ?]. split; cbn; [|by eapply Nat.le_trans; [exact Hle|]|done|by apply NoDup_filter].
    rewrite Hc. unfold list_del. rewrite filter_cons_True by lia. by eexists.
  - destruct Hm as [Hs Hrg ? ? [Hfl Hfa]].
    split; cbn; [by apply StronglySorted_list_del| |by eapply Nat.le_trans; [exact Hle|]|done|split; [done|]].
    + apply Forall_forall. intros x [Hx _]%elem_of_list_del. rewrite Forall_forall in Hrg. auto.
    + apply Forall_forall. intros x Hx. apply elem_of_list_del. rewrite Forall_forall in Hfa.
      split; [auto|]. by intros ->.
  - eapply digest_ok_same; [exact Hd|done|done].
Qed.

Lemma TreeLink_start w m x :
  wf w → m ∉ br_trees (w_br w) → tree_ports x = [] →
  ∀ L, TreeLink (w_br w) (br_trees (w_br w)) L m [] (w <| w_trees ::= <[m := x]> |>).
Proof.
  intros [Hb Hi] Hn Hx L. split; cbn; [done|..].
  - intros u Hu. rewrite lookup_insert_ne by (by intros ->). by apply (inv_tree _ _ _ Hi).
  - rewrite lookup_insert_eq. eauto.
  - intros q Hq. destruct (inv_port _ _ _ Hi q Hq) as (y & Hy & [? ? ?]). exists y.
    split; [done|]. rewrite decide_False by apply not_elem_of_nil. split; [done|by split].
  - intros q u Hq Hu. by apply (inv_ptp _ _ _ Hi (q, u) (conj Hq Hu)).
  - by intros ? ?%elem_of_nil.
Qed.

(** The allocation of the tree: nothing changes, or the new tree is in the heap. *)
Lemma create_tree_spec w mac m :
  wf_world w → m ∉ br_trees (w_br w) →
  wp True (create_tree mac m) (λ o w', ∃ w0, wf_world w0 ∧ w_br w0 = w_br w ∧
    match o with
    | Some t => t = m ∧ ∃ x, tree_ports x = [] ∧ w' = w0 <| w_trees ::= <[m := x]> |>
    | None => w' = w0
    end) w.
Proof.
  intros Hw Hn. unfold create_tree. apply wp_bind.
  assert (Hok : wp True calloc_ok (λ _ w', wf_world w' ∧ w_br w' = w_br w) w).
  { destruct Hw as [[Hb Hi] Ht]. unfold wp, calloc_ok. destruct (w_calloc w); [done|].
    split; [|done]. split; [split; [done|]|done]. split; apply Hi. }
  eapply wp_mono; [exact Hok|]. intros [] w1 [Hw1 Heq]; cbn [negb].
  - apply wp_bind, wp_get_br, wp_bind. unfold wp at 1, new_tree. apply wp_ret.
    exists w1. split; [done|]. split; [done|]. split; [done|].
    eexists. split; [|reflexivity]. done.
  - apply wp_ret. by exists w1.
Qed.

Lemma wp_GET_CIST_TREE w Q :
  wf_bridge (w_br w) → Q 0 w → wp True GET_CIST_TREE Q w.
Proof.
  intros Hb HQ. unfold GET_CIST_TREE, trees_of_bridge. apply wp_bind, wp_bind, wp_get_br, wp_ret.
  destruct (wf_bridge_cist _ Hb) as [l ->]. by apply wp_ret.
Qed.

(** The rest of the creation, from a heap that holds the new tree. *)
Lemma keeps_link_msti m a x w :
  wf_world w → m ∉ br_trees (w_br w) → a ∈ br_trees (w_br w) → tree_ports x = [] →
  let br' := with_trees (w_br w) (insert_after a m (br_trees (w_br w))) in
  wf_bridge br' → wf_tables br' →
  keeps (after_t ← get_tree a;
         ok ← create_ptps_of_tree m a (tree_ports after_t);
         if negb ok then FOREACH_PTP_IN_TREE m unlink_ptp ;; mret false
         else upd_br (λ x, x <| br_trees ::= insert_after a m |>) ;;
              tree_state_machines_begin m ;; mret true)
        (w <| w_trees ::= <[m := x]> |>).
Proof.
  intros Hw Hn Ha Hx br' Hb' Ht'. pose proof Hw as [[Hb Hi] Ht].
  set (L := insert_after a m (br_trees (w_br w))) in *.
  pose proof (TreeLink_start w m x (conj Hb Hi) Hn Hx L) as HJ.
  pose proof (list_del_insert_after a m (br_trees (w_br w)) Hn : list_del m L = _) as HL.
  destruct (tl_tree _ _ _ _ _ _ HJ a Ha) as (y & Hy & Hyp).
  apply keeps_bind. eapply wp_get_tree; [exact Hy|]. rewrite Hyp.
  apply keeps_bind. eapply wp_mono; [by apply (TreeLink_create (w_br w) (br_trees (w_br w)) L m Hn HL
    (wf_bridge_ports _ Hb) a (br_ports (w_br w)) [])|].
  intros ok w2 (done' & HJ2 & Hnd & Hin & Hok). destruct ok; cbn [negb].
  - rewrite (Hok eq_refl) in HJ2. apply keeps_bind, wp_upd_br, keeps_then.
    rewrite (upd_br_eq _ _ _ (tl_br _ _ _ _ _ _ HJ2)). change (_ <| br_trees ::= _ |>) with br'.
    apply keeps_safe.
    + split; [split; [done|]|done]. eapply TreeLink_Inv; [exact HJ2|done..|].
      right. split; [done|]. split; [done|]. intros u Hu.
      apply elem_of_insert_after in Hu; [|done]. tauto.
    + intros _. apply safe_tree_state_machines_begin; [done|]. cbn.
      apply elem_of_insert_after; [done|by left].
  - apply keeps_then. eapply wp_mono; [by apply (TreeLink_unlink_all (w_br w)
      (br_trees (w_br w)) L m Hn HL done')|].
    intros ? w3 HJ3. pose proof (tl_br _ _ _ _ _ _ HJ3) as Heq.
    split; [split; rewrite Heq; [done|]|by rewrite Heq].
    eapply TreeLink_Inv; [exact HJ3|done..|by left].
Qed.

Lemma keeps_create_msti m w : wf_world w → keeps (MSTP_IN_create_msti m) w.
Proof.
  intros Hw. unfold MSTP_IN_create_msti.
  destruct ((m <? 1) || (MAX_MSTID <? m)) eqn:Hr; [by apply keeps_ret|].
  apply orb_false_iff in Hr as [?%Z.ltb_ge ?%Z.ltb_ge].
  apply keeps_bind, wp_bind, wp_get_br, wp_ret.
  destruct (bool_decide_reflect (m ∈ br_trees (w_br w))) as [|Hn]; [by apply keeps_ret|].
  destruct (find_tree_after (br_trees (w_br w)) m) as [a|] eqn:Hf; [|by apply keeps_ret].
  destruct (Z.ltb_spec MAX_IMPLEMENTATION_MSTIS (Z.of_nat (length (br_trees (w_br w)))))
    as [|Hlen]; [by apply keeps_ret|]. unfold MAX_IMPLEMENTATION_MSTIS in Hlen.
  pose proof Hw as [[Hb _] Ht].
  destruct (wf_add_msti (w_br w) m a) as (Ha & Hb' & Ht'); [done..|lia|done|].
  apply keeps_bind, wp_GET_CIST_TREE; [done|].
  destruct (inv_tree _ _ _ (proj2 (proj1 Hw)) 0 (cist_in _ Hb)) as (c & Hc & _).
  apply keeps_bind. eapply wp_get_tree; [done|]. apply keeps_bind.
  eapply wp_mono; [by apply create_tree_spec|].
  intros [t|] w1 (w0 & Hw0 & Heq & Hcase); [|by subst w1; apply keeps_ret].
  destruct Hcase as [-> (x & Hx & ->)].
  eapply keeps_link_msti; try done; by rewrite Heq.
Qed.

Lemma keeps_delete_msti m w : wf_world w → keeps (MSTP_IN_delete_msti m) w.
Proof.
  intros Hw. unfold MSTP_IN_delete_msti.
  destruct ((m <? 1) || (MAX_MSTID <? m)) eqn:Hr; [by apply keeps_ret|].
  apply orb_false_iff in Hr as [?%Z.ltb_ge _]. apply keeps_bind, wp_get_br.
  destruct (bool_decide_reflect (m ∈ fid2mstid (w_br w))) as [|Hf]; [by apply keeps_ret|].
  destruct (bool_decide_reflect (m ∈ br_trees (w_br w))) as [Hin|]; cbn [negb];
    [|by apply keeps_ret].
  pose proof Hw as [[Hb Hi] Ht]. destruct (wf_del_msti (w_br w) m) as [Hb' Ht']; [done..|].
  set (br' := with_trees _ _) in *. apply keeps_bind, wp_upd_br.
  change (w <| w_br ::= _ |>) with (w <| w_br := br' |>).
  pose proof (Inv_TreeLink _ _ _ Hin Hi) as HJ.
  assert (HJ' : TreeLink br' (list_del m (br_trees (w_br w))) (br_trees (w_br w)) m
                  (br_ports (w_br w)) (w <| w_br := br' |>)) by (by destruct HJ).
  assert (Hm : m ∉ list_del m (br_trees (w_br w))) by by intros [_ ?]%elem_of_list_del.
  apply keeps_bind. eapply wp_mono; [by apply (TreeLink_unlink_all br'
    (list_del m (br_trees (w_br w))) (br_trees (w_br w)) m Hm eq_refl (br_ports (w_br w)));
    [apply wf_bridge_ports, Hb|..]|].
  intros ? w2 HJ2. apply keeps_bind. unfold wp at 1, free_tree. apply keeps_then, keeps_run.
  pose proof (tl_br _ _ _ _ _ _ HJ2) as Heq.
  split; [split|]; cbn; rewrite Heq; [done| |done].
  eapply TreeLink_Inv; [exact HJ2|done|done|done| |done|by left].
  intros u Hu. cbn in Hu |- *. rewrite lookup_delete_ne; [done|].
  intros <-. by apply elem_of_list_del in Hu as [_ ?].
Qed.

(** ** Creating the bridge *)

Lemma wf_maps_initial br :
  br_trees br = [0] → vid2fid br = replicate (Z.to_nat (MAX_VID + 1)) 0 →
  fid2mstid br = replicate (Z.to_nat (MAX_FID + 1)) 0 → wf_maps br.
Proof.
  intros Ht Hv Hf. split; rewrite ?Ht, ?Hv, ?Hf.
  - repeat constructor.
  - constructor; [|constructor]. unfold MAX_MSTID. lia.
  - simpl. lia.
  - intros vid Hr. exists 0. split; [|unfold MAX_FID; lia]. unfold array_get, MAX_VID in *.
    destruct (Z.ltb_spec vid 0); [lia|]. apply lookup_replicate. split; [done|]. lia.
  - split; [done|]. apply Forall_replicate. by left.
Qed.

Lemma Inv_initial br w x :
  br_ports br = [] → br_trees br = [0] → tree_ports x = [] →
  Inv br [] (w <| w_trees ::= <[0 := x]> |> <| w_br := br |>).
Proof.
  intros Hp Ht Hx. split; cbn; rewrite ?Hp, ?Ht; [done|by intros ? ?%elem_of_nil| | |
    by intros ? ? ?%elem_of_nil].
  - intros t ->%list_elem_of_singleton. rewrite lookup_insert_eq. eexists. split; [done|].
    unfold wf_tree. by rewrite Hp.
  - intros k [Hk _]. rewrite Hp in Hk. by apply elem_of_nil in Hk.
Qed.

Lemma vid2mstid_table_with_trees br l :
  vid2mstid_table (with_trees br l) = vid2mstid_table br.
Proof. reflexivity. Qed.

(** The outcome of the next allocation. *)
Definition next_calloc (w : world) : bool := default true (head (w_calloc w)).

Lemma calloc_ok_spec {E} w :
  wp E calloc_ok (λ ok w', ok = next_calloc w ∧ w_br w' = w_br w) w.
Proof. unfold wp, calloc_ok, next_calloc. by destruct (w_calloc w). Qed.

(** Whatever the heap held before: creation either reports that the allocation of
    the CIST failed, or leaves a well-formed bridge. *)
Lemma bridge_create_wf {E} stack mac w :
  length stack = 64%nat →
  wp E (MSTP_IN_bridge_create stack mac)
    (λ ok w', ok = next_calloc w ∧ (ok = true → wf_world w')) w.
Proof.
  intros Hs. unfold MSTP_IN_bridge_create. apply wp_bind, wp_upd_br.
  set (w1 := upd_field w_br _ w).
  assert (Hf : br_ports (w_br w1) = [] ∧ br_trees (w_br w1) = [] ∧
    vid2fid (w_br w1) = replicate (Z.to_nat (MAX_VID + 1)) 0 ∧
    fid2mstid (w_br w1) = replicate (Z.to_nat (MAX_FID + 1)) 0) by (split; [|split; [|split]]; reflexivity).
  assert (Hc : next_calloc w1 = next_calloc w) by reflexivity. rewrite <- Hc.
  clearbody w1. destruct Hf as (Hp & Htr & Hv & Hf).
  destruct (vid2mstid_table_Some (with_trees (w_br w1) [0])) as (table & Ht & Hlen);
    [by apply wf_maps_initial|].
  rewrite vid2mstid_table_with_trees in Ht.
  apply wp_bind. eapply wp_mono; [exact (RecalcConfigDigest_spec stack table w1 Hs Ht Hlen)|].
  intros ? w2 (d & -> & Hd). apply wp_bind, wp_upd_br. set (w3 := upd_field w_br _ _).
  unfold create_tree. apply wp_bind, wp_bind.
  change (next_calloc w1) with (next_calloc w3).
  eapply wp_mono; [exact (calloc_ok_spec w3)|].
  intros [] w4 [Hok Heq]; cbn [negb]; [|by apply wp_ret, wp_ret].
  apply wp_bind, wp_get_br, wp_bind. unfold wp at 1, new_tree. apply wp_ret, wp_bind, wp_upd_br, wp_ret.
  split; [done|]. intros _. rewrite (upd_br_eq _ _ (w_br w3)) by exact Heq.
  set (br5 := upd_field br_trees _ (w_br w3)).
  assert (Hd5 : digest_ok br5)
    by (eapply digest_ok_same; [exact Hd|intros; reflexivity|reflexivity]).
  assert (Hp5 : br_ports br5 = []) by exact Hp.
  assert (Ht5 : br_trees br5 = [0]) by (unfold br5, w3; cbn; by rewrite Htr).
  assert (Hv5 : vid2fid br5 = replicate (Z.to_nat (MAX_VID + 1)) 0) by exact Hv.
  assert (Hf5 : fid2mstid br5 = replicate (Z.to_nat (MAX_FID + 1)) 0) by exact Hf.
  clearbody br5. split; [split|]; cbn.
  - split; rewrite ?Ht5, ?Hp5; [by eexists|simpl; lia|constructor|apply NoDup_singleton].
  - by apply Inv_initial.
  - split; [by apply wf_maps_initial|done].
Qed.

Lemma bridge_create_returns stack mac w :
  length stack = 64%nat → next_calloc w = true →
  ∃ w', MSTP_IN_bridge_create stack mac w = Done true w'.
Proof.
  intros Hs Hc.
  destruct (wp_returns _ _ _ (bridge_create_wf stack mac w Hs)) as (ok & w' & H & Hok & _).
  exists w'. by rewrite H, Hok, Hc.
Qed.

(** ** All events *)

(** Everything bridge_track.c feeds the protocol code.  [CreatePort] comes with
    the port object its caller has allocated. *)
Inductive input :=
| CreatePort (p : port_id) (x : port_t) (portno : Z)
| DeletePort (p : port_id)
| SetBridgeAddress (macaddr : list Z)
| SetBridgeEnable (up : bool)
| SetPortEnable (p : port_id) (up : bool) (speed duplex : Z)
| OneSecond
| AllFidsFlushed (k : ptp_id)
| RxBpdu (p : port_id) (b : bpdu_t) (size : Z)
| SetCistBridgeConfig (cfg : CIST_BridgeConfig)
| SetMstiBridgeConfig (t : tree_id) (bridge_priority : Z)
| SetCistPortConfig (p : port_id) (cfg : CIST_PortConfig)
| SetMstiPortConfig (k : ptp_id) (cfg : MSTI_PortConfig)
| PortMcheck (p : port_id)
| SetVid2Fid (vid fid : Z)
| SetAllVids2Fids (vids2fids : list Z)
| SetFid2Mstid (fid mstid : Z)
| SetAllFids2Mstids (fids2mstids : list Z)
| CreateMsti (mstid : Z)
| DeleteMsti (mstid : Z)
| SetMstConfigId (revision : Z) (name : list Z).

Definition ignore {A} (m : M A) : M unit := m ;; skip.

Definition handle (stack : list Z) (i : input) : M unit :=
  match i with
  | CreatePort p x portno => ignore (alloc_port p x ;; MSTP_IN_port_create_and_add_tail p portno)
  | DeletePort p => MSTP_IN_delete_port p
  | SetBridgeAddress mac => MSTP_IN_set_bridge_address mac
  | SetBridgeEnable up => MSTP_IN_set_bridge_enable up
  | SetPortEnable p up s d => MSTP_IN_set_port_enable p up s d
  | OneSecond => MSTP_IN_one_second
  | AllFidsFlushed k => MSTP_IN_all_fids_flushed k
  | RxBpdu p b size => MSTP_IN_rx_bpdu p b size
  | SetCistBridgeConfig cfg => ignore (MSTP_IN_set_cist_bridge_config cfg)
  | SetMstiBridgeConfig t pri => ignore (MSTP_IN_set_msti_bridge_config t pri)
  | SetCistPortConfig p cfg => ignore (MSTP_IN_set_cist_port_config p cfg)
  | SetMstiPortConfig k cfg => ignore (MSTP_IN_set_msti_port_config k cfg)
  | PortMcheck p => ignore (MSTP_IN_port_mcheck p)
  | SetVid2Fid vid fid => ignore (MSTP_IN_set_vid2fid stack vid fid)
  | SetAllVids2Fids l => ignore (MSTP_IN_set_all_vids2fids stack l)
  | SetFid2Mstid fid mstid => ignore (MSTP_IN_set_fid2mstid stack fid mstid)
  | SetAllFids2Mstids l => ignore (MSTP_IN_set_all_fids2mstids stack l)
  | CreateMsti m => ignore (MSTP_IN_create_msti m)
  | DeleteMsti m => ignore (MSTP_IN_delete_msti m)
  | SetMstConfigId rev name => MSTP_IN_set_mst_config_id rev name
  end.

(** Pointers are to objects of this bridge, arrays have the size of their C type. *)
Definition valid_input (w : world) (i : input) : Prop :=
  match i with
  | CreatePort p x _ => fresh_port w p x ∧ 0 <= txCount x
  | DeletePort p | SetPortEnable p _ _ _ | SetCistPortConfig p _ | PortMcheck p =>
      p ∈ br_ports (w_br w)
  | RxBpdu p b _ => p ∈ br_ports (w_br w) ∧ length (mstConfiguration b) = 64%nat
  | AllFidsFlushed k | SetMstiPortConfig k _ => valid_ptp (w_br w) k
  | SetMstiBridgeConfig t _ => t ∈ br_trees (w_br w)
  | SetVid2Fid _ fid | SetFid2Mstid fid _ => 0 <= fid
  | SetAllVids2Fids l => length l = 4095%nat ∧ Forall (λ x, 0 <= x) l
  | SetAllFids2Mstids l => length l = 4096%nat
  | _ => True
  end.

Lemma keeps_ignore {A} (m : M A) w : keeps m w → keeps (ignore m) w.
Proof. apply (keeps_then m tt). Qed.

Lemma handle_keeps stack i w :
  length stack = 64%nat → wf_world w → valid_input w i → keeps (handle stack i) w.
Proof.
  intros Hs Hw Hv. destruct i; cbn [handle valid_input] in *; try apply keeps_ignore.
  - destruct Hv. by apply keeps_port_create.
  - by apply keeps_delete_port.
  - apply keeps_safe; [done|]. intros. by apply safe_MSTP_IN_set_bridge_address.
  - by apply keeps_set_bridge_enable.
  - apply keeps_safe; [done|]. intros. by apply safe_MSTP_IN_set_port_enable.
  - by apply keeps_one_second.
  - apply keeps_safe; [done|]. intros. by apply safe_MSTP_IN_all_fids_flushed.
  - destruct Hv. apply keeps_safe; [done|]. intros. by apply safe_MSTP_IN_rx_bpdu.
  - by apply keeps_set_cist_bridge_config.
  - apply keeps_safe; [done|]. intros. by apply safe_MSTP_IN_set_msti_bridge_config.
  - apply keeps_safe; [done|]. intros. by apply safe_MSTP_IN_set_cist_port_config.
  - apply keeps_safe; [done|]. intros. by apply safe_MSTP_IN_set_msti_port_config.
  - apply keeps_safe; [done|]. intros. by apply safe_MSTP_IN_port_mcheck.
  - by apply keeps_set_vid2fid.
  - destruct Hv. by apply keeps_set_all_vids2fids.
  - by apply keeps_set_fid2mstid.
  - by apply keeps_set_all_fids2mstids.
  - by apply keeps_create_msti.
  - by apply keeps_delete_msti.
  - by apply keeps_set_mst_config_id.
Qed.

(** ** Reachable worlds *)

(** What the interface layer does to the objects on its own account: it assigns to the
    members that are its own, frees a port the bridge does not have any more, and takes
    note of the actions. *)
Inductive env_step (w : world) : world → Prop :=
| env_bridge f stp : env_step w (w <| w_br ::= λ br, br <| br_sysdeps ::= f |> <| stp_enabled := stp |> |>)
| env_port p x f : w_ports w !! p = Some x →
    env_step w (w <| w_ports ::= <[p := x <| prt_sysdeps ::= f |>]> |>)
| env_free p : p ∉ br_ports (w_br w) → env_step w (w <| w_ports ::= delete p |>)
| env_lend out clock allocs :
    env_step w (w <| w_out := out |> <| w_clock := clock |> <| w_calloc := allocs |>).

(** A run of the daemon for one bridge: its creation, from a bridge object with any
    content and no trees or ports of its own, then any events, each with its own clock
    readings and allocation outcomes, and between them steps of the interface layer. *)
Inductive reachable (stack : list Z) : world → Prop :=
| reach_create mac w0 w :
    w_trees w0 = ∅ → w_ports w0 = ∅ → w_ptps w0 = ∅ →
    MSTP_IN_bridge_create stack mac w0 = Done true w → reachable stack w
| reach_step i clock allocs w w' :
    reachable stack w → valid_input w i →
    handle stack i (w <| w_clock := clock |> <| w_calloc := allocs |>) = Done tt w' →
    reachable stack w'
| reach_env w w' : reachable stack w → env_step w w' → reachable stack w'.

Lemma wf_world_environment clock allocs w :
  wf_world w → wf_world (w <| w_clock := clock |> <| w_calloc := allocs |>).
Proof. intros [[Hb Hi] Ht]. split; [split; [done|]|done]. split; apply Hi. Qed.

Lemma wf_world_env w w' : env_step w w' → wf_world w → wf_world w'.
Proof.
  intros Hs [[Hb Hi] Ht].
  assert (Hports : ∀ m, (∀ p x, p ∈ br_ports (w_br w) → w_ports w !! p = Some x → wf_port (w_br w) x →
            ∃ y, m !! p = Some y ∧ wf_port (w_br w) y) → wf_world (w <| w_ports := m |>)).
  { intros m Hm. split; [split; [done|]|done]. split; try apply Hi.
    intros p Hp. destruct (inv_port _ _ _ Hi p Hp) as (x & Hx & Hw). by eapply Hm. }
  destruct Hs as [f stp|p x f Hx|p Hp|out clock allocs].
  - split; [by apply wf_upd_br|]. by eapply wf_tables_same; [exact Ht|..].
  - apply (Hports (<[p := _]> (w_ports w))). intros q y Hq Hy Hw. destruct (decide (p = q)) as [->|Hne].
    + rewrite lookup_insert_eq. simplify_eq. eexists. split; [done|]. by destruct Hw.
    + rewrite lookup_insert_ne by done. by exists y.
  - apply (Hports (delete p (w_ports w))). intros q y Hq Hy Hw.
    rewrite lookup_delete_ne by (by intros ->). by exists y.
  - split; [split; [done|]|done]. split; apply Hi.
Qed.

Lemma reachable_wf_world stack w : length stack = 64%nat → reachable stack w → wf_world w.
Proof.
  intros Hs. induction 1 as [mac w0 w _ _ _ Hc|i clock allocs w w' _ IH Hv Hh|w w' _ IH He].
  - exact (proj2 (wp_Done True _ _ _ _ _ (bridge_create_wf stack mac w0 Hs) Hc) eq_refl).
  - pose proof (handle_keeps stack i _ Hs (wf_world_environment clock allocs w IH)) as Hk.
    exact (wp_Done _ _ _ _ _ _ (Hk Hv) Hh).
  - by eapply wf_world_env.
Qed.

(** C2: memory safety of the protocol entity: in every world that any sequence of
    events (port and MSTI creation and deletion, configuration, BPDUs, ticks) can lead
    to, no further event dereferences an invalid pointer or indexes an array out of
    its bounds, whatever the clock does and whichever allocations fail. *)
Theorem reachable_no_fault (stack : list Z) (i : input) (w : world) :
  length stack = 64%nat → reachable stack w → valid_input w i → handle stack i w ≠ Fault.
Proof.
  intros Hs Hr Hv Hf. apply reachable_wf_world in Hr; [|done].
  pose proof (handle_keeps stack i w Hs Hr Hv) as Hk. unfold keeps, wp in Hk. by rewrite Hf in Hk.
Qed.

(** C3: the representation invariant: every event takes a well-formed bridge to a
    well-formed bridge: each port has a per-tree port for each tree, in both lists and
    in the same order, the MSTIDs are sorted and at most 64, every VID leads through
    its FID to an existing tree, and the configuration digest is that of the current
    VID to MSTID mapping. *)
Theorem handle_preserves_wf (stack : list Z) (i : input) (w w' : world) :
  length stack = 64%nat → wf_world w → valid_input w i → handle stack i w = Done tt w' →
  wf_world w'.
Proof.
  intros Hs Hw Hv Hd. exact (wp_Done _ _ _ _ _ _ (handle_keeps stack i w Hs Hw Hv) Hd).
Qed.
