(* ===== verification/Sample.v ===== *)
(** A concrete bridge: two ports, the CIST and MSTI 5, to which VID 10 is mapped.
    It shows that the hypotheses of the theorems can hold: [sample] is well-formed,
    and [sample_up] is what the code makes of it once the bridge and its ports are
    enabled. *)
From Stdlib Require Import Sorting.Sorted.
From S2P Require Import Prelude Types Monad Md5 Vectors Outputs Procs RoleSelect PortSM TreeSM.
From S2P Require Import Prtsm Bridge Mgmt Wf Safety Links System.

Definition sample_mac : list Z := [0x02; 0; 0; 0; 0; 1].

Definition sample_br : bridge_t := bridge_default_internal_vars (zero_bridge
  <| br_ports := [1; 2]%nat |> <| br_trees := [0; 5] |>
  <| vid2fid := <[10%nat := 7]> (replicate 4095 0) |>
  <| fid2mstid := <[7%nat := 5]> (replicate 4096 0) |>
  <| ForceProtocolVersion := protoMSTP |>
  <| MaxHops := 20 |> <| br_Forward_Delay := 15 |> <| br_Max_Age := 20 |>
  <| Transmit_Hold_Count := 6 |> <| Migrate_Time := 3 |> <| Ageing_Time := 300 |>
  <| br_Hello_Time := 2 |>).

Definition with_digest (d : list Z) (br : bridge_t) : bridge_t :=
  br <| MstConfigId ::= λ c, c <| configuration_digest := d |> |>.

Definition sample_tree (t : tree_id) : tree_t :=
  created_tree sample_br sample_mac t <| tree_ports := [1; 2]%nat |>.
Definition sample_port (p : port_id) : port_t :=
  created_port (Z.of_nat p) zero_port <| prt_trees := [0; 5] |>.
Definition sample_ptp (k : ptp_id) : per_tree_port_t :=
  created_ptp (sample_tree (ptp_tree k)) (sample_port (ptp_port k)).

(** The bridge as it is before it is enabled; the clock stands still. *)
Definition sample (d : list Z) : world :=
  mk_world (with_digest d sample_br)
    (list_to_map (map (λ t, (t, sample_tree t)) [0; 5]))
    (list_to_map (map (λ p, (p, sample_port p)) [1; 2]%nat))
    (list_to_map (map (λ k, (k, sample_ptp k)) [(1%nat, 0); (1%nat, 5); (2%nat, 0); (2%nat, 5)]))
    [] (replicate 60 (0, 0)) [].

Definition sample_stack : list Z := replicate 64 0.
Definition sample_digest : list Z := default [] (config_digest sample_br).

Lemma sample_br_wf d : wf_bridge (with_digest d sample_br).
Proof.
  split; cbn; [by eexists|lia| |]; apply NoDup_cons; split;
    (apply NoDup_singleton || by intros ?%list_elem_of_singleton).
Qed.

Lemma sample_maps_wf d : wf_maps (with_digest d sample_br).
Proof.
  split.
  - repeat constructor.
  - repeat constructor; unfold MAX_MSTID; lia.
  - cbn. lia.
  - intros vid Hr. unfold array_get, MAX_VID, MAX_FID in *.
    change (vid2fid _) with (<[10%nat := 7]> (replicate 4095 0)).
    destruct (Z.ltb_spec vid 0); [lia|].
    destruct (decide (Z.to_nat vid = 10%nat)) as [->|Hne].
    + exists 7. split; [|lia]. apply list_lookup_insert_eq. rewrite length_replicate. lia.
    + exists 0. split; [|lia]. rewrite list_lookup_insert_ne by done.
      apply lookup_replicate. split; [done|lia].
  - change (fid2mstid _) with (<[7%nat := 5]> (replicate 4096 0)). split.
    + by rewrite length_insert, length_replicate.
    + apply Forall_insert; [apply Forall_replicate; by left|right; by left].
Qed.

Lemma sample_wf d : wf (sample d).
Proof.
  split; [apply sample_br_wf|]. split; [done| | | |by intros ? ? ?%elem_of_nil].
  - intros p Hp. change (p ∈ [1; 2]%nat) in Hp.
    apply list_elem_of_In in Hp as [<-|[<-|[]]]; (eexists; split; [reflexivity|]; split; cbn; done || lia).
  - intros t Ht. change (t ∈ [0; 5]) in Ht.
    apply list_elem_of_In in Ht as [<-|[<-|[]]]; by eexists.
  - intros [p t] [Hp Ht]. change (p ∈ [1; 2]%nat) in Hp. change (t ∈ [0; 5]) in Ht.
    apply list_elem_of_In in Hp as [<-|[<-|[]]]; apply list_elem_of_In in Ht as [<-|[<-|[]]];
      (eexists; split; [reflexivity|]; intros _ [H|H]; discriminate H).
Qed.

Lemma vid2mstid_table_with_digest d br : vid2mstid_table (with_digest d br) = vid2mstid_table br.
Proof. reflexivity. Qed.

Lemma digest_ok_with br d table :
  vid2mstid_table br = Some table → d = default [] (config_digest br) →
  digest_ok (with_digest d br).
Proof.
  intros Ht ->. unfold digest_ok.
  change (config_digest (with_digest ?d br)) with (config_digest br).
  unfold config_digest. by rewrite Ht.
Qed.

Lemma sample_w_br d : w_br (sample d) = with_digest d sample_br.
Proof. done. Qed.

Lemma sample_wf_world : wf_world (sample sample_digest).
Proof.
  split; [apply sample_wf|]. rewrite sample_w_br. split; [apply sample_maps_wf|].
  destruct (vid2mstid_table_Some (with_digest [] sample_br)) as (table & Ht & _);
    [exact (sample_maps_wf [])|].
  rewrite vid2mstid_table_with_digest in Ht. exact (digest_ok_with _ _ _ Ht eq_refl).
Qed.

(** The world an event leads to, if it returns. *)
Definition after_event (w : world) (i : input) : world :=
  match handle sample_stack i w with Done _ w' => w' <| w_clock := replicate 60 (0, 0) |> | _ => w end.

(** The bridge is enabled, then both of its ports come up, at 1 Gbit/s and full duplex. *)
Definition sample_up (d : list Z) : world :=
  foldl after_event (sample d)
    [SetBridgeEnable true; SetPortEnable 1%nat true 1000 1; SetPortEnable 2%nat true 1000 1].

(** ** Theorems of Procs and System on the sample *)

(** A bridge before and after [MSTP_IN_bridge_create]. *)
Definition sample_blank : world := mk_world zero_bridge ∅ ∅ ∅ [] [] [].

Definition sample_new_br : bridge_t := bridge_default_internal_vars (zero_bridge
  <| vid2fid := replicate (Z.to_nat (MAX_VID + 1)) 0 |>
  <| fid2mstid := replicate (Z.to_nat (MAX_FID + 1)) 0 |>
  <| MstConfigId ::= λ c, c <| configuration_name ::= sprintf_mac sample_mac |> |>
  <| ForceProtocolVersion := protoRSTP |>
  <| MaxHops := 20 |> <| br_Forward_Delay := 15 |> <| br_Max_Age := 20 |>
  <| Transmit_Hold_Count := 6 |> <| Migrate_Time := 3 |> <| Ageing_Time := 300 |>
  <| br_Hello_Time := 2 |>).

Definition sample_new (d : list Z) : world :=
  mk_world (with_digest d sample_new_br <| br_trees := [0] |>)
    {[0 := created_tree sample_new_br sample_mac 0]} ∅ ∅ [] [] [].

Lemma sample_new_reachable : ∃ d, reachable sample_stack (sample_new d).
Proof.
  set (f := λ br : bridge_t, br
    <| br_ports := [] |> <| br_trees := [] |> <| bridgeEnabled := false |>
    <| vid2fid := replicate (Z.to_nat (MAX_VID + 1)) 0 |>
    <| fid2mstid := replicate (Z.to_nat (MAX_FID + 1)) 0 |>
    <| MstConfigId ::= λ c, c <| selector := 0 |>
                              <| configuration_name ::= sprintf_mac sample_mac |>
                              <| revision_level := 0 |> |>).
  set (w1 := sample_blank <| w_br ::= f |>).
  destruct (vid2mstid_table_Some (with_trees (w_br w1) [0])) as (table & Ht & Hlen);
    [by apply wf_maps_initial|].
  rewrite vid2mstid_table_with_trees in Ht.
  destruct (wp_returns _ _ _ (RecalcConfigDigest_spec sample_stack table w1 eq_refl Ht Hlen))
    as ([] & w2 & H2 & d & -> & _).
  exists d. apply (reach_create _ sample_mac sample_blank _ eq_refl eq_refl eq_refl).
  unfold MSTP_IN_bridge_create. rewrite (bind_Done _ _ sample_blank tt w1) by reflexivity.
  rewrite (bind_Done _ _ _ _ _ H2). reflexivity.
Qed.

Lemma sample_reachable : ∃ w, reachable sample_stack w.
Proof. destruct sample_new_reachable as [d H]. by eexists. Qed.

Lemma reachable_no_fault_witness :
  ∃ w, reachable sample_stack w ∧ handle sample_stack OneSecond w ≠ Fault.
Proof.
  destruct sample_reachable as [w Hr]. exists w. split; [exact Hr|].
  exact (reachable_no_fault sample_stack OneSecond w eq_refl Hr Logic.I).
Defined.

(** The world [m] leads to from [w]. *)
Definition result (m : M unit) (w : world) : world :=
  match m w with Done _ w' => w' | _ => w end.
Definition returns (m : M unit) (w : world) : bool :=
  match m w with Done _ _ => true | _ => false end.

Lemma returns_result m w : returns m w = true → m w = Done tt (result m w).
Proof. unfold returns, result. by destruct (m w) as [[] w'| |]. Qed.

(** Deleting port 1 of the sample, which is not enabled. *)
Definition sample_deleted (d : list Z) : world :=
  result (handle sample_stack (DeletePort 1%nat)) (sample d).

Lemma sample_delete d :
  handle sample_stack (DeletePort 1%nat) (sample d) = Done tt (sample_deleted d).
Proof. apply returns_result. vm_compute. reflexivity. Qed.

Lemma handle_preserves_wf_witness :
  wf_world (sample_deleted sample_digest) ∧ br_ports (w_br (sample_deleted [])) = [2%nat].
Proof.
  split; [|vm_compute; reflexivity].
  exact (handle_preserves_wf sample_stack (DeletePort 1%nat) _ _ eq_refl sample_wf_world
           (list_elem_of_here 1%nat [2%nat]) (sample_delete sample_digest)).
Defined.

Lemma set_fdbFlush_synchronous_witness :
  ∃ x, w_ptps (result (set_fdbFlush (1%nat, 0)) (sample [])) !! (1%nat, 0) = Some x ∧
       fdbFlush x = false.
Proof.
  apply (set_fdbFlush_synchronous skip (1%nat, 0) (sample [])).
  apply returns_result. vm_compute. reflexivity.
Defined.

(** ** A run from the creation of the bridge *)

(** The clock stands still and every allocation succeeds. *)
Definition environment (w : world) : world :=
  w <| w_clock := replicate 60 (0, 0) |> <| w_calloc := [] |>.
Definition step_event (w : world) (i : input) : world :=
  result (handle sample_stack i) (environment w).

Lemma step_event_reachable w i :
  reachable sample_stack w → valid_input w i →
  returns (handle sample_stack i) (environment w) = true →
  reachable sample_stack (step_event w i).
Proof.
  intros Hr Hv Hret. exact (reach_step _ i _ _ _ _ Hr Hv (returns_result _ _ Hret)).
Qed.

(** One port is created, and the bridge enabled while the port is down. *)
Definition sample_one_port (d : list Z) : world :=
  step_event (sample_new d) (CreatePort 1%nat zero_port 1).
Definition sample_running (d : list Z) : world :=
  step_event (sample_one_port d) (SetBridgeEnable true).

Lemma sample_running_reachable : ∃ d, reachable sample_stack (sample_running d).
Proof.
  destruct sample_new_reachable as [d H]. exists d.
  assert (Hp : br_ports (w_br (sample_new d)) = []) by reflexivity.
  assert (H1 : reachable sample_stack (sample_one_port d)).
  { apply step_event_reachable; [exact H| |vm_compute; reflexivity].
    split; [|done]. split; [rewrite Hp; by intros ?%elem_of_nil|].
    split; [reflexivity|cbn; lia]. }
  unfold sample_running. set (w := sample_one_port d) in *.
  apply step_event_reachable; [exact H1|exact Logic.I|]. unfold w. vm_compute. reflexivity.
Qed.
