(* ===== verification/Frame.v ===== *)
(** What the protocol code leaves alone: a run of the state machines writes
    neither the bridge object nor the lists of its ports and trees, takes no clock
    reading and allocates nothing. *)
From S2P Require Import Prelude Types Monad Vectors Outputs Procs RoleSelect PortSM TreeSM.
From S2P Require Import Prtsm Bridge Wf.

Definition quiet {A} (m : M A) : Prop := ∀ w a w', m w = Done a w' →
  w_br w' = w_br w ∧ w_clock w' = w_clock w ∧ w_calloc w' = w_calloc w.

Create HintDb quiet.

Lemma quiet_ret {A} (a : A) : quiet (mret a).
Proof. by intros w b w' [= _ ->]. Qed.

Lemma quiet_bind {A B} (m : M A) (f : A → M B) : quiet m → (∀ a, quiet (f a)) → quiet (m ≫= f).
Proof.
  intros Hm Hf w b w' (a & w1 & H1 & H2)%bind_Done_inv.
  apply Hm in H1 as (? & ? & ?). apply Hf in H2 as (? & ? & ?). repeat split; congruence.
Qed.

Lemma quiet_fault {A} : quiet (@fault A).
Proof. by intros w b w'. Qed.
Lemma quiet_out_of_fuel {A} : quiet (@out_of_fuel A).
Proof. by intros w b w'. Qed.
Lemma quiet_of_option {A} (o : option A) : quiet (of_option o).
Proof. destruct o; [apply quiet_ret|apply quiet_fault]. Qed.
Lemma quiet_get_br : quiet get_br.
Proof. by intros w b w' [= _ ->]. Qed.
Lemma quiet_get_port p : quiet (get_port p).
Proof. intros w. apply quiet_of_option. Qed.
Lemma quiet_get_tree t : quiet (get_tree t).
Proof. intros w. apply quiet_of_option. Qed.
Lemma quiet_get_ptp k : quiet (get_ptp k).
Proof. intros w. apply quiet_of_option. Qed.
Lemma quiet_upd_port p f : quiet (upd_port p f).
Proof. intros w a w'. unfold upd_port. destruct (_ !! _); [|done]. by intros [= _ <-]. Qed.
Lemma quiet_upd_tree t f : quiet (upd_tree t f).
Proof. intros w a w'. unfold upd_tree. destruct (_ !! _); [|done]. by intros [= _ <-]. Qed.
Lemma quiet_upd_ptp k f : quiet (upd_ptp k f).
Proof. intros w a w'. unfold upd_ptp. destruct (_ !! _); [|done]. by intros [= _ <-]. Qed.
Lemma quiet_emit e : quiet (emit e).
Proof. intros w a w'. by intros [= _ <-]. Qed.
Lemma quiet_for_each {A} (l : list A) body : (∀ x, quiet (body x)) → quiet (for_each l body).
Proof. intros Hb. induction l; [apply quiet_ret|by apply quiet_bind]. Qed.
Lemma quiet_any_of {A} (l : list A) body : (∀ x, quiet (body x)) → quiet (any_of l body).
Proof.
  intros Hb. induction l; [apply quiet_ret|]. apply quiet_bind; [done|].
  intros []; [apply quiet_ret|done].
Qed.
Lemma quiet_all_of {A} (l : list A) body : (∀ x, quiet (body x)) → quiet (all_of l body).
Proof.
  intros Hb. induction l; [apply quiet_ret|]. apply quiet_bind; [done|].
  intros []; [done|apply quiet_ret].
Qed.

#[export] Hint Resolve quiet_ret quiet_fault quiet_out_of_fuel quiet_of_option quiet_get_br
  quiet_get_port quiet_get_tree quiet_get_ptp quiet_upd_port quiet_upd_tree quiet_upd_ptp
  quiet_emit : quiet.

(** Unfold whatever is not one of the primitives. *)
Ltac quiet_step :=
  first
    [ solve [auto with quiet]
    | lazymatch goal with
      | |- quiet (let _ := _ in _) => cbv zeta
      | |- quiet (_ ≫= _) => apply quiet_bind; [|intros ?]
      | |- quiet (for_each _ _) => apply quiet_for_each; intros ?
      | |- quiet (any_of _ _) => apply quiet_any_of; intros ?
      | |- quiet (all_of _ _) => apply quiet_all_of; intros ?
      | |- quiet (match ?b with _ => _ end) => destruct b
      | |- quiet ?m => let h := head_of m in unfold h
      end ].
Ltac quiet_auto := repeat quiet_step.

(** The recursive functions. *)
Lemma quiet_find_msti_msg msgs i n t : quiet (find_msti_msg msgs i n t).
Proof. revert i. induction n; intros i; simpl; quiet_auto. Qed.
Lemma quiet_txMstp_mstis l i b : quiet (txMstp_mstis l i b).
Proof. revert i b. induction l; intros i b; simpl; quiet_auto. Qed.
Lemma quiet_select_root t l r : quiet (select_root t l r).
Proof. revert r. induction l; intros r; simpl; quiet_auto. Qed.
Lemma quiet_allTransmitReady l b : quiet (allTransmitReady l b).
Proof. revert b. induction l; intros b; simpl; quiet_auto. Qed.
#[export] Hint Resolve quiet_find_msti_msg quiet_txMstp_mstis quiet_select_root
  quiet_allTransmitReady : quiet.

Lemma quiet_PPMSM_runf n p d : quiet (PPMSM_runf n p d).
Proof. revert d. induction n; intros d; cbn [PPMSM_runf]; quiet_auto. Qed.
Lemma quiet_PTSM_runf n p d : quiet (PTSM_runf n p d).
Proof. revert d. induction n; intros d; cbn [PTSM_runf]; quiet_auto. Qed.
Lemma quiet_PISM_runf n k d : quiet (PISM_runf n k d).
Proof. revert d. induction n; intros d; cbn [PISM_runf]; quiet_auto. Qed.
Lemma quiet_PSTSM_runf n k d : quiet (PSTSM_runf n k d).
Proof. revert d. induction n; intros d; cbn [PSTSM_runf]; quiet_auto. Qed.
Lemma quiet_TCSM_runf n k d : quiet (TCSM_runf n k d).
Proof. revert d. induction n; intros d; cbn [TCSM_runf]; quiet_auto. Qed.
Lemma quiet_PRTSM_runf n v k d : quiet (PRTSM_runf n v k d).
Proof. revert d. induction n; intros d; cbn [PRTSM_runf]; quiet_auto. Qed.
#[export] Hint Resolve quiet_PPMSM_runf quiet_PTSM_runf quiet_PISM_runf quiet_PSTSM_runf
  quiet_TCSM_runf quiet_PRTSM_runf : quiet.

Lemma quiet_run_once d : quiet (__br_state_machines_run d).
Proof. quiet_auto. Qed.

(** ** Members a computation leaves alone

    [same pc kc p k m]: [m] keeps [pc] of the port [p] and [kc] of the per-tree port
    [k], where [pc] and [kc] select some of their members. *)

Section same.
Context {TP TK : Type} (pc : port_t → TP) (kc : per_tree_port_t → TK).
Context (p : port_id) (k : ptp_id).

Definition same {A} (m : M A) : Prop := ∀ w a w', m w = Done a w' →
  pc <$> w_ports w' !! p = pc <$> w_ports w !! p ∧
  kc <$> w_ptps w' !! k = kc <$> w_ptps w !! k.

Lemma same_ret {A} (a : A) : same (mret a).
Proof. by intros w b w' [= _ ->]. Qed.

Lemma same_bind {A B} (m : M A) (f : A → M B) : same m → (∀ a, same (f a)) → same (m ≫= f).
Proof.
  intros Hm Hf w b w' (a & w1 & H1 & H2)%bind_Done_inv.
  apply Hm in H1 as (? & ?). apply Hf in H2 as (? & ?). split; congruence.
Qed.

(** A computation that only reads. *)
Definition same_of_eq {A} (m : M A) : (∀ w a w', m w = Done a w' → w' = w) → same m.
Proof. intros Hm w a w' ->%Hm. done. Qed.

Lemma same_fault {A} : same (@fault A).
Proof. by intros w b w'. Qed.
Lemma same_out_of_fuel {A} : same (@out_of_fuel A).
Proof. by intros w b w'. Qed.
Lemma same_of_option {A} (o : option A) : same (of_option o).
Proof. destruct o; [apply same_ret|apply same_fault]. Qed.
Lemma same_get_br : same get_br.
Proof. by intros w b w' [= _ ->]. Qed.
Lemma same_get_port q : same (get_port q).
Proof. intros w. apply same_of_option. Qed.
Lemma same_get_tree t : same (get_tree t).
Proof. intros w. apply same_of_option. Qed.
Lemma same_get_ptp j : same (get_ptp j).
Proof. intros w. apply same_of_option. Qed.
Lemma same_upd_br f : same (upd_br f).
Proof. by intros w b w' [= _ <-]. Qed.
Lemma same_emit e : same (emit e).
Proof. by intros w b w' [= _ <-]. Qed.
Lemma same_upd_tree t f : same (upd_tree t f).
Proof. intros w a w'. unfold upd_tree. destruct (_ !! _); [|done]. by intros [= _ <-]. Qed.

Lemma same_upd_port q f : q ≠ p ∨ (∀ x, pc (f x) = pc x) → same (upd_port q f).
Proof.
  intros Hf w a w'. unfold upd_port. destruct (w_ports w !! q) as [x|] eqn:Hx; [|done].
  intros [= _ <-]. split; [|done]. cbn. destruct (decide (q = p)) as [->|Hne].
  - rewrite lookup_insert_eq, Hx. cbn. f_equal. by destruct Hf.
  - by rewrite lookup_insert_ne.
Qed.

Lemma same_upd_ptp j f : j ≠ k ∨ (∀ x, kc (f x) = kc x) → same (upd_ptp j f).
Proof.
  intros Hf w a w'. unfold upd_ptp. destruct (w_ptps w !! j) as [x|] eqn:Hx; [|done].
  intros [= _ <-]. split; [done|]. cbn. destruct (decide (j = k)) as [->|Hne].
  - rewrite lookup_insert_eq, Hx. cbn. f_equal. by destruct Hf.
  - by rewrite lookup_insert_ne.
Qed.

Lemma same_for_each {A} (l : list A) body : (∀ x, same (body x)) → same (for_each l body).
Proof. intros Hb. induction l; [apply same_ret|by apply same_bind]. Qed.
Lemma same_any_of {A} (l : list A) body : (∀ x, same (body x)) → same (any_of l body).
Proof.
  intros Hb. induction l; [apply same_ret|]. apply same_bind; [done|].
  intros []; [apply same_ret|done].
Qed.
Lemma same_all_of {A} (l : list A) body : (∀ x, same (body x)) → same (all_of l body).
Proof.
  intros Hb. induction l; [apply same_ret|]. apply same_bind; [done|].
  intros []; [done|apply same_ret].
Qed.
Lemma same_find_msti_msg msgs i n t : same (find_msti_msg msgs i n t).
Proof.
  revert i. induction n; intros i; simpl; [apply same_ret|].
  apply same_bind; [apply same_of_option|]. intros m. destruct (_ =? _); [apply same_ret|done].
Qed.
Lemma same_txMstp_mstis l i b : same (txMstp_mstis l i b).
Proof.
  revert i b. induction l; intros i b; simpl; [apply same_ret|].
  apply same_bind; [apply same_get_ptp|]. intros m. destruct (_ <? _)%nat; [done|apply same_fault].
Qed.
Lemma same_allTransmitReady l b : same (allTransmitReady l b).
Proof.
  revert b. induction l; intros b; simpl; [apply same_ret|].
  apply same_bind; [apply same_get_ptp|]. intros x. destruct (_ || _); [apply same_ret|done].
Qed.
End same.

Create HintDb same.
#[export] Hint Resolve same_ret same_fault same_out_of_fuel same_of_option same_get_br
  same_get_port same_get_tree same_get_ptp same_upd_br same_upd_tree same_emit
  same_find_msti_msg same_txMstp_mstis same_allTransmitReady : same.
#[export] Hint Extern 1 (same _ _ _ _ (upd_port _ _)) =>
  apply same_upd_port; right; intros; reflexivity : same.
#[export] Hint Extern 1 (same _ _ _ _ (upd_ptp _ _)) =>
  apply same_upd_ptp; right; intros; reflexivity : same.

Ltac same_step :=
  first
    [ solve [auto with same]
    | lazymatch goal with
      | |- same _ _ _ _ (let _ := _ in _) => cbv zeta
      | |- same _ _ _ _ (_ ≫= _) => apply same_bind; [|intros ?]
      | |- same _ _ _ _ (for_each _ _) => apply same_for_each; intros ?
      | |- same _ _ _ _ (any_of _ _) => apply same_any_of; intros ?
      | |- same _ _ _ _ (all_of _ _) => apply same_all_of; intros ?
      | |- same _ _ _ _ (match ?b with _ => _ end) => destruct b eqn:?
      | |- same _ _ _ _ ?m => let h := head_of m in unfold h
      end ].
Ltac same_auto := repeat same_step.

(** Reading the kept members back. *)
Lemma same_port {TP TK A} (pc : port_t → TP) (kc : per_tree_port_t → TK) p k (m : M A) w a w' x :
  same pc kc p k m → m w = Done a w' → w_ports w !! p = Some x →
  ∃ x', w_ports w' !! p = Some x' ∧ pc x' = pc x.
Proof.
  intros Hm [H _]%Hm Hx. rewrite Hx in H. destruct (w_ports w' !! p) as [x'|]; [|done].
  injection H as H. by exists x'.
Qed.

Lemma same_ptp {TP TK A} (pc : port_t → TP) (kc : per_tree_port_t → TK) p k (m : M A) w a w' x :
  same pc kc p k m → m w = Done a w' → w_ptps w !! k = Some x →
  ∃ x', w_ptps w' !! k = Some x' ∧ kc x' = kc x.
Proof.
  intros Hm [_ H]%Hm Hx. rewrite Hx in H. destruct (w_ptps w' !! k) as [x'|]; [|done].
  injection H as H. by exists x'.
Qed.
