(* ===== verification/Follows.v ===== *)
(** Relations between the world before and after a call: [follows R m] for a preorder
    [R].  Two of them are what the daemon relies on when it calls the protocol entity:
    [same_view], the call leaves alone the members bridge_track.c works with; and
    [calm], for a bridge that is only monitored the call has no action but the shutdown
    of a guarded port. *)
From S2P Require Import Prelude Types Monad Vectors Outputs Procs RoleSelect PortSM TreeSM.
From S2P Require Import Prtsm Bridge Mgmt Wf Frame.

Definition follows (R : world → world → Prop) {A} (m : M A) : Prop :=
  ∀ w a w', m w = Done a w' → R w w'.

Section follows.
Context (R : world → world → Prop) `{!PreOrder R}.

Lemma follows_ret {A} (a : A) : follows R (mret a).
Proof. by intros w b w' [= _ ->]. Qed.
Lemma follows_bind {A B} (m : M A) (f : A → M B) :
  follows R m → (∀ a, follows R (f a)) → follows R (m ≫= f).
Proof.
  intros Hm Hf w b w' (a & w1 & H1 & H2)%bind_Done_inv.
  etrans; [by eapply Hm|by eapply Hf].
Qed.
Lemma follows_fault {A} : follows R (@fault A).
Proof. by intros w b w'. Qed.
Lemma follows_out_of_fuel {A} : follows R (@out_of_fuel A).
Proof. by intros w b w'. Qed.
Lemma follows_of_option {A} (o : option A) : follows R (of_option o).
Proof. destruct o; [apply follows_ret|apply follows_fault]. Qed.
Lemma follows_get_br : follows R get_br.
Proof. by intros w b w' [= _ ->]. Qed.
Lemma follows_get_port p : follows R (get_port p).
Proof. intros w. apply follows_of_option. Qed.
Lemma follows_get_tree t : follows R (get_tree t).
Proof. intros w. apply follows_of_option. Qed.
Lemma follows_get_ptp k : follows R (get_ptp k).
Proof. intros w. apply follows_of_option. Qed.
Lemma follows_clock_readings : follows R clock_readings.
Proof. by intros w a w' [= _ <-]. Qed.
Lemma follows_for_each {A} (l : list A) body :
  (∀ x, follows R (body x)) → follows R (for_each l body).
Proof. intros Hb. induction l; [apply follows_ret|by apply follows_bind]. Qed.
Lemma follows_any_of {A} (l : list A) body : (∀ x, follows R (body x)) → follows R (any_of l body).
Proof.
  intros Hb. induction l; [apply follows_ret|]. apply follows_bind; [done|].
  intros []; [apply follows_ret|done].
Qed.
Lemma follows_all_of {A} (l : list A) body : (∀ x, follows R (body x)) → follows R (all_of l body).
Proof.
  intros Hb. induction l; [apply follows_ret|]. apply follows_bind; [done|].
  intros []; [done|apply follows_ret].
Qed.
End follows.

Create HintDb follows discriminated.
#[export] Hint Constants Opaque : follows.
#[export] Hint Transparent timespec : follows.
#[export] Hint Resolve follows_ret follows_fault follows_out_of_fuel follows_of_option
  follows_get_br follows_get_port follows_get_tree follows_get_ptp follows_clock_readings : follows.

Ltac follows_step :=
  lazymatch goal with
  | |- follows _ (let _ := _ in _) => cbv zeta
  | |- follows _ (_ ≫= _) => apply follows_bind; [apply _| |intros ?]
  | |- follows _ (for_each _ _) => apply follows_for_each; [apply _|intros ?]
  | |- follows _ (any_of _ _) => apply follows_any_of; [apply _|intros ?]
  | |- follows _ (all_of _ _) => apply follows_all_of; [apply _|intros ?]
  | _ =>
    first
      [ solve [eauto with follows typeclass_instances]
      | lazymatch goal with
        | |- follows _ (match ?b with _ => _ end) => destruct b
        | |- follows _ ?m => let h := head_of m in unfold h
        end ]
  end.
Ltac follows_auto := repeat follows_step.

(** ** What bridge_track.c works with *)

Definition br_view (br : bridge_t) :=
  (br_ports br, br_sysdeps br, stp_enabled br, bridgeEnabled br).
Definition port_view (x : port_t) := (prt_sysdeps x, portEnabled x).

Definition same_view (w w' : world) : Prop :=
  br_view (w_br w') = br_view (w_br w) ∧
  ∀ p, port_view <$> w_ports w' !! p = port_view <$> w_ports w !! p.

#[export] Instance same_view_preorder : PreOrder same_view.
Proof.
  split; [by split|]. intros w1 w2 w3 [H1 H1'] [H2 H2']. split; [congruence|].
  intros p. by rewrite H2', H1'.
Qed.

Lemma view_upd_br f : (∀ br, br_view (f br) = br_view br) → follows same_view (upd_br f).
Proof. intros Hf w a w' [= _ <-]. split; [apply Hf|done]. Qed.
Lemma view_upd_port q f : (∀ x, port_view (f x) = port_view x) → follows same_view (upd_port q f).
Proof.
  intros Hf w a w'. unfold upd_port. destruct (w_ports w !! q) as [x|] eqn:Hx; [|done].
  intros [= _ <-]. split; [done|]. intros p. cbn. destruct (decide (q = p)) as [->|].
  - rewrite lookup_insert_eq, Hx. cbn. by rewrite Hf.
  - by rewrite lookup_insert_ne.
Qed.
Lemma view_upd_tree t f : follows same_view (upd_tree t f).
Proof. intros w a w'. unfold upd_tree. destruct (_ !! _); [|done]. by intros [= _ <-]. Qed.
Lemma view_upd_ptp k f : follows same_view (upd_ptp k f).
Proof. intros w a w'. unfold upd_ptp. destruct (_ !! _); [|done]. by intros [= _ <-]. Qed.
Lemma view_emit e : follows same_view (emit e).
Proof. by intros w a w' [= _ <-]. Qed.
Lemma view_calloc_ok : follows same_view calloc_ok.
Proof. intros w a w'. unfold calloc_ok. destruct (w_calloc w); by intros [= _ <-]. Qed.
Lemma view_clock : follows same_view clock_gettime.
Proof. intros w a w'. unfold clock_gettime. destruct (w_clock w); [done|]. by intros [= _ <-]. Qed.
Lemma view_new_tree t x : follows same_view (new_tree t x).
Proof. by intros w a w' [= _ <-]. Qed.
Lemma view_free_tree t : follows same_view (free_tree t).
Proof. by intros w a w' [= _ <-]. Qed.
Lemma view_new_ptp k x : follows same_view (new_ptp k x).
Proof. by intros w a w' [= _ <-]. Qed.
Lemma view_free_ptp k : follows same_view (free_ptp k).
Proof. by intros w a w' [= _ <-]. Qed.
#[export] Hint Resolve view_upd_tree view_upd_ptp view_emit view_calloc_ok view_clock view_new_tree
  view_free_tree view_new_ptp view_free_ptp : follows.
#[export] Hint Extern 1 (follows same_view (upd_br _)) =>
  apply view_upd_br; intros; reflexivity : follows.
#[export] Hint Extern 1 (follows same_view (upd_port _ _)) =>
  apply view_upd_port; intros; reflexivity : follows.

(** *** The recursive functions *)

Section readers.
Context (R : world → world → Prop) `{!PreOrder R}.
Lemma follows_find_msti_msg msgs i n t : follows R (find_msti_msg msgs i n t).
Proof. revert i. induction n; intros i; simpl; follows_auto. Qed.
Lemma follows_txMstp_mstis l i b : follows R (txMstp_mstis l i b).
Proof. revert i b. induction l; intros i b; simpl; follows_auto. Qed.
Lemma follows_allTransmitReady l b : follows R (allTransmitReady l b).
Proof. revert b. induction l; intros b; simpl; follows_auto. Qed.
End readers.
#[export] Hint Resolve follows_find_msti_msg follows_txMstp_mstis follows_allTransmitReady : follows.

Lemma view_select_root t l r : follows same_view (select_root t l r).
Proof. revert r. induction l; intros r; simpl; follows_auto. Qed.
#[export] Hint Resolve view_select_root : follows.
Lemma view_PPMSM n p d : follows same_view (PPMSM_runf n p d).
Proof. revert d. induction n; intros d; cbn [PPMSM_runf]; follows_auto. Qed.
Lemma view_PTSM n p d : follows same_view (PTSM_runf n p d).
Proof. revert d. induction n; intros d; cbn [PTSM_runf]; follows_auto. Qed.
Lemma view_PISM n k d : follows same_view (PISM_runf n k d).
Proof. revert d. induction n; intros d; cbn [PISM_runf]; follows_auto. Qed.
Lemma view_PSTSM n k d : follows same_view (PSTSM_runf n k d).
Proof. revert d. induction n; intros d; cbn [PSTSM_runf]; follows_auto. Qed.
Lemma view_TCSM n k d : follows same_view (TCSM_runf n k d).
Proof. revert d. induction n; intros d; cbn [TCSM_runf]; follows_auto. Qed.
Lemma view_PRTSM n v k d : follows same_view (PRTSM_runf n v k d).
Proof. revert d. induction n; intros d; cbn [PRTSM_runf]; follows_auto. Qed.
#[export] Hint Resolve view_PPMSM view_PTSM view_PISM view_PSTSM view_TCSM view_PRTSM : follows.
Lemma view_loop n tv : follows same_view (br_state_machines_loop n tv).
Proof. induction n; cbn [br_state_machines_loop]; follows_auto. Qed.
#[export] Hint Resolve view_loop : follows.
Lemma view_run : follows same_view br_state_machines_run.
Proof. follows_auto. Qed.
Lemma view_set_tree_addresses l mac c : follows same_view (set_tree_addresses l mac c).
Proof. revert c. induction l; intros c; simpl; follows_auto. Qed.
Lemma view_internal_costs l c b : follows same_view (set_internal_costs l c b).
Proof. revert b. induction l; intros b; simpl; follows_auto. Qed.
Lemma view_create_port p l : follows same_view (create_ptps_of_port p l).
Proof. induction l; simpl; follows_auto. Qed.
Lemma view_create_tree t a l : follows same_view (create_ptps_of_tree t a l).
Proof. induction l; simpl; follows_auto. Qed.
#[export] Hint Resolve view_run view_set_tree_addresses view_internal_costs view_create_port
  view_create_tree : follows.

Lemma view_br_begin : follows same_view br_state_machines_begin.
Proof. follows_auto. Qed.
Lemma view_tree_begin t : follows same_view (tree_state_machines_begin t).
Proof. follows_auto. Qed.
Lemma view_prt_begin p : follows same_view (prt_state_machines_begin p).
Proof. follows_auto. Qed.
#[export] Hint Resolve view_br_begin view_tree_begin view_prt_begin : follows.

(** *** The events that leave the view alone *)

(** Every request and notification but those that create, delete, enable or disable. *)
Lemma view_events :
  (∀ mac, follows same_view (MSTP_IN_set_bridge_address mac)) ∧
  follows same_view MSTP_IN_one_second ∧
  (∀ p b size, follows same_view (MSTP_IN_rx_bpdu p b size)) ∧
  (∀ cfg, follows same_view (MSTP_IN_set_cist_bridge_config cfg)) ∧
  (∀ t pri, follows same_view (MSTP_IN_set_msti_bridge_config t pri)) ∧
  (∀ p cfg, follows same_view (MSTP_IN_set_cist_port_config p cfg)) ∧
  (∀ k cfg, follows same_view (MSTP_IN_set_msti_port_config k cfg)) ∧
  (∀ p, follows same_view (MSTP_IN_port_mcheck p)) ∧
  (∀ s vid fid, follows same_view (MSTP_IN_set_vid2fid s vid fid)) ∧
  (∀ s l, follows same_view (MSTP_IN_set_all_vids2fids s l)) ∧
  (∀ s fid m, follows same_view (MSTP_IN_set_fid2mstid s fid m)) ∧
  (∀ s l, follows same_view (MSTP_IN_set_all_fids2mstids s l)) ∧
  (∀ m, follows same_view (MSTP_IN_create_msti m)) ∧
  (∀ m, follows same_view (MSTP_IN_delete_msti m)) ∧
  (∀ rev n, follows same_view (MSTP_IN_set_mst_config_id rev n)).
Proof. repeat match goal with |- _ ∧ _ => split end; intros; follows_auto. Qed.

(** ** Monitored bridges *)

Definition is_shutdown (e : event) : bool := match e with EvShutdown _ => true | _ => false end.

(** The daemon does not run the protocol on this bridge. *)
Definition monitored (w : world) : Prop :=
  stp_enabled (w_br w) = false ∧ bridgeEnabled (w_br w) = false.

Definition calm (w w' : world) : Prop := monitored w → monitored w' ∧
  ∃ l, w_out w' = w_out w ++ l ∧ Forall (λ e, is_shutdown e = true) l.

#[export] Instance calm_preorder : PreOrder calm.
Proof.
  split; [intros w Hw; split; [done|]; exists []; by rewrite app_nil_r|].
  intros w1 w2 w3 H12 H23 Hw. destruct (H12 Hw) as (Hw2 & l & Hl & Hsl).
  destruct (H23 Hw2) as (Hw3 & l' & Hl' & Hsl'). split; [done|].
  exists (l ++ l'). rewrite Hl', Hl, app_assoc. split; [done|]. by apply Forall_app.
Qed.

Lemma calm_quiet w w' : w_br w' = w_br w → w_out w' = w_out w → calm w w'.
Proof.
  unfold calm, monitored. intros -> -> Hw. split; [done|]. exists []. by rewrite app_nil_r.
Qed.

Lemma calm_upd_br f : (∀ br, (stp_enabled (f br), bridgeEnabled (f br)) = (stp_enabled br, bridgeEnabled br)) →
  follows calm (upd_br f).
Proof.
  intros Hf w a w' [= _ <-] [Hs He]. specialize (Hf (w_br w)). injection Hf as Hfs Hfe.
  split; [split; cbn; congruence|]. exists []. by rewrite app_nil_r.
Qed.
Lemma calm_upd_port q f : follows calm (upd_port q f).
Proof. intros w a w'. unfold upd_port. destruct (_ !! _); [|done]. intros [= _ <-]. by apply calm_quiet. Qed.
Lemma calm_upd_tree t f : follows calm (upd_tree t f).
Proof. intros w a w'. unfold upd_tree. destruct (_ !! _); [|done]. intros [= _ <-]. by apply calm_quiet. Qed.
Lemma calm_upd_ptp k f : follows calm (upd_ptp k f).
Proof. intros w a w'. unfold upd_ptp. destruct (_ !! _); [|done]. intros [= _ <-]. by apply calm_quiet. Qed.
Lemma calm_shutdown n : follows calm (emit (EvShutdown n)).
Proof. intros w a w' [= _ <-] Hw. split; [done|]. eexists. split; [done|]. by constructor. Qed.
Lemma calm_calloc_ok : follows calm calloc_ok.
Proof. intros w a w'. unfold calloc_ok. destruct (w_calloc w); intros [= _ <-]; by apply calm_quiet. Qed.
Lemma calm_new_tree t x : follows calm (new_tree t x).
Proof. intros w a w' [= _ <-]. by apply calm_quiet. Qed.
Lemma calm_free_tree t : follows calm (free_tree t).
Proof. intros w a w' [= _ <-]. by apply calm_quiet. Qed.
Lemma calm_new_ptp k x : follows calm (new_ptp k x).
Proof. intros w a w' [= _ <-]. by apply calm_quiet. Qed.
Lemma calm_free_ptp k : follows calm (free_ptp k).
Proof. intros w a w' [= _ <-]. by apply calm_quiet. Qed.
Lemma calm_alloc_port p x : follows calm (alloc_port p x).
Proof. intros w a w' [= _ <-]. by apply calm_quiet. Qed.
Lemma calm_free_port p : follows calm (free_port p).
Proof. intros w a w' [= _ <-]. by apply calm_quiet. Qed.
#[export] Hint Resolve calm_upd_port calm_upd_tree calm_upd_ptp calm_shutdown calm_calloc_ok
  calm_new_tree calm_free_tree calm_new_ptp calm_free_ptp calm_alloc_port calm_free_port : follows.
#[export] Hint Extern 1 (follows calm (upd_br _)) =>
  apply calm_upd_br; intros; reflexivity : follows.

(** The guard of everything that runs the machines. *)
Lemma calm_when_enabled (m : bridge_t → M unit) :
  follows calm (br ← get_br; if negb (bridgeEnabled br) then skip else m br).
Proof.
  intros w a w' H [Hs He]. unfold mbind, M_bind, get_br in H. rewrite He in H. cbn in H.
  injection H as _ <-. split; [done|]. exists []. by rewrite app_nil_r.
Qed.

Lemma calm_run : follows calm br_state_machines_run.
Proof. apply (calm_when_enabled (λ _, _)). Qed.
Lemma calm_br_begin : follows calm br_state_machines_begin.
Proof. apply (calm_when_enabled (λ _, _)). Qed.
Lemma calm_tree_begin t : follows calm (tree_state_machines_begin t).
Proof. apply (calm_when_enabled (λ _, _)). Qed.
Lemma calm_prt_begin p : follows calm (prt_state_machines_begin p).
Proof. apply (calm_when_enabled (λ _, _)). Qed.
#[export] Hint Resolve calm_run calm_br_begin calm_tree_begin calm_prt_begin : follows.

Lemma calm_set_tree_addresses l mac c : follows calm (set_tree_addresses l mac c).
Proof. revert c. induction l; intros c; simpl; follows_auto. Qed.
Lemma calm_internal_costs l c b : follows calm (set_internal_costs l c b).
Proof. revert b. induction l; intros b; simpl; follows_auto. Qed.
Lemma calm_create_port p l : follows calm (create_ptps_of_port p l).
Proof. induction l; simpl; follows_auto. Qed.
Lemma calm_create_tree t a l : follows calm (create_ptps_of_tree t a l).
Proof. induction l; simpl; follows_auto. Qed.
#[export] Hint Resolve calm_set_tree_addresses calm_internal_costs calm_create_port
  calm_create_tree : follows.

Lemma calm_one_second : follows calm MSTP_IN_one_second.
Proof.
  unfold MSTP_IN_one_second. apply follows_bind; [apply _|auto with follows|intros _].
  apply (calm_when_enabled (λ _, _)).
Qed.
#[export] Hint Resolve calm_one_second : follows.

(** Every event but [MSTP_IN_set_bridge_enable]. *)
Lemma calm_events :
  (∀ mac, follows calm (MSTP_IN_set_bridge_address mac)) ∧
  (∀ p up s d, follows calm (MSTP_IN_set_port_enable p up s d)) ∧
  (∀ p n, follows calm (MSTP_IN_port_create_and_add_tail p n)) ∧
  (∀ p, follows calm (MSTP_IN_delete_port p)) ∧
  (∀ p b size, follows calm (MSTP_IN_rx_bpdu p b size)) ∧
  (∀ cfg, follows calm (MSTP_IN_set_cist_bridge_config cfg)) ∧
  (∀ t pri, follows calm (MSTP_IN_set_msti_bridge_config t pri)) ∧
  (∀ p cfg, follows calm (MSTP_IN_set_cist_port_config p cfg)) ∧
  (∀ k cfg, follows calm (MSTP_IN_set_msti_port_config k cfg)) ∧
  (∀ p, follows calm (MSTP_IN_port_mcheck p)) ∧
  (∀ s vid fid, follows calm (MSTP_IN_set_vid2fid s vid fid)) ∧
  (∀ s l, follows calm (MSTP_IN_set_all_vids2fids s l)) ∧
  (∀ s fid m, follows calm (MSTP_IN_set_fid2mstid s fid m)) ∧
  (∀ s l, follows calm (MSTP_IN_set_all_fids2mstids s l)) ∧
  (∀ m, follows calm (MSTP_IN_create_msti m)) ∧
  (∀ m, follows calm (MSTP_IN_delete_msti m)) ∧
  (∀ rev n, follows calm (MSTP_IN_set_mst_config_id rev n)).
Proof. repeat match goal with |- _ ∧ _ => split end; intros; follows_auto. Qed.

(** ** The events that change the view *)

Lemma same_view_br w w' : same_view w w' → br_view (w_br w') = br_view (w_br w).
Proof. by intros []. Qed.
Lemma same_view_port w w' p x : same_view w w' → w_ports w !! p = Some x →
  ∃ x', w_ports w' !! p = Some x' ∧ port_view x' = port_view x.
Proof.
  intros [_ H] Hx. specialize (H p). rewrite Hx in H.
  destruct (w_ports w' !! p) as [x'|]; [|done]. injection H as H H'. exists x'.
  split; [done|]. unfold port_view. congruence.
Qed.

Lemma set_bridge_enable_view e w w' : MSTP_IN_set_bridge_enable e w = Done tt w' →
  br_view (w_br w') = (br_ports (w_br w), br_sysdeps (w_br w), stp_enabled (w_br w), e) ∧
  ∀ p, port_view <$> w_ports w' !! p = port_view <$> w_ports w !! p.
Proof.
  unfold MSTP_IN_set_bridge_enable.
  intros (br & w1 & [= <- <-] & H)%bind_Done_inv.
  destruct (Bool.eqb (bridgeEnabled (w_br w)) e) eqn:He.
  { injection H as <-. apply eqb_prop in He as <-. by split. }
  apply bind_Done_inv in H as ([] & w1 & [= <-] & H).
  match type of H with ?m _ = _ => assert (Hf : follows same_view m) by follows_auto end.
  apply Hf in H as [H1 H2]. split; [exact H1|exact H2].
Qed.

(** What [f] does to the members of one port. *)
Definition port_becomes (p : port_id) (e : bool) (w w' : world) : Prop :=
  br_view (w_br w') = br_view (w_br w) ∧
  (∀ q, q ≠ p → port_view <$> w_ports w' !! q = port_view <$> w_ports w !! q) ∧
  (∀ x, w_ports w !! p = Some x →
     ∃ x', w_ports w' !! p = Some x' ∧ port_view x' = (prt_sysdeps x, e)).

Lemma port_becomes_trans p e w w1 w2 :
  port_becomes p e w w1 → same_view w1 w2 → port_becomes p e w w2.
Proof.
  intros (H1 & H2 & H3) Hs. split; [rewrite (same_view_br _ _ Hs); done|]. split.
  - intros q Hq. destruct Hs as [_ Hs]. by rewrite Hs, H2.
  - intros x (x' & Hx' & Hv)%H3. destruct (same_view_port _ _ _ _ Hs Hx') as (x'' & ? & Heq).
    exists x''. split; [done|]. by rewrite Heq.
Qed.

Lemma port_becomes_before p e w w1 w2 :
  same_view w w1 → port_becomes p e w1 w2 → port_becomes p e w w2.
Proof.
  intros Hs (H1 & H2 & H3). split; [by rewrite H1, (same_view_br _ _ Hs)|]. split.
  - intros q Hq. rewrite H2 by done. by destruct Hs as [_ ->].
  - intros x Hx. destruct (same_view_port _ _ _ _ Hs Hx) as (x1 & Hx1 & Hv).
    destruct (H3 _ Hx1) as (x' & ? & Hv'). exists x'. split; [done|].
    injection Hv as Hv _. by rewrite Hv', Hv.
Qed.

Lemma port_becomes_upd p e f w w' :
  (∀ x, port_view (f x) = (prt_sysdeps x, e)) → upd_port p f w = Done tt w' → port_becomes p e w w'.
Proof.
  intros Hf (x & Hx & ->)%upd_port_Done. split; [done|]. split; cbn.
  - intros q Hq. by rewrite lookup_insert_ne.
  - intros y Hy. rewrite lookup_insert_eq. simplify_eq. by eexists.
Qed.

Lemma port_becomes_same p e w w' x :
  w_ports w !! p = Some x → portEnabled x = e → same_view w w' → port_becomes p e w w'.
Proof.
  intros Hx He Hs. split; [by apply same_view_br|]. split.
  - intros q _. apply Hs.
  - intros y Hy. simplify_eq. exact (same_view_port _ _ _ _ Hs Hx).
Qed.

Lemma port_goes_up_view p s d w b w' :
  port_goes_up p s d w = Done b w' → port_becomes p true w w'.
Proof.
  unfold port_goes_up. intros (prt & w1 & (Hp & ->)%get_port_Done & H)%bind_Done_inv.
  cbv zeta in H.
  apply bind_Done_inv in H as ([] & w1 & H1 & H).
  apply view_upd_port in H1; [|done].
  apply bind_Done_inv in H as (l & w2 & H2 & H).
  assert (Hl : follows same_view (ptps_of_port p)) by follows_auto. apply Hl in H2.
  apply bind_Done_inv in H as (c & w3 & H3%view_internal_costs & H).
  apply bind_Done_inv in H as ([] & w4 & H4 & H). apply view_upd_port in H4; [|done].
  assert (Hs : same_view w w4) by (etrans; [exact H1|]; etrans; [exact H2|]; by etrans).
  destruct (portEnabled prt) eqn:He.
  { injection H as _ <-. by eapply port_becomes_same. }
  eapply port_becomes_before; [exact Hs|].
  apply bind_Done_inv in H as ([] & w5 & H5 & H).
  eapply port_becomes_trans; [by eapply port_becomes_upd; [|exact H5]|].
  match type of H with ?m _ = _ => assert (Hf : follows same_view m) by follows_auto end.
  by apply Hf in H.
Qed.

Lemma set_port_enable_view p e s d w w' :
  MSTP_IN_set_port_enable p e s d w = Done tt w' → port_becomes p e w w'.
Proof.
  unfold MSTP_IN_set_port_enable. intros (c & w1 & H1 & H)%bind_Done_inv.
  assert (Hf : follows same_view (when c br_state_machines_run)) by follows_auto.
  apply Hf in H as Hs.
  eapply port_becomes_trans; [|exact Hs]. destruct e; [by eapply port_goes_up_view|].
  apply bind_Done_inv in H1 as (prt & w2 & (_ & ->)%get_port_Done & H1).
  apply bind_Done_inv in H1 as ([] & w3 & H2 & [= _ <-]).
  by eapply port_becomes_upd; [|exact H2].
Qed.

(** Everything but what is known of the port [p]. *)
Definition view_but (p : port_id) (w w' : world) : Prop :=
  br_view (w_br w') = br_view (w_br w) ∧
  ∀ q, q ≠ p → port_view <$> w_ports w' !! q = port_view <$> w_ports w !! q.

#[export] Instance view_but_preorder p : PreOrder (view_but p).
Proof.
  split; [by split|]. intros w1 w2 w3 [H1 H1'] [H2 H2']. split; [congruence|].
  intros q Hq. by rewrite H2', H1'.
Qed.

Lemma same_view_but p w w' : same_view w w' → view_but p w w'.
Proof. intros [H1 H2]. by split. Qed.
Lemma follows_but p {A} (m : M A) : follows same_view m → follows (view_but p) m.
Proof. intros Hm w a w' H. eapply same_view_but, Hm, H. Qed.
Lemma but_upd_port p f : follows (view_but p) (upd_port p f).
Proof.
  intros w [] w' (x & Hx & ->)%upd_port_Done. split; [done|]. intros q Hq. cbn.
  by rewrite lookup_insert_ne.
Qed.

Lemma delete_port_view p w w' : MSTP_IN_delete_port p w = Done tt w' →
  br_view (w_br w') = (list_del p (br_ports (w_br w)), br_sysdeps (w_br w),
                       stp_enabled (w_br w), bridgeEnabled (w_br w)) ∧
  ∀ q, q ≠ p → port_view <$> w_ports w' !! q = port_view <$> w_ports w !! q.
Proof.
  unfold MSTP_IN_delete_port. intros H.
  apply bind_Done_inv in H as ([] & w1 & H1%but_upd_port & H).
  apply bind_Done_inv in H as (prt & w2 & (_ & ->)%get_port_Done & H).
  apply bind_Done_inv in H as ([] & w3 & H3 & H).
  assert (Hw : follows (view_but p) (when (portEnabled prt)
    (upd_port p (λ x, x <| portEnabled := false |>) ;; br_state_machines_run))).
  { destruct (portEnabled prt); cbn [when]; [|apply follows_but; follows_auto].
    apply follows_bind; [apply _|apply but_upd_port|intros _]. apply follows_but, view_run. }
  apply Hw in H3. apply bind_Done_inv in H as ([] & w4 & H4 & H).
  assert (Hf : follows same_view (FOREACH_PTP_IN_PORT p unlink_ptp)) by follows_auto.
  apply Hf, (same_view_but p) in H4.
  apply bind_Done_inv in H as ([] & w5 & [= <-] & H6%view_run).
  assert (Hv : view_but p w w4) by (etrans; [exact H1|]; etrans; [exact H3|exact H4]).
  destruct Hv as [Hbr Hp], H6 as [Hbr6 Hp6]. injection Hbr as Hb1 Hb2 Hb3 Hb4. split.
  - rewrite Hbr6. unfold br_view. cbn. by rewrite Hb1, Hb2, Hb3, Hb4.
  - intros q Hq. by rewrite Hp6, <- Hp.
Qed.

Lemma port_create_view p n w ok w' x :
  w_ports w !! p = Some x → MSTP_IN_port_create_and_add_tail p n w = Done ok w' →
  br_view (w_br w') = ((if ok then br_ports (w_br w) ++ [p] else br_ports (w_br w)),
                       br_sysdeps (w_br w), stp_enabled (w_br w), bridgeEnabled (w_br w)) ∧
  port_becomes p false w (w' <| w_br := w_br w |>).
Proof.
  intros Hx. unfold MSTP_IN_port_create_and_add_tail. intros H.
  apply bind_Done_inv in H as ([] & w1 & H1 & H).
  eapply (port_becomes_upd p false) in H1; [|by intros []].
  apply bind_Done_inv in H as (l & w2 & H2 & H).
  assert (Hl : follows same_view trees_of_bridge) by follows_auto. apply Hl in H2.
  apply bind_Done_inv in H as (b & w3 & H3%view_create_port & H).
  assert (H13 : port_becomes p false w w3)
    by (eapply port_becomes_trans; [exact H1|]; by etrans).
  destruct H13 as (Hbr & Hq & Hself). injection Hbr as Hb1 Hb2 Hb3 Hb4.
  destruct b; cbn [negb] in H; cycle 1.
  - apply bind_Done_inv in H as ([] & w4 & H4 & [= <- <-]).
    assert (Hf : follows same_view (FOREACH_PTP_IN_PORT p unlink_ptp)) by follows_auto.
    apply Hf in H4. split.
    + rewrite (same_view_br _ _ H4). unfold br_view. by rewrite Hb1, Hb2, Hb3, Hb4.
    + split; [done|]. destruct H4 as [_ H4]. split; cbn.
      * intros q Hne. by rewrite H4, Hq.
      * intros y (y' & Hy' & Hv)%Hself. specialize (H4 p). rewrite Hy' in H4.
        destruct (w_ports w4 !! p) as [y''|]; [|done]. injection H4 as H4a H4b. exists y''.
        split; [done|]. unfold port_view in *. congruence.
  - apply bind_Done_inv in H as ([] & w4 & [= <-] & H).
    apply bind_Done_inv in H as ([] & w5 & H5%view_prt_begin & [= <- <-]). split.
    + rewrite (same_view_br _ _ H5). unfold br_view. cbn. by rewrite Hb1, Hb2, Hb3, Hb4.
    + destruct H5 as [_ H5]. cbn in H5. split; [done|]. split; cbn.
      * intros q Hne. by rewrite H5, Hq.
      * intros y (y' & Hy' & Hv)%Hself. specialize (H5 p). rewrite Hy' in H5.
        destruct (w_ports w5 !! p) as [y''|]; [|done]. injection H5 as H5a H5b. exists y''.
        split; [done|]. unfold port_view in *. congruence.
Qed.
