(* ===== verification/Daemon.v ===== *)
(** The daemon as a whole: whatever netlink, the packet socket, the timer and the
    control socket deliver, in any order, the bridges stay well formed and coherent
    with the interfaces of the kernel, and a bridge that is only monitored is left
    alone. *)
From S2P Require Import Prelude Types Monad Clib Vectors Outputs Wire Procs Bridge Mgmt Kernel Track Control.
From S2P Require Import Wf Safety System Frame Follows.

(** ** Weakest preconditions for the daemon *)

Definition dwp {A} (m : D A) (Q : A → daemon → Prop) (d : daemon) : Prop :=
  match m d with DDone a d' => Q a d' | DFault => False | DOutOfFuel => True end.

Lemma dwp_ret {A} (a : A) (Q : A → daemon → Prop) d : Q a d → dwp (mret a) Q d.
Proof. done. Qed.
Lemma dwp_bind {A B} (m : D A) (f : A → D B) Q d :
  dwp m (λ a d', dwp (f a) Q d') d → dwp (m ≫= f) Q d.
Proof. unfold dwp, mbind, D_bind. by destruct (m d). Qed.
Lemma dwp_mono {A} (m : D A) (Q Q' : A → daemon → Prop) d :
  dwp m Q d → (∀ a d', Q a d' → Q' a d') → dwp m Q' d.
Proof. unfold dwp. destruct (m d); auto. Qed.
Lemma dwp_syscall {A} (f : nat → A) (Q : A → daemon → Prop) d :
  (∀ a, Q a (d <| d_calls ::= S |>)) → dwp (syscall f) Q d.
Proof. intros H. apply H. Qed.
Lemma dwp_bridges Q d : Q (d_bridges d) d → dwp bridges Q d.
Proof. done. Qed.
Lemma dwp_dcalloc (Q : bool → daemon → Prop) d :
  (∀ ok l, Q ok (d <| d_calloc := l |>)) → dwp dcalloc Q d.
Proof.
  intros H. unfold dwp, dcalloc. destruct (d_calloc d) eqn:Hl; [|apply H].
  specialize (H true (d_calloc d)). rewrite Hl in H. by destruct d; cbn in *; subst.
Qed.
Lemma dwp_read_br b w (Q : bridge_t → daemon → Prop) d :
  d_heap d !! b = Some w → Q (w_br w) d → dwp (read_br b) Q d.
Proof. unfold dwp, read_br. by intros ->. Qed.
Lemma dwp_read_port b p w x (Q : port_t → daemon → Prop) d :
  d_heap d !! b = Some w → w_ports w !! p = Some x → Q x d → dwp (read_port b p) Q d.
Proof. unfold dwp, read_port. by intros -> ->. Qed.
Lemma dwp_Done {A} (m : D A) Q d a d' : dwp m Q d → m d = DDone a d' → Q a d'.
Proof. unfold dwp. intros H Hd. by rewrite Hd in H. Qed.

(** ** A call that works on one bridge

    [At C b d0 w0 d w]: since [d0], where bridge [b] was [w0], only [b] has changed, and
    is now [w]; and if [C], a bridge that was only monitored still is, and all it did is
    shut guarded ports down. *)
Record At (C : Prop) (b : br_ptr) (d0 : daemon) (w0 : world) (d : daemon) (w : world) : Prop := {
  at_heap : d_heap d = <[b := w]> (d_heap d0);
  at_bridges : d_bridges d = d_bridges d0;
  at_out : ∃ evs, d_out d = d_out d0 ++ map (pair b) evs ∧
    (C → monitored w0 → monitored w ∧ Forall (λ e, is_shutdown e = true) evs)
}.

Lemma At_refl C b d w : d_heap d !! b = Some w → At C b d w d w.
Proof.
  intros Hb. split; [by rewrite insert_id|done|]. exists []. by rewrite app_nil_r.
Qed.

Lemma At_lookup C b d0 w0 d w : At C b d0 w0 d w → d_heap d !! b = Some w.
Proof. intros [-> _ _]. apply lookup_insert_eq. Qed.

Lemma At_calls C b d0 w0 d w : At C b d0 w0 d w → At C b d0 w0 (d <| d_calls ::= S |>) w.
Proof. by intros [H1 H2 H3]. Qed.
Lemma At_calloc C b d0 w0 d w l : At C b d0 w0 d w → At C b d0 w0 (d <| d_calloc := l |>) w.
Proof. by intros [H1 H2 H3]. Qed.

Lemma At_give_back (C : Prop) b d0 w0 d w w1 :
  At C b d0 w0 d w → (C → calm (lend d w) w1) → At C b d0 w0 (give_back b w1 d) w1.
Proof.
  intros [H1 H2 (evs & Hout & Hm)] Hc. split; cbn.
  - by rewrite H1, insert_insert_eq.
  - done.
  - exists (evs ++ w_out w1). rewrite map_app, app_assoc, Hout. split; [done|].
    intros HC Hw0. destruct (Hm HC Hw0) as [Hmon Hevs].
    destruct (Hc HC Hmon) as (Hmon1 & l & Hl & Hs). split; [done|]. apply Forall_app.
    split; [done|]. by rewrite Hl.
Qed.

(** The bridge, whatever belongs to the daemon set aside. *)
Lemma wf_world_lend d w : wf_world w → wf_world (lend d w).
Proof. intros [[Hb Hi] Ht]. split; [split; [done|]|done]. split; apply Hi. Qed.

Lemma dwp_in_bridge_at (C : Prop) b d0 w0 d w {A} (m : M A) (Q : A → daemon → Prop) :
  At C b d0 w0 d w → wf_world w → keeps m (lend d w) →
  (∀ a w1, m (lend d w) = Done a w1 → C → calm (lend d w) w1) →
  (∀ a w1 d1, m (lend d w) = Done a w1 → wf_world w1 → At C b d0 w0 d1 w1 → Q a d1) →
  dwp (in_bridge b m) Q d.
Proof.
  intros Ha Hw Hm Hc HQ. unfold dwp, in_bridge. rewrite (At_lookup _ _ _ _ _ _ Ha).
  unfold keeps, wp in Hm. destruct (m (lend d w)) as [a w1| |] eqn:He; [|done|done].
  eapply HQ; [done|done|]. eapply At_give_back; [exact Ha|]. by eapply Hc.
Qed.

Lemma dwp_in_bridge (C : Prop) b d0 w0 d w {A} (m : M A) (Q : A → daemon → Prop) :
  At C b d0 w0 d w → wf_world w → keeps m (lend d w) → (C → follows calm m) →
  (∀ a w1 d1, m (lend d w) = Done a w1 → wf_world w1 → At C b d0 w0 d1 w1 → Q a d1) →
  dwp (in_bridge b m) Q d.
Proof.
  intros Ha Hw Hm Hc HQ. eapply dwp_in_bridge_at; [done..| |done].
  intros a w1 H HC. by eapply Hc.
Qed.

(** ** What the daemon follows *)

Definition track_br (br : bridge_t) :=
  (br_ports br, br_if_index (br_sysdeps br), br_up (br_sysdeps br), stp_enabled br, bridgeEnabled br).
Definition track_port (x : port_t) := (if_index (prt_sysdeps x), up (prt_sysdeps x), portEnabled x).

Definition same_track (w w' : world) : Prop :=
  track_br (w_br w') = track_br (w_br w) ∧
  ∀ p, track_port <$> w_ports w' !! p = track_port <$> w_ports w !! p.

#[export] Instance same_track_preorder : PreOrder same_track.
Proof.
  split; [by split|]. intros w1 w2 w3 [H1 H1'] [H2 H2']. split; [congruence|].
  intros p. by rewrite H2', H1'.
Qed.

Lemma fmap_coarser {A B C} (f : A → B) (g : A → C) (x y : option A) :
  (∀ a b, f a = f b → g a = g b) → f <$> x = f <$> y → g <$> x = g <$> y.
Proof.
  intros H. destruct x, y; cbn; [|done..]. intros [= Heq]. f_equal. by apply H.
Qed.

Lemma view_track w w' : same_view w w' → same_track w w'.
Proof.
  intros [H1 H2]. injection H1 as Ha Hb Hc Hd. split.
  - unfold track_br. by rewrite Ha, Hb, Hc, Hd.
  - intros p. eapply fmap_coarser; [|apply H2]. intros x y [= Hx Hy]. unfold track_port.
    by rewrite Hx, Hy.
Qed.

(** The protocol runs on a bridge and its ports exactly when it is asked for and the
    interface is up. *)
Definition coherent (w : world) : Prop :=
  bridgeEnabled (w_br w) = stp_enabled (w_br w) && br_up (br_sysdeps (w_br w)) ∧
  ∀ p x, p ∈ br_ports (w_br w) → w_ports w !! p = Some x →
    portEnabled x = stp_enabled (w_br w) && up (prt_sysdeps x).

Lemma coherent_track w w' : same_track w w' → coherent w → coherent w'.
Proof.
  intros [H1 H2] [Hb Hp]. injection H1 as Ha _ Hu Hs He. split; [congruence|].
  rewrite Ha, Hs. intros p x Hin Hx. specialize (H2 p). rewrite Hx in H2.
  destruct (w_ports w !! p) as [y|] eqn:Hy; [|done]. injection H2 as _ Hxu Hxe.
  rewrite Hxe, Hxu. by eapply Hp.
Qed.

(** The kernel's number of a bridge and of the interface of a port. *)
Definition br_idx (w : world) : Z := br_if_index (br_sysdeps (w_br w)).
Definition has_if (w : world) (p : port_id) (idx : Z) : Prop :=
  p ∈ br_ports (w_br w) ∧ ∃ x, w_ports w !! p = Some x ∧ if_index (prt_sysdeps x) = idx.

Definition sub_index (w w' : world) : Prop :=
  br_idx w' = br_idx w ∧ ∀ p idx, has_if w' p idx → has_if w p idx.

#[export] Instance sub_index_preorder : PreOrder sub_index.
Proof. split; [by split|]. intros w1 w2 w3 [H1 H1'] [H2 H2']. split; [congruence|auto]. Qed.

Lemma track_index w w' : same_track w w' → sub_index w w'.
Proof.
  intros [H1 H2]. injection H1 as Ha Hi _ _ _. split; [done|].
  intros p idx [Hin (x & Hx & Hxi)]. split; [by rewrite <- Ha|].
  specialize (H2 p). rewrite Hx in H2. destruct (w_ports w !! p) as [y|]; [|done].
  injection H2 as Hy _ _. exists y. split; [done|]. congruence.
Qed.

(** ** Assignments to the system dependent members *)

Lemma keeps_upd_sysdeps f w : wf_world w → keeps (upd_br (λ x, x <| br_sysdeps ::= f |>)) w.
Proof.
  intros [Hw Ht]. apply wp_upd_br. split; [by apply wf_upd_br|].
  by eapply wf_tables_same; [exact Ht|..].
Qed.

Lemma keeps_upd_stp v w : wf_world w → keeps (upd_br (λ x, x <| stp_enabled := v |>)) w.
Proof.
  intros [Hw Ht]. apply wp_upd_br. split; [by apply wf_upd_br|].
  by eapply wf_tables_same; [exact Ht|..].
Qed.

Lemma keeps_upd_if p f w :
  p ∈ br_ports (w_br w) → wf_world w → keeps (upd_port p (λ x, x <| prt_sysdeps ::= f |>)) w.
Proof.
  intros Hp Hw. apply keeps_safe; [done|]. intros _. apply safe_upd_port; [done|].
  by intros x [? ? ?].
Qed.

Section netif.
Context (K : kernel).

Lemma dwp_check_mac (n : string) addr (Q : option (list Z) → daemon → Prop) d :
  (∀ r, Q r (d <| d_calls ::= S |>)) → dwp (check_mac_address K n addr) Q d.
Proof.
  intros H. unfold check_mac_address, get_hwaddr. apply dwp_bind, dwp_bind, dwp_syscall.
  intros r. apply dwp_ret, dwp_ret, H.
Qed.

(** [m] works on bridge [b] only, keeps it well formed and leads to a world related
    by [V] to the one before. *)
Definition works (C : Prop) b (P : world → Prop) {A} (V : A → world → world → Prop) (m : D A) : Prop :=
  ∀ d0 w0 d w, At C b d0 w0 d w → wf_world w → P w →
    dwp m (λ a d', ∃ w', At C b d0 w0 d' w' ∧ wf_world w' ∧ V a w w') d.

Lemma update_br_address_works b : works True b (λ _, True) (λ _, same_track) (update_br_address K b).
Proof.
  intros d0 w0 d w Ha Hw _. unfold update_br_address. apply dwp_bind.
  eapply dwp_read_br; [by eapply At_lookup|]. apply dwp_bind, dwp_check_mac. intros r.
  apply At_calls in Ha. destruct r as [mac|]; [|by exists w].
  apply dwp_bind. eapply (dwp_in_bridge True); [exact Ha|done|by apply keeps_upd_sysdeps,
    wf_world_lend|intros _; auto with follows|].
  intros [] w1 d1 [= <-] Hw1 Ha1.
  eapply (dwp_in_bridge True); [exact Ha1|done| |intros _; apply calm_events|].
  { apply keeps_safe; [by apply wf_world_lend|]. intros. by apply safe_MSTP_IN_set_bridge_address. }
  intros [] w2 d2 Hd Hw2 Ha2. exists w2. split; [done|]. split; [done|].
  apply (proj1 view_events), view_track in Hd. etrans; [|exact Hd]. by split.
Qed.

(** Where the protocol runs, a change of [up] is passed on. *)
Lemma enable_track e w w' :
  MSTP_IN_set_bridge_enable e w = Done tt w' →
  track_br (w_br w') = (br_ports (w_br w), br_idx w, br_up (br_sysdeps (w_br w)),
                        stp_enabled (w_br w), e) ∧
  ∀ p, track_port <$> w_ports w' !! p = track_port <$> w_ports w !! p.
Proof.
  intros [H1 H2]%set_bridge_enable_view. injection H1 as Ha Hb Hc Hd. split.
  - unfold track_br. by rewrite Ha, Hb, Hc, Hd.
  - intros p. eapply fmap_coarser; [|apply H2]. intros x y [= Hx Hy]. unfold track_port.
    by rewrite Hx, Hy.
Qed.

Definition coherent_step (w w' : world) : Prop :=
  coherent w' ∧ sub_index w w' ∧ stp_enabled (w_br w') = stp_enabled (w_br w) ∧
  br_ports (w_br w') = br_ports (w_br w).

Lemma coherent_br_up u w w' :
  coherent w →
  track_br (w_br w') = (br_ports (w_br w), br_idx w, u, stp_enabled (w_br w),
                        stp_enabled (w_br w) && u) →
  (∀ p, track_port <$> w_ports w' !! p = track_port <$> w_ports w !! p) → coherent_step w w'.
Proof.
  intros [Hb Hp] Hbr Hpt. injection Hbr as Ha Hi Hu Hs He.
  split; [split|split; [split|by split]].
  - by rewrite He, Hs, Hu.
  - rewrite Ha, Hs. intros p x Hin Hx. specialize (Hpt p). rewrite Hx in Hpt.
    destruct (w_ports w !! p) as [y|] eqn:Hy; [|done]. injection Hpt as _ Hxu Hxe.
    rewrite Hxe, Hxu. by eapply Hp.
  - exact Hi.
  - intros p idx [Hin (x & Hx & Hxi)]. rewrite Ha in Hin. split; [done|]. specialize (Hpt p).
    rewrite Hx in Hpt. destruct (w_ports w !! p) as [y|]; [|done].
    injection Hpt as Hy _ _. exists y. split; [done|]. congruence.
Qed.

Lemma set_br_up_works b u : works True b coherent (λ _, coherent_step) (set_br_up K b u).
Proof.
  intros d0 w0 d w Ha Hw Hco. unfold set_br_up. apply dwp_bind.
  eapply dwp_read_br; [by eapply At_lookup|]. cbv zeta. apply dwp_bind.
  set (changed := negb (Bool.eqb u (br_up (br_sysdeps (w_br w))))).
  set (f := λ s : sysdep_br_data_t, s <| br_up := u |>).
  assert (H1 : dwp (dwhen changed (upd_br_sysdeps b f)) (λ _ d1, ∃ w1, At True b d0 w0 d1 w1 ∧
    wf_world w1 ∧ br_view (w_br w1) = (br_ports (w_br w), f (br_sysdeps (w_br w)),
      stp_enabled (w_br w), bridgeEnabled (w_br w)) ∧ w_ports w1 = w_ports w) d).
  { destruct changed eqn:Hch; cbn [dwhen].
    - eapply (dwp_in_bridge True); [exact Ha|done|by apply keeps_upd_sysdeps, wf_world_lend|
        intros _; auto with follows|].
      intros [] w1 d1 [= <-] Hw1 Ha1. eexists. split; [exact Ha1|]. split; [done|]. by split.
    - exists w. split; [done|]. split; [done|]. split; [|done].
      unfold changed in Hch. apply negb_false_iff, eqb_prop in Hch. unfold br_view, f.
      rewrite Hch. by destruct w as [[? ? ? ? ? ? ? ? ? ? ? ? ? ? ? ? []] ? ? ? ? ? ?]. }
  eapply dwp_mono; [exact H1|]. intros _ d1 (w1 & Ha1 & Hw1 & Hv1 & Hp1).
  injection Hv1 as Hports1 Hsys1 Hstp1 Hen1. apply dwp_bind.
  eapply dwp_mono; [by eapply update_br_address_works|].
  intros _ d2 (w2 & Ha2 & Hw2 & [Hbr2 Hp2]). apply dwp_bind.
  eapply dwp_read_br; [by eapply At_lookup|]. injection Hbr2 as Hports2 Hidx2 Hup2 Hstp2 Hen2.
  pose proof (proj1 Hco) as Hb.
  assert (Hpt : ∀ p, track_port <$> w_ports w2 !! p = track_port <$> w_ports w !! p)
    by (intros p; by rewrite Hp2, Hp1).
  assert (Hfinal : ∀ w3, track_br (w_br w3) = (br_ports (w_br w), br_idx w, u, stp_enabled (w_br w),
      stp_enabled (w_br w) && u) → (∀ p, track_port <$> w_ports w3 !! p = track_port <$> w_ports w2 !! p) →
      coherent_step w w3).
  { intros w3 Hbr3 Hp3. apply (coherent_br_up u); [done|done|]. intros p. by rewrite Hp3. }
  rewrite Hstp2, Hup2, Hsys1. cbn [f]. rewrite Hstp1.
  destruct (changed && stp_enabled (w_br w)) eqn:Hact; cbn [dwhen].
  - eapply dwp_in_bridge_at; [exact Ha2|done|by apply keeps_set_bridge_enable, wf_world_lend| |].
    { intros _ w3 _ _ [Hs _]. apply andb_true_iff in Hact as [_ Hact]. cbn in Hs. congruence. }
    intros [] w3 d3 Hd3 Hw3 Ha3. exists w3. split; [done|]. split; [done|].
    apply enable_track in Hd3 as [Hbr3 Hp3]. apply Hfinal; [|exact Hp3].
    rewrite Hbr3. apply andb_true_iff in Hact as [_ Hact]. cbn. unfold br_idx in *. cbn.
    rewrite Hports2, Hports1, Hidx2, Hsys1, Hup2, Hsys1, Hstp2, Hstp1, Hact. done.
  - exists w2. split; [done|]. split; [done|]. apply Hfinal; [|done]. unfold track_br, br_idx in *.
    rewrite Hports2, Hports1, Hidx2, Hsys1, Hup2, Hsys1, Hstp2, Hstp1, Hen2, Hen1, Hb. cbn.
    f_equal. destruct (stp_enabled (w_br w)); [|done]. rewrite andb_true_r in Hact.
    unfold changed in Hact. apply negb_false_iff, eqb_prop in Hact. by rewrite Hact.
Qed.

(** The port [p] of the bridge goes up or down. *)
Definition port_up (p : port_id) (u e : bool) (w w' : world) : Prop :=
  track_br (w_br w') = track_br (w_br w) ∧
  (∀ q, q ≠ p → track_port <$> w_ports w' !! q = track_port <$> w_ports w !! q) ∧
  ∀ x, w_ports w !! p = Some x →
    ∃ x', w_ports w' !! p = Some x' ∧ track_port x' = (if_index (prt_sysdeps x), u, e).

Lemma coherent_port_up p u w w' :
  coherent w → port_up p u (stp_enabled (w_br w) && u) w w' → is_Some (w_ports w !! p) →
  coherent_step w w'.
Proof.
  intros [Hb Hp] (Hbr & Hq & Hself) [y Hy]. destruct (Hself y Hy) as (y' & Hy' & Ht).
  injection Hbr as Ha Hi Hu Hs He. injection Ht as Hti Htu Hte.
  split; [split|split; [split|by split]].
  - congruence.
  - rewrite Ha, Hs. intros q x Hin Hx. destruct (decide (q = p)) as [->|Hne].
    + rewrite Hy' in Hx. injection Hx as <-. by rewrite Hte, Htu.
    + specialize (Hq q Hne). rewrite Hx in Hq. destruct (w_ports w !! q) as [z|] eqn:Hz; [|done].
      injection Hq as _ Hxu Hxe. rewrite Hxe, Hxu. by eapply Hp.
  - exact Hi.
  - intros q idx [Hin (x & Hx & Hxi)]. rewrite Ha in Hin. split; [done|].
    destruct (decide (q = p)) as [->|Hne]; [exists y; split; [done|]; congruence|].
    specialize (Hq q Hne). rewrite Hx in Hq. destruct (w_ports w !! q) as [z|]; [|done].
    injection Hq as Hz _ _. exists z. split; [done|]. congruence.
Qed.

Lemma port_up_after p u e w w1 w' :
  same_track w w1 → port_up p u e w1 w' → port_up p u e w w'.
Proof.
  intros [H1 H2] (H3 & H4 & H5). split; [congruence|]. split.
  - intros q Hq. by rewrite H4, H2.
  - intros x Hx. specialize (H2 p). rewrite Hx in H2.
    destruct (w_ports w1 !! p) as [x1|] eqn:Hx1; [|done]. injection H2 as Hi _ _.
    destruct (H5 x1 eq_refl) as (x' & ? & Ht). exists x'. split; [done|]. by rewrite Ht, Hi.
Qed.

(** An assignment to the system dependent members of a port. *)
Lemma upd_if_works C b p f : works C b (λ w, p ∈ br_ports (w_br w))
  (λ _ w w', w_br w' = w_br w ∧ ∃ x, w_ports w !! p = Some x ∧
     w_ports w' = <[p := x <| prt_sysdeps ::= f |>]> (w_ports w)) (upd_if_sysdeps b p f).
Proof.
  intros d0 w0 d w Ha Hw Hp.
  eapply (dwp_in_bridge C); [exact Ha|done|by apply keeps_upd_if, wf_world_lend|
    intros _; auto with follows|].
  intros [] w1 d1 (x & Hx & ->)%upd_port_Done Hw1 Ha1. eexists. split; [exact Ha1|].
  split; [done|]. split; [done|]. by exists x.
Qed.

Lemma wf_world_port w p : wf_world w → p ∈ br_ports (w_br w) → is_Some (w_ports w !! p).
Proof. intros [[_ Hi] _] Hp. destruct (inv_port _ _ _ Hi p Hp) as (x & Hx & _). by exists x. Qed.

Lemma update_if_address_works b p :
  works True b (λ w, p ∈ br_ports (w_br w)) (λ _, same_track) (update_if_address K b p).
Proof.
  intros d0 w0 d w Ha Hw Hp. destruct (wf_world_port w p Hw Hp) as [x Hx].
  unfold update_if_address. apply dwp_bind. eapply dwp_read_port; [by eapply At_lookup|done|].
  apply dwp_bind, dwp_check_mac. intros r. apply At_calls in Ha.
  destruct r as [mac|]; [|by exists w]. apply dwp_bind.
  eapply dwp_mono; [by eapply upd_if_works|].
  intros _ d1 (w1 & Ha1 & Hw1 & Hbr1 & y & Hy & Hp1). simplify_eq.
  eapply dwp_mono; [by eapply update_br_address_works|].
  intros _ d2 (w2 & Ha2 & Hw2 & Ht). exists w2. split; [done|]. split; [done|].
  etrans; [|exact Ht]. split; [by rewrite Hbr1|]. intros q. rewrite Hp1.
  destruct (decide (q = p)) as [->|]; [|by rewrite lookup_insert_ne].
  by rewrite lookup_insert_eq, Hx.
Qed.

(** The members of the port, and whether one of them changes. *)
Lemma if_members_works b p u x :
  works True b (λ w, p ∈ br_ports (w_br w) ∧ w_ports w !! p = Some x)
    (λ (changed : bool) w w', port_up p u (portEnabled x) w w' ∧
       (changed = false → up (prt_sysdeps x) = u)) (
    if u then
      r ← ethtool_get_speed_duplex K (name (prt_sysdeps x));
      let '(new_speed, new_duplex) := speed_duplex r in
      upd_if_sysdeps b p (λ s, s <| speed := new_speed |> <| duplex := new_duplex |>
                                 <| up := true |>) ;;
      mret ((new_speed ≠? speed (prt_sysdeps x)) || (new_duplex ≠? duplex (prt_sysdeps x))
            || negb (up (prt_sysdeps x)))
    else
      upd_if_sysdeps b p (λ s, s <| up := false |>) ;;
      mret (up (prt_sysdeps x))).
Proof.
  intros d0 w0 d w Ha Hw [Hp Hx].
  assert (Hdone : ∀ f w1, up (f (prt_sysdeps x)) = u → if_index (f (prt_sysdeps x)) = if_index (prt_sysdeps x) →
    (w_br w1 = w_br w ∧ ∃ y, w_ports w !! p = Some y ∧
     w_ports w1 = <[p := y <| prt_sysdeps ::= f |>]> (w_ports w)) → port_up p u (portEnabled x) w w1).
  { intros f w1 Hu Hi (Hbr & y & Hy & Hp1). simplify_eq. split; [by rewrite Hbr|]. rewrite Hp1.
    split; [intros q Hq; by rewrite lookup_insert_ne|]. intros y Hy. simplify_eq.
    rewrite lookup_insert_eq. eexists. split; [done|]. unfold track_port. cbn. by rewrite Hi. }
  destruct u.
  - apply dwp_bind. unfold ethtool_get_speed_duplex. apply dwp_bind, dwp_syscall. intros r.
    apply dwp_ret. destruct (speed_duplex _) as [sp du]. apply At_calls in Ha. apply dwp_bind.
    eapply dwp_mono; [by eapply upd_if_works|]. intros _ d1 (w1 & Ha1 & Hw1 & H1). apply dwp_ret.
    exists w1. split; [done|]. split; [done|]. split; [by eapply Hdone; [..|exact H1]|].
    intros [_ Hc]%orb_false_iff. by apply negb_false_iff in Hc.
  - apply dwp_bind. eapply dwp_mono; [by eapply upd_if_works|].
    intros _ d1 (w1 & Ha1 & Hw1 & H1). apply dwp_ret. exists w1. split; [done|]. split; [done|].
    split; [by eapply Hdone; [..|exact H1]|done].
Qed.

Lemma set_port_enable_track p e s d w w' :
  MSTP_IN_set_port_enable p e s d w = Done tt w' →
  track_br (w_br w') = track_br (w_br w) ∧
  (∀ q, q ≠ p → track_port <$> w_ports w' !! q = track_port <$> w_ports w !! q) ∧
  ∀ x, w_ports w !! p = Some x → ∃ x', w_ports w' !! p = Some x' ∧
    track_port x' = (if_index (prt_sysdeps x), up (prt_sysdeps x), e).
Proof.
  intros (H1 & H2 & H3)%set_port_enable_view. injection H1 as Ha Hb Hc Hd. split; [|split].
  - unfold track_br. by rewrite Ha, Hb, Hc, Hd.
  - intros q Hq. eapply fmap_coarser; [|by apply H2]. intros x y [= Hx Hy]. unfold track_port.
    by rewrite Hx, Hy.
  - intros x (x' & Hx' & Hv)%H3. exists x'. split; [done|]. injection Hv as Hs He.
    unfold track_port. by rewrite Hs, He.
Qed.

Lemma set_if_up_works b p u :
  works True b (λ w, coherent w ∧ p ∈ br_ports (w_br w)) (λ _, coherent_step) (set_if_up K b p u).
Proof.
  intros d0 w0 d w Ha Hw [Hco Hp]. unfold set_if_up. apply dwp_bind.
  eapply dwp_mono; [by eapply update_if_address_works|]. intros _ d1 (w1 & Ha1 & Hw1 & Ht1).
  pose proof (coherent_track _ _ Ht1 Hco) as Hco1.
  assert (Hbr1 : br_ports (w_br w1) = br_ports (w_br w) ∧
    stp_enabled (w_br w1) = stp_enabled (w_br w)) by (by injection (proj1 Ht1)).
  destruct Hbr1 as [Hports1 Hstp1]. rewrite <- Hports1 in Hp.
  destruct (wf_world_port w1 p Hw1 Hp) as [x Hx]. pose proof (proj2 Hco1 p x Hp Hx) as Hex.
  apply dwp_bind. eapply dwp_read_port; [by eapply At_lookup|done|]. cbv zeta. apply dwp_bind.
  eapply dwp_mono; [by eapply if_members_works|].
  intros changed d2 (w2 & Ha2 & Hw2 & Hup2 & Hch). destruct Hup2 as (Hbr2 & Hq2 & Hself2).
  destruct (Hself2 x Hx) as (x2 & Hx2 & Ht2).
  apply dwp_bind. eapply dwp_read_br; [by eapply At_lookup|].
  apply dwp_bind. eapply dwp_read_port; [by eapply At_lookup|done|].
  injection Hbr2 as Hports2 Hidx2 Hbup2 Hstp2 Hben2. injection Ht2 as Hti2 Htu2 Hte2.
  assert (Hfinal : ∀ w3, port_up p u (stp_enabled (w_br w1) && u) w1 w3 →
    coherent_step w w3).
  { intros w3 H3. destruct (coherent_port_up p u w1 w3 Hco1 H3) as (Hc3 & Hs3 & He3 & Hp3); [by exists x|].
    split; [done|]. split; [etrans; [by apply track_index|done]|]. split; congruence. }
  destruct (changed && stp_enabled (w_br w2)) eqn:Hact; cbn [dwhen].
  - apply andb_true_iff in Hact as [_ Hact].
    eapply (dwp_in_bridge True); [exact Ha2|done| |intros _; apply calm_events|].
    { apply keeps_safe; [by apply wf_world_lend|]. intros. apply safe_MSTP_IN_set_port_enable; [done|].
      cbn. by rewrite Hports2. }
    intros [] w3 d3 (Hbr3 & Hq3 & Hself3)%set_port_enable_track Hw3 Ha3. exists w3.
    split; [done|]. split; [done|]. apply Hfinal. split; [|split].
    + rewrite Hbr3. unfold track_br. cbn. by rewrite Hports2, Hidx2, Hbup2, Hstp2, Hben2.
    + intros q Hq. rewrite Hq3, <- Hq2 by done. done.
    + intros y Hy. rewrite Hx in Hy. injection Hy as <-. destruct (Hself3 x2) as (x3 & Hx3 & Ht3); [done|]. exists x3.
      split; [done|]. rewrite Ht3, Hti2, Htu2. rewrite <- Hstp2, Hact. done.
  - exists w2. split; [done|]. split; [done|]. apply Hfinal. split; [|split].
    + unfold track_br. by rewrite Hports2, Hidx2, Hbup2, Hstp2, Hben2.
    + done.
    + intros y Hy. rewrite Hx in Hy. injection Hy as <-. exists x2. split; [done|]. unfold track_port.
      rewrite Hti2, Htu2, Hte2, Hex. f_equal. rewrite Hstp2 in Hact.
      destruct (stp_enabled (w_br w1)); [|done]. rewrite andb_true_r in Hact.
      by rewrite Hch.
Qed.
End netif.

(** ** The invariant of the daemon *)

Record DI (d : daemon) : Prop := {
  di_nodup : NoDup (d_bridges d);
  di_dom b : b ∈ d_bridges d ↔ is_Some (d_heap d !! b);
  di_bridge b w : d_heap d !! b = Some w → wf_world w ∧ coherent w;
  di_br_idx b1 b2 w1 w2 : d_heap d !! b1 = Some w1 → d_heap d !! b2 = Some w2 →
    br_idx w1 = br_idx w2 → b1 = b2;
  di_if b1 b2 w1 w2 p1 p2 idx : d_heap d !! b1 = Some w1 → d_heap d !! b2 = Some w2 →
    has_if w1 p1 idx → has_if w2 p2 idx → b1 = b2 ∧ p1 = p2
}.

Definition runs_stp (d : daemon) (b : br_ptr) : Prop :=
  ∃ w, d_heap d !! b = Some w ∧ stp_enabled (w_br w) = true.

(** No bridge starts to run the protocol, and those that do not take no action but the
    shutdown of guarded ports. *)
Definition hands_off (d d' : daemon) : Prop :=
  (∀ b, runs_stp d' b → runs_stp d b) ∧
  ∃ new, d_out d' = d_out d ++ new ∧
    ∀ b e, (b, e) ∈ new → is_shutdown e = true ∨ runs_stp d b.

#[export] Instance hands_off_preorder : PreOrder hands_off.
Proof.
  split.
  - intros d. split; [done|]. exists []. rewrite app_nil_r. split; [done|]. by intros b e ?%elem_of_nil.
  - intros d1 d2 d3 (H1 & l & Hl & He) (H1' & l' & Hl' & He'). split; [auto|].
    exists (l ++ l'). rewrite Hl', Hl, app_assoc. split; [done|].
    intros b e [?|Hin]%elem_of_app; [by apply He|]. destruct (He' b e Hin); auto.
Qed.

(** The computation keeps the invariant; if [C], it keeps its hands off. *)
Definition dkeeps (C : Prop) {A} (m : D A) (Q : A → daemon → Prop) (d : daemon) : Prop :=
  dwp m (λ a d', DI d' ∧ (C → hands_off d d') ∧ Q a d') d.

Lemma dkeeps_bind C {A B} (m : D A) (f : A → D B) P Q d :
  dkeeps C m P d → (∀ a d', DI d' → P a d' → dkeeps C (f a) Q d') → dkeeps C (m ≫= f) Q d.
Proof.
  intros Hm Hf. apply dwp_bind. eapply dwp_mono; [exact Hm|]. intros a d' (Hd' & Hh & HP).
  eapply dwp_mono; [by apply Hf|]. intros c d'' (Hd'' & Hh' & HQ). split; [done|]. split; [|done].
  intros HC. etrans; [by apply Hh|by apply Hh'].
Qed.

Lemma dkeeps_ret C {A} (a : A) (Q : A → daemon → Prop) d : DI d → Q a d → dkeeps C (mret a) Q d.
Proof. intros Hd HQ. split; [done|]. by split. Qed.

Lemma dkeeps_mono C {A} (m : D A) (P Q : A → daemon → Prop) d :
  dkeeps C m P d → (∀ a d', DI d' → P a d' → Q a d') → dkeeps C m Q d.
Proof.
  intros Hm HQ. eapply dwp_mono; [exact Hm|]. intros a d' (? & ? & ?). split; [done|]. split; auto.
Qed.

Lemma DI_same d d' : d_heap d' = d_heap d → d_bridges d' = d_bridges d → DI d → DI d'.
Proof. intros Hh Hb [? ? ? ? ?]. split; rewrite ?Hh, ?Hb; done. Qed.

Lemma hands_off_same d d' : d_heap d' = d_heap d → d_out d' = d_out d → hands_off d d'.
Proof.
  intros Hh Ho. split; [intros b; unfold runs_stp; by rewrite Hh|]. exists [].
  rewrite Ho, app_nil_r. split; [done|]. by intros b e ?%elem_of_nil.
Qed.

(** Computations that change neither the bridges nor the actions. *)
Definition asks {A} (m : D A) (Q : A → Prop) (d : daemon) : Prop :=
  dwp m (λ a d', d_heap d' = d_heap d ∧ d_bridges d' = d_bridges d ∧ d_out d' = d_out d ∧ Q a) d.

Lemma dkeeps_asks C {A} (m : D A) (Q : A → Prop) d : DI d → asks m Q d →
  dkeeps C m (λ a d', d_heap d' = d_heap d ∧ d_bridges d' = d_bridges d ∧ Q a) d.
Proof.
  intros Hd Hm. eapply dwp_mono; [exact Hm|]. intros a d' (Hh & Hb & Ho & HQ).
  split; [by eapply DI_same|]. split; [intros _; by apply hands_off_same|done].
Qed.

Lemma asks_syscall {A} (f : nat → A) (Q : A → Prop) d : (∀ a, Q a) → asks (syscall f) Q d.
Proof. intros H. apply dwp_syscall. intros a. done. Qed.

(** What a change of one bridge means for the daemon. *)
Lemma DI_update C b d w d' w' :
  DI d → At C b d w d' w' → d_heap d !! b = Some w → wf_world w' → coherent w' → sub_index w w' →
  DI d'.
Proof.
  intros [Hnd Hdom Hbr Hidx Hif] [Hh Hb _] Hw Hwf' Hco' [Hi Hp]. split.
  - by rewrite Hb.
  - intros j. rewrite Hb, Hh, Hdom. destruct (decide (j = b)) as [->|].
    + rewrite lookup_insert_eq. split; intros _; [done|by exists w].
    + by rewrite lookup_insert_ne.
  - intros j v. rewrite Hh. destruct (decide (j = b)) as [->|].
    + rewrite lookup_insert_eq. by intros [= <-].
    + rewrite lookup_insert_ne by done. apply Hbr.
  - assert (Hback : ∀ j v, d_heap d' !! j = Some v → ∃ u, d_heap d !! j = Some u ∧ br_idx u = br_idx v).
    { intros j v. rewrite Hh. destruct (decide (j = b)) as [->|].
      - rewrite lookup_insert_eq. intros [= <-]. by exists w.
      - rewrite lookup_insert_ne by done. by exists v. }
    intros b1 b2 w1 w2 (u1 & Hu1 & E1)%Hback (u2 & Hu2 & E2)%Hback Heq.
    eapply Hidx; [done|done|congruence].
  - assert (Hback : ∀ j v p idx, d_heap d' !! j = Some v → has_if v p idx →
              ∃ u, d_heap d !! j = Some u ∧ has_if u p idx).
    { intros j v p idx. rewrite Hh. destruct (decide (j = b)) as [->|].
      - rewrite lookup_insert_eq. intros [= <-] Hv. exists w. auto.
      - rewrite lookup_insert_ne by done. by exists v. }
    intros b1 b2 w1 w2 p1 p2 idx H1 H2 I1 I2.
    destruct (Hback _ _ _ _ H1 I1) as (u1 & Hu1 & J1), (Hback _ _ _ _ H2 I2) as (u2 & Hu2 & J2).
    by eapply Hif.
Qed.

Lemma hands_off_update (C : Prop) b d w d' w' :
  C → At C b d w d' w' → d_heap d !! b = Some w → coherent w →
  (stp_enabled (w_br w') = true → stp_enabled (w_br w) = true) → hands_off d d'.
Proof.
  intros HC [Hh _ (evs & Ho & Hm)] Hw [Hco _] Hs. split.
  - intros j (v & Hv & Hst). rewrite Hh in Hv. destruct (decide (j = b)) as [->|].
    + rewrite lookup_insert_eq in Hv. injection Hv as <-. exists w. auto.
    + rewrite lookup_insert_ne in Hv by done. by exists v.
  - exists (map (pair b) evs). split; [done|]. intros j e Hin.
    apply list_elem_of_fmap in Hin as (e' & [= -> ->] & Hin).
    destruct (stp_enabled (w_br w)) eqn:Hst; [right; by exists w|left].
    assert (Hmon : monitored w) by (split; [done|]; by rewrite Hco).
    destruct (Hm HC Hmon) as [_ Hf]. rewrite Forall_forall in Hf. by apply Hf.
Qed.

Lemma dkeeps_works (C : Prop) b P {A} (V : A → world → world → Prop) (m : D A) d w :
  DI d → d_heap d !! b = Some w → P w → works C b P V m →
  (∀ a w', V a w w' → coherent w' ∧ sub_index w w' ∧
     (C → stp_enabled (w_br w') = true → stp_enabled (w_br w) = true)) →
  dkeeps C m (λ a d', d_bridges d' = d_bridges d ∧
    ∃ w', d_heap d' = <[b := w']> (d_heap d) ∧ V a w w') d.
Proof.
  intros Hd Hb HP Hm HV. destruct (di_bridge _ Hd _ _ Hb) as [Hwf Hco].
  eapply dwp_mono; [by eapply Hm; [apply At_refl|..]|]. intros a d' (w' & Ha & Hwf' & HVa).
  destruct (HV a w' HVa) as (Hco' & Hi & Hst). split; [by eapply DI_update|]. split.
  - intros HC. eapply hands_off_update; eauto.
  - split; [apply Ha|]. exists w'. split; [apply Ha|done].
Qed.

(** A call into the protocol entity that leaves the view alone. *)
Lemma works_protocol b {A} (m : M A) (P : world → Prop) :
  (∀ w, P w → wf_world w → keeps m w) → (∀ w d, P w → P (lend d w)) → follows same_view m →
  follows calm m → works True b P (λ _, same_view) (in_bridge b m).
Proof.
  intros Hk HP Hv Hc d0 w0 d w Ha Hw Hp.
  eapply (dwp_in_bridge True); [exact Ha|done|apply Hk; [by apply HP|by apply wf_world_lend]|
    done|].
  intros a w1 d1 Hd Hw1 Ha1. exists w1. split; [done|]. split; [done|]. by apply Hv in Hd.
Qed.

Lemma view_step w w' : coherent w → same_view w w' →
  coherent w' ∧ sub_index w w' ∧ (True → stp_enabled (w_br w') = true → stp_enabled (w_br w) = true).
Proof.
  intros Hco Hs. apply view_track in Hs as Ht. split; [by eapply coherent_track|].
  split; [by apply track_index|]. destruct Hs as [Hs _]. injection Hs as _ _ -> _. done.
Qed.
