(* ===== verification/Inventory.v ===== *)
(** The bridges and ports the daemon knows: looking up, creating and deleting them
    (create_br, create_if, delete_if, delete_br_byindex) keeps the invariant of the
    daemon. *)
From S2P Require Import Prelude Types Monad Clib Vectors Outputs Wire Procs Bridge Mgmt Kernel Track Control.
From S2P Require Import Wf Safety Links System Frame Follows Daemon.

(** ** New addresses *)

Lemma foldr_max_ge (l : list nat) n : n ∈ l → (n <= foldr Nat.max 0 l)%nat.
Proof.
  induction l as [|x l IH]; intros Hin; [by apply elem_of_nil in Hin|].
  apply elem_of_cons in Hin as [->|Hin]; cbn; [lia|]. specialize (IH Hin). lia.
Qed.

Lemma fresh_addr_new {A} (m : gmap nat A) : m !! fresh_addr m = None.
Proof.
  destruct (m !! fresh_addr m) as [a|] eqn:Ha; [|done]. apply elem_of_map_to_list in Ha.
  apply (list_elem_of_fmap_2 fst) in Ha. apply foldr_max_ge in Ha.
  exfalso. exact (Nat.nle_succ_diag_l _ Ha).
Qed.

(** ** Looking up *)

(** A search that does not change the daemon. *)
Lemma dwp_dfind {A} (l : list A) (body : A → D bool) (P : A → Prop) d :
  (∀ x, x ∈ l → dwp (body x) (λ r d', d' = d ∧ (r = true ↔ P x)) d) →
  dwp (dfind l body) (λ r d', d' = d ∧
    match r with Some x => x ∈ l ∧ P x | None => ∀ x, x ∈ l → ¬ P x end) d.
Proof.
  induction l as [|x l IH]; intros Hl; cbn [dfind].
  - apply dwp_ret. split; [done|]. by intros x ?%elem_of_nil.
  - apply dwp_bind. eapply dwp_mono; [apply Hl; by left|]. intros r d' [-> Hr]. destruct r.
    + apply dwp_ret. split; [done|]. split; [by left|by apply Hr].
    + eapply dwp_mono; [apply IH; intros y Hy; apply Hl; by right|].
      intros r d' [-> HP]. split; [done|]. destruct r as [y|].
      * destruct HP. split; [by right|done].
      * intros y [->|Hy]%elem_of_cons; [|by apply HP]. intros H. by apply Hr in H.
Qed.

(** The bridge has that index. *)
Definition br_has (d : daemon) (idx : Z) (b : br_ptr) : Prop :=
  ∃ w, d_heap d !! b = Some w ∧ br_idx w = idx.

Lemma find_br_spec idx d : DI d →
  dwp (find_br idx) (λ r d', d' = d ∧
    match r with Some b => br_has d idx b | None => ∀ b, ¬ br_has d idx b end) d.
Proof.
  intros Hd. unfold find_br. apply dwp_bind, dwp_bridges.
  eapply dwp_mono; [apply (dwp_dfind _ _ (br_has d idx))|].
  - intros b [w Hb]%(di_dom _ Hd). apply dwp_bind. eapply dwp_read_br; [done|]. apply dwp_ret.
    split; [done|]. unfold br_has. rewrite Z.eqb_eq. split; [by exists w|].
    intros (w' & Hw' & Hi). by simplify_eq.
  - intros [b|] d' [-> Hr]; split; try done; [apply Hr|]. intros b (w & Hb & Hi).
    apply (Hr b); [apply (di_dom _ Hd); by exists w|by exists w].
Qed.

Lemma find_if_spec b w idx d : d_heap d !! b = Some w → wf_world w →
  dwp (find_if b idx) (λ r d', d' = d ∧
    match r with Some p => has_if w p idx | None => ∀ p, ¬ has_if w p idx end) d.
Proof.
  intros Hb Hw. unfold find_if. apply dwp_bind. eapply dwp_read_br; [done|].
  eapply dwp_mono; [apply (dwp_dfind _ _ (λ p, has_if w p idx))|].
  - intros p Hp. destruct (wf_world_port w p Hw Hp) as [x Hx]. apply dwp_bind.
    eapply dwp_read_port; [done..|]. apply dwp_ret. split; [done|]. rewrite Z.eqb_eq.
    split; [intros Hi; split; [done|]; by exists x|]. intros (_ & y & Hy & Hi). by simplify_eq.
  - intros [p|] d' [-> Hr]; split; try done; [apply Hr|]. intros p Hp. by apply (Hr p); [apply Hp|].
Qed.

(** ** Port objects that are not in the list *)

Lemma wf_unlisted (f : gmap port_id port_t → gmap port_id port_t) w :
  (∀ q, q ∈ br_ports (w_br w) → f (w_ports w) !! q = w_ports w !! q) →
  wf_world w → wf_world (w <| w_ports ::= f |>).
Proof.
  intros Hf [[Hb [H1 H2 H3 H4 H5]] Ht]. split; [split; [done|]|done]. split; cbn; try done.
  intros q Hq. rewrite Hf by done. by apply H2.
Qed.

Lemma coherent_unlisted (f : gmap port_id port_t → gmap port_id port_t) w :
  (∀ q, q ∈ br_ports (w_br w) → f (w_ports w) !! q = w_ports w !! q) →
  coherent w → coherent (w <| w_ports ::= f |>).
Proof. intros Hf [H1 H2]. split; [done|]. cbn. intros q x Hq. rewrite Hf by done. by apply H2. Qed.

(** ** A new bridge *)

(** What a call on a bridge under construction leaves alone. *)
Definition building (w w' : world) : Prop :=
  br_view (w_br w') = br_view (w_br w) ∧ w_out w' = w_out w.
#[export] Instance building_preorder : PreOrder building.
Proof. split; [by split|]. intros w1 w2 w3 [H1 H1'] [H2 H2']. split; congruence. Qed.

Lemma building_upd_br f : (∀ br, br_view (f br) = br_view br) → follows building (upd_br f).
Proof. intros Hf w a w' [= _ <-]. by split; [apply Hf|]. Qed.
Lemma building_calloc_ok : follows building calloc_ok.
Proof. intros w a w'. unfold calloc_ok. destruct (w_calloc w); by intros [= _ <-]. Qed.
Lemma building_new_tree t x : follows building (new_tree t x).
Proof. by intros w a w' [= _ <-]. Qed.
#[local] Hint Resolve building_calloc_ok building_new_tree : follows.
#[local] Hint Extern 1 (follows building (upd_br _)) =>
  apply building_upd_br; intros; reflexivity : follows.

Lemma bridge_create_view stack mac w ok w' : MSTP_IN_bridge_create stack mac w = Done ok w' →
  br_view (w_br w') = ([], br_sysdeps (w_br w), stp_enabled (w_br w), false) ∧ w_out w' = w_out w.
Proof.
  unfold MSTP_IN_bridge_create. intros ([] & w1 & [= <-] & H)%bind_Done_inv.
  match type of H with ?m _ = _ => assert (Hf : follows building m) by follows_auto end.
  by apply Hf in H as [-> ->].
Qed.

(** Only the bridge [b], new since [d0], has changed; it is now [w]. *)
Definition Building b (d0 d : daemon) (w : world) : Prop :=
  d_heap d = <[b := w]> (d_heap d0) ∧ d_bridges d = d_bridges d0 ∧ d_out d = d_out d0.

Lemma Building_calls b d0 d w : Building b d0 d w → Building b d0 (d <| d_calls ::= S |>) w.
Proof. by intros (? & ? & ?). Qed.

Lemma Building_call b d0 d w {A} (m : M A) (P : A → world → Prop) (Q : A → daemon → Prop) :
  Building b d0 d w → wp True m P (lend d w) →
  (∀ a w', m (lend d w) = Done a w' → P a w' → w_out w' = [] ∧
     ∀ d', Building b d0 d' w' → Q a d') → dwp (in_bridge b m) Q d.
Proof.
  intros (H1 & H2 & H3) Hm HQ. unfold dwp, in_bridge. rewrite H1, lookup_insert_eq.
  unfold wp in Hm. destruct (m (lend d w)) as [a w'| |]; [|done|done].
  destruct (HQ a w' eq_refl Hm) as [Ho HQ']. apply HQ'.
  split; [|split]; cbn; [by rewrite H1, insert_insert_eq|done|]. by rewrite Ho, app_nil_r.
Qed.

Lemma Building_sysdeps b d0 d w f (Q : unit → daemon → Prop) :
  Building b d0 d w →
  (∀ d' w', w_br w' = w_br w <| br_sysdeps ::= f |> → Building b d0 d' w' → Q tt d') →
  dwp (upd_br_sysdeps b f) Q d.
Proof.
  intros Hb HQ. eapply (Building_call _ _ _ _ _ (λ _ _, True)); [exact Hb|done|].
  intros [] w' [= <-] _. split; [done|]. intros d' Hd'. by eapply HQ, Hd'.
Qed.

Lemma Building_free b d0 d w : d_heap d0 !! b = None → DI d0 → Building b d0 d w →
  dwp (free_bridge b ;; mret (@None br_ptr)) (λ r d', DI d' ∧ hands_off d0 d' ∧
    r = None ∧ d_heap d' = d_heap d0 ∧ d_bridges d' = d_bridges d0) d.
Proof.
  intros Hn Hd (H1 & H2 & H3). apply dwp_bind, dwp_ret. cbn.
  assert (He : delete b (d_heap d) = d_heap d0) by by rewrite H1, delete_insert_id.
  split; [by eapply DI_same; [..|exact Hd]|]. split; [by apply hands_off_same|done].
Qed.

(** The bridge joins the list. *)
Lemma DI_add b d d' w : DI d → d_heap d !! b = None → wf_world w → coherent w →
  br_ports (w_br w) = [] → (∀ j, ¬ br_has d (br_idx w) j) →
  d_heap d' = <[b := w]> (d_heap d) → d_bridges d' = d_bridges d ++ [b] → DI d'.
Proof.
  intros [Hnd Hdom Hbr Hidx Hif] Hn Hw Hco Hp Hnew Hh Hb.
  assert (Hold : ∀ j v, d_heap d' !! j = Some v → j = b ∧ v = w ∨ d_heap d !! j = Some v).
  { intros j v. rewrite Hh. destruct (decide (j = b)) as [->|].
    - rewrite lookup_insert_eq. intros [= <-]. by left.
    - rewrite lookup_insert_ne by done. by right. }
  assert (Hno : ∀ p idx, ¬ has_if w p idx).
  { intros p idx [Hin _]. rewrite Hp in Hin. by apply elem_of_nil in Hin. }
  split.
  - rewrite Hb. apply NoDup_app. split; [done|]. split; [|apply NoDup_singleton].
    intros j Hj ->%list_elem_of_singleton. apply Hdom in Hj as [v Hv]. by rewrite Hn in Hv.
  - intros j. rewrite Hb, Hh, elem_of_app, list_elem_of_singleton, Hdom.
    destruct (decide (j = b)) as [->|Hne].
    + rewrite lookup_insert_eq. split; intros; [by exists w|by right].
    + rewrite lookup_insert_ne by done. split; [by intros [?|?]|by left].
  - intros j v [[-> ->]|Hv]%Hold; [done|by eapply Hbr].
  - intros b1 b2 w1 w2 [[-> ->]|H1]%Hold [[-> ->]|H2]%Hold Heq; [done|..|by eapply Hidx].
    + exfalso. apply (Hnew b2). by exists w2.
    + exfalso. apply (Hnew b1). by exists w1.
  - intros b1 b2 w1 w2 p1 p2 idx [[-> ->]|H1]%Hold [[-> ->]|H2]%Hold I1 I2; try (by destruct (Hno _ _ I1));
      try (by destruct (Hno _ _ I2)). by eapply Hif.
Qed.

Lemma hands_off_add b d d' w : d_heap d' = <[b := w]> (d_heap d) → d_out d' = d_out d →
  stp_enabled (w_br w) = false → hands_off d d'.
Proof.
  intros Hh Ho Hs. split.
  - intros j (v & Hv & Hst). rewrite Hh in Hv. destruct (decide (j = b)) as [->|].
    + rewrite lookup_insert_eq in Hv. congruence.
    + rewrite lookup_insert_ne in Hv by done. by exists v.
  - exists []. rewrite Ho, app_nil_r. split; [done|]. by intros ? ? ?%elem_of_nil.
Qed.

Section create.
Context (K : kernel) (Hstack : ∀ n, length (k_stack K n) = 64%nat).

(** What creating a bridge does to the daemon. *)
Definition bridge_created (idx : Z) (d d' : daemon) (r : option br_ptr) : Prop :=
  match r with
  | None => d_heap d' = d_heap d
  | Some b => d_heap d !! b = None ∧ ∃ w, d_heap d' = <[b := w]> (d_heap d) ∧ br_idx w = idx ∧
                br_ports (w_br w) = [] ∧ stp_enabled (w_br w) = false
  end.

Lemma dwp_stack_buffer (Q : list Z → daemon → Prop) d :
  (∀ s, length s = 64%nat → Q s (d <| d_calls ::= S |>)) → dwp (stack_buffer K) Q d.
Proof. intros H. apply H, Hstack. Qed.

Lemma dwp_new_bridge (Q : br_ptr → daemon → Prop) d :
  Q (fresh_addr (d_heap d)) (d <| d_heap ::= <[fresh_addr (d_heap d) := blank_world]> |>) →
  dwp new_bridge Q d.
Proof. done. Qed.

Lemma Building_failed idx b d d2 w : DI d → d_heap d !! b = None → Building b d d2 w →
  dwp (free_bridge b ;; mret (@None br_ptr)) (λ r d', DI d' ∧ hands_off d d' ∧
    bridge_created idx d d' r) d2.
Proof.
  intros Hd Hn HB. eapply dwp_mono; [by eapply Building_free|].
  by intros r d' (? & ? & -> & ? & _).
Qed.

(** The call into the protocol entity that ends the creation. *)
Lemma create_br_finish idx b mac d d4 w4 : DI d → (∀ j, ¬ br_has d idx j) → d_heap d !! b = None →
  Building b d d4 w4 →
  br_idx w4 = idx ∧ br_up (br_sysdeps (w_br w4)) = false ∧ stp_enabled (w_br w4) = false →
  dwp (stack ← stack_buffer K;
       created ← in_bridge b (MSTP_IN_bridge_create stack mac);
       if negb (created : bool) then free_bridge b ;; mret None else
       upd_bridges (λ l, l ++ [b]) ;; mret (Some b))
    (λ r d', DI d' ∧ hands_off d d' ∧ bridge_created idx d d' r) d4.
Proof.
  intros Hd Hnew Hn HB4 Hw.
  apply dwp_bind, dwp_stack_buffer. intros stack Hs. apply Building_calls in HB4.
  destruct Hw as (Hidx & Hup & Hstp).
  apply dwp_bind. eapply Building_call; [exact HB4|exact (bridge_create_wf stack mac _ Hs)|].
  intros created w5 [Hv Ho]%bridge_create_view [_ Hwf]. split; [by rewrite Ho|]. intros d5 HB5.
  destruct created; cbn [negb]; [|by eapply Building_failed].
  specialize (Hwf eq_refl). injection Hv as Hports Hsys Hst Hen. cbn in Hsys, Hst.
  destruct HB5 as (Hh & Hb & Hout). apply dwp_bind, dwp_ret.
  assert (Hi5 : br_idx w5 = idx) by (unfold br_idx in *; by rewrite Hsys).
  split; [|split; [by eapply hands_off_add; [exact Hh|..|congruence]|]].
  - eapply (DI_add b d); [done..| |exact Hports|by rewrite Hi5|done|cbn; by rewrite Hb]. split.
    + by rewrite Hen, Hst, Hstp.
    + intros p x Hp. rewrite Hports in Hp. by apply elem_of_nil in Hp.
  - split; [exact Hn|]. exists w5. split; [exact Hh|]. split; [done|]. split; [done|congruence].
Qed.

Lemma create_br_spec idx d : DI d → (∀ b, ¬ br_has d idx b) →
  dwp (create_br K idx) (λ r d', DI d' ∧ hands_off d d' ∧ bridge_created idx d d' r) d.
Proof.
  intros Hd Hnew. unfold create_br. apply dwp_bind, dwp_dcalloc. intros ok l.
  set (d0 := d <| d_calloc := l |>).
  assert (Hd0 : DI d0 ∧ hands_off d d0) by by split; [eapply DI_same; [..|exact Hd]|apply hands_off_same].
  destruct ok; cbn [negb]; [|by apply dwp_ret; destruct Hd0]. set (b := fresh_addr (d_heap d)).
  assert (Hn : d_heap d !! b = None) by apply fresh_addr_new. apply dwp_bind.
  apply dwp_new_bridge. cbv zeta. change (fresh_addr (d_heap d0)) with b.
  assert (HB : Building b d (d0 <| d_heap ::= <[b := blank_world]> |>) blank_world) by done.
  revert HB. generalize (d0 <| d_heap ::= <[b := blank_world]> |>). intros d1 HB1.
  apply dwp_bind. eapply Building_sysdeps; [exact HB1|]. intros d2 w2 Hw2 HB2.
  apply dwp_bind, dwp_syscall. intros n. apply Building_calls in HB2.
  destruct n as [n|]; [|by eapply Building_failed].
  apply dwp_bind. eapply Building_sysdeps; [exact HB2|]. intros d3 w3 Hw3 HB3.
  unfold get_hwaddr. apply dwp_bind, dwp_bind, dwp_syscall. intros mac. apply dwp_ret.
  apply Building_calls in HB3. destruct mac as [mac|]; cbn [fmap option_fmap option_map]; [|by eapply Building_failed].
  apply dwp_bind. eapply Building_sysdeps; [exact HB3|]. intros d4 w4 Hw4 HB4.
  change (negb (driver_create_bridge _ _)) with false. cbv iota.
  eapply create_br_finish; [done..|]. unfold br_idx. by rewrite Hw4, Hw3, Hw2.
Qed.

(** ** A new port *)

(** The ports of the bridge are now [L]; those that were in the list are as before. *)
Definition ports_now (L : list port_id) (w w' : world) : Prop :=
  br_view (w_br w') = (L, br_sysdeps (w_br w), stp_enabled (w_br w), bridgeEnabled (w_br w)) ∧
  ∀ q, q ∈ br_ports (w_br w) → q ∈ L → port_view <$> w_ports w' !! q = port_view <$> w_ports w !! q.

(** The interface [idx] is the new port of the bridge, and is down. *)
Definition if_created (idx : Z) (r : option port_id) (w w' : world) : Prop :=
  ports_now (br_ports (w_br w) ++ option_list r) w w' ∧
  ∀ p, r = Some p → (p ∉ br_ports (w_br w)) ∧ ∃ x, w_ports w' !! p = Some x ∧
    if_index (prt_sysdeps x) = idx ∧ up (prt_sysdeps x) = false ∧ portEnabled x = false.

Lemma ports_now_coherent L w w' : coherent w → wf_world w → ports_now L w w' →
  (∀ p x, p ∈ L → p ∉ br_ports (w_br w) → w_ports w' !! p = Some x →
     portEnabled x = stp_enabled (w_br w) && up (prt_sysdeps x)) → coherent w'.
Proof.
  intros [Hb Hp] Hw [Hv Hq] Hnew. injection Hv as Ha Hs Hst He. split; [by rewrite He, Hst, Hs|].
  rewrite Ha, Hst. intros p x Hin Hx. destruct (decide (p ∈ br_ports (w_br w))) as [Hold|]; [|by eapply Hnew].
  specialize (Hq p Hold Hin). rewrite Hx in Hq. destruct (w_ports w !! p) as [y|] eqn:Hy; [|done].
  injection Hq as Hsx Hex. rewrite Hsx, Hex. by eapply Hp.
Qed.

Lemma ports_now_has L w w' p idx : ports_now L w w' → has_if w' p idx →
  p ∈ L ∧ (p ∈ br_ports (w_br w) → has_if w p idx).
Proof.
  intros [Hv Hq] [Hin (x & Hx & Hi)]. injection Hv as Ha _ _ _. rewrite Ha in Hin.
  split; [done|]. intros Hold. split; [done|]. specialize (Hq p Hold Hin). rewrite Hx in Hq.
  destruct (w_ports w !! p) as [y|]; [|done]. injection Hq as Hs _. exists y. by rewrite <- Hs.
Qed.

Lemma if_created_coherent idx r w w' : coherent w → wf_world w → if_created idx r w w' → coherent w'.
Proof.
  intros Hco Hw [Hp Hr]. eapply ports_now_coherent; [done..|]. intros p x Hin Hout Hx.
  apply elem_of_app in Hin as [?|Hin]; [done|]. destruct r as [q|]; [|by apply elem_of_nil in Hin].
  apply list_elem_of_singleton in Hin as ->. destruct (Hr q eq_refl) as (_ & y & Hy & _ & Hu & He).
  simplify_eq. by rewrite Hu, He, andb_false_r.
Qed.

(** The object [x] of a port that is not in the list. *)
Definition Pending b (d0 : daemon) (w0 w : world) (p : port_id) (x : port_t) (d : daemon) : Prop :=
  ∃ w1, At True b d0 w0 d w1 ∧ wf_world w1 ∧ (p ∉ br_ports (w_br w)) ∧ w_ports w1 !! p = Some x ∧
    br_view (w_br w1) = br_view (w_br w) ∧
    ∀ q, q ∈ br_ports (w_br w) → port_view <$> w_ports w1 !! q = port_view <$> w_ports w !! q.

Lemma Pending_upd b d0 w0 w p x d f (Q : unit → daemon → Prop) :
  Pending b d0 w0 w p x d →
  (∀ d', Pending b d0 w0 w p (x <| prt_sysdeps ::= f |>) d' → Q tt d') →
  dwp (upd_if_sysdeps b p f) Q d.
Proof.
  intros (w1 & Ha & Hw & Hp & Hx & Hbr & Hports) HQ. injection Hbr as Hb1 Hb2 Hb3 Hb4.
  eapply (dwp_in_bridge True); [exact Ha|done| |intros _; auto with follows|].
  { eapply wp_upd_port; [done|]. apply (wf_unlisted (insert p _) (lend d w1)); [|by apply wf_world_lend].
    intros q Hq. cbn in Hq. rewrite Hb1 in Hq. by rewrite lookup_insert_ne by (by intros ->). }
  intros [] w2 d2 (y & Hy & ->)%upd_port_Done Hw2 Ha2. cbn in Hy. rewrite Hx in Hy. injection Hy as <-.
  apply HQ. eexists. split; [exact Ha2|]. split; [done|]. split; [done|]. cbn.
  split; [by rewrite lookup_insert_eq|]. split; [unfold br_view; cbn; congruence|].
  intros q Hq. rewrite lookup_insert_ne by (by intros ->). by apply Hports.
Qed.

Lemma Pending_calls b d0 w0 w p x d : Pending b d0 w0 w p x d → Pending b d0 w0 w p x (d <| d_calls ::= S |>).
Proof. intros (w1 & Ha & H). exists w1. split; [by apply At_calls|done]. Qed.

(** The port is given up. *)
Lemma Pending_free b d0 w0 w p x d idx : Pending b d0 w0 w p x d →
  dwp (in_bridge b (free_port p) ;; mret (@None port_id))
    (λ r d', ∃ w', At True b d0 w0 d' w' ∧ wf_world w' ∧ if_created idx r w w') d.
Proof.
  intros (w1 & Ha & Hw & Hp & Hx & Hbr & Hports). injection Hbr as Hb1 Hb2 Hb3 Hb4. apply dwp_bind.
  eapply (dwp_in_bridge True); [exact Ha|done| | |].
  { apply (wf_unlisted (delete p) (lend d w1)); [|by apply wf_world_lend].
    intros q Hin. cbn in Hin |- *. by rewrite lookup_delete_ne by (rewrite Hb1 in Hin; by intros ->). }
  { intros _ w2 [] w3 [= <-] Hm. split; [done|]. exists []. by rewrite app_nil_r. }
  intros [] w2 d2 [= <-] Hw2 Ha2. apply dwp_ret. eexists. split; [exact Ha2|]. split; [done|].
  split; [|by intros]. split; cbn.
  - unfold br_view. cbn. rewrite app_nil_r. congruence.
  - intros q Hin _. rewrite lookup_delete_ne by (by intros ->). by apply Hports.
Qed.

Lemma dwp_new_port b d0 w0 w d (Q : port_id → daemon → Prop) :
  At True b d0 w0 d w → wf_world w →
  (∀ p d', Pending b d0 w0 w p zero_port d' → Q p d') → dwp (new_port b) Q d.
Proof.
  intros Ha Hw HQ. unfold dwp, new_port. rewrite (At_lookup _ _ _ _ _ _ Ha). cbv zeta.
  set (p := fresh_addr (w_ports w)). change (dwp (in_bridge b (alloc_port p zero_port) ;; mret p) Q d).
  assert (Hn : w_ports w !! p = None) by apply fresh_addr_new.
  assert (Hp : p ∉ br_ports (w_br w)).
  { intros Hin. by apply (eq_None_not_Some (w_ports w !! p)); [|apply wf_world_port]. }
  apply dwp_bind. eapply (dwp_in_bridge True); [exact Ha|done| |intros _; auto with follows|].
  { apply (wf_unlisted (insert p zero_port) (lend d w)); [|by apply wf_world_lend].
    intros q Hq. cbn in Hq. by rewrite lookup_insert_ne by (by intros ->). }
  intros [] w1 d1 [= <-] Hw1 Ha1. apply dwp_ret, HQ. eexists. split; [exact Ha1|]. split; [done|].
  split; [done|]. split; [by apply lookup_insert_eq|]. split; [done|]. intros q Hq. cbn.
  by rewrite lookup_insert_ne by (by intros ->).
Qed.

Lemma keeps_create_pending p x n w : wf_world w → p ∉ br_ports (w_br w) → w_ports w !! p = Some x →
  wf_port_data x → keeps (MSTP_IN_port_create_and_add_tail p n) w.
Proof.
  intros Hw Hp Hx Hd. pose proof (keeps_port_create p x n w Hw (conj Hp Hd)) as Hk.
  assert (Ha : alloc_port p x w = Done tt w).
  { change (Done tt (w <| w_ports := <[p := x]> (w_ports w) |>) = Done tt w).
    rewrite insert_id by done. by destruct w. }
  unfold keeps, wp, mbind, M_bind in Hk. by rewrite Ha in Hk.
Qed.

Lemma Pending_create b d0 w0 w p x d n idx : Pending b d0 w0 w p x d → wf_port_data x →
  up (prt_sysdeps x) = false → if_index (prt_sysdeps x) = idx →
  dwp (created ← in_bridge b (MSTP_IN_port_create_and_add_tail p n);
       if negb (created : bool) then in_bridge b (free_port p) ;; mret None else mret (Some p))
    (λ r d', ∃ w', At True b d0 w0 d' w' ∧ wf_world w' ∧ if_created idx r w w') d.
Proof.
  intros (w1 & Ha & Hw & Hp & Hx & Hbr & Hports) Hdata Hup Hidx. injection Hbr as Hb1 Hb2 Hb3 Hb4.
  apply dwp_bind.
  eapply (dwp_in_bridge True); [exact Ha|done| |intros _; apply calm_events|].
  { eapply keeps_create_pending; [by apply wf_world_lend|cbn; by rewrite Hb1|exact Hx|done]. }
  intros ok w2 d2 Hd Hw2 Ha2. eapply port_create_view in Hd as [Hv (_ & Hq & Hself)]; [|exact Hx].
  cbn in Hq, Hself, Hv. destruct (Hself x Hx) as (x2 & Hx2 & Hv2). injection Hv2 as Hs2 He2.
  rewrite Hb1, Hb2, Hb3, Hb4 in Hv.
  assert (Hother : ∀ q, q ∈ br_ports (w_br w) → port_view <$> w_ports w2 !! q = port_view <$> w_ports w !! q)
    by (intros q Hin; rewrite Hq by (by intros ->); by apply Hports).
  destruct ok; cbn [negb].
  - apply dwp_ret. exists w2. split; [done|]. split; [done|]. split; [by split; [|auto]|].
    intros q [= <-]. split; [done|]. exists x2. by rewrite Hs2, He2.
  - eapply Pending_free. exists w2. by repeat (split; [done|]).
Qed.

Lemma create_if_works b idx : works True b (λ _, True) (if_created idx) (create_if K b idx).
Proof.
  intros d0 w0 d w Ha Hw _. unfold create_if. apply dwp_bind, dwp_dcalloc. intros ok l.
  apply (At_calloc _ _ _ _ _ _ l) in Ha. revert Ha. generalize (d <| d_calloc := l |>). clear d.
  intros d Ha. destruct ok; cbn [negb]; cycle 1.
  { apply dwp_ret. exists w. split; [done|]. split; [done|]. split; [split|by intros].
    - by rewrite app_nil_r.
    - done. }
  apply dwp_bind. eapply dwp_new_port; [exact Ha|done|]. intros p d1 HP1. cbv zeta.
  apply dwp_bind. eapply Pending_upd; [exact HP1|]. intros d2 HP2.
  apply dwp_bind, dwp_syscall. intros n. apply Pending_calls in HP2.
  destruct n as [n|]; [|by eapply Pending_free].
  apply dwp_bind. eapply Pending_upd; [exact HP2|]. intros d3 HP3.
  unfold get_hwaddr. apply dwp_bind, dwp_bind, dwp_syscall. intros mac. apply dwp_ret.
  apply Pending_calls in HP3. destruct mac as [mac|]; cbn [fmap option_fmap option_map]; [|by eapply Pending_free].
  apply dwp_bind. eapply Pending_upd; [exact HP3|]. intros d4 HP4.
  unfold get_bridge_portno. apply dwp_bind, dwp_bind, dwp_syscall. intros contents. apply dwp_ret.
  apply Pending_calls in HP4. set (portno := match contents with None => _ | Some _ => _ end).
  destruct (portno <? 0); [by eapply Pending_free|].
  destruct ((portno =? 0) || (MAX_PORT_NUMBER <? portno)); [by eapply Pending_free|].
  change (negb (driver_create_port _ _)) with false. cbv iota.
  by eapply Pending_create; [exact HP4|..].
Qed.
End create.

(** ** Deleting *)

Lemma wf_listed_nodup w : wf_world w → NoDup (br_ports (w_br w)).
Proof. by intros [[[? ? ? ?] _] _]. Qed.

Lemma delete_if_works b p : works True b (λ w, p ∈ br_ports (w_br w))
  (λ _ w w', ports_now (list_del p (br_ports (w_br w))) w w') (delete_if b p).
Proof.
  intros d0 w0 d w Ha Hw Hp. unfold delete_if. apply dwp_bind, dwp_ret, dwp_bind.
  eapply (dwp_in_bridge True); [exact Ha|done|by apply keeps_delete_port; [apply wf_world_lend|]|
    intros _; apply calm_events|].
  intros [] w1 d1 [Hv Hq]%delete_port_view Hw1 Ha1. cbn in Hv, Hq. injection Hv as H1 H2 H3 H4.
  assert (Hdel : ∀ q, q ∈ br_ports (w_br w1) → q ≠ p).
  { rewrite H1. by intros q [_ ?]%elem_of_list_del. }
  eapply (dwp_in_bridge True); [exact Ha1|done| | |].
  { apply (wf_unlisted (delete p) (lend d1 w1)); [|by apply wf_world_lend].
    intros q Hin%Hdel. by rewrite lookup_delete_ne. }
  { intros _. auto with follows. }
  intros [] w2 d2 [= <-] Hw2 Ha2. eexists. split; [exact Ha2|]. split; [done|]. split; cbn.
  - unfold br_view. cbn. congruence.
  - intros q _ [_ Hne]%elem_of_list_del. rewrite lookup_delete_ne by done. by apply Hq.
Qed.

Lemma ports_deleted p w w' : coherent w → wf_world w →
  ports_now (list_del p (br_ports (w_br w))) w w' →
  coherent w' ∧ sub_index w w' ∧ (∀ idx, ¬ has_if w' p idx).
Proof.
  intros Hco Hw Hn. split; [|split; [split|]].
  - eapply ports_now_coherent; [done..|]. by intros q x [? _]%elem_of_list_del.
  - destruct Hn as [Hv _]. injection Hv as _ Hs _ _. unfold br_idx. by rewrite Hs.
  - intros q idx Hq. eapply ports_now_has in Hq as [Hin Hq]; [|exact Hn]. apply Hq.
    by apply elem_of_list_del in Hin as [? _].
  - intros idx Hq. eapply ports_now_has in Hq as [Hin _]; [|exact Hn].
    by apply elem_of_list_del in Hin as [_ ?].
Qed.

(** What is known of the daemon after a computation on bridge [b]. *)
Definition only (b : br_ptr) (d d' : daemon) : Prop :=
  d_bridges d' = d_bridges d ∧ ∀ j, j ≠ b → d_heap d' !! j = d_heap d !! j.

Lemma delete_if_byindex_spec b w idx d : DI d → d_heap d !! b = Some w →
  dkeeps True (delete_if_byindex b idx) (λ r d', only b d d' ∧ (r = false → d' = d) ∧
    (r = true → ∃ p, has_if w p idx) ∧
    ∃ w', d_heap d' !! b = Some w' ∧ ∀ p, ¬ has_if w' p idx) d.
Proof.
  intros Hd Hb. destruct (di_bridge _ Hd _ _ Hb) as [Hw Hco]. unfold delete_if_byindex.
  apply dwp_bind. eapply dwp_mono; [by apply find_if_spec|]. intros r d' [-> Hr].
  destruct r as [p|]; cycle 1.
  { apply dwp_ret. split; [done|]. split; [done|]. split; [done|]. split; [done|]. split; [done|].
    by exists w. }
  apply dwp_bind. eapply dwp_mono.
  { eapply (dkeeps_works True _ (λ w, p ∈ br_ports (w_br w))); [exact Hd|exact Hb|exact (proj1 Hr)|
      apply delete_if_works|].
    intros [] w' Hn. destruct (ports_deleted p w w' Hco Hw Hn) as (? & ? & _).
    split; [done|]. split; [done|]. destruct Hn as [Hv _]. by injection Hv as _ _ ->. }
  intros [] d1 (Hd1 & Hh & Hbr & w1 & Hheap & Hn). apply dwp_ret.
  split; [done|]. split; [done|]. split; [split; [done|]|split; [done|]].
  - intros j Hj. by rewrite Hheap, lookup_insert_ne.
  - split; [by exists p|]. exists w1. split; [by rewrite Hheap, lookup_insert_eq|].
    intros q Hq. destruct (ports_deleted p w w1 Hco Hw Hn) as (_ & [_ Hs] & Hno).
    destruct (di_if _ Hd _ _ _ _ _ _ _ Hb Hb Hr (Hs _ _ Hq)) as [_ <-]. by apply (Hno idx).
Qed.

(** *** Deleting a bridge *)

Lemma wp_remember {A} (E : Prop) (m : M A) Q w :
  wp E m Q w → wp E m (λ a w', m w = Done a w' ∧ Q a w') w.
Proof. unfold wp. by destruct (m w). Qed.

(** Each port is deleted while it is the first of the list. *)
Lemma delete_ports_safe l w : wf_world w → br_ports (w_br w) = l →
  wp True (for_each l (λ p, MSTP_IN_delete_port p ;; free_port p)) (λ _ _, True) w.
Proof.
  revert w. induction l as [|p l IH]; intros w Hw Hl; cbn [for_each]; [done|].
  assert (Hp : p ∈ br_ports (w_br w)) by (rewrite Hl; by left).
  pose proof (wf_listed_nodup w Hw) as Hnd. rewrite Hl in Hnd. apply NoDup_cons in Hnd as [Hnin _].
  apply wp_bind, wp_bind. eapply wp_mono; [by apply wp_remember, keeps_delete_port|].
  intros [] w1 [[Hv _]%delete_port_view Hw1]. injection Hv as Hv _ _ _.
  assert (Hports : br_ports (w_br w1) = l).
  { rewrite Hv, Hl. unfold list_del. rewrite filter_cons_False by (by intros []).
    by apply list_del_notin. }
  apply (IH (w1 <| w_ports ::= delete p |>)); [|done]. apply wf_unlisted; [|done].
  intros q Hq. rewrite Hports in Hq. rewrite lookup_delete_ne; [done|]. by intros ->.
Qed.

Lemma delete_bridge_safe w : wf_world w → wp True MSTP_IN_delete_bridge (λ _ _, True) w.
Proof.
  intros [Hw Ht]. unfold MSTP_IN_delete_bridge. apply wp_bind, wp_upd_br, wp_bind.
  unfold FOREACH_PORT_IN_BRIDGE, ports_of_bridge. apply wp_bind, wp_bind, wp_get_br, wp_ret.
  eapply wp_mono; [apply delete_ports_safe; [|done]|].
  { split; [by apply wf_upd_br|]. by eapply wf_tables_same; [exact Ht|..]. }
  intros _ w1 _. unfold FOREACH_TREE_IN_BRIDGE, trees_of_bridge. apply wp_bind, wp_bind, wp_get_br, wp_ret.
  generalize (br_trees (w_br w1)). intros l. revert w1.
  induction l as [|t l IH]; intros w1; cbn [for_each]; [done|].
  apply wp_bind, wp_bind, wp_upd_br. apply IH.
Qed.

Lemma calm_delete_bridge : follows calm MSTP_IN_delete_bridge.
Proof.
  unfold MSTP_IN_delete_bridge. apply follows_bind; [apply _| |intros []].
  { intros w [] w' [= <-] [Hs He]. split; [by split|]. exists []. by rewrite app_nil_r. }
  follows_auto.
Qed.

Lemma dwp_in_bridge_last C b d0 w0 d w {A} (m : M A) (Q : A → daemon → Prop) :
  At C b d0 w0 d w → wp True m (λ _ _, True) (lend d w) → (C → follows calm m) →
  (∀ a w1 d1, At C b d0 w0 d1 w1 → Q a d1) → dwp (in_bridge b m) Q d.
Proof.
  intros Ha Hm Hc HQ. unfold dwp, in_bridge. rewrite (At_lookup _ _ _ _ _ _ Ha).
  unfold wp in Hm. destruct (m (lend d w)) as [a w1| |] eqn:He; [|done|done].
  eapply HQ, At_give_back; [exact Ha|]. intros HC. by eapply Hc.
Qed.

(** The bridge leaves the list and the heap. *)
Lemma DI_remove b d d' : DI d → d_heap d' = delete b (d_heap d) →
  d_bridges d' = list_del b (d_bridges d) → DI d'.
Proof.
  intros [Hnd Hdom Hbr Hidx Hif] Hh Hb.
  assert (Hold : ∀ j v, d_heap d' !! j = Some v → j ≠ b ∧ d_heap d !! j = Some v).
  { intros j v. rewrite Hh. by intros [? ?]%lookup_delete_Some. }
  split.
  - rewrite Hb. by apply NoDup_filter.
  - intros j. rewrite Hb, Hh, elem_of_list_del, Hdom, lookup_delete_is_Some. split; by intros [].
  - intros j v [_ Hv]%Hold. by eapply Hbr.
  - intros b1 b2 w1 w2 [_ H1]%Hold [_ H2]%Hold. by eapply Hidx.
  - intros b1 b2 w1 w2 p1 p2 j [_ H1]%Hold [_ H2]%Hold. by eapply Hif.
Qed.

Lemma delete_br_byindex_spec idx d : DI d →
  dkeeps True (delete_br_byindex idx) (λ r _, r = true ↔ ∃ b, br_has d idx b) d.
Proof.
  intros Hd. unfold delete_br_byindex. apply dwp_bind. eapply dwp_mono; [by apply find_br_spec|].
  intros [b|] d' [-> Hr]; cycle 1.
  { apply dkeeps_ret; [done|]. split; [done|]. by intros [b ?%Hr]. }
  pose proof Hr as (w & Hb & Hi). destruct (di_bridge _ Hd _ _ Hb) as [Hw Hco].
  unfold dkeeps. apply dwp_bind. unfold upd_bridges, dwp at 1. apply dwp_bind, dwp_ret, dwp_bind.
  set (d1 := d <| d_bridges ::= list_del b |>).
  assert (Ha : At True b d1 w d1 w) by by apply At_refl.
  eapply (dwp_in_bridge_last True); [exact Ha|by apply delete_bridge_safe, wf_world_lend|
    intros _; apply calm_delete_bridge|].
  intros [] w2 d2 [Hh2 Hb2 (evs & Ho2 & Hm2)]. apply dwp_bind.
  unfold free_bridge, dwp at 1. apply dwp_ret.
  split; [|split; [intros _; split|split; [intros _; by exists b|done]]].
  - eapply (DI_remove b d); [done| |exact Hb2]. cbn. rewrite Hh2. apply delete_insert_eq.
  - intros j (v & Hv & Hst). cbn in Hv. rewrite Hh2, delete_insert_eq in Hv.
    apply lookup_delete_Some in Hv as [_ Hv]. by exists v.
  - exists (map (pair b) evs). split; [exact Ho2|]. intros j e Hin.
    apply list_elem_of_fmap in Hin as (e' & [= -> ->] & Hin).
    destruct (stp_enabled (w_br w)) eqn:Hst; [right; by exists w|left].
    destruct (Hm2 I) as [_ Hf]; [by split; [|rewrite (proj1 Hco), Hst]|].
    rewrite Forall_forall in Hf. by apply Hf.
Qed.
