(* ===== verification/Events.v ===== *)
(** The events of the daemon: what netlink reports (bridge_notify), the frames received
    (packet_rcv), the one-second tick and the shutdown (bridge_track_fini). *)
From S2P Require Import Prelude Types Monad Clib Vectors Outputs Wire Procs Bridge Mgmt Kernel Track Control.
From S2P Require Import Wf Safety Links System Frame Follows Daemon Inventory.

(** ** A port joins a bridge *)

(** No other bridge has the interface. *)
Definition unclaimed (d : daemon) (b : br_ptr) (idx : Z) : Prop :=
  ∀ j v p, j ≠ b → d_heap d !! j = Some v → ¬ has_if v p idx.

Lemma DI_if_created C b d w d' w' idx r :
  DI d → At C b d w d' w' → d_heap d !! b = Some w → wf_world w' → unclaimed d b idx →
  (∀ p, ¬ has_if w p idx) → if_created idx r w w' → DI d'.
Proof.
  intros Hd [Hh Hb _] Hw Hwf' Hun Hno Hc. pose proof Hd as [Hnd Hdom Hbr Hidx Hif].
  destruct (Hbr _ _ Hw) as [Hwf Hco]. pose proof (if_created_coherent _ _ _ _ Hco Hwf Hc) as Hco'.
  assert (Hi : br_idx w' = br_idx w).
  { destruct Hc as [[Hv _] _]. injection Hv as _ Hs _ _. unfold br_idx. by rewrite Hs. }
  assert (Hhas : ∀ q j, has_if w' q j → has_if w q j ∨ r = Some q ∧ j = idx).
  { intros q j Hq. destruct Hc as [Hn Hr]. pose proof Hq as [_ (x & Hx & Hxi)].
    eapply ports_now_has in Hq as [Hin Hq]; [|exact Hn].
    apply elem_of_app in Hin as [Hin|Hin]; [left; auto|right].
    destruct r as [p|]; [|by apply elem_of_nil in Hin]. apply list_elem_of_singleton in Hin as ->.
    destruct (Hr p eq_refl) as (_ & y & Hy & Hyi & _). split; [done|]. by simplify_eq. }
  assert (Hold : ∀ j v, d_heap d' !! j = Some v → j = b ∧ v = w' ∨ j ≠ b ∧ d_heap d !! j = Some v).
  { intros j v. rewrite Hh. destruct (decide (j = b)) as [->|].
    - rewrite lookup_insert_eq. intros [= <-]. by left.
    - rewrite lookup_insert_ne by done. by right. }
  split.
  - by rewrite Hb.
  - intros j. rewrite Hb, Hh, Hdom. destruct (decide (j = b)) as [->|].
    + rewrite lookup_insert_eq. split; intros _; [done|by exists w].
    + by rewrite lookup_insert_ne.
  - intros j v [[-> ->]|[_ Hv]]%Hold; [done|by eapply Hbr].
  - intros b1 b2 w1 w2 [[-> ->]|[? H1]]%Hold [[-> ->]|[? H2]]%Hold Heq; [done|..|by eapply Hidx];
      [symmetry|]; rewrite Hi in Heq; by eapply Hidx.
  - intros b1 b2 w1 w2 p1 p2 j [[-> ->]|[Hn1 H1]]%Hold [[-> ->]|[Hn2 H2]]%Hold I1 I2.
    + split; [done|]. apply Hhas in I1 as [I1|[E1 ->]], I2 as [I2|[E2 Ej]]; subst.
      * by destruct (Hif _ _ _ _ _ _ _ Hw Hw I1 I2).
      * by destruct (Hno p1).
      * by destruct (Hno p2).
      * congruence.
    + apply Hhas in I1 as [I1|[_ ->]]; [by eapply Hif|]. by destruct (Hun b2 w2 p2 Hn2 H2).
    + apply Hhas in I2 as [I2|[_ ->]]; [by eapply Hif|]. by destruct (Hun b1 w1 p1 Hn1 H1).
    + by eapply Hif.
Qed.

(** The loop that takes the interface away from another bridge: bridge [b] is left
    alone, no bridge gains the interface, and those of the list but [b] do not have it. *)
Definition unclaimed_in (b : br_ptr) (idx : Z) (l : list br_ptr) (d d' : daemon) : Prop :=
  d_bridges d' = d_bridges d ∧ d_heap d' !! b = d_heap d !! b ∧
  (∀ j v p, d_heap d' !! j = Some v → has_if v p idx →
     ∃ v0, d_heap d !! j = Some v0 ∧ has_if v0 p idx) ∧
  ∀ j v p, j ∈ l → j ≠ b → d_heap d' !! j = Some v → ¬ has_if v p idx.

Lemma unclaim_spec b idx l d : DI d → (∀ j, j ∈ l → j ∈ d_bridges d) →
  dkeeps True (dfind l (λ other_br, if other_br ==? b then mret false else delete_if_byindex other_br idx))
    (λ _, unclaimed_in b idx l d) d.
Proof.
  revert d. induction l as [|o l IH]; intros d Hd Hl; cbn [dfind].
  { apply dkeeps_ret; [done|]. split; [done|]. split; [done|]. split; [by eauto|].
    by intros j v p ?%elem_of_nil. }
  assert (Hl' : ∀ j, j ∈ l → j ∈ d_bridges d) by (intros j Hj; apply Hl; by right).
  destruct (bool_decide_reflect (o = b)) as [->|Hne].
  { apply dwp_bind, dwp_ret. eapply dkeeps_mono; [by apply IH|]. intros _ d' _ (H1 & H2 & H3 & H4).
    split; [done|]. split; [done|]. split; [done|]. intros j v p [->|Hj]%elem_of_cons; [done|by eapply H4]. }
  destruct (proj1 (di_dom _ Hd o)) as [w Hw]; [apply Hl; by left|].
  eapply dkeeps_bind; [by apply (delete_if_byindex_spec o w idx)|].
  intros r d1 Hd1 ([Hb1 Ho1] & Hf & Ht & w1 & Hw1 & Hno).
  destruct r.
  - destruct (Ht eq_refl) as [p0 Hp0]. apply dkeeps_ret; [done|]. split; [done|].
    split; [by apply Ho1|]. split.
    + intros j v p Hv Hp. destruct (decide (j = o)) as [->|Hj]; [|rewrite Ho1 in Hv by done; by eauto].
      rewrite Hw1 in Hv. injection Hv as <-. by destruct (Hno p).
    + intros j v p _ Hj Hv Hp. destruct (decide (j = o)) as [->|Hjo].
      * rewrite Hw1 in Hv. injection Hv as <-. by destruct (Hno p).
      * rewrite Ho1 in Hv by done. by destruct (di_if _ Hd _ _ _ _ _ _ _ Hv Hw Hp Hp0) as [-> _].
  - rewrite (Hf eq_refl) in *. eapply dkeeps_mono; [by apply IH|].
    intros _ d' _ (H1 & H2 & H3 & H4). split; [done|]. split; [done|]. split; [done|].
    intros j v p [->|Hj]%elem_of_cons; [|by eapply H4]. intros _ Hv Hp.
    destruct (H3 _ _ _ Hv Hp) as (v0 & Hv0 & Hp0). rewrite Hw1 in Hv0. injection Hv0 as <-.
    by destruct (Hno p).
Qed.

Lemma takes_llc_header : takes 17 get_llc_header (λ _, True).
Proof. unfold get_llc_header. by take_members. Qed.

Section events.
Context (K : kernel) (Hstack : ∀ n, length (k_stack K n) = 64%nat).

(** Bridge [b] is there. *)
Definition alive (d : daemon) (b : br_ptr) : Prop := is_Some (d_heap d !! b).

Lemma find_or_create_if_spec b idx d : DI d → alive d b →
  dkeeps True (find_or_create_if K b idx) (λ r d', alive d' b ∧
    ∀ p, r = Some p → ∃ w, d_heap d' !! b = Some w ∧ p ∈ br_ports (w_br w)) d.
Proof.
  intros Hd [w Hw]. destruct (di_bridge _ Hd _ _ Hw) as [Hwf Hco].
  unfold find_or_create_if. apply dwp_bind. eapply dwp_mono; [by apply find_if_spec|].
  intros [p|] d' [-> Hr].
  { apply dkeeps_ret; [done|]. split; [by exists w|]. intros q [= <-]. exists w. split; [done|apply Hr]. }
  apply dwp_bind, dwp_bridges.
  eapply dkeeps_bind; [by apply unclaim_spec|]. intros _ d1 Hd1 (Hb1 & Hw1 & _ & Hun).
  rewrite Hw in Hw1. assert (Hun1 : unclaimed d1 b idx).
  { intros j v p Hj Hv. eapply Hun; [|done..]. rewrite <- Hb1. apply (di_dom _ Hd1). by exists v. }
  eapply dwp_mono; [by eapply (create_if_works K b idx d1 w); [apply At_refl|..]|].
  intros r d2 (w2 & Ha & Hwf2 & Hc). split; [|split; [intros _|split]].
  - by eapply DI_if_created.
  - eapply hands_off_update; [exact I|exact Ha|done|done|]. destruct Hc as [[Hv _] _].
    by injection Hv as _ _ -> _.
  - exists w2. by eapply At_lookup.
  - intros p ->. exists w2. split; [by eapply At_lookup|]. destruct Hc as [[Hv _] _].
    injection Hv as -> _ _ _. apply elem_of_app. right. by left.
Qed.

Lemma find_or_create_br_spec idx d : DI d →
  dkeeps True (find_or_create_br K idx) (λ r d', ∀ b, r = Some b → br_has d' idx b) d.
Proof.
  intros Hd. unfold find_or_create_br. apply dwp_bind. eapply dwp_mono; [by apply find_br_spec|].
  intros [b|] d' [-> Hr].
  - apply dkeeps_ret; [done|]. by intros ? [= <-].
  - eapply dwp_mono; [by apply create_br_spec|]. intros r d1 (Hd1 & Hh & Hc).
    split; [done|]. split; [done|]. intros b ->. destruct Hc as (_ & w & Hw & Hi & _).
    exists w. split; [by rewrite Hw, lookup_insert_eq|done].
Qed.

(** A step that leaves the bridge coherent. *)
Lemma dkeeps_coherent b P (m : D unit) d w : DI d → d_heap d !! b = Some w → P w →
  works True b P (λ _, coherent_step) m →
  dkeeps True m (λ _ d', ∃ w', d_heap d' !! b = Some w' ∧ br_ports (w_br w') = br_ports (w_br w)) d.
Proof.
  intros Hd Hw HP Hm. eapply dkeeps_mono.
  { eapply dkeeps_works; [exact Hd|exact Hw|exact HP|exact Hm|].
    intros a w' (? & ? & Hs & _). split; [done|]. split; [done|]. by rewrite Hs. }
  intros [] d' _ (_ & w' & Hh & (_ & _ & _ & Hp)). exists w'. split; [|done].
  by rewrite Hh, lookup_insert_eq.
Qed.

Lemma set_br_up_keeps b u d : DI d → alive d b → dkeeps True (set_br_up K b u) (λ _ d', alive d' b) d.
Proof.
  intros Hd [w Hw]. eapply dkeeps_mono.
  { eapply dkeeps_coherent; [done|exact Hw|apply (di_bridge _ Hd _ _ Hw)|apply set_br_up_works]. }
  intros [] d' _ (w' & Hw' & _). by exists w'.
Qed.

Lemma set_if_up_keeps b p u d w : DI d → d_heap d !! b = Some w → p ∈ br_ports (w_br w) →
  dkeeps True (set_if_up K b p u) (λ _ _, True) d.
Proof.
  intros Hd Hw Hp. eapply dkeeps_mono; [|done].
  eapply (dkeeps_coherent _ (λ w, coherent w ∧ p ∈ br_ports (w_br w))); [done|exact Hw| |apply set_if_up_works].
  split; [apply (di_bridge _ Hd _ _ Hw)|done].
Qed.

Lemma delete_if_keeps b p d w : DI d → d_heap d !! b = Some w → p ∈ br_ports (w_br w) →
  dkeeps True (delete_if b p) (λ _ _, True) d.
Proof.
  intros Hd Hw Hp. destruct (di_bridge _ Hd _ _ Hw) as [Hwf Hco]. eapply dkeeps_mono; [|done].
  eapply (dkeeps_works True _ (λ w, p ∈ br_ports (w_br w))); [done|exact Hw|done|apply delete_if_works|].
  intros [] w' Hn. destruct (ports_deleted p w w' Hco Hwf Hn) as (? & ? & _).
  split; [done|]. split; [done|]. destruct Hn as [Hv _]. by injection Hv as _ _ ->.
Qed.

(** ** netlink *)

Lemma notify_port_keeps b idx newlink running d : DI d → alive d b →
  dkeeps True (notify_port K b idx newlink running) (λ _ _, True) d.
Proof.
  intros Hd Hb. unfold notify_port. destruct newlink.
  - eapply dkeeps_bind; [by apply find_or_create_if_spec|].
    intros [p|] d1 Hd1 [_ Hp]; [|by apply dkeeps_ret].
    destruct (Hp p eq_refl) as (w1 & Hw1 & Hin).
    eapply dkeeps_bind; [by eapply set_if_up_keeps|]. intros _ d2 Hd2 _. by apply dkeeps_ret.
  - destruct Hb as [w Hw]. destruct (di_bridge _ Hd _ _ Hw) as [Hwf _].
    apply dwp_bind. eapply dwp_mono; [by apply find_if_spec|].
    intros [p|] d' [-> Hr]; [|by apply dkeeps_ret].
    eapply dkeeps_bind; [eapply delete_if_keeps; [done|exact Hw|apply Hr]|].
    intros _ d2 Hd2 _. by apply dkeeps_ret.
Qed.

Lemma dkeeps_syscall_at {A B} C (f : nat → A) (g : A → D B) Q d : DI d →
  dkeeps C (g (f (d_calls d))) Q (d <| d_calls ::= S |>) → dkeeps C (syscall f ≫= g) Q d.
Proof.
  intros Hd Hg. apply dwp_bind. unfold dwp at 1, syscall. eapply dwp_mono; [exact Hg|].
  intros c d' (? & Hh & ?). split; [done|]. split; [|done]. intros HC.
  etrans; [by apply (hands_off_same d (d <| d_calls ::= S |>))|by apply Hh].
Qed.
Lemma dkeeps_syscall {A B} C (f : nat → A) (g : A → D B) Q d : DI d →
  (∀ a, dkeeps C (g a) Q (d <| d_calls ::= S |>)) → dkeeps C (syscall f ≫= g) Q d.
Proof. intros Hd Hg. by apply dkeeps_syscall_at. Qed.

Lemma DI_calls d : DI d → DI (d <| d_calls ::= S |>).
Proof. by apply DI_same. Qed.

(** The loop over the bridges that deletes a port of the interface. *)
Lemma delete_somewhere_keeps idx l d : DI d → (∀ b, b ∈ l → b ∈ d_bridges d) →
  dkeeps True (dfind l (λ b, delete_if_byindex b idx)) (λ _ _, True) d.
Proof.
  revert d. induction l as [|b l IH]; intros d Hd Hl; cbn [dfind]; [by apply dkeeps_ret|].
  destruct (proj1 (di_dom _ Hd b)) as [w Hw]; [apply Hl; by left|].
  eapply dkeeps_bind; [by apply (delete_if_byindex_spec b w idx)|].
  intros r d1 Hd1 ([Hb1 _] & _). destruct r; [by apply dkeeps_ret|]. apply IH; [done|].
  intros j Hj. rewrite Hb1. apply Hl. by right.
Qed.

Lemma get_flags_keeps b n d : DI d → alive d b → dkeeps True (get_flags K n) (λ _ d', alive d' b) d.
Proof.
  intros Hd Hb. apply dkeeps_syscall; [done|]. intros r. by apply dkeeps_ret; [apply DI_calls|].
Qed.

Lemma bridge_notify_keeps br_index idx newlink flags d : DI d →
  dkeeps True (bridge_notify K br_index idx newlink flags) (λ _ _, True) d.
Proof.
  intros Hd. unfold bridge_notify. cbv zeta. generalize (has_flag flags IFF_UP).
  generalize (has_flag flags IFF_RUNNING). intros running up.
  destruct ((0 <=? br_index) && (br_index ≠? idx)).
  - eapply dkeeps_bind; [by apply find_or_create_br_spec|].
    intros [b|] d1 Hd1 Hb; [|by apply dkeeps_ret]. destruct (Hb b eq_refl) as (w1 & Hw1 & _).
    apply dwp_bind. eapply dwp_read_br; [exact Hw1|].
    eapply (dkeeps_bind _ _ _ (λ _ d', alive d' b)); [apply get_flags_keeps; [done|by exists w1]|].
    intros r d2 Hd2 Hal. eapply (dkeeps_bind _ _ _ (λ _ d', alive d' b)).
    { destruct (0 <=? r); [by apply set_br_up_keeps|by apply dkeeps_ret]. }
    intros _ d3 Hd3 Hal3. by apply notify_port_keeps.
  - destruct newlink; cbn [negb].
    + destruct (br_index =? idx); [|by apply dkeeps_ret].
      eapply dkeeps_bind; [by apply find_or_create_br_spec|].
      intros [b|] d1 Hd1 Hb; [|by apply dkeeps_ret]. destruct (Hb b eq_refl) as (w1 & Hw1 & _).
      eapply dkeeps_bind; [apply set_br_up_keeps; [done|by exists w1]|].
      intros _ d2 Hd2 _. by apply dkeeps_ret.
    + eapply dkeeps_bind; [by apply delete_br_byindex_spec|]. intros [] d1 Hd1 _; [by apply dkeeps_ret|].
      apply dwp_bind, dwp_bridges. eapply dkeeps_bind; [by apply delete_somewhere_keeps|].
      intros _ d2 Hd2 _. by apply dkeeps_ret.
Qed.

(** ** The one-second tick and the shutdown *)

(** A loop over bridges whose body only works on the bridge it is given. *)
Lemma dkeeps_for_each l body d : DI d → (∀ b, b ∈ l → alive d b) →
  (∀ b d', DI d' → alive d' b → dkeeps True (body b) (λ _ d'', only b d' d'' ∧ alive d'' b) d') →
  dkeeps True (dfor_each l body) (λ _ _, True) d.
Proof.
  intros Hd Hl Hbody. revert d Hd Hl. induction l as [|b l IH]; intros d Hd Hl; cbn [dfor_each].
  { by apply dkeeps_ret. }
  eapply dkeeps_bind; [apply Hbody; [done|apply Hl; by left]|].
  intros _ d1 Hd1 [[_ Ho] Hb]. apply IH; [done|]. intros j Hj.
  destruct (decide (j = b)) as [->|Hne]; [done|]. unfold alive. rewrite Ho by done. apply Hl. by right.
Qed.

Lemma dkeeps_protocol b {A} (m : M A) (P : world → Prop) d w : DI d → d_heap d !! b = Some w → P w →
  (∀ w, P w → wf_world w → keeps m w) → (∀ w d, P w → P (lend d w)) → follows same_view m →
  follows calm m → dkeeps True (in_bridge b m) (λ _ d', only b d d' ∧ alive d' b) d.
Proof.
  intros Hd Hw HP Hk Hl Hv Hc. eapply dkeeps_mono.
  { eapply dkeeps_works; [done|exact Hw|exact HP|by eapply works_protocol|].
    intros a w' Hs. apply view_step; [apply (di_bridge _ Hd _ _ Hw)|exact Hs]. }
  intros a d' _ (Hb & w' & Hh & _). split; [split; [done|]|].
  - intros j Hj. by rewrite Hh, lookup_insert_ne.
  - exists w'. by rewrite Hh, lookup_insert_eq.
Qed.

Lemma alive_bridges d b : DI d → b ∈ d_bridges d → alive d b.
Proof. intros Hd. apply (di_dom _ Hd). Qed.

Lemma bridge_one_second_keeps d : DI d → dkeeps True bridge_one_second (λ _ _, True) d.
Proof.
  intros Hd. unfold bridge_one_second. apply dwp_bind, dwp_bridges.
  apply dkeeps_for_each; [done|intros b; by apply alive_bridges|].
  intros b d' Hd' [w Hw]. apply dwp_bind. eapply dwp_read_br; [exact Hw|].
  destruct (stp_enabled (w_br w)); cbn [dwhen].
  - eapply (dkeeps_protocol b _ (λ _, True)); [done|exact Hw|done|intros; by apply keeps_one_second|done| |].
    + apply view_events.
    + apply calm_one_second.
  - apply dkeeps_ret; [done|]. split; [done|by exists w].
Qed.

(** ** Frames *)

Lemma find_port_spec idx l d : DI d → (∀ b, b ∈ l → alive d b) →
  dwp (find_port l idx) (λ r d', d' = d ∧
    ∀ b p, r = Some (b, p) → ∃ w, d_heap d !! b = Some w ∧ has_if w p idx) d.
Proof.
  intros Hd. induction l as [|b l IH]; intros Hl; cbn [find_port]; [by apply dwp_ret|].
  destruct (Hl b) as [w Hw]; [by left|]. destruct (di_bridge _ Hd _ _ Hw) as [Hwf _].
  apply dwp_bind. eapply dwp_mono; [by apply find_if_spec|]. intros [p|] d' [-> Hr].
  - apply dwp_ret. split; [done|]. intros b' p' [= <- <-]. by exists w.
  - apply IH. intros j Hj. apply Hl. by right.
Qed.

Lemma bridge_bpdu_rcv_keeps idx data len d : DI d → Forall in_u8 data →
  (Z.to_nat (sizeof_llc_header + sizeof_bpdu) <= length data)%nat →
  dkeeps True (bridge_bpdu_rcv idx data len) (λ _ _, True) d.
Proof.
  intros Hd Hu Hlen. rewrite Z2Nat.inj_add in Hlen by done.
  change (Z.to_nat sizeof_llc_header) with 17%nat in Hlen. unfold bridge_bpdu_rcv. apply dwp_bind, dwp_bridges, dwp_bind.
  eapply dwp_mono; [apply find_port_spec; [done|intros b; by apply alive_bridges]|].
  intros [[b p]|] d' [-> Hr]; [|by apply dkeeps_ret].
  destruct (Hr b p eq_refl) as (w & Hw & Hp & x & Hx & _).
  apply dwp_bind. eapply dwp_read_port; [exact Hw|exact Hx|].
  destruct (up (prt_sysdeps x)); cbn [negb]; [|by apply dkeeps_ret].
  destruct (takes_llc_header data) as (h & rest & -> & Hl1 & Hu1 & _); [lia|done|].
  destruct (llc_check h len) as [size|]; [|by apply dkeeps_ret].
  destruct (takes_get (A := bpdu_t) rest) as (bpdu & rest' & -> & _ & _ & Hb);
    [lia|done|].
  eapply dkeeps_mono; [|done].
  eapply (dkeeps_protocol b _ (λ w, p ∈ br_ports (w_br w))); [done|exact Hw|done| |done|
    apply view_events|apply calm_events].
  intros v Hv Hwf. apply keeps_safe; [done|]. intros. apply safe_MSTP_IN_rx_bpdu; [done|done|].
  by destruct Hb as (?&?&?&?&?&?&?&?&?&?&?&?&?&?&?&?&?&?&-> & _).
Qed.

Lemma packet_rcv_keeps idx cc buf d : DI d → Forall in_u8 buf → length buf = sizeof_packet_buf →
  dkeeps True (packet_rcv idx cc buf) (λ _ _, True) d.
Proof.
  intros Hd Hu Hl. unfold packet_rcv. destruct (cc <=? 0); [by apply dkeeps_ret|].
  apply bridge_bpdu_rcv_keeps; [done|done|]. rewrite Hl. by apply Nat.leb_le.
Qed.

(** ** Shutdown *)

Lemma bridge_track_fini_keeps d : DI d → dkeeps True (bridge_track_fini K) (λ _ _, True) d.
Proof.
  intros Hd. unfold bridge_track_fini. apply dwp_bind, dwp_bridges.
  apply dkeeps_for_each; [done|intros b; by apply alive_bridges|].
  intros b d' Hd' [w Hw]. eapply dkeeps_mono.
  { eapply dkeeps_works; [exact Hd'|exact Hw|apply (di_bridge _ Hd' _ _ Hw)|apply set_br_up_works|].
    intros a w' (? & ? & Hs & _). split; [done|]. split; [done|]. by rewrite Hs. }
  intros [] d1 _ (Hb & w' & Hh & _). split; [split; [done|]|].
  - intros j Hj. by rewrite Hh, lookup_insert_ne.
  - exists w'. by rewrite Hh, lookup_insert_eq.
Qed.
End events.
