(* ===== verification/Requests.v ===== *)
(** The requests of the control socket: every command keeps the invariant of the
    daemon, and the commands open to every user only read. *)
From S2P Require Import Prelude Types Monad Clib Vectors Outputs Wire Procs Bridge Mgmt Kernel Track Control.
From S2P Require Import Wf Safety Links System Frame Follows Daemon Inventory Events.

(** ** Enabling and disabling the protocol on a bridge *)

(** The protocol runs on the ports of the bridge in [l] that are up, if [e]. *)
Definition ports_set (e : bool) (l : list port_id) (w w' : world) : Prop :=
  track_br (w_br w') = track_br (w_br w) ∧
  ∀ q x', q ∈ br_ports (w_br w) → w_ports w' !! q = Some x' → ∃ x, w_ports w !! q = Some x ∧
    track_port x' = (if_index (prt_sysdeps x), up (prt_sysdeps x),
                     if bool_decide (q ∈ l) then e && up (prt_sysdeps x) else portEnabled x).

Lemma ports_set_nil e w : ports_set e [] w w.
Proof. split; [done|]. intros q x' _ Hx. by exists x'. Qed.

Lemma ports_set_cons e p l w w1 w2 : p ∈ br_ports (w_br w) → is_Some (w_ports w !! p) →
  ports_set e [p] w w1 → ports_set e l w1 w2 → ports_set e (p :: l) w w2.
Proof.
  intros Hp Hs [H1 H1'] [H2 H2']. split; [congruence|]. intros q x2 Hq Hx2.
  assert (Hq1 : q ∈ br_ports (w_br w1)) by (injection H1 as Ha _ _ _ _; by rewrite Ha).
  destruct (H2' q x2 Hq1 Hx2) as (x1 & Hx1 & E2). destruct (H1' q x1 Hq Hx1) as (x & Hx & E1).
  exists x. split; [done|]. rewrite E2. injection E1 as -> -> ->. f_equal.
  destruct (bool_decide_reflect (q ∈ l)) as [Hl|Hl].
  { by rewrite bool_decide_eq_true_2 by by right. }
  destruct (decide (q = p)) as [->|Hne].
  - by rewrite !bool_decide_eq_true_2 by by left.
  - rewrite !bool_decide_eq_false_2; [done|by intros [->|?]%elem_of_cons|
      by intros ->%list_elem_of_singleton].
Qed.

(** One call of MSTP_IN_set_port_enable. *)
Lemma ports_set_one p e s d w w' x : w_ports w !! p = Some x →
  MSTP_IN_set_port_enable p (e && up (prt_sysdeps x)) s d w = Done tt w' → ports_set e [p] w w'.
Proof.
  intros Hx (H1 & H2 & H3)%set_port_enable_track. split; [done|]. intros q y' Hq Hy'.
  destruct (bool_decide_reflect (q ∈ [p])) as [->%list_elem_of_singleton|Hn].
  - destruct (H3 x Hx) as (x' & Hx' & E). exists x. split; [done|]. by simplify_eq.
  - assert (Hne : q ≠ p) by (intros ->; apply Hn; by left). specialize (H2 q Hne).
    rewrite Hy' in H2. destruct (w_ports w !! q) as [y|]; [|done]. injection H2 as Hi Hu He.
    exists y. split; [done|]. unfold track_port. congruence.
Qed.

Lemma ports_set_works C e b p (s d : port_t → Z) :
  works C b (λ w, p ∈ br_ports (w_br w)) (λ _, ports_set e [p]) (
    prt ← read_port b p;
    in_bridge b (MSTP_IN_set_port_enable p (e && up (prt_sysdeps prt)) (s prt) (d prt))).
Proof.
  intros d0 w0 d1 w Ha Hw Hp. destruct (wf_world_port w p Hw Hp) as [x Hx].
  apply dwp_bind. eapply dwp_read_port; [by eapply At_lookup|done|].
  eapply (dwp_in_bridge C); [exact Ha|done| |intros _; apply calm_events|].
  { apply keeps_safe; [by apply wf_world_lend|]. intros. by apply safe_MSTP_IN_set_port_enable. }
  intros [] w1 d2 H1 Hw1 Ha1. exists w1. split; [done|]. split; [done|].
  by apply (ports_set_one p e (s x) (d x) (lend d1 w) w1 x).
Qed.

Lemma ports_set_loop C e b l body :
  (∀ p, works C b (λ w, p ∈ br_ports (w_br w)) (λ _, ports_set e [p]) (body p)) →
  works C b (λ w, ∀ p, p ∈ l → p ∈ br_ports (w_br w)) (λ _, ports_set e l) (dfor_each l body).
Proof.
  intros Hbody. induction l as [|p l IH]; intros d0 w0 d w Ha Hw Hl; cbn [dfor_each].
  { apply dwp_ret. exists w. split; [done|]. split; [done|]. apply ports_set_nil. }
  assert (Hp : p ∈ br_ports (w_br w)) by (apply Hl; by left).
  apply dwp_bind. eapply dwp_mono; [by eapply Hbody|]. intros [] d1 (w1 & Ha1 & Hw1 & H1).
  assert (Hports : br_ports (w_br w1) = br_ports (w_br w)) by (destruct H1 as [H1 _]; by injection H1).
  eapply dwp_mono; [eapply IH; [exact Ha1|done|]|].
  { intros q Hq. rewrite Hports. apply Hl. by right. }
  intros [] d2 (w2 & Ha2 & Hw2 & H2). exists w2. split; [done|]. split; [done|].
  eapply ports_set_cons; [done|by apply wf_world_port|done..].
Qed.

(** What is left of the bridge when the loop has been through all ports. *)
Lemma ports_set_coherent e w w' :
  ports_set e (br_ports (w_br w)) w w' → e = stp_enabled (w_br w) →
  bridgeEnabled (w_br w) = stp_enabled (w_br w) && br_up (br_sysdeps (w_br w)) → coherent w'.
Proof.
  intros [Hb Hp] -> He. injection Hb as Ha Hi Hu Hs Hen. split; [congruence|].
  rewrite Ha, Hs. intros p x' Hin Hx'. destruct (Hp p x' Hin Hx') as (x & Hx & E).
  injection E as _ Hup Hpe. rewrite bool_decide_eq_true_2 in Hpe by done. by rewrite Hpe, Hup.
Qed.

Lemma ports_set_index e l w w' : ports_set e l w w' → sub_index w w'.
Proof.
  intros [Hb Hp]. injection Hb as Ha Hi _ _ _. split; [done|].
  intros q idx [Hin (x' & Hx' & Hi')]. rewrite Ha in Hin. split; [done|].
  destruct (Hp q x' Hin Hx') as (x & Hx & E). injection E as E _ _. exists x. by rewrite <- E.
Qed.

Lemma same_ports_index w w' : br_ports (w_br w') = br_ports (w_br w) → br_idx w' = br_idx w →
  (∀ p, track_port <$> w_ports w' !! p = track_port <$> w_ports w !! p) → sub_index w w'.
Proof.
  intros Ha Hi Hp. split; [done|]. intros q idx [Hin (x' & Hx' & Hxi)]. rewrite Ha in Hin.
  split; [done|]. specialize (Hp q). rewrite Hx' in Hp. destruct (w_ports w !! q) as [x|]; [|done].
  injection Hp as Hp _ _. exists x. split; [done|]. congruence.
Qed.

Lemma set_bridge_enable_works C b e :
  works C b (λ w, C → stp_enabled (w_br w) = true)
    (λ _ w w', track_br (w_br w') = (br_ports (w_br w), br_idx w, br_up (br_sysdeps (w_br w)),
                  stp_enabled (w_br w), e) ∧
       ∀ p, track_port <$> w_ports w' !! p = track_port <$> w_ports w !! p)
    (in_bridge b (MSTP_IN_set_bridge_enable e)).
Proof.
  intros d0 w0 d w Ha Hw Hs.
  eapply (dwp_in_bridge_at C); [exact Ha|done|by apply keeps_set_bridge_enable, wf_world_lend| |].
  { intros [] w1 _ HC [Hmon _]. specialize (Hs HC). cbn in Hmon. congruence. }
  intros [] w1 d1 H1%enable_track Hw1 Ha1. by exists w1.
Qed.

Lemma clear_stp_works b :
  works True b (λ w, bridgeEnabled (w_br w) = false)
    (λ _ w w', w_br w' = w_br w <| stp_enabled := false |> ∧ w_ports w' = w_ports w)
    (in_bridge b (upd_br (λ x, x <| stp_enabled := false |>))).
Proof.
  intros d0 w0 d w Ha Hw He.
  eapply (dwp_in_bridge_at True); [exact Ha|done|by apply keeps_upd_stp, wf_world_lend| |].
  { intros [] w1 [= <-] _ _. split; [by split|]. exists []. by rewrite app_nil_r. }
  intros [] w1 d1 [= <-] Hw1 Ha1. eexists. split; [exact Ha1|]. split; [done|]. by split.
Qed.

Lemma enable_bridge_works b :
  works False b coherent (λ _ w w', coherent w' ∧ sub_index w w') (enable_bridge b).
Proof.
  intros d0 w0 d w Ha Hw Hco. unfold enable_bridge. apply dwp_bind.
  eapply dwp_read_br; [by eapply At_lookup|].
  destruct (stp_enabled (w_br w)) eqn:Hs; [by apply dwp_ret; exists w|].
  destruct Hco as [He Hp]. rewrite Hs in He. cbn in He. apply dwp_bind.
  eapply (dwp_in_bridge_at False); [exact Ha|done|by apply keeps_upd_stp, wf_world_lend|done|].
  intros [] w1 d1 [= <-] Hw1 Ha1. apply dwp_bind. set (w1 := upd_field w_br _ _) in *.
  eapply dwp_mono; [by eapply set_bridge_enable_works|]. intros [] d2 (w2 & Ha2 & Hw2 & Hb2 & Hp2).
  apply dwp_bind. eapply dwp_read_br; [by eapply At_lookup|].
  injection Hb2 as Hports2 Hidx2 Hup2 Hstp2 Hen2. cbn in Hports2, Hup2, Hstp2.
  eapply dwp_mono.
  { eapply (ports_set_loop _ true b); [|exact Ha2|done|done].
    intros p. apply (ports_set_works _ true b p (λ x, speed (prt_sysdeps x)) (λ x, duplex (prt_sysdeps x))). }
  intros [] d3 (w3 & Ha3 & Hw3 & H3). exists w3.
  split; [done|]. split; [done|]. split.
  - eapply ports_set_coherent; [exact H3|done|]. by rewrite Hstp2, Hen2, Hup2.
  - etrans; [|by eapply ports_set_index]. by apply same_ports_index.
Qed.

Lemma disable_bridge_works b :
  works True b coherent (λ _ w w', coherent w' ∧ sub_index w w' ∧ stp_enabled (w_br w') = false)
    (disable_bridge b).
Proof.
  intros d0 w0 d w Ha Hw Hco. unfold disable_bridge. apply dwp_bind.
  eapply dwp_read_br; [by eapply At_lookup|].
  destruct (stp_enabled (w_br w)) eqn:Hs; cbn [negb]; [|by apply dwp_ret; exists w].
  apply dwp_bind. eapply dwp_mono.
  { eapply (ports_set_loop _ false b); [|exact Ha|done|done]. intros p.
    intros d1 w1 d2 w2 Ha2 Hw2 Hp2. destruct (wf_world_port w2 p Hw2 Hp2) as [x Hx].
    eapply (dwp_in_bridge True); [exact Ha2|done| |intros _; apply calm_events|].
    { apply keeps_safe; [by apply wf_world_lend|]. intros. by apply safe_MSTP_IN_set_port_enable. }
    intros [] w3 d3 H3 Hw3 Ha3. exists w3. split; [done|]. split; [done|].
    by apply (ports_set_one p false 0 0 (lend d2 w2) w3 x). }
  intros [] d1 (w1 & Ha1 & Hw1 & H1). pose proof H1 as [Hb1 Hp1].
  injection Hb1 as Hports1 Hidx1 Hup1 Hstp1 Hen1. apply dwp_bind.
  eapply dwp_mono; [eapply (set_bridge_enable_works True); [exact Ha1|done|by rewrite Hstp1]|].
  intros [] d2 (w2 & Ha2 & Hw2 & Hb2 & Hp2). injection Hb2 as Hports2 Hidx2 Hup2 Hstp2 Hen2.
  eapply dwp_mono; [by eapply clear_stp_works|]. intros [] d3 (w3 & Ha3 & Hw3 & Hb3 & Hports3).
  exists w3. split; [done|]. split; [done|]. split; [split|split].
  - by rewrite Hb3.
  - rewrite Hb3, Hports3. cbn. rewrite Hports2. intros p x2 Hin Hx2.
    specialize (Hp2 p). rewrite Hx2 in Hp2. destruct (w_ports w1 !! p) as [x1|] eqn:Hx1; [|done].
    injection Hp2 as _ _ He2. rewrite Hports1 in Hin.
    destruct (Hp1 p x1 Hin Hx1) as (x & _ & E). injection E as _ _ E.
    rewrite bool_decide_eq_true_2 in E by done. congruence.
  - etrans; [by eapply ports_set_index|]. etrans; [by eapply (same_ports_index w1 w2)|].
    apply same_ports_index; [by rewrite Hb3|unfold br_idx; by rewrite Hb3|]. intros p. by rewrite Hports3.
  - by rewrite Hb3.
Qed.

(** ** The commands *)

Lemma CTL_CHECK_BRIDGE_keeps {A} idx (f : br_ptr → D (reply A)) d : DI d →
  (∀ b, alive d b → dkeeps True (f b) (λ _ _, True) d) →
  dkeeps True (CTL_CHECK_BRIDGE idx f) (λ _ _, True) d.
Proof.
  intros Hd Hf. unfold CTL_CHECK_BRIDGE. apply dwp_bind. eapply dwp_mono; [by apply find_br_spec|].
  intros [b|] d' [-> Hb]; [|by apply dkeeps_ret]. destruct Hb as (w & Hw & _). apply Hf. by exists w.
Qed.

Lemma code_keeps (m : D Z) Q d : dkeeps True m Q d → dkeeps True (code m) (λ _ _, True) d.
Proof. intros Hm. eapply dkeeps_bind; [exact Hm|]. intros. by apply dkeeps_ret. Qed.
Lemma success_keeps (m : D bool) Q d : dkeeps True m Q d → dkeeps True (success m) (λ _ _, True) d.
Proof. intros Hm. eapply dkeeps_bind; [exact Hm|]. intros. by apply dkeeps_ret. Qed.
Lemma output_keeps {A} (m : D A) Q d : dkeeps True m Q d → dkeeps True (output m) (λ _ _, True) d.
Proof. intros Hm. eapply dkeeps_bind; [exact Hm|]. intros. by apply dkeeps_ret. Qed.

(** A call into the protocol entity that leaves the view alone and is calm. *)
Definition protocol_call {A} (P : world → Prop) (m : M A) : Prop :=
  (∀ w, P w → wf_world w → keeps m w) ∧ (∀ w d, P w → P (lend d w)) ∧
  follows same_view m ∧ follows calm m.

Lemma protocol_call_keeps b {A} (m : M A) P d w : DI d → d_heap d !! b = Some w → P w →
  protocol_call P m → dkeeps True (in_bridge b m) (λ _ d', only b d d' ∧ alive d' b) d.
Proof. intros ? ? ? (? & ? & ? & ?). by eapply dkeeps_protocol. Qed.

(** Reading changes nothing. *)
Lemma follows_eq R `{!Reflexive R} {A} (m : M A) : follows eq m → follows R m.
Proof. intros Hm w a w' H. by rewrite (Hm _ _ _ H). Qed.

Lemma calm_eq {A} (m : M A) : follows eq m → follows calm m.
Proof. apply follows_eq. intros w Hw. split; [done|]. exists []. by rewrite app_nil_r. Qed.

Definition safely_reads {A} (P : world → Prop) (m : M A) : Prop :=
  follows eq m ∧ (∀ w d, P w → P (lend d w)) ∧
  ∀ w, P w → wf_bridge (w_br w) → safe (w_br w) [] (λ _, True) m.

Lemma reads_call {A} P (m : M A) : safely_reads P m → protocol_call P m.
Proof.
  intros (He & Hl & Hs). split; [|split; [done|split]].
  - intros w HP Hw. apply keeps_safe; [done|]. by apply Hs.
  - by apply follows_eq; [apply _|].
  - by apply calm_eq.
Qed.

Lemma eq_preorder : PreOrder (@eq world).
Proof. split; [done|]. by intros ? ? ? -> ->. Qed.
#[local] Existing Instance eq_preorder.

Lemma reads_root_port_name l n : follows eq (root_port_name l n).
Proof. induction l; simpl; follows_auto. Qed.
#[local] Hint Resolve reads_root_port_name : follows.

Lemma safe_root_port_name br K l n : (∀ k, k ∈ l → valid_ptp br k) →
  safe br K (λ _, True) (root_port_name l n).
Proof.
  induction l as [|k l IH]; intros Hl; cbn [root_port_name]; [safe_auto|].
  assert (Hk : valid_ptp br k) by (apply Hl; by left).
  safe_step. safe_step; [|apply IH; intros; apply Hl; by right].
  safe_step. safe_auto.
Qed.

Lemma cist_bridge_status_reads : safely_reads (λ _, True) (
  status ← MSTP_IN_get_cist_bridge_status;
  cist ← GET_CIST_TREE;
  l ← ptps_of_tree cist;
  n ← root_port_name l (cbs_root_port_id status);
  mret (status, n)).
Proof.
  split; [follows_auto|]. split; [done|]. intros w _ Hb. unfold MSTP_IN_get_cist_bridge_status.
  apply safe_seq; [safe_auto|]. intros status. safe_step. safe_step. apply safe_seq; [|intros; safe_auto].
  apply safe_root_port_name. intros k Hk. eapply valid_ptp_tree; [|done]. apply cist_in, Hb.
Qed.

Lemma msti_bridge_status_reads t : safely_reads (λ w, t ∈ br_trees (w_br w)) (
  status ← MSTP_IN_get_msti_bridge_status t;
  l ← ptps_of_tree t;
  n ← root_port_name l (mbs_root_port_id status);
  mret (status, n)).
Proof.
  split; [follows_auto|]. split; [done|]. intros w Ht Hb. unfold MSTP_IN_get_msti_bridge_status.
  apply safe_seq; [safe_auto|]. intros status. safe_step. apply safe_seq; [|intros; safe_auto].
  apply safe_root_port_name. intros k Hk. by eapply valid_ptp_tree.
Qed.

Lemma cist_port_status_reads p : safely_reads (λ w, p ∈ br_ports (w_br w)) (MSTP_IN_get_cist_port_status p).
Proof.
  split; [follows_auto|]. split; [done|]. intros w Hp Hb. unfold MSTP_IN_get_cist_port_status. safe_auto.
Qed.

Lemma msti_port_status_reads k : safely_reads (λ w, valid_ptp (w_br w) k) (MSTP_IN_get_msti_port_status k).
Proof.
  split; [follows_auto|]. split; [done|]. intros w Hk Hb. unfold MSTP_IN_get_msti_port_status. safe_auto.
Qed.

Lemma mstilist_reads : safely_reads (λ _, True) MSTP_IN_get_mstilist.
Proof. split; [follows_auto|]. split; [done|]. intros w _ Hb. unfold MSTP_IN_get_mstilist. safe_auto. Qed.

Lemma cist_port_status_call p :
  protocol_call (λ w, p ∈ br_ports (w_br w)) (MSTP_IN_get_cist_port_status p).
Proof. apply reads_call, cist_port_status_reads. Qed.
Lemma msti_port_status_call k : protocol_call (λ w, valid_ptp (w_br w) k) (MSTP_IN_get_msti_port_status k).
Proof. apply reads_call, msti_port_status_reads. Qed.

(** The set functions, with what is asked of their arguments. *)
Ltac protocol_call_step :=
  split; [|split; [done|split; [apply view_events|apply calm_events]]]; intros w Hw Hwf.

Lemma set_cist_bridge_call cfg : protocol_call (λ _, True) (MSTP_IN_set_cist_bridge_config cfg).
Proof. protocol_call_step. by apply keeps_set_cist_bridge_config. Qed.
Lemma set_msti_bridge_call t pri :
  protocol_call (λ w, t ∈ br_trees (w_br w)) (MSTP_IN_set_msti_bridge_config t pri).
Proof.
  protocol_call_step. apply keeps_safe; [done|]. intros. by apply safe_MSTP_IN_set_msti_bridge_config.
Qed.
Lemma set_cist_port_call p cfg :
  protocol_call (λ w, p ∈ br_ports (w_br w)) (MSTP_IN_set_cist_port_config p cfg).
Proof.
  protocol_call_step. apply keeps_safe; [done|]. intros. by apply safe_MSTP_IN_set_cist_port_config.
Qed.
Lemma set_msti_port_call k cfg :
  protocol_call (λ w, valid_ptp (w_br w) k) (MSTP_IN_set_msti_port_config k cfg).
Proof.
  protocol_call_step. apply keeps_safe; [done|]. intros. by apply safe_MSTP_IN_set_msti_port_config.
Qed.
Lemma port_mcheck_call p : protocol_call (λ w, p ∈ br_ports (w_br w)) (MSTP_IN_port_mcheck p).
Proof.
  protocol_call_step. apply keeps_safe; [done|]. intros. by apply safe_MSTP_IN_port_mcheck.
Qed.
Lemma create_msti_call m : protocol_call (λ _, True) (MSTP_IN_create_msti m).
Proof. protocol_call_step. by apply keeps_create_msti. Qed.
Lemma delete_msti_call m : protocol_call (λ _, True) (MSTP_IN_delete_msti m).
Proof. protocol_call_step. by apply keeps_delete_msti. Qed.
Lemma set_mstconfid_call rev n : protocol_call (λ _, True) (MSTP_IN_set_mst_config_id rev n).
Proof. protocol_call_step. by apply keeps_set_mst_config_id. Qed.
Lemma set_vid2fid_call s vid fid : length s = 64%nat → 0 <= fid →
  protocol_call (λ _, True) (MSTP_IN_set_vid2fid s vid fid).
Proof. intros. protocol_call_step. by apply keeps_set_vid2fid. Qed.
Lemma set_fid2mstid_call s fid m : length s = 64%nat → 0 <= fid →
  protocol_call (λ _, True) (MSTP_IN_set_fid2mstid s fid m).
Proof. intros. protocol_call_step. by apply keeps_set_fid2mstid. Qed.
Lemma set_vids2fids_call s l : length s = 64%nat → length l = 4095%nat → Forall (λ x, 0 <= x) l →
  protocol_call (λ _, True) (MSTP_IN_set_all_vids2fids s l).
Proof. intros. protocol_call_step. by apply keeps_set_all_vids2fids. Qed.
Lemma set_fids2mstids_call s l : length s = 64%nat → length l = 4096%nat →
  protocol_call (λ _, True) (MSTP_IN_set_all_fids2mstids s l).
Proof. intros. protocol_call_step. by apply keeps_set_all_fids2mstids. Qed.

(** *** The objects a command names *)

Lemma bridge_call_keeps b {A} (m : M A) d : DI d → alive d b → protocol_call (λ _, True) m →
  dkeeps True (in_bridge b m) (λ _ _, True) d.
Proof.
  intros Hd [w Hw] Hm. eapply dkeeps_mono; [by apply (protocol_call_keeps b m (λ _, True) d w)|done].
Qed.

Lemma CTL_CHECK_BRIDGE_PORT_keeps {A} idx pidx (f : br_ptr → port_id → D (reply A)) d : DI d →
  (∀ b p w, d_heap d !! b = Some w → p ∈ br_ports (w_br w) → dkeeps True (f b p) (λ _ _, True) d) →
  dkeeps True (CTL_CHECK_BRIDGE_PORT idx pidx f) (λ _ _, True) d.
Proof.
  intros Hd Hf. apply CTL_CHECK_BRIDGE_keeps; [done|]. intros b [w Hw].
  apply dwp_bind. eapply dwp_mono; [apply find_if_spec; [exact Hw|apply (di_bridge _ Hd _ _ Hw)]|].
  intros [p|] d' [-> Hp]; [|by apply dkeeps_ret]. eapply Hf; [exact Hw|apply Hp].
Qed.

Lemma CTL_CHECK_BRIDGE_TREE_keeps {A} idx t (f : br_ptr → tree_id → D (reply A)) d : DI d →
  (∀ b w, d_heap d !! b = Some w → t ∈ br_trees (w_br w) → dkeeps True (f b t) (λ _ _, True) d) →
  dkeeps True (CTL_CHECK_BRIDGE_TREE idx t f) (λ _ _, True) d.
Proof.
  intros Hd Hf. apply CTL_CHECK_BRIDGE_keeps; [done|]. intros b [w Hw].
  apply dwp_bind. eapply dwp_read_br; [exact Hw|].
  case_bool_decide; [by eapply Hf|by apply dkeeps_ret].
Qed.

Lemma CTL_CHECK_BRIDGE_PERTREEPORT_keeps {A} idx pidx t (f : br_ptr → ptp_id → D (reply A)) d : DI d →
  (∀ b k w, d_heap d !! b = Some w → valid_ptp (w_br w) k → dkeeps True (f b k) (λ _ _, True) d) →
  dkeeps True (CTL_CHECK_BRIDGE_PERTREEPORT idx pidx t f) (λ _ _, True) d.
Proof.
  intros Hd Hf. apply CTL_CHECK_BRIDGE_PORT_keeps; [done|]. intros b p w Hw Hp.
  destruct (di_bridge _ Hd _ _ Hw) as [[[_ Hi] _] _].
  destruct (inv_port _ _ _ Hi p Hp) as (x & Hx & Hxw).
  apply dwp_bind. eapply dwp_read_port; [exact Hw|exact Hx|].
  case_bool_decide as Ht; [|by apply dkeeps_ret].
  eapply Hf; [exact Hw|]. split; [done|]. cbn. destruct Hxw as [E _ _]. by rewrite <- E.
Qed.

(** *** Every command *)

Section commands.
Context (K : kernel) (Hstack : ∀ n, length (k_stack K n) = 64%nat).

(** Arguments as their C types allow. *)
Definition wf_IN (c : ctl_command) : IN c → Prop :=
  match c with
  | set_vid2fid => λ '(_, _, fid), 0 <= fid
  | set_fid2mstid => λ '(_, fid, _), 0 <= fid
  | set_vids2fids => λ '(_, l), length l = 4095%nat ∧ Forall (λ x, 0 <= x) l
  | set_fids2mstids => λ '(_, l), length l = 4096%nat
  | _ => λ _, True
  end.

Lemma stack_call_keeps b (m : list Z → M bool) d : DI d → alive d b →
  (∀ s, length s = 64%nat → protocol_call (λ _, True) (m s)) →
  dkeeps True (stack ← stack_buffer K; success (in_bridge b (m stack))) (λ _ _, True) d.
Proof.
  intros Hd Hb Hm. apply dkeeps_syscall_at; [done|].
  eapply success_keeps, bridge_call_keeps; [by apply DI_calls|done|apply Hm, Hstack].
Qed.

Lemma read_br_keeps b {A} (f : bridge_t → A) d : DI d → alive d b →
  dkeeps True (br ← read_br b; mret (f br)) (λ _ _, True) d.
Proof. intros Hd [w Hw]. apply dwp_bind. eapply dwp_read_br; [exact Hw|]. by apply dkeeps_ret. Qed.

(** The command calls [m] on the bridge, port, tree or per-tree port it names. *)
Ltac on_bridge H :=
  apply CTL_CHECK_BRIDGE_keeps; [done|intros ? ?];
  first [eapply output_keeps, bridge_call_keeps|eapply code_keeps, bridge_call_keeps
        |eapply success_keeps, bridge_call_keeps]; [done|done|apply H].
Ltac on_member check H :=
  apply check; [done|intros ? ? ? ? ?];
  first [eapply output_keeps, protocol_call_keeps|eapply code_keeps, protocol_call_keeps];
  [done|eassumption| |apply H]; cbv beta; eassumption.

Lemma CTL_set_keeps c x d : DI d → wf_IN c x → read_only c = false →
  dkeeps True (CTL K c x) (λ _ _, True) d.
Proof.
  intros Hd Hx Hc. destruct c; try done; cbn [CTL IN wf_IN] in *;
    repeat match goal with x : _ * _ |- _ => destruct x end; destruct_and?.
  - on_bridge set_cist_bridge_call.
  - apply CTL_CHECK_BRIDGE_TREE_keeps; [done|intros ? ? ? ?].
    eapply code_keeps, protocol_call_keeps; [done|eassumption| |apply set_msti_bridge_call]. done.
  - on_member @CTL_CHECK_BRIDGE_PORT_keeps set_cist_port_call.
  - on_member @CTL_CHECK_BRIDGE_PERTREEPORT_keeps set_msti_port_call.
  - on_member @CTL_CHECK_BRIDGE_PORT_keeps port_mcheck_call.
  - unfold CTL_set_debug_level. apply dwp_bind. unfold dwp at 1. apply dwp_ret.
    split; [by eapply DI_same; [..|exact Hd]|]. split; [intros _; by apply hands_off_same|done].
  - on_bridge create_msti_call.
  - on_bridge delete_msti_call.
  - on_bridge set_mstconfid_call.
  - apply CTL_CHECK_BRIDGE_keeps; [done|]. intros b Hb. apply stack_call_keeps; [done..|].
    intros s Hs. by apply set_vid2fid_call.
  - apply CTL_CHECK_BRIDGE_keeps; [done|]. intros b Hb. apply stack_call_keeps; [done..|].
    intros s Hs. by apply set_fid2mstid_call.
  - apply CTL_CHECK_BRIDGE_keeps; [done|]. intros b Hb. apply stack_call_keeps; [done..|].
    intros s Hs. by apply set_vids2fids_call.
  - apply CTL_CHECK_BRIDGE_keeps; [done|]. intros b Hb. apply stack_call_keeps; [done..|].
    intros s Hs. by apply set_fids2mstids_call.
Qed.

Lemma CTL_get_keeps c x d : DI d → read_only c = true → dkeeps True (CTL K c x) (λ _ _, True) d.
Proof.
  intros Hd Hc. destruct c; try done; cbn [CTL IN] in *;
    repeat match goal with x : _ * _ |- _ => destruct x end.
  - on_bridge (reads_call _ _ cist_bridge_status_reads).
  - apply CTL_CHECK_BRIDGE_TREE_keeps; [done|intros ? ? ? ?].
    eapply output_keeps, protocol_call_keeps; [done|eassumption| |
      apply (reads_call _ _ (msti_bridge_status_reads _))]. done.
  - on_member @CTL_CHECK_BRIDGE_PORT_keeps cist_port_status_call.
  - on_member @CTL_CHECK_BRIDGE_PERTREEPORT_keeps msti_port_status_call.
  - on_bridge (reads_call _ _ mstilist_reads).
  - apply CTL_CHECK_BRIDGE_keeps; [done|]. intros b Hb. by eapply output_keeps, read_br_keeps.
  - apply CTL_CHECK_BRIDGE_keeps; [done|]. intros b Hb. by eapply output_keeps, read_br_keeps.
  - apply CTL_CHECK_BRIDGE_keeps; [done|]. intros b Hb. by eapply output_keeps, read_br_keeps.
Qed.

(** *** Bridges that start and stop running the protocol *)

Lemma dkeeps_weaken (C C' : Prop) {A} (m : D A) Q d : (C' → C) → dkeeps C m Q d → dkeeps C' m Q d.
Proof.
  intros HC Hm. eapply dwp_mono; [exact Hm|]. intros a d' (? & ? & ?). split; [done|]. split; auto.
Qed.

Lemma add_bridges_keeps l d : DI d → dkeeps False (add_bridges K l) (λ _ _, True) d.
Proof.
  revert d. induction l as [|idx l IH]; intros d Hd; cbn [add_bridges]; [by apply dkeeps_ret|].
  eapply dkeeps_bind; [eapply (dkeeps_weaken True); [done|by apply find_or_create_br_spec]|].
  intros [b|] d1 Hd1 Hb; [|by apply dkeeps_ret]. destruct (Hb b eq_refl) as (w & Hw & _).
  eapply dkeeps_bind; [|intros [] d2 Hd2 _; by apply IH].
  eapply dkeeps_works; [done|exact Hw|apply (di_bridge _ Hd1 _ _ Hw)|apply enable_bridge_works|].
  by intros [] w' [? ?].
Qed.

Lemma del_bridges_keeps l d : DI d →
  dkeeps True (dfor_each l (λ idx,
    b ← find_br idx;
    match (b : option br_ptr) with None => dskip | Some b => disable_bridge b end)) (λ _ _, True) d.
Proof.
  revert d. induction l as [|idx l IH]; intros d Hd; cbn [dfor_each]; [by apply dkeeps_ret|].
  eapply (dkeeps_bind _ _ _ (λ _ _, True)); [|intros [] d1 Hd1 _; by apply IH].
  apply dwp_bind. eapply dwp_mono; [by apply find_br_spec|].
  intros [b|] d' [-> Hb]; [|by apply dkeeps_ret]. destruct Hb as (w & Hw & _).
  eapply dkeeps_mono; [|done].
  eapply dkeeps_works; [done|exact Hw|apply (di_bridge _ Hd _ _ Hw)|apply disable_bridge_works|].
  intros [] w' (? & ? & Hs). by rewrite Hs.
Qed.

(** *** The dispatch *)

Context (A : abi).

(** The structures a request carries hold values of their C types. *)
Definition abi_ok : Prop :=
  (∀ c l, wf_IN c (unpack A c l)) ∧ ∀ l, - 2 ^ 31 <= int_of_bytes A l < 2 ^ 31.
Context (HA : abi_ok).

Lemma server_message_keeps c inbuf lin lout d : DI d →
  dkeeps True (server_message_case K A c inbuf lin lout) (λ _ _, True) d.
Proof.
  intros Hd. unfold server_message_case. destruct (_ || _); [by apply dkeeps_ret|].
  eapply dkeeps_bind; [|intros r d1 Hd1 _; by apply dkeeps_ret].
  destruct (read_only c) eqn:Hc; [by apply CTL_get_keeps|]. apply CTL_set_keeps; [done|apply HA|done].
Qed.

Lemma ints_length n l : length (ints_of_bytes A n l) = n.
Proof. revert l. induction n as [|n IH]; intros l; cbn; [done|]. by rewrite IH. Qed.

Lemma u64_small x : 0 <= x < 2 ^ 63 → u64 x = x.
Proof. intros. unfold u64. apply Z.mod_small. lia. Qed.

(** The check on the size of a request covers the array it announces. *)
Lemma bridges_case_array inbuf lin exact :
  0 <= lin < 2 ^ 31 → (u64 lin <? 4) = false →
  let br_array := ints_of_bytes A (Z.to_nat (lin / 4)) inbuf in
  let size := u64 ((nth 0 br_array 0 + 1) * 4) in
  (if (exact : bool) then size ≠? u64 lin else u64 lin <? size) = false →
  is_Some (array_arguments br_array).
Proof.
  intros Hlin H4 br_array size Hsize. rewrite u64_small in H4, Hsize by lia.
  apply Z.ltb_ge in H4. assert (Hle : size <= lin).
  { destruct exact; [apply negb_false_iff, Z.eqb_eq in Hsize|apply Z.ltb_ge in Hsize]; lia. }
  assert (Hlen : length br_array = Z.to_nat (lin / 4)) by apply ints_length.
  assert (Hpos : 1 <= lin / 4) by zlia. destruct (Z.to_nat (lin / 4)) as [|n] eqn:Hn; [zlia|].
  subst br_array. cbn [ints_of_bytes] in *. set (brcount := int_of_bytes A _) in *.
  cbn [nth] in size. cbn [array_arguments]. destruct HA as [_ Hint].
  specialize (Hint (take 4 inbuf)). fold brcount in Hint.
  assert (Hb : brcount <= Z.of_nat (length (ints_of_bytes A n (drop 4 inbuf)))).
  { rewrite ints_length. destruct (Z.le_gt_cases 0 (brcount + 1)).
    - unfold size in Hle. rewrite u64_small in Hle by lia. zlia.
    - lia. }
  apply Z.leb_le in Hb. by rewrite Hb.
Qed.

Lemma bridges_case_keeps C ctl exact inbuf lin lout d : DI d → 0 <= lin < 2 ^ 31 →
  (∀ l, is_Some (array_arguments l) → dkeeps C (ctl l) (λ _ _, True) d) →
  dkeeps C (bridges_case A ctl exact inbuf lin lout) (λ _ _, True) d.
Proof.
  intros Hd Hlin Hctl. unfold bridges_case. destruct (lout ≠? 0); [by apply dkeeps_ret|].
  destruct (u64 lin <? 4) eqn:H4; [by apply dkeeps_ret|]. cbv zeta.
  destruct (if exact then _ else _) eqn:Hs; [by apply dkeeps_ret|].
  eapply dkeeps_bind; [by eapply Hctl, bridges_case_array|]. intros r d1 Hd1 _. by apply dkeeps_ret.
Qed.

Lemma CTL_add_bridges_keeps l d : DI d → is_Some (array_arguments l) →
  dkeeps False (CTL_add_bridges K l) (λ _ _, True) d.
Proof.
  intros Hd [a Ha]. unfold CTL_add_bridges. rewrite Ha. unfold success.
  eapply dkeeps_bind; [by apply add_bridges_keeps|]. intros. by apply dkeeps_ret.
Qed.
Lemma CTL_del_bridges_keeps l d : DI d → is_Some (array_arguments l) →
  dkeeps True (CTL_del_bridges l) (λ _ _, True) d.
Proof.
  intros Hd [a Ha]. unfold CTL_del_bridges. rewrite Ha.
  eapply dkeeps_bind; [by apply del_bridges_keeps|]. intros. by apply dkeeps_ret.
Qed.

Lemma handle_message_keeps cmd inbuf lin lout d : DI d → 0 <= lin < 2 ^ 31 →
  dkeeps (cmd ≠ CMD_CODE_add_bridges) (handle_message K A cmd inbuf lin lout) (λ _ _, True) d.
Proof.
  intros Hd Hlin. unfold handle_message. destruct (command_of cmd) as [c|].
  { eapply dkeeps_weaken; [|by apply server_message_keeps]. done. }
  destruct (Z.eqb_spec cmd CMD_CODE_add_bridges) as [->|Hne].
  { apply (dkeeps_weaken False); [done|]. apply bridges_case_keeps; [done..|].
    intros l. by apply CTL_add_bridges_keeps. }
  apply (dkeeps_weaken True); [done|]. destruct (cmd =? CMD_CODE_del_bridges); [|by apply dkeeps_ret].
  apply bridges_case_keeps; [done..|]. intros l. by apply CTL_del_bridges_keeps.
Qed.

(** What recvmsg() ensures of a datagram that is accepted. *)
Lemma accepted_lin m : - 2 ^ 31 <= h_lin (m_hdr m) < 2 ^ 31 → m_size m < 2 ^ 31 →
  unexpected_message m = false → 0 <= h_lin (m_hdr m).
Proof.
  intros Hl Hm. unfold unexpected_message. cbv zeta. rewrite !orb_false_iff.
  intros ((((_ & H1) & H2) & _) & _). apply Z.ltb_ge in H1. apply negb_false_iff, Z.eqb_eq in H2.
  unfold sizeof_ctl_msg_hdr in *. destruct (Z.le_gt_cases 0 (20 + h_lin (m_hdr m))).
  - rewrite u64_small in H2 by lia. lia.
  - unfold u64 in H2. exfalso. revert H2. rewrite <- (Z.mod_add _ 1) by lia.
    rewrite Z.mod_small by lia. lia.
Qed.

Definition datagram_ok (m : ctl_datagram) : Prop :=
  - 2 ^ 31 <= h_lin (m_hdr m) < 2 ^ 31 ∧ m_size m < 2 ^ 31.

Lemma ctl_rcv_handler_keeps m d : DI d → datagram_ok m → 0 <= h_lout (m_hdr m) →
  dkeeps (h_cmd (m_hdr m) ≠ CMD_CODE_add_bridges) (ctl_rcv_handler K A m) (λ _ _, True) d.
Proof.
  intros Hd [Hlin Hsize] Hout. unfold ctl_rcv_handler.
  destruct (negb _); [by apply dkeeps_ret|].
  destruct (unexpected_message m) eqn:Hm; [by apply dkeeps_ret|].
  pose proof (accepted_lin m Hlin Hsize Hm) as Hlin0. destruct (m_uid m) as [uid|]; [|by apply dkeeps_ret].
  cbv zeta. set (h := m_hdr m) in *. set (cmd := h_cmd h).
  assert (Hhandle : ∀ d, DI d → dkeeps (cmd ≠ CMD_CODE_add_bridges)
    (handle_message K A cmd (m_inbuf m) (h_lin h) (h_lout h)) (λ _ _, True) d)
    by (intros; apply handle_message_keeps; [done|lia]).
  eapply (dkeeps_bind _ _ _ (λ _ _, True)).
  { destruct (ctl_access_ok uid cmd); [|by apply dkeeps_ret].
    destruct (negb (later cmd)); [by apply Hhandle|by apply dkeeps_ret]. }
  intros r d1 Hd1 _. eapply (dkeeps_bind _ _ _ (λ _ _, True)).
  { destruct r as [e|o]; [|by apply dkeeps_ret]. destruct (e <? 0); [|by apply dkeeps_ret].
    cbn [dwhen]. unfold clear_outbuf.
    assert (Hb : u64 (h_lout h) <= MSG_BUF_LEN).
    { unfold unexpected_message in Hm. rewrite !orb_false_iff in Hm.
      destruct Hm as ((_ & H1) & _). apply Z.ltb_ge in H1. fold h in H1.
      rewrite u64_small; [done|]. unfold MSG_BUF_LEN in H1. lia. }
    apply Z.leb_le in Hb. rewrite Hb. by apply dkeeps_ret. }
  intros _ d2 Hd2 _. eapply (dkeeps_bind _ _ _ (λ _ _, True)); [|intros [] d3 Hd3 _; by apply dkeeps_ret].
  destruct (_ && _); [|by apply dkeeps_ret].
  eapply dkeeps_bind; [by apply Hhandle|]. intros. by apply dkeeps_ret.
Qed.
End commands.
