(* ===== verification/Service.v ===== *)
(** The daemon as its environment sees it: the events its descriptors deliver, in any
    order, and what holds whatever they are. *)
From S2P Require Import Prelude Types Monad Clib Vectors Outputs Wire Procs Bridge Mgmt Kernel Track Control.
From S2P Require Import Wf Safety Links System Frame Follows Daemon Inventory Events Requests.

(** ** The events of the main loop *)

Inductive daemon_input :=
| Netlink (br_index if_index : Z) (newlink : bool) (flags : Z)
| Frame (if_index cc : Z) (buf : list Z)
| Tick
| Request (m : ctl_datagram)
| Stop.

Section service.
Context (K : kernel) (A : abi).

Definition serve (i : daemon_input) : D unit :=
  match i with
  | Netlink br idx newlink flags => bridge_notify K br idx newlink flags ;; dskip
  | Frame idx cc buf => packet_rcv idx cc buf
  | Tick => bridge_one_second
  | Request m => ctl_rcv_handler K A m ;; dskip
  | Stop => bridge_track_fini K
  end.

(** What the kernel guarantees of what it delivers, and a length of the answer that is
    not negative. *)
Definition input_ok (i : daemon_input) : Prop :=
  match i with
  | Frame _ _ buf => length buf = sizeof_packet_buf ∧ Forall in_u8 buf
  | Request m => datagram_ok m ∧ 0 <= h_lout (m_hdr m)
  | _ => True
  end.

(** A request to run the protocol on bridges. *)
Definition starts_bridges (i : daemon_input) : Prop :=
  match i with Request m => h_cmd (m_hdr m) = CMD_CODE_add_bridges | _ => False end.

Definition new_daemon : daemon := mk_daemon ∅ [] [] [] [] 0 0.

(** The clock, the allocator and the system calls answer as they like. *)
Inductive reachable_daemon : daemon → Prop :=
| rd_start log_level : reachable_daemon (new_daemon <| d_log_level := log_level |>)
| rd_environment d clock calloc calls : reachable_daemon d →
    reachable_daemon (d <| d_clock := clock |> <| d_calloc := calloc |> <| d_calls := calls |>)
| rd_step d i d' : reachable_daemon d → input_ok i → serve i d = DDone tt d' → reachable_daemon d'.

Context (Hstack : ∀ n, length (k_stack K n) = 64%nat) (HA : abi_ok A).

Lemma serve_keeps i d : DI d → input_ok i → dkeeps (¬ starts_bridges i) (serve i) (λ _ _, True) d.
Proof.
  intros Hd Hi. destruct i; cbn [serve input_ok starts_bridges] in *.
  - eapply (dkeeps_weaken True); [done|]. eapply dkeeps_bind; [by apply bridge_notify_keeps|].
    intros. by apply dkeeps_ret.
  - destruct Hi. eapply (dkeeps_weaken True); [done|]. by apply packet_rcv_keeps.
  - eapply (dkeeps_weaken True); [done|]. by apply bridge_one_second_keeps.
  - destruct Hi. eapply dkeeps_bind; [by apply ctl_rcv_handler_keeps|]. intros. by apply dkeeps_ret.
  - eapply (dkeeps_weaken True); [done|]. by apply bridge_track_fini_keeps.
Qed.

Lemma DI_new : DI new_daemon.
Proof.
  split; cbn.
  - constructor.
  - intros b. rewrite lookup_empty. split; [by intros ?%elem_of_nil|by intros []].
  - intros b w. by rewrite lookup_empty.
  - intros b1 b2 w1 w2. by rewrite lookup_empty.
  - intros b1 b2 w1 w2 p1 p2 idx. by rewrite lookup_empty.
Qed.

Lemma reachable_DI d : reachable_daemon d → DI d.
Proof.
  induction 1 as [l|d clock calloc calls _ IH|d i d' _ IH Hi Hs]; [by eapply DI_same; [..|exact DI_new]|by eapply DI_same; [..|exact IH]|].
  pose proof (serve_keeps i d IH Hi) as Hk. by eapply dwp_Done in Hk as [? _].
Qed.

(** C1: In every state of the daemon that a sequence of events can lead to, no event
    dereferences an invalid pointer or indexes an array out of its bounds. Of the events
    before and of this one it is assumed that a frame comes in a receive buffer of its
    size, that the sizes of a request are ints, and that the size of the answer a request
    announces is not negative (with a negative one there is a fault,
    [negative_answer_size_faults]). *)
Theorem daemon_no_fault d i : reachable_daemon d → input_ok i → serve i d ≠ DFault.
Proof.
  intros Hd%reachable_DI Hi He. pose proof (serve_keeps i d Hd Hi) as Hk.
  unfold dkeeps, dwp in Hk. by rewrite He in Hk.
Qed.

(** C4: In a reachable daemon the list of bridges has no duplicates and names exactly the
    bridges that are allocated. Every bridge satisfies the representation invariant; the
    protocol is enabled on a bridge, and on a port of it, exactly when the bridge is one
    that runs it and the interface is up. A bridge index belongs to one bridge, and an
    interface index to one port of one bridge. *)
Theorem daemon_invariant d : reachable_daemon d →
  NoDup (d_bridges d) ∧ (∀ b, b ∈ d_bridges d ↔ is_Some (d_heap d !! b)) ∧
  ∀ b w, d_heap d !! b = Some w → wf_world w ∧
    bridgeEnabled (w_br w) = stp_enabled (w_br w) && br_up (br_sysdeps (w_br w)) ∧
    (∀ p, p ∈ br_ports (w_br w) → ∃ x, w_ports w !! p = Some x ∧
       portEnabled x = stp_enabled (w_br w) && up (prt_sysdeps x)) ∧
    ∀ b' w', d_heap d !! b' = Some w' →
      (br_idx w' = br_idx w → b' = b) ∧
      ∀ p p' idx, has_if w p idx → has_if w' p' idx → b' = b ∧ p' = p.
Proof.
  intros Hd%reachable_DI. split; [apply Hd|]. split; [apply Hd|]. intros b w Hw.
  destruct (di_bridge _ Hd _ _ Hw) as [Hwf [Hb Hp]]. repeat (split; [done|]). split.
  - intros p Hin. destruct (wf_world_port w p Hwf Hin) as [x Hx]. exists x. eauto.
  - intros b' w' Hw'. split; [intros He; by eapply di_br_idx|].
    intros p p' idx H1 H2. by destruct (di_if _ Hd _ _ _ _ _ _ _ Hw Hw' H1 H2) as [-> ->].
Qed.

(** C7: Only a request to run the protocol makes a bridge run it; and a bridge on which the
    protocol does not run takes no action, in any event, but to shut ports down. *)
Theorem monitoring_is_passive d i d' :
  reachable_daemon d → input_ok i → ¬ starts_bridges i → serve i d = DDone tt d' →
  (∀ b, runs_stp d' b → runs_stp d b) ∧
  ∃ new, d_out d' = d_out d ++ new ∧
    ∀ b e, (b, e) ∈ new → is_shutdown e = true ∨ runs_stp d b.
Proof.
  intros Hd%reachable_DI Hi Hn Hs. pose proof (serve_keeps i d Hd Hi) as Hk.
  eapply dwp_Done in Hk as (_ & Hh & _); [|exact Hs]. by apply Hh.
Qed.
End service.

(** ** Users

    What a command that only reads leaves alone: everything but the copy of the
    daemon's clock, allocator and actions that is lent to a bridge during a call. *)
Definition bare (w : world) : world := w <| w_out := [] |> <| w_clock := [] |> <| w_calloc := [] |>.
Definition same_daemon (d d' : daemon) : Prop :=
  d_bridges d' = d_bridges d ∧ d_out d' = d_out d ∧ d_log_level d' = d_log_level d ∧
  d_clock d' = d_clock d ∧ d_calloc d' = d_calloc d ∧
  ∀ b, bare <$> d_heap d' !! b = bare <$> d_heap d !! b.

#[export] Instance same_daemon_preorder : PreOrder same_daemon.
Proof.
  split; [by repeat split|].
  intros d1 d2 d3 (?&?&?&?&?&Hh) (?&?&?&?&?&Hh'). repeat (split; [congruence|]).
  intros b. by rewrite Hh', Hh.
Qed.

(** The call returns, and leaves the daemon alone, or faults; it does not recurse without end. *)
Definition harmless {A} (m : D A) : Prop := ∀ d,
  match m d with DDone _ d' => same_daemon d d' | DFault => True | DOutOfFuel => False end.

(** A computation on a bridge that does not recurse without end. *)
Definition halts {A} (m : M A) : Prop := ∀ w, m w ≠ OutOfFuel.

Lemma halts_ret {A} (a : A) : halts (mret a).
Proof. by intros w. Qed.
Lemma halts_bind {A B} (m : M A) (f : A → M B) : halts m → (∀ a, halts (f a)) → halts (m ≫= f).
Proof. intros Hm Hf w. unfold mbind, M_bind. specialize (Hm w). by destruct (m w) as [a w'| |]; [apply Hf|..]. Qed.
Lemma halts_of_option {A} (o : option A) : halts (of_option o).
Proof. by destruct o. Qed.
Lemma halts_get_br : halts get_br.
Proof. done. Qed.
Lemma halts_get_tree t : halts (get_tree t).
Proof. intros w. apply halts_of_option. Qed.
Lemma halts_get_port p : halts (get_port p).
Proof. intros w. apply halts_of_option. Qed.
Lemma halts_get_ptp k : halts (get_ptp k).
Proof. intros w. apply halts_of_option. Qed.
Create HintDb halts discriminated.
#[local] Hint Constants Opaque : halts.
#[export] Hint Resolve halts_ret halts_of_option halts_get_br halts_get_tree halts_get_port halts_get_ptp : halts.
Ltac halts_step :=
  lazymatch goal with
  | |- halts (let _ := _ in _) => cbv zeta
  | |- halts (_ ≫= _) => apply halts_bind; [|intros ?]
  | _ => first
      [ solve [auto with halts]
      | lazymatch goal with
        | |- halts (match ?x with _ => _ end) => destruct x
        | |- halts ?m => let h := head_of m in unfold h
        end ]
  end.
Ltac halts_auto := repeat halts_step.

Lemma halts_root_port_name l n : halts (root_port_name l n).
Proof. induction l; cbn [root_port_name]; halts_auto. Qed.
#[export] Hint Resolve halts_root_port_name : halts.

Lemma harmless_ret {A} (a : A) : harmless (mret a).
Proof. by intros d. Qed.
Lemma harmless_bind {A B} (m : D A) (f : A → D B) : harmless m → (∀ a, harmless (f a)) → harmless (m ≫= f).
Proof.
  intros Hm Hf d. unfold mbind, D_bind. specialize (Hm d). destruct (m d) as [a d1| |]; [|done|done].
  specialize (Hf a d1). destruct (f a d1) as [b d2| |]; [|done|done]. by etrans.
Qed.
Lemma harmless_dwhen b m : harmless m → harmless (dwhen b m).
Proof. destruct b; [done|]. intros _. apply harmless_ret. Qed.
Lemma harmless_read_br b : harmless (read_br b).
Proof. intros d. unfold read_br. by destruct (_ !! _). Qed.
Lemma harmless_read_port b p : harmless (read_port b p).
Proof. intros d. unfold read_port. destruct (_ !! b); [|done]. by destruct (_ !! p). Qed.
Lemma harmless_bridges : harmless bridges.
Proof. by intros d. Qed.
Lemma harmless_dfind {A} (l : list A) body : (∀ x, harmless (body x)) → harmless (dfind l body).
Proof.
  intros Hb. induction l as [|x l IH]; cbn [dfind]; [apply harmless_ret|].
  apply harmless_bind; [done|]. intros []; [apply harmless_ret|done].
Qed.
Lemma harmless_in_bridge b {A} (m : M A) : follows eq m → halts m → harmless (in_bridge b m).
Proof.
  intros Hm Hf d. unfold in_bridge. destruct (d_heap d !! b) as [w|] eqn:Hw; [|done].
  specialize (Hf (lend d w)). destruct (m (lend d w)) as [c w'| |] eqn:He; [|done|done]. apply Hm in He as <-.
  split; [done|]. split; [cbn; by rewrite app_nil_r|]. repeat (split; [done|]). intros j. cbn.
  destruct (decide (j = b)) as [->|]; [|by rewrite lookup_insert_ne].
  by rewrite lookup_insert_eq, Hw.
Qed.

Create HintDb harmless discriminated.
#[local] Hint Constants Opaque : harmless.
#[export] Hint Resolve harmless_ret harmless_read_br harmless_read_port harmless_bridges : harmless.
Ltac harmless_step :=
  lazymatch goal with
  | |- harmless (let _ := _ in _) => cbv zeta
  | |- harmless (_ ≫= _) => apply harmless_bind; [|intros ?]
  | |- harmless (dfind _ _) => apply harmless_dfind; intros ?
  | |- harmless (in_bridge _ _) => apply harmless_in_bridge; [first [apply cist_bridge_status_reads
      | apply msti_bridge_status_reads | apply cist_port_status_reads
      | apply msti_port_status_reads | apply mstilist_reads ]|halts_auto]
  | _ => first
      [ solve [auto with harmless]
      | lazymatch goal with
        | |- harmless (match ?x with _ => _ end) => destruct x
        | |- harmless ?m => let h := head_of m in unfold h
        end ]
  end.
Ltac harmless_auto := repeat harmless_step.

Section access.
Context (K : kernel) (A : abi).

Lemma harmless_get_command c x : read_only c = true → harmless (CTL K c x).
Proof.
  intros Hc. destruct c; try done; cbn [CTL IN] in *;
    repeat match goal with x : _ * _ |- _ => destruct x end; harmless_auto.
Qed.

Lemma harmless_clear lout : harmless (clear_outbuf lout).
Proof. unfold clear_outbuf. destruct (_ <=? _); [apply harmless_ret|]. by intros d. Qed.

Lemma harmless_server_case c inbuf lin lout : read_only c = true → harmless (server_message_case K A c inbuf lin lout).
Proof.
  intros Hc. unfold server_message_case. destruct (_ || _); [apply harmless_ret|].
  apply harmless_bind; [by apply harmless_get_command|intros; apply harmless_ret].
Qed.

Lemma harmless_user_request m : m_uid m ≠ Some 0 → harmless (ctl_rcv_handler K A m).
Proof.
  intros Hu. unfold ctl_rcv_handler.
  destruct (negb _); [apply harmless_ret|]. destruct (unexpected_message m); [apply harmless_ret|].
  destruct (m_uid m) as [uid|]; [|apply harmless_ret]. cbv zeta.
  assert (Huid : (uid =? 0) = false) by (apply Z.eqb_neq; congruence).
  unfold ctl_access_ok, handle_message. rewrite Huid.
  assert (Hdenied : harmless (A := option (reply (list Z))) (
    dwhen (-1 <? 0) (clear_outbuf (h_lout (m_hdr m))) ;; dskip ;; mret (Some (inl (-1)))))
    by repeat first [apply harmless_bind; [|intros ?]|apply harmless_ret|apply harmless_clear].
  destruct (command_of (h_cmd (m_hdr m))) as [c|]; [|exact Hdenied].
  destruct (read_only c) eqn:Hc; [|exact Hdenied].
  repeat first [apply harmless_bind; [|intros ?]|apply harmless_ret].
  - destruct (negb _); [by apply harmless_server_case|apply harmless_ret].
  - destruct a; [apply harmless_dwhen, harmless_clear|apply harmless_ret].
  - destruct (_ && _); [|apply harmless_ret].
    apply harmless_bind; [by apply harmless_server_case|intros; apply harmless_ret].
Qed.

(** C12: A request of a user who is not root, whatever the command, has no effect on a
    reachable daemon: the request is served to the end, and the state of every bridge, the
    list of bridges and the actions taken are those before it. The exception is a request
    that announces a negative size of the answer, which may fault
    ([negative_answer_size_faults]). *)
Theorem requests_of_users_are_harmless m d :
  (∀ n, length (k_stack K n) = 64%nat) → abi_ok A → reachable_daemon K A d → datagram_ok m → m_uid m ≠ Some 0 →
  match ctl_rcv_handler K A m d with
  | DDone _ d' => same_daemon d d'
  | DFault => h_lout (m_hdr m) < 0
  | DOutOfFuel => False
  end.
Proof.
  intros Hstack HA Hd Hm Hu. pose proof (harmless_user_request m Hu d) as Hh.
  destruct (ctl_rcv_handler K A m d) as [r d'| |] eqn:He; [done| |done].
  destruct (Z.lt_ge_cases (h_lout (m_hdr m)) 0); [done|].
  pose proof (serve_keeps K A Hstack HA (Request m) d (reachable_DI K A Hstack HA d Hd) (conj Hm H)) as Hk.
  unfold dkeeps, dwp, serve, mbind, D_bind in Hk. by rewrite He in Hk.
Qed.

(** C19: A request whose declared size of the answer is negative passes the checks of
    ctl_rcv_handler; when it fails, as that of any user does who asks for a change, the
    size is the count of a memset, and the daemon faults. *)
Theorem negative_answer_size_faults m uid d :
  0 < m_size m → unexpected_message m = false → m_uid m = Some uid →
  ctl_access_ok uid (h_cmd (m_hdr m)) = false → - 2 ^ 31 <= h_lout (m_hdr m) < 0 →
  ctl_rcv_handler K A m d = DFault.
Proof.
  intros Hs Hm Hu Ha Hl. unfold ctl_rcv_handler. destruct (Z.ltb_spec 0 (m_size m)); [|lia].
  rewrite Hm, Hu. cbn [negb]. cbv zeta. rewrite Ha.
  change (mret ?x ≫= ?f) with (f x). cbv beta iota. cbn [Z.ltb Z.compare dwhen]. unfold mbind at 1, D_bind.
  unfold clear_outbuf, u64, MSG_BUF_LEN.
  rewrite <- (Z.mod_add _ 1), Z.mod_small by lia.
  destruct (Z.leb_spec (h_lout (m_hdr m) + 1 * 2 ^ 64) 10000); [lia|done].
Qed.
End access.

(** ** Frames between two bridges *)

Lemma get_llc_header_app h rest :
  length (dest_addr h) = ETH_ALEN → length (src_addr h) = ETH_ALEN → in_u16 (h_len8023 h) →
  in_u8 (d_sap h) → in_u8 (s_sap h) → in_u8 (llc_ctrl h) →
  get_llc_header (put_llc_header h ++ rest) = Some (h, rest).
Proof.
  destruct h as [dst src l d s c]. cbn [dest_addr src_addr h_len8023 d_sap s_sap llc_ctrl]. intros.
  unfold get_llc_header, put_llc_header. cbn [dest_addr src_addr h_len8023 d_sap s_sap llc_ctrl].
  repeat get_member. done.
Qed.

Lemma llc_check_sent src size cc :
  0 <= size <= 1497 → sizeof_llc_header + size <= cc <= 2048 →
  llc_check (mk_llc_header bridge_group_address src (size + LLC_PDU_LEN_U) LLC_SAP_BSPAN LLC_SAP_BSPAN
    LLC_PDU_TYPE_U) cc = Some size ∨ size = 0 ∧ cc = sizeof_llc_header.
Proof.
  intros Hs Hcc. unfold sizeof_llc_header, LLC_PDU_LEN_U in *.
  destruct (decide (cc = 17)) as [->|]; [right; lia|left]. unfold llc_check, sizeof_llc_header, LLC_PDU_LEN_U.
  cbn [dest_addr h_len8023 d_sap s_sap llc_ctrl]. rewrite u64_small by lia.
  destruct (Z.ltb_spec 17 cc); [|lia]. cbn [negb]. rewrite memcmp_refl. cbn [Z.eqb negb].
  unfold ETH_HLEN, ETH_DATA_LEN, u32. rewrite Z.mod_small by lia.
  destruct (Z.leb_spec (size + 3) 1500); [|lia]. destruct (Z.leb_spec (size + 3) (cc - 14)); [|lia].
  destruct (Z.leb_spec 3 (size + 3)); [|lia]. cbn -[Z.sub]. f_equal. lia.
Qed.

(** The search for the port ends, and finds it. *)
Lemma dfind_ends {A} (l : list A) body d : (∀ x, x ∈ l → ∃ r, body x d = DDone r d) →
  ∃ r, dfind l body d = DDone r d.
Proof.
  induction l as [|x l IH]; intros Hb; cbn [dfind]; [by eexists|].
  destruct (Hb x) as [r Hr]; [by left|]. unfold mbind, D_bind. rewrite Hr.
  destruct r; [by eexists|]. apply IH. intros y Hy. apply Hb. by right.
Qed.

Lemma find_if_ends b w idx d : d_heap d !! b = Some w → wf_world w → ∃ r, find_if b idx d = DDone r d.
Proof.
  intros Hb Hw. unfold find_if, mbind, D_bind, read_br. rewrite Hb. apply dfind_ends.
  intros p Hp. destruct (wf_world_port w p Hw Hp) as [x Hx]. unfold mbind, D_bind, read_port.
  rewrite Hb, Hx. by eexists.
Qed.

Lemma find_port_found d idx b w p : DI d → d_heap d !! b = Some w → has_if w p idx →
  find_port (d_bridges d) idx d = DDone (Some (b, p)) d.
Proof.
  intros Hd Hw Hp. assert (Hin : b ∈ d_bridges d) by (apply (di_dom _ Hd); by exists w).
  assert (Hall : ∀ j, j ∈ d_bridges d → is_Some (d_heap d !! j)) by (intros j; apply (di_dom _ Hd)).
  revert Hin Hall. generalize (d_bridges d). intros l. induction l as [|j l IH]; intros Hin Hall.
  { by apply elem_of_nil in Hin. }
  destruct (Hall j) as [v Hv]; [by left|]. destruct (di_bridge _ Hd _ _ Hv) as [Hwf _].
  destruct (find_if_ends j v idx d Hv Hwf) as [r Hr]. pose proof (find_if_spec j v idx d Hv Hwf) as Hs.
  cbn [find_port]. unfold mbind, D_bind. rewrite Hr. eapply dwp_Done in Hs as [_ Hs]; [|exact Hr].
  destruct r as [q|].
  - by destruct (di_if _ Hd _ _ _ _ _ _ _ Hw Hv Hp Hs) as [-> ->].
  - apply IH; [|intros i Hi; apply Hall; by right]. apply elem_of_cons in Hin as [->|]; [|done].
    rewrite Hw in Hv. injection Hv as ->. by destruct (Hs p).
Qed.

(** C13: A BPDU that one bridge sends arrives at the other: the daemon hands the octets it
    was sent, with their number, to the port of the interface the frame came in on. *)
Theorem sent_frame_received d idx b w p x src m size junk cc :
  DI d → d_heap d !! b = Some w → has_if w p idx → w_ports w !! p = Some x →
  up (prt_sysdeps x) = true →
  length src = ETH_ALEN → wf_bpdu m → 0 < size <= sizeof_bpdu →
  Forall in_u8 (put m ++ junk) → (Z.to_nat sizeof_bpdu <= Z.to_nat size + length junk)%nat →
  sizeof_llc_header + size <= cc <= 2048 →
  ∃ m', take (Z.to_nat size) (put m') = take (Z.to_nat size) (put m) ∧
    bridge_bpdu_rcv idx (sent_frame src (size + LLC_PDU_LEN_U) m size ++ junk) cc d =
    in_bridge b (MSTP_IN_rx_bpdu p m' size) d.
Proof.
  intros Hd Hw Hp Hx Hup Hsrc Hm Hsize Hu Hlen Hcc.
  assert (Hszb : sizeof_bpdu = 1126) by reflexivity.
  pose proof (put_length (n := Z.to_nat sizeof_bpdu) m Hm) as Hput.
  apply Forall_app in Hu as [Hu Hj].
  assert (Hall : Forall in_u8 (take (Z.to_nat size) (put m) ++ junk))
    by (apply Forall_app; split; [by apply Forall_take|done]).
  destruct (takes_get (A := bpdu_t) (take (Z.to_nat size) (put m) ++ junk)) as (m' & rest & Hget & _ & _ & Hm').
  { rewrite length_app, length_take. lia. }
  { exact Hall. }
  exists m'. split.
  - destruct (reads_back_get (A := bpdu_t) _ _ _ Hget Hall) as [Heq _].
    pose proof (put_length (n := Z.to_nat sizeof_bpdu) m' Hm') as Hput'.
    apply (f_equal (take (Z.to_nat size))) in Heq.
    rewrite take_app_length' in Heq by (rewrite length_take; lia).
    rewrite Heq. symmetry. apply take_app_le. lia.
  - unfold bridge_bpdu_rcv, mbind at 1, D_bind, bridges.
    unfold mbind at 1, D_bind. rewrite (find_port_found d idx b w p Hd Hw Hp).
    unfold mbind at 1, D_bind, read_port. rewrite Hw, Hx, Hup. cbn [negb].
    unfold sent_frame. rewrite <- app_assoc, get_llc_header_app; cbn [dest_addr src_addr h_len8023 d_sap s_sap llc_ctrl];
      [|done|done|unfold in_u16, LLC_PDU_LEN_U; lia|done..].
    destruct (llc_check_sent src size cc) as [-> |[? ?]]; [lia|done| |lia].
    by rewrite Hget.
Qed.
