(* ===== verification/Scenario.v ===== *)
(** A run of the daemon: a kernel with the bridge br0 (index 1) and the interface eth0
    (index 2).  It shows that the hypotheses of the theorems on the daemon can hold. *)
From S2P Require Import Prelude Types Monad Clib Md5 Vectors Outputs Wire Procs Bridge Mgmt Kernel Track Control.
From S2P Require Import Wf Safety Links System Sample Frame Follows Daemon Inventory Events Requests Service.

Definition scene_kernel : kernel := {|
  if_indextoname _ idx := Some (if idx =? 1 then "br0"%string else "eth0"%string);
  SIOCGIFHWADDR _ _ := Some sample_mac;
  SIOCGIFFLAGS _ _ := Some (IFF_UP + IFF_RUNNING);
  SIOCETHTOOL _ _ := Some (1000, 1);
  sysfs_read _ _ := Some (print_0x 1 ++ [10]);
  sysfs_access _ _ := true;
  k_stack _ := sample_stack
|}.

(** Little-endian structures without padding, enough to read the requests. *)
Definition le_value (l : list Z) : Z := be_value (rev l).
Definition u16s (n : nat) (l : list Z) : list Z :=
  map (λ i, u16 (le_value (take 2 (drop (2 * i) l)))) (seq 0 n).
Definition int_at (l : list Z) (off : nat) : Z := s32 (le_value (take 4 (drop off l))).
Definition scene_abi : abi := {|
  sizeof_IN c := match c with set_vids2fids => 4 + 2 * 4095 | set_fids2mstids => 4 + 2 * 4096 | _ => 16 end;
  sizeof_OUT c := 0;
  unpack c l := match c with
    | get_cist_bridge_status | get_mstilist | get_mstconfid | get_vids2fids
    | get_fids2mstids | set_debug_level => int_at l 0
    | get_msti_bridge_status | get_cist_port_status | port_mcheck | create_msti
    | delete_msti => (int_at l 0, int_at l 4)
    | get_msti_port_status | set_msti_bridge_config => (int_at l 0, int_at l 4, int_at l 8)
    | set_vid2fid | set_fid2mstid => (int_at l 0, u16 (int_at l 4), u16 (int_at l 8))
    | set_cist_bridge_config => (int_at l 0, mk_CIST_BridgeConfig None None None None None None None)
    | set_cist_port_config => (int_at l 0, int_at l 4, mk_CIST_PortConfig None None None None None None None None None None)
    | set_msti_port_config => (int_at l 0, int_at l 4, int_at l 8, mk_MSTI_PortConfig None None)
    | set_mstconfid => (int_at l 0, int_at l 4, l)
    | set_vids2fids => (int_at l 0, u16s 4095 (drop 4 l))
    | set_fids2mstids => (int_at l 0, u16s 4096 (drop 4 l))
    end;
  pack c o := [];
  int_of_bytes l := s32 (le_value l)
|}.

Lemma scene_stack n : length (k_stack scene_kernel n) = 64%nat.
Proof. reflexivity. Qed.

Lemma u16s_ok n l : length (u16s n l) = n ∧ Forall (λ x, 0 <= x) (u16s n l).
Proof.
  unfold u16s. split; [by rewrite length_map, length_seq|].
  apply Forall_forall. intros x (i & -> & _)%list_elem_of_fmap. by apply Z.mod_pos_bound.
Qed.

Lemma scene_abi_ok : abi_ok scene_abi.
Proof.
  split.
  - intros c l. destruct c; cbn [wf_IN scene_abi unpack];
      first [done|by apply Z.mod_pos_bound|apply u16s_ok].
  - intros l. cbn. unfold s32. pose proof (Z.mod_pos_bound (le_value l + 2 ^ 31) (2 ^ 32)). lia.
Qed.

(** ** The bridge appears *)

Definition dresult {A} (m : D A) (d : daemon) : daemon := match m d with DDone _ d' => d' | _ => d end.
Definition dreturns {A} (m : D A) (d : daemon) : bool := match m d with DDone _ _ => true | _ => false end.

Lemma dreturns_result (m : D unit) d : dreturns m d = true → m d = DDone tt (dresult m d).
Proof. unfold dreturns, dresult. by destruct (m d) as [[] d'| |]. Qed.

Definition scene_sysdeps : sysdep_br_data_t := br_sysdeps zero_bridge
  <| br_if_index := 1 |> <| br_name := "br0"%string |> <| br_macaddr := sample_mac |>.
Definition scene_new (d : list Z) : world :=
  mk_world (with_digest d (sample_new_br <| br_sysdeps := scene_sysdeps |>) <| br_trees := [0] |>)
    {[0 := created_tree sample_new_br sample_mac 0]} ∅ ∅ [] [] [].

Lemma scene_create : ∃ d, MSTP_IN_bridge_create sample_stack sample_mac
  (blank_world <| w_br ::= λ br, br <| br_sysdeps := scene_sysdeps |> |>) = Done true (scene_new d).
Proof.
  set (f := λ br : bridge_t, br
    <| br_ports := [] |> <| br_trees := [] |> <| bridgeEnabled := false |>
    <| vid2fid := replicate (Z.to_nat (MAX_VID + 1)) 0 |>
    <| fid2mstid := replicate (Z.to_nat (MAX_FID + 1)) 0 |>
    <| MstConfigId ::= λ c, c <| selector := 0 |>
                              <| configuration_name ::= sprintf_mac sample_mac |>
                              <| revision_level := 0 |> |>).
  set (w0 := blank_world <| w_br ::= _ |>). set (w1 := w0 <| w_br ::= f |>).
  destruct (vid2mstid_table_Some (with_trees (w_br w1) [0])) as (table & Ht & Hlen);
    [by apply wf_maps_initial|].
  rewrite vid2mstid_table_with_trees in Ht.
  destruct (wp_returns _ _ _ (RecalcConfigDigest_spec sample_stack table w1 eq_refl Ht Hlen))
    as ([] & w2 & H2 & d & -> & _).
  exists d. unfold MSTP_IN_bridge_create. rewrite (bind_Done _ _ w0 tt w1) by reflexivity.
  rewrite (bind_Done _ _ _ _ _ H2). reflexivity.
Qed.

Definition scene_start (d : list Z) : daemon := mk_daemon {[1%nat := scene_new d]} [1%nat] [] [] [] 3 0.

Lemma dbind_Done {A B} (m : D A) (f : A → D B) d a d1 : m d = DDone a d1 → (m ≫= f) d = f a d1.
Proof. intros H. unfold mbind, D_bind. by rewrite H. Qed.

(** The bridge under construction, after [n] system calls. *)
Definition scene_building (s : sysdep_br_data_t) (n : nat) : daemon :=
  mk_daemon {[1%nat := blank_world <| w_br ::= λ br, br <| br_sysdeps := s |> |>]} [] [] [] [] n 0.
Definition scene_begun : daemon := scene_building scene_sysdeps 3.

Lemma building_upd s f n : upd_br_sysdeps 1%nat f (scene_building s n) = DDone tt (scene_building (f s) n).
Proof. reflexivity. Qed.

Lemma lend_nothing w : w_out w = [] → w_clock w = [] → w_calloc w = [] → lend scene_begun w = w.
Proof. destruct w; cbn. by intros -> -> ->. Qed.

Lemma in_bridge_Done {A} b (m : M A) d w a w' : d_heap d !! b = Some w → lend d w = w →
  m w = Done a w' → in_bridge b m d = DDone a (give_back b w' d).
Proof. intros Hb Hl Hm. unfold in_bridge. by rewrite Hb, Hl, Hm. Qed.

Lemma scene_bridge_create : ∃ d, in_bridge 1%nat (MSTP_IN_bridge_create sample_stack sample_mac) scene_begun
  = DDone true (give_back 1%nat (scene_new d) scene_begun).
Proof.
  destruct scene_create as [d Hd]. exists d. eapply in_bridge_Done; [| |exact Hd].
  - apply lookup_singleton_eq.
  - by apply lend_nothing.
Qed.

(** The end of create_br. *)
Definition scene_tail : D (option br_ptr) :=
  created ← in_bridge 1%nat (MSTP_IN_bridge_create sample_stack sample_mac);
  if negb (created : bool) then free_bridge 1%nat ;; mret None else
  upd_bridges (λ l, l ++ [1%nat]) ;; mret (Some 1%nat).

Lemma if_negb {A} (b : bool) (x y : A) : b = true → (if negb b then x else y) = y.
Proof. by intros ->. Qed.

Lemma scene_tail_Done d : in_bridge 1%nat (MSTP_IN_bridge_create sample_stack sample_mac) scene_begun
  = DDone true (give_back 1%nat (scene_new d) scene_begun) →
  scene_tail scene_begun = DDone (Some 1%nat) (scene_start d).
Proof.
  unfold scene_tail. generalize MSTP_IN_bridge_create. intros mk Hd.
  rewrite (dbind_Done _ _ _ _ _ Hd), if_negb by reflexivity. reflexivity.
Qed.

Lemma scene_prefix : create_br scene_kernel 1 new_daemon = scene_tail scene_begun.
Proof.
  unfold create_br, scene_tail. generalize MSTP_IN_bridge_create. intros mk.
  rewrite (dbind_Done _ _ _ true new_daemon), if_negb by reflexivity.
  rewrite (dbind_Done _ _ _ 1%nat (scene_building (br_sysdeps zero_bridge) 0)) by reflexivity. cbv beta zeta.
  rewrite (dbind_Done _ _ _ _ _ (building_upd _ _ _)).
  rewrite (dbind_Done _ _ _ (Some "br0"%string) (scene_building _ 1)) by reflexivity. cbv beta iota.
  rewrite (dbind_Done _ _ _ _ _ (building_upd _ _ _)).
  rewrite (dbind_Done _ _ _ (Some sample_mac) (scene_building _ 2)) by reflexivity. cbv beta iota.
  rewrite (dbind_Done _ _ _ _ _ (building_upd _ _ _)), if_negb by reflexivity.
  rewrite (dbind_Done _ _ _ sample_stack scene_begun) by reflexivity. reflexivity.
Qed.

Lemma scene_create_br : ∃ d, find_or_create_br scene_kernel 1 new_daemon = DDone (Some 1%nat) (scene_start d).
Proof.
  destruct scene_bridge_create as [d Hd%scene_tail_Done]. exists d. rewrite <- scene_prefix in Hd.
  unfold find_or_create_br. rewrite (dbind_Done _ _ _ None new_daemon) by reflexivity. exact Hd.
Qed.

(** br0 is reported up, then eth0 as its port. *)
Definition scene_serve (i : daemon_input) (d : daemon) : daemon := dresult (serve scene_kernel scene_abi i) d.
Definition scene_br0 (d : list Z) : daemon := dresult (set_br_up scene_kernel 1%nat true) (scene_start d).
Definition scene_eth0 (d : list Z) : daemon := scene_serve (Netlink 1 2 true (IFF_UP + IFF_RUNNING)) (scene_br0 d).

Lemma scene_br0_reachable : ∃ d, reachable_daemon scene_kernel scene_abi (scene_br0 d).
Proof.
  destruct scene_create_br as [d Hd]. exists d.
  apply (rd_step _ _ new_daemon (Netlink 1 1 true (IFF_UP + IFF_RUNNING))); [exact (rd_start _ _ 0)|exact Logic.I|].
  assert (Hup : set_br_up scene_kernel 1%nat true (scene_start d) = DDone tt (scene_br0 d))
    by (apply dreturns_result; vm_compute; reflexivity).
  revert Hup Hd. unfold serve, bridge_notify. generalize (scene_start d), (scene_br0 d).
  intros d1 d2 Hup Hd. cbv zeta.
  change ((0 <=? 1) && (1 ≠? 1)) with false. change (1 =? 1) with true. cbv iota. cbn [negb].
  change (has_flag (IFF_UP + IFF_RUNNING) IFF_UP) with true.
  unfold mbind, D_bind. rewrite Hd, Hup. reflexivity.
Qed.

Lemma scene_step d i : reachable_daemon scene_kernel scene_abi d → input_ok i →
  dreturns (serve scene_kernel scene_abi i) d = true →
  reachable_daemon scene_kernel scene_abi (scene_serve i d).
Proof. intros Hr Hi Hd. exact (rd_step _ _ _ _ _ Hr Hi (dreturns_result _ _ Hd)). Qed.

Lemma scene_eth0_reachable : ∃ d, reachable_daemon scene_kernel scene_abi (scene_eth0 d).
Proof.
  destruct scene_br0_reachable as [d Hd]. exists d. apply scene_step; [exact Hd|exact Logic.I|].
  clear Hd. vm_compute. reflexivity.
Qed.

(** Root asks for the protocol to be run on br0. *)
Definition scene_request (cmd lout uid : Z) (payload : list Z) : ctl_datagram :=
  {| m_size := 20 + Z.of_nat (length payload); m_flags := 0;
     m_hdr := {| h_cmd := cmd; h_lin := Z.of_nat (length payload); h_lout := lout; h_llog := 0; h_res := 0 |};
     m_inbuf := payload; m_uid := Some uid |}.
Definition scene_enable : daemon_input := Request (scene_request CMD_CODE_add_bridges 0 0 [1;0;0;0;1;0;0;0]).
Definition scene_clock (d : daemon) : daemon := d <| d_clock := replicate 60 (0, 0) |> <| d_calloc := [] |>.
Definition scene_running (d : list Z) : daemon := scene_serve scene_enable (scene_clock (scene_eth0 d)).

Lemma scene_clock_reachable d : reachable_daemon scene_kernel scene_abi d →
  reachable_daemon scene_kernel scene_abi (scene_clock d).
Proof. intros Hd. exact (rd_environment _ _ d _ [] (d_calls d) Hd). Qed.

Lemma scene_running_reachable : ∃ d, reachable_daemon scene_kernel scene_abi (scene_running d).
Proof.
  destruct scene_eth0_reachable as [d Hd]. exists d. unfold scene_running.
  apply scene_clock_reachable in Hd.
  assert (Hi : input_ok scene_enable) by (split; [split; cbn; lia|cbn; lia]).
  assert (Hr : dreturns (serve scene_kernel scene_abi scene_enable) (scene_clock (scene_eth0 d)) = true)
    by (clear Hd; vm_compute; reflexivity).
  exact (scene_step _ _ Hd Hi Hr).
Qed.

(** ** The theorems on the scenario *)

Lemma daemon_no_fault_witness : ∃ d, reachable_daemon scene_kernel scene_abi (scene_running d) ∧
  serve scene_kernel scene_abi Tick (scene_running d) ≠ DFault.
Proof.
  destruct scene_running_reachable as [d Hd]. exists d. split; [exact Hd|].
  exact (daemon_no_fault scene_kernel scene_abi scene_stack scene_abi_ok _ Tick Hd Logic.I).
Defined.

Lemma daemon_invariant_witness : ∃ d, d_bridges (scene_running d) = [1%nat] ∧
  ∃ w, d_heap (scene_running d) !! 1%nat = Some w ∧ wf_world w ∧
    ∀ p p' idx, has_if w p idx → has_if w p' idx → p' = p.
Proof.
  destruct scene_running_reachable as [d Hd]. exists d.
  assert (Hb : d_bridges (scene_running d) = [1%nat]) by (clear Hd; vm_compute; reflexivity).
  split; [exact Hb|].
  destruct (daemon_invariant scene_kernel scene_abi scene_stack scene_abi_ok _ Hd) as (_ & Hdom & Hall).
  destruct (proj1 (Hdom 1%nat)) as [w Hw]; [rewrite Hb; by left|]. exists w. split; [exact Hw|].
  destruct (Hall _ _ Hw) as (Hwf & _ & _ & Hu). split; [exact Hwf|].
  intros p p' idx H1 H2. exact (proj2 (proj2 (Hu _ _ Hw) p p' idx H1 H2)).
Defined.

(** The port is reported once more; nothing runs on the bridge. *)
Definition scene_news : daemon_input := Netlink 1 2 true (IFF_UP + IFF_RUNNING).
Lemma monitoring_is_passive_witness : ∃ d,
  ∀ b, runs_stp (scene_serve scene_news (scene_eth0 d)) b → runs_stp (scene_eth0 d) b.
Proof.
  destruct scene_eth0_reachable as [d Hd]. exists d.
  assert (Hr : serve scene_kernel scene_abi scene_news (scene_eth0 d) =
    DDone tt (scene_serve scene_news (scene_eth0 d)))
    by (apply dreturns_result; clear Hd; vm_compute; reflexivity).
  exact (proj1 (monitoring_is_passive scene_kernel scene_abi scene_stack scene_abi_ok
    (scene_eth0 d) scene_news (scene_serve scene_news (scene_eth0 d)) Hd Logic.I (λ H, H) Hr)).
Defined.

(** A user lists the MSTIs of br0, and may not create one. *)
Definition scene_user : ctl_datagram := scene_request 112 16 1000 [1;0;0;0;5;0;0;0;0;0;0;0;0;0;0;0].
Lemma requests_of_users_are_harmless_witness : ∃ d d',
  reachable_daemon scene_kernel scene_abi d ∧
  ctl_rcv_handler scene_kernel scene_abi scene_user d = DDone (Some (inl (-1))) d' ∧ same_daemon d d'.
Proof.
  destruct scene_running_reachable as [d Hd]. exists (scene_running d), (scene_running d).
  split; [exact Hd|].
  assert (He : ctl_rcv_handler scene_kernel scene_abi scene_user (scene_running d) =
    DDone (Some (inl (-1))) (scene_running d)) by (clear Hd; generalize (scene_running d); reflexivity).
  split; [exact He|].
  assert (Hm : datagram_ok scene_user) by (split; cbn; lia).
  pose proof (requests_of_users_are_harmless scene_kernel scene_abi scene_user (scene_running d)
    scene_stack scene_abi_ok Hd Hm ltac:(discriminate)) as H. by rewrite He in H.
Defined.

Lemma negative_answer_size_faults_witness :
  ctl_rcv_handler scene_kernel scene_abi (scene_request 112 (-1) 1000 []) new_daemon = DFault.
Proof.
  apply (negative_answer_size_faults _ _ _ 1000); [reflexivity..|cbn; lia].
Defined.

(** A bridge whose port eth0 is up, and an RST BPDU that arrives there with padding. *)
Lemma scene_bpdu_ok : wf_bpdu zero_bpdu.
Proof.
  assert (Hm : Forall wire_ok (mstConfiguration zero_bpdu)).
  { apply Forall_replicate. repeat split; cbn; lia. }
  unfold wf_bpdu. repeat split; try (cbn; lia). exact Hm.
Qed.

Definition scene_port (d : daemon) : port_t :=
  default zero_port (d_heap d !! 1%nat ≫= λ w, w_ports w !! 1%nat).

Lemma scene_port_found d w : d_heap (scene_eth0 d) !! 1%nat = Some w →
  w_ports w !! 1%nat = Some (scene_port (scene_eth0 d)) ∧ br_ports (w_br w) = [1%nat].
Proof.
  assert (H : ∃ v, d_heap (scene_eth0 d) !! 1%nat = Some v ∧
    w_ports v !! 1%nat = Some (scene_port (scene_eth0 d)) ∧ br_ports (w_br v) = [1%nat])
    by (vm_compute; eexists; done).
  destruct H as (v & -> & H). by intros [= <-].
Qed.

Lemma scene_octets : Forall in_u8 (put zero_bpdu ++ replicate 1995 0).
Proof.
  assert (H : forallb (λ x, (0 <=? x) && (x <? 256)) (put zero_bpdu ++ replicate 1995 0) = true)
    by (vm_compute; reflexivity).
  apply Forall_forall. intros x Hx%list_elem_of_In. eapply forallb_forall in H; [|exact Hx].
  unfold in_u8. lia.
Qed.

Lemma sent_frame_received_witness : ∃ d m',
  take 36 (put m') = take 36 (put zero_bpdu) ∧
  bridge_bpdu_rcv 2 (sent_frame sample_mac 39 zero_bpdu 36 ++ replicate 1995 0) 60 (scene_eth0 d) =
  in_bridge 1%nat (MSTP_IN_rx_bpdu 1%nat m' 36) (scene_eth0 d).
Proof.
  destruct scene_eth0_reachable as [d Hd%reachable_DI]; [|exact scene_stack|exact scene_abi_ok].
  exists d. assert (Hw : is_Some (d_heap (scene_eth0 d) !! 1%nat)) by (clear Hd; vm_compute; by eexists).
  destruct Hw as [w Hw]. destruct (scene_port_found d w Hw) as [Hx Hp].
  assert (Hup : if_index (prt_sysdeps (scene_port (scene_eth0 d))) = 2 ∧
    up (prt_sysdeps (scene_port (scene_eth0 d))) = true) by (clear; vm_compute; done).
  destruct Hup as [Hi Hup].
  apply (sent_frame_received (scene_eth0 d) 2 1%nat w 1%nat (scene_port (scene_eth0 d)) sample_mac
    zero_bpdu 36 (replicate 1995 0) 60 Hd Hw).
  - split; [rewrite Hp; by left|]. eexists. exact (conj Hx Hi).
  - exact Hx.
  - exact Hup.
  - reflexivity.
  - exact scene_bpdu_ok.
  - split; [done|by apply Z.leb_le].
  - exact scene_octets.
  - rewrite length_replicate. by apply Nat.leb_le.
  - split; [by apply Z.leb_le|by apply Z.leb_le].
Defined.
