(* ===== verification/DryRun.v ===== *)
(** The dry-run convention of mstp.c: "the state machines should return true if a
    state change is detected during dry run, otherwise (!dry_run || !state_change)
    they return false".  [dry_at] is the contract of a machine at one world: a dry run
    changes nothing, and where it answers [false] the actual run changes nothing. *)
From S2P Require Import Prelude Types Monad Vectors Outputs Procs RoleSelect PortSM TreeSM.
From S2P Require Import Prtsm Bridge Wf System Sample Frame.

Record dry_at (sm : bool → M bool) (w : world) : Prop := {
  dry_pure b w' : sm true w = Done b w' → w' = w;
  dry_false w' : sm true w = Done false w' → sm false w = Done false w;
  actual_false b w' : sm false w = Done b w' → b = false
}.

Class DryRun (sm : bool → M bool) : Prop := dry_run_at : ∀ w, dry_at sm w.

(** A computation that only reads. *)
Definition reads {A} (m : M A) : Prop := ∀ w a w', m w = Done a w' → w' = w.

(** ** Readers *)

Lemma reads_ret {A} (a : A) : reads (mret a).
Proof. by intros w b w' [= _ ->]. Qed.

Lemma reads_bind {A B} (m : M A) (f : A → M B) : reads m → (∀ a, reads (f a)) → reads (m ≫= f).
Proof.
  intros Hm Hf w b w' (a & w1 & H1 & H2)%bind_Done_inv. apply Hm in H1 as ->. by eapply Hf.
Qed.

Lemma reads_get_br : reads get_br.
Proof. by intros w b w' [= _ ->]. Qed.

Lemma reads_of_option {A} (o : option A) : reads (of_option o).
Proof. destruct o; [apply reads_ret|by intros w b w']. Qed.

Lemma reads_get_port p : reads (get_port p).
Proof. intros w b w'. apply reads_of_option. Qed.
Lemma reads_get_tree t : reads (get_tree t).
Proof. intros w b w'. apply reads_of_option. Qed.
Lemma reads_get_ptp k : reads (get_ptp k).
Proof. intros w b w'. apply reads_of_option. Qed.

Lemma reads_any_of {A} (l : list A) body : (∀ x, reads (body x)) → reads (any_of l body).
Proof.
  intros Hb. induction l as [|x l IH]; simpl; [apply reads_ret|].
  apply reads_bind; [done|]. intros []; [apply reads_ret|done].
Qed.

Lemma reads_all_of {A} (l : list A) body : (∀ x, reads (body x)) → reads (all_of l body).
Proof.
  intros Hb. induction l as [|x l IH]; simpl; [apply reads_ret|].
  apply reads_bind; [done|]. intros []; [done|apply reads_ret].
Qed.

Create HintDb reads.
#[export] Hint Resolve reads_ret reads_get_br reads_of_option reads_get_port reads_get_tree
  reads_get_ptp : reads.

Ltac reads_auto :=
  repeat lazymatch goal with
  | |- reads (_ ≫= _) => apply reads_bind; [|intros ?]
  | |- reads (any_of _ _) => apply reads_any_of; intros ?
  | |- reads (all_of _ _) => apply reads_all_of; intros ?
  | |- reads (if ?b then _ else _) => destruct b
  | |- reads _ => solve [auto with reads]
  end.

Lemma reads_ports_of_bridge : reads ports_of_bridge.
Proof. unfold ports_of_bridge. reads_auto. Qed.
Lemma reads_trees_of_bridge : reads trees_of_bridge.
Proof. unfold trees_of_bridge. reads_auto. Qed.
Lemma reads_ptps_of_port p : reads (ptps_of_port p).
Proof. unfold ptps_of_port. reads_auto. Qed.
Lemma reads_ptps_of_tree t : reads (ptps_of_tree t).
Proof. unfold ptps_of_tree. reads_auto. Qed.
#[export] Hint Resolve reads_ports_of_bridge reads_trees_of_bridge reads_ptps_of_port
  reads_ptps_of_tree : reads.
Lemma reads_GET_CIST_PTP p : reads (GET_CIST_PTP_FROM_PORT p).
Proof. unfold GET_CIST_PTP_FROM_PORT. reads_auto. Qed.
Lemma reads_ptps_of_port_after k : reads (ptps_of_port_after k).
Proof. unfold ptps_of_port_after. reads_auto. Qed.
#[export] Hint Resolve reads_GET_CIST_PTP reads_ptps_of_port_after : reads.

(** ** The contract is compositional *)

Lemma dry_at_ret_false w : dry_at (λ _, mret false) w.
Proof. split; [by intros b w' [= _ ->]|done|by intros b w' [= <- _]]. Qed.

Lemma dry_at_transition act w : dry_at (λ d, transition d act) w.
Proof.
  split; unfold transition; [by intros b w' [= _ ->]|done|].
  intros b w' (? & ? & _ & [= <- _])%bind_Done_inv. done.
Qed.

(** Reading first, and knowing what was read. *)
Lemma dry_at_bind {A} (m : M A) (f : A → bool → M bool) w :
  reads m → (∀ a, m w = Done a w → dry_at (f a) w) → dry_at (λ d, m ≫= λ a, f a d) w.
Proof.
  intros Hm Hf. split.
  - intros b w' (a & w1 & H1 & H2)%bind_Done_inv. pose proof (Hm _ _ _ H1) as ->.
    by eapply (dry_pure _ _ (Hf a H1)).
  - intros w' (a & w1 & H1 & H2)%bind_Done_inv. pose proof (Hm _ _ _ H1) as ->.
    rewrite (bind_Done _ _ _ _ _ H1). by eapply (dry_false _ _ (Hf a H1)).
  - intros b w' (a & w1 & H1 & H2)%bind_Done_inv. pose proof (Hm _ _ _ H1) as ->.
    by eapply (actual_false _ _ (Hf a H1)).
Qed.

(** A dry run that always answers [true]. *)
Lemma dry_at_true f w :
  f true w = Done true w → (∀ b w', f false w = Done b w' → b = false) → dry_at f w.
Proof.
  intros Ht Hf. split; [by intros b w'; rewrite Ht; intros [= _ ->]| |done].
  intros w'. by rewrite Ht.
Qed.

Ltac dry_step :=
  lazymatch goal with
  | |- dry_at (λ _, mret false) _ => apply dry_at_ret_false
  | |- dry_at (λ d, transition d _) _ => apply dry_at_transition
  | |- dry_at (λ d, _ ≫= _) _ => eapply dry_at_bind; [reads_auto|intros ? ?]
  | |- dry_at ?f _ =>
      let b := eval cbv beta in (f true) in
      lazymatch b with match ?x with _ => _ end => destruct x eqn:? end
  end.
Ltac dry_auto := repeat dry_step.

(** ** Worlds that an assignment leaves alone *)

Lemma upd_port_id p f w x :
  w_ports w !! p = Some x → f x = x → upd_port p f w = Done tt w.
Proof.
  intros Hx Hf. unfold upd_port. rewrite Hx, Hf, insert_id by done. by destruct w.
Qed.

Lemma upd_ptp_id k f w x :
  w_ptps w !! k = Some x → f x = x → upd_ptp k f w = Done tt w.
Proof.
  intros Hx Hf. unfold upd_ptp. rewrite Hx, Hf, insert_id by done. by destruct w.
Qed.

(** A loop whose test finds nothing to do, and whose body then does nothing. *)
Lemma for_each_id {A} (l : list A) (test : A → M bool) (body : A → M unit) w :
  (∀ x, test x w = Done false w → body x w = Done tt w) → (∀ x, reads (test x)) →
  any_of l test w = Done false w → for_each l body w = Done tt w.
Proof.
  intros Hb Ht. induction l as [|x l IH]; simpl; [done|].
  intros (b & w1 & H1 & H2)%bind_Done_inv. pose proof (Ht x _ _ _ H1) as ->.
  destruct b; [done|]. rewrite (bind_Done _ _ _ _ _ (Hb x H1)). by apply IH.
Qed.

Lemma clearAllRcvdMsgs_id p w :
  clearAllRcvdMsgs p true w = Done false w → clearAllRcvdMsgs p false w = Done false w.
Proof.
  unfold clearAllRcvdMsgs, FOREACH_PTP_IN_PORT. intros (l & w1 & H1 & H2)%bind_Done_inv.
  pose proof (reads_ptps_of_port _ _ _ _ H1) as ->.
  refine (eq_trans (bind_Done _ _ _ tt w _) eq_refl). rewrite (bind_Done _ _ _ _ _ H1).
  refine (for_each_id l _ _ w _ _ H2); [|intros k; reads_auto].
  intros k (x & w2 & [Hx ->]%get_ptp_Done & [= Hm])%bind_Done_inv.
  eapply upd_ptp_id; [exact Hx|]. by destruct x; cbn in *; subst.
Qed.

(** ** The machines *)

#[export] Instance PRSSM_dry t : DryRun (PRSSM_run t).
Proof. intros w. unfold PRSSM_run. dry_auto. Qed.

#[export] Instance BA_dry p : DryRun (BA_run p).
Proof. intros w. unfold BA_run. dry_auto. Qed.

#[export] Instance BDSM_dry p : DryRun (BDSM_run p).
Proof. intros w. unfold BDSM_run. dry_auto. Qed.

#[export] Instance PPMSM_dry p : DryRun (PPMSM_run p).
Proof.
  intros w. unfold PPMSM_run, PPMSM_FUEL. generalize 3%nat. intros n.
  change (dry_at (λ d, PPMSM_runf (S n) p d) w). cbn [PPMSM_runf]. cbv zeta. dry_auto.
Qed.

#[export] Instance PSTSM_dry k : DryRun (PSTSM_run k).
Proof.
  intros w. unfold PSTSM_run, PSTSM_FUEL. generalize 3%nat. intros n.
  change (dry_at (λ d, PSTSM_runf (S n) k d) w). cbn [PSTSM_runf]. cbv zeta. dry_auto.
Qed.

#[export] Instance PISM_dry k : DryRun (PISM_run k).
Proof.
  intros w. unfold PISM_run, PISM_FUEL. generalize 15%nat. intros n.
  change (dry_at (λ d, PISM_runf (S n) k d) w). cbn [PISM_runf]. cbv zeta.
  unfold PISM_xst. dry_auto.
Qed.

(** PRSM_to_DISCARD has its own dry run: it looks whether anything would change. *)
Lemma PRSM_to_DISCARD_dry p : DryRun (PRSM_to_DISCARD p).
Proof.
  intros w. unfold PRSM_to_DISCARD. eapply dry_at_bind; [reads_auto|]. intros prt Hprt.
  eapply dry_at_bind; [reads_auto|]. intros br Hbr. apply get_port_Done in Hprt as [Hp _].
  assert (Hclr : reads (clearAllRcvdMsgs p true)) by (unfold clearAllRcvdMsgs; reads_auto).
  split.
  - intros b w'. destruct (_ || _); [by intros [= _ ->]|]. intros H. by eapply Hclr.
  - intros w'. destruct (_ || _) eqn:Hc; [done|]. intros H. pose proof (Hclr _ _ _ H) as ->.
    repeat match goal with
    | H : _ || _ = false |- _ => apply orb_false_iff in H as [? ?]
    | H : negb _ = false |- _ => apply negb_false_iff in H
    | H : bool_decide _ = true |- _ => apply bool_decide_eq_true in H
    | H : (_ =? _) = true |- _ => apply Z.eqb_eq in H
    end.
    erewrite bind_Done; [|eapply upd_port_id; [exact Hp|by destruct prt; cbn in *; subst]].
    rewrite (bind_Done _ _ _ _ _ (clearAllRcvdMsgs_id _ _ H)).
    erewrite bind_Done; [|eapply upd_port_id; [exact Hp|by destruct prt; cbn in *; subst]].
    done.
  - intros b w'. cbv iota.
    intros ([] & ? & _ & (? & ? & _ & ([] & ? & _ & [= <- _])%bind_Done_inv)%bind_Done_inv)
      %bind_Done_inv. done.
Qed.

#[export] Instance PRSM_dry p : DryRun (PRSM_run p).
Proof.
  intros w. unfold PRSM_run. do 2 dry_step. dry_step; [apply PRSM_to_DISCARD_dry|]. dry_auto.
Qed.

(** PTSM_to_TRANSMIT_INIT on a port that is not enabled. *)
Lemma PTSM_to_TRANSMIT_INIT_dry run p prt w :
  w_ports w !! p = Some prt → portEnabled prt = false →
  dry_at (PTSM_to_TRANSMIT_INIT run p false) w.
Proof.
  intros Hp He. unfold PTSM_to_TRANSMIT_INIT.
  eapply (dry_at_bind (get_port p) (λ prt d, if d then _ else _)); [reads_auto|].
  intros prt' [Hp' _]%get_port_Done. simplify_eq. split.
  - by intros b w' [= _ ->].
  - intros w' [= Hc _].
    repeat match goal with
    | H : _ || _ = false |- _ => apply orb_false_iff in H as [? ?]
    | H : negb _ = false |- _ => apply negb_false_iff in H
    | H : bool_decide _ = true |- _ => apply bool_decide_eq_true in H
    | H : (_ =? _) = true |- _ => apply Z.eqb_eq in H
    end.
    erewrite bind_Done; [|eapply upd_port_id; [exact Hp|by destruct prt; cbn in *; subst]].
    rewrite He. done.
  - intros b w'. cbv iota. rewrite He.
    intros ([] & ? & _ & (? & ? & _ & [= <- _])%bind_Done_inv)%bind_Done_inv. done.
Qed.

Lemma reads_allTransmitReady l b : reads (allTransmitReady l b).
Proof.
  revert b. induction l as [|k l IH]; intros b; simpl; [apply reads_ret|].
  apply reads_bind; [apply reads_get_ptp|]. intros x. destruct (_ || _); [apply reads_ret|done].
Qed.
#[export] Hint Resolve reads_allTransmitReady : reads.

#[export] Instance PTSM_dry p : DryRun (PTSM_run p).
Proof.
  intros w. unfold PTSM_run, PTSM_FUEL. generalize 31%nat. intros n.
  change (dry_at (λ d, PTSM_runf (S n) p d) w). cbn [PTSM_runf]. cbv zeta.
  eapply dry_at_bind; [reads_auto|]. intros prt [Hp _]%get_port_Done.
  dry_step; [eapply PTSM_to_TRANSMIT_INIT_dry; [exact Hp|by apply negb_true_iff]|].
  dry_auto.
Qed.

(** TCSM_to_LEARNING is only entered when its own dry run reports a change. *)
Lemma TCSM_to_LEARNING_dry run k prt ptp w :
  w_ports w !! ptp_port k = Some prt → w_ptps w !! k = Some ptp →
  rcvdTc ptp || tcProp ptp || ((ptp_MSTID k =? 0) && (rcvdTcn prt || rcvdTcAck prt)) = true →
  dry_at (TCSM_to_LEARNING run k) w.
Proof.
  intros Hp Hk Hc. apply dry_at_true.
  - unfold TCSM_to_LEARNING, get_ptp, get_port, mbind, M_bind. rewrite Hk. cbn.
    destruct (negb _) eqn:?; [done|]. destruct (rcvdTc ptp) eqn:?; [done|].
    destruct (tcProp ptp) eqn:?; [done|]. cbn in *.
    apply andb_true_iff in Hc as [-> Hc]. rewrite Hp. cbn. by rewrite Hc.
  - intros b w'. unfold TCSM_to_LEARNING.
    intros ([] & ? & _ & ([] & ? & _ & ([] & ? & _ & (? & ? & _ & [= <- _])%bind_Done_inv)
      %bind_Done_inv)%bind_Done_inv)%bind_Done_inv. done.
Qed.

#[export] Instance TCSM_dry k : DryRun (TCSM_run k).
Proof.
  intros w. unfold TCSM_run, TCSM_FUEL. generalize 23%nat. intros n.
  change (dry_at (λ d, TCSM_runf (S n) k d) w). cbn [TCSM_runf]. cbv zeta.
  eapply dry_at_bind; [reads_auto|]. intros prt [Hp _]%get_port_Done.
  eapply dry_at_bind; [reads_auto|]. intros ptp [Hk _]%get_ptp_Done.
  dry_step; [dry_auto| |dry_auto..].
  dry_step; [dry_auto|]. dry_step; [|dry_auto].
  by eapply TCSM_to_LEARNING_dry.
Qed.

#[export] Instance PRTSM_dry k : DryRun (PRTSM_run k).
Proof.
  intros w. unfold PRTSM_run, PRTSM_FUEL. generalize 47%nat. intros n.
  eapply dry_at_bind; [unfold PRTSM_vars; cbv zeta; reads_auto|]. intros v _.
  change (dry_at (λ d, PRTSM_runf (S n) v k d) w). cbn [PRTSM_runf]. cbv zeta.
  unfold PRTSM_change_role, PRTSM_allSynced, PRTSM_switch, PRTSM_master_port, PRTSM_root_port,
    PRTSM_designated_port, PRTSM_alternate_port, PRTSM_reRooted. dry_auto.
Qed.

(** ** Lifting the contract to the whole bridge *)

Lemma any_of_dry {A} (l : list A) (sm : A → bool → M bool) :
  (∀ x, DryRun (sm x)) → DryRun (λ d, any_of l (λ x, b ← sm x d; mret (b && d))).
Proof.
  intros Hsm. induction l as [|x l IH]; intros w; simpl; [apply dry_at_ret_false|].
  pose proof (Hsm x w) as [Hpure Hfalse Hact]. specialize (IH : ∀ w, dry_at _ w). split.
  - intros b w' (c & w1 & (c' & w2 & H1 & [= <- <-])%bind_Done_inv & H2)%bind_Done_inv.
    pose proof (Hpure _ _ H1) as ->. rewrite andb_true_r in H2.
    destruct c'; [by injection H2|]. by eapply (dry_pure _ _ (IH w)).
  - intros w' (c & w1 & (c' & w2 & H1 & [= <- <-])%bind_Done_inv & H2)%bind_Done_inv.
    pose proof (Hpure _ _ H1) as ->. rewrite andb_true_r in H2. destruct c'; [done|].
    rewrite (bind_Done _ _ _ false w) by (by rewrite (bind_Done _ _ _ _ _ (Hfalse _ H1))).
    by eapply (dry_false _ _ (IH w)).
  - intros b w' (c & w1 & (c' & w2 & H1 & [= <- <-])%bind_Done_inv & H2)%bind_Done_inv.
    rewrite andb_false_r in H2. by eapply (actual_false _ _ (IH _)).
Qed.

Lemma dry_at_reads_list {A} (m : M (list A)) (f : list A → bool → M bool) :
  reads m → (∀ l, DryRun (f l)) → DryRun (λ d, m ≫= λ l, f l d).
Proof. intros Hm Hf w. apply dry_at_bind; [done|]. intros l _. apply Hf. Qed.

#[export] Instance run_ports_dry sm : (∀ p, DryRun (sm p)) → DryRun (λ d, run_ports d sm).
Proof. intros H. apply dry_at_reads_list; [auto with reads|]. intros l. by apply any_of_dry. Qed.

#[export] Instance run_trees_dry sm : (∀ t, DryRun (sm t)) → DryRun (λ d, run_trees d sm).
Proof. intros H. apply dry_at_reads_list; [auto with reads|]. intros l. by apply any_of_dry. Qed.

Lemma any_of_dry_plain {A} (l : list A) (sm : A → bool → M bool) :
  (∀ x, DryRun (sm x)) → DryRun (λ d, any_of l (λ x, sm x d)).
Proof.
  intros Hsm. induction l as [|x l IH]; intros w; simpl; [apply dry_at_ret_false|].
  pose proof (Hsm x w) as [Hpure Hfalse Hact]. specialize (IH : ∀ w, dry_at _ w). split.
  - intros b w' (c & w1 & H1 & H2)%bind_Done_inv. pose proof (Hpure _ _ H1) as ->.
    destruct c; [by injection H2|]. by eapply (dry_pure _ _ (IH w)).
  - intros w' (c & w1 & H1 & H2)%bind_Done_inv. pose proof (Hpure _ _ H1) as ->.
    destruct c; [done|]. rewrite (bind_Done _ _ _ _ _ (Hfalse _ H1)).
    by eapply (dry_false _ _ (IH w)).
  - intros b w' (c & w1 & H1 & H2)%bind_Done_inv. pose proof (Hact _ _ H1) as ->.
    by eapply (actual_false _ _ (IH _)).
Qed.

#[export] Instance run_ptps_dry sm : (∀ k, DryRun (sm k)) → DryRun (λ d, run_ptps d sm).
Proof.
  intros H. apply dry_at_reads_list; [auto with reads|]. intros l. apply any_of_dry_plain.
  intros p. apply dry_at_reads_list; [auto with reads|]. intros l'. by apply any_of_dry.
Qed.

Lemma or_else_dry (a b : bool → M bool) :
  DryRun a → DryRun b → DryRun (λ d, or_else (a d) (b d)).
Proof.
  intros Ha Hb w. pose proof (Ha w) as [Hpure Hfalse Hact]. unfold or_else. split.
  - intros r w' (c & w1 & H1 & H2)%bind_Done_inv. pose proof (Hpure _ _ H1) as ->.
    destruct c; [by injection H2|]. by eapply (dry_pure _ _ (Hb w)).
  - intros w' (c & w1 & H1 & H2)%bind_Done_inv. pose proof (Hpure _ _ H1) as ->.
    destruct c; [done|]. rewrite (bind_Done _ _ _ _ _ (Hfalse _ H1)).
    by eapply (dry_false _ _ (Hb w)).
  - intros r w' (c & w1 & H1 & H2)%bind_Done_inv. pose proof (Hact _ _ H1) as ->.
    by eapply (actual_false _ _ (Hb w1)).
Qed.

Lemma br_state_machines_dry : DryRun __br_state_machines_run.
Proof.
  change (DryRun (λ d, __br_state_machines_run d)). unfold __br_state_machines_run.
  repeat apply (or_else_dry (λ d, _ d _) (λ d, _)).
  all: first [apply run_ports_dry | apply run_trees_dry | apply run_ptps_dry]; apply _.
Qed.

(** ** Properties *)

(** The dry-run contract holds for the run of all the state machines of all ports
    and trees: a dry run leaves the bridge untouched, when it reports no change the
    actual run from there does nothing at all, and an actual run reports false. *)
Lemma dry_run_contract (w : world) :
  (∀ b w', __br_state_machines_run true w = Done b w' → w' = w) ∧
  (∀ w', __br_state_machines_run true w = Done false w' →
         __br_state_machines_run false w = Done false w) ∧
  (∀ b w', __br_state_machines_run false w = Done b w' → b = false).
Proof. destruct (br_state_machines_dry w) as [? ? ?]. auto. Qed.

(** A world in which no state machine has anything left to do: a dry run reports no
    change, and the actual run makes none. *)
Definition stable (w : world) : Prop :=
  ∀ dry_run, __br_state_machines_run dry_run w = Done false w.

Lemma stable_iff w : stable w ↔ __br_state_machines_run true w = Done false w.
Proof.
  split; [done|]. intros H [|]; [done|]. by eapply (dry_false _ _ (br_state_machines_dry w)).
Qed.

Lemma loop_result n tv_end w w' :
  br_state_machines_loop n tv_end w = Done tt w' →
  stable w' ∨ ∃ pre tv, w_clock w = pre ++ tv :: w_clock w' ∧ past_deadline tv tv_end = true.
Proof.
  revert w. induction n as [|n IH]; intros w; cbn [br_state_machines_loop]; [done|].
  intros (b & w1 & H1 & H2)%bind_Done_inv.
  pose proof (dry_pure _ _ (br_state_machines_dry w) _ _ H1) as ->.
  destruct b; cbn [negb] in H2; cycle 1.
  { injection H2 as <-. left. by apply stable_iff. }
  apply bind_Done_inv in H2 as (b & w2 & Hact & (tv & w3 & Hclk & H2)%bind_Done_inv).
  apply quiet_run_once in Hact as (_ & Heq & _).
  unfold clock_gettime in Hclk. rewrite Heq in Hclk. destruct (w_clock w) as [|t l]; [done|].
  injection Hclk as -> <-.
  destruct (past_deadline tv tv_end) eqn:Hd.
  - injection H2 as <-. right. by exists [], tv.
  - apply IH in H2 as [?|(pre & tv' & Hpre & ?)]; [by left|]. right. exists (tv :: pre), tv'.
    split; [|done]. cbn in Hpre |- *. by rewrite Hpre.
Qed.

(** What the run of the machines of an enabled bridge leads to when it returns: a stable
    bridge, unless a clock reading taken during the run lies more than one second after the
    first one.  ([Progress] shows that it returns.) *)
Lemma run_result (w w' : world) :
  bridgeEnabled (w_br w) = true → br_state_machines_run w = Done tt w' →
  stable w' ∨
  ∃ tv0 pre tv, w_clock w = tv0 :: pre ++ tv :: w_clock w' ∧
    past_deadline tv (fst tv0 + 1, snd tv0) = true.
Proof.
  intros He. unfold br_state_machines_run.
  intros (br & w1 & [= <- <-] & H)%bind_Done_inv. rewrite He in H. cbn [negb] in H.
  apply bind_Done_inv in H as (tv0 & w2 & Hclk & (n & w3 & [= <- <-] & H)%bind_Done_inv).
  unfold clock_gettime in Hclk. destruct (w_clock w) as [|t l]; [done|]. injection Hclk as -> <-.
  apply loop_result in H as [?|(pre & tv & Hpre & ?)]; [by left|]. right.
  exists tv0, pre, tv. split; [|done]. by f_equal.
Qed.
