(* ===== verification/Termination.v ===== *)
(** Termination of the recursive state machines: the depth each of them is given is
    enough in every world, so that in a well-formed bridge their runs return. *)
From S2P Require Import Prelude Types Monad Vectors Outputs Procs RoleSelect PortSM TreeSM.
From S2P Require Import Prtsm Bridge Wf Safety System Sample Frame.

(** ** Computations that never run out of depth *)

Definition total {A} (m : M A) : Prop := ∀ w, m w ≠ OutOfFuel.

Lemma total_ret {A} (a : A) : total (mret a).
Proof. done. Qed.
Lemma total_bind {A B} (m : M A) (f : A → M B) : total m → (∀ a, total (f a)) → total (m ≫= f).
Proof.
  intros Hm Hf w. unfold mbind, M_bind. specialize (Hm w). destruct (m w); [apply Hf|done|done].
Qed.
Lemma total_fault {A} : total (@fault A).
Proof. done. Qed.
Lemma total_of_option {A} (o : option A) : total (of_option o).
Proof. by destruct o. Qed.
Lemma total_get_br : total get_br.
Proof. done. Qed.
Lemma total_get_port p : total (get_port p).
Proof. intros w. apply total_of_option. Qed.
Lemma total_get_tree t : total (get_tree t).
Proof. intros w. apply total_of_option. Qed.
Lemma total_get_ptp k : total (get_ptp k).
Proof. intros w. apply total_of_option. Qed.
Lemma total_upd_port p f : total (upd_port p f).
Proof. intros w. unfold upd_port. by destruct (_ !! _). Qed.
Lemma total_upd_tree t f : total (upd_tree t f).
Proof. intros w. unfold upd_tree. by destruct (_ !! _). Qed.
Lemma total_upd_ptp k f : total (upd_ptp k f).
Proof. intros w. unfold upd_ptp. by destruct (_ !! _). Qed.
Lemma total_emit e : total (emit e).
Proof. done. Qed.
Lemma total_for_each {A} (l : list A) body : (∀ x, total (body x)) → total (for_each l body).
Proof. intros Hb. induction l; [done|by apply total_bind]. Qed.
Lemma total_any_of {A} (l : list A) body : (∀ x, total (body x)) → total (any_of l body).
Proof. intros Hb. induction l; [done|]. apply total_bind; [done|]. by intros []. Qed.
Lemma total_all_of {A} (l : list A) body : (∀ x, total (body x)) → total (all_of l body).
Proof. intros Hb. induction l; [done|]. apply total_bind; [done|]. by intros []. Qed.
Lemma total_find_msti_msg msgs i n t : total (find_msti_msg msgs i n t).
Proof.
  revert i. induction n; intros i; simpl; [done|].
  apply total_bind; [apply total_of_option|]. intros m. by destruct (_ =? _).
Qed.
Lemma total_txMstp_mstis l i b : total (txMstp_mstis l i b).
Proof.
  revert i b. induction l; intros i b; simpl; [done|].
  apply total_bind; [apply total_get_ptp|]. intros m. by destruct (_ <? _)%nat.
Qed.
Lemma total_allTransmitReady l b : total (allTransmitReady l b).
Proof.
  revert b. induction l; intros b; simpl; [done|].
  apply total_bind; [apply total_get_ptp|]. intros x. by destruct (_ || _).
Qed.

Create HintDb total.
#[export] Hint Resolve total_ret total_fault total_of_option total_get_br total_get_port
  total_get_tree total_get_ptp total_upd_port total_upd_tree total_upd_ptp total_emit
  total_find_msti_msg total_txMstp_mstis total_allTransmitReady : total.

Ltac total_step :=
  first
    [ solve [auto with total]
    | lazymatch goal with
      | |- total (let _ := _ in _) => cbv zeta
      | |- total (_ ≫= _) => apply total_bind; [|intros ?]
      | |- total (for_each _ _) => apply total_for_each; intros ?
      | |- total (any_of _ _) => apply total_any_of; intros ?
      | |- total (all_of _ _) => apply total_all_of; intros ?
      | |- total (match ?b with _ => _ end) => destruct b
      | |- total ?m => let h := head_of m in unfold h
      end ].
Ltac total_auto := repeat total_step.

Lemma total_select_root t l r : total (select_root t l r).
Proof. revert r. induction l; intros r; cbn [select_root]; total_auto. Qed.
#[export] Hint Resolve total_select_root : total.

(** ** Following some members of one port and one per-tree port

    [nofuel m Q w]: [m] does not run out of depth, and [Q] holds if it returns. *)
Definition nofuel {A} (m : M A) (Q : A → world → Prop) (w : world) : Prop :=
  match m w with Done a w' => Q a w' | Fault => True | OutOfFuel => False end.

Section track.
Context {TP TK : Type} (pc : port_t → TP) (kc : per_tree_port_t → TK).
Context (p : port_id) (k : ptp_id).

Definition track (vp : TP) (vk : TK) (w : world) : Prop :=
  pc <$> w_ports w !! p = Some vp ∧ kc <$> w_ptps w !! k = Some vk.

Lemma nofuel_ret {A} (a : A) Q w : Q a w → nofuel (mret a) Q w.
Proof. done. Qed.

Lemma nofuel_bind {A B} (m : M A) (f : A → M B) Q w :
  nofuel m (λ a, nofuel (f a) Q) w → nofuel (m ≫= f) Q w.
Proof. unfold nofuel, mbind, M_bind. by destruct (m w). Qed.

Lemma nofuel_mono {A} (m : M A) (Q Q' : A → world → Prop) w :
  nofuel m Q w → (∀ a w', Q a w' → Q' a w') → nofuel m Q' w.
Proof. unfold nofuel. destruct (m w); auto. Qed.

(** A call that keeps the tracked members. *)
Lemma nofuel_same {A B} (m : M A) (f : A → M B) Q vp vk w :
  track vp vk w → total m → same pc kc p k m →
  (∀ a w', track vp vk w' → nofuel (f a) Q w') → nofuel (m ≫= f) Q w.
Proof.
  intros [Hp Hk] Ht Hs Hf. apply nofuel_bind. unfold nofuel at 1.
  destruct (m w) as [a w'| |] eqn:Hm; [|done|by eapply Ht].
  apply Hs in Hm as [? ?]. apply Hf. split; congruence.
Qed.

Lemma nofuel_get_port {B} (f : port_t → M B) Q vp vk w :
  track vp vk w → (∀ x, w_ports w !! p = Some x → pc x = vp → nofuel (f x) Q w) →
  nofuel (get_port p ≫= f) Q w.
Proof.
  intros [Hp _] Hf. apply nofuel_bind. unfold nofuel at 1, get_port.
  destruct (w_ports w !! p); [|done]. apply Hf; [done|]. by injection Hp.
Qed.

Lemma nofuel_get_ptp {B} (f : per_tree_port_t → M B) Q vp vk w :
  track vp vk w → (∀ x, w_ptps w !! k = Some x → kc x = vk → nofuel (f x) Q w) →
  nofuel (get_ptp k ≫= f) Q w.
Proof.
  intros [_ Hk] Hf. apply nofuel_bind. unfold nofuel at 1, get_ptp.
  destruct (w_ptps w !! k); [|done]. apply Hf; [done|]. by injection Hk.
Qed.

Lemma nofuel_upd_ptp {B} (m : unit → M B) f Q vp vk vk' w :
  track vp vk w → (∀ x, kc x = vk → kc (f x) = vk') →
  (∀ w', track vp vk' w' → nofuel (m tt) Q w') → nofuel (upd_ptp k f ≫= m) Q w.
Proof.
  intros [Hp Hk] Hf Hm. apply nofuel_bind. unfold nofuel at 1, upd_ptp.
  destruct (w_ptps w !! k) as [x|]; [|done]. apply Hm. split; [done|].
  cbn. rewrite lookup_insert_eq. cbn. f_equal. apply Hf. by injection Hk.
Qed.

Lemma nofuel_upd_port {B} (m : unit → M B) f Q vp vp' vk w :
  track vp vk w → (∀ x, pc x = vp → pc (f x) = vp') →
  (∀ w', track vp' vk w' → nofuel (m tt) Q w') → nofuel (upd_port p f ≫= m) Q w.
Proof.
  intros [Hp Hk] Hf Hm. apply nofuel_bind. unfold nofuel at 1, upd_port.
  destruct (w_ports w !! p) as [x|]; [|done]. apply Hm. split; [|done].
  cbn. rewrite lookup_insert_eq. cbn. f_equal. apply Hf. by injection Hp.
Qed.
End track.

Lemma nofuel_total {A} (m : M A) w : total m → nofuel m (λ _ _, True) w.
Proof. intros Hm. unfold nofuel. specialize (Hm w). by destruct (m w). Qed.

(** ** Port Information *)

Definition PISM_port (x : port_t) : bool := portEnabled x.
Definition PISM_core (x : per_tree_port_t) :=
  (PISM_state x, selected x, updtInfo x, rcvdMsg x, infoIs x).

Definition b2n (b : bool) : nat := if b then 1 else 0.

(** A bound on the transitions still to come. *)
Definition PISM_rank (enabled : bool)
    (c : PISM_states_t * bool * bool * bool * port_info_origin_t) : nat :=
  let '(s, sel, updt, msg, info) := c in
  let current := (3 * b2n msg + 2 * b2n (sel && updt) + 2)%nat in
  if negb enabled && (info !=? ioDisabled) then 3%nat else
  match s with
  | PISM_DISABLED => 2 + b2n msg
  | PISM_AGED => if sel && updt then 5 + 3 * b2n msg else 1
  | PISM_CURRENT => current
  | PISM_RECEIVE => 4 + 2 * b2n (sel && updt)
  | _ => 1 + current
  end%nat.

(** Close a chain of [run ;; skip] with the induction hypothesis. *)
Lemma nofuel_run_skip (run : M bool) w :
  nofuel run (λ _ _, True) w → nofuel (run ;; skip) (λ _ _, True) w.
Proof. intros H. apply nofuel_bind. eapply nofuel_mono; [exact H|]. by intros. Qed.

Lemma nofuel_transition d act w :
  nofuel act (λ _ _, True) w → nofuel (transition d act) (λ _ _, True) w.
Proof.
  destruct d; [done|]. intros H. apply nofuel_bind. eapply nofuel_mono; [exact H|]. done.
Qed.

(** A call that keeps the tracked members. *)
Ltac trk_same H :=
  eapply nofuel_same; [exact H|total_auto|same_auto|]; clear H; intros ? ? H; cbv beta.

(** An assignment after which the tracked members are [v]. *)
Ltac trk_solve := lazymatch goal with |- ?c _ = _ => unfold c end; cbn in *;
  first [congruence | unfold TCSM_active_port in *; cbn in *; congruence].
Ltac trk_ptp H v :=
  eapply (nofuel_upd_ptp _ _ _ _ _ _ _ _ _ v _ H);
  [let E := fresh in intros ? E; injection E; intros; trk_solve|
   clear H; intros ? H; cbv beta].
Ltac trk_port H v :=
  eapply (nofuel_upd_port _ _ _ _ _ _ _ _ v _ _ H);
  [let E := fresh in intros ? E; injection E; intros; trk_solve|
   clear H; intros ? H; cbv beta].

Section PISM.
Context (k : ptp_id).
Local Abbreviation T := (track PISM_port PISM_core (ptp_port k) k).
Local Abbreviation nf m w := (nofuel m (λ _ _, True) w).

Definition PISM_bounded (n : nat) : Prop := ∀ e c w d,
  T e c w → (PISM_rank e c < n)%nat → nf (PISM_runf n k d) w.

Context (n : nat) (IH : PISM_bounded n).
Local Abbreviation run := (PISM_runf n k false).

Lemma PISM_to_simple e s sel updt msg info w act s' msg' :
  T e (s, sel, updt, msg, info) w →
  (act = PISM_to_CURRENT run k ∧ s' = PISM_CURRENT ∧ msg' = msg) ∨
  (act = PISM_to_OTHER run k ∧ s' = PISM_OTHER ∧ msg' = false) ∨
  (act = PISM_to_INFERIOR_DESIGNATED run k ∧ s' = PISM_INFERIOR_DESIGNATED ∧ msg' = false) ∨
  (act = PISM_to_NOT_DESIGNATED run k ∧ s' = PISM_NOT_DESIGNATED ∧ msg' = false) ∨
  (act = PISM_to_REPEATED_DESIGNATED run k ∧ s' = PISM_REPEATED_DESIGNATED ∧ msg' = false) ∨
  (act = PISM_to_RECEIVE run k ∧ s' = PISM_RECEIVE ∧ msg' = msg) →
  (PISM_rank e (s', sel, updt, msg', info) < n)%nat → nf act w.
Proof.
  intros HT Hcase Hr.
  assert (Hset : ∀ m : unit → M unit, (∀ w', T e (s', sel, updt, msg, info) w' → nf (m tt) w') →
            nf (upd_ptp k (λ x, x <| PISM_state := s' |>) ≫= m) w).
  { intros m Hm. eapply (nofuel_upd_ptp _ _ _ _ _ _ _ _ _ _ _ HT); [|exact Hm].
    intros x Hx. injection Hx as <- <- <- <- <-. reflexivity. }
  assert (Hmsg : ∀ w', T e (s', sel, updt, msg, info) w' → msg' = false →
            nf (upd_ptp k (λ x, x <| rcvdMsg := false |>) ;; run ;; skip) w').
  { intros w' HT' ->. eapply (nofuel_upd_ptp _ _ _ _ _ _ _ _ _ (s', sel, updt, false, info) _ HT').
    - intros x Hx. injection Hx as <- <- <- <- <-. reflexivity.
    - intros w'' HT''. apply nofuel_run_skip. by eapply IH. }
  destruct Hcase as [(-> & -> & ->)|[(-> & -> & ->)|[(-> & -> & ->)|[(-> & -> & ->)|
    [(-> & -> & ->)|(-> & -> & ->)]]]]];
  [unfold PISM_to_CURRENT|unfold PISM_to_OTHER|unfold PISM_to_INFERIOR_DESIGNATED|
   unfold PISM_to_NOT_DESIGNATED|unfold PISM_to_REPEATED_DESIGNATED|unfold PISM_to_RECEIVE];
  unfold set_PISM; apply Hset; intros w1 HT1.
  - apply nofuel_run_skip. by eapply IH.
  - by apply Hmsg.
  - eapply nofuel_same; [exact HT1|total_auto|same_auto|]. intros ? w2 HT2. by apply Hmsg.
  - do 2 (eapply nofuel_same; [eassumption|total_auto|same_auto|]; intros ? ? ?). by apply Hmsg.
  - do 5 (eapply nofuel_same; [eassumption|total_auto|same_auto|]; intros ? ? ?). by apply Hmsg.
  - do 3 (eapply nofuel_same; [eassumption|total_auto|same_auto|]; intros ? ? ?).
    apply nofuel_run_skip. by eapply IH.
Qed.

Lemma PISM_to_DISABLED_nf e s sel updt msg info w :
  T e (s, sel, updt, msg, info) w →
  (PISM_rank e (PISM_DISABLED, false, updt, false, ioDisabled) < n)%nat →
  nf (PISM_to_DISABLED run k false) w.
Proof.
  intros HT Hr. unfold PISM_to_DISABLED. cbn [negb when].
  trk_ptp HT (PISM_DISABLED, false, updt, false, ioDisabled).
  apply nofuel_run_skip. by eapply IH.
Qed.

Lemma PISM_to_AGED_nf e s sel updt msg info w :
  T e (s, sel, updt, msg, info) w →
  (PISM_rank e (PISM_AGED, false, updt, msg, ioAged) < n)%nat →
  nf (PISM_to_AGED run k) w.
Proof.
  intros HT Hr. unfold PISM_to_AGED. trk_ptp HT (PISM_AGED, false, updt, msg, ioAged).
  apply nofuel_run_skip. by eapply IH.
Qed.

Lemma PISM_to_UPDATE_nf e s sel updt msg info w :
  T e (s, sel, updt, msg, info) w →
  (PISM_rank e (PISM_UPDATE, sel, false, msg, ioMine) < n)%nat →
  nf (PISM_to_UPDATE run k) w.
Proof.
  intros HT Hr. unfold PISM_to_UPDATE. trk_ptp HT (PISM_UPDATE, sel, updt, msg, info).
  do 3 trk_same HT. trk_ptp HT (PISM_UPDATE, sel, false, msg, ioMine). trk_same HT.
  apply nofuel_run_skip. by eapply IH.
Qed.

Lemma PISM_to_SUPERIOR_nf e s sel updt msg info w :
  T e (s, sel, updt, msg, info) w →
  (PISM_rank e (PISM_SUPERIOR_DESIGNATED, false, updt, false, ioReceived) < n)%nat →
  nf (PISM_to_SUPERIOR_DESIGNATED run k) w.
Proof.
  intros HT Hr. unfold PISM_to_SUPERIOR_DESIGNATED, set_PISM.
  trk_ptp HT (PISM_SUPERIOR_DESIGNATED, sel, updt, msg, info). do 12 trk_same HT.
  trk_ptp HT (PISM_SUPERIOR_DESIGNATED, false, updt, false, ioReceived).
  apply nofuel_run_skip. by eapply IH.
Qed.
End PISM.

Lemma PISM_xst_msg k x w b u w' :
  PISM_xst k x w = Done (b, u) w' → b = true → rcvdMsg x = true.
Proof.
  unfold PISM_xst. destruct (_ =? 0); [by intros [= <- _ _]|].
  intros (ck & w1 & _ & (c & w2 & _ & [= <- _ _])%bind_Done_inv)%bind_Done_inv.
  by intros [_ ?]%andb_true_iff.
Qed.

Lemma PISM_xst_reads k x w r w' : PISM_xst k x w = Done r w' → w' = w.
Proof.
  unfold PISM_xst. destruct (_ =? 0); [by intros [= _ ->]|].
  intros (ck & w2 & H1 & (c & w3 & H2 & [= _ ->])%bind_Done_inv)%bind_Done_inv.
  unfold get_ptp in H2. destruct (w_ptps w2 !! ck); [injection H2 as _ ->|done].
  unfold GET_CIST_PTP_FROM_PORT, ptps_of_port in H1.
  apply bind_Done_inv in H1 as (l & w4 & (y & w5 & H3 & [= _ ->])%bind_Done_inv & H4).
  unfold get_port in H3. destruct (w_ports w !! _); [injection H3 as _ ->|done].
  by destruct (head l); [injection H4 as _ ->|].
Qed.

Ltac rank_arith :=
  unfold PISM_rank in *; change (ioDisabled !=? ioDisabled) with false in *;
  change (ioMine !=? ioDisabled) with true in *; change (ioAged !=? ioDisabled) with true in *;
  change (ioReceived !=? ioDisabled) with true in *; cbn in *;
  repeat match goal with
  | H : _ && _ = _ |- _ => rewrite H in *
  | b : bool |- _ => destruct b
  end; cbn in *; try done; try lia.

Lemma PISM_bounded_all k n : PISM_bounded k n.
Proof.
  induction n as [|n IH]; intros e c w d HT Hr; [lia|].
  destruct c as [[[[s sel] updt] msg] info]. cbn [PISM_runf]. cbv zeta.
  eapply (nofuel_get_port _ _ _ _ _ _ _ _ _ HT); intros prt Hprt He.
  eapply (nofuel_get_ptp _ _ _ _ _ _ _ _ _ HT); intros x Hx Hc. unfold PISM_port in He.
  unfold PISM_core in Hc. injection Hc as Hs Hsel Hupd Hmsg Hinfo.
  rewrite He, Hs, Hsel, Hupd, Hmsg, Hinfo.
  destruct (negb e && (info !=? ioDisabled)) eqn:Hdis.
  { apply nofuel_transition. eapply PISM_to_DISABLED_nf; [done|exact HT|].
    unfold PISM_rank in *. rewrite Hdis in Hr. cbn. rewrite andb_false_r. lia. }
  unfold PISM_rank in Hr. rewrite Hdis in Hr.
  assert (Hsimple : ∀ act s' msg',
    (act = PISM_to_CURRENT (PISM_runf n k false) k ∧ s' = PISM_CURRENT ∧ msg' = msg) ∨
    (act = PISM_to_OTHER (PISM_runf n k false) k ∧ s' = PISM_OTHER ∧ msg' = false) ∨
    (act = PISM_to_INFERIOR_DESIGNATED (PISM_runf n k false) k
       ∧ s' = PISM_INFERIOR_DESIGNATED ∧ msg' = false) ∨
    (act = PISM_to_NOT_DESIGNATED (PISM_runf n k false) k
       ∧ s' = PISM_NOT_DESIGNATED ∧ msg' = false) ∨
    (act = PISM_to_REPEATED_DESIGNATED (PISM_runf n k false) k
       ∧ s' = PISM_REPEATED_DESIGNATED ∧ msg' = false) ∨
    (act = PISM_to_RECEIVE (PISM_runf n k false) k ∧ s' = PISM_RECEIVE ∧ msg' = msg) →
    (PISM_rank e (s', sel, updt, msg', info) < n)%nat →
    nofuel (transition d act) (λ _ _, True) w).
  { intros act s' msg' Hcase Hlt. apply nofuel_transition. by eapply PISM_to_simple. }
  destruct s.
  - (* DISABLED *)
    destruct e.
    + apply nofuel_transition. eapply PISM_to_AGED_nf; [done|exact HT|]. rank_arith.
    + destruct msg; [|done].
      apply nofuel_transition. eapply PISM_to_DISABLED_nf; [done|exact HT|]. rank_arith.
  - (* AGED *)
    destruct (sel && updt) eqn:Hsu; [|done]. apply nofuel_transition.
    eapply PISM_to_UPDATE_nf; [done|exact HT|]. rank_arith.
  - eapply Hsimple; [left; repeat split|]. unfold PISM_rank. rewrite Hdis. cbn in *. lia.
  - eapply Hsimple; [left; repeat split|]. unfold PISM_rank. rewrite Hdis. cbn in *. lia.
  - eapply Hsimple; [left; repeat split|]. unfold PISM_rank. rewrite Hdis. cbn in *. lia.
  - eapply Hsimple; [left; repeat split|]. unfold PISM_rank. rewrite Hdis. cbn in *. lia.
  - eapply Hsimple; [left; repeat split|]. unfold PISM_rank. rewrite Hdis. cbn in *. lia.
  - eapply Hsimple; [left; repeat split|]. unfold PISM_rank. rewrite Hdis. cbn in *. lia.
  - (* CURRENT *)
    apply nofuel_bind. unfold nofuel at 1.
    destruct (PISM_xst k x w) as [[b u] w1| |] eqn:Hxst; [|done|].
    2:{ exfalso. revert Hxst. assert (Ht : total (PISM_xst k x)) by total_auto. apply Ht. }
    pose proof (PISM_xst_reads _ _ _ _ _ Hxst) as ->.
    pose proof (PISM_xst_msg _ _ _ _ _ _ Hxst) as Hb. rewrite Hmsg in Hb.
    destruct (b && negb u) eqn:Hbu.
    { apply andb_true_iff in Hbu as [-> _]. rewrite (Hb eq_refl) in *.
      eapply Hsimple; [right; right; right; right; right; repeat split|]. unfold PISM_rank. rewrite Hdis.
      cbn in *. lia. }
    destruct ((info ==? ioReceived) && _ && _ && _) eqn:Hage.
    { apply nofuel_transition. eapply PISM_to_AGED_nf; [done|exact HT|].
      destruct e; [|by destruct info]. rank_arith. }
    destruct (sel && updt) eqn:Hsu; [|done].
    apply nofuel_transition. eapply PISM_to_UPDATE_nf; [done|exact HT|]. rank_arith.
  - (* RECEIVE *)
    destruct (rcvdInfo x).
    + eapply Hsimple; [right; left; repeat split|]. unfold PISM_rank. rewrite Hdis. cbn. lia.
    + apply nofuel_transition. eapply PISM_to_SUPERIOR_nf; [done|exact HT|]. rank_arith.
    + eapply Hsimple; [right; right; right; right; left; repeat split|]. unfold PISM_rank. rewrite Hdis. cbn. lia.
    + eapply Hsimple; [right; right; left; repeat split|]. unfold PISM_rank. rewrite Hdis. cbn. lia.
    + eapply Hsimple; [right; right; right; left; repeat split|]. unfold PISM_rank. rewrite Hdis. cbn. lia.
Qed.

Lemma PISM_rank_bound e c : (PISM_rank e c < 16)%nat.
Proof.
  destruct c as [[[[s sel] updt] msg] info]. unfold PISM_rank.
  assert (Hb : ∀ b, (b2n b ≤ 1)%nat) by (intros []; cbn; lia).
  pose proof (Hb msg). pose proof (Hb (sel && updt)).
  destruct (negb e && _), s, (sel && updt); lia.
Qed.

(** The port and the per-tree port of a well-formed world. *)
Lemma wf_tracked {TP TK} (pc : port_t → TP) (kc : per_tree_port_t → TK) br K k w :
  Inv br K w → valid_ptp br k →
  ∃ prt x, track pc kc (ptp_port k) k (pc prt) (kc x) w ∧
    w_ports w !! ptp_port k = Some prt ∧ w_ptps w !! k = Some x.
Proof.
  intros Hi Hk. destruct (inv_port _ _ _ Hi _ (proj1 Hk)) as (prt & Hp & _).
  destruct (inv_ptp _ _ _ Hi _ Hk) as (x & Hx & _).
  exists prt, x. unfold track. by rewrite Hp, Hx.
Qed.

Lemma PISM_nofuel br K k d w :
  Inv br K w → valid_ptp br k → nofuel (PISM_run k d) (λ _ _, True) w.
Proof.
  intros Hi Hk. destruct (wf_tracked PISM_port PISM_core br K k w Hi Hk) as (prt & x & HT & _).
  eapply PISM_bounded_all; [exact HT|]. apply PISM_rank_bound.
Qed.

(** ** Port Protocol Migration *)

Definition PPMSM_core (x : port_t) := (PPMSM_state x, rcvdSTP x).

Definition PPMSM_rank (c : PPMSM_states_t * bool) : nat :=
  match c with
  | (PPMSM_SENSING, stp) => if stp then 3 else 1
  | (PPMSM_CHECKING_RSTP, _) | (PPMSM_SELECTING_STP, _) => 2
  end%nat.

Lemma PPMSM_bounded p n c d w :
  track PPMSM_core (λ _, ()) p (p, 0) c () w → (PPMSM_rank c ≤ n)%nat →
  nofuel (PPMSM_runf n p d) (λ _ _, True) w.
Proof.
  revert c d w. induction n as [|n IH]; intros [s stp] d w HT Hr.
  { destruct s, stp; cbn in Hr; lia. }
  cbn [PPMSM_runf]. cbv zeta.
  assert (Hsense : (1 ≤ n)%nat → nofuel (PPMSM_to_SENSING (PPMSM_runf n p false) p) (λ _ _, True) w).
  { intros Hn. unfold PPMSM_to_SENSING. trk_port HT (PPMSM_SENSING, false).
    apply nofuel_run_skip. by eapply IH. }
  assert (Hcheck : nofuel (PPMSM_to_CHECKING_RSTP p) (λ _ _, True) w)
    by (apply nofuel_total; total_auto).
  eapply (nofuel_get_port _ _ _ _ _ _ _ _ _ HT); intros prt Hprt [= Hs Hstp]. rewrite Hs, Hstp.
  apply nofuel_bind. cbn. destruct s; cbn in Hr.
  - destruct (_ && _); [by apply nofuel_transition|].
    destruct (_ =? 0); [apply nofuel_transition, Hsense; lia|done].
  - destruct (_ || _ || _); [apply nofuel_transition, Hsense; lia|done].
  - destruct (_ || _ || _); [by apply nofuel_transition|].
    destruct (sendRSTP prt && stp) eqn:Hstp'; [|done]. apply andb_true_iff in Hstp' as [_ ->].
    apply nofuel_transition. unfold PPMSM_to_SELECTING_STP.
    apply nofuel_bind. cbn. trk_port HT (PPMSM_SELECTING_STP, true).
    apply nofuel_run_skip. eapply IH; [exact HT|]. cbn. lia.
Qed.

Lemma PPMSM_nofuel br K p d w :
  wf_bridge br → Inv br K w → p ∈ br_ports br → nofuel (PPMSM_run p d) (λ _ _, True) w.
Proof.
  intros Hb Hi Hp. destruct (wf_bridge_cist _ Hb) as [l Hl].
  assert (Hk : valid_ptp br (p, 0)) by (split; [done|rewrite Hl; by left]).
  destruct (wf_tracked PPMSM_core (λ _, ()) br K _ w Hi Hk) as (prt & x & HT & _).
  eapply PPMSM_bounded; [exact HT|]. unfold PPMSM_FUEL, PPMSM_core.
  destruct (PPMSM_state prt), (rcvdSTP prt); cbn; lia.
Qed.

(** ** Port State Transition *)

Definition PSTSM_core (x : per_tree_port_t) := (PSTSM_state x, learn x, forward x).

(** A bound on the transitions still to come. *)
Definition PSTSM_rank (c : PSTSM_states_t * bool * bool) : nat :=
  match c with
  | (PSTSM_DISCARDING, learn, forward) => if learn then if forward then 3 else 2 else 1
  | (PSTSM_LEARNING, learn, forward) => if learn then if forward then 2 else 1 else 2
  | (PSTSM_FORWARDING, learn, forward) => if forward then 1 else if learn then 3 else 2
  end%nat.

Lemma PSTSM_bounded k n c d w :
  track (λ _, ()) PSTSM_core (ptp_port k) k () c w → (PSTSM_rank c ≤ n)%nat →
  nofuel (PSTSM_runf n k d) (λ _ _, True) w.
Proof.
  revert c d w. induction n as [|n IH]; intros [[s le] fo] d w HT Hr.
  { destruct s, le, fo; cbn in Hr; lia. }
  cbn [PSTSM_runf]. cbv zeta.
  eapply (nofuel_get_ptp _ _ _ _ _ _ _ _ _ HT); intros x Hx [= Hs Hl Hf]. rewrite Hs, Hl, Hf.
  assert (Hdisc : (PSTSM_rank (PSTSM_DISCARDING, le, fo) ≤ n)%nat →
            nofuel (PSTSM_to_DISCARDING (PSTSM_runf n k false) k false) (λ _ _, True) w).
  { intros Hn. unfold PSTSM_to_DISCARDING. cbn [negb when].
    trk_ptp HT (PSTSM_DISCARDING, le, fo). trk_same HT. trk_ptp HT (PSTSM_DISCARDING, le, fo).
    apply nofuel_run_skip. by eapply IH. }
  assert (Hlearn : (PSTSM_rank (PSTSM_LEARNING, le, fo) ≤ n)%nat →
            nofuel (PSTSM_to_LEARNING (PSTSM_runf n k false) k) (λ _ _, True) w).
  { intros Hn. unfold PSTSM_to_LEARNING. trk_ptp HT (PSTSM_LEARNING, le, fo). trk_same HT.
    trk_ptp HT (PSTSM_LEARNING, le, fo). apply nofuel_run_skip. by eapply IH. }
  assert (Hforw : nofuel (PSTSM_to_FORWARDING k) (λ _ _, True) w)
    by (apply nofuel_total; total_auto).
  destruct s, le, fo; cbn in Hr |- *; try done; apply nofuel_transition;
    (apply Hdisc || apply Hlearn || apply Hforw); cbn; lia.
Qed.

Lemma PSTSM_nofuel br K k d w :
  Inv br K w → valid_ptp br k → nofuel (PSTSM_run k d) (λ _ _, True) w.
Proof.
  intros Hi Hk. destruct (wf_tracked (λ _, ()) PSTSM_core br K k w Hi Hk) as (prt & x & HT & _).
  eapply PSTSM_bounded; [exact HT|]. unfold PSTSM_FUEL, PSTSM_core.
  destruct (PSTSM_state x), (learn x), (forward x); cbn; lia.
Qed.

(** ** Topology Change *)

(** Members of the port and of the per-tree port that decide the transitions. *)
Definition TCSM_port (x : port_t) := (operEdge x, rcvdTcn x, rcvdTcAck x).
Definition TCSM_core (x : per_tree_port_t) :=
  (TCSM_state x, TCSM_active_port x, forward x, learn x, learning x, rcvdTc x, tcProp x).

(** Bounds on the transitions still to come: in ACTIVE with the given flags, in
    LEARNING once every flag is clear, and in each state. *)
Definition TCSM_active_rank (tcn tc prop ack : bool) : nat :=
  (if tcn then 3 else if tc then 2 else 0) + 2 * b2n prop + 2 * b2n ack + 1.
Definition TCSM_clear_rank (up gone : bool) : nat := if up then 3 else if gone then 2 else 1.

Definition TCSM_rank (cist : bool) (prt : bool * bool * bool)
    (c : TCSM_states_t * bool * bool * bool * bool * bool * bool) : nat :=
  let '(op, tcn, ack) := prt in
  let '(s, act, fwd, lrn, lng, tc, prop) := c in
  let up := act && fwd && negb op in
  let clear := TCSM_clear_rank up (negb act && negb (lrn || lng)) in
  let active tcn tc :=
    if negb act || op then S clear else TCSM_active_rank tcn tc prop (cist && ack) in
  match s with
  | TCSM_INACTIVE => if lrn then S clear else 1
  | TCSM_LEARNING =>
      if up then 2 + active (cist && tcn) tc
      else if tc || prop || (cist && (tcn || ack)) then S clear else clear
  | TCSM_NOTIFIED_TCN => 2 + active false false
  | TCSM_NOTIFIED_TC | TCSM_DETECTED | TCSM_PROPAGATING | TCSM_ACKNOWLEDGED =>
      1 + active (cist && tcn) tc
  | TCSM_ACTIVE => active (cist && tcn) tc
  end%nat.

Lemma same_setTcPropTree {TP TK} (pc : port_t → TP) (kc : per_tree_port_t → TK) p k :
  same pc kc p k (setTcPropTree k).
Proof.
  unfold setTcPropTree, FOREACH_PTP_IN_TREE, ptps_of_tree. same_step; [auto with same|].
  same_step; [same_auto|]. same_step; [same_auto|]. same_step.
  destruct (bool_decide_reflect (k = x)); cbn; [apply same_ret|].
  apply same_upd_ptp. by left.
Qed.
#[export] Hint Resolve same_setTcPropTree : same.

Section TCSM.
Context (k : ptp_id) (n : nat).
Local Abbreviation T := (track TCSM_port TCSM_core (ptp_port k) k).
Local Abbreviation nf m w := (nofuel m (λ _ _, True) w).
Local Abbreviation cist := (ptp_MSTID k =? 0).
Local Abbreviation run := (TCSM_runf n k false).
Context (IH : ∀ pv c w, T pv c w → (TCSM_rank cist pv c ≤ n)%nat → nf run w).

(** Close an action that ends by running again in a world with members [pv], [c]. *)
Ltac rerun := apply nofuel_run_skip; eapply IH; [eassumption|].

Lemma TCSM_to_INACTIVE_nf op tcn ack s act fwd lrn lng tc prop w :
  T (op, tcn, ack) (s, act, fwd, lrn, lng, tc, prop) w →
  (TCSM_rank cist (op, tcn, ack) (TCSM_INACTIVE, act, fwd, lrn, lng, tc, prop) ≤ n)%nat →
  nf (TCSM_to_INACTIVE run k false) w.
Proof.
  intros HT Hr. unfold TCSM_to_INACTIVE, set_TCSM.
  trk_ptp HT (TCSM_INACTIVE, act, fwd, lrn, lng, tc, prop). do 4 trk_same HT.
  by rerun.
Qed.

Lemma TCSM_to_LEARNING_nf op tcn ack s act fwd lrn lng tc prop w :
  T (op, tcn, ack) (s, act, fwd, lrn, lng, tc, prop) w →
  (TCSM_clear_rank (act && fwd && negb op) (negb act && negb (lrn || lng)) ≤ n)%nat →
  nf (TCSM_to_LEARNING run k false) w.
Proof.
  intros HT Hr. unfold TCSM_to_LEARNING, set_TCSM.
  trk_ptp HT (TCSM_LEARNING, act, fwd, lrn, lng, tc, prop).
  destruct cist eqn:Hc; cbn [when].
  - trk_port HT (op, false, false). trk_ptp HT (TCSM_LEARNING, act, fwd, lrn, lng, false, false).
    apply nofuel_bind. eapply nofuel_mono; [eapply IH; [exact HT|]|done].
    unfold TCSM_rank, TCSM_active_rank, TCSM_clear_rank in *.
    destruct act, fwd, op; cbn in *; lia.
  - trk_same HT. trk_ptp HT (TCSM_LEARNING, act, fwd, lrn, lng, false, false).
    apply nofuel_bind. eapply nofuel_mono; [eapply IH; [exact HT|]|done].
    unfold TCSM_rank, TCSM_active_rank, TCSM_clear_rank in *.
    destruct act, fwd, op; cbn in *; lia.
Qed.

Lemma TCSM_to_DETECTED_nf pv s act fwd lrn lng tc prop w :
  T pv (s, act, fwd, lrn, lng, tc, prop) w →
  (TCSM_rank cist pv (TCSM_DETECTED, act, fwd, lrn, lng, tc, prop) ≤ n)%nat →
  nf (TCSM_to_DETECTED run k) w.
Proof.
  intros HT Hr. unfold TCSM_to_DETECTED, set_TCSM.
  trk_ptp HT (TCSM_DETECTED, act, fwd, lrn, lng, tc, prop). do 3 trk_same HT. by rerun.
Qed.

Lemma TCSM_to_NOTIFIED_TCN_nf pv s act fwd lrn lng tc prop w :
  T pv (s, act, fwd, lrn, lng, tc, prop) w →
  (TCSM_rank cist pv (TCSM_NOTIFIED_TCN, act, fwd, lrn, lng, tc, prop) ≤ n)%nat →
  nf (TCSM_to_NOTIFIED_TCN run k) w.
Proof.
  intros HT Hr. unfold TCSM_to_NOTIFIED_TCN, set_TCSM.
  trk_ptp HT (TCSM_NOTIFIED_TCN, act, fwd, lrn, lng, tc, prop). trk_same HT. by rerun.
Qed.

Lemma TCSM_to_NOTIFIED_TC_nf op tcn ack s act fwd lrn lng tc prop w :
  T (op, tcn, ack) (s, act, fwd, lrn, lng, tc, prop) w →
  (TCSM_rank cist (op, false, ack)
     (TCSM_NOTIFIED_TC, act, fwd, lrn, lng, false, prop) ≤ n)%nat →
  nf (TCSM_to_NOTIFIED_TC run k) w.
Proof.
  intros HT Hr. unfold TCSM_to_NOTIFIED_TC, set_TCSM.
  trk_ptp HT (TCSM_NOTIFIED_TC, act, fwd, lrn, lng, tc, prop).
  trk_ptp HT (TCSM_NOTIFIED_TC, act, fwd, lrn, lng, false, prop).
  eapply (nofuel_get_ptp _ _ _ _ _ _ _ _ _ HT); intros x _ _.
  destruct cist eqn:Hc; cbn [when].
  - trk_port HT (op, false, ack). trk_same HT. by rerun.
  - do 2 trk_same HT. by rerun.
Qed.

Lemma TCSM_to_PROPAGATING_nf pv s act fwd lrn lng tc prop w :
  T pv (s, act, fwd, lrn, lng, tc, prop) w →
  (TCSM_rank cist pv (TCSM_PROPAGATING, act, fwd, lrn, lng, tc, false) ≤ n)%nat →
  nf (TCSM_to_PROPAGATING run k) w.
Proof.
  intros HT Hr. unfold TCSM_to_PROPAGATING, set_TCSM.
  trk_ptp HT (TCSM_PROPAGATING, act, fwd, lrn, lng, tc, prop). do 2 trk_same HT.
  trk_ptp HT (TCSM_PROPAGATING, act, fwd, lrn, lng, tc, false). by rerun.
Qed.

Lemma TCSM_to_ACKNOWLEDGED_nf op tcn ack s act fwd lrn lng tc prop w :
  T (op, tcn, ack) (s, act, fwd, lrn, lng, tc, prop) w →
  (TCSM_rank cist (op, tcn, false)
     (TCSM_ACKNOWLEDGED, act, fwd, lrn, lng, tc, prop) ≤ n)%nat →
  nf (TCSM_to_ACKNOWLEDGED run k) w.
Proof.
  intros HT Hr. unfold TCSM_to_ACKNOWLEDGED, set_TCSM.
  trk_ptp HT (TCSM_ACKNOWLEDGED, act, fwd, lrn, lng, tc, prop). do 2 trk_same HT.
  trk_port HT (op, tcn, false). by rerun.
Qed.

Lemma TCSM_to_ACTIVE_nf pv s act fwd lrn lng tc prop w :
  T pv (s, act, fwd, lrn, lng, tc, prop) w →
  (TCSM_rank cist pv (TCSM_ACTIVE, act, fwd, lrn, lng, tc, prop) ≤ n)%nat →
  nf (TCSM_to_ACTIVE run k) w.
Proof.
  intros HT Hr. unfold TCSM_to_ACTIVE, set_TCSM.
  trk_ptp HT (TCSM_ACTIVE, act, fwd, lrn, lng, tc, prop). by rerun.
Qed.
End TCSM.

(** Each rank inequality is a matter of the flags it depends on. *)
Ltac flag_arith :=
  cbn [TCSM_rank] in *; cbv zeta in *; unfold TCSM_active_rank, TCSM_clear_rank, b2n in *;
  repeat match goal with
  | |- context [if ?b then _ else _] => destruct b eqn:?
  | H : context [if ?b then _ else _] |- _ => destruct b eqn:?
  end; lia.

Lemma TCSM_bounded k n pv c d w :
  track TCSM_port TCSM_core (ptp_port k) k pv c w →
  (TCSM_rank (ptp_MSTID k =? 0)%Z pv c ≤ n)%nat → nofuel (TCSM_runf n k d) (λ _ _, True) w.
Proof.
  revert pv c d w. induction n as [|n IH];
    intros [[op tcn] ack] [[[[[[s act] fwd] lrn] lng] tc] prop] d w HT Hr.
  { exfalso. destruct s; flag_arith. }
  specialize (λ pv c w, IH pv c false w) as IH'.
  cbn [TCSM_runf]. cbv zeta.
  eapply (nofuel_get_port _ _ _ _ _ _ _ _ _ HT); intros prt Hprt Hp.
  eapply (nofuel_get_ptp _ _ _ _ _ _ _ _ _ HT); intros x Hx Hc.
  unfold TCSM_port in Hp. injection Hp as Hop Htcn Hack.
  unfold TCSM_core in Hc. injection Hc as Hs Hact Hfwd Hlrn Hlng Htc Hprop.
  rewrite Hs, Hact, Hop, Htcn, Hack, Hfwd, Hlrn, Hlng, Htc, Hprop.
  destruct s.
  all: repeat match goal with |- nofuel (if ?b then _ else _) _ _ => destruct b eqn:? end.
  all: try done.
  all: try apply nofuel_transition.
  all: first
    [ apply nofuel_bind; eapply nofuel_mono; [|by intros]; eapply TCSM_to_LEARNING_nf
    | destruct d; [apply nofuel_total; unfold TCSM_to_LEARNING; total_auto|];
      eapply TCSM_to_LEARNING_nf
    | eapply TCSM_to_INACTIVE_nf | eapply TCSM_to_DETECTED_nf | eapply TCSM_to_NOTIFIED_TCN_nf
    | eapply TCSM_to_NOTIFIED_TC_nf | eapply TCSM_to_PROPAGATING_nf
    | eapply TCSM_to_ACKNOWLEDGED_nf | eapply TCSM_to_ACTIVE_nf ].
  all: first [exact IH' | exact HT | flag_arith].
Qed.

Lemma TCSM_nofuel br K k d w :
  Inv br K w → valid_ptp br k → nofuel (TCSM_run k d) (λ _ _, True) w.
Proof.
  intros Hi Hk. destruct (wf_tracked TCSM_port TCSM_core br K k w Hi Hk) as (prt & x & HT & _).
  eapply TCSM_bounded; [exact HT|]. unfold TCSM_FUEL.
  destruct (TCSM_port prt) as [[op tcn] ack],
    (TCSM_core x) as [[[[[[s act] fwd] lrn] lng] tc] prop].
  destruct s; flag_arith.
Qed.

(** ** Port Transmit *)

Section PTSM.
Context (p : port_id) (br : bridge_t) (h : Z) (l : list tree_id).
Hypothesis Hhello : h ≠ 0.
Hypothesis Hhold : Transmit_Hold_Count br <= 10.

Definition PTSM_port (x : port_t) :=
  (portEnabled x, PTSM_state x, helloWhen x, txCount x, prt_trees x).
Definition PTSM_core (x : per_tree_port_t) : Z := Hello_Time (portTimes x).

Definition PTSM_at (en : bool) (s : PTSM_states_t) (hello tx : Z) (w : world) : Prop :=
  track PTSM_port PTSM_core p (p, 0) (en, s, hello, tx, 0 :: l) h w ∧ w_br w = br ∧ 0 <= tx.

(** In IDLE a periodic transmission may be due, and each BPDU sent takes a turn
    through a transmitting state. *)
Definition PTSM_rank (en : bool) (s : PTSM_states_t) (hello tx : Z) : nat :=
  let sends := (2 * Z.to_nat (Transmit_Hold_Count br - tx))%nat in
  if negb en then 1
  else match s with
  | PTSM_IDLE => (if (hello =? 0)%Z then 2 else 0) + sends + 1
  | _ => sends + 2
  end%nat.

Lemma PTSM_keep {A B} (m : M A) (f : A → M B) Q en s hello tx w :
  PTSM_at en s hello tx w → total m → quiet m → same PTSM_port PTSM_core p (p, 0) m →
  (∀ a w', PTSM_at en s hello tx w' → nofuel (f a) Q w') → nofuel (m ≫= f) Q w.
Proof.
  intros (HT & Hb & Htx) Ht Hq Hs Hf. apply nofuel_bind. unfold nofuel at 1.
  destruct (m w) as [a w'| |] eqn:Hm; [|done|by eapply Ht].
  pose proof (Hs _ _ _ Hm) as [? ?]. apply Hq in Hm as (Hb' & _). apply Hf.
  split; [|split; [congruence|done]]. destruct HT. split; congruence.
Qed.

Lemma PTSM_upd {B} (m : unit → M B) f Q en s hello tx en' s' hello' tx' w :
  PTSM_at en s hello tx w → 0 <= tx' →
  (∀ x, PTSM_port x = (en, s, hello, tx, 0 :: l) →
        PTSM_port (f x) = (en', s', hello', tx', 0 :: l)) →
  (∀ w', PTSM_at en' s' hello' tx' w' → nofuel (m tt) Q w') → nofuel (upd_port p f ≫= m) Q w.
Proof.
  intros (HT & Hb & Htx) Ht Hf Hm.
  apply nofuel_bind. unfold nofuel at 1. destruct (upd_port p f w) as [[] w'| |] eqn:Hu.
  - apply Hm. split; [|split; [|done]].
    + pose proof (nofuel_upd_port PTSM_port PTSM_core p (p, 0) (λ _, skip) f
        (λ _ w', track PTSM_port PTSM_core p (p, 0) (en', s', hello', tx', 0 :: l) h w')
        _ _ _ _ HT Hf (λ _ H, H)) as Hn.
      unfold nofuel, mbind, M_bind in Hn. rewrite Hu in Hn. exact Hn.
    + apply quiet_upd_port in Hu as (-> & _). done.
  - done.
  - by eapply total_upd_port.
Qed.

Lemma PTSM_cist {B} (f : ptp_id → M B) Q en s hello tx w :
  PTSM_at en s hello tx w → nofuel (f (p, 0)) Q w →
  nofuel (GET_CIST_PTP_FROM_PORT p ≫= f) Q w.
Proof.
  intros (HT & _) Hf. unfold GET_CIST_PTP_FROM_PORT, ptps_of_port.
  do 2 apply nofuel_bind. unfold nofuel at 1, get_port, mbind, M_bind.
  destruct HT as [Hp _]. destruct (w_ports w !! p) as [x|]; [|done].
  unfold PTSM_port in Hp. injection Hp as _ _ _ _ Ht. cbn. rewrite Ht. exact Hf.
Qed.

Definition PTSM_bounded (n : nat) : Prop := ∀ en s hello tx w d,
  PTSM_at en s hello tx w → (PTSM_rank en s hello tx ≤ n)%nat →
  nofuel (PTSM_runf n p d) (λ _ _, True) w.

Context (n : nat) (IH : PTSM_bounded n).
Local Abbreviation run := (PTSM_runf n p false).
Local Abbreviation nf m w := (nofuel m (λ _ _, True) w).

Ltac upd H e s w t :=
  eapply (PTSM_upd _ _ _ _ _ _ _ e s w t _ H);
  [|let E := fresh in intros ? E; injection E; intros; unfold PTSM_port; cbn;
   repeat apply f_equal2; congruence || assumption|
   clear H; intros ? H; cbv beta].
Ltac keep H :=
  eapply PTSM_keep; [exact H|total_auto|quiet_auto|same_auto|]; clear H; intros ? ? H; cbv beta.

Lemma PTSM_to_IDLE_nf s hello tx w :
  PTSM_at true s hello tx w → (PTSM_rank true PTSM_IDLE h tx ≤ n)%nat →
  nf (PTSM_to_IDLE run p) w.
Proof.
  intros HT Hr. unfold PTSM_to_IDLE. pose proof HT as (_ & _ & Htx).
  upd HT true PTSM_IDLE hello tx; [done|].
  eapply PTSM_cist; [exact HT|]. pose proof HT as (HT' & _).
  eapply (nofuel_get_ptp _ _ _ _ _ _ _ _ _ HT'); intros x Hx Hh. unfold PTSM_core in Hh.
  rewrite Hh. clear HT'. upd HT true PTSM_IDLE h tx; [done|].
  apply nofuel_run_skip. by eapply IH.
Qed.

Lemma PTSM_to_TRANSMIT_INIT_nf s hello tx d w :
  PTSM_at false s hello tx w → nf (PTSM_to_TRANSMIT_INIT run p false d) w.
Proof.
  intros HT. unfold PTSM_to_TRANSMIT_INIT. pose proof HT as (HT' & _).
  eapply (nofuel_get_port _ _ _ _ _ _ _ _ _ HT'); intros x Hx Hp. clear HT'.
  unfold PTSM_port in Hp. injection Hp as Hen _ _ _ _. rewrite Hen. cbn [negb andb].
  destruct d; [done|]. apply nofuel_total. total_auto.
Qed.

Lemma PTSM_to_TRANSMIT_PERIODIC_nf hello tx w :
  PTSM_at true PTSM_IDLE hello tx w →
  (PTSM_rank true PTSM_TRANSMIT_PERIODIC hello tx ≤ n)%nat →
  nf (PTSM_to_TRANSMIT_PERIODIC run p) w.
Proof.
  intros HT Hr. unfold PTSM_to_TRANSMIT_PERIODIC. pose proof HT as (_ & _ & Htx).
  upd HT true PTSM_TRANSMIT_PERIODIC hello tx; [done|].
  eapply PTSM_cist; [exact HT|]. do 3 keep HT.
  upd HT true PTSM_TRANSMIT_PERIODIC hello tx; [done|].
  apply nofuel_run_skip. by eapply IH.
Qed.

(** A BPDU is sent, so one transmission less is left. *)
Lemma PTSM_to_TRANSMIT_nf s hello tx m w :
  PTSM_at true PTSM_IDLE hello tx w → tx < Transmit_Hold_Count br →
  m = PTSM_to_TRANSMIT_CONFIG run p ∧ s = PTSM_TRANSMIT_CONFIG ∨
  m = PTSM_to_TRANSMIT_TCN run p ∧ s = PTSM_TRANSMIT_TCN ∨
  m = PTSM_to_TRANSMIT_RSTP run p ∧ s = PTSM_TRANSMIT_RSTP →
  (PTSM_rank true s hello (tx + 1) ≤ n)%nat → nf m w.
Proof.
  intros HT Htx Hm Hr. pose proof HT as (_ & _ & Htx0).
  assert (Hu : u32 (tx + 1) = tx + 1) by (unfold u32; apply Z.mod_small; lia).
  destruct Hm as [[-> ->]|[[-> ->]|[-> ->]]];
    [unfold PTSM_to_TRANSMIT_CONFIG|unfold PTSM_to_TRANSMIT_TCN|unfold PTSM_to_TRANSMIT_RSTP];
    unfold incr_txCount.
  - upd HT true PTSM_TRANSMIT_CONFIG hello tx; [done|]. keep HT.
    upd HT true PTSM_TRANSMIT_CONFIG hello (tx + 1); [lia|].
    upd HT true PTSM_TRANSMIT_CONFIG hello (tx + 1); [lia|].
    apply nofuel_run_skip. by eapply IH.
  - upd HT true PTSM_TRANSMIT_TCN hello tx; [done|]. keep HT.
    upd HT true PTSM_TRANSMIT_TCN hello (tx + 1); [lia|].
    apply nofuel_run_skip. by eapply IH.
  - upd HT true PTSM_TRANSMIT_RSTP hello tx; [done|]. keep HT.
    upd HT true PTSM_TRANSMIT_RSTP hello (tx + 1); [lia|].
    upd HT true PTSM_TRANSMIT_RSTP hello (tx + 1); [lia|].
    apply nofuel_run_skip. by eapply IH.
Qed.
End PTSM.

Lemma PTSM_bounded_all p br h l n :
  h ≠ 0 → Transmit_Hold_Count br <= 10 → PTSM_bounded p br h l n.
Proof.
  intros Hh Hhold. induction n as [|n IH]; intros en s hello tx w d HT Hr.
  { exfalso. unfold PTSM_rank in Hr. destruct en, s; cbn in Hr; lia. }
  cbn [PTSM_runf]. cbv zeta. pose proof HT as (HT' & Hbr & Htx).
  eapply (nofuel_get_port _ _ _ _ _ _ _ _ _ HT'); intros prt Hprt Hp.
  unfold PTSM_port in Hp. injection Hp as Hen Hs Hhello Htxc _. rewrite Hen, Hs, Hhello, Htxc.
  destruct en; cbn [negb]; [|by eapply PTSM_to_TRANSMIT_INIT_nf].
  assert (Hidle : ∀ s', s' ≠ PTSM_IDLE → s = s' →
            nofuel (transition d (PTSM_to_IDLE (PTSM_runf n p false) p)) (λ _ _, True) w).
  { intros s' Hne ->. apply nofuel_transition. eapply PTSM_to_IDLE_nf; [exact IH|exact HT|].
    unfold PTSM_rank in *. destruct (Z.eqb_spec h 0); [done|]. destruct s'; cbn in *; lia || done. }
  destruct s; try (eapply Hidle; [|reflexivity]; done).
  eapply PTSM_cist; [exact HT|].
  eapply PTSM_keep; [exact HT|total_auto|quiet_auto|same_auto|]. clear HT HT' Hidle Hbr.
  intros cist w1 HT. destruct (_ || _); [done|].
  eapply PTSM_keep; [exact HT|total_auto|quiet_auto|same_auto|]. clear HT. intros trees w2 HT.
  eapply PTSM_keep; [exact HT|total_auto|quiet_auto|same_auto|]. clear HT. intros [m|] w3 HT; [|done].
  destruct (Z.eqb_spec hello 0) as [->|Hne].
  { apply nofuel_transition. eapply PTSM_to_TRANSMIT_PERIODIC_nf; [exact IH|exact HT|].
    unfold PTSM_rank in *. cbn in *. lia. }
  apply nofuel_bind. unfold nofuel at 1, get_br. destruct HT as (HT & Hbr & _). rewrite Hbr.
  destruct (Z.ltb_spec tx (Transmit_Hold_Count br)) as [Hlt|]; cbn [negb]; [|done].
  assert (Hsend : ∀ s', s' ≠ PTSM_IDLE → (PTSM_rank br true s' hello (tx + 1) ≤ n)%nat).
  { intros s' Hs'. unfold PTSM_rank in *. destruct (Z.eqb_spec hello 0); [done|].
    destruct s'; cbn in *; lia || done. }
  assert (HT3 : PTSM_at p br h l true PTSM_IDLE hello tx w3) by done.
  repeat match goal with |- nofuel (if ?b then _ else _) _ _ => destruct b end; try done;
    apply nofuel_transition; eapply PTSM_to_TRANSMIT_nf;
    try exact IH; try exact HT3; try done; try (by apply Hsend); eauto.
Qed.

(** What the termination of Port Transmit depends on. *)
Record PTSM_config (br : bridge_t) (p : port_id) (w : world) : Prop := {
  PTSM_hold : Transmit_Hold_Count br <= 10;
  PTSM_hello x : w_ptps w !! (p, 0) = Some x → Hello_Time (portTimes x) ≠ 0;
  PTSM_txCount x : w_ports w !! p = Some x → 0 <= txCount x
}.

Lemma PTSM_nofuel br K p d w :
  wf_bridge br → Inv br K w → p ∈ br_ports br → PTSM_config br p w →
  nofuel (PTSM_run p d) (λ _ _, True) w.
Proof.
  intros Hb Hi Hp [Hhold Hhello Htx]. destruct (wf_bridge_cist _ Hb) as [l Hl].
  destruct (inv_port _ _ _ Hi _ Hp) as (prt & Hprt & Hwf). specialize (Htx _ Hprt).
  destruct (inv_ptp _ _ _ Hi (p, 0)) as (x & Hx & _); [split; [done|rewrite Hl; by left]|].
  eapply (PTSM_bounded_all p br (Hello_Time (portTimes x)) l);
    [by apply Hhello|done| |].
  - split; [|split; [apply Hi|exact Htx]]. split.
    + rewrite Hprt. cbn. unfold PTSM_port. by rewrite (wf_port_trees _ _ Hwf), Hl.
    + by rewrite Hx.
  - unfold PTSM_rank, PTSM_FUEL. destruct (portEnabled prt), (PTSM_state prt); cbn;
      try destruct (_ =? 0); lia.
Qed.

(** ** Properties *)

Lemma returns_of_safe {A} br (m : M A) w :
  Inv br [] w → safe br [] (λ _, True) m → nofuel m (λ _ _, True) w →
  ∃ a w', m w = Done a w' ∧ Inv br [] w'.
Proof.
  intros Hi Hs Hn. specialize (Hs w Hi). unfold wp in Hs. unfold nofuel in Hn.
  destruct (m w) as [a w'| |]; [|done|done]. exists a, w'. by destruct Hs.
Qed.

Lemma PRSM_total p d : total (PRSM_run p d).
Proof. unfold PRSM_run, PRSM_to_DISCARD, PRSM_to_RECEIVE. total_auto. Qed.
Lemma BDSM_total p d : total (BDSM_run p d).
Proof. total_auto. Qed.
Lemma PRSSM_total t d : total (PRSSM_run t d).
Proof. total_auto. Qed.
