(* ===== verification/Pres.v ===== *)
(** Properties of every per-tree port that a computation preserves.

    [pres P m]: if [P] holds for every per-tree port, it still does once [m] has
    returned.  [presk P k Q m] is the same for a computation that finds the per-tree
    port [k] in a condition [Q] of its own: the functions XXX_to_STATE of a machine
    assign its members one by one, and restore [P] only at the end. *)
From S2P Require Import Prelude Types Monad Md5 Vectors Outputs Procs RoleSelect PortSM TreeSM.
From S2P Require Import Prtsm Bridge Mgmt Wf System Frame.

Section pres.
Context (P : per_tree_port_t → Prop).

Definition all_ptps (w : world) : Prop := map_Forall (λ _, P) (w_ptps w).

Definition pres {A} (m : M A) : Prop := ∀ w a w', m w = Done a w' → all_ptps w → all_ptps w'.

Lemma pres_ret {A} (a : A) : pres (mret a).
Proof. by intros w b w' [= _ ->]. Qed.
Lemma pres_bind {A B} (m : M A) (f : A → M B) : pres m → (∀ a, pres (f a)) → pres (m ≫= f).
Proof.
  intros Hm Hf w b w' (a & w1 & H1 & H2)%bind_Done_inv Hw.
  eapply Hf; [exact H2|]. by eapply Hm.
Qed.
Lemma pres_fault {A} : pres (@fault A).
Proof. by intros w b w'. Qed.
Lemma pres_out_of_fuel {A} : pres (@out_of_fuel A).
Proof. by intros w b w'. Qed.
Lemma pres_of_option {A} (o : option A) : pres (of_option o).
Proof. destruct o; [apply pres_ret|apply pres_fault]. Qed.
Lemma pres_get_br : pres get_br.
Proof. by intros w b w' [= _ ->]. Qed.
Lemma pres_get_port p : pres (get_port p).
Proof. intros w. apply pres_of_option. Qed.
Lemma pres_get_tree t : pres (get_tree t).
Proof. intros w. apply pres_of_option. Qed.
Lemma pres_get_ptp k : pres (get_ptp k).
Proof. intros w. apply pres_of_option. Qed.
Lemma pres_upd_br f : pres (upd_br f).
Proof. by intros w b w' [= _ <-]. Qed.
Lemma pres_upd_port p f : pres (upd_port p f).
Proof. intros w a w'. unfold upd_port. destruct (_ !! _); [|done]. by intros [= _ <-]. Qed.
Lemma pres_upd_tree t f : pres (upd_tree t f).
Proof. intros w a w'. unfold upd_tree. destruct (_ !! _); [|done]. by intros [= _ <-]. Qed.
Lemma pres_emit e : pres (emit e).
Proof. by intros w a w' [= _ <-]. Qed.
Lemma pres_calloc_ok : pres calloc_ok.
Proof. intros w a w'. unfold calloc_ok. destruct (w_calloc w); by intros [= _ <-]. Qed.
Lemma pres_clock : pres clock_gettime.
Proof. intros w a w'. unfold clock_gettime. destruct (w_clock w); [done|]. by intros [= _ <-]. Qed.
Lemma pres_clock_readings : pres clock_readings.
Proof. by intros w a w' [= _ <-]. Qed.
Lemma pres_new_tree t x : pres (new_tree t x).
Proof. by intros w a w' [= _ <-]. Qed.
Lemma pres_free_tree t : pres (free_tree t).
Proof. by intros w a w' [= _ <-]. Qed.
Lemma pres_free_port p : pres (free_port p).
Proof. by intros w a w' [= _ <-]. Qed.
Lemma pres_free_ptp k : pres (free_ptp k).
Proof. intros w a w' [= _ <-] Hw. by apply map_Forall_delete. Qed.
Lemma pres_new_ptp k x : P x → pres (new_ptp k x).
Proof. intros Hx w a w' [= _ <-] Hw. by apply map_Forall_insert_2. Qed.
Lemma pres_alloc_port p x : pres (alloc_port p x).
Proof. by intros w a w' [= _ <-]. Qed.

Lemma pres_upd_ptp k f : (∀ x, P x → P (f x)) → pres (upd_ptp k f).
Proof.
  intros Hf w a w'. unfold upd_ptp. destruct (w_ptps w !! k) as [x|] eqn:Hx; [|done].
  intros [= _ <-] Hw. apply map_Forall_insert_2; [|done]. by apply Hf, (Hw k).
Qed.

Lemma pres_for_each {A} (l : list A) body : (∀ x, pres (body x)) → pres (for_each l body).
Proof. intros Hb. induction l; [apply pres_ret|by apply pres_bind]. Qed.
Lemma pres_any_of {A} (l : list A) body : (∀ x, pres (body x)) → pres (any_of l body).
Proof.
  intros Hb. induction l; [apply pres_ret|]. apply pres_bind; [done|].
  intros []; [apply pres_ret|done].
Qed.
Lemma pres_all_of {A} (l : list A) body : (∀ x, pres (body x)) → pres (all_of l body).
Proof.
  intros Hb. induction l; [apply pres_ret|]. apply pres_bind; [done|].
  intros []; [done|apply pres_ret].
Qed.

(** ** A port in a condition of its own *)

Definition presk {A} (k : ptp_id) (Q : per_tree_port_t → Prop) (m : M A) : Prop :=
  ∀ w a w', m w = Done a w' →
    (∀ x, w_ptps w !! k = Some x → Q x) → map_Forall (λ j x, j ≠ k → P x) (w_ptps w) →
    all_ptps w'.

Lemma presk_pres {A} k (Q : per_tree_port_t → Prop) (m : M A) :
  (∀ x, Q x → P x) → pres m → presk k Q m.
Proof.
  intros HQ Hm w a w' Hd Hk Hw. eapply Hm; [exact Hd|]. intros j x Hj.
  destruct (decide (j = k)) as [->|Hne]; [by apply HQ, Hk|by eapply Hw].
Qed.

Lemma presk_upd {A} k (Q Q' : per_tree_port_t → Prop) f (m : unit → M A) :
  (∀ x, Q x → Q' (f x)) → presk k Q' (m tt) → presk k Q (upd_ptp k f ≫= m).
Proof.
  intros HQ Hm w a w' ([] & w1 & (x & Hx & ->)%upd_ptp_Done & H)%bind_Done_inv Hk Hw.
  eapply Hm; [exact H| |]; cbn.
  - rewrite lookup_insert_eq. intros y [= <-]. by apply HQ, Hk.
  - intros j y. cbn. destruct (decide (j = k)) as [->|Hne]; [by intros _ []|].
    rewrite lookup_insert_ne by done. apply Hw.
Qed.

Lemma presk_upd_last k (Q : per_tree_port_t → Prop) f :
  (∀ x, Q x → P (f x)) → presk k Q (upd_ptp k f).
Proof.
  intros Hf w [] w' (x & Hx & ->)%upd_ptp_Done Hk Hw j y. cbn.
  destruct (decide (j = k)) as [->|Hne].
  - rewrite lookup_insert_eq. intros [= <-]. by apply Hf, Hk.
  - rewrite lookup_insert_ne by done. intros Hy. by eapply Hw.
Qed.

(** [m] leaves alone whatever [P] and [Q] are about. *)
Lemma presk_keep {A B TK} (kc : per_tree_port_t → TK) k (Q : per_tree_port_t → Prop)
    (m : M A) (f : A → M B) :
  (∀ x y, kc x = kc y → (P x ↔ P y) ∧ (Q x ↔ Q y)) →
  (∀ p j, same (λ _, tt) kc p j m) →
  (∀ a, presk k Q (f a)) → presk k Q (m ≫= f).
Proof.
  intros Hkc Hm Hf w b w' (a & w1 & H1 & H2)%bind_Done_inv Hk Hw.
  assert (Hback : ∀ j y, w_ptps w1 !! j = Some y →
            ∃ x, w_ptps w !! j = Some x ∧ kc x = kc y).
  { intros j y Hy. destruct (Hm (ptp_port j) j _ _ _ H1) as [_ Heq]. rewrite Hy in Heq.
    destruct (w_ptps w !! j) as [x|]; [|done]. injection Heq as Heq. by exists x. }
  eapply Hf; [exact H2| |].
  - intros y (x & Hx & Heq)%Hback. apply (Hkc _ _ Heq). by apply Hk.
  - intros j y (x & Hx & Heq)%Hback Hne. apply (Hkc _ _ Heq). by eapply Hw.
Qed.
End pres.

Create HintDb pres discriminated.
#[export] Hint Constants Opaque : pres.
#[export] Hint Transparent timespec : pres.
#[export] Hint Resolve pres_ret pres_fault pres_out_of_fuel pres_of_option pres_get_br
  pres_get_port pres_get_tree pres_get_ptp pres_upd_br pres_upd_port pres_upd_tree pres_emit
  pres_calloc_ok pres_clock pres_clock_readings pres_new_tree pres_free_tree pres_free_port
  pres_free_ptp pres_alloc_port : pres.
(** An assignment to members [P] does not mention. *)
#[export] Hint Extern 1 (pres _ (upd_ptp _ _)) =>
  apply pres_upd_ptp; let H := fresh in intros ? H; exact H : pres.

Ltac pres_step :=
  lazymatch goal with
  | |- pres _ (let _ := _ in _) => cbv zeta
  | |- pres _ (_ ≫= _) => apply pres_bind; [|intros ?]
  | |- pres _ (upd_br _) => apply pres_upd_br
  | |- pres _ (for_each _ _) => apply pres_for_each; intros ?
  | |- pres _ (any_of _ _) => apply pres_any_of; intros ?
  | |- pres _ (all_of _ _) => apply pres_all_of; intros ?
  | _ =>
    first
      [ solve [auto with pres]
      | lazymatch goal with
        | |- pres _ (match ?b with _ => _ end) => destruct b
        | |- pres _ ?m => let h := head_of m in unfold h
        end ]
  end.
Ltac pres_auto := repeat pres_step.

(** Recursive functions that write no per-tree port. *)
Lemma pres_find_msti_msg P msgs i n t : pres P (find_msti_msg msgs i n t).
Proof. revert i. induction n; intros i; simpl; pres_auto. Qed.
Lemma pres_txMstp_mstis P l i b : pres P (txMstp_mstis l i b).
Proof. revert i b. induction l; intros i b; simpl; pres_auto. Qed.
Lemma pres_select_root P t l r : pres P (select_root t l r).
Proof. revert r. induction l; intros r; simpl; pres_auto. Qed.
Lemma pres_allTransmitReady P l b : pres P (allTransmitReady l b).
Proof. revert b. induction l; intros b; simpl; pres_auto. Qed.
Lemma pres_set_tree_addresses P l mac c : pres P (set_tree_addresses l mac c).
Proof. revert c. induction l; intros c; simpl; pres_auto. Qed.
#[export] Hint Resolve pres_find_msti_msg pres_txMstp_mstis pres_select_root
  pres_allTransmitReady pres_set_tree_addresses : pres.

Lemma pres_and (P Q : per_tree_port_t → Prop) {A} (m : M A) :
  pres P m → pres Q m → pres (λ x, P x ∧ Q x) m.
Proof.
  intros HP HQ w a w' Hm Hw k x Hx.
  split; [eapply HP|eapply HQ]; [exact Hm| |exact Hx|exact Hm| |exact Hx];
    intros j y Hy; by apply (Hw j y).
Qed.
