(* ===== verification/Blocked.v ===== *)
(** Ports that must not forward.  The Port Role Transitions machine keeps the role,
    [learn] and [forward] of every per-tree port consistent, and the Port State
    Transition machine does the same for [learning] and [forwarding]; hence in every
    reachable bridge that has become stable, a port whose role is Disabled, Alternate
    or Backup neither learns nor forwards. *)
From S2P Require Import Prelude Types Monad Md5 Vectors Outputs Procs RoleSelect PortSM TreeSM.
From S2P Require Import Prtsm Bridge Mgmt Wf System Sample Frame DryRun Pres.

(** ** Port Role Transitions *)

(** The roles whose states a state of the machine belongs to. *)
Definition family (s : PRTSM_states_t) (r : port_role_t) : bool :=
  match s with
  | PRTSM_INIT_PORT | PRTSM_DISABLE_PORT | PRTSM_DISABLED_PORT => r ==? roleDisabled
  | PRTSM_MASTER_PROPOSED | PRTSM_MASTER_AGREED | PRTSM_MASTER_SYNCED | PRTSM_MASTER_RETIRED
  | PRTSM_MASTER_FORWARD | PRTSM_MASTER_LEARN | PRTSM_MASTER_DISCARD | PRTSM_MASTER_PORT =>
      r ==? roleMaster
  | PRTSM_ROOT_PROPOSED | PRTSM_ROOT_AGREED | PRTSM_ROOT_SYNCED | PRTSM_REROOT
  | PRTSM_ROOT_FORWARD | PRTSM_ROOT_LEARN | PRTSM_REROOTED | PRTSM_ROOT_PORT => r ==? roleRoot
  | PRTSM_DESIGNATED_PROPOSE | PRTSM_DESIGNATED_AGREED | PRTSM_DESIGNATED_SYNCED
  | PRTSM_DESIGNATED_RETIRED | PRTSM_DESIGNATED_FORWARD | PRTSM_DESIGNATED_LEARN
  | PRTSM_DESIGNATED_DISCARD | PRTSM_DESIGNATED_PORT => r ==? roleDesignated
  | PRTSM_BLOCK_PORT | PRTSM_BACKUP_PORT | PRTSM_ALTERNATE_PROPOSED | PRTSM_ALTERNATE_AGREED
  | PRTSM_ALTERNATE_PORT => (r ==? roleAlternate) || (r ==? roleBackup)
  end.

(** The roles that may forward. *)
Definition active_role (r : port_role_t) : bool :=
  match r with
  | roleRoot | roleDesignated | roleMaster => true
  | roleDisabled | roleAlternate | roleBackup => false
  end.

Definition role_ok (s : PRTSM_states_t) (r : port_role_t) (le fo : bool) : bool :=
  family s r && (if active_role r then implb fo le else negb le && negb fo).

Definition PRTSM_ok (x : per_tree_port_t) : Prop :=
  role_ok (PRTSM_state x) (role x) (learn x) (forward x) = true.

Definition PRTSM_core (x : per_tree_port_t) :=
  (PRTSM_state x, role x, learn x, forward x, selectedRole x).

Definition PRTSM_is c (x : per_tree_port_t) : Prop := PRTSM_core x = c.

Lemma PRTSM_core_iff c x y :
  PRTSM_core x = PRTSM_core y → (PRTSM_ok x ↔ PRTSM_ok y) ∧ (PRTSM_is c x ↔ PRTSM_is c y).
Proof.
  unfold PRTSM_is. intros H. rewrite H. injection H as Hs Hr Hl Hf _.
  unfold PRTSM_ok. by rewrite Hs, Hr, Hl, Hf.
Qed.

(** Finish with the members of the port known: [H] is [PRTSM_is c y]. *)
Ltac role_cases H :=
  unfold PRTSM_is, PRTSM_core in H; injection H as ? ? ? ? ?;
  unfold PRTSM_ok, PRTSM_is, PRTSM_core; cbn;
  repeat match goal with E : _ = _ |- _ => rewrite E end; done.

Section PRTSM.
Context (k : ptp_id) (v : prtsm_vars) (run : M bool) (Hrun : pres PRTSM_ok run).
Local Abbreviation from c m := (presk PRTSM_ok k (PRTSM_is c) m).

Lemma pres_run_skip : pres PRTSM_ok (run ;; skip).
Proof. apply pres_bind; [done|intros; apply pres_ret]. Qed.

Lemma from_enter s0 s r le fo sr f extra :
  (∀ p j, same (λ _, tt) PRTSM_core p j extra) →
  (∀ y, PRTSM_is (s, r, le, fo, sr) y → PRTSM_ok (f y)) →
  from (s0, r, le, fo, sr) (PRTSM_enter run k s f extra).
Proof.
  intros He Hf. unfold PRTSM_enter.
  apply (presk_upd _ _ _ (PRTSM_is (s, r, le, fo, sr))).
  { intros x H. unfold PRTSM_is, PRTSM_core in *. cbn. congruence. }
  apply (presk_keep _ PRTSM_core); [apply PRTSM_core_iff|done|]. intros _.
  apply (presk_upd _ _ _ PRTSM_ok); [exact Hf|].
  apply presk_pres; [done|apply pres_run_skip].
Qed.

(** The entry functions that assign the state with other members. *)
Lemma from_upd c f (m : M unit) :
  (∀ y, PRTSM_is c y → PRTSM_ok (f y)) → pres PRTSM_ok m → from c (upd_ptp k f ;; m).
Proof.
  intros Hf Hm. apply (presk_upd _ _ _ PRTSM_ok); [exact Hf|]. by apply presk_pres.
Qed.

Lemma same_setSyncTree {TP} (pc : port_t → TP) t p j : same pc PRTSM_core p j (setSyncTree t).
Proof. same_auto. Qed.

Lemma pres_transition d (m : M unit) :
  pres PRTSM_ok m → pres PRTSM_ok (transition d m).
Proof. intros Hm. destruct d; [apply pres_ret|]. apply pres_bind; [done|intros; apply pres_ret]. Qed.

Lemma from_transition c d (m : M unit) : (∀ y, PRTSM_is c y → PRTSM_ok y) →
  from c m → from c (transition d m).
Proof.
  intros Hc Hm. destruct d; [apply presk_pres; [done|apply pres_ret]|].
  intros w b w' ([] & w1 & H1 & [= _ <-])%bind_Done_inv Hk Hw. by eapply Hm.
Qed.

(** Case analysis on the guards of the resting states; each entry function restores
    the property. *)
Ltac ok_assign := let H := fresh in intros ? H; role_cases H.
Ltac enter_step :=
  lazymatch goal with
  | |- presk _ _ _ (PRTSM_enter _ _ _ _ _) =>
      eapply from_enter; [intros; same_auto|ok_assign]
  | |- presk _ _ _ (upd_ptp _ _ ≫= _) => apply from_upd; [ok_assign|]
  | |- presk _ _ _ (transition _ _) => apply from_transition; [ok_assign|]
  | |- presk _ _ _ (mret _) => apply presk_pres; [ok_assign|apply pres_ret]
  | |- presk _ _ _ (if ?b then _ else _) => destruct b
  | |- presk _ _ _ (_ ≫= _) =>
      eapply (presk_keep _ PRTSM_core); [apply PRTSM_core_iff|intros; same_auto|intros ?]
  | |- pres _ _ => pres_auto
  | |- presk _ _ _ ?m => let h := head_of m in unfold h
  end.
Ltac enter_auto := repeat enter_step.
Hint Resolve pres_run_skip : pres.

Lemma from_switch d prt x allSynced :
  PRTSM_ok x → from (PRTSM_core x) (PRTSM_switch run v k d prt x allSynced).
Proof.
  intros Hok. unfold PRTSM_ok in Hok.
  unfold PRTSM_core, PRTSM_switch, PRTSM_master_port, PRTSM_root_port, PRTSM_designated_port,
    PRTSM_alternate_port.
  destruct (PRTSM_state x), (role x), (learn x), (forward x); try discriminate Hok; clear Hok.
  all: cbn [negb]; rewrite ?andb_true_r, ?andb_false_r; cbn [andb orb].
  all: enter_auto.
Qed.

Lemma from_change_role d x :
  PRTSM_ok x → from (PRTSM_core x) (PRTSM_change_role run v k d (selectedRole x)).
Proof.
  intros Hok. unfold PRTSM_ok in Hok. unfold PRTSM_core, PRTSM_change_role.
  destruct (PRTSM_state x), (role x), (learn x), (forward x); try discriminate Hok; clear Hok.
  all: destruct (selectedRole x); enter_auto.
Qed.
End PRTSM.

Lemma pres_get_ptp_is {A} k (f : per_tree_port_t → M A) :
  (∀ x, PRTSM_ok x → presk PRTSM_ok k (PRTSM_is (PRTSM_core x)) (f x)) →
  pres PRTSM_ok (get_ptp k ≫= f).
Proof.
  intros Hf w a w' (x & w1 & (Hx & ->)%get_ptp_Done & H)%bind_Done_inv Hw.
  eapply Hf; [by eapply Hw|exact H| |].
  - intros y Hy. by simplify_eq.
  - intros j y Hy _. by eapply Hw.
Qed.

Lemma PRTSM_ok_is x y : PRTSM_ok x → PRTSM_is (PRTSM_core x) y → PRTSM_ok y.
Proof. intros Hx Hy. by apply (PRTSM_core_iff (PRTSM_core x) x y). Qed.

Lemma same_allSynced {TP} (pc : port_t → TP) k p j :
  same pc PRTSM_core p j (PRTSM_allSynced k).
Proof. same_auto. Qed.

Lemma pres_PRTSM_runf n v k d : pres PRTSM_ok (PRTSM_runf n v k d).
Proof.
  revert d. induction n as [|n IH]; intros d; [apply pres_out_of_fuel|].
  cbn [PRTSM_runf]. apply pres_bind; [apply pres_get_port|]. intros prt.
  apply pres_get_ptp_is. intros x Hx.
  destruct (_ && _ && _); [by apply from_change_role|].
  apply (presk_keep _ PRTSM_core); [apply PRTSM_core_iff|intros; apply same_allSynced|].
  intros allSynced. by apply from_switch.
Qed.

Lemma pres_PRTSM_run k d : pres PRTSM_ok (PRTSM_run k d).
Proof.
  unfold PRTSM_run. apply pres_bind; [pres_auto|]. intros. apply pres_PRTSM_runf.
Qed.

Lemma pres_PRTSM_begin k : pres PRTSM_ok (PRTSM_begin k).
Proof.
  unfold PRTSM_begin, PRTSM_to_INIT_PORT.
  intros w a w' H Hw.
  refine (presk_upd PRTSM_ok k (λ _, True) (λ y, PRTSM_state y = PRTSM_INIT_PORT) _ _ _ _ w a w' H _ _);
    [done| |done|intros j y Hy _; by eapply Hw].
  apply (presk_keep _ PRTSM_core); [|intros; same_auto|intros ck].
  { intros x y Hxy. split; [by apply (PRTSM_core_iff (PRTSM_core x))|].
    injection Hxy as -> _ _ _ _. done. }
  apply (presk_upd _ _ _ PRTSM_ok).
  { intros y Hy. unfold PRTSM_ok. cbn. by rewrite Hy. }
  apply presk_pres; [done|]. pres_auto.
Qed.

(** ** Port State Transition *)

Definition PSTSM_ok (x : per_tree_port_t) : Prop :=
  learning x = (PSTSM_state x !=? PSTSM_DISCARDING) ∧
  forwarding x = (PSTSM_state x ==? PSTSM_FORWARDING).

Definition PSTSM_core (x : per_tree_port_t) := (PSTSM_state x, learning x, forwarding x).
Definition PSTSM_is c (x : per_tree_port_t) : Prop := PSTSM_core x = c.

Lemma PSTSM_core_iff c x y :
  PSTSM_core x = PSTSM_core y → (PSTSM_ok x ↔ PSTSM_ok y) ∧ (PSTSM_is c x ↔ PSTSM_is c y).
Proof.
  unfold PSTSM_is. intros H. rewrite H. injection H as Hs Hl Hf.
  unfold PSTSM_ok. by rewrite Hs, Hl, Hf.
Qed.

(** Entering state [s]: what [R] says of [learning] and [forwarding] still holds when
    the rest of the state, [m], is executed. *)
Lemma presk_PSTSM_enter (R : bool → bool → Prop) s st k (m : M unit) :
  presk PSTSM_ok k (λ x, PSTSM_state x = s ∧ R (learning x) (forwarding x)) m →
  presk PSTSM_ok k (λ x, R (learning x) (forwarding x))
    (upd_ptp k (λ x, x <| PSTSM_state := s |>) ;; PSTSM_set_state k st ;; m).
Proof.
  intros Hm.
  apply (presk_upd _ _ _ (λ x, PSTSM_state x = s ∧ R (learning x) (forwarding x)));
    [|eapply (presk_keep _ PSTSM_core)].
  - intros x H. exact (conj eq_refl H).
  - intros x y Hxy. split; [by apply (PSTSM_core_iff (PSTSM_core x))|].
    injection Hxy as -> -> ->. done.
  - intros. same_auto.
  - intros _. exact Hm.
Qed.

Lemma presk_weaken (P : per_tree_port_t → Prop) {A} k (Q Q' : per_tree_port_t → Prop) (m : M A) :
  (∀ x, Q x → Q' x) → presk P k Q' m → presk P k Q m.
Proof. intros HQ Hm w a w' H Hk. apply (Hm w a w' H). intros x Hx. by apply HQ, Hk. Qed.

Lemma presk_to_DISCARDING k (run : M bool) begin Q :
  pres PSTSM_ok run → presk PSTSM_ok k Q (PSTSM_to_DISCARDING run k begin).
Proof.
  intros Hrun. eapply presk_weaken; [|apply (presk_PSTSM_enter (λ _ _, True))]; [done|].
  apply (presk_upd _ _ _ PSTSM_ok).
  - intros x [Hs _]. unfold PSTSM_ok. cbn. by rewrite Hs.
  - apply presk_pres; [done|]. destruct begin; cbn; pres_auto.
Qed.

Lemma pres_PSTSM_begin k : pres PSTSM_ok (PSTSM_begin k).
Proof.
  intros w a w' H Hw. unfold PSTSM_begin in H.
  eapply (presk_to_DISCARDING _ _ _ (λ _, True)); [apply pres_out_of_fuel|exact H|done|].
  intros j x Hx _. by eapply Hw.
Qed.

Lemma pres_PSTSM_runf n k d : pres PSTSM_ok (PSTSM_runf n k d).
Proof.
  revert d. induction n as [|n IH]; intros d; [apply pres_out_of_fuel|]. cbn [PSTSM_runf].
  assert (Hr : pres PSTSM_ok (PSTSM_runf n k false)) by done.
  intros w b w' (x & w1 & (Hx & ->)%get_ptp_Done & H)%bind_Done_inv Hw.
  assert (Hm : ∀ m, presk PSTSM_ok k (PSTSM_is (PSTSM_core x)) m →
            transition d m w = Done b w' → all_ptps PSTSM_ok w').
  { intros m Hm. unfold transition. destruct d; [by intros [= _ <-]|].
    intros ([] & w1 & H1 & [= _ <-])%bind_Done_inv. eapply Hm; [exact H1| |].
    - intros y Hy. by simplify_eq.
    - intros j y Hy _. by eapply Hw. }
  destruct (Hw k x Hx) as [Hl Hf].
  destruct (PSTSM_state x) eqn:Hs; cbn in Hl, Hf.
  - destruct (learn x); [|by injection H as _ <-]. revert H. apply Hm.
    eapply presk_weaken; [|apply (presk_PSTSM_enter (λ _ f, f = false))].
    + intros y Hy. injection Hy as _ _ Hy. exact (eq_trans Hy Hf).
    + apply (presk_upd _ _ _ PSTSM_ok); [|by apply presk_pres; [|pres_auto]].
      intros y [Hy ?]. unfold PSTSM_ok. cbn. by rewrite Hy.
  - destruct (learn x); cbn [negb] in H;
      [destruct (forward x); [|by injection H as _ <-]|].
    + revert H. apply Hm.
      eapply presk_weaken; [|apply (presk_PSTSM_enter (λ l _, l = true))].
      * intros y Hy. injection Hy as _ Hy _. exact (eq_trans Hy Hl).
      * apply presk_upd_last. intros y [Hy ?]. unfold PSTSM_ok. cbn. by rewrite Hy.
    + revert H. apply Hm. by apply presk_to_DISCARDING.
  - destruct (forward x); [by injection H as _ <-|]. revert H. apply Hm.
    by apply presk_to_DISCARDING.
Qed.

(** ** Every event keeps both *)

Definition port_ok (x : per_tree_port_t) : Prop := PRTSM_ok x ∧ PSTSM_ok x.

Lemma port_ok_PISM n k d : pres port_ok (PISM_runf n k d).
Proof. revert d. induction n; intros d; cbn [PISM_runf]; pres_auto. Qed.
Lemma port_ok_TCSM n k d : pres port_ok (TCSM_runf n k d).
Proof. revert d. induction n; intros d; cbn [TCSM_runf]; pres_auto. Qed.
Lemma port_ok_PPMSM n p d : pres port_ok (PPMSM_runf n p d).
Proof. revert d. induction n; intros d; cbn [PPMSM_runf]; pres_auto. Qed.
Lemma port_ok_PTSM n p d : pres port_ok (PTSM_runf n p d).
Proof. revert d. induction n; intros d; cbn [PTSM_runf]; pres_auto. Qed.

Lemma port_ok_PRTSM k d : pres port_ok (PRTSM_run k d).
Proof.
  apply pres_and; [apply pres_PRTSM_run|]. unfold PRTSM_run.
  apply pres_bind; [pres_auto|]. intros v. revert d. generalize PRTSM_FUEL.
  induction n; intros d; cbn [PRTSM_runf]; pres_auto.
Qed.
Lemma port_ok_PRTSM_begin k : pres port_ok (PRTSM_begin k).
Proof. apply pres_and; [apply pres_PRTSM_begin|]. pres_auto. Qed.
Lemma port_ok_PSTSM n k d : pres port_ok (PSTSM_runf n k d).
Proof.
  apply pres_and; [|apply pres_PSTSM_runf].
  revert d. induction n; intros d; cbn [PSTSM_runf]; pres_auto.
Qed.
Lemma port_ok_PSTSM_begin k : pres port_ok (PSTSM_begin k).
Proof. apply pres_and; [|apply pres_PSTSM_begin]. pres_auto. Qed.
#[export] Hint Resolve port_ok_PISM port_ok_TCSM port_ok_PPMSM port_ok_PTSM port_ok_PRTSM
  port_ok_PRTSM_begin port_ok_PSTSM port_ok_PSTSM_begin : pres.

Lemma port_ok_loop n tv : pres port_ok (br_state_machines_loop n tv).
Proof. induction n; cbn [br_state_machines_loop]; pres_auto. Qed.
#[export] Hint Resolve port_ok_loop : pres.
Lemma port_ok_run : pres port_ok br_state_machines_run.
Proof. pres_auto. Qed.
#[export] Hint Resolve port_ok_run : pres.

Lemma port_ok_created tree prt : port_ok (created_ptp tree prt).
Proof. split; [done|]. by split. Qed.
Lemma port_ok_new_ptp k tree prt : pres port_ok (new_ptp k (created_ptp tree prt)).
Proof. apply pres_new_ptp, port_ok_created. Qed.
#[export] Hint Resolve port_ok_new_ptp : pres.

Lemma port_ok_create_port p l : pres port_ok (create_ptps_of_port p l).
Proof. induction l; cbn [create_ptps_of_port]; pres_auto. Qed.
Lemma port_ok_create_tree t a l : pres port_ok (create_ptps_of_tree t a l).
Proof. induction l; cbn [create_ptps_of_tree]; pres_auto. Qed.
Lemma port_ok_internal_costs l c b : pres port_ok (set_internal_costs l c b).
Proof. revert b. induction l; intros b; cbn [set_internal_costs]; pres_auto. Qed.
#[export] Hint Resolve port_ok_create_port port_ok_create_tree port_ok_internal_costs : pres.

Lemma port_ok_handle stack i : pres port_ok (handle stack i).
Proof. destruct i; cbn [handle]; pres_auto. Qed.

(** ** Stable bridges *)

Lemma or_else_false a b w : (∀ c w', a w = Done c w' → w' = w) →
  or_else a b w = Done false w → a w = Done false w ∧ b w = Done false w.
Proof.
  intros Ha (c & w1 & H1 & H2)%bind_Done_inv. pose proof (Ha _ _ H1) as ->.
  destruct c; [done|]. by split.
Qed.

Lemma any_of_false {A} (l : list A) body w x : (∀ y, reads (body y)) →
  any_of l body w = Done false w → x ∈ l → body x w = Done false w.
Proof.
  intros Hr. induction l as [|y l IH]; [by intros _ ?%elem_of_nil|]. cbn [any_of].
  intros (c & w1 & H1 & H2)%bind_Done_inv. pose proof (Hr _ _ _ _ H1) as ->.
  destruct c; [done|]. intros [->|Hx]%elem_of_cons; [done|by apply IH].
Qed.

Lemma dry_reads sm : DryRun sm → reads (sm true).
Proof. intros H w b w' Hd. by eapply (dry_pure _ _ (H w)). Qed.

Lemma run_ptps_false sm w k : wf w → (∀ j, DryRun (sm j)) →
  run_ptps true sm w = Done false w → valid_ptp (w_br w) k → sm k true w = Done false w.
Proof.
  intros [_ Hi] Hsm (l & w1 & (br & w2 & [= <- <-] & [= <- <-])%bind_Done_inv & H)%bind_Done_inv [Hp Ht].
  destruct (inv_port _ _ _ Hi _ Hp) as (x & Hx & [Hxt _ _]).
  assert (Hr : ∀ j, reads (b ← sm j true; mret (b && true))).
  { intros j. apply reads_bind; [by apply dry_reads|]. auto with reads. }
  eapply any_of_false in H; [|intros p|exact Hp]; cycle 1.
  { apply reads_bind; [auto with reads|]. intros l. by apply reads_any_of. }
  apply bind_Done_inv in H
    as (l & w1 & (y & w2 & [Hy ->]%get_port_Done & [= <- <-])%bind_Done_inv & H).
  rewrite Hx in Hy. injection Hy as <-. rewrite Hxt in H.
  eapply (any_of_false _ _ _ k) in H; [|done|]; cycle 1.
  { apply (list_elem_of_fmap_2' _ _ (ptp_tree k)); [exact Ht|by destruct k]. }
  apply bind_Done_inv in H as (c & w1 & H & Hc). pose proof (dry_reads _ (Hsm _) _ _ _ H) as ->.
  by destruct c.
Qed.

(** What [stable] says of one machine of one per-tree port. *)
Lemma stable_ptps w k : wf w → stable w → valid_ptp (w_br w) k →
  PISM_run k true w = Done false w ∧ PRTSM_run k true w = Done false w ∧
  PSTSM_run k true w = Done false w ∧ TCSM_run k true w = Done false w.
Proof.
  intros Hw H Hk. specialize (H true). unfold __br_state_machines_run in H.
  repeat match type of H with
  | or_else ?a _ w = _ =>
      apply or_else_false in H as [? H];
        [|first [apply (dry_reads (λ d, run_ports d _) _)|apply (dry_reads (λ d, run_trees d _) _)
                |apply (dry_reads (λ d, run_ptps d _) _)]]
  end.
  repeat split; (eapply run_ptps_false; [done| |eassumption|done]); apply _.
Qed.

(** [learning] and [forwarding] follow [learn] and [forward]. *)
Lemma stable_PSTSM n w k x : w_ptps w !! k = Some x → PSTSM_ok x →
  PSTSM_runf (S n) k true w = Done false w → implb (forward x) (learn x) = true →
  learning x = learn x ∧ forwarding x = forward x.
Proof.
  intros Hx [-> ->]. cbn [PSTSM_runf].
  intros (y & w1 & (Hy & ->)%get_ptp_Done & H)%bind_Done_inv. rewrite Hx in Hy.
  injection Hy as <-. destruct (PSTSM_state x), (learn x), (forward x); try discriminate H.
  all: done.
Qed.

Lemma PRTSM_ok_blocked x : PRTSM_ok x →
  implb (forward x) (learn x) = true ∧
  (active_role (role x) = false → learn x = false ∧ forward x = false).
Proof.
  unfold PRTSM_ok, role_ok. intros [_ H]%andb_true_iff.
  destruct (role x), (learn x), (forward x); cbn in *; try discriminate H; done.
Qed.

Lemma all_ptps_created stack mac w0 w :
  w_ptps w0 = ∅ → MSTP_IN_bridge_create stack mac w0 = Done true w → all_ptps port_ok w.
Proof.
  intros H0 H.
  assert (Hp : pres port_ok (MSTP_IN_bridge_create stack mac)) by pres_auto.
  eapply Hp; [exact H|]. intros k x Hx. by rewrite H0 in Hx.
Qed.

Lemma reachable_port_ok stack w : reachable stack w → all_ptps port_ok w.
Proof.
  induction 1 as [mac w0 w _ _ H0 Hc|i clock allocs w w' _ IH _ Hh|w w' _ IH He].
  - exact (all_ptps_created _ _ _ _ H0 Hc).
  - eapply port_ok_handle; [exact Hh|]. exact IH.
  - destruct He; exact IH.
Qed.

(** C6: at any point of any run, a port whose role in a tree is Disabled, Alternate or
    Backup is told neither to learn nor to forward there, a port told to forward is told
    to learn, and the state of the Port Role Transitions machine is one of those of the
    current role. *)
Theorem reachable_roles (stack : list Z) (w : world) (k : ptp_id) (x : per_tree_port_t) :
  reachable stack w → w_ptps w !! k = Some x →
  family (PRTSM_state x) (role x) = true ∧
  (forward x = true → learn x = true) ∧
  (active_role (role x) = false → learn x = false ∧ forward x = false).
Proof.
  intros Hr Hx. destruct (reachable_port_ok _ _ Hr k x Hx) as [Hok _].
  destruct (PRTSM_ok_blocked x Hok) as [Himp Hb]. split; [|split; [|done]].
  - by apply andb_true_iff in Hok as [? _].
  - by destruct (forward x), (learn x).
Qed.

(** C5: in a bridge that has become stable, every port learns and forwards in a tree
    exactly when its role machine says so; in particular a port that is Disabled,
    Alternate or Backup there does neither: the redundant links are cut. *)
Theorem stable_blocked (stack : list Z) (w : world) (k : ptp_id) (x : per_tree_port_t) :
  length stack = 64%nat → reachable stack w → stable w →
  valid_ptp (w_br w) k → w_ptps w !! k = Some x →
  learning x = learn x ∧ forwarding x = forward x ∧
  (active_role (role x) = false → learning x = false ∧ forwarding x = false).
Proof.
  intros Hs Hr Hst Hk Hx. destruct (reachable_port_ok _ _ Hr k x Hx) as [Hok Hps].
  destruct (PRTSM_ok_blocked x Hok) as [Himp Hb].
  destruct (stable_ptps w k) as (_ & _ & H & _); [by apply (reachable_wf_world stack)|done..|].
  destruct (stable_PSTSM 3 w k x Hx Hps H Himp) as [-> ->]. auto.
Qed.

(** ** The theorems on the bridge of Sample *)

(** The answer of a dry run. *)
Definition dry_answer (w : world) : option bool :=
  match __br_state_machines_run true w with Done b _ => Some b | _ => None end.

Lemma stable_dry_answer w : dry_answer w = Some false → stable w.
Proof.
  unfold dry_answer. intros H. apply stable_iff.
  destruct (__br_state_machines_run true w) as [b w'| |] eqn:Hd; try discriminate H.
  injection H as ->. by rewrite (dry_pure _ _ (br_state_machines_dry w) _ _ Hd) in Hd |- *.
Qed.

Lemma sample_running_ptp d : ∃ x, w_ptps (sample_running d) !! (1%nat, 0) = Some x.
Proof.
  assert (H : bool_decide (is_Some (w_ptps (sample_running d) !! (1%nat, 0))) = true)
    by (vm_compute; reflexivity).
  apply bool_decide_eq_true in H as [x Hx]. by exists x.
Qed.

Lemma reachable_roles_witness :
  ∃ w x, reachable sample_stack w ∧ w_ptps w !! (1%nat, 0) = Some x ∧
    family (PRTSM_state x) (role x) = true ∧ (forward x = true → learn x = true) ∧
    (active_role (role x) = false → learn x = false ∧ forward x = false).
Proof.
  destruct sample_running_reachable as [d Hr]. destruct (sample_running_ptp d) as [x Hx].
  exists (sample_running d), x. split; [exact Hr|]. split; [exact Hx|].
  exact (reachable_roles sample_stack _ _ x Hr Hx).
Defined.

Lemma stable_blocked_witness :
  ∃ w x, reachable sample_stack w ∧ stable w ∧ w_ptps w !! (1%nat, 0) = Some x ∧
    learning x = learn x ∧ forwarding x = forward x ∧
    (active_role (role x) = false → learning x = false ∧ forwarding x = false).
Proof.
  destruct sample_running_reachable as [d Hr]. destruct (sample_running_ptp d) as [x Hx].
  assert (Hs : stable (sample_running d)) by (apply stable_dry_answer; vm_compute; reflexivity).
  assert (Hk : valid_ptp (w_br (sample_running d)) (1%nat, 0)).
  { assert (Hb : br_ports (w_br (sample_running d)) = [1%nat]) by (vm_compute; reflexivity).
    assert (Ht : br_trees (w_br (sample_running d)) = [0]) by (vm_compute; reflexivity).
    split; [rewrite Hb|rewrite Ht]; by apply list_elem_of_singleton. }
  exists (sample_running d), x. split; [exact Hr|]. split; [exact Hs|]. split; [exact Hx|].
  exact (stable_blocked sample_stack _ _ x eq_refl Hr Hs Hk Hx).
Defined.
