(* ===== verification/Settle.v ===== *)
(** Runs of the Port Role Transitions machine come to an end: each transition uses up one
    of the flags that ask for it.  The exception is a Master port that is told to discard
    and, because all other ports are synced, to learn and forward again. *)
From S2P Require Import Prelude Types Monad Vectors Outputs Procs RoleSelect PortSM TreeSM.
From S2P Require Import Prtsm Bridge Wf Safety System Sample Frame DryRun Termination Pres Blocked.

(** ** The transitions that are left *)

Section rank.
Context (v : prtsm_vars) (op ba : bool).
Implicit Types x : per_tree_port_t.

(** Flags that are each cleared by one transition. *)
Definition to_sync x : nat := b2n (sync x || negb (synced x)).
Definition to_open x : nat := b2n (negb (learn x)) + b2n (negb (forward x)).

(** Why a designated port is to discard, other than [disputed]; no transition sets it. *)
Definition held x : bool :=
  (sync x && negb (synced x)) || (reRoot x && (rrWhile x ≠? 0)) || ba.

(** Opening and closing of a port: it is not opened while it is held, and it is closed
    once for a dispute. *)
Definition to_swing x : nat :=
  if held x then (if disputed x then 5 else 2 + b2n (learn x || forward x))
  else if disputed x then to_open x + 3 else to_open x.

(** A Master port that is not asked to discard, other than by [disputed]. *)
Definition calm x : bool := op || negb (reRoot x || sync x || proposed x).

(** Runs of the machine from the resting state of role [r]. *)
Definition rest_rank (r : port_role_t) x : nat :=
  match r with
  | roleDisabled =>
      1 + b2n (sync x || reRoot x || negb (synced x) || (fdWhile x ≠? v_MaxAge v))
  | roleMaster =>
      1 + 2 * (b2n (reRoot x) + to_sync x + 2 * b2n (proposed x) + b2n (negb (agree x))
               + (if op then to_open x else if disputed x then to_open x + 3 else to_open x))
  | roleRoot =>
      1 + 2 * (2 * b2n (proposed x) + to_sync x + b2n (negb (agree x)) + to_open x
               + (if forward x then b2n (reRoot x) else 1 + b2n (negb (reRoot x))))
        + b2n (rrWhile x ≠? v_FwdDelay v)
  | roleDesignated =>
      1 + 2 * (b2n (reRoot x) + to_sync x + b2n (proposed x || negb (agree x))
               + b2n (negb (proposing x)) + to_swing x)
  | roleAlternate | roleBackup =>
      1 + 2 * (2 * b2n (proposed x) + b2n (negb (agree x))
               + b2n ((rbWhile x ≠? 2 * v_HelloTime v) && (r ==? roleBackup)))
        + b2n ((fdWhile x ≠? v_forwardDelay v) || sync x || reRoot x || negb (synced x))
  end.

(** Does the machine leave the state at once? *)
Definition passing (s : PRTSM_states_t) : bool :=
  match s with
  | PRTSM_DISABLE_PORT | PRTSM_DISABLED_PORT | PRTSM_MASTER_PORT | PRTSM_ROOT_PORT
  | PRTSM_DESIGNATED_PORT | PRTSM_BLOCK_PORT | PRTSM_ALTERNATE_PORT => false
  | _ => true
  end.

Definition PRTSM_rank x : nat :=
  if negb (selected x && negb (updtInfo x)) then 1 + b2n (passing (PRTSM_state x)) else
  if role x !=? selectedRole x then 2 + rest_rank (selectedRole x) x else
  match PRTSM_state x with
  | PRTSM_INIT_PORT => 3
  | PRTSM_DISABLE_PORT => 2
  | PRTSM_BLOCK_PORT => 1 + rest_rank (role x) x
  | s => b2n (passing s) + rest_rank (role x) x
  end.

Definition PRTSM_fine x : Prop :=
  family (PRTSM_state x) (role x) = true ∧ (selectedRole x = roleMaster → calm x = true).
End rank.

Lemma b2n_le b : (b2n b ≤ 1)%nat.
Proof. destruct b; cbn; lia. Qed.

Lemma PRTSM_rank_bound v op ba x : (PRTSM_rank v op ba x ≤ PRTSM_FUEL)%nat.
Proof.
  assert (Hr : ∀ r, (rest_rank v op ba r x ≤ 30)%nat).
  { intros r. unfold rest_rank, to_swing, to_open, to_sync.
    repeat match goal with |- context [b2n ?b] => pose proof (b2n_le b); generalize dependent (b2n b); intros end.
    destruct r, op, (forward x), (held ba x), (disputed x); lia. }
  unfold PRTSM_rank, PRTSM_FUEL. pose proof (Hr (role x)). pose proof (Hr (selectedRole x)).
  pose proof (b2n_le (passing (PRTSM_state x))).
  destruct (negb _), (role x !=? selectedRole x); try lia. destruct (PRTSM_state x); cbn in *; lia.
Qed.

Lemma reads_allSynced k : reads (PRTSM_allSynced k).
Proof. unfold PRTSM_allSynced, ptps_of_tree. reads_auto. Qed.
Lemma reads_reRooted k : reads (PRTSM_reRooted k).
Proof. unfold PRTSM_reRooted, ptps_of_tree. reads_auto. Qed.

(** ** One run *)

Section run.
Context (v : prtsm_vars) (k : ptp_id) (op ba : bool).
Local Abbreviation nf m w := (nofuel m (λ _ _, True) w).
Local Abbreviation rank := (PRTSM_rank v op ba).
Local Abbreviation fine := (PRTSM_fine op).

(** The per-tree port is [x], and what the machine reads of its port. *)
Definition at_port (x : per_tree_port_t) (w : world) : Prop :=
  w_ptps w !! k = Some x ∧
  (∃ y, w_ports w !! ptp_port k = Some y ∧ operEdge y = op ∧ BaInconsistent y = ba) ∧
  (∃ t, w_trees w !! ptp_tree k = Some t ∧ ptp_port k ∈ tree_ports t).

Lemma at_get_ptp {B} (f : per_tree_port_t → M B) x w :
  at_port x w → nf (f x) w → nf (get_ptp k ≫= f) w.
Proof. intros [Hx _] Hf. apply nofuel_bind. unfold nofuel at 1, get_ptp. by rewrite Hx. Qed.

Lemma at_assoc {A B C} (m : M A) (f : A → M B) (g : B → M C) w :
  nf (m ≫= λ a, f a ≫= g) w → nf ((m ≫= f) ≫= g) w.
Proof. unfold nofuel, mbind, M_bind. by destruct (m w). Qed.

Lemma at_get_port {B} (f : port_t → M B) x w :
  at_port x w → (∀ y, operEdge y = op → BaInconsistent y = ba → nf (f y) w) →
  nf (get_port (ptp_port k) ≫= f) w.
Proof.
  intros (_ & (y & Hy & ? & ?) & _) Hf. apply nofuel_bind. unfold nofuel at 1, get_port.
  rewrite Hy. by apply Hf.
Qed.

Lemma at_reads {A B} (m : M A) (f : A → M B) w :
  reads m → total m → (∀ a, nf (f a) w) → nf (m ≫= f) w.
Proof.
  intros Hr Ht Hf. apply nofuel_bind. unfold nofuel at 1.
  destruct (m w) as [a w'| |] eqn:E; [|done|by apply Ht in E]. apply Hr in E as ->. apply Hf.
Qed.

Lemma at_upd {B} (m : unit → M B) f x w :
  at_port x w → (∀ w', at_port (f x) w' → nf (m tt) w') → nf (upd_ptp k f ≫= m) w.
Proof.
  intros (Hx & Hy & Ht) Hm. apply nofuel_bind. unfold nofuel at 1, upd_ptp. rewrite Hx.
  apply Hm. split; [apply lookup_insert_eq|done].
Qed.

Lemma at_upd_port {B} (m : unit → M B) f x w :
  at_port x w → (∀ y, operEdge (f y) = operEdge y ∧ BaInconsistent (f y) = BaInconsistent y) →
  (∀ w', at_port x w' → nf (m tt) w') → nf (upd_port (ptp_port k) f ≫= m) w.
Proof.
  intros (Hx & (y & Hy & Ho & Hb) & Ht) Hf Hm. apply nofuel_bind. unfold nofuel at 1, upd_port.
  rewrite Hy. apply Hm. split; [done|]. split; [|done]. exists (f y). cbn.
  destruct (Hf y) as [-> ->]. by rewrite lookup_insert_eq.
Qed.

(** An assignment to all ports of the tree. *)
Lemma each_lookup g t l w w' :
  (∀ x, g (g x) = g x) →
  for_each (map (λ p, (p, t)) l) (λ j, upd_ptp j g) w = Done tt w' →
  w_ports w' = w_ports w ∧ w_trees w' = w_trees w ∧
  (∀ p, w_ptps w' !! (p, t) = (if bool_decide (p ∈ l) then g else id) <$> w_ptps w !! (p, t)).
Proof.
  intros Hg. revert w. induction l as [|q l IH]; intros w.
  { intros [= <-]. split; [done|]. split; [done|]. intros p. by destruct (w_ptps w !! _). }
  cbn [map for_each]. intros ([] & w1 & (x & Hx & ->)%upd_ptp_Done & H)%bind_Done_inv.
  apply IH in H as (-> & -> & Hl). split; [done|]. split; [done|]. intros p. rewrite Hl. cbn.
  destruct (decide (p = q)) as [->|Hne].
  - rewrite lookup_insert_eq, (bool_decide_true (q ∈ q :: l)) by left.
    etrans; [|exact (f_equal (fmap g) (eq_sym Hx))]. cbn.
    destruct (bool_decide _); cbn; [by rewrite Hg|done].
  - rewrite lookup_insert_ne by congruence.
    rewrite (bool_decide_ext (p ∈ q :: l) (p ∈ l)); [done|]. rewrite elem_of_cons. split; [by intros [->|?]|by right].
Qed.

Lemma at_each {B} (m : unit → M B) g x w :
  (∀ y, g (g y) = g y) → at_port x w → (∀ w', at_port (g x) w' → nf (m tt) w') →
  nf (FOREACH_PTP_IN_TREE (ptp_tree k) (λ j, upd_ptp j g) ≫= m) w.
Proof.
  intros Hg (Hx & Hy & t & Ht & Hp) Hm. apply nofuel_bind. unfold nofuel at 1.
  assert (Htot : total (FOREACH_PTP_IN_TREE (ptp_tree k) (λ j, upd_ptp j g))) by total_auto.
  destruct (FOREACH_PTP_IN_TREE _ _ w) as [[] w'| |] eqn:E; [|done|by apply Htot in E].
  unfold FOREACH_PTP_IN_TREE, ptps_of_tree in E.
  apply bind_Done_inv in E as (l & w1 & (t' & w2 & [Ht' ->]%get_tree_Done & [= <- <-])%bind_Done_inv & E).
  rewrite Ht in Ht'. injection Ht' as <-.
  apply each_lookup in E as (Hports & Htrees & Hl); [|done]. apply Hm.
  split; [|by rewrite Hports, Htrees; eauto]. destruct k as [p u]. cbn in *.
  etrans; [apply Hl|]. rewrite bool_decide_true by done. exact (f_equal (fmap g) Hx).
Qed.

(** ** Entering a state *)

Context (n : nat) (IH : ∀ x w, at_port x w → fine x → (rank x ≤ n)%nat → nf (PRTSM_runf n v k false) w).
Local Abbreviation run := (PRTSM_runf n v k false).

Lemma run_skip_nf x w : at_port x w → fine x → (rank x ≤ n)%nat → nf (run ;; skip) w.
Proof. intros. apply nofuel_run_skip. by eapply IH. Qed.

Lemma enter_nf s f x w :
  at_port x w → let x' := f (x <| PRTSM_state := s |>) in
  fine x' → (rank x' ≤ n)%nat → nf (PRTSM_enter run k s f skip) w.
Proof.
  intros Hx x' Hf Hr. unfold PRTSM_enter. eapply at_upd; [exact Hx|]. intros w1 H1.
  apply (at_reads skip); [apply reads_ret|done|]. intros _.
  eapply at_upd; [exact H1|]. intros w2 H2. by eapply run_skip_nf.
Qed.

Lemma enter_sync_nf s f x w :
  at_port x w → let x' := f (x <| PRTSM_state := s |> <| sync := true |>) in
  fine x' → (rank x' ≤ n)%nat → nf (PRTSM_enter run k s f (setSyncTree (ptp_tree k))) w.
Proof.
  intros Hx x' Hf Hr. unfold PRTSM_enter. eapply at_upd; [exact Hx|]. intros w1 H1.
  eapply at_each; [done|exact H1|]. intros w2 H2.
  eapply at_upd; [exact H2|]. intros w3 H3. by eapply run_skip_nf.
Qed.

Lemma newInfo_nf x w : at_port x w → fine x → (rank x ≤ n)%nat →
  nf (set_newInfoXst k ;; run ;; skip) w.
Proof.
  intros Hx Hf Hr. unfold set_newInfoXst.
  destruct (ptp_MSTID k =? 0); (eapply at_upd_port; [exact Hx|done|]); intros; by eapply run_skip_nf.
Qed.


(** Active in role [r], which is the selected one. *)
Definition placed (r : port_role_t) (x : per_tree_port_t) : Prop :=
  selected x && negb (updtInfo x) = true ∧ role x = r ∧ selectedRole x = r.

Lemma rank_placed r x : placed r x →
  rank x = match PRTSM_state x with
           | PRTSM_INIT_PORT => 3
           | PRTSM_DISABLE_PORT => 2
           | PRTSM_BLOCK_PORT => 1 + rest_rank v op ba r x
           | s => b2n (passing s) + rest_rank v op ba r x
           end%nat.
Proof.
  intros (Hgo & Hr & Hs). unfold PRTSM_rank. rewrite Hgo, Hr, Hs, bool_decide_true by done.
  by destruct (PRTSM_state x).
Qed.

(** A transition within the states of the role. *)
Definition pays (r : port_role_t) (s : PRTSM_states_t) (x x' : per_tree_port_t) : Prop :=
  PRTSM_state x' = s ∧ placed r x' ∧ family s r = true ∧ (r = roleMaster → calm op x' = true) ∧
  match s with PRTSM_INIT_PORT | PRTSM_DISABLE_PORT | PRTSM_BLOCK_PORT => False | _ => True end ∧
  (S (b2n (passing s) + rest_rank v op ba r x') ≤ rest_rank v op ba r x)%nat.

Lemma pays_rank r s x x' :
  (rest_rank v op ba r x ≤ S n)%nat → pays r s x x' → fine x' ∧ (rank x' ≤ n)%nat.
Proof.
  intros Hr (<- & Hp & Hf & Hc & Hs & Hle). split.
  - destruct Hp as (_ & Hrole & Hsel). split; [by rewrite Hrole|]. rewrite Hsel. exact Hc.
  - rewrite (rank_placed r x' Hp). destruct (PRTSM_state x'); done || lia.
Qed.

Lemma pays_enter r s f x w :
  at_port x w → (rest_rank v op ba r x ≤ S n)%nat → pays r s x (f (x <| PRTSM_state := s |>)) →
  nf (PRTSM_enter run k s f skip) w.
Proof. intros Hx Hr [??]%pays_rank; [|done]. by eapply enter_nf. Qed.

Lemma pays_enter_sync r s f x w :
  at_port x w → (rest_rank v op ba r x ≤ S n)%nat →
  pays r s x (f (x <| PRTSM_state := s |> <| sync := true |>)) →
  nf (PRTSM_enter run k s f (setSyncTree (ptp_tree k))) w.
Proof. intros Hx Hr [??]%pays_rank; [|done]. by eapply enter_sync_nf. Qed.

Lemma pays_run r s x x' w :
  at_port x' w → (rest_rank v op ba r x ≤ S n)%nat → pays r s x x' → nf (run ;; skip) w.
Proof. intros Hx Hr [??]%pays_rank; [|done]. by eapply run_skip_nf. Qed.

Lemma pays_newInfo r s f x w :
  at_port x w → (rest_rank v op ba r x ≤ S n)%nat → pays r s x (f x) →
  nf (upd_ptp k f ;; set_newInfoXst k ;; run ;; skip) w.
Proof.
  intros Hx Hr [??]%pays_rank; [|done]. eapply at_upd; [exact Hx|]. intros w1 H1.
  by eapply newInfo_nf.
Qed.

(** XXX_FORWARD sets [agreed] as the port's [sendRSTP] is. *)
Lemma pays_forward r f x w :
  at_port x w → (rest_rank v op ba r x ≤ S n)%nat → 
  (∀ b, pays r (PRTSM_state (f x)) x (f x <| agreed := b |>)) →
  nf (upd_ptp k f ;; prt ← get_port (ptp_port k);
      upd_ptp k (λ x, x <| agreed := sendRSTP prt |>) ;; run ;; skip) w.
Proof.
  intros Hx Hr Hp. eapply at_upd; [exact Hx|]. intros w1 H1.
  eapply at_get_port; [exact H1|]. intros y _ _. eapply at_upd; [exact H1|]. intros w2 H2.
  by eapply pays_run.
Qed.

Lemma pays_reroot x w :
  at_port x w → (rest_rank v op ba roleRoot x ≤ S n)%nat →
  pays roleRoot PRTSM_REROOT x (x <| PRTSM_state := PRTSM_REROOT |> <| reRoot := true |>) →
  nf (PRTSM_to_REROOT run k) w.
Proof.
  intros Hx Hr Hp. eapply at_upd; [exact Hx|]. intros w1 H1.
  eapply at_each; [done|exact H1|]. intros w2 H2. by eapply pays_run.
Qed.

Lemma pays_propose x w :
  at_port x w → (rest_rank v op ba roleDesignated x ≤ S n)%nat →
  pays roleDesignated PRTSM_DESIGNATED_PROPOSE x
    (x <| PRTSM_state := PRTSM_DESIGNATED_PROPOSE |> <| proposing := true |>) →
  nf (PRTSM_to_DESIGNATED_PROPOSE run k) w.
Proof.
  intros Hx Hr Hp. eapply at_upd; [exact Hx|]. intros w1 H1.
  destruct (ptp_MSTID k =? 0).
  - apply at_assoc. eapply at_get_ptp; [exact H1|].
    apply at_assoc. apply at_reads; [apply reads_get_br|done|]. intros br. cbv zeta.
    eapply at_upd_port; [exact H1|done|]. intros w2 H2. by eapply pays_run.
  - eapply at_upd_port; [exact H1|done|]. intros w2 H2. by eapply pays_run.
Qed.

(** A guard as facts on single flags. *)
Ltac facts :=
  repeat match goal with
  | H : _ && _ = true |- _ => apply andb_true_iff in H as [? ?]
  | H : _ || _ = false |- _ => apply orb_false_iff in H as [? ?]
  | H : negb _ = true |- _ => apply negb_true_iff in H
  | H : negb _ = false |- _ => apply negb_false_iff in H
  | H : _ || _ = true |- _ => apply orb_true_iff in H as [H|H]
  end.
Ltac known :=
  repeat match goal with
  | H : ?b = true |- context [?b] => rewrite H
  | H : ?b = false |- context [?b] => rewrite H
  end.
Ltac weigh :=
  unfold rest_rank, to_swing, held, to_sync, to_open; cbn; facts; known; cbn [negb orb andb b2n];
  repeat first
    [ lia | congruence
    | match goal with
      | |- context [b2n ?b] => destruct b eqn:?; cbn [b2n]; facts; known; cbn [negb orb andb b2n]
      | |- context [if ?b then _ else _] =>
          destruct b eqn:?; facts; known; cbn [negb orb andb b2n]
      end ].
Ltac stay_calm := intros; unfold calm in *; cbn in *; facts; try congruence; known; cbn; by rewrite ?orb_true_r.
Ltac pays :=
  split; [reflexivity|]; split; [done|]; split; [done|]; split; [stay_calm|]; split; [done|weigh].
(** What holds a port can only go. *)
Lemma swing_le x x' :
  learn x' = learn x → forward x' = forward x → disputed x' = disputed x →
  (held ba x' = true → held ba x = true) → (to_swing ba x' ≤ to_swing ba x)%nat.
Proof.
  unfold to_swing, to_open. intros -> -> ->. destruct (held ba x'); [by intros ->|].
  intros _. destruct (held ba x), (disputed x), (learn x), (forward x); cbn; lia.
Qed.

(** The guard that holds is reason enough. *)
Ltac pay :=
  repeat match goal with H : _ = false |- _ => clear H end;
  first [eapply pays_enter | eapply pays_enter_sync | eapply pays_newInfo | eapply pays_forward
        | eapply pays_reroot | eapply pays_propose];
  [done|eassumption|intros; pays].

Ltac unheld :=
  repeat match goal with H : _ = false |- _ => clear H end;
  eapply pays_enter || eapply pays_newInfo || eapply pays_propose; [done|eassumption|];
  split; [reflexivity|]; split; [done|]; split; [done|]; split; [done|]; split; [done|];
  match goal with
  | |- context [rest_rank _ _ _ _ ?x'] =>
      lazymatch goal with
      | |- (_ ≤ rest_rank _ _ _ _ ?x)%nat =>
          let H := fresh in
          assert (H : (to_swing ba x' ≤ to_swing ba x)%nat);
          [apply swing_le; [done..|unfold held; cbn; by rewrite ?andb_false_r, ?andb_false_l;
             intros; facts; known; rewrite ?orb_true_r]
          |unfold rest_rank; generalize dependent (to_swing ba x'); generalize (to_swing ba x)]
      end
  end; weigh.

Lemma master_port_nf d prt x allSynced w :
  at_port x w → placed roleMaster x → calm op x = true → operEdge prt = op →
  (rest_rank v op ba roleMaster x ≤ S n)%nat →
  nf (PRTSM_master_port run v k d prt x allSynced) w.
Proof.
  intros Hx (Hgo & Hrole & Hsel) Hcalm Hop Hr. unfold PRTSM_master_port. rewrite Hgo, Hop.
  cbn [negb].
  repeat match goal with |- nofuel (if ?b then _ else _) _ _ => destruct b eqn:? end; try done.
  all: apply nofuel_transition.
  - unfold PRTSM_to_MASTER_RETIRED. pay.
  - unfold PRTSM_to_MASTER_SYNCED. pay.
  - unfold PRTSM_to_MASTER_AGREED. pay.
  - unfold PRTSM_to_MASTER_PROPOSED. pay.
  - unfold PRTSM_to_MASTER_FORWARD. pay.
  - unfold PRTSM_to_MASTER_LEARN. pay.
  - assert (disputed x = true) by (unfold calm in Hcalm; facts; congruence).
    unfold PRTSM_to_MASTER_DISCARD. pay.
Qed.

Lemma root_port_nf d x allSynced w :
  at_port x w → placed roleRoot x → (rest_rank v op ba roleRoot x ≤ S n)%nat →
  nf (PRTSM_root_port run v k d x allSynced) w.
Proof.
  intros Hx (Hgo & Hrole & Hsel) Hr. unfold PRTSM_root_port. rewrite Hgo. cbn [negb].
  repeat match goal with |- nofuel (if ?b then _ else _) _ _ => destruct b eqn:? end; try done.
  5: { apply at_reads; [apply reads_reRooted|total_auto|]. intros reRooted.
       apply at_reads; [apply reads_get_br|done|]. intros br. cbv zeta.
       repeat match goal with |- nofuel (if ?b then _ else _) _ _ => destruct b eqn:? end; try done.
       all: apply nofuel_transition.
       - unfold PRTSM_to_ROOT_LEARN. pay.
       - unfold PRTSM_to_ROOT_FORWARD. pay.
       - unfold PRTSM_to_REROOTED. pay.
       - unfold PRTSM_to_ROOT_PORT. pay. }
  all: apply nofuel_transition.
  - pay.
  - unfold PRTSM_to_ROOT_SYNCED. pay.
  - unfold PRTSM_to_ROOT_AGREED. pay.
  - unfold PRTSM_to_ROOT_PROPOSED. pay.
Qed.

Lemma designated_port_nf d prt x allSynced w :
  at_port x w → placed roleDesignated x → BaInconsistent prt = ba →
  (rest_rank v op ba roleDesignated x ≤ S n)%nat →
  nf (PRTSM_designated_port run v k d prt x allSynced) w.
Proof.
  intros Hx (Hgo & Hrole & Hsel) Hba Hr. unfold PRTSM_designated_port. rewrite Hgo, Hba.
  cbn [negb]. cbv zeta.
  repeat match goal with |- nofuel (if ?b then _ else _) _ _ => destruct b eqn:? end; try done.
  all: apply nofuel_transition.
  - unfold PRTSM_to_DESIGNATED_RETIRED. unheld.
  - unfold PRTSM_to_DESIGNATED_SYNCED. unheld.
  - unfold PRTSM_to_DESIGNATED_AGREED. unheld.
  - unheld.
  - unfold PRTSM_to_DESIGNATED_LEARN. pay.
  - unfold PRTSM_to_DESIGNATED_FORWARD. pay.
  - unfold PRTSM_to_DESIGNATED_DISCARD. pay.
Qed.

Lemma alternate_port_nf r d x allSynced w :
  at_port x w → placed r x → family PRTSM_ALTERNATE_PORT r = true →
  (rest_rank v op ba r x ≤ S n)%nat → nf (PRTSM_alternate_port run v k d x allSynced) w.
Proof.
  intros Hx (Hgo & Hrole & Hsel) Hfam Hr. unfold PRTSM_alternate_port. rewrite Hgo, Hrole.
  cbn [negb].
  assert (Hr' : r = roleAlternate ∨ r = roleBackup) by (destruct r; try discriminate Hfam; auto).
  repeat match goal with |- nofuel (if ?b then _ else _) _ _ => destruct b eqn:? end; try done.
  all: apply nofuel_transition.
  all: destruct Hr' as [-> | ->]; try (exfalso; facts; discriminate).
  all: lazymatch goal with |- nofuel ?m _ _ => let h := head_of m in unfold h end; pay.
Qed.

Lemma change_role_nf d x w :
  at_port x w → fine x → selected x && negb (updtInfo x) = true → role x ≠ selectedRole x →
  (rank x ≤ S n)%nat → nf (PRTSM_change_role run v k d (selectedRole x)) w.
Proof.
  intros Hx [_ Hcalm] Hgo Hne Hr. unfold PRTSM_rank in Hr. rewrite Hgo in Hr.
  rewrite bool_decide_false in Hr by done. cbn [negb] in Hr.
  apply nofuel_transition. destruct (selectedRole x) eqn:Hsel.
  all: lazymatch goal with |- nofuel ?m _ _ => let h := head_of m in unfold h end.
  all: eapply enter_nf; [exact Hx| |].
  all: try (split; [cbn; rewrite ?Hsel; done|cbn; rewrite Hsel; try done; intros _; by apply Hcalm]).
  all: erewrite rank_placed by (split; [exact Hgo|split; [|exact Hsel]]; cbn; congruence).
  all: cbn; revert Hr; unfold rest_rank, to_swing, held, to_sync, to_open; cbn.
  all: repeat match goal with
         | |- context [b2n ?b] => pose proof (b2n_le b); generalize dependent (b2n b); intros ? ?
         end; try destruct (forward x); lia.
Qed.

(** Out of a passing state, to the resting state of the role. *)
Lemma return_nf r s f x w :
  at_port x w → placed r x → (rest_rank v op ba r x ≤ n)%nat →
  let x' := f (x <| PRTSM_state := s |>) in
  PRTSM_state x' = s → placed r x' → family s r = true → (r = roleMaster → calm op x' = true) →
  match s with PRTSM_INIT_PORT | PRTSM_DISABLE_PORT | PRTSM_BLOCK_PORT => False | _ => True end →
  passing s = false → (rest_rank v op ba r x' ≤ rest_rank v op ba r x)%nat →
  nf (PRTSM_enter run k s f skip) w.
Proof.
  intros Hx Hp Hr x' Es Hp' Hf Hc Hs Hpass Hle. eapply enter_nf; [exact Hx| |]; fold x'.
  - split; [by rewrite Es, (proj1 (proj2 Hp'))|]. by rewrite (proj2 (proj2 Hp')).
  - rewrite (rank_placed r) by done. rewrite Es. destruct s; try discriminate Hpass; cbn; done || lia.
Qed.

Ltac unseen x :=
  unfold calm in *; cbn in *; facts; try congruence; known; cbn; by rewrite ?orb_true_r.

Lemma passing_nf d prt x allSynced w :
  at_port x w → fine x → selected x && negb (updtInfo x) = false →
  (rank x ≤ S n)%nat → nf (PRTSM_switch run v k d prt x allSynced) w.
Proof.
  intros Hx [Hfam Hcalm] Hgo Hr. unfold PRTSM_rank in Hr. rewrite Hgo in Hr. cbn [negb] in Hr.
  unfold PRTSM_switch, PRTSM_master_port, PRTSM_root_port, PRTSM_designated_port,
    PRTSM_alternate_port. rewrite Hgo.
  destruct (PRTSM_state x) eqn:Hs; cbn [andb negb]; try done; apply nofuel_transition.
  all: lazymatch goal with |- nofuel ?m _ _ => let h := head_of m in unfold h end.
  all: eapply enter_nf; [exact Hx| |].
  all: try (unfold PRTSM_rank; cbn [selected updtInfo]; cbn; rewrite Hgo; cbn in *; lia).
  all: split; [cbn in *; done|]; cbn; intros Hsel; specialize (Hcalm Hsel).
  all: try exact Hcalm. all: stay_calm.
Qed.

Lemma switch_nf d prt x allSynced w :
  at_port x w → fine x → operEdge prt = op → BaInconsistent prt = ba →
  (selected x && negb (updtInfo x) = true → role x = selectedRole x) →
  (rank x ≤ S n)%nat → nf (PRTSM_switch run v k d prt x allSynced) w.
Proof.
  intros Hx Hf Hop Hba Hsame Hr.
  destruct (selected x && negb (updtInfo x)) eqn:Hgo; [|by apply passing_nf].
  assert (Hp : placed (role x) x) by (split; [done|]; split; [done|]; symmetry; by apply Hsame).
  pose proof Hf as [Hfam Hcalm]. rewrite (rank_placed _ _ Hp) in Hr.
  assert (Hc : role x = roleMaster → calm op x = true) by (intros E; apply Hcalm; by rewrite <- Hsame).
  unfold PRTSM_switch. rewrite Hgo. pose proof Hp as (_ & _ & Hsel).
  destruct (PRTSM_state x) eqn:Hs; cbn [passing b2n] in Hr.
  all: lazymatch goal with
       | |- nofuel (PRTSM_alternate_port _ _ _ _ _ _) _ _ => eapply alternate_port_nf; done
       | _ => destruct (role x) eqn:Hrole; try discriminate Hfam
       end.
  all: try (eapply master_port_nf; eauto; fail).
  all: try (eapply root_port_nf; eauto; fail).
  all: try (eapply designated_port_nf; eauto; fail).
  all: repeat match goal with |- nofuel (if ?b then _ else _) _ _ => destruct b eqn:? end; try done.
  all: apply nofuel_transition.
  all: lazymatch goal with |- nofuel ?m _ _ => let h := head_of m in unfold h end.
  all: try (eapply return_nf; [exact Hx|exact Hp|lia|reflexivity|done|done|done|done|done|];
            unfold rest_rank, to_swing, held, to_sync, to_open; cbn; rewrite ?Z.eqb_refl; cbn;
            repeat match goal with
            | |- context [b2n ?b] => pose proof (b2n_le b); generalize dependent (b2n b); intros ? ?
            end; lia).
  all: eapply enter_nf; [exact Hx|split; cbn; rewrite ?Hrole, ?Hsel; done|].
  all: erewrite (rank_placed roleDisabled) by (split; [exact Hgo|split; [cbn; congruence|exact Hsel]]).
  all: unfold rest_rank in *; cbn in *; rewrite ?Z.eqb_refl; cbn.
  all: try match goal with H : _ || _ = true |- _ => rewrite H in Hr end.
  all: cbn in Hr; lia.
Qed.

Lemma PRTSM_step d x w : at_port x w → fine x → (rank x ≤ S n)%nat → nf (PRTSM_runf (S n) v k d) w.
Proof.
  intros Hx Hf Hr. cbn [PRTSM_runf]. eapply at_get_port; [exact Hx|]. intros prt Hop Hba.
  eapply at_get_ptp; [exact Hx|].
  destruct ((role x !=? selectedRole x) && selected x && negb (updtInfo x)) eqn:Hch.
  - rewrite <- andb_assoc in Hch. apply andb_true_iff in Hch as [Hne Hgo].
    apply negb_true_iff, bool_decide_eq_false in Hne. by apply change_role_nf.
  - apply at_reads; [apply reads_allSynced|total_auto|]. intros allSynced.
    apply switch_nf; [done..| |done]. intros Hgo. rewrite <- andb_assoc, Hgo, andb_true_r in Hch.
    by apply negb_false_iff, bool_decide_eq_true in Hch.
Qed.
End run.

Lemma PRTSM_settles v k op ba n d x w :
  at_port k op ba x w → PRTSM_fine op x → (PRTSM_rank v op ba x ≤ n)%nat →
  nofuel (PRTSM_runf n v k d) (λ _ _, True) w.
Proof.
  revert d x w. induction n as [|n IH]; intros d x w Hx Hf Hr.
  - exfalso. unfold PRTSM_rank in Hr. destruct (negb (selected x && _)); [lia|].
    destruct (role x !=? selectedRole x); [lia|].
    destruct (PRTSM_state x), (role x); cbn in Hr; lia.
  - eapply PRTSM_step; [|exact Hx|exact Hf|exact Hr]. intros. by eapply IH.
Qed.

(** What the end of a run depends on: the state belongs to the role, as it does in every
    reachable world, and a Master port is not asked to discard. *)
Definition PRTSM_config (k : ptp_id) (w : world) : Prop :=
  ∀ x y, w_ptps w !! k = Some x → w_ports w !! ptp_port k = Some y → PRTSM_fine (operEdge y) x.

Lemma total_PRTSM_vars k : total (PRTSM_vars k).
Proof. total_auto. Qed.
Lemma reads_PRTSM_vars k : reads (PRTSM_vars k).
Proof. unfold PRTSM_vars, GET_CIST_PTP_FROM_PORT, ptps_of_port. reads_auto. Qed.

Lemma PRTSM_nofuel br K k d w :
  Inv br K w → valid_ptp br k → PRTSM_config k w → nofuel (PRTSM_run k d) (λ _ _, True) w.
Proof.
  intros Hi Hk Hc. destruct (inv_port _ _ _ Hi _ (proj1 Hk)) as (y & Hy & _).
  destruct (inv_tree _ _ _ Hi _ (proj2 Hk)) as (t & Ht & Hwf).
  destruct (inv_ptp _ _ _ Hi _ Hk) as (x & Hx & _).
  apply at_reads; [apply reads_PRTSM_vars|apply total_PRTSM_vars|]. intros v.
  eapply PRTSM_settles; [|by eapply Hc|apply PRTSM_rank_bound].
  split; [done|]. split; [by exists y|]. exists t. split; [done|]. rewrite Hwf. apply Hk.
Qed.

(** C9: in a well-formed bridge every run of a state machine comes to an end and
    leaves a well-formed bridge: Port Receive, Port Protocol Migration, Bridge
    Detection, Port Information, Port Role Selection, Port State Transition and Topology
    Change unconditionally, whatever flags and timers hold; Port Transmit when the Transmit
    Hold Count is in its permitted range and the port's Hello Time is not zero; Port Role
    Transitions unless the port is a Master port that is asked to synchronise or discard. *)
Theorem state_machines_return (br : bridge_t) (p : port_id) (t : tree_id) (d : bool) (w : world) :
  wf_bridge br → Inv br [] w → p ∈ br_ports br → t ∈ br_trees br →
  let returns (m : M bool) := ∃ b w', m w = Done b w' ∧ Inv br [] w' in
  returns (PRSM_run p d) ∧ returns (PPMSM_run p d) ∧ returns (BDSM_run p d) ∧
  returns (PISM_run (p, t) d) ∧ returns (PRSSM_run t d) ∧ returns (PSTSM_run (p, t) d) ∧ returns (TCSM_run (p, t) d) ∧
  (PTSM_config br p w → returns (PTSM_run p d)) ∧
  (PRTSM_config (p, t) w → returns (PRTSM_run (p, t) d)).
Proof.
  intros Hb Hi Hp Ht returns. assert (Hk : valid_ptp br (p, t)) by done.
  repeat split; [| | | | | | |intros Hc|intros Hc]; apply returns_of_safe; try exact Hi.
  - by apply safe_PRSM_run.
  - apply nofuel_total, PRSM_total.
  - by apply safe_PPMSM_runf.
  - by eapply PPMSM_nofuel.
  - by apply safe_BDSM_run.
  - apply nofuel_total, BDSM_total.
  - by apply safe_PISM_runf.
  - by eapply PISM_nofuel.
  - by apply safe_PRSSM_run.
  - apply nofuel_total, PRSSM_total.
  - by apply safe_PSTSM_runf.
  - by eapply PSTSM_nofuel.
  - by apply safe_TCSM_runf.
  - by eapply TCSM_nofuel.
  - by apply safe_PTSM_runf.
  - by eapply PTSM_nofuel.
  - by apply safe_PRTSM_run.
  - by eapply PRTSM_nofuel.
Qed.

Lemma state_machines_return_witness :
  ∃ b w', PISM_run (1%nat, 5) false (sample []) = Done b w' ∧ Inv (w_br (sample [])) [] w'.
Proof.
  destruct (sample_wf []) as [Hb Hi].
  destruct (state_machines_return (w_br (sample [])) 1%nat 5 false (sample []) Hb Hi
    (list_elem_of_here _ _) (list_elem_of_further _ _ _ (list_elem_of_here _ _)))
    as (_ & _ & _ & H & _).
  exact H.
Defined.
