(* ===== verification/Master.v ===== *)
(** A Master port that never comes to rest.

    The transitions MASTER_DISCARD, MASTER_LEARN and MASTER_FORWARD of the Port Role
    Transitions machine do not exclude one another: a Master port that is asked to
    discard, because another port of the tree has become the Root port, while all other
    ports are synced, is closed and opened again without end. *)
From S2P Require Import Prelude Types Monad Vectors Outputs Procs RoleSelect PortSM TreeSM.
From S2P Require Import Prtsm Bridge Mgmt Wf Safety System Sample Frame DryRun Termination Blocked Settle.

(** ** The condition *)

(** Active as a Master port, at rest or between two states, and asked to discard by
    [reRoot]; and MASTER_SYNCED, which would end this, is not entered, also when
    MASTER_FORWARD has set [agreed]. *)
Definition torn (y : port_t) (x : per_tree_port_t) : bool :=
  selected x && negb (updtInfo x)
  && (role x ==? roleMaster) && (selectedRole x ==? roleMaster)
  && (family (PRTSM_state x) roleMaster)
  && negb (operEdge y) && agree x && negb (proposed x)
  && reRoot x && (rrWhile x ≠? 0)
  && ((synced x && negb (sync x))
      || (negb (synced x) && negb (agreed x) && negb (sendRSTP y) && (learning x || forwarding x))).

(** The part of allSynced that is about the other ports of the tree. *)
Definition others_synced (k : ptp_id) (w : world) (l : list port_id) : bool :=
  forallb (λ p,
    match w_ptps w !! ((p, ptp_tree k) : ptp_id) with
    | Some x => negb (allSynced_a x) && ((p ==? ptp_port k) || synced x)
    | None => false
    end) l.

Definition oscillates (k : ptp_id) (w : world) : bool :=
  match w_ptps w !! k, w_ports w !! ptp_port k, w_trees w !! ptp_tree k with
  | Some x, Some y, Some t => torn y x && others_synced k w (tree_ports t)
  | _, _, _ => false
  end.

Ltac torn_facts H :=
  unfold torn in H; repeat rewrite andb_true_iff in H; destruct_and! H;
  repeat match goal with
  | H : bool_decide _ = true |- _ => apply bool_decide_eq_true in H
  | H : negb _ = true |- _ => apply negb_true_iff in H
  end.

(** What [torn] looks at. *)
Definition core (x : per_tree_port_t) :=
  (PRTSM_state x, role x, selectedRole x, (selected x, updtInfo x),
   (sync x, synced x, reRoot x), (agree x, agreed x, proposed x), (learning x, forwarding x),
   rrWhile x).

Lemma torn_core y x x' : core x' = core x → torn y x' = torn y x.
Proof. unfold core, torn. by intros [= -> -> -> -> -> -> -> -> -> -> -> -> -> ->]. Qed.

Lemma torn_state y x s :
  torn y x = true → family s roleMaster = true → torn y (x <| PRTSM_state := s |>) = true.
Proof.
  unfold torn. cbn. intros H ->. by destruct (family (PRTSM_state x) roleMaster); rewrite ?andb_false_r in H.
Qed.

Lemma torn_unselected y x : torn y x = true → allSynced_a x = false.
Proof.
  intros H. torn_facts H. unfold allSynced_a.
  repeat match goal with H : _ = true |- _ => rewrite H | H : _ = false |- _ => rewrite H end.
  rewrite bool_decide_true by congruence. done.
Qed.

Lemma lookup_port_of_tree {A} (m : gmap ptp_id A) (k : ptp_id) (a : A) (p : port_id) :
  <[k := a]> m !! ((p, ptp_tree k) : ptp_id) =
  if p ==? ptp_port k then Some a else m !! ((p, ptp_tree k) : ptp_id).
Proof.
  destruct k as [q u]. cbn. destruct (bool_decide_reflect (p = q)) as [->|Hne].
  - apply lookup_insert_eq.
  - apply lookup_insert_ne. by intros [= ->].
Qed.

(** The other ports do not change with this one. *)
Lemma oscillates_upd k w f x y :
  oscillates k w = true → w_ptps w !! k = Some x → w_ports w !! ptp_port k = Some y →
  torn y (f x) = true →
  oscillates k (w <| w_ptps ::= <[k := f x]> |>) = true.
Proof.
  unfold oscillates. intros Ho Hx Hy Ht. rewrite Hx, Hy in Ho. cbn.
  rewrite lookup_insert_eq, Hy. destruct (w_trees w !! _) as [t|]; [|done].
  apply andb_true_iff in Ho as [_ Ho]. rewrite Ht. cbn [andb].
  unfold others_synced in *. rewrite forallb_forall in *. intros p Hp. specialize (Ho p Hp). cbn.
  rewrite lookup_port_of_tree. destruct (p ==? ptp_port k) eqn:E; [|done].
  by rewrite (torn_unselected _ _ Ht).
Qed.

(** What [allSynced] computes. *)
Lemma oscillates_allSynced k w x :
  oscillates k w = true → w_ptps w !! k = Some x → role x = roleMaster →
  PRTSM_allSynced k w = Done true w.
Proof.
  unfold oscillates. intros Ho Hx Hr. rewrite Hx in Ho.
  destruct (w_ports w !! _) as [y|]; [|done]. destruct (w_trees w !! _) as [t|] eqn:Ht; [|done].
  apply andb_true_iff in Ho as [_ Ho]. unfold PRTSM_allSynced, ptps_of_tree.
  unfold mbind, M_bind, get_tree. rewrite Ht. cbn. clear Ht.
  induction (tree_ports t) as [|p l IH]; [done|]. cbn in Ho. apply andb_true_iff in Ho as [Hp Hl].
  cbn [map all_of]. unfold mbind, M_bind, get_ptp.
  destruct (w_ptps w !! ((p, ptp_tree k) : ptp_id)) as [x1|]; [|done]. cbn. rewrite Hx. cbn.
  apply andb_true_iff in Hp as [-> Hp]. unfold allSynced_b. rewrite Hr. cbn.
  replace (k !=? (p, ptp_tree k)) with (negb (p ==? ptp_port k)).
  2:{ f_equal. apply bool_decide_ext. destruct k as [q u]. cbn. split; [by intros ->|by intros [= <-]]. }
  destruct (p ==? ptp_port k), (synced x1); try discriminate Hp; by apply IH.
Qed.

(** ** No depth is enough *)

Section never.
Context (v : prtsm_vars) (k : ptp_id) (n : nat).
Context (IH : ∀ w, oscillates k w = true → PRTSM_runf n v k false w = OutOfFuel).
Local Abbreviation run := (PRTSM_runf n v k false).

Lemma bind_OutOfFuel {A B} (m : M A) (f : A → M B) w :
  m w = OutOfFuel → (m ≫= f) w = OutOfFuel.
Proof. intros H. unfold mbind, M_bind. by rewrite H. Qed.

Lemma upd_ptp_eq f x w : w_ptps w !! k = Some x →
  upd_ptp k f w = Done tt (w <| w_ptps ::= <[k := f x]> |>).
Proof. intros H. unfold upd_ptp. by rewrite H. Qed.

(** A state is entered whose assignments leave the port as torn as it was. *)
Lemma enter_never s f w x y :
  oscillates k w = true → w_ptps w !! k = Some x → w_ports w !! ptp_port k = Some y →
  torn y (x <| PRTSM_state := s |>) = true → torn y (f (x <| PRTSM_state := s |>)) = true →
  transition false (PRTSM_enter run k s f skip) w = OutOfFuel.
Proof.
  intros Ho Hx Hy H1 H2. apply bind_OutOfFuel. unfold PRTSM_enter.
  rewrite (bind_Done _ _ _ _ _ (upd_ptp_eq _ _ _ Hx)).
  pose proof (oscillates_upd _ _ (λ x, x <| PRTSM_state := s |>) _ _ Ho Hx Hy H1) as Ho1.
  set (w1 := w <| w_ptps ::= _ |>) in *.
  rewrite (bind_Done skip _ w1 tt w1) by reflexivity.
  assert (Hx1 : w_ptps w1 !! k = Some (x <| PRTSM_state := s |>)) by apply lookup_insert_eq.
  rewrite (bind_Done _ _ _ _ _ (upd_ptp_eq _ _ _ Hx1)).
  apply bind_OutOfFuel, IH. by eapply oscillates_upd.
Qed.

Lemma forward_never w x y :
  oscillates k w = true → w_ptps w !! k = Some x → w_ports w !! ptp_port k = Some y →
  torn y x = true → transition false (PRTSM_to_MASTER_FORWARD run k) w = OutOfFuel.
Proof.
  intros Ho Hx Hy Ht. apply bind_OutOfFuel. unfold PRTSM_to_MASTER_FORWARD.
  rewrite (bind_Done _ _ _ _ _ (upd_ptp_eq _ _ _ Hx)). set (x1 := x <| PRTSM_state := _ |> <| _ := _ |> <| _ := _ |>).
  assert (Ht1 : ∀ b, b = agreed x ∨ b = sendRSTP y → torn y (x1 <| agreed := b |>) = true).
  { intros b Hb. torn_facts Ht. unfold torn, x1. cbn.
    repeat match goal with H : _ = true |- _ => rewrite H | H : _ = false |- _ => rewrite H end.
    rewrite !bool_decide_true by done. cbn.
    match goal with H : _ || _ = true |- _ => apply orb_true_iff in H as [H|H] end;
      rewrite !andb_true_iff in *; destruct_and!; rewrite orb_true_iff, ?andb_true_iff; [by left|].
    right. split_and!; try done. destruct Hb as [-> | ->]; done. }
  pose proof (oscillates_upd _ _ (λ _, x1 <| agreed := agreed x |>) _ _ Ho Hx Hy (Ht1 _ (or_introl eq_refl))) as Ho1.
  assert (Heq : x1 <| agreed := agreed x |> = x1) by (by destruct x). rewrite Heq in Ho1.
  set (w1 := w <| w_ptps ::= _ |>) in *.
  assert (Hx1 : w_ptps w1 !! k = Some x1) by apply lookup_insert_eq.
  assert (Hg : get_port (ptp_port k) w1 = Done y w1) by (unfold get_port; change (w_ports w1) with (w_ports w); by rewrite Hy).
  rewrite (bind_Done _ _ _ _ _ Hg), (bind_Done _ _ _ _ _ (upd_ptp_eq _ _ _ Hx1)).
  apply bind_OutOfFuel, IH. eapply oscillates_upd; [exact Ho1|exact Hx1|exact Hy|]. apply Ht1. by right.
Qed.

Lemma step_never w : oscillates k w = true → PRTSM_runf (S n) v k false w = OutOfFuel.
Proof.
  intros Ho. pose proof Ho as H. unfold oscillates in H.
  destruct (w_ptps w !! k) as [x|] eqn:Hx; [|done].
  destruct (w_ports w !! ptp_port k) as [y|] eqn:Hy; [|done].
  destruct (w_trees w !! ptp_tree k) as [t|]; [|done]. apply andb_true_iff in H as [Ht _].
  pose proof Ht as Hf. torn_facts Hf.
  cbn [PRTSM_runf].
  rewrite (bind_Done _ _ w y w) by (unfold get_port; by rewrite Hy).
  rewrite (bind_Done _ _ w x w) by (unfold get_ptp; by rewrite Hx).
  rewrite (bool_decide_true (role x = selectedRole x)) by congruence. cbn [negb andb].
  rewrite (bind_Done _ _ _ _ _ (oscillates_allSynced _ _ _ Ho Hx ltac:(done))).
  assert (Hs : (negb (learning x) && negb (forwarding x) && negb (synced x))
               || (agreed x && negb (synced x)) || (operEdge y && negb (synced x))
               || (sync x && synced x) = false).
  { destruct (synced x), (sync x), (agreed x), (sendRSTP y), (learning x), (forwarding x),
      (operEdge y); done. }
  assert (Hstill : ∀ s f, family s roleMaster = true →
            core (f (x <| PRTSM_state := s |>)) = core (x <| PRTSM_state := s |>) →
            transition false (PRTSM_enter run k s f skip) w = OutOfFuel).
  { intros s f Hs' Hc. eapply enter_never; [done..|by apply torn_state|].
    rewrite (torn_core _ _ _ Hc). by apply torn_state. }
  assert (Hcore : core (x <| PRTSM_state := PRTSM_MASTER_PORT |> <| role := roleMaster |>) =
                  core (x <| PRTSM_state := PRTSM_MASTER_PORT |>)) by (unfold core; cbn; congruence).
  unfold PRTSM_switch.
  destruct (PRTSM_state x) eqn:Est; try discriminate; try (by apply Hstill).
  unfold PRTSM_master_port. rewrite Hs.
  repeat match goal with H : _ = true |- _ => rewrite H | H : _ = false |- _ => rewrite H end.
  cbn [negb andb orb]. rewrite !orb_true_r, !andb_true_r. cbn [negb andb orb].
  destruct (learn x) eqn:El, (forward x) eqn:Ef; cbn [negb andb orb].
  - by apply Hstill.
  - by eapply forward_never.
  - by apply Hstill.
  - by apply Hstill.
Qed.
End never.

(** C10: A Master port that is asked to discard by [reRoot] while the other ports of the
    tree are synced takes transitions forever: no depth of recursion is enough for the
    Port Role Transitions machine. *)
Theorem master_port_oscillates (k : ptp_id) (w : world) (v : prtsm_vars) (depth : nat) :
  oscillates k w = true → PRTSM_runf depth v k false w = OutOfFuel.
Proof.
  revert w. induction depth as [|n IH]; [done|]. intros w. by apply step_never.
Qed.

(** ** How a bridge gets there

    Port 1 of a bridge with an MSTI is the Root port, port 2 an Alternate port.  The
    neighbour on port 1 is replaced by an STP bridge: port 1 becomes the Master port of the
    MSTI and keeps forwarding.  Then the MSTI takes port 2 as its Root port.  The clock lets
    more than a second pass in that run of the state machines, so that the event ends
    before the Master port takes notice; the next run does not. *)

(** The digest when every VID belongs to the CIST, as in 802.1Q. *)
Definition region_digest : list Z :=
  [0xAC; 0x36; 0x17; 0x7F; 0x50; 0x28; 0x3C; 0xD4; 0xB8; 0x38; 0x21; 0xD8; 0xAB; 0x26; 0xDE; 0x62].
Definition region_start : world := sample_new region_digest.

Lemma region_start_reachable : reachable sample_stack region_start.
Proof.
  destruct sample_new_reachable as [d Hr]. pose proof (reachable_wf_world sample_stack _ eq_refl Hr) as (_ & _ & Hd).
  assert (Hc : config_digest (w_br (sample_new d)) = Some region_digest) by (vm_compute; reflexivity).
  unfold digest_ok in Hd. rewrite Hc in Hd. injection Hd as Hd.
  change (configuration_digest (MstConfigId (w_br (sample_new d)))) with d in Hd.
  unfold region_start. by rewrite Hd.
Qed.

Definition neighbour (pri last : Z) : bridge_identifier_t :=
  mk_bridge_identifier pri [0x02; 0; 0; 0; 0; last].
Definition no_message : msti_configuration_message_t :=
  mk_msti_configuration_message 0 (neighbour 0 0) 0 0 0 0.

(** An MST BPDU of the region from a designated port that has agreed, for the CIST and
    MSTI 1. *)
Definition mst_bpdu (root : bridge_identifier_t) (cost : Z) (rroot bridge mroot : bridge_identifier_t) : bpdu_t :=
  mk_bpdu 0 3 2 0x4C root cost rroot 0x8001 (0, 0) (20, 0) (2, 0) (15, 0) 0 80
    (MstConfigId (w_br region_start)) 0 bridge 20
    (mk_msti_configuration_message 0x4C mroot 0 16 128 20 :: replicate 63 no_message).

(** A Configuration BPDU of an STP bridge. *)
Definition stp_bpdu : bpdu_t :=
  mk_bpdu 0 0 0 0 (neighbour 4096 6) 0 (neighbour 4096 6) 0x8001 (0, 0) (20, 0) (2, 0) (15, 0)
    0 0 (MstConfigId (w_br region_start)) 0 (neighbour 0 0) 0 (replicate 64 no_message).

(** Events with the clock readings each of them takes. *)
Definition still : list timespec := replicate 60 (0, 0).
Definition region_events : list (input * list timespec) :=
  [(SetCistBridgeConfig (mk_CIST_BridgeConfig None None (Some protoMSTP) None None None None), still);
   (CreateMsti 1, still); (SetBridgeEnable true, still);
   (SetPortEnable 1%nat true 1000 1, still); (SetPortEnable 2%nat true 1000 1, still);
   (RxBpdu 1%nat (mst_bpdu (neighbour 4096 7) 0 (neighbour 4096 7) (neighbour 4096 7) (neighbour 4097 7)) 118, still);
   (RxBpdu 2%nat (mst_bpdu (neighbour 4096 7) 0 (neighbour 4096 7) (neighbour 40960 8) (neighbour 4097 7)) 118, still);
   (OneSecond, still); (OneSecond, still); (OneSecond, still);
   (RxBpdu 1%nat stp_bpdu 35, still);
   (RxBpdu 2%nat (mst_bpdu (neighbour 4096 6) 20000 (mk_bridge_identifier 0x8000 sample_mac)
                    (neighbour 0x9000 8) (neighbour 1 8)) 118, [(0, 0); (2, 0)])].

Definition next_event (w : world) (e : input * list timespec) : world :=
  result (handle sample_stack e.1) (w <| w_clock := e.2 |> <| w_calloc := [] |>).

(** The events return, and are about a port of the bridge. *)
Definition goes_on (w : world) (e : input * list timespec) : bool :=
  returns (handle sample_stack e.1) (w <| w_clock := e.2 |> <| w_calloc := [] |>) &&
  match e.1 with
  | SetPortEnable p _ _ _ => bool_decide (p ∈ br_ports (w_br w))
  | RxBpdu p b _ => bool_decide (p ∈ br_ports (w_br w)) && (length (mstConfiguration b) =? 64)%nat
  | SetCistBridgeConfig _ | CreateMsti _ | SetBridgeEnable _ | OneSecond => true
  | _ => false
  end.

Fixpoint all_go_on (w : world) (l : list (input * list timespec)) : bool :=
  match l with [] => true | e :: l => goes_on w e && all_go_on (next_event w e) l end.

Lemma all_go_on_reachable l w :
  reachable sample_stack w → all_go_on w l = true →
  reachable sample_stack (foldl next_event w l).
Proof.
  revert w. induction l as [|[i clock] l IH]; intros w Hr Hl; [done|].
  cbn [all_go_on] in Hl. apply andb_true_iff in Hl as [[Hret Hi]%andb_true_iff Hl].
  apply IH; [|exact Hl]. refine (reach_step _ i clock [] w _ Hr _ (returns_result _ _ Hret)).
  destruct i; cbn in Hi |- *; try done.
  - by apply bool_decide_eq_true in Hi.
  - apply andb_true_iff in Hi as [Hp%bool_decide_eq_true Hl'%Nat.eqb_eq]. done.
Qed.

Definition region_ports : world :=
  step_event (step_event region_start (CreatePort 1%nat zero_port 1)) (CreatePort 2%nat zero_port 2).

Lemma region_ports_reachable : reachable sample_stack region_ports.
Proof.
  assert (Hnew : ∀ w p, reachable sample_stack w → bool_decide (p ∈ br_ports (w_br w)) = false →
            returns (handle sample_stack (CreatePort p zero_port (Z.of_nat p))) (environment w) = true →
            reachable sample_stack (step_event w (CreatePort p zero_port (Z.of_nat p)))).
  { intros w p Hr Hp%bool_decide_eq_false Hret. apply step_event_reachable; [done| |done].
    split; [|done]. split; [done|]. split; [reflexivity|cbn; lia]. }
  apply (Hnew _ 2%nat); [apply (Hnew _ 1%nat)|..]; [exact region_start_reachable|..]; vm_compute; reflexivity.
Qed.

Definition torn_bridge : world := foldl next_event region_ports region_events.

Lemma torn_bridge_reachable : reachable sample_stack torn_bridge.
Proof. apply all_go_on_reachable; [exact region_ports_reachable|vm_compute; reflexivity]. Qed.


(** What __br_state_machines_run does before it comes to the roles of the ports. *)
Definition passes_before_roles : M bool :=
  or_else (run_ports false BA_run) (
  or_else (run_ports false PRSM_run) (
  or_else (run_ports false PPMSM_run) (
  or_else (run_ports false BDSM_run) (
  or_else (run_ports false PTSM_run) (
  or_else (run_ptps false PISM_run)
          (run_trees false PRSSM_run)))))).

(** ... and up to the Master port. *)
Definition up_to_master : M unit :=
  passes_before_roles ;; PRTSM_run (1%nat, 0) false ;; skip.

Definition torn_world : world := result up_to_master torn_bridge.
Definition torn_vars : prtsm_vars :=
  match PRTSM_vars (1%nat, 1) torn_world with Done v _ => v | _ => mk_prtsm_vars 0 0 0 0 end.

Lemma master_port_oscillates_witness :
  reachable sample_stack torn_bridge ∧ up_to_master torn_bridge = Done tt torn_world ∧
  ∀ depth, PRTSM_runf depth torn_vars (1%nat, 1) false torn_world = OutOfFuel.
Proof.
  split; [exact torn_bridge_reachable|]. split; [apply returns_result; vm_compute; reflexivity|].
  intros depth. apply (master_port_oscillates (1%nat, 1) torn_world torn_vars depth).
  vm_compute. reflexivity.
Defined.
