(* ===== verification/Steady.v ===== *)
(** What stays true of a bridge without MSTIs while it runs.

    [steady I m]: what [I] says of the bridge, of every object and of the clock still
    holds once [m] has returned.  The file ends with the condition under which all state
    machines of the CIST come to an end, and that every event keeps it. *)
From S2P Require Import Prelude Types Monad Md5 Vectors Outputs Procs RoleSelect PortSM TreeSM.
From S2P Require Import Prtsm Bridge Mgmt Wf System Frame Blocked.

(** ** Conditions on every object *)

Record world_condition := {
  of_br : bridge_t → Prop;
  of_tree : tree_t → Prop;
  of_port : port_t → Prop;
  of_ptp : ptp_id → per_tree_port_t → Prop;
  of_clock : list timespec → Prop
}.

Section steady.
Context (I : world_condition).

Definition holds (w : world) : Prop :=
  of_br I (w_br w) ∧ map_Forall (λ _, of_tree I) (w_trees w) ∧
  map_Forall (λ _, of_port I) (w_ports w) ∧ map_Forall (of_ptp I) (w_ptps w) ∧
  of_clock I (w_clock w).

Definition steady {A} (m : M A) : Prop := ∀ w a w', m w = Done a w' → holds w → holds w'.

Lemma steady_ret {A} (a : A) : steady (mret a).
Proof. by intros w b w' [= _ ->]. Qed.
Lemma steady_bind {A B} (m : M A) (f : A → M B) :
  steady m → (∀ a, steady (f a)) → steady (m ≫= f).
Proof.
  intros Hm Hf w b w' (a & w1 & H1 & H2)%bind_Done_inv Hw.
  eapply Hf; [exact H2|]. by eapply Hm.
Qed.
Lemma steady_fault {A} : steady (@fault A).
Proof. by intros w b w'. Qed.
Lemma steady_out_of_fuel {A} : steady (@out_of_fuel A).
Proof. by intros w b w'. Qed.
Lemma steady_of_option {A} (o : option A) : steady (of_option o).
Proof. destruct o; [apply steady_ret|apply steady_fault]. Qed.
Lemma steady_get_br : steady get_br.
Proof. by intros w b w' [= _ ->]. Qed.
Lemma steady_get_port p : steady (get_port p).
Proof. intros w. apply steady_of_option. Qed.
Lemma steady_get_tree t : steady (get_tree t).
Proof. intros w. apply steady_of_option. Qed.
Lemma steady_get_ptp k : steady (get_ptp k).
Proof. intros w. apply steady_of_option. Qed.
Lemma steady_emit e : steady (emit e).
Proof. by intros w a w' [= _ <-]. Qed.
Lemma steady_calloc_ok : steady calloc_ok.
Proof. intros w a w'. unfold calloc_ok. destruct (w_calloc w); by intros [= _ <-]. Qed.
Lemma steady_clock_readings : steady clock_readings.
Proof. by intros w a w' [= _ <-]. Qed.

(** What a getter returns satisfies the condition. *)
Lemma steady_get_br_bind {A} (f : bridge_t → M A) :
  (∀ br, of_br I br → steady (f br)) → steady (get_br ≫= f).
Proof. intros Hf w a w' H Hw. by eapply Hf; [apply Hw|exact H|]. Qed.
Lemma steady_get_tree_bind {A} t (f : tree_t → M A) :
  (∀ x, of_tree I x → steady (f x)) → steady (get_tree t ≫= f).
Proof.
  intros Hf w a w' (x & w1 & H1 & H2)%bind_Done_inv Hw. unfold get_tree in H1.
  destruct (w_trees w !! t) as [y|] eqn:Hy; [|done]. injection H1 as <- <-.
  eapply Hf; [|exact H2|done]. destruct Hw as (_ & Ht & _). by eapply Ht.
Qed.

Lemma steady_upd_br f : (∀ x, of_br I x → of_br I (f x)) → steady (upd_br f).
Proof. intros Hf w a w' [= _ <-] (Hb & Hw). split; [by apply Hf|done]. Qed.
Lemma steady_upd_tree t f : (∀ x, of_tree I x → of_tree I (f x)) → steady (upd_tree t f).
Proof.
  intros Hf w a w'. unfold upd_tree. destruct (w_trees w !! t) as [x|] eqn:Hx; [|done].
  intros [= _ <-] (Hb & Ht & Hw). split; [done|]. split; [|done].
  apply map_Forall_insert_2; [|done]. by eapply Hf, Ht.
Qed.
Lemma steady_upd_port p f : (∀ x, of_port I x → of_port I (f x)) → steady (upd_port p f).
Proof.
  intros Hf w a w'. unfold upd_port. destruct (w_ports w !! p) as [x|] eqn:Hx; [|done].
  intros [= _ <-] (Hb & Ht & Hp & Hw). split; [done|]. split; [done|]. split; [|done].
  apply map_Forall_insert_2; [|done]. by eapply Hf, Hp.
Qed.
Lemma steady_upd_ptp k f : (∀ x, of_ptp I k x → of_ptp I k (f x)) → steady (upd_ptp k f).
Proof.
  intros Hf w a w'. unfold upd_ptp. destruct (w_ptps w !! k) as [x|] eqn:Hx; [|done].
  intros [= _ <-] (Hb & Ht & Hp & Hk & Hc). do 3 (split; [done|]). split; [|done].
  apply map_Forall_insert_2; [|done]. by apply Hf, Hk.
Qed.

Lemma steady_new_tree t x : of_tree I x → steady (new_tree t x).
Proof.
  intros Hx w a w' [= _ <-] (Hb & Ht & Hw). split; [done|]. split; [|done].
  by apply map_Forall_insert_2.
Qed.
Lemma steady_new_ptp k x : of_ptp I k x → steady (new_ptp k x).
Proof.
  intros Hx w a w' [= _ <-] (Hb & Ht & Hp & Hk & Hc). do 3 (split; [done|]). split; [|done].
  by apply map_Forall_insert_2.
Qed.
Lemma steady_alloc_port p x : of_port I x → steady (alloc_port p x).
Proof.
  intros Hx w a w' [= _ <-] (Hb & Ht & Hp & Hw). do 2 (split; [done|]). split; [|done].
  by apply map_Forall_insert_2.
Qed.
Lemma steady_free_tree t : steady (free_tree t).
Proof.
  intros w a w' [= _ <-] (Hb & Ht & Hw). split; [done|]. split; [|done]. by apply map_Forall_delete.
Qed.
Lemma steady_free_port p : steady (free_port p).
Proof.
  intros w a w' [= _ <-] (Hb & Ht & Hp & Hw). do 2 (split; [done|]). split; [|done].
  by apply map_Forall_delete.
Qed.
Lemma steady_free_ptp k : steady (free_ptp k).
Proof.
  intros w a w' [= _ <-] (Hb & Ht & Hp & Hk & Hc). do 3 (split; [done|]). split; [|done].
  by apply map_Forall_delete.
Qed.

Lemma steady_for_each {A} (l : list A) body : (∀ x, x ∈ l → steady (body x)) → steady (for_each l body).
Proof.
  induction l as [|x l IH]; intros Hb; [apply steady_ret|].
  apply steady_bind; [apply Hb; by left|]. intros _. apply IH. intros y Hy. apply Hb. by right.
Qed.
Lemma steady_any_of {A} (l : list A) body : (∀ x, steady (body x)) → steady (any_of l body).
Proof.
  intros Hb. induction l; [apply steady_ret|]. apply steady_bind; [done|].
  intros []; [apply steady_ret|done].
Qed.
Lemma steady_all_of {A} (l : list A) body : (∀ x, steady (body x)) → steady (all_of l body).
Proof.
  intros Hb. induction l; [apply steady_ret|]. apply steady_bind; [done|].
  intros []; [done|apply steady_ret].
Qed.
End steady.

Create HintDb steady discriminated.
#[export] Hint Constants Opaque : steady.
#[export] Hint Transparent timespec : steady.
#[export] Hint Resolve steady_ret steady_fault steady_out_of_fuel steady_of_option steady_get_br
  steady_get_port steady_get_tree steady_get_ptp steady_emit steady_calloc_ok
  steady_clock_readings steady_free_tree steady_free_port steady_free_ptp : steady.
(** Assignments to members the condition does not mention. *)
#[export] Hint Extern 1 (steady _ (upd_ptp _ _)) =>
  apply steady_upd_ptp; let H := fresh in intros ? H; exact H : steady.
#[export] Hint Extern 1 (steady _ (upd_port _ _)) =>
  apply steady_upd_port; let H := fresh in intros ? H; exact H : steady.
#[export] Hint Extern 1 (steady _ (upd_tree _ _)) =>
  apply steady_upd_tree; let H := fresh in intros ? H; exact H : steady.
#[export] Hint Extern 1 (steady _ (upd_br _)) =>
  apply steady_upd_br; let H := fresh in intros ? H; exact H : steady.

Ltac steady_step :=
  lazymatch goal with
  | |- steady _ (let _ := _ in _) => cbv zeta
  | |- steady _ (_ ≫= _) => apply steady_bind; [|intros ?]
  | |- steady _ (for_each _ _) => apply steady_for_each; intros ? ?
  | |- steady _ (any_of _ _) => apply steady_any_of; intros ?
  | |- steady _ (all_of _ _) => apply steady_all_of; intros ?
  | _ =>
    first
      [ solve [auto with steady]
      | lazymatch goal with
        | |- steady _ (match ?b with _ => _ end) => destruct b
        | |- steady _ ?m => let h := head_of m in unfold h
        end ]
  end.
Ltac steady_auto := repeat steady_step.

(** ** The condition for the CIST

    The CIST has no Master port; the Hello Time of a port, and the one it takes over when
    [updtInfo] is set, is not zero; BPDUs are counted up to a hold count in its range.
    [D] holds for per-tree ports whose designated times are known. *)
Definition cist_condition (D : ptp_id → Prop) (C : list timespec → Prop) : world_condition := {|
  of_br br := Transmit_Hold_Count br <= 10 ∧ br_Hello_Time br ≠ 0;
  of_tree x := Hello_Time (BridgeTimes x) ≠ 0;
  of_port x := 0 <= txCount x;
  of_ptp k x :=
    (ptp_tree k = 0 → selectedRole x ≠ roleMaster) ∧
    Hello_Time (portTimes x) ≠ 0 ∧
    (updtInfo x = true ∨ D k → Hello_Time (designatedTimes x) ≠ 0);
  of_clock := C
|}.

Lemma cist_condition_weaken (D D' : ptp_id → Prop) C w :
  (∀ k, D' k → D k) → holds (cist_condition D C) w → holds (cist_condition D' C) w.
Proof.
  intros HD (? & ? & ? & Hk & ?). do 3 (split; [done|]). split; [|done].
  intros k x Hx. destruct (Hk k x Hx) as (? & ? & Hd). split; [done|]. split; [done|].
  intros [?|?]; apply Hd; auto.
Qed.

(** [updtInfo] is cleared. *)
#[export] Hint Extern 2 (steady (cist_condition _ _) (upd_ptp _ _)) =>
  apply steady_upd_ptp; let H1 := fresh in let H2 := fresh in let H3 := fresh in
  intros ? (H1 & H2 & H3); split; [exact H1|]; split; [exact H2|]; intros [[=]|?];
  apply H3; right; assumption : steady.

(** [txCount] is set to zero. *)
#[export] Hint Extern 2 (steady (cist_condition _ _) (upd_port _ _)) =>
  apply steady_upd_port; intros ? _; exact (Z.le_refl 0) : steady.

Section cist.
Context (D : ptp_id → Prop) (C : list timespec → Prop).
Local Abbreviation cond := (cist_condition D C).
Local Abbreviation keep m := (steady (cist_condition D C) m).

Lemma steady_PTSM_tick p : keep (PTSM_tick p).
Proof.
  unfold PTSM_tick. steady_step.
  - apply steady_upd_port. intros x Hx. cbn in *. unfold dec. destruct (Z.eqb_spec (txCount x) 0); cbn; lia.
  - steady_auto.
Qed.
Lemma steady_incr_txCount p : keep (incr_txCount p).
Proof. apply steady_upd_port. intros x _. cbn. unfold u32. apply Z.mod_pos_bound. lia. Qed.
Lemma steady_select_root t l r : keep (select_root t l r).
Proof. revert r. induction l; intros r; simpl; steady_auto. Qed.
Lemma steady_find_msti_msg msgs i n t : keep (find_msti_msg msgs i n t).
Proof. revert i. induction n; intros i; simpl; steady_auto. Qed.
Lemma steady_txMstp_mstis l i b : keep (txMstp_mstis l i b).
Proof. revert i b. induction l; intros i b; simpl; steady_auto. Qed.
Lemma steady_allTransmitReady l b : keep (allTransmitReady l b).
Proof. revert b. induction l; intros b; simpl; steady_auto. Qed.
Lemma steady_set_tree_addresses l mac c : keep (set_tree_addresses l mac c).
Proof. revert c. induction l; intros c; simpl; steady_auto. Qed.
End cist.
#[export] Hint Resolve steady_PTSM_tick steady_incr_txCount steady_select_root
  steady_find_msti_msg steady_txMstp_mstis steady_allTransmitReady steady_set_tree_addresses : steady.

Section machines.
Context (D : ptp_id → Prop) (C : list timespec → Prop).
Local Abbreviation keep m := (steady (cist_condition D C) m).

Lemma steady_disabled_tree t : keep (updtRolesDisabledTree t).
Proof.
  unfold updtRolesDisabledTree, FOREACH_PTP_IN_TREE. steady_step; [steady_auto|].
  steady_step. apply steady_upd_ptp. intros y (? & ? & ?). by split.
Qed.

(** *** Role selection *)

Lemma set_designated_known t k w w' : set_designated t k w = Done tt w' →
  holds (cist_condition D C) w → holds (cist_condition (λ j, D j ∨ j = k) C) w'.
Proof.
  unfold set_designated.
  intros H. apply bind_Done_inv in H as (tree & w1 & [_ ->]%get_tree_Done & H).
  apply bind_Done_inv in H as (prt & w2 & [_ ->]%get_port_Done & H).
  apply upd_ptp_Done in H as (x & Hx & ->).
  intros (Hb & Ht & Hp & Hk & Hc). do 3 (split; [done|]). split; [|done].
  destruct (Hk k x Hx) as (Hr & Hh & Hd).
  intros j y. cbn. destruct (decide (j = k)) as [->|Hne].
  - rewrite lookup_insert_eq. intros [= <-]. split; [done|]. by split.
  - rewrite lookup_insert_ne by done. intros Hy. destruct (Hk j y Hy) as (? & ? & Hd').
    split; [done|]. split; [done|]. intros [?|[?|?]]; [apply Hd'; auto..|done].
Qed.
End machines.

Lemma set_designated_all D C t l w w' : for_each l (set_designated t) w = Done tt w' →
  holds (cist_condition D C) w → holds (cist_condition (λ j, D j ∨ j ∈ l) C) w'.
Proof.
  revert D w. induction l as [|k l IH]; intros D w.
  - intros [= <-]. apply cist_condition_weaken. intros k [?|Hk]; [done|]. by apply elem_of_nil in Hk.
  - intros H Hw. apply bind_Done_inv in H as ([] & w1 & H1 & H2).
    eapply cist_condition_weaken; [|eapply IH; [exact H2|by eapply set_designated_known]].
    intros j [?|Hj]; [auto|]. apply elem_of_cons in Hj as [->|?]; auto.
Qed.

Section roles.
Context (D : ptp_id → Prop) (C : list timespec → Prop).
Local Abbreviation keep m := (steady (cist_condition D C) m).

Lemma steady_set_designated t k : keep (set_designated t k).
Proof.
  intros w [] w' H Hw. apply (cist_condition_weaken (λ j, D j ∨ j = k)); [by left|].
  by eapply set_designated_known.
Qed.

Lemma steady_select_role t r k : ptp_tree k = t → D k → keep (select_role t r k).
Proof.
  intros Ht Hk. unfold select_role. cbv zeta. do 5 (steady_step; [auto with steady; steady_auto|]).
  assert (Hupd : ∀ f : per_tree_port_t → per_tree_port_t,
    (∀ x, portTimes (f x) = portTimes x) → (∀ x, designatedTimes (f x) = designatedTimes x) →
    (∀ x, t = 0 → selectedRole (f x) ≠ roleMaster) → keep (upd_ptp k f)).
  { intros f Hp Hd Hr. apply steady_upd_ptp. intros x (_ & Hh & Hdt). split; [|split].
    - rewrite Ht. apply Hr.
    - by rewrite Hp.
    - intros _. rewrite Hd. apply Hdt. by right. }
  destruct (_ ==? ioDisabled); [by apply Hupd|].
  destruct (negb (t =? 0) && _ && _) eqn:E.
  { apply Hupd; [done..|]. intros x ->. by destruct (Z.eqb_spec 0 0). }
  clear E. destruct (infoIs _); [steady_auto|by apply Hupd|by apply Hupd|].
  steady_step; [|steady_auto].
  destruct (_ ==? _); [by apply Hupd|]. destruct (betterorsamePriority _ _ _ _ _); [|by apply Hupd].
  apply Hupd; [done..|]. intros x _. cbn. by destruct (_ ≠? _).
Qed.

End roles.

Lemma steady_ptps_of_tree_bind I t {A} (f : list ptp_id → M A) :
  (∀ l, (∀ k, k ∈ l → ptp_tree k = t) → steady I (f l)) → steady I (ptps_of_tree t ≫= f).
Proof.
  intros Hf w a w' (l & w1 & H1 & H2)%bind_Done_inv. unfold ptps_of_tree in H1.
  apply bind_Done_inv in H1 as (x & w2 & [_ ->]%get_tree_Done & H1). injection H1 as <- <-.
  apply Hf in H2; [exact H2|]. intros k (p & -> & _)%list_elem_of_fmap. done.
Qed.

Section machines.
Context (D : ptp_id → Prop) (C : list timespec → Prop).
Local Abbreviation keep m := (steady (cist_condition D C) m).

(** Once [set_designated] has been called for all ports of [l], their designated times
    are known. *)
Lemma steady_designate t l {A} (m : unit → M A) :
  steady (cist_condition (λ j, D j ∨ j ∈ l) C) (m tt) →
  keep (for_each l (set_designated t) ≫= m).
Proof.
  intros Hm w a w' ([] & w1 & H1 & H2)%bind_Done_inv Hw.
  apply (cist_condition_weaken (λ j, D j ∨ j ∈ l)); [by left|].
  eapply Hm; [exact H2|]. by eapply set_designated_all.
Qed.

Lemma steady_updtRolesTree t : keep (updtRolesTree t).
Proof.
  unfold updtRolesTree. steady_step; [auto with steady|]. cbv zeta. steady_step; [auto with steady|].
  apply steady_ptps_of_tree_bind. intros l Hl. steady_step; [auto with steady|].
  steady_step; [steady_auto|]. apply steady_designate. steady_step; [auto with steady|].
  steady_step; [steady_auto|]. apply steady_for_each. intros k Hk.
  apply steady_select_role; [by apply Hl|by right].
Qed.

Lemma steady_PRSSM_run t d : keep (PRSSM_run t d).
Proof.
  pose proof steady_updtRolesTree. pose proof (steady_disabled_tree D C). steady_auto.
Qed.

End machines.
#[export] Hint Resolve steady_disabled_tree steady_updtRolesTree steady_PRSSM_run : steady.

(** *** Port Information *)

(** The designated times of a port with [updtInfo] are known. *)
Lemma steady_get_ptp_updt D C {A} k (f : per_tree_port_t → M A) :
  (∀ x, updtInfo x = true → steady (cist_condition (λ j, D j ∨ j = k) C) (f x)) →
  (∀ x, updtInfo x = false → steady (cist_condition D C) (f x)) →
  steady (cist_condition D C) (get_ptp k ≫= f).
Proof.
  intros Ht Hf w a w' (x & w1 & [Hx ->]%get_ptp_Done & H)%bind_Done_inv Hw.
  destruct (updtInfo x) eqn:Hu; [|by eapply Hf].
  apply (cist_condition_weaken (λ j, D j ∨ j = k)); [by left|].
  eapply Ht; [done|exact H|]. destruct Hw as (? & ? & ? & Hk & ?). do 3 (split; [done|]).
  split; [|done]. intros j y Hy. destruct (Hk j y Hy) as (? & ? & Hd). split; [done|].
  split; [done|]. intros [?|[?| ->]]; apply Hd; auto. left. by simplify_eq.
Qed.

Lemma steady_PISM_to_UPDATE D C run k :
  D k → steady (cist_condition D C) run → steady (cist_condition D C) (PISM_to_UPDATE run k).
Proof.
  intros Hk Hr. unfold PISM_to_UPDATE. do 4 (steady_step; [steady_auto|]).
  steady_step; [|steady_auto]. apply steady_upd_ptp. intros x (Hx & Ht & Hd).
  split; [exact Hx|]. cbn. split; [|intros _]; apply Hd; by right.
Qed.

Lemma steady_PISM C n k : ∀ D d, steady (cist_condition D C) (PISM_runf n k d).
Proof.
  induction n as [|n IH]; intros D d; cbn [PISM_runf]; [auto with steady|].
  steady_step; [auto with steady|].
  assert (Hupd : steady (cist_condition (λ j, D j ∨ j = k) C) (PISM_to_UPDATE (PISM_runf n k false) k)).
  { apply steady_PISM_to_UPDATE; [by right|apply IH]. }
  apply steady_get_ptp_updt; intros x Hu; rewrite ?Hu, ?andb_false_r; steady_auto.
Qed.
#[export] Hint Resolve steady_PISM : steady.

(** *** All machines *)

Section runs.
Context (D : ptp_id → Prop) (C : list timespec → Prop).
Local Abbreviation keep m := (steady (cist_condition D C) m).

Lemma steady_TCSM n k d : keep (TCSM_runf n k d).
Proof. revert d. induction n; intros d; cbn [TCSM_runf]; steady_auto. Qed.
Lemma steady_PPMSM n p d : keep (PPMSM_runf n p d).
Proof. revert d. induction n; intros d; cbn [PPMSM_runf]; steady_auto. Qed.
Lemma steady_PTSM n p d : keep (PTSM_runf n p d).
Proof. revert d. induction n; intros d; cbn [PTSM_runf]; steady_auto. Qed.
Lemma steady_PRTSM n v k d : keep (PRTSM_runf n v k d).
Proof. revert d. induction n; intros d; cbn [PRTSM_runf]; steady_auto. Qed.
Lemma steady_PSTSM n k d : keep (PSTSM_runf n k d).
Proof. revert d. induction n; intros d; cbn [PSTSM_runf]; steady_auto. Qed.
End runs.
#[export] Hint Resolve steady_TCSM steady_PPMSM steady_PTSM steady_PRTSM steady_PSTSM : steady.

Lemma steady_pass D C d : steady (cist_condition D C) (__br_state_machines_run d).
Proof. steady_auto. Qed.
#[export] Hint Resolve steady_pass : steady.

(** ** Every event

    [any_clock]: nothing is said of the clock. *)
Definition any_clock (l : list timespec) : Prop := True.

Lemma steady_clock D : steady (cist_condition D any_clock) clock_gettime.
Proof.
  intros w a w'. unfold clock_gettime. destruct (w_clock w); [done|].
  intros [= _ <-] (? & ? & ? & ? & ?). by do 4 (split; [done|]).
Qed.
#[export] Hint Resolve steady_clock : steady.

Lemma steady_loop D n tv : steady (cist_condition D any_clock) (br_state_machines_loop n tv).
Proof. induction n; cbn [br_state_machines_loop]; steady_auto. Qed.
#[export] Hint Resolve steady_loop : steady.
Lemma steady_run D : steady (cist_condition D any_clock) br_state_machines_run.
Proof. steady_auto. Qed.
#[export] Hint Resolve steady_run : steady.

Section events.
Context (C : list timespec → Prop).
Local Abbreviation keep m := (steady (cist_condition (λ _, False) C) m).

(** The default values clear [updtInfo]. *)
Lemma steady_ptp_default k : keep (upd_ptp k ptp_default_internal_vars).
Proof. apply steady_upd_ptp. intros x (? & ? & ?). split; [done|]. split; [done|]. by intros [[=]|[]]. Qed.

Lemma steady_create_ptp t p : keep (create_ptp t p).
Proof.
  unfold create_ptp. steady_step; [auto with steady|].
  match goal with |- steady _ (if ?b then _ else _) => destruct b end; [auto with steady|].
  apply steady_get_tree_bind. intros x Hx. steady_step; [auto with steady|].
  steady_step; [|auto with steady]. apply steady_new_ptp. split; [done|]. split; [exact Hx|].
  by intros [[=]|[]].
Qed.

Lemma steady_create_ptps_of_port p l : keep (create_ptps_of_port p l).
Proof. pose proof steady_create_ptp. induction l; cbn [create_ptps_of_port]; steady_auto. Qed.
Lemma steady_create_ptps_of_tree t a l : keep (create_ptps_of_tree t a l).
Proof. pose proof steady_create_ptp. induction l; cbn [create_ptps_of_tree]; steady_auto. Qed.
Lemma steady_set_internal_costs l c b : keep (set_internal_costs l c b).
Proof. revert b. induction l; intros b; cbn [set_internal_costs]; steady_auto. Qed.

Lemma steady_create_tree mac MSTID : keep (create_tree mac MSTID).
Proof.
  unfold create_tree. steady_step; [auto with steady|].
  match goal with |- steady _ (if ?b then _ else _) => destruct b end; [auto with steady|].
  apply steady_get_br_bind. intros br [_ Hb]. steady_step; [|auto with steady].
  apply steady_new_tree. exact Hb.
Qed.

Lemma steady_propagate_times br t : br_Hello_Time br ≠ 0 → keep (propagate_times br t).
Proof.
  intros Hb. unfold propagate_times, FOREACH_PTP_IN_TREE. steady_step; [by apply steady_upd_tree|].
  steady_step; [steady_auto|]. steady_step. apply steady_upd_ptp. intros y (? & ? & Hd).
  split; [done|]. by split.
Qed.
End events.
#[export] Hint Resolve steady_ptp_default steady_create_ptp steady_create_ptps_of_port
  steady_create_ptps_of_tree steady_set_internal_costs steady_create_tree : steady.

(** The Transmit Hold Count stays in its range, and the bridge times are taken over by the
    trees and ports. *)
Lemma config_hold_count br cfg v :
  cist_bridge_config_invalid br cfg = false → cfg_tx_hold_count cfg = Some v → v <= 10.
Proof.
  intros Hok Hv. unfold cist_bridge_config_invalid in Hok. rewrite Hv in Hok.
  repeat match goal with H : _ || _ = false |- _ => apply orb_false_iff in H as [? ?] end.
  match goal with H : out_of_range (Some v) 1 10 = false |- _ =>
    apply orb_false_iff in H as [_ ?%Z.ltb_ge] end. lia.
Qed.

Lemma steady_cist_bridge_config cfg :
  steady (cist_condition (λ _, False) any_clock) (MSTP_IN_set_cist_bridge_config cfg).
Proof.
  unfold MSTP_IN_set_cist_bridge_config. steady_step; [auto with steady|].
  destruct (cist_bridge_config_invalid _ cfg) eqn:Hok; [auto with steady|]. cbv zeta.
  steady_step.
  { apply steady_upd_br. intros br [? ?]. split; [|done]. cbn.
    destruct (cfg_tx_hold_count cfg) eqn:Hv; [|done]. by eapply config_hold_count. }
  steady_step; [steady_auto|]. apply steady_get_br_bind. intros br [_ Hbr].
  steady_step; [|steady_auto]. destruct (_ || _); [|apply steady_ret].
  cbn [when]. unfold FOREACH_TREE_IN_BRIDGE. steady_step; [steady_auto|]. steady_step.
  by apply steady_propagate_times.
Qed.
#[export] Hint Resolve steady_cist_bridge_config : steady.

Lemma steady_handle stack i w a w' :
  valid_input w i → handle stack i w = Done a w' →
  holds (cist_condition (λ _, False) any_clock) w → holds (cist_condition (λ _, False) any_clock) w'.
Proof.
  intros Hv H Hw. revert H Hw.
  assert (Hs : steady (cist_condition (λ _, False) any_clock) (handle stack i)); [|by apply Hs].
  destruct i; cbn [handle]; [destruct Hv as [_ Htx]|..].
  { unfold ignore. steady_step; [|steady_auto]. steady_step; [by apply steady_alloc_port|].
    steady_auto. }
  all: steady_auto.
Qed.

(** ** Reachable bridges *)

(** A bridge object without trees and ports. *)
Definition no_objects : world_condition := {|
  of_br _ := True; of_tree _ := False; of_port _ := False; of_ptp _ _ := False;
  of_clock _ := True
|}.

Lemma created_cist_condition stack mac w0 w :
  w_trees w0 = ∅ → w_ports w0 = ∅ → w_ptps w0 = ∅ →
  MSTP_IN_bridge_create stack mac w0 = Done true w →
  holds (cist_condition (λ _, False) any_clock) w.
Proof.
  intros Ht Hp Hk. assert (H0 : holds no_objects w0).
  { split; [done|]. rewrite Ht, Hp, Hk. by do 3 (split; [apply map_Forall_empty|]). }
  assert (Hs : ∀ f, steady no_objects (upd_br f)) by (intros; by apply steady_upd_br).
  assert (Hr : steady no_objects (RecalcConfigDigest stack)) by steady_auto.
  unfold MSTP_IN_bridge_create. intros ([] & w1 & H1 & H)%bind_Done_inv.
  apply bind_Done_inv in H as ([] & w2 & H2 & H).
  apply bind_Done_inv in H as ([] & w3 & [= <-] & H).
  destruct (Hr _ _ _ H2 (Hs _ _ _ _ H1 H0)) as (_ & Ht2 & Hp2 & Hk2 & _).
  match type of H with ?m ?w = _ =>
    assert (Hm : steady (cist_condition (λ _, False) any_clock) m) by steady_auto end.
  eapply Hm; [exact H|]. split; [done|]. split_and!; try done.
  - intros t x Hx. destruct (Ht2 t x Hx).
  - intros p x Hx. destruct (Hp2 p x Hx).
  - intros k x Hx. destruct (Hk2 k x Hx).
Qed.

Lemma reachable_cist_condition stack w :
  reachable stack w → holds (cist_condition (λ _, False) any_clock) w.
Proof.
  induction 1 as [mac w0 w Ht Hp Hk Hc|i clock allocs w w' _ IH Hv Hh|w w' _ IH He].
  - by eapply created_cist_condition.
  - eapply steady_handle; [|exact Hh|]; [|exact IH]. by destruct i.
  - destruct IH as (Hb & Ht & Hp & Hk & Hc). destruct He as [f stp|p x f Hx|p _|out clock allocs];
      split_and!; try done; cbn.
    + apply map_Forall_insert_2; [|done]. exact (Hp p x Hx).
    + by apply map_Forall_delete.
Qed.
