(* ===== verification/Progress.v ===== *)
(** Every event comes to an end in a bridge without MSTIs.

    [ends br C m C']: from a well-formed bridge in which the machines of the CIST come to
    an end, and with a clock of which [C] holds, [m] returns; the bridge is still one, and
    [C'] holds of the rest of the clock. *)
From S2P Require Import Prelude Types Monad Md5 Vectors Outputs Procs RoleSelect PortSM TreeSM.
From S2P Require Import Prtsm Bridge Mgmt Wf Safety Links System Sample Frame DryRun Termination.
From S2P Require Import Pres Blocked Settle Steady.

(** ** The bridge *)

Definition cist_ok (C : list timespec → Prop) (w : world) : Prop :=
  holds (cist_condition (λ _, False) C) w ∧ all_ptps port_ok w.

(** The invariants of [Steady] and [Blocked], for a computation. *)
Lemma cist_ok_step {A} (m : M A) C w a w' :
  steady (cist_condition (λ _, False) C) m → pres port_ok m → m w = Done a w' →
  cist_ok C w → cist_ok C w'.
Proof. intros Hs Hp H [? ?]. split; [by eapply Hs|by eapply Hp]. Qed.

Lemma cist_ok_clock (C C' : list timespec → Prop) w :
  cist_ok C w → C' (w_clock w) → cist_ok C' w.
Proof. intros [(? & ? & ? & ? & ?) ?] ?. split; [|done]. by do 4 (split; [done|]). Qed.

(** Then the machines that depend on the configuration come to an end as well. *)
Lemma cist_ok_PTSM br C p w : Inv br [] w → cist_ok C w → PTSM_config br p w.
Proof.
  intros Hi [(Hb & _ & Hp & Hk & _) _]. destruct Hb as [Hb _].
  rewrite (inv_br _ _ _ Hi) in Hb. split; [done| |].
  - intros x Hx. by destruct (Hk _ _ Hx) as (_ & ? & _).
  - intros x Hx. by apply (Hp _ _ Hx).
Qed.

Lemma cist_ok_PRTSM C k w : ptp_tree k = 0 → cist_ok C w → PRTSM_config k w.
Proof.
  intros Ht [(_ & _ & _ & Hk & _) Hr] x y Hx _. split.
  - destruct (Hr _ _ Hx) as [Hok _]. by apply andb_true_iff in Hok as [? _].
  - intros Hm. destruct (Hk _ _ Hx) as (Hn & _). by destruct (Hn Ht).
Qed.

(** ** The clock

    Some reading lies past the deadline that the first one sets, and [n - 1] more runs find
    this again in what is left, wherever the run before has stopped. *)
Fixpoint goes_forward (n : nat) (l : list timespec) : Prop :=
  match n, l with
  | O, _ => True
  | S _, [] => False
  | S n, tv :: l =>
      ∃ a t b, l = a ++ t :: b ∧ past_deadline t (fst tv + 1, snd tv) = true ∧
        ∀ s, s `suffix_of` l → b `suffix_of` s → goes_forward n s
  end.

Lemma suffix_rest (a b : list timespec) t : b `suffix_of` a ++ t :: b.
Proof. exists (a ++ [t]). by rewrite <- app_assoc. Qed.

Lemma goes_forward_S n l : goes_forward (S n) l → goes_forward n l.
Proof.
  revert l. induction n as [|n IH]; intros [|tv l]; try done.
  intros (a & t & b & Hl & Ht & Hs). exists a, t, b. split; [done|]. split; [done|].
  intros s Hs1 Hs2. by apply IH, Hs.
Qed.

(** ** Computations without recursion *)

Lemma total_upd_br f : total (upd_br f).
Proof. done. Qed.
Lemma total_calloc_ok : total calloc_ok.
Proof. intros w. unfold calloc_ok. by destruct (w_calloc w). Qed.
Lemma total_new_tree t x : total (new_tree t x).
Proof. done. Qed.
Lemma total_new_ptp k x : total (new_ptp k x).
Proof. done. Qed.
Lemma total_alloc_port p x : total (alloc_port p x).
Proof. done. Qed.
Lemma total_free_tree t : total (free_tree t).
Proof. done. Qed.
Lemma total_free_ptp k : total (free_ptp k).
Proof. done. Qed.
#[export] Hint Resolve total_upd_br total_calloc_ok total_new_tree total_new_ptp total_alloc_port
  total_free_tree total_free_ptp : total.
Lemma total_set_tree_addresses l mac c : total (set_tree_addresses l mac c).
Proof. revert c. induction l; intros c; cbn [set_tree_addresses]; total_auto. Qed.
Lemma total_set_internal_costs l c b : total (set_internal_costs l c b).
Proof. revert b. induction l; intros b; cbn [set_internal_costs]; total_auto. Qed.
Lemma total_create_ptps_of_port p l : total (create_ptps_of_port p l).
Proof. induction l; cbn [create_ptps_of_port]; total_auto. Qed.
#[export] Hint Resolve total_set_tree_addresses total_set_internal_costs
  total_create_ptps_of_port : total.

Lemma total_PISM_begin k : total (PISM_begin k).
Proof. unfold PISM_begin, PISM_to_DISABLED. cbn [negb when]. total_auto. Qed.
Lemma total_PSTSM_begin k : total (PSTSM_begin k).
Proof. unfold PSTSM_begin, PSTSM_to_DISCARDING. cbn [negb when]. total_auto. Qed.
Lemma total_TCSM_begin k : total (TCSM_begin k).
Proof. unfold TCSM_begin, TCSM_to_INACTIVE. cbn [negb when]. total_auto. Qed.
Lemma total_PPMSM_begin p : total (PPMSM_begin p).
Proof. unfold PPMSM_begin, PPMSM_to_CHECKING_RSTP. total_auto. Qed.
Lemma total_PTSM_begin p : total (PTSM_begin p).
Proof. unfold PTSM_begin, PTSM_to_TRANSMIT_INIT. cbn [negb andb]. total_auto. Qed.
Lemma total_PRTSM_begin k : total (PRTSM_begin k).
Proof. total_auto. Qed.
#[export] Hint Resolve total_PISM_begin total_PSTSM_begin total_TCSM_begin total_PPMSM_begin
  total_PTSM_begin total_PRTSM_begin : total.

(** ** The calculus *)

Section ends.
Context (br : bridge_t) (Hbr : wf_bridge br).

Definition ends {A} (C : list timespec → Prop) (m : M A) (C' : list timespec → Prop) : Prop :=
  ∀ w, Inv br [] w → cist_ok C w → nofuel m (λ _ w', Inv br [] w' ∧ cist_ok C' w') w.

Lemma ends_bind {A B} C C1 C' (m : M A) (f : A → M B) :
  ends C m C1 → (∀ a, ends C1 (f a) C') → ends C (m ≫= f) C'.
Proof.
  intros Hm Hf w Hi Hc. apply nofuel_bind. eapply nofuel_mono; [by apply Hm|].
  intros a w' [Hi' Hc']. by apply Hf.
Qed.

Lemma ends_ret {A} C (a : A) : ends C (mret a) C.
Proof. by intros w Hi Hc. Qed.

(** A computation that leaves the clock alone. *)
Lemma ends_machine {A} C (m : M A) :
  safe br [] (λ _, True) m → steady (cist_condition (λ _, False) C) m → pres port_ok m →
  (∀ w, Inv br [] w → cist_ok C w → nofuel m (λ _ _, True) w) → ends C m C.
Proof.
  intros Hs Hst Hp Hn w Hi Hc. specialize (Hn w Hi Hc). specialize (Hs w Hi).
  unfold nofuel, wp in *. destruct (m w) as [a w'| |] eqn:H; try done.
  destruct Hs as [Hi' _]. split; [done|]. by eapply cist_ok_step.
Qed.

Lemma ends_quiet {A} C (m : M A) :
  safe br [] (λ _, True) m → total m → steady (cist_condition (λ _, False) C) m →
  pres port_ok m → ends C m C.
Proof. intros Hs Ht Hst Hp. apply ends_machine; [done..|]. intros w _ _. by apply nofuel_total. Qed.

Lemma ends_when C b m : ends C m C → ends C (when b m) C.
Proof. destruct b; [done|]. intros _. apply ends_ret. Qed.

Lemma ends_any_of {A} C (l : list A) body :
  (∀ x, x ∈ l → ends C (body x) C) → ends C (any_of l body) C.
Proof.
  induction l as [|x l IH]; intros Hb; cbn [any_of]; [apply ends_ret|].
  eapply ends_bind; [apply Hb; by left|]. intros []; [apply ends_ret|].
  apply IH. intros y Hy. apply Hb. by right.
Qed.

Lemma ends_or_else C a b : ends C a C → ends C b C → ends C (or_else a b) C.
Proof. intros Ha Hb. eapply ends_bind; [exact Ha|]. intros []; [apply ends_ret|exact Hb]. Qed.

Lemma ends_get_br {A} C C' (f : bridge_t → M A) : ends C (f br) C' → ends C (get_br ≫= f) C'.
Proof.
  intros Hf w Hi Hc. apply nofuel_bind. unfold nofuel at 1, get_br.
  rewrite (inv_br _ _ _ Hi). by apply Hf.
Qed.
Lemma ends_get_port {A} C C' p (f : port_t → M A) :
  p ∈ br_ports br → (∀ x, ends C (f x) C') → ends C (get_port p ≫= f) C'.
Proof.
  intros Hp Hf w Hi Hc. apply nofuel_bind. destruct (inv_port _ _ _ Hi p Hp) as (x & Hx & _).
  unfold nofuel at 1, get_port. rewrite Hx. by apply Hf.
Qed.

Lemma ends_get_ptp {A} C C' k (f : per_tree_port_t → M A) :
  valid_ptp br k → (∀ x, ends C (f x) C') → ends C (get_ptp k ≫= f) C'.
Proof.
  intros Hk Hf w Hi Hc. apply nofuel_bind. destruct (inv_ptp _ _ _ Hi k Hk) as (x & Hx & _).
  unfold nofuel at 1, get_ptp. rewrite Hx. by apply Hf.
Qed.

(** The lists of the bridge. *)
Lemma ends_ports {A} C C' (f : list port_id → M A) :
  ends C (f (br_ports br)) C' → ends C (ports_of_bridge ≫= f) C'.
Proof.
  intros Hf w Hi Hc. do 2 apply nofuel_bind. apply nofuel_ret. cbn.
  rewrite (inv_br _ _ _ Hi). by apply Hf.
Qed.
Lemma ends_trees {A} C C' (f : list tree_id → M A) :
  ends C (f (br_trees br)) C' → ends C (trees_of_bridge ≫= f) C'.
Proof.
  intros Hf w Hi Hc. do 2 apply nofuel_bind. apply nofuel_ret. cbn.
  rewrite (inv_br _ _ _ Hi). by apply Hf.
Qed.
Lemma ends_ptps {A} C C' p (f : list ptp_id → M A) : p ∈ br_ports br →
  ends C (f (map (λ t, (p, t)) (br_trees br))) C' → ends C (ptps_of_port p ≫= f) C'.
Proof.
  intros Hp Hf w Hi Hc. do 2 apply nofuel_bind.
  destruct (inv_port _ _ _ Hi p Hp) as (x & Hx & [Ht _ _]).
  unfold nofuel at 1, get_port. rewrite Hx. apply nofuel_ret. rewrite Ht. by apply Hf.
Qed.

(** *** One pass over all machines *)

Context (Htrees : br_trees br = [0]).

Lemma ends_cist_ptp {A} C C' p (f : ptp_id → M A) : p ∈ br_ports br →
  ends C (f (p, 0)) C' → ends C (GET_CIST_PTP_FROM_PORT p ≫= f) C'.
Proof.
  intros Hp Hf w Hi Hc. apply nofuel_bind. destruct (inv_port _ _ _ Hi p Hp) as (x & Hx & [Ht _ _]).
  unfold nofuel at 1, GET_CIST_PTP_FROM_PORT, ptps_of_port, mbind, M_bind, get_port.
  rewrite Hx. cbn. rewrite Ht, Htrees. by apply Hf.
Qed.

Lemma ends_run_ports C d sm :
  (∀ p, p ∈ br_ports br → ends C (sm p d) C) → ends C (run_ports d sm) C.
Proof.
  intros Hs. apply ends_ports, ends_any_of. intros p Hp.
  eapply ends_bind; [by apply Hs|]. intros b. apply ends_ret.
Qed.
Lemma ends_run_trees C d sm :
  ends C (sm 0 d) C → ends C (run_trees d sm) C.
Proof.
  intros Hs. apply ends_trees, ends_any_of. rewrite Htrees.
  intros t ->%list_elem_of_singleton. eapply ends_bind; [exact Hs|]. intros b. apply ends_ret.
Qed.
Lemma ends_run_ptps C d sm :
  (∀ p, p ∈ br_ports br → ends C (sm (p, 0) d) C) → ends C (run_ptps d sm) C.
Proof.
  intros Hs. apply ends_ports, ends_any_of. intros p Hp.
  apply ends_ptps; [done|]. apply ends_any_of. rewrite Htrees.
  intros k ->%list_elem_of_singleton. eapply ends_bind; [by apply Hs|]. intros b. apply ends_ret.
Qed.

Lemma ends_pass C d : ends C (__br_state_machines_run d) C.
Proof.
  unfold __br_state_machines_run. assert (Hk : ∀ p, p ∈ br_ports br → valid_ptp br (p, 0)).
  { intros p Hp. split; [done|]. rewrite Htrees. by left. }
  repeat apply ends_or_else;
    lazymatch goal with
    | |- ends _ (run_ports _ _) _ => apply ends_run_ports; intros p Hp
    | |- ends _ (run_ptps _ _) _ => apply ends_run_ptps; intros p Hp
    | |- ends _ (run_trees _ _) _ => apply ends_run_trees
    end.
  - apply ends_quiet; [by apply safe_BA_run|total_auto|steady_auto|pres_auto].
  - apply ends_quiet; [by apply safe_PRSM_run|apply PRSM_total|steady_auto|pres_auto].
  - apply ends_machine; [by apply safe_PPMSM_runf|steady_auto|pres_auto|].
    intros. by eapply PPMSM_nofuel.
  - apply ends_quiet; [by apply safe_BDSM_run|apply BDSM_total|steady_auto|pres_auto].
  - apply ends_machine; [by apply safe_PTSM_runf|steady_auto|pres_auto|].
    intros. eapply PTSM_nofuel; [done..|]. by eapply cist_ok_PTSM.
  - apply ends_machine; [apply safe_PISM_runf; auto|steady_auto|pres_auto|].
    intros w Hi Hc. eapply PISM_nofuel; [exact Hi|by apply Hk].
  - apply ends_quiet; [apply safe_PRSSM_run; [exact Hbr|rewrite Htrees; by left]|apply PRSSM_total| |pres_auto].
    auto with steady.
  - apply ends_machine; [apply safe_PRTSM_run; auto|steady_auto|pres_auto|].
    intros w Hi Hc. eapply PRTSM_nofuel; [exact Hi|by apply Hk|]. by eapply cist_ok_PRTSM.
  - apply ends_machine; [apply safe_PSTSM_runf; auto|steady_auto|pres_auto|].
    intros w Hi Hc. eapply PSTSM_nofuel; [exact Hi|by apply Hk].
  - apply ends_machine; [apply safe_TCSM_runf; auto|steady_auto|pres_auto|].
    intros w Hi Hc. eapply TCSM_nofuel; [exact Hi|by apply Hk].
Qed.

(** *** The run *)

Lemma ends_clock {A} C (f : timespec → M A) C' :
  (∀ t l, C (t :: l) → ends (λ c, c = l) (f t) C') → ¬ C [] → ends C (clock_gettime ≫= f) C'.
Proof.
  intros Hf Hn w Hi Hc. pose proof Hc as [(_ & _ & _ & _ & Hcl) _].
  unfold nofuel, mbind, M_bind, clock_gettime. cbn in Hcl.
  destruct (w_clock w) as [|t l] eqn:Hw; [done|]. apply (Hf t l Hcl).
  - split; apply Hi.
  - destruct Hc as [(? & ? & ? & ? & _) ?]. split; [|done]. by do 4 (split; [done|]).
Qed.

Lemma ends_mono {A} (C1 C2 C C' : list timespec → Prop) (m : M A) :
  (∀ l, C1 l → C2 l) → (∀ l, C l → C' l) → ends C2 m C → ends C1 m C'.
Proof.
  intros H1 H2 Hm w Hi Hc. pose proof Hc as [(_ & _ & _ & _ & Hcl) _].
  eapply nofuel_mono; [apply (Hm w Hi), (cist_ok_clock C1); [done|by apply H1]|].
  intros a w' [Hi' Hc']. split; [done|]. apply (cist_ok_clock C); [done|].
  destruct Hc' as [(_ & _ & _ & _ & Hcl') _]. by apply H2.
Qed.

Lemma ends_loop (C' : list timespec → Prop) tv_end t b fuel a :
  past_deadline t tv_end = true → (length a < fuel)%nat →
  (∀ s, s `suffix_of` a ++ t :: b → b `suffix_of` s → C' s) →
  ends (λ c, c = a ++ t :: b) (br_state_machines_loop fuel tv_end) C'.
Proof.
  intros Ht. revert a. induction fuel as [|fuel IH]; intros a Hf HC; [lia|].
  cbn [br_state_machines_loop]. eapply ends_bind; [apply ends_pass|].
  intros []; cbn [negb].
  2:{ eapply ends_mono; [intros ? H; exact H| |apply ends_ret]. intros l ->. apply HC; [reflexivity|apply suffix_rest]. }
  eapply ends_bind; [apply ends_pass|]. intros _. apply ends_clock; [|by destruct a].
  intros t0 l Hl. destruct a as [|u a]; injection Hl as -> ->.
  - rewrite Ht. eapply ends_mono; [intros ? H; exact H| |apply ends_ret]. intros l' ->.
    apply HC; [apply (suffix_rest [])|reflexivity].
  - destruct (past_deadline u tv_end).
    + eapply ends_mono; [intros ? H; exact H| |apply ends_ret]. intros l' ->.
      apply HC; [by exists [u]|apply suffix_rest].
    + cbn in Hf. apply IH; [lia|]. intros s [x Hx]. apply HC. exists (u :: x). cbn. by rewrite Hx.
Qed.

Lemma ends_run n : ends (goes_forward (S n)) br_state_machines_run (goes_forward n).
Proof.
  intros w Hi Hc. unfold br_state_machines_run. apply nofuel_bind. unfold nofuel at 1, get_br.
  destruct (bridgeEnabled (w_br w)); cbn [negb].
  2:{ split; [done|]. apply (cist_ok_clock _ _ _ Hc), goes_forward_S.
      destruct Hc as [(_ & _ & _ & _ & H) _]. exact H. }
  revert w Hi Hc. apply ends_clock; [|by intros []].
  intros tv l (a & t & b & -> & Ht & Hs). intros w Hi Hc. apply nofuel_bind.
  unfold nofuel at 1, clock_readings.
  assert (Hcl : w_clock w = a ++ t :: b) by (destruct Hc as [(_ & _ & _ & _ & H) _]; exact H).
  rewrite Hcl. revert w Hi Hc Hcl. intros w Hi Hc _. revert w Hi Hc.
  apply ends_loop; [exact Ht|rewrite length_app; lia|exact Hs].
Qed.

End ends.

Ltac ends_quiet :=
  apply ends_quiet; [solve [safe_auto]|solve [total_auto]|solve [steady_auto]|solve [pres_auto]].

Section begins.
Context (br : bridge_t) (Hbr : wf_bridge br) (Htrees : br_trees br = [0]).

(** *** The state machines begin *)

Hint Resolve safe_ptp_begin safe_PRTSM_begin : safe.

Lemma ends_ret_S {A} n (a : A) : ends br (goes_forward (S n)) (mret a) (goes_forward n).
Proof. eapply ends_mono; [intros ? H; exact H|apply goes_forward_S|apply ends_ret]. Qed.
Lemma ends_when_S n b m :
  ends br (goes_forward (S n)) m (goes_forward n) →
  ends br (goes_forward (S n)) (when b m) (goes_forward n).
Proof. destruct b; [done|]. intros _. apply ends_ret_S. Qed.

Lemma ends_br_begin n : ends br (goes_forward (S n)) br_state_machines_begin (goes_forward n).
Proof.
  unfold br_state_machines_begin, PRSSM_begin. apply ends_get_br.
  destruct (bridgeEnabled br); cbn [negb]; [|apply ends_ret_S].
  repeat (eapply ends_bind; [ends_quiet|intros _]).
  by apply ends_run.
Qed.

Lemma ends_prt_begin n p :
  p ∈ br_ports br → ends br (goes_forward (S n)) (prt_state_machines_begin p) (goes_forward n).
Proof.
  intros Hp. unfold prt_state_machines_begin. apply ends_get_br.
  destruct (bridgeEnabled br); cbn [negb]; [|apply ends_ret_S].
  repeat (eapply ends_bind; [ends_quiet|intros _]).
  by apply ends_run.
Qed.

(** *** Events that leave the bridge object alone *)

Lemma ends_set_bridge_address n mac :
  ends br (goes_forward (S n)) (MSTP_IN_set_bridge_address mac) (goes_forward n).
Proof.
  unfold MSTP_IN_set_bridge_address. apply ends_trees.
  eapply ends_bind; [|intros b; apply ends_when_S, ends_br_begin].
  apply ends_quiet; [by apply safe_set_tree_addresses|total_auto|steady_auto|pres_auto].
Qed.

Lemma ends_set_port_enable n p up s d : p ∈ br_ports br →
  ends br (goes_forward (S n)) (MSTP_IN_set_port_enable p up s d) (goes_forward n).
Proof.
  intros Hp. unfold MSTP_IN_set_port_enable.
  eapply ends_bind; [|intros b; by apply ends_when_S, ends_run]. apply ends_quiet.
  - destruct up; [by apply safe_port_goes_up|safe_auto].
  - total_auto.
  - steady_auto.
  - pres_auto.
Qed.

Lemma ends_all_fids_flushed n k : valid_ptp br k →
  ends br (goes_forward (S n)) (MSTP_IN_all_fids_flushed k) (goes_forward n).
Proof.
  intros Hk. unfold MSTP_IN_all_fids_flushed, MSTP_IN_all_fids_flushed_with.
  eapply ends_bind; [ends_quiet|intros _]. apply ends_get_br.
  destruct (bridgeEnabled br); cbn [negb]; [|apply ends_ret_S].
  apply ends_get_ptp; [done|]. intros x. destruct (negb _); [|apply ends_ret_S].
  eapply ends_bind; [|intros b; by apply ends_run].
  apply ends_machine; [by apply safe_TCSM_runf|steady_auto|pres_auto|].
  intros w Hi Hc. by eapply TCSM_nofuel.
Qed.

Lemma ends_rx_bpdu n p b size : p ∈ br_ports br → length (mstConfiguration b) = 64%nat →
  ends br (goes_forward (S n)) (MSTP_IN_rx_bpdu p b size) (goes_forward n).
Proof.
  intros Hp Hb. unfold MSTP_IN_rx_bpdu, accept_bpdu.
  eapply ends_bind; [ends_quiet|intros _]. apply ends_get_port; [done|]. intros x.
  apply ends_get_br. destruct (BpduGuardPort x).
  { eapply ends_mono; [intros ? H; exact H|apply goes_forward_S|ends_quiet]. }
  destruct (bpduFilterPort x).
  { eapply ends_mono; [intros ? H; exact H|apply goes_forward_S|ends_quiet]. }
  destruct (negb _); [apply ends_ret_S|]. destruct (rcvdBpdu x); [apply ends_ret_S|].
  destruct (validate_bpdu b size) as [|v num] eqn:Hv; [apply ends_ret_S|].
  eapply ends_bind; [|intros _; eapply ends_bind; [ends_quiet|intros _; by apply ends_run]].
  apply ends_quiet; [|total_auto|steady_auto|pres_auto].
  apply safe_upd_port; [done|]. intros y [? ? Hn]. split; cbn; [done|done|].
  apply validate_bpdu_num in Hv. by destruct num.
Qed.

Lemma ends_set_msti_bridge_config n t pri : t ∈ br_trees br →
  ends br (goes_forward (S n)) (MSTP_IN_set_msti_bridge_config t pri) (goes_forward n).
Proof.
  intros Ht. eapply ends_mono; [intros ? H; exact H|apply goes_forward_S|].
  unfold MSTP_IN_set_msti_bridge_config. ends_quiet.
Qed.

Lemma ends_set_cist_port_config n p cfg : p ∈ br_ports br →
  ends br (goes_forward (S n)) (MSTP_IN_set_cist_port_config p cfg) (goes_forward n).
Proof.
  intros Hp. unfold MSTP_IN_set_cist_port_config, set_external_cost, set_admin_p2p, set_admin_edge,
    set_protocol_flags, set_network_port, set_bpdu_flags.
  destruct (out_of_range _ _ _); [apply ends_ret_S|].
  do 5 (eapply ends_bind; [ends_quiet|intros ?]). eapply ends_bind; [ends_quiet|intros _].
  apply ends_get_port; [done|]. intros x.
  eapply ends_bind; [by apply ends_when_S, ends_run|]. intros _. apply ends_ret.
Qed.

Lemma ends_set_msti_port_config n k cfg : valid_ptp br k →
  ends br (goes_forward (S n)) (MSTP_IN_set_msti_port_config k cfg) (goes_forward n).
Proof.
  intros Hk. unfold MSTP_IN_set_msti_port_config, set_port_priority, set_internal_cost.
  apply ends_get_port; [apply Hk|]. intros x.
  destruct (out_of_range _ _ _); [apply ends_ret_S|].
  destruct (out_of_range _ _ _); [apply ends_ret_S|].
  do 2 (eapply ends_bind; [ends_quiet|intros ?]).
  eapply ends_bind; [apply ends_when_S|intros _; apply ends_ret].
  eapply ends_bind; [ends_quiet|intros _]. by apply ends_run.
Qed.

Lemma ends_port_mcheck n p : p ∈ br_ports br →
  ends br (goes_forward (S n)) (MSTP_IN_port_mcheck p) (goes_forward n).
Proof.
  intros Hp. unfold MSTP_IN_port_mcheck. apply ends_get_br, ends_cist_ptp; [done..|].
  assert (Hk : valid_ptp br (p, 0)) by (split; [done|rewrite Htrees; by left]).
  apply ends_get_port; [done|]. intros x.
  eapply ends_bind; [apply ends_when_S|intros _; apply ends_ret].
  do 2 (eapply ends_bind; [ends_quiet|intros _]). by apply ends_run.
Qed.
End begins.

(** ** Events that change the bridge object *)

Record cist_bridge (C : list timespec → Prop) (w : world) : Prop := {
  cb_wf : wf w;
  cb_trees : br_trees (w_br w) = [0];
  cb_ok : cist_ok C w
}.

Lemma nofuel_ends {A} C C' (m : M A) w :
  cist_bridge C w →
  (wf_bridge (w_br w) → br_trees (w_br w) = [0] → ends (w_br w) C m C') →
  nofuel m (λ _ w', cist_bridge C' w' ∧ w_br w' = w_br w) w.
Proof.
  intros [[Hb Hi] Ht Hc] Hm. eapply nofuel_mono; [by apply Hm|].
  intros a w' [Hi' Hc']. pose proof (inv_br _ _ _ Hi') as Heq.
  split; [|done]. split; [split; rewrite Heq; done|by rewrite Heq|done].
Qed.

Lemma cist_bridge_upd_br C f w :
  cist_bridge C w →
  br_ports (f (w_br w)) = br_ports (w_br w) → br_trees (f (w_br w)) = br_trees (w_br w) →
  Transmit_Hold_Count (f (w_br w)) <= 10 → br_Hello_Time (f (w_br w)) = br_Hello_Time (w_br w) →
  cist_bridge C (w <| w_br ::= f |>).
Proof.
  intros [Hw Ht Hc] Hp Htr Hh Hhello.
  split; [by apply wf_upd_br|by etrans|]. destruct Hc as [(Hb & Hc) Hr]. split; [|done].
  split; [|exact Hc]. cbn. split; [exact Hh|]. rewrite Hhello. apply Hb.
Qed.

Lemma nofuel_upd_br {A} C f (m : unit → M A) Q w :
  cist_bridge C w →
  br_ports (f (w_br w)) = br_ports (w_br w) → br_trees (f (w_br w)) = br_trees (w_br w) →
  Transmit_Hold_Count (f (w_br w)) <= 10 → br_Hello_Time (f (w_br w)) = br_Hello_Time (w_br w) →
  (∀ w', cist_bridge C w' → w_br w' = f (w_br w) → nofuel (m tt) Q w') →
  nofuel (upd_br f ≫= m) Q w.
Proof. intros. apply nofuel_bind. unfold nofuel at 1, upd_br. auto using cist_bridge_upd_br. Qed.

Lemma nofuel_get_br {A} (f : bridge_t → M A) Q w :
  nofuel (f (w_br w)) Q w → nofuel (get_br ≫= f) Q w.
Proof. done. Qed.
Lemma nofuel_of_option {A B} (o : option A) (f : A → M B) Q w :
  (∀ a, nofuel (f a) Q w) → nofuel (of_option o ≫= f) Q w.
Proof. intros Hf. by destruct o; [apply Hf|]. Qed.

(** Only the list of ports is another. *)
Lemma cist_ok_ports C w br l :
  w_br w = br → cist_ok C w → cist_ok C (w <| w_br := br <| br_ports ::= l |> |>).
Proof. intros <- [(? & ? & ? & ? & ?) ?]. split; [|done]. by do 4 (split; [done|]). Qed.

Lemma cist_bridge_hold C w : cist_bridge C w → Transmit_Hold_Count (w_br w) <= 10.
Proof. intros [_ _ [[[H _] _] _]]. exact H. Qed.

(** A first part whose result [R] describes. *)
Lemma nofuel_wp {A B} C (m : M A) (f : A → M B) (R : A → world → Prop) Q w :
  wp True m R w → total m → steady (cist_condition (λ _, False) C) m → pres port_ok m →
  cist_ok C w → (∀ a w', R a w' → cist_ok C w' → nofuel (f a) Q w') → nofuel (m ≫= f) Q w.
Proof.
  intros Hw Ht Hs Hp Hc Hf. apply nofuel_bind. specialize (Ht w). unfold nofuel at 1. unfold wp in Hw.
  destruct (m w) as [a w'| |] eqn:H; try done. apply Hf; [exact Hw|]. by eapply cist_ok_step.
Qed.

Lemma nofuel_when {Q : unit → world → Prop} b m w : Q tt w → nofuel m Q w → nofuel (when b m) Q w.
Proof. by destruct b. Qed.

Section events.
Context (n : nat) (w : world) (Hw : cist_bridge (goes_forward (S n)) w).
Local Abbreviation finishes m := (nofuel m (λ _ _, True) w).

Lemma nofuel_ends_at {A} (m : M A) C w' :
  cist_bridge C w' →
  (wf_bridge (w_br w') → br_trees (w_br w') = [0] → ends (w_br w') C m (goes_forward n)) →
  nofuel m (λ _ _, True) w'.
Proof. intros Hc Hm. eapply nofuel_mono; [by eapply nofuel_ends|done]. Qed.

Lemma one_second_finishes : finishes MSTP_IN_one_second.
Proof.
  unfold MSTP_IN_one_second. eapply nofuel_upd_br; [exact Hw|done|done| |done|].
  { by apply (cist_bridge_hold (goes_forward (S n))). }
  intros w' Hw' _. eapply nofuel_ends_at; [exact Hw'|]. intros Hb Ht.
  apply ends_get_br. destruct (bridgeEnabled _); cbn [negb]; [|apply ends_ret_S].
  do 2 (eapply ends_bind; [unfold rapid_ageing_tick; ends_quiet|intros _]). by apply ends_run.
Qed.

Lemma set_bridge_enable_finishes up : finishes (MSTP_IN_set_bridge_enable up).
Proof.
  unfold MSTP_IN_set_bridge_enable. apply nofuel_get_br.
  destruct (Bool.eqb _ _); [done|]. eapply nofuel_upd_br; [exact Hw|done|done| |done|].
  { by apply (cist_bridge_hold (goes_forward (S n))). }
  intros w' Hw' _. eapply nofuel_ends_at; [exact Hw'|]. intros Hb Ht.
  do 2 (eapply ends_bind; [ends_quiet|intros _]). by apply ends_br_begin.
Qed.

Lemma set_mst_config_id_finishes rev name : finishes (MSTP_IN_set_mst_config_id rev name).
Proof.
  unfold MSTP_IN_set_mst_config_id. apply nofuel_get_br. cbv zeta.
  apply nofuel_when; [done|]. eapply nofuel_upd_br; [exact Hw|done|done| |done|].
  { by apply (cist_bridge_hold (goes_forward (S n))). }
  intros w' Hw' _. eapply nofuel_ends_at; [exact Hw'|]. intros Hb Ht. by apply ends_br_begin.
Qed.

Lemma set_cist_bridge_config_finishes cfg : finishes (MSTP_IN_set_cist_bridge_config cfg).
Proof.
  unfold MSTP_IN_set_cist_bridge_config. apply nofuel_get_br.
  destruct (cist_bridge_config_invalid _ cfg) eqn:Hok; [done|]. cbv zeta.
  eapply nofuel_upd_br; [exact Hw|done|done| |done|].
  { cbn. pose proof (cist_bridge_hold _ _ Hw).
    destruct (cfg_tx_hold_count cfg) eqn:Hv; [|done]. by eapply config_hold_count. }
  intros w' Hw' _. eapply nofuel_ends_at; [exact Hw'|]. intros Hb Ht.
  eapply ends_bind; [ends_quiet|intros _]. apply ends_get_br.
  eapply ends_bind; [|intros _; eapply ends_bind; [|intros _; apply ends_ret]].
  - apply ends_when, ends_quiet; [unfold propagate_times; safe_auto|total_auto| |pres_auto].
    unfold FOREACH_TREE_IN_BRIDGE. steady_step; [steady_auto|]. steady_step.
    apply steady_propagate_times. apply Hw'.
  - apply ends_when_S. destruct (changes _ _); [by apply ends_br_begin|by apply ends_run].
Qed.

Lemma nofuel_skip {A} (m : M A) (w' : world) {B} (b : B) :
  nofuel m (λ _ _, True) w' → nofuel (m ;; mret b) (λ _ _, True) w'.
Proof. intros Hm. apply nofuel_bind. by eapply nofuel_mono. Qed.

Lemma recalc_finishes stack w' : cist_bridge (goes_forward (S n)) w' →
  nofuel (recalc_and_begin stack) (λ _ _, True) w'.
Proof.
  intros Hw'. unfold recalc_and_begin, RecalcConfigDigest.
  do 2 apply nofuel_bind. apply nofuel_get_br, nofuel_of_option. intros table.
  unfold nofuel at 1, upd_br. eapply nofuel_ends_at.
  - eapply cist_bridge_upd_br; [exact Hw'|done|done| |done].
    by apply (cist_bridge_hold (goes_forward (S n))).
  - intros Hb Ht. by apply ends_br_begin.
Qed.

Ltac new_table :=
  eapply nofuel_upd_br; [exact Hw|done|done|by apply (cist_bridge_hold (goes_forward (S n)))|done|];
  let w' := fresh "w'" in let H := fresh "Hw'" in intros w' H ?.

Lemma set_vid2fid_finishes stack vid fid : finishes (MSTP_IN_set_vid2fid stack vid fid).
Proof.
  unfold MSTP_IN_set_vid2fid. destruct (_ || _); [done|]. apply nofuel_get_br.
  do 2 (apply nofuel_of_option; intros ?). new_table.
  apply nofuel_skip, nofuel_when; [done|]. by apply recalc_finishes.
Qed.

Lemma set_all_vids2fids_finishes stack l : finishes (MSTP_IN_set_all_vids2fids stack l).
Proof.
  unfold MSTP_IN_set_all_vids2fids. apply nofuel_get_br.
  do 2 (apply nofuel_of_option; intros ?). new_table.
  apply nofuel_skip, nofuel_when; [done|]. by apply recalc_finishes.
Qed.

Lemma set_fid2mstid_finishes stack fid mstid : finishes (MSTP_IN_set_fid2mstid stack fid mstid).
Proof.
  unfold MSTP_IN_set_fid2mstid. destruct (_ <? _); [done|].
  apply nofuel_bind, nofuel_get_br, nofuel_ret. destruct (negb _); [done|]. apply nofuel_get_br.
  apply nofuel_of_option; intros old. apply nofuel_skip, nofuel_when; [done|]. new_table.
  apply nofuel_of_option; intros used. apply nofuel_when; [done|]. by apply recalc_finishes.
Qed.

Lemma set_all_fids2mstids_finishes stack l : finishes (MSTP_IN_set_all_fids2mstids stack l).
Proof.
  unfold MSTP_IN_set_all_fids2mstids. apply nofuel_bind, nofuel_get_br, nofuel_ret, nofuel_get_br.
  destruct (_ <? _)%nat; [done|]. destruct (check_fids2mstids _ _ _); [|done].
  apply nofuel_of_option; intros prev. new_table. apply nofuel_get_br.
  apply nofuel_of_option; intros new. apply nofuel_skip, nofuel_when; [done|].
  by apply recalc_finishes.
Qed.

(** There is no MSTI to delete. *)
Lemma delete_msti_finishes m : finishes (MSTP_IN_delete_msti m).
Proof.
  unfold MSTP_IN_delete_msti. destruct (_ || _) eqn:Hm; [done|]. apply nofuel_get_br.
  destruct (bool_decide (_ ∈ fid2mstid _)); [done|].
  rewrite bool_decide_false; [done|]. rewrite (cb_trees _ _ Hw). intros ->%list_elem_of_singleton.
  done.
Qed.

Lemma create_port_finishes p x portno :
  fresh_port w p x → 0 <= txCount x →
  finishes (alloc_port p x ;; MSTP_IN_port_create_and_add_tail p portno).
Proof.
  intros Hf Htx. destruct Hw as [[Hb Hi] Ht Hc]. pose proof Hf as [Hp _].
  pose proof (PortLink_start w p x portno (conj Hb Hi) Hf) as HJ.
  set (br := w_br w) in *. set (w2 := w <| w_ports ::= _ |> <| w_ports := _ |>) in HJ.
  assert (HL : list_del p (br_ports br ++ [p]) = br_ports br) by by apply list_del_snoc.
  set (w1 := w <| w_ports ::= <[p := x]> |>).
  assert (Hu : upd_port p (created_port portno) w1 = Done tt w2)
    by (unfold upd_port, w1; cbn; by rewrite lookup_insert_eq).
  assert (Hc2 : cist_ok (goes_forward (S n)) w2).
  { apply (cist_ok_step (upd_port p (created_port portno)) _ w1 tt); [steady_auto|pres_auto|exact Hu|].
    by apply (cist_ok_step (alloc_port p x) _ w tt); [apply steady_alloc_port|pres_auto|..]. }
  apply nofuel_bind. unfold nofuel at 1, alloc_port. fold w1.
  unfold MSTP_IN_port_create_and_add_tail. apply nofuel_bind. unfold nofuel at 1. rewrite Hu.
  apply nofuel_bind, nofuel_get_br, nofuel_ret. change (w_br w2) with br.
  eapply nofuel_wp; [by apply (PortLink_create br (br_ports br) _ p Hp HL
    (wf_bridge_trees _ Hb) (br_trees br) [])|total_auto|auto with steady|pres_auto|exact Hc2|].
  intros ok w3 (done' & HJ3 & Hnd & Hin & Hok) Hc3. destruct ok; cbn [negb].
  - rewrite (Hok eq_refl) in HJ3. apply nofuel_bind. unfold nofuel at 1, upd_br.
    rewrite (upd_br_eq _ _ _ (pl_br _ _ _ _ _ _ HJ3)). apply nofuel_skip.
    eapply (nofuel_ends_at _ (goes_forward (S n))).
    + split; [by apply PortLink_finish|done|].
      apply cist_ok_ports; [apply (pl_br _ _ _ _ _ _ HJ3)|exact Hc3].
    + intros Hb' Ht'. apply ends_prt_begin; [done..|]. cbn. apply elem_of_app. right. by left.
  - apply nofuel_skip, nofuel_total. total_auto.
Qed.
End events.

Lemma delete_port_finishes n p w :
  cist_bridge (goes_forward (S (S n))) w → p ∈ br_ports (w_br w) →
  nofuel (MSTP_IN_delete_port p) (λ _ _, True) w.
Proof.
  intros Hw Hp. unfold MSTP_IN_delete_port.
  apply nofuel_bind. eapply nofuel_mono; [eapply nofuel_ends; [exact Hw|intros Hb Ht; ends_quiet]|].
  intros [] w1 [Hw1 Heq]. rewrite <- Heq in Hp. clear Heq.
  destruct (inv_port _ _ _ (proj2 (cb_wf _ _ Hw1)) p Hp) as (x & Hx & _).
  apply nofuel_bind. unfold nofuel at 1, get_port. rewrite Hx. cbn [of_option].
  apply nofuel_bind. eapply nofuel_mono; [eapply nofuel_ends; [exact Hw1|]|].
  { intros Hb Ht. apply ends_when_S. eapply ends_bind; [ends_quiet|intros _]. by apply ends_run. }
  intros [] w2 [[[Hb Hi] Ht Hc] Heq]. rewrite <- Heq in Hp. clear Heq. set (br := w_br w2) in *.
  eapply nofuel_wp; [apply (PortLink_unlink_all br (list_del p (br_ports br))
    (br_ports br) p) with (done := br_trees br)|total_auto|steady_auto|pres_auto|exact Hc|];
    [|done|apply wf_bridge_trees, Hb|done|by apply Inv_PortLink|].
  { by intros [_ ?]%elem_of_list_del. }
  intros [] w3 HJ Hc3. apply nofuel_bind. unfold nofuel at 1, upd_br.
  rewrite (upd_br_eq _ _ _ (pl_br _ _ _ _ _ _ HJ)).
  eapply (nofuel_ends_at n _ (goes_forward (S n))); [|intros; by apply ends_run].
  split; [split|done|].
  - by apply wf_bridge_del_port.
  - eapply PortLink_Inv; [exact HJ|done|by left].
  - apply cist_ok_ports; [apply (pl_br _ _ _ _ _ _ HJ)|exact Hc3].
Qed.

(** ** Every event *)

Definition creates_msti (i : input) : bool := match i with CreateMsti _ => true | _ => false end.

Lemma handle_finishes stack n i w :
  cist_bridge (goes_forward (S (S n))) w → valid_input w i → creates_msti i = false →
  nofuel (handle stack i) (λ _ _, True) w.
Proof.
  intros Hw Hv Hi. pose proof (cb_trees _ _ Hw) as Ht.
  destruct i; cbn [handle valid_input] in *; try discriminate Hi; try apply nofuel_skip.
  - destruct Hv. by eapply create_port_finishes.
  - by eapply delete_port_finishes.
  - eapply nofuel_ends_at; [exact Hw|]. intros. by apply ends_set_bridge_address.
  - by eapply set_bridge_enable_finishes.
  - eapply nofuel_ends_at; [exact Hw|]. intros. by apply ends_set_port_enable.
  - by eapply one_second_finishes.
  - eapply nofuel_ends_at; [exact Hw|]. intros. by apply ends_all_fids_flushed.
  - eapply nofuel_ends_at; [exact Hw|]. intros. destruct Hv. by apply ends_rx_bpdu.
  - by eapply set_cist_bridge_config_finishes.
  - eapply nofuel_ends_at; [exact Hw|]. intros. by apply ends_set_msti_bridge_config.
  - eapply nofuel_ends_at; [exact Hw|]. intros. by apply ends_set_cist_port_config.
  - eapply nofuel_ends_at; [exact Hw|]. intros. by apply ends_set_msti_port_config.
  - eapply nofuel_ends_at; [exact Hw|]. intros. by apply ends_port_mcheck.
  - by eapply set_vid2fid_finishes.
  - by eapply set_all_vids2fids_finishes.
  - by eapply set_fid2mstid_finishes.
  - by eapply set_all_fids2mstids_finishes.
  - by eapply delete_msti_finishes.
  - by eapply set_mst_config_id_finishes.
Qed.

(** C8: without MSTIs the protocol entity never hangs: in every bridge that any events
    lead to and that has the CIST only, every event other than the creation of an MSTI
    returns, whatever flags, timers and BPDUs the machines find, if only the clock goes
    forward.  (With an MSTI it may hang: [Master.master_port_oscillates].) *)
Theorem events_return (stack : list Z) (i : input) (w : world) (clock : list timespec) (allocs : list bool) :
  length stack = 64%nat → reachable stack w → br_trees (w_br w) = [0] →
  valid_input w i → creates_msti i = false → goes_forward 2 clock →
  ∃ w', handle stack i (w <| w_clock := clock |> <| w_calloc := allocs |>) = Done tt w'.
Proof.
  intros Hs Hr Ht Hv Hi Hclock. set (w1 := w <| w_clock := clock |> <| w_calloc := allocs |>).
  pose proof (reachable_wf_world stack w Hs Hr) as Hwf.
  pose proof (wf_world_environment clock allocs w Hwf) as Hwf1.
  assert (Hv1 : valid_input w1 i) by by destruct i.
  assert (Hw1 : cist_bridge (goes_forward 2) w1).
  { split; [apply Hwf1|done|]. split; [|exact (reachable_port_ok stack w Hr)].
    destruct (reachable_cist_condition stack w Hr) as (? & ? & ? & ? & _). by do 4 (split; [done|]). }
  pose proof (handle_finishes stack 0 i w1 Hw1 Hv1 Hi) as Hn.
  pose proof (handle_keeps stack i w1 Hs Hwf1 Hv1) as Hk.
  unfold nofuel, keeps, wp in *. destruct (handle stack i w1) as [[] w'| |]; [by exists w'|done..].
Qed.

(** C11: In a bridge without MSTIs that events lead to, running the state machines returns
    if the clock goes forward; and if the bridge is enabled it ends in a stable bridge, in
    which no machine has anything left to do, unless a clock reading taken during the run
    lies more than one second after the first one. *)
Theorem br_state_machines_run_stable (stack : list Z) (w : world) (clock : list timespec) (allocs : list bool) :
  length stack = 64%nat → reachable stack w → br_trees (w_br w) = [0] → goes_forward 1 clock →
  ∃ w', br_state_machines_run (w <| w_clock := clock |> <| w_calloc := allocs |>) = Done tt w' ∧
    (bridgeEnabled (w_br w) = true →
     stable w' ∨
     ∃ tv0 pre tv, clock = tv0 :: pre ++ tv :: w_clock w' ∧
       past_deadline tv (fst tv0 + 1, snd tv0) = true).
Proof.
  intros Hs Hr Ht Hclock. set (w1 := w <| w_clock := clock |> <| w_calloc := allocs |>).
  pose proof (reachable_wf_world stack w Hs Hr) as Hwf.
  pose proof (wf_world_environment clock allocs w Hwf) as Hwf1.
  assert (Hw1 : cist_bridge (goes_forward 1) w1).
  { split; [apply Hwf1|done|]. split; [|exact (reachable_port_ok stack w Hr)].
    destruct (reachable_cist_condition stack w Hr) as (? & ? & ? & ? & _). by do 4 (split; [done|]). }
  assert (Hn : nofuel br_state_machines_run (λ _ _, True) w1).
  { eapply nofuel_mono; [eapply nofuel_ends; [exact Hw1|intros; by apply ends_run]|done]. }
  pose proof (keeps_run w1 Hwf1) as Hk.
  unfold nofuel, keeps, wp in *. destruct (br_state_machines_run w1) as [[] w'| |] eqn:Hrun; [|done..].
  exists w'. split; [done|]. intros He. exact (run_result w1 w' He Hrun).
Qed.

Lemma clock_goes_forward : goes_forward 2 [(0, 0); (2, 0); (4, 0); (6, 0)].
Proof.
  exists [], (2, 0), [(4, 0); (6, 0)]. split; [done|]. split; [done|].
  intros s [x Hx] Hs. destruct x as [|a [|b x]]; cbn in Hx.
  - subst s. by exists [], (4, 0), [(6, 0)].
  - injection Hx as _ <-. by exists [], (6, 0), [].
  - apply suffix_length in Hs. injection Hx as _ _ Hx. apply (f_equal length) in Hx.
    rewrite length_app in Hx. cbn in *. lia.
Qed.

(** The machines of the sample bridge, once more. *)
Lemma br_state_machines_run_stable_witness :
  ∃ w, reachable sample_stack w ∧ bridgeEnabled (w_br w) = true ∧ ∃ w',
    br_state_machines_run (w <| w_clock := [(0, 0); (2, 0); (4, 0); (6, 0)] |> <| w_calloc := [] |>) = Done tt w' ∧
    (stable w' ∨
     ∃ tv0 pre tv, [(0, 0); (2, 0); (4, 0); (6, 0)] = tv0 :: pre ++ tv :: w_clock w' ∧
       past_deadline tv (fst tv0 + 1, snd tv0) = true).
Proof.
  destruct sample_running_reachable as [d Hr]. exists (sample_running d). split; [exact Hr|].
  assert (He : bridgeEnabled (w_br (sample_running d)) = true) by (vm_compute; reflexivity).
  assert (Ht : br_trees (w_br (sample_running d)) = [0]) by (vm_compute; reflexivity).
  split; [exact He|].
  destruct (br_state_machines_run_stable sample_stack (sample_running d) [(0, 0); (2, 0); (4, 0); (6, 0)] []
    eq_refl Hr Ht (goes_forward_S _ _ clock_goes_forward)) as (w' & Hrun & Hst).
  exists w'. split; [exact Hrun|exact (Hst He)].
Defined.

(** On the bridge of Sample a port comes up. *)
Lemma events_return_witness :
  ∃ w, reachable sample_stack w ∧ ∃ w',
    handle sample_stack (SetPortEnable 1%nat true 1000 1)
      (w <| w_clock := [(0, 0); (2, 0); (4, 0); (6, 0)] |> <| w_calloc := [] |>) = Done tt w'.
Proof.
  destruct sample_running_reachable as [d Hr]. exists (sample_running d). split; [exact Hr|].
  assert (Hp : br_ports (w_br (sample_running d)) = [1%nat]) by (vm_compute; reflexivity).
  assert (Ht : br_trees (w_br (sample_running d)) = [0]) by (vm_compute; reflexivity).
  apply (events_return sample_stack (SetPortEnable 1%nat true 1000 1) _ _ _ eq_refl Hr Ht).
  - cbn [valid_input]. rewrite Hp. by left.
  - reflexivity.
  - exact clock_goes_forward.
Defined.
