(* ===== verification/Lists.v ===== *)
(** * Intrusive lists (src/list.h)

    The rest of the library sees a list of the C program as the sequence of its
    entries.  This file models the lists as src/list.h builds them, nodes with two
    pointers in a memory, one definition per C function, and proves that sequences are
    a faithful abstraction: [list_ops_refine].  An entry is identified with its
    [list_head] member, so [list_entry] is the identity; [hlist], which the program
    does not use, is left out. *)
From S2P Require Import Prelude.

(** ** Nodes and the memory *)

(** [struct list_head], and a memory that holds some; a pointer is its address. *)
Record list_head := mk_list_head { next : Z; prev : Z }.

#[export] Instance eta_list_head : Eta list_head :=
  λ n, mk_list_head (next n) (prev n).
#[export] Instance set_next : Setter next. Proof. build_setter. Defined.
#[export] Instance set_prev : Setter prev. Proof. build_setter. Defined.

Abbreviation heap := (gmap Z list_head).

Definition LIST_POISON1 : Z := 0x00100100.
Definition LIST_POISON2 : Z := 0x00200200.

(** [p->next], [p->prev], [p->next = v] and [p->prev = v]; [None] is the fault of a
    pointer to no node. *)
Definition get_next (h : heap) (p : Z) : option Z := next <$> h !! p.
Definition get_prev (h : heap) (p : Z) : option Z := prev <$> h !! p.
Definition put_next (p v : Z) (h : heap) : option heap :=
  n ← h !! p; Some (<[p := n <| next := v |>]> h).
Definition put_prev (p v : Z) (h : heap) : option heap :=
  n ← h !! p; Some (<[p := n <| prev := v |>]> h).

(** ** The functions of list.h *)

Definition INIT_LIST_HEAD (ptr : Z) (h : heap) : option heap :=
  h ← put_next ptr ptr h;
  put_prev ptr ptr h.

Definition __list_add (new prv nxt : Z) (h : heap) : option heap :=
  h ← put_prev nxt new h;
  h ← put_next new nxt h;
  h ← put_prev new prv h;
  put_next prv new h.

Definition list_add (new head : Z) (h : heap) : option heap :=
  n ← get_next h head;
  __list_add new head n h.

Definition list_add_tail (new head : Z) (h : heap) : option heap :=
  p ← get_prev h head;
  __list_add new p head h.

Definition __list_del (prv nxt : Z) (h : heap) : option heap :=
  h ← put_prev nxt prv h;
  put_next prv nxt h.

Definition list_del (entry : Z) (h : heap) : option heap :=
  p ← get_prev h entry;
  n ← get_next h entry;
  h ← __list_del p n h;
  h ← put_next entry LIST_POISON1 h;
  put_prev entry LIST_POISON2 h.

Definition list_del_init (entry : Z) (h : heap) : option heap :=
  p ← get_prev h entry;
  n ← get_next h entry;
  h ← __list_del p n h;
  INIT_LIST_HEAD entry h.

Definition list_move (list head : Z) (h : heap) : option heap :=
  p ← get_prev h list;
  n ← get_next h list;
  h ← __list_del p n h;
  list_add list head h.

Definition list_move_tail (list head : Z) (h : heap) : option heap :=
  p ← get_prev h list;
  n ← get_next h list;
  h ← __list_del p n h;
  list_add_tail list head h.

Definition list_empty (head : Z) (h : heap) : option bool :=
  n ← get_next h head;
  Some (n =? head).

Definition __list_splice (list head : Z) (h : heap) : option heap :=
  first ← get_next h list;
  last ← get_prev h list;
  at_ ← get_next h head;
  h ← put_prev first head h;
  h ← put_next head first h;
  h ← put_next last at_ h;
  put_prev at_ last h.

Definition list_splice (list head : Z) (h : heap) : option heap :=
  e ← list_empty list h;
  if (e : bool) then Some h else __list_splice list head h.

Definition list_splice_init (list head : Z) (h : heap) : option heap :=
  e ← list_empty list h;
  if (e : bool) then Some h
  else
    h ← __list_splice list head h;
    INIT_LIST_HEAD list h.

(** ** The iterators

    The body of a loop is a computation [body pos] on the memory and a state of the
    caller's; [step] is how the loop leaves [pos], [get_next] or [get_prev].  The fuel
    bounds the number of iterations; a loop that runs out of it has no result. *)
Section loops.
Context {S : Type} (body : Z → heap → S → option (heap * S)).

Fixpoint walk (fuel : nat) (step : heap → Z → option Z) (pos head : Z)
    (h : heap) (s : S) : option (heap * S) :=
  match fuel with
  | O => None
  | Datatypes.S fuel =>
      if pos =? head then Some (h, s)
      else
        '(h, s) ← body pos h s;
        pos ← step h pos;
        walk fuel step pos head h s
  end.

Definition list_for_each_entry (fuel : nat) (head : Z) (h : heap) (s : S) :=
  pos ← get_next h head;
  walk fuel get_next pos head h s.

Definition list_for_each_entry_reverse (fuel : nat) (head : Z) (h : heap) (s : S) :=
  pos ← get_prev h head;
  walk fuel get_prev pos head h s.

Definition list_for_each_entry_continue (fuel : nat) (pos head : Z) (h : heap) (s : S) :=
  pos ← get_next h pos;
  walk fuel get_next pos head h s.

(** The safe variant reads the successor [n] before the body runs. *)
Fixpoint walk_safe (fuel : nat) (pos n head : Z) (h : heap) (s : S) :
    option (heap * S) :=
  match fuel with
  | O => None
  | Datatypes.S fuel =>
      if pos =? head then Some (h, s)
      else
        '(h, s) ← body pos h s;
        n' ← get_next h n;
        walk_safe fuel n n' head h s
  end.

Definition list_for_each_entry_safe (fuel : nat) (head : Z) (h : heap) (s : S) :=
  pos ← get_next h head;
  n ← get_next h pos;
  walk_safe fuel pos n head h s.
End loops.

(** ** Rings

    [seg h a xs b]: from [a] the [next] pointers lead through [xs] to [b], and the
    [prev] pointers lead back.  A list is a ring: its head, its entries, its head. *)
Definition link (h : heap) (a b : Z) : Prop :=
  get_next h a = Some b ∧ get_prev h b = Some a.

Fixpoint seg (h : heap) (a : Z) (xs : list Z) (b : Z) : Prop :=
  match xs with
  | [] => link h a b
  | x :: xs => link h a x ∧ seg h x xs b
  end.

Definition ring (h : heap) (c : list Z) : Prop :=
  match c with
  | [] => False
  | a :: xs => seg h a xs a
  end.

(** [h'] is [h] but for the nodes of [c]. *)
Definition only (c : list Z) (h h' : heap) : Prop :=
  dom h' = dom h ∧ ∀ q, q ∉ c → h' !! q = h !! q.

Lemma only_trans c1 c2 c h1 h2 h3 :
  only c1 h1 h2 → only c2 h2 h3 → c1 ⊆ c → c2 ⊆ c → only c h1 h3.
Proof.
  intros [D1 E1] [D2 E2] S1 S2. split; [congruence|]. clear D1 D2. intros q Hq.
  rewrite E2, E1; [done|set_solver..].
Qed.

Lemma only_weaken c1 c h h' : only c1 h h' → c1 ⊆ c → only c h h'.
Proof. intros [D E] S. split; [done|]. clear D. intros q Hq. apply E. set_solver. Qed.

Lemma get_next_dom h p v : get_next h p = Some v → p ∈ dom h.
Proof. intros H. apply elem_of_dom, (fmap_is_Some next). by exists v. Qed.
Lemma get_prev_dom h p v : get_prev h p = Some v → p ∈ dom h.
Proof. intros H. apply elem_of_dom, (fmap_is_Some prev). by exists v. Qed.

(** What the two stores do to every node. *)
Lemma put_next_works p v h :
  p ∈ dom h →
  ∃ h', put_next p v h = Some h' ∧ only [p] h h' ∧
    (∀ q, get_next h' q = if decide (q = p) then Some v else get_next h q) ∧
    (∀ q, get_prev h' q = get_prev h q).
Proof.
  intros [n Hn]%elem_of_dom. unfold put_next, only, get_next, get_prev. rewrite Hn. simpl.
  eexists; split; [done|]. split_and!; [|set_unfold|..].
  - rewrite dom_insert_L. apply elem_of_dom_2 in Hn. set_solver.
  - intros q Hq. rewrite lookup_insert_ne; [done|naive_solver].
  - intros q. destruct (decide (q = p)) as [->|]; [by rewrite lookup_insert_eq|].
    by rewrite lookup_insert_ne.
  - intros q. destruct (decide (q = p)) as [->|]; [by rewrite lookup_insert_eq, Hn|].
    by rewrite lookup_insert_ne.
Qed.

Lemma put_prev_works p v h :
  p ∈ dom h →
  ∃ h', put_prev p v h = Some h' ∧ only [p] h h' ∧
    (∀ q, get_prev h' q = if decide (q = p) then Some v else get_prev h q) ∧
    (∀ q, get_next h' q = get_next h q).
Proof.
  intros [n Hn]%elem_of_dom. unfold put_prev, only, get_next, get_prev. rewrite Hn. simpl.
  eexists; split; [done|]. split_and!; [|set_unfold|..].
  - rewrite dom_insert_L. apply elem_of_dom_2 in Hn. set_solver.
  - intros q Hq. rewrite lookup_insert_ne; [done|naive_solver].
  - intros q. destruct (decide (q = p)) as [->|]; [by rewrite lookup_insert_eq|].
    by rewrite lookup_insert_ne.
  - intros q. destruct (decide (q = p)) as [->|]; [by rewrite lookup_insert_eq, Hn|].
    by rewrite lookup_insert_ne.
Qed.

Lemma only_dom c h h' p : only c h h' → p ∈ dom h → p ∈ dom h'.
Proof. by intros [-> _]. Qed.

(** Run the next store of a computation, keeping its two read equations. *)
Ltac store :=
  match goal with
  | |- context [put_next ?p ?v ?h] =>
      let h' := fresh "h" in let E := fresh "E" in
      let O := fresh "O" in let N := fresh "N" in let P := fresh "P" in
      destruct (put_next_works p v h) as (h' & E & O & N & P);
      [eauto 8 using only_dom|rewrite E; simpl; clear E]
  | |- context [put_prev ?p ?v ?h] =>
      let h' := fresh "h" in let E := fresh "E" in
      let O := fresh "O" in let N := fresh "N" in let P := fresh "P" in
      destruct (put_prev_works p v h) as (h' & E & O & P & N);
      [eauto 8 using only_dom|rewrite E; simpl; clear E]
  end.

(** Membership in the pieces of a list, forgetting what is known of the memory. *)
Ltac members :=
  repeat match goal with
  | H : only _ _ _ |- _ => clear H
  | H : ∀ q, get_next _ q = _ |- _ => clear H
  | H : ∀ q, get_prev _ q = _ |- _ => clear H
  | H : _ ∈ dom _ |- _ => clear H
  | H : seg _ _ _ _ |- _ => clear H
  | H : get_next _ _ = _ |- _ => clear H
  | H : get_prev _ _ = _ |- _ => clear H
  end; set_solver.

(** Read through the stores made so far. *)
Ltac reads :=
  repeat match goal with
  | H : ∀ q, get_next ?h q = _ |- context [get_next ?h _] => rewrite H
  | H : ∀ q, get_prev ?h q = _ |- context [get_prev ?h _] => rewrite H
  end; repeat case_decide; subst; first [done | congruence | exfalso; members | idtac].

Lemma seg_app h a xs x ys b :
  seg h a (xs ++ x :: ys) b ↔ seg h a xs x ∧ seg h x ys b.
Proof. revert a; induction xs as [|y xs IH]; intros a; simpl; [done|]. rewrite IH. tauto. Qed.

Lemma ring_rotate h c1 c2 : ring h (c1 ++ c2) → ring h (c2 ++ c1).
Proof.
  destruct c1 as [|a xs], c2 as [|b ys]; rewrite ?app_nil_r; [done..|]; simpl.
  rewrite !seg_app. tauto.
Qed.

Lemma seg_same h h' a xs b :
  seg h a xs b →
  (∀ q, q ∈ a :: xs → get_next h' q = get_next h q) →
  (∀ q, q ∈ b :: xs → get_prev h' q = get_prev h q) →
  seg h' a xs b.
Proof.
  revert a; induction xs as [|x xs IH]; intros a; simpl; unfold link.
  - intros [N P] HN HP. split; [rewrite HN|rewrite HP]; set_solver.
  - intros [[N P] T] HN HP. split.
    + split; [rewrite HN|rewrite HP]; set_solver.
    + apply IH; [done|..]; intros q Hq; [apply HN|apply HP]; set_solver.
Qed.

Lemma ring_same h h' c :
  ring h c → (∀ q, q ∈ c → h' !! q = h !! q) → ring h' c.
Proof.
  destruct c as [|a xs]; [done|]. simpl. intros R E.
  apply (seg_same h); [done|..]; intros q Hq; unfold get_next, get_prev; rewrite E; set_solver.
Qed.

Lemma seg_dom h a xs b q : seg h a xs b → q ∈ a :: b :: xs → q ∈ dom h.
Proof.
  revert a; induction xs as [|x xs IH]; intros a; simpl; unfold link.
  - intros [?%get_next_dom ?%get_prev_dom]. set_solver.
  - intros [[?%get_next_dom ?%get_prev_dom] T] Hq. specialize (IH x T). set_solver.
Qed.

Lemma ring_dom h c q : ring h c → q ∈ c → q ∈ dom h.
Proof. destruct c as [|a xs]; [done|]. intros R Hq. apply (seg_dom _ _ _ _ _ R). set_solver. Qed.

(** ** What the functions do to rings *)

(** Membership in the lists a ring was cut into, and the inequalities of a [NoDup]. *)
Ltac nodup := repeat (rewrite ?NoDup_app, ?NoDup_cons, ?not_elem_of_app, ?not_elem_of_cons in *; destruct_and?).

Lemma list_add_ring h new a c :
  ring h (a :: c) → new ∈ dom h → NoDup (new :: a :: c) →
  ∃ h', list_add new a h = Some h' ∧ ring h' (a :: new :: c) ∧ only (new :: a :: c) h h'.
Proof.
  intros R Hnew Hd. pose proof (λ q, ring_dom _ _ q R) as D.
  assert (∃ n, get_next h a = Some n ∧ n ∈ a :: c ∧ n ∈ dom h) as (n & Hn & Hin & Hdn).
  { destruct c as [|y c]; [exists a|exists y]; (split; [by apply R|]); set_solver. }
  assert (a ∈ dom h) as Ha by (apply D; set_solver). clear D.
  unfold list_add, __list_add. rewrite Hn. simpl. do 4 store.
  eexists; split; [done|]. split.
  - nodup. destruct c as [|y c]; simpl in *.
    + destruct R as [R1 R2]. assert (n = a) as -> by set_solver. repeat split; reads.
    + destruct R as [[R1 R2] R3]. assert (n = y) as -> by congruence. nodup.
      split; [|split]; [split; reads..|].
      apply (seg_same h); [done|..]; intros q Hq; reads.
  - split; [destruct O, O0, O1, O2; congruence|]. intros q Hq. nodup.
    destruct O as [_ O], O0 as [_ O0], O1 as [_ O1], O2 as [_ O2].
    rewrite O2, O1, O0, O; set_solver.
Qed.

(** A last element instead of a first one. *)
Lemma last_cases {A} (l : list A) : l = [] ∨ ∃ l' x, l = l' ++ [x].
Proof. destruct l using rev_ind; [by left|right; eauto]. Qed.

#[export] Instance only_Permutation : Proper ((≡ₚ) ==> eq ==> eq ==> iff) only.
Proof.
  intros c c' P h ? <- h' ? <-. unfold only. by setoid_rewrite P.
Qed.

(** The list may be cut anywhere: [list_add] puts the new node after [a], and
    [list_add_tail] before it. *)
Lemma list_add_at h new l1 a l2 :
  ring h (l1 ++ a :: l2) → new ∈ dom h → NoDup (new :: l1 ++ a :: l2) →
  ∃ h', list_add new a h = Some h' ∧ ring h' (l1 ++ a :: new :: l2) ∧
    only (new :: l1 ++ a :: l2) h h'.
Proof.
  intros R Hnew Hd. apply ring_rotate in R.
  assert (new :: l1 ++ a :: l2 ≡ₚ new :: a :: l2 ++ l1) as P by solve_Permutation.
  rewrite P in Hd. destruct (list_add_ring _ _ _ _ R Hnew Hd) as (h' & E & R' & O).
  exists h'. split; [done|]. split; [by apply (ring_rotate _ (a :: new :: l2))|].
  by rewrite P.
Qed.

Lemma list_add_tail_at h new l1 a l2 :
  ring h (l1 ++ a :: l2) → new ∈ dom h → NoDup (new :: l1 ++ a :: l2) →
  ∃ h', list_add_tail new a h = Some h' ∧ ring h' (l1 ++ new :: a :: l2) ∧
    only (new :: l1 ++ a :: l2) h h'.
Proof.
  intros R Hnew Hd. apply ring_rotate in R. simpl in R.
  assert (∃ p, get_prev h a = Some p ∧ get_next h p = Some a ∧
    ∃ l3, l3 ++ [p] = a :: l2 ++ l1) as (p & Hp & Hn & l3 & E3).
  { destruct (last_cases (l2 ++ l1)) as [E|(l' & p & E)]; rewrite E in *.
    - exists a. split; [apply R|]. split; [apply R|]. by exists [].
    - exists p. apply seg_app in R as [_ R]. split; [apply R|]. split; [apply R|].
      by exists (a :: l'). }
  assert (ring h (p :: l3)) as Rp by (apply (ring_rotate h l3 [p]); by rewrite E3).
  assert (new :: l1 ++ a :: l2 ≡ₚ new :: p :: l3) as P.
  { rewrite (Permutation_cons_append l3), E3. solve_Permutation. }
  rewrite P in Hd. destruct (list_add_ring _ _ _ _ Rp Hnew Hd) as (h' & E & R' & O).
  unfold list_add in E. rewrite Hn in E. simpl in E.
  exists h'. unfold list_add_tail. rewrite Hp. simpl. split; [done|]. split.
  - apply (ring_rotate h' [p; new] l3) in R'.
    replace (l3 ++ [p; new]) with ((a :: l2) ++ (l1 ++ [new])) in R'.
    + apply (ring_rotate h' (a :: l2)) in R'. by rewrite <- app_assoc in R'.
    + by rewrite (cons_middle p), (app_assoc l3), E3, (app_assoc (a :: l2)).
  - by rewrite P.
Qed.

(** Unlinking an entry closes the ring behind it; the entry itself is not touched. *)
Lemma unlink_ring h x c :
  ring h (x :: c) → c ≠ [] → NoDup (x :: c) →
  ∃ p n h', get_prev h x = Some p ∧ get_next h x = Some n ∧ __list_del p n h = Some h' ∧
    ring h' c ∧ only c h h'.
Proof.
  intros R Hc Hd. pose proof (λ q, ring_dom _ _ q R) as D. simpl in R.
  destruct (last_cases c) as [->|(c0 & p & ->)]; [done|]. apply seg_app in R as [R [Rp1 Rp2]].
  exists p. destruct c0 as [|y c0].
  - destruct R as [R1 R2]. exists p. assert (p ∈ dom h) by (apply D; set_solver). clear D.
    unfold __list_del. do 2 store. eexists; split_and!; [done..| |].
    + split; reads.
    + by apply (only_trans [p] [p] [p] h h0).
  - destruct R as [[R1 R2] R]. exists y.
    assert (y ∈ dom h ∧ p ∈ dom h) as [? ?] by (split; apply D; set_solver). clear D.
    unfold __list_del. do 2 store. eexists; split_and!; [done..| |].
    + simpl. rewrite seg_app. nodup.
      split; [|split; reads].
      apply (seg_same h); [done|..]; intros q Hq; reads; members.
    + apply (only_trans [y] [p] _ h h0); [done..| |]; members.
Qed.

Lemma unlink_at h l1 x l2 :
  ring h (l1 ++ x :: l2) → l1 ++ l2 ≠ [] → NoDup (l1 ++ x :: l2) →
  ∃ p n h', get_prev h x = Some p ∧ get_next h x = Some n ∧ __list_del p n h = Some h' ∧
    ring h' (l1 ++ l2) ∧ only (l1 ++ l2) h h'.
Proof.
  intros R Hc Hd. apply ring_rotate in R. rewrite <- Permutation_middle in Hd.
  rewrite (Permutation_app_comm l1) in Hd.
  destruct (unlink_ring h x (l2 ++ l1)) as (p & n & h' & ? & ? & ? & ? & O); [done| |done|].
  { intros [-> ->]%app_nil. by apply Hc. }
  exists p, n, h'. split_and!; [done..|by apply ring_rotate|].
  by rewrite (Permutation_app_comm l1).
Qed.

Lemma INIT_LIST_HEAD_ring h p :
  p ∈ dom h → ∃ h', INIT_LIST_HEAD p h = Some h' ∧ ring h' [p] ∧ only [p] h h'.
Proof.
  intros Hp. unfold INIT_LIST_HEAD. do 2 store. eexists; split_and!; [done| |].
  - split; reads.
  - by apply (only_trans [p] [p] [p] h h0).
Qed.

(** [list_splice list head]: the entries of [list] move to the front of [head]'s. *)
Lemma list_splice_ring h l xs a ys :
  ring h (l :: xs) → ring h (a :: ys) → NoDup (l :: xs ++ a :: ys) →
  ∃ h', list_splice l a h = Some h' ∧ ring h' (a :: xs ++ ys) ∧ only (xs ++ a :: ys) h h'.
Proof.
  intros Rl Ra Hd. pose proof (λ q, ring_dom _ _ q Rl) as Dl.
  pose proof (λ q, ring_dom _ _ q Ra) as Da.
  destruct xs as [|x xs].
  { exists h. unfold list_splice, list_empty. destruct Rl as [-> _]. simpl.
    by rewrite Z.eqb_refl. }
  assert (x ≠ l) as Hxl by (nodup; set_solver).
  unfold list_splice, list_empty, __list_splice. destruct Rl as [[Rl1 Rl2] Rl].
  rewrite Rl1. simpl. rewrite (proj2 (Z.eqb_neq x l)) by done.
  assert (∃ z m, x :: xs = m ++ [z] ∧ get_prev h l = Some z ∧ z ∈ x :: xs ∧
    seg h l m z) as (z & m & Ez & Hz & Hzx & Hm).
  { destruct (last_cases (x :: xs)) as [|(m & z & E)]; [done|].
    exists z, m. assert (seg h l (x :: xs) l) as Hs by done. rewrite E in Hs |- *.
    apply seg_app in Hs as [? [??]]. split_and!; [done..|set_solver|done]. }
  assert (∃ t, get_next h a = Some t ∧ t ∈ a :: ys) as (t & Ht & Hta).
  { destruct ys as [|y ys]; [exists a|exists y]; (split; [apply Ra|set_solver]). }
  rewrite Hz, Ht. simpl.
  assert (x ∈ dom h ∧ z ∈ dom h ∧ a ∈ dom h ∧ t ∈ dom h) as (? & ? & ? & ?).
  { split_and!; [apply Dl|apply Dl|apply Da..]; set_solver. }
  clear Dl Da.
  apply NoDup_cons in Hd as [Hl [Hdx [Hxa Hda]]%NoDup_app].
  assert (NoDup (m ++ [z])) as (_ & Hdm & _)%NoDup_app by by rewrite <- Ez.
  assert (a ∉ x :: xs ∧ t ∉ x :: xs ∧ x ∉ xs ∧ z ∉ m ∧ x ∉ a :: ys ∧ z ∉ a :: ys)
    as (? & ? & ? & ? & ? & ?).
  { apply NoDup_cons in Hdx. set_solver. }
  apply NoDup_cons in Hda as [Hay Hda]. clear Hl Hdx Hxa Hdm. do 4 store. eexists; split; [done|].
  change ((x :: xs) ++ ys) with (x :: xs ++ ys). split.
  - change (seg h3 a (x :: xs ++ ys) a). rewrite app_comm_cons, Ez, <- app_assoc. simpl.
    apply seg_app. split.
    + destruct m as [|x' m]; simplify_eq/=; [split; reads|].
      split; [split; reads; members|].
      apply (seg_same h); [apply Hm|..]; intros q Hq; reads; members.
    + destruct ys as [|y ys].
      * destruct Ra as [Ra1 Ra2]. simplify_eq. split; reads.
      * destruct Ra as [[Ra1 Ra2] Ra]. simplify_eq.
        split; [split; reads; members|].
        apply NoDup_cons in Hda as [? _].
        apply (seg_same h); [apply Ra|..]; intros q Hq; reads; members.
  - split; [destruct O, O0, O1, O2; congruence|]. intros q Hq.
    destruct O as [_ O], O0 as [_ O0], O1 as [_ O1], O2 as [_ O2].
    rewrite O2, O1, O0, O; set_solver.
Qed.

(** ** Lists as sequences

    The abstract state maps each list head to the sequence of its entries; a node is
    free when it is in no list. *)
Abbreviation lists := (gmap Z (list Z)).

Definition unused (L : lists) (p : Z) : Prop :=
  ∀ hd xs, L !! hd = Some xs → p ∉ hd :: xs.

#[export] Instance unused_dec L p : Decision (unused L p) :=
  decide (map_Forall (λ hd xs, p ∉ hd :: xs) L).

Definition disjoint_lists (L : lists) : Prop :=
  ∀ i j xs ys, L !! i = Some xs → L !! j = Some ys → i ≠ j → (i :: xs) ## (j :: ys).

(** The memory [h], made of the nodes [N], holds the lists [L]. *)
Record represents (N : gset Z) (h : heap) (L : lists) : Prop := {
  rep_nodes : dom h = N;
  rep_ring hd xs : L !! hd = Some xs → ring h (hd :: xs);
  rep_NoDup hd xs : L !! hd = Some xs → NoDup (hd :: xs);
  rep_disjoint : disjoint_lists L
}.

(** The operations, as the program calls them, and what they do to sequences; [at_] in
    the middle of a list is how mstp.c keeps the trees of a bridge sorted. *)
Inductive list_op :=
  | Op_INIT_LIST_HEAD (ptr : Z)
  | Op_list_add (new at_ : Z)
  | Op_list_add_tail (new at_ : Z)
  | Op_list_del (entry : Z)
  | Op_list_del_init (entry : Z)
  | Op_list_move (list head : Z)
  | Op_list_move_tail (list head : Z)
  | Op_list_splice (list head : Z)
  | Op_list_splice_init (list head : Z).

Definition run_op (o : list_op) : heap → option heap :=
  match o with
  | Op_INIT_LIST_HEAD p => INIT_LIST_HEAD p
  | Op_list_add new a => list_add new a
  | Op_list_add_tail new a => list_add_tail new a
  | Op_list_del x => list_del x
  | Op_list_del_init x => list_del_init x
  | Op_list_move x a => list_move x a
  | Op_list_move_tail x a => list_move_tail x a
  | Op_list_splice l a => list_splice l a
  | Op_list_splice_init l a => list_splice_init l a
  end.

(** [new] goes after, or before, the node [at_] of the list. *)
Inductive inserted (new at_ : Z) : lists → lists → Prop :=
  | after_head L xs : L !! at_ = Some xs → inserted new at_ L (<[at_ := new :: xs]> L)
  | after_entry L hd xs : L !! hd = Some xs → at_ ∈ xs →
      inserted new at_ L (<[hd := insert_after at_ new xs]> L).

Inductive inserted_tail (new at_ : Z) : lists → lists → Prop :=
  | before_head L xs : L !! at_ = Some xs →
      inserted_tail new at_ L (<[at_ := xs ++ [new]]> L)
  | before_entry L hd l1 l2 : L !! hd = Some (l1 ++ at_ :: l2) →
      inserted_tail new at_ L (<[hd := l1 ++ new :: at_ :: l2]> L).

Inductive removed (x : Z) : lists → lists → Prop :=
  | removed_entry L hd xs : L !! hd = Some xs → x ∈ xs →
      removed x L (<[hd := Prelude.list_del x xs]> L).

Inductive list_step (N : gset Z) : lists → list_op → lists → Prop :=
  | Step_INIT L p : p ∈ N → unused L p →
      list_step N L (Op_INIT_LIST_HEAD p) (<[p := []]> L)
  | Step_add L L' new a : new ∈ N → unused L new → inserted new a L L' →
      list_step N L (Op_list_add new a) L'
  | Step_add_tail L L' new a : new ∈ N → unused L new → inserted_tail new a L L' →
      list_step N L (Op_list_add_tail new a) L'
  | Step_del L L' x : removed x L L' → list_step N L (Op_list_del x) L'
  | Step_del_init L L' x : removed x L L' →
      list_step N L (Op_list_del_init x) (<[x := []]> L')
  | Step_move L L' L'' x a : removed x L L' → inserted x a L' L'' →
      list_step N L (Op_list_move x a) L''
  | Step_move_tail L L' L'' x a : removed x L L' → inserted_tail x a L' L'' →
      list_step N L (Op_list_move_tail x a) L''
  | Step_splice L l xs a ys : L !! l = Some xs → L !! a = Some ys → l ≠ a →
      list_step N L (Op_list_splice l a) (<[a := xs ++ ys]> (delete l L))
  | Step_splice_init L l xs a ys : L !! l = Some xs → L !! a = Some ys → l ≠ a →
      list_step N L (Op_list_splice_init l a) (<[l := []]> (<[a := xs ++ ys]> (delete l L))).

(** A history of operations, in the memory and on sequences. *)
Fixpoint run_ops (os : list list_op) (h : heap) : option heap :=
  match os with
  | [] => Some h
  | o :: os => h ← run_op o h; run_ops os h
  end.

Inductive list_steps (N : gset Z) : lists → list list_op → lists → Prop :=
  | Steps_nil L : list_steps N L [] L
  | Steps_cons L L' L'' o os :
      list_step N L o L' → list_steps N L' os L'' → list_steps N L (o :: os) L''.

(** *** Changing one list of the state *)

Lemma rep_unused_other N h L hd xs p i ys :
  represents N h L → L !! hd = Some xs → p ∈ hd :: xs → i ≠ hd → L !! i = Some ys →
  p ∉ i :: ys.
Proof. intros R Hx Hp Hi Hy Hin. by apply (rep_disjoint _ _ _ R i hd ys xs Hy Hx Hi p). Qed.

(** A list is rebuilt from its own nodes and free ones. *)
Lemma rep_update N h h' L hd xs xs' c :
  represents N h L → L !! hd = Some xs →
  only c h h' → ring h' (hd :: xs') → NoDup (hd :: xs') →
  (∀ q, q ∈ c ∨ q ∈ hd :: xs' → q ∈ hd :: xs ∨ unused L q) →
  represents N h' (<[hd := xs']> L).
Proof.
  intros R Hx [D O] R' Hd Hc.
  assert (∀ i ys q, L !! i = Some ys → i ≠ hd → q ∈ i :: ys →
    q ∉ c ∧ q ∉ hd :: xs') as Hother.
  { intros i ys q Hi Hne Hq.
    assert (¬ (q ∈ c ∨ q ∈ hd :: xs')) as Hno; [|tauto].
    intros [Hq2|Hq2]%Hc; [|by apply (Hq2 i ys)].
    by apply (rep_unused_other _ _ _ _ _ _ _ _ R Hx Hq2 Hne Hi). }
  split.
  - by rewrite D, (rep_nodes _ _ _ R).
  - intros i ys [[<- <-]|[Hne Hi]]%lookup_insert_Some; [done|].
    apply (ring_same h); [by apply (rep_ring _ _ _ R)|].
    intros q Hq. apply O. by apply (Hother i ys q).
  - intros i ys [[<- <-]|[Hne Hi]]%lookup_insert_Some; [done|].
    by apply (rep_NoDup _ _ _ R).
  - intros i j ys zs [[<- <-]|[Hne Hi]]%lookup_insert_Some
      [[<- <-]|[Hne' Hj]]%lookup_insert_Some Hij q Hq Hq'; [done|..].
    + by apply (Hother j zs q).
    + by apply (Hother i ys q).
    + by apply (rep_disjoint _ _ _ R i j ys zs Hi Hj Hij q).
Qed.

(** A free node becomes an empty list. *)
Lemma rep_new N h h' L p :
  represents N h L → unused L p → ring h' [p] → only [p] h h' →
  represents N h' (<[p := []]> L).
Proof.
  intros R Hp R' [D O].
  assert (∀ i ys q, L !! i = Some ys → q ∈ i :: ys → q ≠ p) as Hother.
  { intros i ys q Hi Hq ->. by apply (Hp i ys). }
  split.
  - by rewrite D, (rep_nodes _ _ _ R).
  - intros i ys [[<- <-]|[Hne Hi]]%lookup_insert_Some; [done|].
    apply (ring_same h); [by apply (rep_ring _ _ _ R)|].
    intros q Hq. apply O. specialize (Hother i ys q Hi Hq). set_solver.
  - intros i ys [[<- <-]|[Hne Hi]]%lookup_insert_Some; [by apply NoDup_singleton|].
    by apply (rep_NoDup _ _ _ R).
  - intros i j ys zs [[<- <-]|[Hne Hi]]%lookup_insert_Some
      [[<- <-]|[Hne' Hj]]%lookup_insert_Some Hij q Hq Hq'; [done|..].
    + specialize (Hother j zs q Hj Hq'). set_solver.
    + specialize (Hother i ys q Hi Hq). set_solver.
    + by apply (rep_disjoint _ _ _ R i j ys zs Hi Hj Hij q).
Qed.

(** A list is given up. *)
Lemma rep_delete N h L hd :
  represents N h L → represents N h (delete hd L).
Proof.
  intros R. split; [by apply R|..].
  - intros i ys [_ Hi]%lookup_delete_Some. by apply (rep_ring _ _ _ R).
  - intros i ys [_ Hi]%lookup_delete_Some. by apply (rep_NoDup _ _ _ R).
  - intros i j ys zs [_ Hi]%lookup_delete_Some [_ Hj]%lookup_delete_Some.
    by apply (rep_disjoint _ _ _ R).
Qed.

Lemma rep_delete_unused N h L hd xs q :
  represents N h L → L !! hd = Some xs → q ∈ hd :: xs → unused (delete hd L) q.
Proof.
  intros R Hx Hq i ys [Hne Hi]%lookup_delete_Some.
  by apply (rep_unused_other _ _ _ _ _ _ _ _ R Hx Hq).
Qed.

(** *** One operation *)

Lemma rep_dom N h L hd xs q :
  represents N h L → L !! hd = Some xs → q ∈ hd :: xs → q ∈ dom h.
Proof. intros R Hx. apply ring_dom, (rep_ring _ _ _ R _ _ Hx). Qed.

(** A free node joins the list at the cut [l1], [l2]. *)
Lemma rep_grow N h h' L hd xs xs' new :
  represents N h L → L !! hd = Some xs → unused L new →
  ring h' (hd :: xs') → only (new :: hd :: xs) h h' → xs' ≡ₚ new :: xs →
  represents N h' (<[hd := xs']> L).
Proof.
  intros R Hx Hnew R' O P. eapply rep_update; [done..| |].
  - pose proof (rep_NoDup _ _ _ R _ _ Hx) as Hd. specialize (Hnew _ _ Hx).
    rewrite P. apply NoDup_cons in Hd as [??].
    rewrite !NoDup_cons. set_solver.
  - intros q Hq. rewrite P in Hq. destruct (decide (q = new)) as [->|]; [by right|left; set_solver].
Qed.

Lemma rep_NoDup_new N h L hd xs new :
  represents N h L → L !! hd = Some xs → unused L new → NoDup (new :: hd :: xs).
Proof. intros R Hx Hnew. constructor; [by apply Hnew|]. by apply (rep_NoDup _ _ _ R). Qed.

Lemma list_add_refines N h L L' new a :
  represents N h L → new ∈ N → unused L new → inserted new a L L' →
  ∃ h', list_add new a h = Some h' ∧ represents N h' L'.
Proof.
  intros R HN Hnew HI. rewrite <- (rep_nodes _ _ _ R) in HN.
  destruct HI as [L xs Hx|L hd xs Hx (l1 & l2 & ->)%list_elem_of_split];
    pose proof (rep_ring _ _ _ R _ _ Hx) as Hr; pose proof (rep_NoDup_new _ _ _ _ _ _ R Hx Hnew) as Hd.
  - destruct (list_add_at h new [] a xs Hr HN Hd) as (h' & -> & R' & O).
    exists h'. split; [done|]. by eapply rep_grow.
  - destruct (list_add_at h new (hd :: l1) a l2 Hr HN Hd) as (h' & -> & R' & O).
    exists h'. split; [done|]. pose proof (rep_NoDup _ _ _ R _ _ Hx) as [_ Hd']%NoDup_cons.
    rewrite insert_after_place by (apply NoDup_app in Hd'; set_solver).
    eapply rep_grow; [done..|]. solve_Permutation.
Qed.

Lemma list_add_tail_refines N h L L' new a :
  represents N h L → new ∈ N → unused L new → inserted_tail new a L L' →
  ∃ h', list_add_tail new a h = Some h' ∧ represents N h' L'.
Proof.
  intros R HN Hnew HI. rewrite <- (rep_nodes _ _ _ R) in HN.
  destruct HI as [L xs Hx|L hd l1 l2 Hx];
    pose proof (rep_ring _ _ _ R _ _ Hx) as Hr; pose proof (rep_NoDup_new _ _ _ _ _ _ R Hx Hnew) as Hd.
  - destruct (list_add_tail_at h new [] a xs Hr HN Hd) as (h' & -> & R' & O).
    exists h'. split; [done|]. eapply rep_grow; [done..| |done|solve_Permutation].
    by apply (ring_rotate h' [new]) in R'.
  - destruct (list_add_tail_at h new (hd :: l1) a l2 Hr HN Hd) as (h' & -> & R' & O).
    exists h'. split; [done|]. eapply rep_grow; [done..|]. solve_Permutation.
Qed.

(** Removal: after the unlinking the entry is free, whatever is stored in it. *)
Lemma unlink_refines N h L L' x :
  represents N h L → removed x L L' →
  ∃ p n h', get_prev h x = Some p ∧ get_next h x = Some n ∧ __list_del p n h = Some h' ∧
    represents N h' L' ∧ unused L' x ∧ x ∈ N.
Proof.
  intros R HI. destruct HI as [L hd xs Hx Hin].
  pose proof (rep_dom _ _ _ _ _ x R Hx ltac:(set_solver)) as HN.
  apply list_elem_of_split in Hin as (l1 & l2 & ->).
  pose proof (rep_ring _ _ _ R _ _ Hx) as Hr. pose proof (rep_NoDup _ _ _ R _ _ Hx) as Hd.
  destruct (unlink_at h (hd :: l1) x l2 Hr ltac:(done) Hd) as (p & n & h' & ? & ? & ? & R' & O).
  exists p, n, h'. apply NoDup_cons in Hd as [Hh Hd]. pose proof (list_del_place x l1 l2 Hd) as ->.
  assert (x ∉ hd :: l1 ++ l2).
  { apply NoDup_app in Hd as (_ & Hd1 & Hd2). apply NoDup_cons in Hd2. set_solver. }
  split_and!; [done..| | |by rewrite <- (rep_nodes _ _ _ R)].
  - eapply rep_update; [done..| |].
    + rewrite <- Permutation_middle in Hd. apply NoDup_cons in Hd as [_ Hd]. constructor; [set_solver|done].
    + intros q Hq. left. set_solver.
  - intros i ys [[<- <-]|[Hne Hi]]%lookup_insert_Some; [done|].
    apply (rep_unused_other _ _ _ _ _ x _ _ R Hx); [set_solver|done..].
Qed.

Lemma rep_outside N h h' L x :
  represents N h L → unused L x → only [x] h h' → represents N h' L.
Proof.
  intros R Hx [D O]. split; [by rewrite D, (rep_nodes _ _ _ R)| |by apply R..].
  intros hd xs Hl. apply (ring_same h); [by apply (rep_ring _ _ _ R)|].
  intros q Hq. apply O. specialize (Hx _ _ Hl). set_solver.
Qed.

(** Splicing: [list] is given up, its head is free. *)
Lemma rep_splice N h L l xs a ys :
  represents N h L → L !! l = Some xs → L !! a = Some ys → l ≠ a →
  ∃ h', list_splice l a h = Some h' ∧
    represents N h' (<[a := xs ++ ys]> (delete l L)) ∧
    unused (<[a := xs ++ ys]> (delete l L)) l ∧ l ∈ N.
Proof.
  intros R Hl Ha Hne.
  pose proof (rep_NoDup _ _ _ R _ _ Hl) as [Hlx Hdx]%NoDup_cons.
  pose proof (rep_NoDup _ _ _ R _ _ Ha) as [Hay Hdy]%NoDup_cons.
  pose proof (rep_disjoint _ _ _ R _ _ _ _ Hl Ha Hne) as Hdj.
  destruct (list_splice_ring h l xs a ys) as (h' & E & R' & O).
  { by apply (rep_ring _ _ _ R). }
  { by apply (rep_ring _ _ _ R). }
  { apply NoDup_cons. split; [set_solver|]. apply NoDup_app. split; [done|].
    split; [set_solver|]. by constructor. }
  assert (delete l L !! a = Some ys) as Ha' by by rewrite lookup_delete_ne.
  exists h'. split_and!; [done| | |].
  - eapply (rep_update N h h' (delete l L) a ys); [by apply rep_delete|done..| |].
    + apply NoDup_cons. split; [set_solver|]. apply NoDup_app. set_solver.
    + intros q Hq. destruct (decide (q ∈ a :: ys)); [by left|right].
      apply (rep_delete_unused N h L l xs q R Hl). set_solver.
  - intros i zs [[<- <-]|[Hi Hz]]%lookup_insert_Some; [set_solver|].
    by apply (rep_delete_unused N h L l xs l R Hl ltac:(set_solver)).
  - rewrite <- (rep_nodes _ _ _ R). apply (rep_dom N h L l xs l R Hl). set_solver.
Qed.

(** [list_empty] tells whether the sequence is empty. *)
Lemma list_empty_rep N h L hd xs :
  represents N h L → L !! hd = Some xs → list_empty hd h = Some (bool_decide (xs = [])).
Proof.
  intros R Hl. pose proof (rep_ring _ _ _ R _ _ Hl) as Hr.
  pose proof (rep_NoDup _ _ _ R _ _ Hl) as [Hd _]%NoDup_cons. unfold list_empty.
  destruct xs as [|x xs]; destruct Hr as [Hr1 Hr2].
  - rewrite Hr1. cbn. by rewrite Z.eqb_refl.
  - destruct Hr1 as [-> _]. cbn. rewrite (proj2 (Z.eqb_neq x hd)); [done|set_solver].
Qed.

(** Run the part of a removal that all its variants share. *)
Ltac unlinked R Hrm h1 :=
  let p := fresh "p" in let n := fresh "n" in
  let Ep := fresh in let En := fresh in let Eu := fresh in
  destruct (unlink_refines _ _ _ _ _ R Hrm) as (p & n & h1 & Ep & En & Eu & R1 & Hfree & HxN);
  rewrite Ep, En; cbn; rewrite Eu; cbn; clear Ep En Eu.

Lemma list_step_refines N h L o L' :
  represents N h L → list_step N L o L' →
  ∃ h', run_op o h = Some h' ∧ represents N h' L'.
Proof.
  intros R HS. revert R. destruct HS as [L0 p HN Hp|L0 L1 new a HN Hnew Hin|L0 L1 new a HN Hnew Hin|L0 L1 x Hrm
    |L0 L1 x Hrm|L0 L1 L2 x a Hrm Hin|L0 L1 L2 x a Hrm Hin|L0 l xs a ys Hl Ha Hne
    |L0 l xs a ys Hl Ha Hne]; intros R; cbn [run_op].
  - rewrite <- (rep_nodes _ _ _ R) in HN.
    destruct (INIT_LIST_HEAD_ring h p HN) as (h' & E & Hr & O). exists h'. split; [done|].
    by apply (rep_new N h).
  - by eapply list_add_refines.
  - by eapply list_add_tail_refines.
  - unfold list_del. unlinked R Hrm h1.
    assert (x ∈ dom h1) by by rewrite (rep_nodes _ _ _ R1). do 2 store.
    eexists; split; [done|]. apply (rep_outside N h1 _ _ x); [done..|].
    by apply (only_trans [x] [x] [x] h1 h0).
  - unfold list_del_init. unlinked R Hrm h1.
    assert (x ∈ dom h1) as Hd by by rewrite (rep_nodes _ _ _ R1).
    destruct (INIT_LIST_HEAD_ring h1 x Hd) as (h' & E & Hr & O). exists h'. split; [done|].
    by apply (rep_new N h1).
  - unfold list_move. unlinked R Hrm h1. by eapply list_add_refines.
  - unfold list_move_tail. unlinked R Hrm h1. by eapply list_add_tail_refines.
  - destruct (rep_splice N h L0 l xs a ys R Hl Ha Hne) as (h' & E & R' & _). by exists h'.
  - destruct (rep_splice N h L0 l xs a ys R Hl Ha Hne) as (h1 & E & R' & Hfree & HN).
    unfold list_splice_init. unfold list_splice in E.
    destruct (list_empty l h) as [[]|] eqn:He; [|cbn in *; rewrite E; cbn|done].
    + rewrite (list_empty_rep _ _ _ _ _ R Hl) in He.
      injection He as He%bool_decide_eq_true. subst xs.
      exists h. split; [done|]. cbn. rewrite insert_insert_ne, insert_delete_eq by done.
      by rewrite !insert_id by (rewrite ?lookup_insert_ne; done).
    + rewrite <- (rep_nodes _ _ _ R') in HN.
      destruct (INIT_LIST_HEAD_ring h1 l HN) as (h' & -> & Hr & O). exists h'. split; [done|].
      by apply (rep_new N h1).
Qed.

Lemma list_steps_refine N h L os L' :
  represents N h L → list_steps N L os L' →
  ∃ h', run_ops os h = Some h' ∧ represents N h' L'.
Proof.
  intros R HS. revert h R. induction HS as [L|L L1 L2 o os Hs _ IH]; intros h R; [by exists h|].
  destruct (list_step_refines _ _ _ _ _ R Hs) as (h1 & E & R1).
  destruct (IH h1 R1) as (h2 & E2 & R2). exists h2. cbn. by rewrite E.
Qed.

(** *** The iterators visit the sequence *)
Section visits.
Context {S : Type} (f : S → Z → S).

(** A body that works on the caller's state and leaves the lists alone. *)
Definition reading (pos : Z) (h : heap) (s : S) : option (heap * S) := Some (h, f s pos).

Lemma walk_next_seg h xs hd : ∀ a s fuel,
  seg h a xs hd → hd ∉ xs → (length xs < fuel)%nat →
  (pos ← get_next h a; walk reading fuel get_next pos hd h s) = Some (h, foldl f s xs).
Proof.
  induction xs as [|x xs IH]; intros a s [|fuel] Hs Hd Hf; cbn in Hf; [lia| |lia|].
  - destruct Hs as [-> _]. cbn. by rewrite Z.eqb_refl.
  - destruct Hs as [[-> _] Hs]. apply not_elem_of_cons in Hd as [? ?]. cbn.
    rewrite (proj2 (Z.eqb_neq x hd)) by done. apply IH; [done..|lia].
Qed.

Lemma walk_prev_seg h xs hd : ∀ a s fuel,
  seg h hd xs a → hd ∉ xs → (length xs < fuel)%nat →
  (pos ← get_prev h a; walk reading fuel get_prev pos hd h s) =
    Some (h, foldl f s (reverse xs)).
Proof.
  induction xs as [|x xs IH] using rev_ind; intros a s fuel Hs Hd Hf.
  - destruct Hs as [_ ->]. destruct fuel as [|fuel]; cbn in Hf |- *; [lia|].
    by rewrite Z.eqb_refl.
  - apply seg_app in Hs as [Hs [_ Hp]]. rewrite Hp. cbn.
    rewrite length_app in Hf. cbn in Hf. destruct fuel as [|fuel]; [lia|]. cbn.
    apply not_elem_of_app in Hd as [? Hx%not_elem_of_cons].
    rewrite (proj2 (Z.eqb_neq x hd)) by naive_solver.
    rewrite reverse_snoc. apply IH; [done..|lia].
Qed.

Lemma list_for_each_entry_rep N h L hd xs s fuel :
  represents N h L → L !! hd = Some xs → (length xs < fuel)%nat →
  list_for_each_entry reading fuel hd h s = Some (h, foldl f s xs) ∧
  list_for_each_entry_reverse reading fuel hd h s = Some (h, foldl f s (reverse xs)).
Proof.
  intros R Hl Hf. pose proof (rep_ring _ _ _ R _ _ Hl) as Hr.
  pose proof (rep_NoDup _ _ _ R _ _ Hl) as [Hd _]%NoDup_cons.
  split; [by apply walk_next_seg|by apply walk_prev_seg].
Qed.

Lemma list_for_each_entry_continue_rep N h L hd xs x s fuel :
  represents N h L → L !! hd = Some xs → x ∈ xs → (length xs < fuel)%nat →
  list_for_each_entry_continue reading fuel x hd h s = Some (h, foldl f s (after x xs)).
Proof.
  intros R Hl (l1 & l2 & ->)%list_elem_of_split Hf.
  pose proof (rep_ring _ _ _ R _ _ Hl) as Hr.
  pose proof (rep_NoDup _ _ _ R _ _ Hl) as [Hd (_ & Hx & _)%NoDup_app]%NoDup_cons.
  rewrite after_place by set_solver. apply seg_app in Hr as [_ Hr].
  rewrite length_app in Hf. cbn in Hf. apply walk_next_seg; [done|set_solver|lia].
Qed.
End visits.

(** *** Deleting while iterating *)
Section deleting.
Context (drop : Z → bool).

(** The body of the deletion loops of mstp.c; the state is the entries it saw. *)
Definition deleting (pos : Z) (h : heap) (s : list Z) : option (heap * list Z) :=
  if drop pos then h ← list_del pos h; Some (h, s ++ [pos]) else Some (h, s ++ [pos]).

Definition kept (xs : list Z) : list Z := filter (λ x, drop x = false) xs.

(** The node the loop is at, and the one after it, when [ys] is left to visit. *)
Lemma rep_next N h L hd ks y ys :
  represents N h L → L !! hd = Some (ks ++ y :: ys) → get_next h y = Some (List.hd hd ys).
Proof.
  intros R Hl. pose proof (rep_ring _ _ _ R _ _ Hl) as [_ Hs]%seg_app.
  by destruct ys as [|y' ys]; destruct Hs as [? _]; [|destruct H].
Qed.

Lemma deleting_works N h L hd ks y ys s :
  represents N h L → L !! hd = Some (ks ++ y :: ys) →
  ∃ h', deleting y h s = Some (h', s ++ [y]) ∧
    represents N h' (<[hd := (ks ++ kept [y]) ++ ys]> L).
Proof.
  intros R Hl. unfold deleting, kept. rewrite filter_cons, filter_nil.
  destruct (drop y); rewrite ?decide_False, ?decide_True by done.
  - destruct (list_step_refines N h L (Op_list_del y)
      (<[hd := Prelude.list_del y (ks ++ y :: ys)]> L) R) as (h' & E & R').
    { constructor. apply removed_entry; [done|set_solver]. }
    exists h'. cbn [run_op] in E. rewrite E. split; [done|].
    pose proof (rep_NoDup _ _ _ R _ _ Hl) as [_ Hd]%NoDup_cons.
    rewrite list_del_place in R' by done. by rewrite app_nil_r.
  - exists h. split; [done|]. rewrite <- app_assoc. cbn. by rewrite insert_id.
Qed.

Lemma walk_safe_deleting N hd ys : ∀ ks fuel h L s n,
  represents N h L → L !! hd = Some (ks ++ ys) → (length ys < fuel)%nat →
  get_next h (List.hd hd ys) = Some n →
  ∃ h', walk_safe deleting fuel (List.hd hd ys) n hd h s = Some (h', s ++ ys) ∧
    represents N h' (<[hd := ks ++ kept ys]> L).
Proof.
  induction ys as [|y ys IH]; intros ks [|fuel] h L s n R Hl Hf Hn; cbn in Hf; [lia| |lia|].
  - cbn. rewrite Z.eqb_refl, app_nil_r. exists h. unfold kept. cbn. by rewrite insert_id.
  - pose proof (rep_NoDup _ _ _ R _ _ Hl) as [Hd _]%NoDup_cons. cbn in Hn |- *.
    rewrite (proj2 (Z.eqb_neq y hd)) by set_solver.
    destruct (deleting_works N h L hd ks y ys s R Hl) as (h1 & -> & R1). cbn.
    assert (n = List.hd hd ys) as -> by (rewrite (rep_next _ _ _ _ _ _ _ R Hl) in Hn; congruence).
    assert (∃ n', get_next h1 (List.hd hd ys) = Some n') as [n' Hn'].
    { pose proof (lookup_insert_eq L hd ((ks ++ kept [y]) ++ ys)) as Hl1.
      destruct ys as [|z ys]; [|exists (List.hd hd ys); by eapply rep_next].
      pose proof (rep_ring _ _ _ R1 _ _ Hl1) as Hr. unfold ring in Hr.
      destruct (_ ++ []); destruct Hr as [Hr ?]; [by eauto|destruct Hr; by eauto]. }
    rewrite Hn'. cbn.
    destruct (IH (ks ++ kept [y]) fuel h1 _ (s ++ [y]) n' R1) as (h' & E & R'); [|lia|done|].
    { by rewrite lookup_insert_eq. }
    exists h'. rewrite E, <- app_assoc. split; [done|].
    rewrite insert_insert_eq, <- app_assoc in R'. unfold kept in *. by rewrite <- filter_app in R'.
Qed.
End deleting.

(** ** The theorems *)

(** C27: The functions of list.h implement sequences.  A memory that holds some lists, and any
    history of operations the program may make on them (INIT_LIST_HEAD and list_add of
    nodes in no list, at the head of a list or at an entry; list_del of entries; moves;
    splices of distinct lists): the pointer code runs to its end without a fault, and the
    memory then holds the lists the history describes on sequences.  Whoever iterates
    over a list, forwards, backwards or from an entry on, visits that sequence, the loop
    ends after as many rounds as there are entries, and list_empty tells whether there
    are any. *)
Theorem list_ops_refine N h L os L' :
  represents N h L → list_steps N L os L' →
  ∃ h', run_ops os h = Some h' ∧ represents N h' L' ∧
    ∀ hd xs, L' !! hd = Some xs →
      list_empty hd h' = Some (bool_decide (xs = [])) ∧
      ∀ (S : Type) (f : S → Z → S) s fuel, (length xs < fuel)%nat →
        list_for_each_entry (reading f) fuel hd h' s = Some (h', foldl f s xs) ∧
        list_for_each_entry_reverse (reading f) fuel hd h' s
          = Some (h', foldl f s (reverse xs)) ∧
        ∀ x, x ∈ xs →
          list_for_each_entry_continue (reading f) fuel x hd h' s
            = Some (h', foldl f s (after x xs)).
Proof.
  intros R HS. destruct (list_steps_refine _ _ _ _ _ R HS) as (h' & E & R').
  exists h'. split_and!; [done..|]. intros hd xs Hl.
  split; [by eapply list_empty_rep|]. intros S f s fuel Hf.
  destruct (list_for_each_entry_rep f N h' L' hd xs s fuel R' Hl Hf) as [? ?].
  split_and!; [done..|]. intros x Hx. by eapply list_for_each_entry_continue_rep.
Qed.

(** The deletion loops of mstp.c are right: list_for_each_entry_safe with a body that
    unlinks some of the entries it is given, whichever, visits every entry of the list
    once and in order, never faults although it overwrites the pointers of the node it is
    at, and leaves the other entries, in order, and all other lists as they were. *)
Theorem list_for_each_entry_safe_deletes N h L hd xs drop fuel :
  represents N h L → L !! hd = Some xs → (length xs < fuel)%nat →
  ∃ h', list_for_each_entry_safe (deleting drop) fuel hd h [] = Some (h', xs) ∧
    represents N h' (<[hd := kept drop xs]> L).
Proof.
  intros R Hl Hf. pose proof (rep_ring _ _ _ R _ _ Hl) as Hr.
  assert (get_next h hd = Some (List.hd hd xs)) as Hn.
  { by destruct xs as [|x xs]; destruct Hr as [Hr ?]; [|destruct Hr]. }
  assert (∃ n, get_next h (List.hd hd xs) = Some n) as [n Hn'].
  { destruct xs as [|x xs]; [by eauto|]. exists (List.hd hd xs).
    by apply (rep_next N h L hd [] x xs). }
  unfold list_for_each_entry_safe. rewrite Hn. cbn. rewrite Hn'. cbn.
  by apply (walk_safe_deleting drop N hd xs [] fuel h L [] n).
Qed.

(** Five nodes in a memory, in no list. *)
Definition five_nodes : heap := list_to_map ((λ p, (p, mk_list_head 0 0)) <$> [1; 2; 3; 4; 5]).

Lemma five_nodes_hold : represents {[1; 2; 3; 4; 5]} five_nodes ∅.
Proof. split; [by vm_compute| | |]; intros ?; rewrite lookup_empty; done. Qed.

(** Node 1 becomes a list; 2, 3 and 4 join it, at the end, at the head and after 3; 2
    leaves; node 5 becomes a list and takes over the entries of 1. *)
Lemma list_ops_refine_witness :
  let os := [Op_INIT_LIST_HEAD 1; Op_list_add_tail 2 1; Op_list_add 3 1; Op_list_add 4 3;
             Op_list_del 2; Op_INIT_LIST_HEAD 5; Op_list_splice_init 1 5] in
  ∃ h', run_ops os five_nodes = Some h' ∧
    list_for_each_entry (reading (λ s x, s ++ [x])) 9 5 h' [] = Some (h', [3; 4]).
Proof.
  intros os.
  destruct (list_ops_refine {[1; 2; 3; 4; 5]} five_nodes ∅ os
    (<[1 := []]> (<[5 := [3; 4]]> (delete 1 (<[5 := []]> (<[1 := [3; 4]]>
      (<[1 := [3; 4; 2]]> (<[1 := [3; 2]]> (<[1 := [2]]> (<[1 := []]> ∅)))))))))
    five_nodes_hold) as (h' & E & _ & V).
  { repeat eapply Steps_cons; [..|apply Steps_nil].
    - apply Step_INIT; by apply (bool_decide_unpack _); vm_compute.
    - apply Step_add_tail; [by apply (bool_decide_unpack _); vm_compute..|].
      by apply (before_head _ _ _ []).
    - apply Step_add; [by apply (bool_decide_unpack _); vm_compute..|].
      by apply after_head.
    - apply Step_add; [by apply (bool_decide_unpack _); vm_compute..|].
      apply (after_entry 4 3 _ 1 [3; 2]); [done|set_solver].
    - constructor. apply (removed_entry 2 _ 1 [3; 4; 2]); [done|set_solver].
    - apply Step_INIT; by apply (bool_decide_unpack _); vm_compute.
    - by apply (Step_splice_init _ _ 1 [3; 4] 5 []). }
  exists h'. split; [done|].
  destruct (V 5 [3; 4]) as [_ W]; [done|].
  destruct (W _ (λ s x, s ++ [x]) [] 9%nat) as [-> _]; [cbn; lia|done].
Defined.

(** A list of three entries: 1 is the head. *)
Definition three_entries : heap := list_to_map
  [(1, mk_list_head 2 4); (2, mk_list_head 3 1); (3, mk_list_head 4 2); (4, mk_list_head 1 3)].

(** Deleting the even entries of [2; 3; 4] visits all three and leaves [3]. *)
Lemma list_for_each_entry_safe_deletes_witness :
  represents {[1; 2; 3; 4]} three_entries {[1 := [2; 3; 4]]} ∧
  ∃ h', list_for_each_entry_safe (deleting Z.even) 4 1 three_entries [] = Some (h', [2; 3; 4])
    ∧ represents {[1; 2; 3; 4]} h' (<[1 := [3]]> {[1 := [2; 3; 4]]}).
Proof.
  assert (represents {[1; 2; 3; 4]} three_entries {[1 := [2; 3; 4]]}) as R.
  { split; [by vm_compute|..].
    - intros ? ? [<- <-]%lookup_singleton_Some. by vm_compute.
    - intros ? ? [<- <-]%lookup_singleton_Some. by apply (bool_decide_unpack _).
    - intros i j ? ? [<- _]%lookup_singleton_Some [<- _]%lookup_singleton_Some; done. }
  split; [exact R|].
  apply (list_for_each_entry_safe_deletes _ _ _ 1 [2; 3; 4] Z.even 4 R); [done|cbn; lia].
Defined.
