(* ===== verification/Tables.v ===== *)
(** * Allocation tables as text (src/ctl_main.c)

    The client shows the VID to FID and the FID to MSTID tables of a bridge as text, and
    reads the same notation, lists of indexes and ranges, to set them: ParseList,
    do_showvid2fid_fmt and do_showfid2mstid_fmt.  The central theorem is that what is
    shown for a table, given back to the parser, is that table. *)
From S2P Require Import Prelude Types Clib.

(** ** ParseList *)

Definition ENOMEM : Z := 12.

(** [strtol] into an [int], checked against a bound. *)
Definition get_id (str : list Z) (max_id : Z) : Z :=
  let id := s32 (fst (strtol 10 str)) in
  if (id <? 0) || (max_id <? id) || ((id =? 0) && (default 0 (head str) ≠? 48))
  then -1 else id.

(** [sscanf(s, "%d%n", ...)]: the value and what follows it. *)
Definition sscanf_d (s : list Z) : option (Z * list Z) :=
  match scan_number 10 s with
  | None => None
  | Some _ => let '(v, rest) := strtol 10 s in Some (s32 v, rest)
  end.

(** The text before the first [stop], and what follows it if there is one. *)
Fixpoint cut (stop : Z) (s : list Z) : list Z * option (list Z) :=
  match s with
  | [] => ([], None)
  | c :: s' => if c =? stop then ([], Some s')
               else let '(a, b) := cut stop s' in (c :: a, b)
  end.

(** The pieces between commas that the loop of ParseList goes through. *)
Fixpoint pieces (s : list Z) : list (list Z) :=
  match s with
  | [] => [[]]
  | c :: s' =>
      if c =? 44 then [] :: pieces s'
      else match pieces s' with
           | [] => [[c]]
           | p :: ps => (c :: p) :: ps
           end
  end.

Fixpoint skip_blanks (s : list Z) : list Z :=
  match s with
  | c :: s' => if (c =? 32) || (c =? 9) then skip_blanks s' else s
  | [] => []
  end.

Fixpoint skip_to_digit (s : list Z) : list Z :=
  match s with
  | c :: s' => if is_digit c then s else skip_to_digit s'
  | [] => []
  end.

(** [array[i] = v]; [None] is a store outside of the array. *)
Definition store (i v : Z) (array : list Z) : option (list Z) :=
  if (0 <=? i) && (i <? Z.of_nat (length array)) then Some (<[Z.to_nat i := v]> array) else None.

(** [for(i = first; ...; ++i) array[i] = v], [n] times. *)
Fixpoint store_range (n : nat) (i v : Z) (array : list Z) : option (list Z) :=
  match n with
  | O => Some array
  | S n' => array ← store i v array; store_range n' (i + 1) v array
  end.

(** [for(i = ...; ...; ++i) if(array[i] > max_value) array[i] = v], [n] times. *)
Fixpoint store_unset (n : nat) (i max_value v : Z) (array : list Z) : option (list Z) :=
  match n with
  | O => Some array
  | S n' =>
      x ← (if 0 <=? i then array !! Z.to_nat i else None);
      array ← (if max_value <? x then store i v array else Some array);
      store_unset n' (i + 1) max_value v array
  end.

Section parse.
Context (max_index max_value : Z) (no_zero_index : bool).

Definition bad_index (i : Z) : bool := (max_index <? i) || (no_zero_index && (i =? 0)).

(** ["*"]: every index that has no value yet. *)
Definition parse_star (value : Z) (piece array : list Z) : option (bool * list Z) :=
  if bool_decide (head (skip_blanks piece) = Some 42) then
    let start := if no_zero_index then 1 else 0 in
    a ← store_unset (Z.to_nat (max_index - start + 1)) start max_value value array;
    Some (true, a)
  else Some (false, array).

(** The second index of a range; the first one where there is no other. *)
Definition range_end (first_index : Z) (rest : list Z) : option Z :=
  match skip_to_digit rest with
  | [] => Some first_index
  | tail =>
      '(last_index, _) ← sscanf_d tail;
      if (last_index <? 0) || bad_index last_index then None else Some last_index
  end.

(** One piece of the list: whether it is well formed, and the array. *)
Definition parse_piece (value : Z) (piece array : list Z) : option (bool * list Z) :=
  match sscanf_d piece with
  | Some (first_index, rest) =>
      if first_index <? 0 then parse_star value piece array else
      if bad_index first_index then Some (false, array) else
      match range_end first_index rest with
      | None => Some (false, array)
      | Some last_index =>
          let lo := Z.min first_index last_index in
          let hi := Z.max first_index last_index in
          a ← store_range (Z.to_nat (hi - lo + 1)) lo value array; Some (true, a)
      end
  | None => parse_star value piece array
  end.

Fixpoint parse_pieces (value : Z) (ps : list (list Z)) (array : list Z) : option (bool * list Z) :=
  match ps with
  | [] => Some (true, array)
  | p :: ps =>
      '(ok, array) ← parse_piece value p array;
      if (ok : bool) then parse_pieces value ps array else Some (false, array)
  end.

(** The result and the array; [strdup_ok] is whether the copy could be allocated. *)
Definition ParseList (strdup_ok : bool) (str_c array : list Z) : option (Z * list Z) :=
  if negb strdup_ok then Some (- ENOMEM, array) else
  match cut 58 str_c with
  | (_, None) => Some (-1, array)
  | (str, Some list) =>
      let value := get_id str max_value in
      if value <? 0 then Some (value, array) else
      '(ok, array) ← parse_pieces value (pieces list) array;
      Some (if (ok : bool) then 0 else -1, array)
  end.
End parse.

(** The arguments of setvid2fid and setfid2mstid, one after the other; the first error
    ends it. *)
Fixpoint parse_arguments (parse : list Z → list Z → option (Z * list Z))
    (args : list (list Z)) (array : list Z) : option (Z * list Z) :=
  match args with
  | [] => Some (0, array)
  | a :: args =>
      '(ret, array) ← parse a array;
      if (ret : Z) <? 0 then Some (ret, array) else parse_arguments parse args array
  end.

Definition parse_vid2fid (strdup_ok : bool) :=
  parse_arguments (ParseList MAX_VID MAX_FID true strdup_ok).
Definition parse_fid2mstid (strdup_ok : bool) :=
  parse_arguments (ParseList MAX_FID MAX_MSTID false strdup_ok).

(** ** do_showvid2fid_fmt and do_showfid2mstid_fmt *)

Inductive format_id_t := FORMAT_PLAIN | FORMAT_JSON.

Definition DQUOTE : Z := 34.
Definition NEWLINE : Z := 10.
Definition quoted (s : list Z) : list Z := DQUOTE :: s ++ [DQUOTE].

(** The two functions differ in these. *)
Record table := mk_table {
  tb_title : list Z;      (* of the plain text *)
  tb_json : list Z;       (* name of the array *)
  tb_row : list Z;        (* label of a row *)
  tb_row_json : list Z;
  tb_index_json : list Z;
  tb_start : nat;         (* first index *)
  tb_max_value : Z
}.

Definition vid2fid_table : table := mk_table
  (chars " VID-to-FID allocation table:") (chars "vid2fid") (chars "  FID ") (chars "fid")
  (chars "vid") 1 MAX_FID.
Definition fid2mstid_table : table := mk_table
  (chars " FID-to-MSTID allocation table:") (chars "fid2mstid") (chars "  MSTID ")
  (chars "mstid") (chars "fid") 0 MAX_MSTID.

Section show.
Context (T : table) (format : format_id_t).

Definition UNSET : Z := 0xFFFF.

(** The interval that ends before [i]. *)
Definition show_interval (first_char i count : Z) : list Z :=
  let body := print_u (i - count) ++ (if 1 <? count then 45 :: print_u (i - 1) else []) in
  first_char :: match format with
                | FORMAT_PLAIN => body
                | FORMAT_JSON => quoted body
                end.

(** The loop over the indexes of one row: from the entries [l], which start at index
    [i], what is printed and the entries that are left. *)
Fixpoint show_row (cur first_char i count : Z) (l : list Z) : list Z * list Z :=
  match l with
  | [] => ([], [])
  | x :: l' =>
      if cur ≠? x then
        let '(out, rest) :=
          if count =? 0 then show_row cur first_char (i + 1) 0 l'
          else show_row cur 44 (i + 1) 0 l' in
        ((if count =? 0 then [] else show_interval first_char i count) ++ out, x :: rest)
      else
        let '(out, rest) := show_row cur first_char (i + 1) (count + 1) l' in
        (out, UNSET :: rest)
  end.

(** The least value of the table. *)
Definition least (l : list Z) : Z :=
  foldl (λ cur x, if x <? cur then x else cur) (default 0 (head l)) l.

Definition row_begin (cur : Z) (out_count : nat) : list Z :=
  match format with
  | FORMAT_PLAIN => tb_row T ++ print_u cur ++ [58]
  | FORMAT_JSON =>
      (if bool_decide (out_count = 0%nat) then [] else [44]) ++
      123 :: quoted (tb_row_json T) ++ 58 :: quoted (print_u cur) ++ 44 ::
      quoted (tb_index_json T) ++ [58; 91]
  end.

Definition row_end : list Z :=
  match format with FORMAT_PLAIN => [NEWLINE] | FORMAT_JSON => [93; 125] end.

(** The [do ... while(true)] loop; the last entry of [l] is the one that finalizes the
    last interval. *)
Fixpoint show_rows (fuel : nat) (out_count : nat) (l : list Z) : option (list Z) :=
  match fuel with
  | O => None
  | S fuel =>
      let cur := least (removelast l) in
      if tb_max_value T <? cur then Some [] else
      let '(out, l) := show_row cur 32 (Z.of_nat (tb_start T)) 0 l in
      rest ← show_rows fuel (S out_count) l;
      Some (row_begin cur out_count ++ out ++ row_end ++ rest)
  end.

Definition show_begin (br_name : list Z) : list Z :=
  match format with
  | FORMAT_PLAIN => br_name ++ tb_title T ++ [NEWLINE]
  | FORMAT_JSON =>
      123 :: quoted (chars "bridge") ++ 58 :: quoted br_name ++ 44 ::
      quoted (tb_json T) ++ [58; 91]
  end.

Definition show_table (fuel : nat) (array br_name : list Z) : option (list Z) :=
  rows ← show_rows fuel 0 (drop (tb_start T) array ++ [UNSET]);
  Some (show_begin br_name ++ rows ++
        match format with FORMAT_PLAIN => [] | FORMAT_JSON => [125] end).
End show.

Definition do_showvid2fid_fmt := show_table vid2fid_table.
Definition do_showfid2mstid_fmt := show_table fid2mstid_table.

(** ** Reading numbers back *)

Lemma starts_digit_inv base s :
  starts_digit base s = true → ∃ c s' v, s = c :: s' ∧ digit_in base c = Some v.
Proof.
  destruct s as [|c s]; [done|]. cbn. intros [v Hv]%bool_decide_eq_true. by exists c, s, v.
Qed.

Lemma digit_in_10 c v : digit_in 10 c = Some v → is_digit c = true.
Proof.
  unfold digit_in, digit_value. destruct (is_digit c); [done|].
  destruct ((97 <=? c) && (c <=? 122)) eqn:E1; cbn.
  { destruct (Z.ltb_spec (c - 87) 10); [lia|done]. }
  destruct ((65 <=? c) && (c <=? 90)) eqn:E2; cbn; [|done].
  destruct (Z.ltb_spec (c - 55) 10); [lia|done].
Qed.

(** [print_u] writes digits, at least one. *)
Lemma print_u_digits fuel v acc :
  Forall (λ c, is_digit c = true) acc → 0 <= v →
  Forall (λ c, is_digit c = true) (print_digits fuel 10 v acc).
Proof.
  revert v acc. induction fuel as [|fuel IH]; intros v acc Ha Hv; [done|]. cbn.
  assert (is_digit (digit_char (v mod 10)) = true).
  { pose proof (Z.mod_pos_bound v 10 ltac:(lia)). unfold is_digit, digit_char.
    destruct (Z.ltb_spec (v mod 10) 10); lia. }
  destruct (v / 10 =? 0); [by constructor|]. apply IH; [by constructor|apply Z.div_pos; lia].
Qed.

Definition in_ulong (v : Z) : Prop := 0 <= v < 2 ^ 31.

Lemma strip_prefix_10 s : strip_prefix 10 s = (10, s).
Proof. unfold strip_prefix. by repeat case_match. Qed.

(** Where a number starts with a digit, [scan_number] goes straight to it. *)
Lemma scan_number_digit s :
  starts_digit 10 s = true →
  scan_number 10 s = Some (false, fst (scan_digits 10 0 s), snd (scan_digits 10 0 s)).
Proof.
  intros Hs. destruct (starts_digit_inv _ _ Hs) as (c & s' & d & -> & Hd%digit_in_10).
  assert (skip_spaces (c :: s') = c :: s') as E.
  { cbn. unfold is_space, is_digit in *. by destruct (_ || _) eqn:?; [lia|]. }
  unfold scan_number. rewrite E.
  replace (match c :: s' with 45 :: s' => (true, s') | 43 :: s' => (false, s')
          | _ => (false, c :: s') end) with (false, c :: s') by by repeat case_match.
  rewrite strip_prefix_10, Hs. by destruct (scan_digits 10 0 (c :: s')).
Qed.

Lemma print_u_reads v tail :
  in_ulong v → starts_digit 10 tail = false →
  starts_digit 10 (print_u v ++ tail) = true ∧
  scan_digits 10 0 (print_u v ++ tail) = (v, tail).
Proof.
  intros Hv Ht. unfold in_ulong in Hv.
  destruct (scan_print_digits 64 10 v [] tail 0) as (l & Hl & Hs & Hscan); [lia| |lia|].
  { split; [lia|]. eapply Z.lt_le_trans; [apply Hv|]. by vm_compute. }
  unfold print_u. rewrite Hl, app_nil_r. split; [done|].
  by rewrite Hscan, Z.mul_0_l, Z.add_0_l, scan_digits_stop.
Qed.

Lemma s32_id v : in_ulong v → s32 v = v.
Proof. unfold in_ulong, s32. intros. rewrite Z.mod_small; lia. Qed.

Lemma strtol_print_u v tail :
  in_ulong v → starts_digit 10 tail = false → strtol 10 (print_u v ++ tail) = (v, tail).
Proof.
  intros Hv Ht. destruct (print_u_reads v tail Hv Ht) as [Hs Hd]. unfold strtol.
  rewrite scan_number_digit, Hd by done. cbn [fst snd]. f_equal.
  unfold in_ulong, LONG_MAX in *. lia.
Qed.

Lemma sscanf_print_u v tail :
  in_ulong v → starts_digit 10 tail = false → sscanf_d (print_u v ++ tail) = Some (v, tail).
Proof.
  intros Hv Ht. unfold sscanf_d. rewrite strtol_print_u by done.
  destruct (print_u_reads v tail Hv Ht) as [Hs _]. rewrite scan_number_digit by done.
  by rewrite s32_id.
Qed.

(** A blank before the number makes no difference. *)
Lemma sscanf_blank s : sscanf_d (32 :: s) = sscanf_d s.
Proof.
  unfold sscanf_d, strtol. change (scan_number 10 (32 :: s)) with (scan_number 10 s).
  destruct (scan_number 10 s) as [[[? ?] ?]|]; reflexivity.
Qed.

Lemma get_id_print_u v max_id : 0 <= v <= max_id → in_ulong v → get_id (print_u v) max_id = v.
Proof.
  intros Hm Hv. unfold get_id.
  assert (strtol 10 (print_u v) = (v, [])) as ->.
  { rewrite <- (app_nil_r (print_u v)) at 1. by apply strtol_print_u. }
  cbn [fst]. rewrite s32_id by done. cbv zeta.
  destruct (Z.ltb_spec v 0); [lia|]. destruct (Z.ltb_spec max_id v); [lia|]. cbn [orb].
  destruct (Z.eqb_spec v 0) as [->|]; [by vm_compute|done].
Qed.

Lemma skip_to_digit_start s : starts_digit 10 s = true → skip_to_digit s = s.
Proof. intros (c & s' & d & -> & Hd%digit_in_10)%starts_digit_inv. cbn. by rewrite Hd. Qed.

(** ** The round trip *)

(** The intervals [show_row] prints, as pairs of bounds. *)
Fixpoint runs (cur i count : Z) (l : list Z) : list (Z * Z) :=
  match l with
  | [] => []
  | x :: l' =>
      if cur ≠? x then
        (if count =? 0 then [] else [(i - count, i - 1)]) ++ runs cur (i + 1) 0 l'
      else runs cur (i + 1) (count + 1) l'
  end.

Definition interval_text (r : Z * Z) : list Z :=
  print_u r.1 ++ (if r.1 <? r.2 then 45 :: print_u r.2 else []).

(** Intervals after the first one are separated by commas. *)
Fixpoint comma_text (rs : list (Z * Z)) : list Z :=
  match rs with
  | [] => []
  | r :: rs => 44 :: interval_text r ++ comma_text rs
  end.

Definition runs_text (first_char : Z) (rs : list (Z * Z)) : list Z :=
  match rs with
  | [] => []
  | r :: rs => first_char :: interval_text r ++ comma_text rs
  end.

Definition erase (cur x : Z) : Z := if cur =? x then UNSET else x.

Lemma show_row_runs cur : ∀ l first_char i count, 0 <= count →
  show_row FORMAT_PLAIN cur first_char i count l =
    (runs_text first_char (runs cur i count l), map (erase cur) l).
Proof.
  induction l as [|x l IH]; intros first_char i count Hc; [done|]. cbn [show_row runs map].
  unfold erase at 1. destruct (cur =? x); cbn [negb]; [by rewrite IH by lia|].
  destruct (Z.eqb_spec count 0); rewrite IH by lia; [done|].
  f_equal. unfold show_interval, interval_text. cbn [app runs_text fst snd].
  replace (1 <? count) with (i - count <? i - 1) by lia. f_equal. f_equal.
  by destruct (runs cur (i + 1) 0 l).
Qed.

(** *** Splitting at commas *)

Definition no_comma (s : list Z) : Prop := Forall (λ c, c ≠ 44) s.

Lemma pieces_app s t : no_comma s → pieces (s ++ 44 :: t) = s :: pieces t.
Proof.
  induction 1 as [|c s Hc Hs IH]; [done|]. cbn. rewrite (proj2 (Z.eqb_neq c 44)) by done.
  by rewrite IH.
Qed.

Lemma pieces_one s : no_comma s → pieces s = [s].
Proof.
  induction 1 as [|c s Hc Hs IH]; [done|]. cbn. rewrite (proj2 (Z.eqb_neq c 44)) by done.
  by rewrite IH.
Qed.

Lemma print_u_no_comma v : 0 <= v → no_comma (print_u v) ∧ Forall (λ c, c ≠ 58) (print_u v).
Proof.
  intros Hv. pose proof (print_u_digits 64 v [] ltac:(done) Hv) as H. unfold no_comma.
  split; (eapply Forall_impl; [exact H|]); intros c Hc; unfold is_digit in Hc; lia.
Qed.

Lemma interval_no_comma r : 0 <= r.1 <= r.2 → no_comma (interval_text r).
Proof.
  intros Hr. unfold interval_text. apply Forall_app. split; [apply print_u_no_comma; lia|].
  destruct (_ <? _); [|done]. constructor; [done|apply print_u_no_comma; lia].
Qed.

Lemma pieces_commas s rs :
  no_comma s → Forall (λ r, 0 <= r.1 <= r.2) rs →
  pieces (s ++ comma_text rs) = s :: map interval_text rs.
Proof.
  intros Hs Hrs. revert s Hs. induction Hrs as [|r rs Hr Hrs IH]; intros s Hs; cbn [comma_text map].
  - rewrite app_nil_r. by apply pieces_one.
  - rewrite pieces_app by done. f_equal. apply IH. by apply interval_no_comma.
Qed.

(** *** Parsing an interval *)

Lemma digit_not_minus tail : starts_digit 10 (45 :: tail) = false.
Proof. reflexivity. Qed.

Definition good_interval (lo hi : Z) (r : Z * Z) : Prop := lo <= r.1 <= r.2 ∧ r.2 <= hi.

Section parse_interval.
Context (max_index max_value : Z) (no_zero_index : bool).
Context (Hmax : max_index < 2 ^ 31).

Definition first_index : Z := if no_zero_index then 1 else 0.

Lemma good_bad i : first_index <= i <= max_index → bad_index max_index no_zero_index i = false.
Proof. unfold bad_index, first_index. intros. destruct no_zero_index; lia. Qed.

Lemma parse_interval value r array blank :
  blank = [] ∨ blank = [32] → good_interval first_index max_index r →
  parse_piece max_index max_value no_zero_index value (blank ++ interval_text r) array =
    a ← store_range (Z.to_nat (r.2 - r.1 + 1)) r.1 value array; Some (true, a).
Proof.
  intros Hb [Hr Hhi]. destruct r as [lo hi]. cbn [fst snd] in *.
  assert (0 <= first_index) as Hf by (unfold first_index; destruct no_zero_index; lia).
  assert (in_ulong lo) as Hlo by (unfold in_ulong; lia).
  assert (in_ulong hi) as Hhi' by (unfold in_ulong; lia).
  set (tail := if lo <? hi then 45 :: print_u hi else []).
  assert (starts_digit 10 tail = false) as Ht by (by unfold tail; destruct (_ <? _)).
  assert (sscanf_d (blank ++ interval_text (lo, hi)) = Some (lo, tail)) as E.
  { destruct Hb as [->| ->]; cbn [app]; rewrite ?sscanf_blank; by apply sscanf_print_u. }
  unfold parse_piece. rewrite E, (proj2 (Z.ltb_ge lo 0)), good_bad by lia.
  assert (range_end max_index no_zero_index lo tail = Some hi) as ->.
  { unfold range_end, tail. destruct (Z.ltb_spec lo hi); [|cbn; f_equal; lia].
    destruct (print_u_reads hi [] Hhi' eq_refl) as [Hs _]. rewrite app_nil_r in Hs.
    assert (skip_to_digit (45 :: print_u hi) = print_u hi) as ->.
    { change (skip_to_digit (45 :: print_u hi)) with (skip_to_digit (print_u hi)).
      by apply skip_to_digit_start. }
    destruct (starts_digit_inv _ _ Hs) as (c & s' & d & Ec & _).
    assert (sscanf_d (print_u hi) = Some (hi, [])) as Es.
    { rewrite <- (app_nil_r (print_u hi)) at 1. by apply sscanf_print_u. }
    rewrite Ec in Es |- *. rewrite Es. cbn [mbind option_bind].
    by rewrite (proj2 (Z.ltb_ge hi 0)), good_bad by lia. }
  by rewrite Z.min_l, Z.max_r by lia.
Qed.

Fixpoint store_runs (value : Z) (rs : list (Z * Z)) (array : list Z) : option (list Z) :=
  match rs with
  | [] => Some array
  | r :: rs =>
      array ← store_range (Z.to_nat (r.2 - r.1 + 1)) r.1 value array;
      store_runs value rs array
  end.

Lemma parse_intervals value rs array :
  Forall (good_interval first_index max_index) rs →
  parse_pieces max_index max_value no_zero_index value (map interval_text rs) array =
    a ← store_runs value rs array; Some (true, a).
Proof.
  intros Hrs. revert array. induction Hrs as [|r rs Hr Hrs IH]; intros array; [done|].
  cbn [map parse_pieces store_runs]. 
  pose proof (parse_interval value r array [] ltac:(by left) Hr) as E. cbn [app] in E. rewrite E.
  destruct (store_range _ _ _ array); cbn; [apply IH|done].
Qed.

(** The argument that one row of the plain table amounts to. *)
Definition row_argument (value : Z) (rs : list (Z * Z)) : list Z :=
  print_u value ++ 58 :: runs_text 32 rs.

Lemma cut_colon s t : Forall (λ c, c ≠ 58) s → cut 58 (s ++ 58 :: t) = (s, Some t).
Proof.
  induction 1 as [|c s Hc Hs IH]; [done|]. cbn. rewrite (proj2 (Z.eqb_neq c 58)) by done.
  by rewrite IH.
Qed.

Lemma ParseList_row value rs array :
  0 <= value <= max_value → in_ulong value → rs ≠ [] →
  Forall (good_interval first_index max_index) rs →
  ParseList max_index max_value no_zero_index true (row_argument value rs) array =
    a ← store_runs value rs array; Some (0, a).
Proof.
  intros Hv Hu Hne Hrs. unfold ParseList, row_argument. cbn [negb].
  rewrite cut_colon by (apply print_u_no_comma; lia). rewrite get_id_print_u by done.
  rewrite (proj2 (Z.ltb_ge value 0)) by lia. destruct rs as [|r rs]; [done|].
  cbn [runs_text]. apply Forall_cons in Hrs as [Hr Hrs].
  assert (0 <= first_index) as Hf by (unfold first_index; destruct no_zero_index; lia).
  assert (pieces (32 :: interval_text r ++ comma_text rs) =
    ([32] ++ interval_text r) :: map interval_text rs) as ->.
  { apply (pieces_commas (32 :: interval_text r)).
    - constructor; [done|]. apply interval_no_comma. destruct Hr; lia.
    - eapply Forall_impl; [exact Hrs|]. intros x [? ?]. lia. }
  cbn [parse_pieces store_runs]. rewrite parse_interval by auto.
  destruct (store_range _ _ _ array) as [a|]; cbn; [|done].
  rewrite parse_intervals by done. by destruct (store_runs value rs a).
Qed.
End parse_interval.

(** *** Storing what was shown *)

Lemma store_range_block v n : ∀ P Q R : list Z,
  length Q = n →
  store_range n (Z.of_nat (length P)) v (P ++ Q ++ R) = Some (P ++ replicate n v ++ R).
Proof.
  induction n as [|n IH]; intros P Q R HQ; destruct Q as [|x Q]; try done.
  injection HQ as HQ. cbn [store_range]. unfold store at 1.
  rewrite !length_app. cbn [length].
  rewrite (proj2 (Z.leb_le _ _)), (proj2 (Z.ltb_lt _ _)) by lia. cbn [andb mbind option_bind].
  rewrite Nat2Z.id, insert_app_r_alt, Nat.sub_diag by done. cbn [app].
  change (<[0%nat:=v]> (x :: Q ++ R)) with (v :: Q ++ R).
  replace (Z.of_nat (length P) + 1) with (Z.of_nat (length (P ++ [v]))).
  2: { rewrite length_app. cbn. lia. }
  replace (P ++ v :: Q ++ R) with ((P ++ [v]) ++ Q ++ R) by by rewrite <- app_assoc.
  rewrite IH by done. by rewrite <- app_assoc.
Qed.

(** [B] with the value [cur] where [l] has it. *)
Definition overlay (cur : Z) : list Z → list Z → list Z :=
  zip_with (λ x y, if cur =? x then cur else y).

Lemma store_run cur P Q R i :
  i = Z.of_nat (length P + length Q) →
  store_runs cur (if Z.of_nat (length Q) =? 0 then [] else [(i - Z.of_nat (length Q), i - 1)])
    (P ++ Q ++ R) = Some (P ++ replicate (length Q) cur ++ R).
Proof.
  intros Hi. destruct (Z.eqb_spec (Z.of_nat (length Q)) 0) as [E|E].
  - by destruct Q.
  - cbn [store_runs fst snd]. replace (i - Z.of_nat (length Q)) with (Z.of_nat (length P)) by lia.
    rewrite store_range_block by lia. replace (Z.to_nat _) with (length Q) by lia. done.
Qed.

Lemma store_runs_app cur rs1 rs2 array :
  store_runs cur (rs1 ++ rs2) array = a ← store_runs cur rs1 array; store_runs cur rs2 a.
Proof.
  revert array. induction rs1 as [|r rs IH]; intros array; [done|]. cbn.
  by destruct (store_range _ _ _ array); cbn.
Qed.

Lemma store_runs_overlay cur : cur ≠ UNSET → ∀ l P Q R i,
  i = Z.of_nat (length P + length Q) → length R = length l →
  store_runs cur (runs cur i (Z.of_nat (length Q)) (l ++ [UNSET])) (P ++ Q ++ R) =
    Some (P ++ replicate (length Q) cur ++ overlay cur l R).
Proof.
  intros Hcur l. induction l as [|x l IH]; intros P Q [|y R] i Hi HR; try done.
  - cbn [app runs]. rewrite (proj2 (Z.eqb_neq cur UNSET)) by done. cbn [negb].
    rewrite app_nil_r. by apply store_run.
  - injection HR as HR. cbn [app runs]. unfold overlay. cbn [zip_with].
    destruct (Z.eqb_spec cur x) as [->|Hx]; cbn [negb].
    + specialize (IH P (Q ++ [y]) R (i + 1)). rewrite length_app in IH. cbn [length] in IH.
      replace (Z.of_nat (length Q + 1)) with (Z.of_nat (length Q) + 1) in IH by lia.
      rewrite <- !app_assoc in IH. cbn [app] in IH.
      rewrite IH by lia. rewrite replicate_add, <- app_assoc. done.
    + rewrite store_runs_app, store_run by done. cbn [mbind option_bind].
      specialize (IH (P ++ replicate (length Q) cur ++ [y]) [] R (i + 1)).
      rewrite !length_app, length_replicate in IH. cbn [length app] in IH.
      rewrite <- !app_assoc in IH. cbn [app replicate] in IH. change (Z.of_nat 0) with 0 in IH.
      by rewrite IH by lia.
Qed.

Lemma runs_good cur l : ∀ i count lo hi,
  0 <= count → lo <= i - count → i + Z.of_nat (length l) <= hi + 1 →
  Forall (good_interval lo hi) (runs cur i count (l ++ [UNSET])).
Proof.
  induction l as [|x l IH]; intros i count lo hi Hc Hlo Hhi; cbn [app runs length] in *.
  - destruct (_ ≠? _); [|done]. rewrite app_nil_r.
    destruct (Z.eqb_spec count 0); [done|]. repeat constructor; cbn; lia.
  - destruct (_ ≠? _); [|apply IH; lia]. apply Forall_app. split; [|apply IH; lia].
    destruct (Z.eqb_spec count 0); [done|]. repeat constructor; cbn; lia.
Qed.

Lemma runs_not_nil cur l : ∀ i count,
  0 <= count → cur ≠ UNSET → cur ∈ l ∨ 0 < count → runs cur i count (l ++ [UNSET]) ≠ [].
Proof.
  induction l as [|x l IH]; intros i count Hc Hu Hl; cbn [app runs].
  - destruct Hl as [Hl|Hl]; [by apply not_elem_of_nil in Hl|].
    rewrite (proj2 (Z.eqb_neq cur UNSET)) by done. cbn [negb].
    by rewrite (proj2 (Z.eqb_neq count 0)) by lia.
  - destruct (Z.eqb_spec cur x) as [->|Hx]; cbn [negb]; [apply IH; [lia|done|lia]|].
    destruct (Z.eqb_spec count 0); [|done]. apply IH; [lia|done|].
    destruct Hl as [[->|Hl]%elem_of_cons|]; [done|by left|lia].
Qed.

(** *** The whole table *)

(** Of every entry [a]: the table still has it, or the array that is being set does. *)
Definition moved (a x y : Z) : Prop := (x = UNSET ∧ y = a) ∨ (x = a ∧ y = UNSET).

Lemma moved_row cur a l B :
  cur ≠ UNSET → Forall3 moved a l B →
  Forall3 moved a (map (erase cur) l) (overlay cur l B).
Proof.
  intros Hc H. induction H as [|a x y la l B Hm H IH]; [constructor|].
  constructor; [|exact IH]. unfold moved, erase in *.
  destruct (Z.eqb_spec cur x); naive_solver.
Qed.

Lemma least_spec l : l ≠ [] → least l ∈ l ∧ Forall (λ x, least l <= x) l.
Proof.
  intros Hl. unfold least. destruct l as [|c l]; [done|]. clear Hl.
  change (default 0 (head (c :: l))) with c. set (f := λ cur x : Z, if x <? cur then x else cur).
  enough (∀ l c0, (foldl f c0 l = c0 ∨ foldl f c0 l ∈ l) ∧ foldl f c0 l <= c0 ∧
    Forall (λ x, foldl f c0 l <= x) l) as H.
  { destruct (H (c :: l) c) as ([E|E] & H1 & H2); [|done].
    split; [rewrite E; set_solver|done]. }
  clear c l. induction l as [|x l IH]; intros c0; [by cbn; auto with lia|]. cbn.
  destruct (IH (f c0 x)) as (H1 & H2 & H3).
  assert (f c0 x <= c0 ∧ f c0 x <= x ∧ (f c0 x = c0 ∨ f c0 x = x)) as (F1 & F2 & F3).
  { unfold f. destruct (Z.ltb_spec x c0); lia. }
  split_and!; [|lia|constructor; [lia|done]].
  destruct H1 as [->|H1]; [destruct F3 as [->| ->]; [by left|right; set_solver]|].
  right. set_solver.
Qed.

Lemma erase_eq x : erase x x = UNSET.
Proof. unfold erase. by rewrite Z.eqb_refl. Qed.
Lemma erase_ne cur x : cur ≠ x → erase cur x = x.
Proof. intros. unfold erase. by rewrite (proj2 (Z.eqb_neq cur x)). Qed.

(** How many entries are left to show. *)
Definition left_to_show (l : list Z) : nat := length (filter (λ x, x ≠ UNSET) l).

Lemma left_to_show_cons x l :
  left_to_show (x :: l) = ((if decide (x = UNSET) then 0 else 1) + left_to_show l)%nat.
Proof. unfold left_to_show. rewrite filter_cons. repeat case_decide; try done; naive_solver. Qed.

Lemma left_to_show_erase_le cur l : (left_to_show (map (erase cur) l) <= left_to_show l)%nat.
Proof.
  induction l as [|x l IH]; [done|]. cbn [map]. rewrite !left_to_show_cons.
  destruct (decide (cur = x)) as [->|]; [rewrite erase_eq|rewrite erase_ne by done];
    repeat case_decide; try done; lia.
Qed.

Lemma left_to_show_erase cur l :
  cur ≠ UNSET → cur ∈ l → (left_to_show (map (erase cur) l) < left_to_show l)%nat.
Proof.
  intros Hc. induction l as [|x l IH]; intros Hin; [by apply not_elem_of_nil in Hin|].
  cbn [map]. rewrite !left_to_show_cons. pose proof (left_to_show_erase_le cur l).
  destruct (decide (cur = x)) as [->|Hx].
  - rewrite erase_eq, decide_True, decide_False by done. lia.
  - rewrite erase_ne by done. apply elem_of_cons in Hin as [?|Hin]; [done|]. specialize (IH Hin). lia.
Qed.

Lemma left_to_show_length l : (left_to_show l <= length l)%nat.
Proof. apply length_filter. Qed.

(** The entries a table may have: a value in range, or none. *)
Definition valid_entry (max_value x : Z) : Prop := 0 <= x <= max_value ∨ x = UNSET.

Lemma moved_valid a l B max_value x :
  Forall3 moved a l B → Forall (valid_entry max_value) a → x ∈ l → valid_entry max_value x.
Proof.
  intros Hm. induction Hm as [|a y z la l B M Hm IH]; intros Ha Hx; [by apply not_elem_of_nil in Hx|].
  apply Forall_cons in Ha as [Hv Ha]. apply elem_of_cons in Hx as [->|Hx]; [|by apply IH].
  destruct M as [[-> _]|[-> _]]; [by right|done].
Qed.

(** Once every entry is beyond the values of the table, the array is complete. *)
Lemma moved_all a l B max_value m :
  Forall3 moved a l B → Forall (valid_entry max_value) a → max_value < m →
  Forall (λ x, m <= x) l → B = a.
Proof.
  intros Hm. induction Hm as [|a y z la l B M Hm IH]; intros Ha Hlt Hle; [done|].
  apply Forall_cons in Ha as [Hv Ha]. apply Forall_cons in Hle as [Hy Hle].
  f_equal; [|by apply IH]. destruct M as [[_ ->]|[-> ->]], Hv; lia || done.
Qed.

Section round_trip.
Context (T : table) (max_index : Z) (no_zero_index : bool).
Context (Hstart : Z.of_nat (tb_start T) = first_index no_zero_index).
Context (Hmax : max_index < 2 ^ 31) (Hval : tb_max_value T < UNSET).

Notation parse := (ParseList max_index (tb_max_value T) no_zero_index true).

Definition row_line (arg : list Z) : list Z := tb_row T ++ arg ++ [NEWLINE].

Lemma show_rows_round_trip (H : list Z) :
  length H = tb_start T → ∀ fuel a l B oc,
  Forall3 moved a l B → Forall (valid_entry (tb_max_value T)) a →
  l ≠ [] → Z.of_nat (tb_start T + length l) = max_index + 1 →
  (left_to_show l < fuel)%nat →
  ∃ args, show_rows T FORMAT_PLAIN fuel oc (l ++ [UNSET]) = Some (concat (map row_line args)) ∧
    parse_arguments parse args (H ++ B) = Some (0, H ++ a).
Proof.
  intros HH fuel. induction fuel as [|fuel IH]; intros a l B oc Hm Ha Hl Hlen Hf; [lia|].
  cbn [show_rows]. rewrite removelast_last. destruct (least_spec l Hl) as [Hin Hle].
  destruct (Z.ltb_spec (tb_max_value T) (least l)) as [Hgt|Hcur].
  - exists []. split; [done|]. cbn. by rewrite (moved_all a l B (tb_max_value T) (least l)).
  - assert (least l ≠ UNSET) as Hu by lia.
    assert (0 <= least l) as Hpos.
    { destruct (moved_valid a l B _ _ Hm Ha Hin); lia. }
    rewrite show_row_runs, map_app by done. cbn [map].
    assert (erase (least l) UNSET = UNSET) as -> by (by apply erase_ne).
    set (rs := runs (least l) (Z.of_nat (tb_start T)) 0 (l ++ [UNSET])).
    destruct (IH a (map (erase (least l)) l) (overlay (least l) l B) (S oc))
      as (args & Hs & Hp); [by apply moved_row|done| | | |].
    + by destruct l.
    + by rewrite length_map.
    + pose proof (left_to_show_erase (least l) l Hu Hin). lia.
    + exists (row_argument (least l) rs :: args). rewrite Hs. split.
      * cbn [mbind option_bind map concat]. unfold row_begin, row_end, row_line, row_argument.
        by rewrite <- !app_assoc.
      * cbn [parse_arguments]. rewrite ParseList_row; [..|].
        -- unfold rs.
           pose proof (store_runs_overlay (least l) Hu l H [] B (Z.of_nat (tb_start T))) as E.
           cbn [app length replicate] in E. change (Z.of_nat 0) with 0 in E. rewrite E.
           ++ cbn [mbind option_bind]. done.
           ++ lia.
           ++ rewrite <- (Forall3_length_lm _ _ _ _ Hm). symmetry. by apply (Forall3_length_lr _ _ _ _ Hm).
        -- done.
        -- lia.
        -- unfold in_ulong, UNSET in *. lia.
        -- by apply runs_not_nil; [..|left].
        -- apply runs_good; lia.
Qed.

Lemma moved_start a : Forall3 moved a a (replicate (length a) UNSET).
Proof. induction a as [|x a IH]; constructor; [by right|done]. Qed.

Lemma show_table_round_trip (H : list Z) :
  length H = tb_start T → ∀ fuel a br_name,
  a ≠ [] → Z.of_nat (tb_start T + length a) = max_index + 1 → (length a < fuel)%nat →
  Forall (valid_entry (tb_max_value T)) a →
  ∃ args,
    show_table T FORMAT_PLAIN fuel (H ++ a) br_name =
      Some (br_name ++ tb_title T ++ [NEWLINE] ++ concat (map row_line args)) ∧
    parse_arguments parse args (H ++ replicate (length a) UNSET) = Some (0, H ++ a).
Proof.
  intros HH fuel a br_name Hne Hlen Hf Ha.
  destruct (show_rows_round_trip H HH fuel a a _ 0 (moved_start a) Ha Hne Hlen)
    as (args & E & P).
  { pose proof (left_to_show_length a). lia. }
  exists args. split; [|done]. unfold show_table. rewrite drop_app_length' by done.
  rewrite E. cbn [mbind option_bind]. rewrite app_nil_r.
  cbn [show_begin]. by rewrite <- !app_assoc.
Qed.
End round_trip.

(** *** Brackets of the JSON text *)

(** Opening minus closing square brackets. *)
Definition bracket (c : Z) : Z := if c =? 91 then 1 else if c =? 93 then -1 else 0.

Fixpoint open_brackets (s : list Z) : Z :=
  match s with
  | [] => 0
  | c :: s => bracket c + open_brackets s
  end.

Lemma open_brackets_app s t : open_brackets (s ++ t) = open_brackets s + open_brackets t.
Proof. induction s as [|c s IH]; [done|]. cbn [app open_brackets]. lia. Qed.

Lemma open_brackets_digits s : Forall (λ c, is_digit c = true) s → open_brackets s = 0.
Proof.
  induction 1 as [|c s Hc Hs IH]; [done|]. cbn [open_brackets]. unfold bracket, is_digit in *.
  destruct (Z.eqb_spec c 91); [lia|]. destruct (Z.eqb_spec c 93); lia.
Qed.

Lemma open_brackets_print_u v : 0 <= v → open_brackets (print_u v) = 0.
Proof. intros. by apply open_brackets_digits, print_u_digits. Qed.

Lemma open_brackets_quoted s : open_brackets (quoted s) = open_brackets s.
Proof.
  unfold quoted. change (open_brackets (DQUOTE :: s ++ [DQUOTE])) with (0 + open_brackets (s ++ [DQUOTE])).
  rewrite open_brackets_app. cbn. lia.
Qed.

Lemma show_row_open cur l : ∀ first_char i count,
  first_char = 32 ∨ first_char = 44 → 0 <= count <= i → 0 <= cur →
  open_brackets (fst (show_row FORMAT_JSON cur first_char i count l)) = 0.
Proof.
  induction l as [|x l IH]; intros first_char i count Hf Hc Hcur; [done|]. cbn [show_row].
  destruct (cur =? x); cbn [negb].
  { specialize (IH first_char (i + 1) (count + 1)).
    destruct (show_row _ _ _ _ (count + 1) l). cbn in *. apply IH; [done|lia|done]. }
  destruct (Z.eqb_spec count 0) as [->|Hne].
  - specialize (IH first_char (i + 1) 0). destruct (show_row _ _ _ _ 0 l). cbn in *.
    apply IH; [done|lia|done].
  - specialize (IH 44 (i + 1) 0). destruct (show_row _ _ 44 _ 0 l). cbn [fst] in *.
    rewrite open_brackets_app, IH by (auto; lia). unfold show_interval.
    cbn [open_brackets]. rewrite open_brackets_quoted, open_brackets_app, open_brackets_print_u by lia.
    assert (open_brackets (if 1 <? count then 45 :: print_u (i - 1) else []) = 0) as ->.
    { destruct (1 <? count); [|done]. cbn [open_brackets].
      rewrite open_brackets_print_u by lia. done. }
    destruct Hf as [->| ->]; done.
Qed.

Lemma show_row_rest format cur l : ∀ first_char i count,
  snd (show_row format cur first_char i count l) = map (erase cur) l.
Proof.
  induction l as [|x l IH]; intros first_char i count; [done|]. cbn [show_row map].
  unfold erase at 1. destruct (cur =? x); cbn [negb].
  - specialize (IH first_char (i + 1) (count + 1)).
    by destruct (show_row _ _ _ _ (count + 1) l); cbn in *; subst.
  - destruct (count =? 0); [specialize (IH first_char (i + 1) 0)|specialize (IH 44 (i + 1) 0)];
      by destruct (show_row _ _ _ _ 0 l); cbn in *; subst.
Qed.

Lemma row_begin_open T cur oc :
  open_brackets (tb_row_json T) = 0 → open_brackets (tb_index_json T) = 0 → 0 <= cur →
  open_brackets (row_begin T FORMAT_JSON cur oc) = 1.
Proof.
  intros H1 H2 Hc. cbn [row_begin].
  assert (open_brackets (if bool_decide (oc = 0%nat) then [] else [44]) = 0) as E
    by by case_bool_decide.
  repeat (rewrite ?open_brackets_app, ?open_brackets_quoted; cbn [open_brackets]).
  by rewrite E, H1, H2, open_brackets_print_u.
Qed.

Lemma show_rows_open T fuel : ∀ oc l out,
  open_brackets (tb_row_json T) = 0 → open_brackets (tb_index_json T) = 0 →
  Forall (λ x, 0 <= x) l → l ≠ [] →
  show_rows T FORMAT_JSON fuel oc (l ++ [UNSET]) = Some out → open_brackets out = 0.
Proof.
  induction fuel as [|fuel IH]; intros oc l out HT1 HT2 Hl Hne; [done|]. cbn [show_rows].
  rewrite removelast_last. destruct (least_spec l Hne) as [Hin _].
  destruct (_ <? _); [by intros [= <-]|].
  assert (0 <= least l) as Hpos by by apply (proj1 (Forall_forall _ l) Hl).
  pose proof (show_row_open (least l) (l ++ [UNSET]) 32 (Z.of_nat (tb_start T)) 0) as Ho.
  pose proof (show_row_rest FORMAT_JSON (least l) (l ++ [UNSET]) 32 (Z.of_nat (tb_start T)) 0) as Hr.
  destruct (show_row _ _ _ _ _ _) as [row rest]. cbn [fst snd] in Ho, Hr. subst rest.
  rewrite map_app. change (map _ [UNSET]) with [erase (least l) UNSET].
  assert (erase (least l) UNSET = UNSET) as -> by (unfold erase; by destruct (_ =? _)).
  destruct (show_rows _ _ _ _ _) as [out'|] eqn:E; [|done]. cbn [mbind option_bind]. intros <-%(inj Some).
  apply IH in E; [|done|done| |by destruct l].
  2: { apply Forall_map. eapply Forall_impl; [exact Hl|]. intros x ?. unfold erase, UNSET.
       by destruct (_ =? _). }
  rewrite !open_brackets_app, E, Ho, row_begin_open by (auto; lia). done.
Qed.

Lemma show_table_open T fuel array br_name out :
  open_brackets (tb_json T) = 0 → open_brackets (tb_row_json T) = 0 →
  open_brackets (tb_index_json T) = 0 → (tb_start T < length array)%nat →
  Forall (λ x, 0 <= x) array →
  show_table T FORMAT_JSON fuel array br_name = Some out →
  open_brackets out = open_brackets br_name + 1.
Proof.
  intros H0 H1 H2 Hl Ha. unfold show_table.
  destruct (show_rows _ _ _ _ _) as [rows|] eqn:E; [|done]. cbn [mbind option_bind].
  intros <-%(inj Some). apply show_rows_open in E; [|done|done|by apply Forall_drop|].
  - unfold show_begin.
    repeat (rewrite ?open_brackets_app, ?open_brackets_quoted; cbn [open_brackets]).
    rewrite E, H0. change (open_brackets (chars "bridge")) with 0. cbn. lia.
  - intros Hd. apply (f_equal length) in Hd. rewrite length_drop in Hd. cbn in Hd. lia.
Qed.

(** *** ParseList stays in the array *)

Lemma store_spec i v array :
  0 <= i < Z.of_nat (length array) →
  store i v array = Some (<[Z.to_nat i := v]> array).
Proof.
  intros Hi. unfold store.
  by rewrite (proj2 (Z.leb_le _ _)), (proj2 (Z.ltb_lt _ _)) by lia.
Qed.

(** From [array] to [array'], only entries from index [lo] on were set, to [v]. *)
Definition sets (lo v : Z) (array array' : list Z) : Prop :=
  length array' = length array ∧
  ∀ i, array' !! i = array !! i ∨ (lo <= Z.of_nat i ∧ array' !! i = Some v).

Lemma sets_refl lo v array : sets lo v array array.
Proof. split; auto. Qed.

Lemma sets_trans lo v a1 a2 a3 : sets lo v a1 a2 → sets lo v a2 a3 → sets lo v a1 a3.
Proof.
  intros [L1 H1] [L2 H2]. split; [congruence|]. intros i.
  destruct (H2 i) as [->|?]; [apply H1|by right].
Qed.

Lemma sets_insert lo v array i :
  lo <= i → 0 <= i < Z.of_nat (length array) → sets lo v array (<[Z.to_nat i := v]> array).
Proof.
  intros Hlo Hi. split; [by rewrite length_insert|]. intros j.
  destruct (decide (j = Z.to_nat i)) as [->|]; [right|left; by apply list_lookup_insert_ne].
  split; [lia|]. apply list_lookup_insert_eq. lia.
Qed.

Lemma store_range_sets lo v n : ∀ i array,
  lo <= i → 0 <= i → i + Z.of_nat n <= Z.of_nat (length array) →
  ∃ array', store_range n i v array = Some array' ∧ sets lo v array array'.
Proof.
  induction n as [|n IH]; intros i array Hlo Hi Hn; [eauto using sets_refl|].
  cbn [store_range]. rewrite store_spec by lia. cbn [mbind option_bind].
  destruct (IH (i + 1) (<[Z.to_nat i := v]> array)) as (a & E & S);
    [lia|lia|rewrite length_insert; lia|].
  exists a. split; [done|]. eapply sets_trans; [|done]. apply sets_insert; lia.
Qed.

Lemma store_unset_sets lo max_value v n : ∀ i array,
  lo <= i → 0 <= i → i + Z.of_nat n <= Z.of_nat (length array) →
  ∃ array', store_unset n i max_value v array = Some array' ∧ sets lo v array array'.
Proof.
  induction n as [|n IH]; intros i array Hlo Hi Hn; [eauto using sets_refl|].
  cbn [store_unset]. rewrite (proj2 (Z.leb_le 0 i)) by lia.
  destruct (lookup_lt_is_Some_2 array (Z.to_nat i)) as [x Hx]; [lia|].
  rewrite Hx. cbn [mbind option_bind]. destruct (max_value <? x).
  - rewrite store_spec by lia. cbn [mbind option_bind].
    destruct (IH (i + 1) (<[Z.to_nat i := v]> array)) as (a & E & S);
      [lia|lia|rewrite length_insert; lia|].
    exists a. split; [done|]. eapply sets_trans; [|done]. apply sets_insert; lia.
  - cbn [mbind option_bind]. apply IH; lia.
Qed.

Section parse_safe.
Context (max_index max_value : Z) (no_zero_index : bool).
Context (Hmax : 0 <= max_index).

Notation lo := (first_index no_zero_index).

Lemma not_bad_index i :
  0 <= i → bad_index max_index no_zero_index i = false → lo <= i <= max_index.
Proof. unfold bad_index, first_index. destruct no_zero_index; lia. Qed.

Lemma parse_piece_sets value piece array :
  Z.of_nat (length array) = max_index + 1 →
  ∃ ok array', parse_piece max_index max_value no_zero_index value piece array
    = Some (ok, array') ∧ sets lo value array array'.
Proof.
  intros Hl.
  assert (0 <= lo <= 1) as Hlo by (unfold first_index; destruct no_zero_index; lia).
  assert (∃ ok array', parse_star max_index max_value no_zero_index value piece array
    = Some (ok, array') ∧ sets lo value array array') as Hstar.
  { unfold parse_star. case_bool_decide; [|eauto using sets_refl].
    destruct (store_unset_sets lo max_value value (Z.to_nat (max_index - lo + 1)) lo array)
      as (a & E & S); [lia..|].
    unfold first_index in E. rewrite E. cbn. eauto. }
  unfold parse_piece. destruct (sscanf_d piece) as [[i rest]|]; [|done].
  destruct (Z.ltb_spec i 0) as [Hi|Hi]; [done|].
  destruct (bad_index _ _ i) eqn:Hbad; [eauto using sets_refl|].
  apply not_bad_index in Hbad; [|done].
  destruct (range_end _ _ i rest) as [j|] eqn:Hend; [|eauto using sets_refl].
  assert (lo <= j <= max_index) as Hj.
  { unfold range_end in Hend. destruct (skip_to_digit rest) as [|c tail]; [by simplify_eq|].
    destruct (sscanf_d _) as [[k ?]|]; [cbn in Hend|done].
    destruct (Z.ltb_spec k 0); [done|]. cbn in Hend.
    destruct (bad_index _ _ k) eqn:Hk; [done|]. simplify_eq. by apply not_bad_index. }
  destruct (store_range_sets lo value (Z.to_nat (Z.max i j - Z.min i j + 1)) (Z.min i j) array)
    as (a & E & S); [lia..|].
  rewrite E. cbn. eauto.
Qed.

Lemma parse_pieces_sets value ps : ∀ array,
  Z.of_nat (length array) = max_index + 1 →
  ∃ ok array', parse_pieces max_index max_value no_zero_index value ps array
    = Some (ok, array') ∧ sets lo value array array'.
Proof.
  induction ps as [|p ps IH]; intros array Hl; [eauto using sets_refl|]. cbn [parse_pieces].
  destruct (parse_piece_sets value p array Hl) as (ok & a & -> & S). cbn [mbind option_bind].
  destruct ok; [|eauto]. destruct (IH a) as (ok & a' & -> & S'); [by rewrite (proj1 S)|].
  eauto using sets_trans.
Qed.
End parse_safe.

Lemma ParseList_result max_index max_value no_zero_index strdup_ok str_c array :
  0 <= max_index → Z.of_nat (length array) = max_index + 1 →
  ∃ ret array',
    ParseList max_index max_value no_zero_index strdup_ok str_c array = Some (ret, array') ∧
    (ret = 0 ∨ ret = -1 ∨ ret = - ENOMEM) ∧
    ∃ value, (array' = array ∨ 0 <= value <= max_value) ∧
      sets (first_index no_zero_index) value array array'.
Proof.
  intros Hm Hl. unfold ParseList. destruct strdup_ok; cbn [negb].
  2: { eexists _, array. split; [done|]. split; [auto|]. exists 0. eauto using sets_refl. }
  destruct (cut 58 str_c) as [str [list|]].
  2: { eexists _, array. split; [done|]. split; [auto|]. exists 0. eauto using sets_refl. }
  destruct (Z.ltb_spec (get_id str max_value) 0) as [Hid|Hid].
  { eexists _, array. split; [done|]. split; [|exists 0; eauto using sets_refl].
    unfold get_id in *. destruct (_ || _) eqn:E; [auto|]. lia. }
  destruct (parse_pieces_sets max_index max_value no_zero_index Hm (get_id str max_value)
    (pieces list) array Hl) as (ok & a & -> & S).
  eexists _, a. split; [done|]. split; [destruct ok; auto|].
  exists (get_id str max_value). split; [right|done]. split; [done|].
  unfold get_id in *. destruct (_ || _) eqn:E; [lia|]. cbv zeta in *.
  destruct (Z.ltb_spec max_value (s32 (strtol 10 str).1)); [|done].
  by rewrite orb_true_r in E.
Qed.

(** *** Showing always ends *)

Lemma show_rows_total T format fuel : ∀ oc l,
  tb_max_value T < UNSET → l ≠ [] → (left_to_show l < fuel)%nat →
  is_Some (show_rows T format fuel oc (l ++ [UNSET])).
Proof.
  induction fuel as [|fuel IH]; intros oc l HT Hne Hf; [lia|]. cbn [show_rows].
  rewrite removelast_last. destruct (least_spec l Hne) as [Hin _].
  destruct (Z.ltb_spec (tb_max_value T) (least l)); [by eauto|].
  assert (least l ≠ UNSET) as Hu by lia.
  pose proof (show_row_rest format (least l) (l ++ [UNSET]) 32 (Z.of_nat (tb_start T)) 0) as Hr.
  destruct (show_row _ _ _ _ _ _) as [row rest]. cbn [snd] in Hr. subst rest.
  rewrite map_app. change (map _ [UNSET]) with [erase (least l) UNSET].
  assert (erase (least l) UNSET = UNSET) as -> by by apply erase_ne.
  pose proof (left_to_show_erase (least l) l Hu Hin).
  destruct (IH (S oc) (map (erase (least l)) l)) as [x ->]; [done|by destruct l|lia|by eauto].
Qed.

Lemma show_table_total T format fuel array br_name :
  tb_max_value T < UNSET → (tb_start T < length array < fuel + tb_start T)%nat →
  is_Some (show_table T format fuel array br_name).
Proof.
  intros HT Hl. unfold show_table.
  destruct (show_rows_total T format fuel 0 (drop (tb_start T) array)) as [x ->]; [done|..|by eauto].
  - intros E. apply (f_equal length) in E. rewrite length_drop in E. cbn in E. lia.
  - pose proof (left_to_show_length (drop (tb_start T) array)) as H. rewrite length_drop in H. lia.
Qed.

(** ** The theorems *)

(** C29: ParseList is safe on any text.  Whatever the user types as the argument of setvid2fid
    or setfid2mstid, the array is only accessed within its bounds, the function returns,
    with 0 or an error, and no entry but those from the first valid index on is changed,
    and only to one value, which is in the range of the table. *)
Theorem ParseList_safe max_index max_value no_zero_index strdup_ok str_c array :
  0 <= max_index → Z.of_nat (length array) = max_index + 1 →
  ∃ ret array',
    ParseList max_index max_value no_zero_index strdup_ok str_c array = Some (ret, array') ∧
    (ret = 0 ∨ ret = -1 ∨ ret = - ENOMEM) ∧
    ∃ value, (array' = array ∨ 0 <= value <= max_value) ∧
      sets (first_index no_zero_index) value array array'.
Proof. apply ParseList_result. Qed.

(** C28: What mstpctl shows is what it sets.  For any VID to FID table, the plain text of
    showvid2fid is the title and one line "  FID <argument>" for each FID in use, and
    these arguments, given to setvid2fid, fill the array it starts with (no VID has a FID)
    with exactly that table: the text is complete, and nothing else is set.  The same
    holds for showfid2mstid and setfid2mstid.  In particular the loop that shows a table
    ends after at most as many rounds as there are entries. *)
Theorem tables_round_trip :
  (∀ array br_name fuel,
    Z.of_nat (length array) = MAX_VID + 1 → (length array <= fuel)%nat →
    Forall (valid_entry MAX_FID) (drop 1 array) →
    ∃ args,
      do_showvid2fid_fmt FORMAT_PLAIN fuel array br_name =
        Some (br_name ++ chars " VID-to-FID allocation table:" ++ [NEWLINE] ++
              concat (map (λ arg, chars "  FID " ++ arg ++ [NEWLINE]) args)) ∧
      parse_vid2fid true args (replicate (length array) UNSET) =
        Some (0, UNSET :: drop 1 array)) ∧
  (∀ array br_name fuel,
    Z.of_nat (length array) = MAX_FID + 1 → (length array < fuel)%nat →
    Forall (valid_entry MAX_MSTID) array →
    ∃ args,
      do_showfid2mstid_fmt FORMAT_PLAIN fuel array br_name =
        Some (br_name ++ chars " FID-to-MSTID allocation table:" ++ [NEWLINE] ++
              concat (map (λ arg, chars "  MSTID " ++ arg ++ [NEWLINE]) args)) ∧
      parse_fid2mstid true args (replicate (length array) UNSET) = Some (0, array)).
Proof.
  split; intros array br_name fuel Hl Hf Ha.
  - destruct array as [|x a]; [done|]. cbn [drop length] in *.
    destruct (show_table_round_trip vid2fid_table MAX_VID true eq_refl eq_refl eq_refl
      [UNSET] eq_refl fuel a br_name) as (args & E & P); [by intros ->|cbn; lia|lia|done|].
    exists args. by rewrite replicate_S.
  - destruct (show_table_round_trip fid2mstid_table MAX_FID false eq_refl eq_refl eq_refl
      [] eq_refl fuel array br_name) as (args & E & P); [by intros ->|cbn; lia|lia|done|].
    exists args. split; [exact E|exact P].
Qed.

(** The JSON text of the two tables is malformed.  Whatever the table, do_showvid2fid_fmt
    and do_showfid2mstid_fmt print one opening square bracket more than closing ones
    (apart from those in the bridge's name): the array of rows is never closed, as
    do_showmstilist_fmt_json closes its array. *)
Theorem json_tables_not_closed array br_name fuel out :
  Forall (λ x, 0 <= x) array →
  (1 < length array)%nat →
  do_showvid2fid_fmt FORMAT_JSON fuel array br_name = Some out ∨
  do_showfid2mstid_fmt FORMAT_JSON fuel array br_name = Some out →
  open_brackets out = open_brackets br_name + 1.
Proof.
  intros Ha Hl [E|E]; eapply show_table_open in E; done || (cbn; lia).
Qed.

(** A bridge with VIDs 1 to 4 on FID 5, 5 on none, the others on FID 1. *)
Definition sample_vid2fid : list Z := 0 :: replicate 4 5 ++ UNSET :: replicate 4089 1.

(** The entries of [sample_vid2fid] are valid for both tables. *)
Lemma sample_vid2fid_valid m : 5 <= m → Forall (valid_entry m) sample_vid2fid.
Proof.
  intros Hm. unfold sample_vid2fid, valid_entry. constructor; [lia|].
  apply Forall_app. split; [apply Forall_replicate; lia|].
  constructor; [by right|]. apply Forall_replicate. lia.
Qed.

Lemma tables_round_trip_witness :
  ∃ args,
    do_showvid2fid_fmt FORMAT_PLAIN 4095 sample_vid2fid (chars "br0") =
      Some (chars "br0" ++ chars " VID-to-FID allocation table:" ++ [NEWLINE] ++
            concat (map (λ arg, chars "  FID " ++ arg ++ [NEWLINE]) args)) ∧
    parse_vid2fid true args (replicate (length sample_vid2fid) UNSET) =
      Some (0, UNSET :: drop 1 sample_vid2fid).
Proof.
  apply (proj1 tables_round_trip sample_vid2fid (chars "br0") 4095%nat).
  - by vm_compute.
  - by apply Nat.leb_le; vm_compute.
  - apply Forall_drop, sample_vid2fid_valid. unfold MAX_FID. lia.
Defined.

(** setvid2fid br0 "5:1-3, x" stops at the second piece, having set three entries. *)
Lemma ParseList_safe_witness :
  ∃ ret array',
    ParseList 7 MAX_FID true true (chars "5:1-3, x") (replicate 8 UNSET) = Some (ret, array') ∧
    (ret = 0 ∨ ret = -1 ∨ ret = - ENOMEM) ∧
    ∃ value, (array' = replicate 8 UNSET ∨ 0 <= value <= MAX_FID) ∧
      sets (first_index true) value (replicate 8 UNSET) array'.
Proof. apply (ParseList_safe 7 MAX_FID true true (chars "5:1-3, x") (replicate 8 UNSET)); [lia|done]. Defined.

Lemma json_tables_not_closed_witness :
  ∃ out, do_showvid2fid_fmt FORMAT_JSON 9 [0; 1; 1; 2] (chars "br0") = Some out ∧
    open_brackets out = open_brackets (chars "br0") + 1.
Proof.
  eexists. split; [by vm_compute|].
  apply (json_tables_not_closed [0; 1; 1; 2] (chars "br0") 9); [repeat constructor; lia|by cbn; lia|].
  left. by vm_compute.
Defined.
