(* ===== verification/Client.v ===== *)
(** * The client, mstpctl (src/ctl_main.c, src/ctl_socket_client.c, ctl_functions.h)

    A command of the client reads its arguments, makes requests to the daemon and prints.
    Its computations run over the daemon's state: a request is the datagram
    send_ctl_message sends, handled by the daemon's ctl_rcv_handler.  The theorems relate
    what a user asks for to the operation the daemon carries out.  Messages on standard
    error are left out, and so are the log lines that CLIENT_SIDE_FUNCTION and
    send_ctl_message write when a request fails. *)
From S2P Require Import Prelude Types Monad Md5 Outputs Procs Bridge Mgmt Clib Kernel Track Control.
From S2P Require Import Tables.

(** ** The client's state and its computations *)

(** What becomes of a datagram: the daemon does not get it; it does, but the client gets
    no answer in time; the answer arrives. *)
Inductive transport := Not_sent | Not_answered | Answered.

(** The client's own system calls, indexed by the number of calls it made before. *)
Record host := mk_host {
  if_nametoindex : nat → list Z → Z;
  malloc_ok : nat → bool;
  sendmsg : nat → transport;
  log_length : nat → Z;    (* of the log text in the answer *)
  (* the names in a directory, sorted by versionsort(); whether a path is a directory *)
  scandir : nat → list Z → option (list (list Z));
  stat_is_dir : nat → list Z → bool
}.

Record client := mk_client {
  c_daemon : daemon;
  c_calls : nat;
  c_stdout : list Z;
  c_detail : bool     (* the static variable detail *)
}.
#[export] Instance eta_client : Eta client :=
  λ s, mk_client (c_daemon s) (c_calls s) (c_stdout s) (c_detail s).
#[export] Instance set_c_daemon : Setter c_daemon := ltac:(build_setter).
#[export] Instance set_c_calls : Setter c_calls := ltac:(build_setter).
#[export] Instance set_c_stdout : Setter c_stdout := ltac:(build_setter).
#[export] Instance set_c_detail : Setter c_detail := ltac:(build_setter).

(** A computation returns, or ends the client with exit(); [CFault] is an access outside
    of an array, in the client or in the daemon. *)
Inductive coutcome (A : Type) :=
| CDone (a : A) (s : client)
| CExit (code : Z) (s : client)
| CFault
| COutOfFuel.
Arguments CDone {A} a s.
Arguments CExit {A} code s.
Arguments CFault {A}.
Arguments COutOfFuel {A}.

Definition C (A : Type) : Type := client → coutcome A.

#[export] Instance C_ret : MRet C := λ A a s, CDone a s.
#[export] Instance C_bind : MBind C := λ A B f m s,
  match m s with
  | CDone a s' => f a s'
  | CExit e s' => CExit e s'
  | CFault => CFault
  | COutOfFuel => COutOfFuel
  end.

Definition exit {A} (code : Z) : C A := λ s, CExit code s.
Definition printf (text : list Z) : C unit := λ s, CDone tt (s <| c_stdout ::= λ t, t ++ text |>).
Definition of_array {A} (o : option A) : C A := λ s,
  match o with Some a => CDone a s | None => CFault end.
Definition hostcall {A} (f : nat → A) : C A := λ s, CDone (f (c_calls s)) (s <| c_calls ::= S |>).

(** The daemon works. *)
Definition in_daemon {A} (m : D A) : C A := λ s,
  match m (c_daemon s) with
  | DDone a d => CDone a (s <| c_daemon := d |>)
  | DFault => CFault
  | DOutOfFuel => COutOfFuel
  end.

(** ** Reading arguments *)

(** [argv[i]] *)
Definition arg (i : nat) (argv : list (list Z)) : C (list Z) := of_array (argv !! i).

Definition getuint (s : list Z) : C Z :=
  let '(v, end_) := strtoul 0 s in
  let l := s64 v in
  if bool_decide (s = []) || negb (bool_decide (end_ = [])) || (INT_MAX <? l)
  then exit 1 else mret (u32 l).

(** The index of [s] among the options. *)
Fixpoint option_index (i : Z) (s : list Z) (opt : list (list Z)) : option Z :=
  match opt with
  | [] => None
  | o :: opt => if s ==? o then Some i else option_index (i + 1) s opt
  end.

Definition getenum (s : list Z) (opt : list (list Z)) : C Z :=
  match option_index 0 s opt with Some i => mret i | None => exit 1 end.

Definition getyesno (s yes no : list Z) : C Z :=
  i ← getenum s [yes; no]; mret (1 - i).

(** [x != 0], the conversion to a [bool] *)
Definition to_bool (x : Z) : bool := x ≠? 0.

(** [strncpy(dst, src, n)] into the array [dst] of [n] characters. *)
Definition strncpy_pad (n : nat) (src : list Z) : list Z := take n (src ++ replicate n 0).

(** ** Requests *)

(** How the client's compiler lays out the structures: the other halves of the daemon's. *)
Record client_abi := mk_client_abi {
  pack_IN : ∀ c, IN c → list Z;
  unpack_OUT : ∀ c, list Z → OUT c;
  bytes_of_ints : list Z → list Z
}.

Section client.
Context (K : kernel) (A : abi) (B : client_abi) (H : host) (uid : Z).

Definition get_index_die (ifname : list Z) (die : bool) : C Z :=
  r ← hostcall (λ n, if_nametoindex H n ifname);
  if r =? 0 then (if die then exit 1 else mret (-1)) else mret r.

Definition get_index (ifname : list Z) : C Z := get_index_die ifname true.

(** *** ctl_socket_client.c *)

Definition LOG_STRING_LEN : Z := 256.

(** What recvmsg() gives the client: the answer's size, its header and the octets of the
    output buffer. *)
Record ctl_response := mk_ctl_response {
  r_size : Z;
  r_hdr : ctl_msg_hdr;
  r_outbuf : list Z
}.

(** The answer ctl_rcv_handler sends to the message [m]. *)
Definition server_response (m : ctl_datagram) (res : reply (list Z)) (log : Z) : ctl_response :=
  let h := m_hdr m in
  let llog := if log <? h_llog h then log else h_llog h in
  mk_ctl_response (sizeof_ctl_msg_hdr + h_lout h + llog)
    (mk_ctl_msg_hdr (h_cmd h) (h_lin h) (h_lout h) llog
       (match res with inl e => e | inr _ => 0 end))
    (match res with inl _ => [] | inr out => out end).

(** The checks on an answer, in the order of the code; [Some] is accepted. *)
Definition accept_response (cmd lout : Z) (r : ctl_response) : option (Z * list Z) :=
  let h := r_hdr r in
  if (r_size r <? sizeof_ctl_msg_hdr)
     || (r_size r ≠? sizeof_ctl_msg_hdr + h_lout h + h_llog h)
     || (h_cmd h ≠? cmd) then None
  else if h_lout h ≠? lout then None
  else if LOG_STRING_LEN <=? h_llog h then None
  else Some (h_res h, r_outbuf r).

(** The datagram of a request as the daemon receives it.  Octets beyond its buffer are
    cut off and reported as MSG_TRUNC. *)
Definition MSG_TRUNC : Z := 0x20.
Definition request_datagram (cmd : Z) (inbuf : list Z) (lin lout : Z) : ctl_datagram :=
  mk_ctl_datagram (sizeof_ctl_msg_hdr + Z.min lin MSG_BUF_LEN)
    (if MSG_BUF_LEN <? lin then MSG_TRUNC else 0)
    (mk_ctl_msg_hdr cmd lin lout (LOG_STRING_LEN - 1) 0)
    (take (Z.to_nat MSG_BUF_LEN) inbuf) (Some uid).

(** [Some] carries [*res] and the output; [None] is the result -1. *)
Definition send_ctl_message (cmd : Z) (inbuf : list Z) (lin lout : Z) : C (option (Z * list Z)) :=
  t ← hostcall (sendmsg H);
  match (t : transport) with
  | Not_sent => mret None
  | Not_answered =>
      in_daemon (ctl_rcv_handler K A (request_datagram cmd inbuf lin lout)) ;;
      mret None
  | Answered =>
      let m := request_datagram cmd inbuf lin lout in
      res ← in_daemon (ctl_rcv_handler K A m);
      match (res : option (reply (list Z))) with
      | None => mret None
      | Some res =>
          log ← hostcall (log_length H);
          mret (accept_response cmd lout (server_response m res log))
      end
  end.

(** CLIENT_SIDE_FUNCTION: the result of [CTL_c], with the output on success. *)
Definition client_side_function (c : ctl_command) (x : IN c) : C (reply (OUT c)) :=
  r ← send_ctl_message (CMD_CODE c) (pack_IN B c x) (sizeof_IN A c) (sizeof_OUT A c);
  mret (match (r : option (Z * list Z)) with
        | None => inl (-1)
        | Some (res, out) => if res ≠? 0 then inl res else inr (unpack_OUT B c out)
        end).

(** A request without output: its result. *)
Definition request (c : ctl_command) (x : IN c) : C Z :=
  r ← client_side_function c x;
  mret (match (r : reply (OUT c)) with inl e => e | inr _ => 0 end).

(** CTL_add_bridges and CTL_del_bridges *)
Definition bridges_request (cmd : Z) (br_array : list Z) : C Z :=
  let lin := s32 (u64 ((nth 0 br_array 0 + 1) * 4)) in
  r ← send_ctl_message cmd (bytes_of_ints B br_array) lin 0;
  mret (match (r : option (Z * list Z)) with None => -1 | Some (res, _) => res end).
End client.
