(* ===== verification/Show.v ===== *)
(** * Status as text (src/ctl_main.c)

    The commands that print the status of bridges, ports and trees, as plain text or as
    JSON, whole or one parameter at a time. *)
From S2P Require Import Prelude Types Monad Md5 Outputs Procs Bridge Mgmt Clib Kernel Track Control.
From S2P Require Import Tables Client.

(** ** Conversions of printf *)

(** ["%-<n>s"] and ["%<n>s"] *)
Definition pad (n : nat) (s : list Z) : list Z := s ++ replicate (n - length s) 32.
Definition pad_left (n : nat) (s : list Z) : list Z := replicate (n - length s) 32 ++ s.

Definition HEX_DIGIT (d : Z) : Z := if d <? 10 then 48 + d else 55 + d.

(** ["%0<n>X"] of a value of at most [n] digits. *)
Fixpoint print_X (n : nat) (v : Z) : list Z :=
  match n with
  | O => []
  | S n' => HEX_DIGIT ((v / 16 ^ Z.of_nat n') mod 16) :: print_X n' v
  end.

Definition line (s : list Z) : list Z := s ++ [NEWLINE].

Definition GET_NUM_FROM_PRIO (p : Z) : Z := Z.land p 0x0FFF.

(** BR_ID_FMT and PRT_ID_FMT with their arguments. *)
Definition priority_nibble (p : Z) : Z :=
  Z.land (Z.shiftr (GET_PRIORITY_FROM_IDENTIFIER p) 4) 0x0F.
Definition PRT_ID (p : Z) : list Z :=
  print_X 1 (priority_nibble p) ++ 46 :: print_X 3 (GET_NUM_FROM_PRIO p).
Fixpoint colons (l : list (list Z)) : list Z :=
  match l with
  | [] => []
  | [x] => x
  | x :: l => x ++ 58 :: colons l
  end.
Definition BR_ID (x : bridge_identifier_t) : list Z :=
  PRT_ID (priority x) ++ 46 :: colons (map (print_X 2) (take 6 (mac_address x))).

Definition BOOL_STR (b : bool) : list Z := if b then chars "yes" else chars "no".
Definition PROTO_VERS_STR (v : Z) : list Z :=
  if protoRSTP =? v then chars "rstp" else if protoMSTP <=? v then chars "mstp" else chars "stp".
Definition STATE_STR (s : Z) : list Z :=
  if (s =? BR_STATE_DISABLED) || (s =? BR_STATE_BLOCKING) || (s =? BR_STATE_LISTENING)
  then chars "discarding"
  else if s =? BR_STATE_LEARNING then chars "learning"
  else if s =? BR_STATE_FORWARDING then chars "forwarding" else chars "unknown".
Definition SHORT_STATE_STR (s : Z) : list Z :=
  if (s =? BR_STATE_DISABLED) || (s =? BR_STATE_BLOCKING) || (s =? BR_STATE_LISTENING)
  then chars "disc"
  else if s =? BR_STATE_LEARNING then chars "lear"
  else if s =? BR_STATE_FORWARDING then chars "forw" else chars "unkn".
Definition ADMIN_P2P_STR (s : Z) : list Z :=
  if s =? p2pForceFalse then chars "no" else if s =? p2pForceTrue then chars "yes"
  else if s =? p2pAuto then chars "auto" else chars "unkn".
Definition ROLE_STR (r : port_role_t) : list Z :=
  match r with
  | roleRoot => chars "Root" | roleDesignated => chars "Designated"
  | roleAlternate => chars "Alternate" | roleBackup => chars "Backup"
  | roleMaster => chars "Master" | roleDisabled => chars "Disabled"
  end.
Definition SHORT_ROLE_STR (r : port_role_t) : list Z :=
  match r with
  | roleRoot => chars "Root" | roleDesignated => chars "Desg"
  | roleAlternate => chars "Altn" | roleBackup => chars "Back"
  | roleMaster => chars "Mstr" | roleDisabled => chars "Disa"
  end.

(** A JSON object whose values are strings. *)
Definition json_field (f : list Z * list Z) : list Z := quoted f.1 ++ 58 :: quoted f.2.
Fixpoint commas (l : list (list Z)) : list Z :=
  match l with
  | [] => []
  | [x] => x
  | x :: l => x ++ 44 :: commas l
  end.
Definition json_object (fields : list (list Z * list Z)) : list Z :=
  123 :: commas (map json_field fields) ++ [125].

(** ** Parameters *)

Inductive param_id_t :=
| PARAM_NULL
| PARAM_ENABLED | PARAM_BRID | PARAM_DSGNROOT | PARAM_REGNROOT | PARAM_ROOTPORT
| PARAM_PATHCOST | PARAM_INTPATHCOST | PARAM_MAXAGE | PARAM_BRMAXAGE | PARAM_FWDDELAY
| PARAM_BRFWDDELAY | PARAM_TXHOLDCNT | PARAM_MAXHOPS | PARAM_BRHELLO | PARAM_BRAGEING
| PARAM_FORCEPROTVERS | PARAM_TOPCHNGTIME | PARAM_TOPCHNGCNT | PARAM_TOPCHNGSTATE
| PARAM_ROLE | PARAM_STATE | PARAM_PORTID | PARAM_EXTPORTCOST | PARAM_ADMINEXTCOST
| PARAM_INTPORTCOST | PARAM_ADMININTCOST | PARAM_DSGNEXTCOST | PARAM_DSGNRROOT
| PARAM_DSGNINTCOST | PARAM_DSGNBR | PARAM_DSGNPORT | PARAM_ADMINEDGEPORT
| PARAM_AUTOEDGEPORT | PARAM_OPEREDGEPORT | PARAM_TOPCHNGACK | PARAM_P2P | PARAM_ADMINP2P
| PARAM_RESTRROLE | PARAM_RESTRTCN | PARAM_PORTHELLOTIME | PARAM_DISPUTED
| PARAM_BPDUGUARDPORT | PARAM_BPDUGUARDERROR | PARAM_BPDUFILTERPORT | PARAM_NETWORKPORT
| PARAM_BA_INCONSISTENT | PARAM_NUMTXBPDU | PARAM_NUMRXBPDU | PARAM_NUMTXTCN
| PARAM_NUMRXTCN | PARAM_NUMTRANSFWD | PARAM_NUMTRANSBLK | PARAM_NUMBPDUFILTERED
| PARAM_RCVDBPDU | PARAM_RCVDSTP | PARAM_RCVDRSTP | PARAM_SENDRSTP | PARAM_RCVDTCACK
| PARAM_RCVDTCN | PARAM_STPENABLED.

#[export] Instance param_id_t_eq_dec : EqDecision param_id_t := ltac:(solve_decision).

Definition cist_bridge_params : list (param_id_t * string) :=
  [(PARAM_STPENABLED, "stp enabled"); (PARAM_ENABLED, "enabled"); (PARAM_BRID, "bridge-id");
   (PARAM_DSGNROOT, "designated-root"); (PARAM_REGNROOT, "regional-root");
   (PARAM_ROOTPORT, "root-port"); (PARAM_PATHCOST, "path-cost");
   (PARAM_INTPATHCOST, "internal-path-cost"); (PARAM_MAXAGE, "max-age");
   (PARAM_BRMAXAGE, "bridge-max-age"); (PARAM_FWDDELAY, "forward-delay");
   (PARAM_BRFWDDELAY, "bridge-forward-delay"); (PARAM_TXHOLDCNT, "tx-hold-count");
   (PARAM_MAXHOPS, "max-hops"); (PARAM_BRHELLO, "hello-time"); (PARAM_BRAGEING, "ageing-time");
   (PARAM_FORCEPROTVERS, "force-protocol-version");
   (PARAM_TOPCHNGTIME, "time-since-topology-change");
   (PARAM_TOPCHNGCNT, "topology-change-count"); (PARAM_TOPCHNGSTATE, "topology-change")]%string.

Definition cist_port_params : list (param_id_t * string) :=
  [(PARAM_ENABLED, "enabled"); (PARAM_ROLE, "role"); (PARAM_STATE, "state");
   (PARAM_PORTID, "port-id"); (PARAM_EXTPORTCOST, "external-port-cost");
   (PARAM_ADMINEXTCOST, "admin-external-cost"); (PARAM_INTPORTCOST, "internal-port-cost");
   (PARAM_ADMININTCOST, "admin-internal-cost"); (PARAM_DSGNROOT, "designated-root");
   (PARAM_DSGNEXTCOST, "dsgn-external-cost"); (PARAM_DSGNRROOT, "dsgn-regional-root");
   (PARAM_DSGNINTCOST, "dsgn-internal-cost"); (PARAM_DSGNBR, "designated-bridge");
   (PARAM_DSGNPORT, "designated-port"); (PARAM_ADMINEDGEPORT, "admin-edge-port");
   (PARAM_AUTOEDGEPORT, "auto-edge-port"); (PARAM_OPEREDGEPORT, "oper-edge-port");
   (PARAM_TOPCHNGACK, "topology-change-ack"); (PARAM_P2P, "point-to-point");
   (PARAM_ADMINP2P, "admin-point-to-point"); (PARAM_RESTRROLE, "restricted-role");
   (PARAM_RESTRTCN, "restricted-TCN"); (PARAM_PORTHELLOTIME, "port-hello-time");
   (PARAM_DISPUTED, "disputed"); (PARAM_BPDUGUARDPORT, "bpdu-guard-port");
   (PARAM_BPDUGUARDERROR, "bpdu-guard-error"); (PARAM_BPDUFILTERPORT, "bpdu-filter-port");
   (PARAM_NETWORKPORT, "network-port"); (PARAM_BA_INCONSISTENT, "ba-inconsistent");
   (PARAM_NUMTXBPDU, "num-tx-bpdu"); (PARAM_NUMRXBPDU, "num-rx-bpdu");
   (PARAM_NUMTXTCN, "num-tx-tcn"); (PARAM_NUMRXTCN, "num-rx-tcn");
   (PARAM_NUMTRANSFWD, "num-transition-fwd"); (PARAM_NUMTRANSBLK, "num-transition-blk");
   (PARAM_NUMBPDUFILTERED, "num-rx-bpdu-filtered"); (PARAM_RCVDBPDU, "received-bpdu");
   (PARAM_RCVDSTP, "received-stp"); (PARAM_RCVDRSTP, "received-rstp");
   (PARAM_SENDRSTP, "send-rstp"); (PARAM_RCVDTCACK, "received-tc-ack");
   (PARAM_RCVDTCN, "received-tcn")]%string.

(** The parameter of that name. *)
Definition find_param (params : list (param_id_t * string)) (s : list Z) : option param_id_t :=
  fst <$> List.find (λ p, bool_decide (s = chars p.2)) params.

(** ** showbridge *)

(** The value of a parameter; [None] is an unknown parameter. *)
Definition bridge_param (s : CIST_BridgeStatus) (root_port_name : list Z) (p : param_id_t) :
    option (list Z) :=
  match p with
  | PARAM_STPENABLED => Some (BOOL_STR (cbs_stp_enabled s))
  | PARAM_ENABLED => Some (BOOL_STR (cbs_enabled s))
  | PARAM_BRID => Some (BR_ID (cbs_bridge_id s))
  | PARAM_DSGNROOT => Some (BR_ID (cbs_designated_root s))
  | PARAM_REGNROOT => Some (BR_ID (cbs_regional_root s))
  | PARAM_ROOTPORT =>
      Some (if GET_NUM_FROM_PRIO (cbs_root_port_id s) =? 0 then [] else root_port_name)
  | PARAM_PATHCOST => Some (print_u (cbs_root_path_cost s))
  | PARAM_INTPATHCOST => Some (print_u (cbs_internal_path_cost s))
  | PARAM_MAXAGE => Some (print_u (cbs_root_max_age s))
  | PARAM_BRMAXAGE => Some (print_u (cbs_bridge_max_age s))
  | PARAM_FWDDELAY => Some (print_u (cbs_root_forward_delay s))
  | PARAM_BRFWDDELAY => Some (print_u (cbs_bridge_forward_delay s))
  | PARAM_TXHOLDCNT => Some (print_u (cbs_tx_hold_count s))
  | PARAM_MAXHOPS => Some (print_u (cbs_max_hops s))
  | PARAM_BRHELLO => Some (print_u (cbs_bridge_hello_time s))
  | PARAM_BRAGEING => Some (print_u (cbs_Ageing_Time s))
  | PARAM_FORCEPROTVERS => Some (PROTO_VERS_STR (cbs_protocol_version s))
  | PARAM_TOPCHNGTIME => Some (print_u (cbs_time_since_topology_change s))
  | PARAM_TOPCHNGCNT => Some (print_u (cbs_topology_change_count s))
  | PARAM_TOPCHNGSTATE => Some (BOOL_STR (cbs_topology_change s))
  | _ => None
  end.

(** ["%s (#%u)"] *)
Definition root_port_text (name : list Z) (portno : Z) : list Z :=
  name ++ chars " (#" ++ print_u portno ++ chars ")".

Definition showbridge_text (s : CIST_BridgeStatus) (br_name root_port_name : list Z) : list Z :=
  let root_portno := GET_NUM_FROM_PRIO (cbs_root_port_id s) in
  line (br_name ++ chars " CIST info") ++
  line (chars "  stp enabled     " ++ BOOL_STR (cbs_stp_enabled s)) ++
  line (chars "  enabled         " ++ BOOL_STR (cbs_enabled s)) ++
  line (chars "  bridge id       " ++ BR_ID (cbs_bridge_id s)) ++
  line (chars "  designated root " ++ BR_ID (cbs_designated_root s)) ++
  line (chars "  regional root   " ++ BR_ID (cbs_regional_root s)) ++
  line (chars "  root port       " ++
        (if root_portno =? 0 then chars "none" else root_port_text root_port_name root_portno)) ++
  line (chars "  path cost     " ++ pad 10 (print_u (cbs_root_path_cost s)) ++
        chars " internal path cost   " ++ print_u (cbs_internal_path_cost s)) ++
  line (chars "  max age       " ++ pad 10 (print_u (cbs_root_max_age s)) ++
        chars " bridge max age       " ++ print_u (cbs_bridge_max_age s)) ++
  line (chars "  forward delay " ++ pad 10 (print_u (cbs_root_forward_delay s)) ++
        chars " bridge forward delay " ++ print_u (cbs_bridge_forward_delay s)) ++
  line (chars "  tx hold count " ++ pad 10 (print_u (cbs_tx_hold_count s)) ++
        chars " max hops             " ++ print_u (cbs_max_hops s)) ++
  line (chars "  hello time    " ++ pad 10 (print_u (cbs_bridge_hello_time s)) ++
        chars " ageing time          " ++ print_u (cbs_Ageing_Time s)) ++
  line (chars "  force protocol version     " ++ PROTO_VERS_STR (cbs_protocol_version s)) ++
  line (chars "  time since topology change " ++ print_u (cbs_time_since_topology_change s)) ++
  line (chars "  topology change count      " ++ print_u (cbs_topology_change_count s)) ++
  line (chars "  topology change            " ++ BOOL_STR (cbs_topology_change s)) ++
  line (chars "  topology change port       " ++ chars (cbs_topology_change_port s)) ++
  line (chars "  last topology change port  " ++ chars (cbs_last_topology_change_port s)).

(** The text and the result, -2 for an unknown parameter. *)
Definition printed : Type := list Z * Z.

Definition do_showbridge_fmt_plain (s : CIST_BridgeStatus) (br_name root_port_name : list Z)
    (param_id : param_id_t) : printed :=
  match param_id with
  | PARAM_NULL => (showbridge_text s br_name root_port_name, 0)
  | _ => match bridge_param s root_port_name param_id with
         | Some v => (line v, 0)
         | None => ([], -2)
         end
  end.

Definition showbridge_json (s : CIST_BridgeStatus) (br_name root_port_name : list Z) : list Z :=
  let root_portno := GET_NUM_FROM_PRIO (cbs_root_port_id s) in
  json_object
    [(chars "bridge", br_name);
     (chars "stp-enabled", BOOL_STR (cbs_stp_enabled s));
     (chars "enabled", BOOL_STR (cbs_enabled s));
     (chars "bridge-id", BR_ID (cbs_bridge_id s));
     (chars "designated-root", BR_ID (cbs_designated_root s));
     (chars "regional-root", BR_ID (cbs_regional_root s));
     (chars "root-port",
      if root_portno =? 0 then [] else root_port_text root_port_name root_portno);
     (chars "path-cost", print_u (cbs_root_path_cost s));
     (chars "internal-path-cost", print_u (cbs_internal_path_cost s));
     (chars "max-age", print_u (cbs_root_max_age s));
     (chars "bridge-max-age", print_u (cbs_bridge_max_age s));
     (chars "forward-delay", print_u (cbs_root_forward_delay s));
     (chars "bridge-forward-delay", print_u (cbs_bridge_forward_delay s));
     (chars "tx-hold-count", print_u (cbs_tx_hold_count s));
     (chars "max-hops", print_u (cbs_max_hops s));
     (chars "hello-time", print_u (cbs_bridge_hello_time s));
     (chars "ageing-time", print_u (cbs_Ageing_Time s));
     (chars "force-protocol-version", PROTO_VERS_STR (cbs_protocol_version s));
     (chars "time-since-topology-change", print_u (cbs_time_since_topology_change s));
     (chars "topology-change-count", print_u (cbs_topology_change_count s));
     (chars "topology-change", BOOL_STR (cbs_topology_change s));
     (chars "topology-change-port", chars (cbs_topology_change_port s));
     (chars "last-topology-change-port", chars (cbs_last_topology_change_port s))].

(** One parameter in JSON: the plain text between quotes. *)
Definition between_quotes (p : printed) : printed := (quoted p.1, p.2).

Definition do_showbridge_fmt_json (s : CIST_BridgeStatus) (br_name root_port_name : list Z)
    (param_id : param_id_t) : printed :=
  match param_id with
  | PARAM_NULL => (showbridge_json s br_name root_port_name, 0)
  | PARAM_STPENABLED | PARAM_ENABLED | PARAM_BRID | PARAM_DSGNROOT | PARAM_REGNROOT
  | PARAM_ROOTPORT | PARAM_PATHCOST | PARAM_INTPATHCOST | PARAM_MAXAGE | PARAM_BRMAXAGE
  | PARAM_FWDDELAY | PARAM_BRFWDDELAY | PARAM_TXHOLDCNT | PARAM_MAXHOPS | PARAM_BRHELLO
  | PARAM_BRAGEING | PARAM_FORCEPROTVERS | PARAM_TOPCHNGTIME | PARAM_TOPCHNGCNT
  | PARAM_TOPCHNGSTATE =>
      between_quotes (do_showbridge_fmt_plain s br_name root_port_name param_id)
  | _ => ([], -2)
  end.

(** ** showtree *)

Definition do_showtree_fmt_plain (s : MSTI_BridgeStatus) (br_name : list Z) (mstid : Z)
    (root_port_name : list Z) : printed :=
  let root_portno := GET_NUM_FROM_PRIO (mbs_root_port_id s) in
  (line (br_name ++ chars " MSTI " ++ print_u (u16 mstid) ++ chars " info") ++
   line (chars "  bridge id          " ++ BR_ID (mbs_bridge_id s)) ++
   line (chars "  regional root      " ++ BR_ID (mbs_regional_root s)) ++
   line (chars "  root port          " ++
         (if root_portno =? 0 then chars "none" else root_port_text root_port_name root_portno)) ++
   line (chars "  internal path cost " ++ print_u (mbs_internal_path_cost s)) ++
   line (chars "  time since topology change " ++ print_u (mbs_time_since_topology_change s)) ++
   line (chars "  topology change count      " ++ print_u (mbs_topology_change_count s)) ++
   line (chars "  topology change            " ++ BOOL_STR (mbs_topology_change s)) ++
   line (chars "  topology change port       " ++ chars (mbs_topology_change_port s)) ++
   line (chars "  last topology change port  " ++ chars (mbs_last_topology_change_port s)), 0).

Definition do_showtree_fmt_json (s : MSTI_BridgeStatus) (br_name : list Z) (mstid : Z)
    (root_port_name : list Z) : printed :=
  let root_portno := GET_NUM_FROM_PRIO (mbs_root_port_id s) in
  (json_object
    [(chars "bridge", br_name);
     (chars "mstid", print_u (u16 mstid));
     (chars "bridge-id", BR_ID (mbs_bridge_id s));
     (chars "regional-root", BR_ID (mbs_regional_root s));
     (chars "root-port",
      if root_portno =? 0 then chars "none" else root_port_text root_port_name root_portno);
     (chars "internal-path-cost", print_u (mbs_internal_path_cost s));
     (chars "time-since-topology-change", print_u (mbs_time_since_topology_change s));
     (chars "topology-change-count", print_u (mbs_topology_change_count s));
     (chars "topology-change", BOOL_STR (mbs_topology_change s));
     (chars "topology-change-port", chars (mbs_topology_change_port s));
     (chars "last-topology-change-port", chars (mbs_last_topology_change_port s))], 0).

(** ** showport *)

Definition port_param (s : CIST_PortStatus) (p : param_id_t) : option (list Z) :=
  match p with
  | PARAM_ENABLED => Some (BOOL_STR (cps_enabled s))
  | PARAM_ROLE => Some (ROLE_STR (cps_role s))
  | PARAM_STATE => Some (STATE_STR (cps_state s))
  | PARAM_PORTID => Some (PRT_ID (cps_port_id s))
  | PARAM_EXTPORTCOST => Some (print_u (cps_external_port_path_cost s))
  | PARAM_ADMINEXTCOST => Some (print_u (cps_admin_external_port_path_cost s))
  | PARAM_INTPORTCOST => Some (print_u (cps_internal_port_path_cost s))
  | PARAM_ADMININTCOST => Some (print_u (cps_admin_internal_port_path_cost s))
  | PARAM_DSGNROOT => Some (BR_ID (cps_designated_root s))
  | PARAM_DSGNEXTCOST => Some (print_u (cps_designated_external_cost s))
  | PARAM_DSGNRROOT => Some (BR_ID (cps_designated_regional_root s))
  | PARAM_DSGNINTCOST => Some (print_u (cps_designated_internal_cost s))
  | PARAM_DSGNBR => Some (BR_ID (cps_designated_bridge s))
  | PARAM_DSGNPORT => Some (PRT_ID (cps_designated_port s))
  | PARAM_ADMINEDGEPORT => Some (BOOL_STR (cps_admin_edge_port s))
  | PARAM_AUTOEDGEPORT => Some (BOOL_STR (cps_auto_edge_port s))
  | PARAM_OPEREDGEPORT => Some (BOOL_STR (cps_oper_edge_port s))
  | PARAM_TOPCHNGACK => Some (BOOL_STR (cps_tc_ack s))
  | PARAM_P2P => Some (BOOL_STR (cps_oper_p2p s))
  | PARAM_ADMINP2P => Some (ADMIN_P2P_STR (cps_admin_p2p s))
  | PARAM_RESTRROLE => Some (BOOL_STR (cps_restricted_role s))
  | PARAM_RESTRTCN => Some (BOOL_STR (cps_restricted_tcn s))
  | PARAM_PORTHELLOTIME => Some (print_u (cps_port_hello_time s))
  | PARAM_DISPUTED => Some (BOOL_STR (cps_disputed s))
  | PARAM_BPDUGUARDPORT => Some (BOOL_STR (cps_bpdu_guard_port s))
  | PARAM_BPDUGUARDERROR => Some (BOOL_STR (cps_bpdu_guard_error s))
  | PARAM_BPDUFILTERPORT => Some (BOOL_STR (cps_bpdu_filter_port s))
  | PARAM_NETWORKPORT => Some (BOOL_STR (cps_network_port s))
  | PARAM_BA_INCONSISTENT => Some (BOOL_STR (cps_ba_inconsistent s))
  | PARAM_NUMTXBPDU => Some (print_u (cps_num_tx_bpdu s))
  | PARAM_NUMRXBPDU => Some (print_u (cps_num_rx_bpdu s))
  | PARAM_NUMTXTCN => Some (print_u (cps_num_tx_tcn s))
  | PARAM_NUMRXTCN => Some (print_u (cps_num_rx_tcn s))
  | PARAM_NUMTRANSFWD => Some (print_u (cps_num_trans_fwd s))
  | PARAM_NUMTRANSBLK => Some (print_u (cps_num_trans_blk s))
  | PARAM_NUMBPDUFILTERED => Some (print_u (cps_num_rx_bpdu_filtered s))
  | PARAM_RCVDBPDU => Some (BOOL_STR (cps_rcvdBpdu s))
  | PARAM_RCVDSTP => Some (BOOL_STR (cps_rcvdSTP s))
  | PARAM_RCVDRSTP => Some (BOOL_STR (cps_rcvdRSTP s))
  | PARAM_SENDRSTP => Some (BOOL_STR (cps_sendRSTP s))
  | PARAM_RCVDTCACK => Some (BOOL_STR (cps_rcvdTcAck s))
  | PARAM_RCVDTCN => Some (BOOL_STR (cps_rcvdTcn s))
  | _ => None
  end.

(** A line with two columns. *)
Definition columns (label1 : string) (v1 : list Z) (label2 : string) (v2 : list Z) : list Z :=
  line (chars label1 ++ pad 23 v1 ++ [32] ++ chars label2 ++ v2).

(** The first column is not padded: the identifiers have a fixed width. *)
Definition id_columns (label1 : string) (v1 : list Z) (gap : nat) (label2 : string)
    (v2 : list Z) : list Z :=
  line (chars label1 ++ v1 ++ replicate gap 32 ++ chars label2 ++ v2).

Definition showport_detail_text (s : CIST_PortStatus) (bridge_name port_name : list Z) : list Z :=
  line (bridge_name ++ [58] ++ port_name ++ chars " CIST info") ++
  columns "  enabled            " (BOOL_STR (cps_enabled s))
          "role                 " (ROLE_STR (cps_role s)) ++
  id_columns "  port id            " (PRT_ID (cps_port_id s)) 19
          "state                " (STATE_STR (cps_state s)) ++
  columns "  external port cost " (print_u (cps_external_port_path_cost s))
          "admin external cost  " (print_u (cps_admin_external_port_path_cost s)) ++
  columns "  internal port cost " (print_u (cps_internal_port_path_cost s))
          "admin internal cost  " (print_u (cps_admin_internal_port_path_cost s)) ++
  id_columns "  designated root    " (BR_ID (cps_designated_root s)) 1
          "dsgn external cost   " (print_u (cps_designated_external_cost s)) ++
  id_columns "  dsgn regional root " (BR_ID (cps_designated_regional_root s)) 1
          "dsgn internal cost   " (print_u (cps_designated_internal_cost s)) ++
  id_columns "  designated bridge  " (BR_ID (cps_designated_bridge s)) 1
          "designated port      " (PRT_ID (cps_designated_port s)) ++
  columns "  admin edge port    " (BOOL_STR (cps_admin_edge_port s))
          "auto edge port       " (BOOL_STR (cps_auto_edge_port s)) ++
  columns "  oper edge port     " (BOOL_STR (cps_oper_edge_port s))
          "topology change ack  " (BOOL_STR (cps_tc_ack s)) ++
  columns "  point-to-point     " (BOOL_STR (cps_oper_p2p s))
          "admin point-to-point " (ADMIN_P2P_STR (cps_admin_p2p s)) ++
  columns "  restricted role    " (BOOL_STR (cps_restricted_role s))
          "restricted TCN       " (BOOL_STR (cps_restricted_tcn s)) ++
  columns "  port hello time    " (print_u (cps_port_hello_time s))
          "disputed             " (BOOL_STR (cps_disputed s)) ++
  columns "  bpdu guard port    " (BOOL_STR (cps_bpdu_guard_port s))
          "bpdu guard error     " (BOOL_STR (cps_bpdu_guard_error s)) ++
  columns "  network port       " (BOOL_STR (cps_network_port s))
          "BA inconsistent      " (BOOL_STR (cps_ba_inconsistent s)) ++
  columns "  bpdu filter port   " (BOOL_STR (cps_bpdu_filter_port s))
          "Num RX BPDU Filtered " (print_u (cps_num_rx_bpdu_filtered s)) ++
  columns "  Num TX BPDU        " (print_u (cps_num_tx_bpdu s))
          "Num TX TCN           " (print_u (cps_num_tx_tcn s)) ++
  columns "  Num RX BPDU        " (print_u (cps_num_rx_bpdu s))
          "Num RX TCN           " (print_u (cps_num_rx_tcn s)) ++
  columns "  Num Transition FWD " (print_u (cps_num_trans_fwd s))
          "Num Transition BLK   " (print_u (cps_num_trans_blk s)) ++
  columns "  Rcvd BPDU          " (BOOL_STR (cps_rcvdBpdu s))
          "Rcvd STP             " (BOOL_STR (cps_rcvdSTP s)) ++
  columns "  Rcvd RSTP          " (BOOL_STR (cps_rcvdRSTP s))
          "Send RSTP            " (BOOL_STR (cps_sendRSTP s)) ++
  columns "  Rcvd TC Ack        " (BOOL_STR (cps_rcvdTcAck s))
          "Rcvd TCN             " (BOOL_STR (cps_rcvdTcn s)).

Definition showport_brief_text (s : CIST_PortStatus) (port_name : list Z) : list Z :=
  line ([if cps_oper_p2p s then 32 else 42; if cps_oper_edge_port s then 69 else 32; 32] ++
        pad 5 port_name ++ [32] ++ PRT_ID (cps_port_id s) ++ [32] ++
        pad_left 4 (if cps_enabled s then SHORT_STATE_STR (cps_state s) else chars "down") ++
        [32] ++ BR_ID (cps_designated_root s) ++ [32] ++ BR_ID (cps_designated_bridge s) ++
        [32] ++ PRT_ID (cps_designated_port s) ++ [32] ++ SHORT_ROLE_STR (cps_role s)).

Definition do_showport_fmt_plain (detail : bool) (s : CIST_PortStatus)
    (bridge_name port_name : list Z) (param_id : param_id_t) : printed :=
  match param_id with
  | PARAM_NULL =>
      (if detail then showport_detail_text s bridge_name port_name
       else showport_brief_text s port_name, 0)
  | _ => match port_param s param_id with
         | Some v => (line v, 0)
         | None => ([], -2)
         end
  end.

Definition showport_detail_json (s : CIST_PortStatus) (bridge_name port_name : list Z) : list Z :=
  json_object
    [(chars "port", port_name); (chars "bridge", bridge_name);
     (chars "enabled", BOOL_STR (cps_enabled s)); (chars "role", ROLE_STR (cps_role s));
     (chars "port-id", PRT_ID (cps_port_id s)); (chars "state", STATE_STR (cps_state s));
     (chars "external-port-cost", print_u (cps_external_port_path_cost s));
     (chars "internal-port-cost", print_u (cps_internal_port_path_cost s));
     (chars "admin-external-cost", print_u (cps_admin_external_port_path_cost s));
     (chars "admin-internal-cost", print_u (cps_admin_internal_port_path_cost s));
     (chars "designated-root", BR_ID (cps_designated_root s));
     (chars "dsgn-external-cost", print_u (cps_designated_external_cost s));
     (chars "dsgn-regional-root", BR_ID (cps_designated_regional_root s));
     (chars "dsgn-internal-cost", print_u (cps_designated_internal_cost s));
     (chars "designated-bridge", BR_ID (cps_designated_bridge s));
     (chars "designated-port", PRT_ID (cps_designated_port s));
     (chars "admin-edge-port", BOOL_STR (cps_admin_edge_port s));
     (chars "auto-edge-port", BOOL_STR (cps_auto_edge_port s));
     (chars "oper-edge-port", BOOL_STR (cps_oper_edge_port s));
     (chars "topology-change-ack", BOOL_STR (cps_tc_ack s));
     (chars "point-to-point", BOOL_STR (cps_oper_p2p s));
     (chars "admin-point-to-point", ADMIN_P2P_STR (cps_admin_p2p s));
     (chars "restricted-role", BOOL_STR (cps_restricted_role s));
     (chars "restricted-TCN", BOOL_STR (cps_restricted_tcn s));
     (chars "port-hello-time", print_u (cps_port_hello_time s));
     (chars "disputed", BOOL_STR (cps_disputed s));
     (chars "bpdu-guard-port", BOOL_STR (cps_bpdu_guard_port s));
     (chars "bpdu-guard-error", BOOL_STR (cps_bpdu_guard_error s));
     (chars "bpdu-filter-port", BOOL_STR (cps_bpdu_filter_port s));
     (chars "network-port", BOOL_STR (cps_network_port s));
     (chars "ba-inconsistent", BOOL_STR (cps_ba_inconsistent s));
     (chars "num-tx-bpdu", print_u (cps_num_tx_bpdu s));
     (chars "num-rx-bpdu", print_u (cps_num_rx_bpdu s));
     (chars "num-rx-bpdu-filtered", print_u (cps_num_rx_bpdu_filtered s));
     (chars "num-tx-tcn", print_u (cps_num_tx_tcn s));
     (chars "num-rx-tcn", print_u (cps_num_rx_tcn s));
     (chars "num-transition-fwd", print_u (cps_num_trans_fwd s));
     (chars "num-transition-blk", print_u (cps_num_trans_blk s));
     (chars "received-bpdu", BOOL_STR (cps_rcvdBpdu s));
     (chars "received-stp", BOOL_STR (cps_rcvdSTP s));
     (chars "received-rstp", BOOL_STR (cps_rcvdRSTP s));
     (chars "received-tc-ack", BOOL_STR (cps_rcvdTcAck s));
     (chars "received-tcn", BOOL_STR (cps_rcvdTcn s));
     (chars "send-rstp", BOOL_STR (cps_sendRSTP s))].

Definition showport_brief_json (s : CIST_PortStatus) (bridge_name port_name : list Z) : list Z :=
  json_object
    [(chars "port", port_name); (chars "bridge", bridge_name);
     (chars "point-to-point", BOOL_STR (cps_oper_p2p s));
     (chars "oper-edge-port", BOOL_STR (cps_oper_edge_port s));
     (chars "port-id", PRT_ID (cps_port_id s));
     (chars "enabled", BOOL_STR (cps_enabled s)); (chars "state", STATE_STR (cps_state s));
     (chars "role", ROLE_STR (cps_role s));
     (chars "designated-bridge", BR_ID (cps_designated_bridge s));
     (chars "designated-port", PRT_ID (cps_designated_port s));
     (chars "designated-root", BR_ID (cps_designated_root s))].

Definition do_showport_fmt_json (detail : bool) (s : CIST_PortStatus)
    (bridge_name port_name : list Z) (param_id : param_id_t) : printed :=
  match param_id with
  | PARAM_NULL =>
      (if detail then showport_detail_json s bridge_name port_name
       else showport_brief_json s bridge_name port_name, 0)
  | PARAM_ENABLED | PARAM_ROLE | PARAM_STATE | PARAM_PORTID | PARAM_EXTPORTCOST
  | PARAM_ADMINEXTCOST | PARAM_INTPORTCOST | PARAM_ADMININTCOST | PARAM_DSGNROOT
  | PARAM_DSGNEXTCOST | PARAM_DSGNRROOT | PARAM_DSGNINTCOST | PARAM_DSGNBR | PARAM_DSGNPORT
  | PARAM_ADMINEDGEPORT | PARAM_AUTOEDGEPORT | PARAM_OPEREDGEPORT | PARAM_TOPCHNGACK
  | PARAM_P2P | PARAM_ADMINP2P | PARAM_RESTRROLE | PARAM_RESTRTCN | PARAM_PORTHELLOTIME
  | PARAM_DISPUTED | PARAM_BPDUGUARDPORT | PARAM_BPDUGUARDERROR | PARAM_NETWORKPORT
  | PARAM_BA_INCONSISTENT | PARAM_NUMTXBPDU | PARAM_NUMRXBPDU | PARAM_NUMTXTCN
  | PARAM_NUMRXTCN | PARAM_NUMTRANSFWD | PARAM_NUMTRANSBLK | PARAM_NUMBPDUFILTERED
  | PARAM_RCVDBPDU | PARAM_RCVDSTP | PARAM_RCVDRSTP | PARAM_SENDRSTP | PARAM_RCVDTCACK
  | PARAM_RCVDTCN =>
      between_quotes (do_showport_fmt_plain detail s bridge_name port_name param_id)
  | _ => ([], -2)
  end.

(** ** showtreeport *)

Definition do_showtreeport_fmt_plain (s : MSTI_PortStatus) (br_name port_name : list Z)
    (mstid : Z) : printed :=
  (line (br_name ++ [58] ++ port_name ++ chars " MSTI " ++ print_u (u16 mstid) ++ chars " info") ++
   columns "  role               " (ROLE_STR (mps_role s))
           "port id              " (PRT_ID (mps_port_id s)) ++
   columns "  state              " (STATE_STR (mps_state s))
           "disputed             " (BOOL_STR (mps_disputed s)) ++
   columns "  internal port cost " (print_u (mps_internal_port_path_cost s))
           "admin internal cost  " (print_u (mps_admin_internal_port_path_cost s)) ++
   id_columns "  dsgn regional root " (BR_ID (mps_designated_regional_root s)) 1
           "dsgn internal cost   " (print_u (mps_designated_internal_cost s)) ++
   id_columns "  designated bridge  " (BR_ID (mps_designated_bridge s)) 1
           "designated port      " (PRT_ID (mps_designated_port s)), 0).

Definition do_showtreeport_fmt_json (s : MSTI_PortStatus) (br_name port_name : list Z)
    (mstid : Z) : printed :=
  (json_object
    [(chars "port", port_name); (chars "bridge", br_name); (chars "mstid", print_u (u16 mstid));
     (chars "role", ROLE_STR (mps_role s)); (chars "port-id", PRT_ID (mps_port_id s));
     (chars "state", STATE_STR (mps_state s)); (chars "disputed", BOOL_STR (mps_disputed s));
     (chars "internal-port-cost", print_u (mps_internal_port_path_cost s));
     (chars "admin-internal-cost", print_u (mps_admin_internal_port_path_cost s));
     (chars "dsgn-regional-root", BR_ID (mps_designated_regional_root s));
     (chars "dsgn-internal-cost", print_u (mps_designated_internal_cost s));
     (chars "designated-bridge", BR_ID (mps_designated_bridge s));
     (chars "designated-port", PRT_ID (mps_designated_port s))], 0).

(** ** showmstilist and showmstconfid *)

Definition do_showmstilist_fmt_plain (br_name mstids : list Z) : printed :=
  (line (br_name ++ chars " list of known MSTIs:") ++
   line (concat (map (λ m, 32 :: print_u m) mstids)), 0).

Definition do_showmstilist_fmt_json (br_name mstids : list Z) : printed :=
  (123 :: json_field (chars "bridge", br_name) ++ 44 :: quoted (chars "mstids") ++
   [58; 91] ++ commas (map (λ m, quoted (print_u m)) mstids) ++ [93; 125], 0).

(** ["%.*s"] of the name, and the digest in hexadecimal. *)
Definition confid_name (cfgid : mst_configuration_identifier_t) : list Z :=
  until_nul (take CONFIGURATION_NAME_LEN (configuration_name cfgid)).
Definition confid_digest (cfgid : mst_configuration_identifier_t) : list Z :=
  concat (map (print_X 2) (configuration_digest cfgid)).

Definition do_showmstconfid_fmt_plain (cfgid : mst_configuration_identifier_t)
    (br_name : list Z) : printed :=
  (line (br_name ++ chars " MST Configuration Identifier:") ++
   line (chars "  Format Selector:      " ++ print_u (selector cfgid)) ++
   line (chars "  Configuration Name:   " ++ confid_name cfgid) ++
   line (chars "  Revision Level:       " ++ print_u (revision_level cfgid)) ++
   line (chars "  Configuration Digest: " ++ confid_digest cfgid), 0).

Definition do_showmstconfid_fmt_json (cfgid : mst_configuration_identifier_t)
    (br_name : list Z) : printed :=
  (json_object
    [(chars "bridge", br_name); (chars "format-selector", print_u (selector cfgid));
     (chars "configuration-name", confid_name cfgid);
     (chars "revision-level", print_u (revision_level cfgid));
     (chars "configuration-digest", confid_digest cfgid)], 0).
