(* ===== verification/Json.v ===== *)
(** * The JSON output of the client

    A reader of JSON objects whose values are strings without escapes, and what it finds
    in the output of the client. *)
From S2P Require Import Prelude Types Clib Kernel Mgmt.
From S2P Require Import Tables Show.

(** ** A reader *)

(** The text before the next quote, without escapes, and what follows the quote. *)
Fixpoint read_string (s : list Z) : option (list Z * list Z) :=
  match s with
  | [] => None
  | c :: s =>
      if c =? 34 then Some ([], s) else if c =? 92 then None else
      '(a, rest) ← read_string s; Some (c :: a, rest)
  end.

(** A string in its quotes. *)
Definition read_quoted (s : list Z) : option (list Z * list Z) :=
  match s with c :: s => if c =? 34 then read_string s else None | [] => None end.

Definition expect (c : Z) (s : list Z) : option (list Z) :=
  match s with x :: s => if x =? c then Some s else None | [] => None end.

Definition read_field (s : list Z) : option ((list Z * list Z) * list Z) :=
  '(name, s) ← read_quoted s; s ← expect 58 s; '(value, s) ← read_quoted s; Some ((name, value), s).

Fixpoint read_fields (fuel : nat) (s : list Z) : option (list (list Z * list Z)) :=
  match fuel with
  | O => None
  | S fuel =>
      '(f, s) ← read_field s;
      match s with
      | 125 :: [] => Some [f]
      | 44 :: s => l ← read_fields fuel s; Some (f :: l)
      | _ => None
      end
  end.

Definition read_object (s : list Z) : option (list (list Z * list Z)) :=
  s ← expect 123 s; read_fields (length s) s.

(** ** What is written can be read *)

Definition clean (s : list Z) : Prop := Forall (λ c, c ≠ 34 ∧ c ≠ 92) s.

Lemma read_string_clean s rest : clean s → read_string (s ++ 34 :: rest) = Some (s, rest).
Proof.
  induction 1 as [|c s [H1 H2] _ IH]; [done|]. cbn.
  by rewrite (proj2 (Z.eqb_neq c 34) H1), (proj2 (Z.eqb_neq c 92) H2), IH.
Qed.

Lemma read_quoted_clean s rest : clean s → read_quoted (quoted s ++ rest) = Some (s, rest).
Proof. intros Hs. unfold quoted. cbn. rewrite <- app_assoc. by apply read_string_clean. Qed.

Definition clean_field (f : list Z * list Z) : Prop := clean f.1 ∧ clean f.2.

Lemma read_field_clean f rest : clean_field f → read_field (json_field f ++ rest) = Some (f, rest).
Proof.
  intros [H1 H2]. destruct f as [name value]. cbn [fst snd] in *.
  unfold read_field, json_field. cbn [fst snd]. rewrite <- app_assoc, read_quoted_clean by done.
  cbn [mbind option_bind app expect]. by rewrite Z.eqb_refl; cbn [mbind option_bind];
    rewrite read_quoted_clean.
Qed.

Lemma read_fields_clean fields : ∀ fuel, Forall clean_field fields → fields ≠ [] →
  (length (commas (map json_field fields)) < fuel)%nat →
  read_fields fuel (commas (map json_field fields) ++ [125]) = Some fields.
Proof.
  induction fields as [|f fields IH]; intros fuel Hc Hn Hf; [done|]. apply Forall_cons in Hc as [Hc Hcs].
  destruct fuel as [|fuel]; [lia|]. destruct fields as [|f' fields].
  - cbn [map commas read_fields]. by rewrite read_field_clean.
  - change (commas (map json_field (f :: f' :: fields)))
      with (json_field f ++ 44 :: commas (map json_field (f' :: fields))) in *.
    rewrite length_app in Hf. cbn [length] in Hf.
    cbn [read_fields]. rewrite <- app_assoc, read_field_clean by done. cbn [mbind option_bind app].
    rewrite IH by (done || lia). done.
Qed.

Lemma read_object_clean fields : Forall clean_field fields → fields ≠ [] →
  read_object (json_object fields) = Some fields.
Proof.
  intros Hc Hn. unfold read_object, json_object. cbn [expect]. rewrite Z.eqb_refl. cbn [mbind option_bind].
  apply read_fields_clean; [done..|]. rewrite length_app. cbn. lia.
Qed.

(** ** The values the client prints *)

Lemma clean_app s t : clean s → clean t → clean (s ++ t).
Proof. intros Hs Ht. by apply Forall_app. Qed.
Lemma clean_cons c s : c ≠ 34 → c ≠ 92 → clean s → clean (c :: s).
Proof. intros H1 H2 Hs. by constructor. Qed.
Lemma clean_chars s : forallb (λ c, negb (c =? 34) && negb (c =? 92)) (chars s) = true → clean (chars s).
Proof.
  intros Hs. apply Forall_forall. intros c Hc%list_elem_of_In. rewrite forallb_forall in Hs.
  apply Hs in Hc. lia.
Qed.

Lemma clean_print_digits fuel v : ∀ acc, clean acc → clean (print_digits fuel 10 v acc).
Proof.
  revert v. induction fuel as [|fuel IH]; intros v acc Ha; [done|]. cbn [print_digits].
  assert (clean (digit_char (v mod 10) :: acc)).
  { pose proof (Z.mod_pos_bound v 10 ltac:(lia)). unfold digit_char.
    destruct (Z.ltb_spec (v mod 10) 10); [|lia]. apply clean_cons; lia || done. }
  destruct (v / 10 =? 0); [done|]. by apply IH.
Qed.
Lemma clean_print_u v : clean (print_u v).
Proof. apply clean_print_digits. constructor. Qed.

Lemma clean_print_X n v : clean (print_X n v).
Proof.
  induction n as [|n IH]; [constructor|]. cbn [print_X].
  set (d := (v / 16 ^ Z.of_nat n) mod 16). assert (0 <= d < 16) by (by apply Z.mod_pos_bound).
  unfold HEX_DIGIT. destruct (Z.ltb_spec d 10); apply clean_cons; lia || done.
Qed.

Lemma clean_PRT_ID p : clean (PRT_ID p).
Proof. apply clean_app; [apply clean_print_X|]. apply clean_cons; [done..|apply clean_print_X]. Qed.

Lemma clean_colons l : Forall clean l → clean (colons l).
Proof.
  induction 1 as [|x l Hx Hl IH]; [constructor|]. destruct l; [done|].
  apply clean_app; [done|]. by apply clean_cons.
Qed.

Lemma clean_BR_ID x : clean (BR_ID x).
Proof.
  apply clean_app; [apply clean_PRT_ID|]. apply clean_cons; [done..|]. apply clean_colons.
  apply Forall_forall. intros y (m & -> & _)%list_elem_of_fmap. apply clean_print_X.
Qed.

Lemma clean_BOOL_STR b : clean (BOOL_STR b).
Proof. destruct b; by apply clean_chars. Qed.
Lemma clean_STATE_STR s : clean (STATE_STR s).
Proof. unfold STATE_STR. repeat case_match; by apply clean_chars. Qed.
Lemma clean_ADMIN_P2P_STR s : clean (ADMIN_P2P_STR s).
Proof. unfold ADMIN_P2P_STR. repeat case_match; by apply clean_chars. Qed.
Lemma clean_ROLE_STR r : clean (ROLE_STR r).
Proof. destruct r; by apply clean_chars. Qed.

Create HintDb clean.
#[export] Hint Resolve clean_print_u clean_PRT_ID clean_BR_ID clean_BOOL_STR clean_STATE_STR
  clean_ADMIN_P2P_STR clean_ROLE_STR : clean.

Lemma clean_field_name n v : forallb (λ c, negb (c =? 34) && negb (c =? 92)) (chars n) = true →
  clean v → clean_field (chars n, v).
Proof. intros Hn Hv. split; [by apply clean_chars|done]. Qed.

(** Fields whose names are literals and whose values are known to be clean. *)
Ltac clean_fields :=
  repeat first [ apply Forall_nil_2
               | apply Forall_cons_2; [apply clean_field_name; [reflexivity|auto with clean]|] ].

(** ** The theorems *)

(** The fields of the status of a port, after its name and the bridge's. *)
Definition port_fields (s : CIST_PortStatus) : list (string * list Z) :=
    [("enabled", BOOL_STR (cps_enabled s));
     ("role", ROLE_STR (cps_role s));
     ("port-id", PRT_ID (cps_port_id s));
     ("state", STATE_STR (cps_state s));
     ("external-port-cost", print_u (cps_external_port_path_cost s));
     ("internal-port-cost", print_u (cps_internal_port_path_cost s));
     ("admin-external-cost", print_u (cps_admin_external_port_path_cost s));
     ("admin-internal-cost", print_u (cps_admin_internal_port_path_cost s));
     ("designated-root", BR_ID (cps_designated_root s));
     ("dsgn-external-cost", print_u (cps_designated_external_cost s));
     ("dsgn-regional-root", BR_ID (cps_designated_regional_root s));
     ("dsgn-internal-cost", print_u (cps_designated_internal_cost s));
     ("designated-bridge", BR_ID (cps_designated_bridge s));
     ("designated-port", PRT_ID (cps_designated_port s));
     ("admin-edge-port", BOOL_STR (cps_admin_edge_port s));
     ("auto-edge-port", BOOL_STR (cps_auto_edge_port s));
     ("oper-edge-port", BOOL_STR (cps_oper_edge_port s));
     ("topology-change-ack", BOOL_STR (cps_tc_ack s));
     ("point-to-point", BOOL_STR (cps_oper_p2p s));
     ("admin-point-to-point", ADMIN_P2P_STR (cps_admin_p2p s));
     ("restricted-role", BOOL_STR (cps_restricted_role s));
     ("restricted-TCN", BOOL_STR (cps_restricted_tcn s));
     ("port-hello-time", print_u (cps_port_hello_time s));
     ("disputed", BOOL_STR (cps_disputed s));
     ("bpdu-guard-port", BOOL_STR (cps_bpdu_guard_port s));
     ("bpdu-guard-error", BOOL_STR (cps_bpdu_guard_error s));
     ("bpdu-filter-port", BOOL_STR (cps_bpdu_filter_port s));
     ("network-port", BOOL_STR (cps_network_port s));
     ("ba-inconsistent", BOOL_STR (cps_ba_inconsistent s));
     ("num-tx-bpdu", print_u (cps_num_tx_bpdu s));
     ("num-rx-bpdu", print_u (cps_num_rx_bpdu s));
     ("num-rx-bpdu-filtered", print_u (cps_num_rx_bpdu_filtered s));
     ("num-tx-tcn", print_u (cps_num_tx_tcn s));
     ("num-rx-tcn", print_u (cps_num_rx_tcn s));
     ("num-transition-fwd", print_u (cps_num_trans_fwd s));
     ("num-transition-blk", print_u (cps_num_trans_blk s));
     ("received-bpdu", BOOL_STR (cps_rcvdBpdu s));
     ("received-stp", BOOL_STR (cps_rcvdSTP s));
     ("received-rstp", BOOL_STR (cps_rcvdRSTP s));
     ("received-tc-ack", BOOL_STR (cps_rcvdTcAck s));
     ("received-tcn", BOOL_STR (cps_rcvdTcn s));
     ("send-rstp", BOOL_STR (cps_sendRSTP s))]%string.

(** The place of a name. *)
Definition name_index (name : string) (names : list string) : nat :=
  default 0%nat (fst <$> list_find (λ n, n = name) names).

(** What the one-line output of showport tells of a port. *)
Definition brief_names : list string :=
  ["point-to-point"; "oper-edge-port"; "port-id"; "enabled"; "state"; "role"; "designated-bridge";
   "designated-port"; "designated-root"]%string.
Definition shown_fields (detail : bool) (s : CIST_PortStatus) : list (string * list Z) :=
  if detail then port_fields s else
  [("point-to-point", BOOL_STR (cps_oper_p2p s));
   ("oper-edge-port", BOOL_STR (cps_oper_edge_port s));
   ("port-id", PRT_ID (cps_port_id s));
   ("enabled", BOOL_STR (cps_enabled s));
   ("state", STATE_STR (cps_state s));
   ("role", ROLE_STR (cps_role s));
   ("designated-bridge", BR_ID (cps_designated_bridge s));
   ("designated-port", PRT_ID (cps_designated_port s));
   ("designated-root", BR_ID (cps_designated_root s))]%string.

(** The field of a name that is a literal. *)
Ltac field_of_name :=
  match goal with |- (?name, _) ∈ ?fields =>
    let l := eval cbv [shown_fields port_fields] in fields in
    let i := eval vm_compute in (name_index name (map fst l)) in
    apply (list_elem_of_lookup_2 fields i); reflexivity
  end.

Lemma showport_fields detail s br_name port_name :
  (do_showport_fmt_json detail s br_name port_name PARAM_NULL).1 =
    json_object ((chars "port", port_name) :: (chars "bridge", br_name) ::
                 map (λ f, (chars f.1, f.2)) (shown_fields detail s)).
Proof. by destruct detail. Qed.

Lemma param_shown detail s br_name port_name p name :
  (p, name) ∈ cist_port_params → detail = true ∨ name ∈ brief_names →
  ∃ v, do_showport_fmt_plain detail s br_name port_name p = (line v, 0) ∧ (name, v) ∈ shown_fields detail s.
Proof.
  intros Hin. unfold cist_port_params in Hin. destruct detail; [intros _|intros [|Hb]; [done|]].
  - repeat (apply elem_of_cons in Hin as [Hin|Hin];
      [injection Hin as -> ->; eexists; split; [reflexivity|]; field_of_name|]).
    by apply elem_of_nil in Hin.
  - repeat (apply elem_of_cons in Hin as [Hin|Hin];
      [injection Hin as -> ->;
       first [ exfalso; revert Hb; by apply (bool_decide_eq_false _)
             | eexists; split; [reflexivity|]; field_of_name ]|]).
    by apply elem_of_nil in Hin.
Qed.

(** C36: The JSON output of showport and of showportdetail, for bridge and port names without
    quotes and backslashes, is an object whose fields are distinct: the names of the port and
    of the bridge, and, under the name of a parameter of a port, the very value that is
    printed when this parameter is asked for in plain text. showportdetail has every
    parameter, showport those of [brief_names]. *)
Theorem showport_json_reads_back detail s br_name port_name :
  clean br_name → clean port_name →
  ∃ fields, read_object (do_showport_fmt_json detail s br_name port_name PARAM_NULL).1 = Some fields ∧
    NoDup (map fst fields) ∧
    (chars "port", port_name) ∈ fields ∧ (chars "bridge", br_name) ∈ fields ∧
    ∀ p name, (p, name) ∈ cist_port_params → detail = true ∨ name ∈ brief_names →
      ∃ v, do_showport_fmt_plain detail s br_name port_name p = (line v, 0) ∧ (chars name, v) ∈ fields.
Proof.
  intros Hb Hp. rewrite showport_fields. eexists. split; [|split; [|split; [|split]]].
  - apply read_object_clean; [|discriminate].
    apply Forall_cons_2; [by apply clean_field_name|]. apply Forall_cons_2; [by apply clean_field_name|].
    unfold shown_fields, port_fields. destruct detail; cbn [map fst snd]; clean_fields.
  - destruct detail; cbn [map fst snd shown_fields port_fields]; apply (bool_decide_unpack _); vm_compute; reflexivity.
  - by left.
  - right. by left.
  - intros p name Hin Hd. destruct (param_shown detail s br_name port_name p name Hin Hd) as (v & Hv & Hf).
    exists v. split; [done|]. do 2 right. exact (list_elem_of_fmap_2 (λ f, (chars f.1, f.2)) _ _ Hf).
Qed.


(** A name of 19 characters that sets a revision level. *)
Definition forging_id : mst_configuration_identifier_t := {|
  selector := 0;
  configuration_name := chars "x" ++ [34; 44; 34] ++ chars "revision-level" ++ [34; 58; 34] ++ chars "9" ++
                        replicate 10 0;
  revision_level := 0;
  configuration_digest := replicate 16 0
|}.
