(* ===== verification/Commands.v ===== *)
(** * The commands of the client (src/ctl_main.c)

    The functions behind the command table, the table itself, and the batch mode.
    Messages on the standard error stream are left out. *)
From S2P Require Import Prelude Types Monad Md5 Outputs Procs Bridge Mgmt Clib Kernel Track Control.
From S2P Require Import Tables Client Show.

Section commands.
Context (K : kernel) (A : abi) (B : client_abi) (H : host) (uid : Z).

Notation get_index := (get_index H).
Notation request := (request K A B H uid).
Notation client_side_function := (client_side_function K A B H uid).
Notation bridges_request := (bridges_request K A B H uid).

(** [int br_index = get_index(argv[1], "bridge"); if(0 > br_index) return br_index;] *)
Definition with_bridge (argv : list (list Z)) (f : Z → C Z) : C Z :=
  name ← arg 1 argv;
  br_index ← get_index name;
  if br_index <? 0 then mret br_index else f br_index.

Definition with_port (argv : list (list Z)) (f : Z → Z → C Z) : C Z :=
  with_bridge argv (λ br_index,
    name ← arg 2 argv;
    port_index ← get_index name;
    if port_index <? 0 then mret port_index else f br_index port_index).

(** [int mstid = get_id(argv[i], "mstid", MAX_MSTID); if(0 > mstid) return mstid;] *)
Definition with_mstid (i : nat) (argv : list (list Z)) (f : Z → C Z) : C Z :=
  s ← arg i argv;
  let mstid := get_id s MAX_MSTID in
  if mstid <? 0 then mret mstid else f mstid.

Definition uint_arg (i : nat) (argv : list (list Z)) : C Z := s ← arg i argv; getuint s.

(** [if(x > 255) x = 255;] *)
Definition at_most_255 (x : Z) : Z := if 255 <? x then 255 else x.

(** *** Bridges *)

(** The indexes of the bridges named by the arguments. *)
Fixpoint get_indexes (names : list (list Z)) : C (list Z) :=
  match names with
  | [] => mret []
  | n :: names => i ← get_index n; l ← get_indexes names; mret (i :: l)
  end.

Definition bridges_command (cmd : Z) (argv : list (list Z)) : C Z :=
  let brcount := Z.of_nat (length argv) - 1 in
  ok ← hostcall (malloc_ok H);
  if negb ok then mret (-1) else
  l ← get_indexes (drop 1 argv);
  bridges_request cmd (brcount :: l).

Definition cmd_addbridge : list (list Z) → C Z := bridges_command CMD_CODE_add_bridges.
Definition cmd_delbridge : list (list Z) → C Z := bridges_command CMD_CODE_del_bridges.

Definition cmd_setmstconfid (argv : list (list Z)) : C Z :=
  with_bridge argv (λ br_index,
    revision ← uint_arg 2 argv;
    if 0xFFFF <? revision then mret (-1) else
    name ← arg 3 argv;
    request set_mstconfid (br_index, u16 revision, strncpy_pad CONFIGURATION_NAME_LEN name)).

(** set_bridge_cfg(field, value): a structure with that field only. *)
Definition no_bridge_cfg : CIST_BridgeConfig :=
  mk_CIST_BridgeConfig None None None None None None None.

(** The field's name after "Couldn't change bridge " and the like. *)
Definition couldnt_change (what : string) : list Z :=
  chars "Couldn't change " ++ chars what ++ [NEWLINE].

Definition set_bridge_cfg (br_index : Z) (field : string) (c : CIST_BridgeConfig) : C Z :=
  r ← request set_cist_bridge_config (br_index, c);
  (if r ≠? 0 then printf (couldnt_change ("bridge " ++ field)) else mret tt) ;;
  mret r.

Definition cmd_setbridgemaxage (argv : list (list Z)) : C Z :=
  with_bridge argv (λ br_index,
    max_age ← uint_arg 2 argv;
    set_bridge_cfg br_index "bridge_max_age"
      (mk_CIST_BridgeConfig (Some (u8 (at_most_255 max_age))) None None None None None None)).

Definition cmd_setbridgehello (argv : list (list Z)) : C Z :=
  with_bridge argv (λ br_index,
    hello_time ← uint_arg 2 argv;
    set_bridge_cfg br_index "bridge_hello_time"
      (mk_CIST_BridgeConfig None None None None None (Some (u8 (at_most_255 hello_time))) None)).

Definition cmd_setbridgefdelay (argv : list (list Z)) : C Z :=
  with_bridge argv (λ br_index,
    forward_delay ← uint_arg 2 argv;
    set_bridge_cfg br_index "bridge_forward_delay"
      (mk_CIST_BridgeConfig None (Some (u8 (at_most_255 forward_delay))) None None None None None)).

Definition cmd_setbridgemaxhops (argv : list (list Z)) : C Z :=
  with_bridge argv (λ br_index,
    max_hops ← uint_arg 2 argv;
    set_bridge_cfg br_index "max_hops"
      (mk_CIST_BridgeConfig None None None None (Some (u8 (at_most_255 max_hops))) None None)).

Definition cmd_setbridgeforcevers (argv : list (list Z)) : C Z :=
  with_bridge argv (λ br_index,
    s ← arg 2 argv;
    i ← getenum s [chars "stp"; chars "rstp"; chars "mstp"];
    v ← of_array ([protoSTP; protoRSTP; protoMSTP] !! Z.to_nat i);
    set_bridge_cfg br_index "protocol_version"
      (mk_CIST_BridgeConfig None None (Some v) None None None None)).

Definition cmd_setbridgetxholdcount (argv : list (list Z)) : C Z :=
  with_bridge argv (λ br_index,
    v ← uint_arg 2 argv;
    set_bridge_cfg br_index "tx_hold_count"
      (mk_CIST_BridgeConfig None None None (Some v) None None None)).

Definition cmd_setbridgeageing (argv : list (list Z)) : C Z :=
  with_bridge argv (λ br_index,
    v ← uint_arg 2 argv;
    set_bridge_cfg br_index "bridge_ageing_time"
      (mk_CIST_BridgeConfig None None None None None None (Some v))).

Definition cmd_settreeprio (argv : list (list Z)) : C Z :=
  with_bridge argv (λ br_index,
    with_mstid 2 argv (λ mstid,
      prio ← uint_arg 3 argv;
      request set_msti_bridge_config (br_index, u16 mstid, u8 (at_most_255 prio)))).

(** *** Ports *)

Definition set_port_cfg (br_index port_index : Z) (field : string) (c : CIST_PortConfig) : C Z :=
  r ← request set_cist_port_config (br_index, port_index, c);
  (if r ≠? 0 then printf (couldnt_change ("port " ++ field)) else mret tt) ;;
  mret r.

Definition no_port_cfg : CIST_PortConfig :=
  mk_CIST_PortConfig None None None None None None None None None None.

Definition cmd_setportpathcost (argv : list (list Z)) : C Z :=
  with_port argv (λ br_index port_index,
    v ← uint_arg 3 argv;
    set_port_cfg br_index port_index "admin_external_port_path_cost"
      (mk_CIST_PortConfig (Some v) None None None None None None None None None)).

(** The commands that set a field to yes or no. *)
Definition port_yesno (field : string) (c : bool → CIST_PortConfig) (argv : list (list Z)) : C Z :=
  with_port argv (λ br_index port_index,
    s ← arg 3 argv;
    v ← getyesno s (chars "yes") (chars "no");
    set_port_cfg br_index port_index field (c (to_bool v))).

Definition cmd_setportadminedge := port_yesno "admin_edge_port"
  (λ v, mk_CIST_PortConfig None (Some v) None None None None None None None None).
Definition cmd_setportautoedge := port_yesno "auto_edge_port"
  (λ v, mk_CIST_PortConfig None None (Some v) None None None None None None None).
Definition cmd_setportrestrrole := port_yesno "restricted_role"
  (λ v, mk_CIST_PortConfig None None None None (Some v) None None None None None).
Definition cmd_setportrestrtcn := port_yesno "restricted_tcn"
  (λ v, mk_CIST_PortConfig None None None None None (Some v) None None None None).
Definition cmd_setportbpduguard := port_yesno "bpdu_guard_port"
  (λ v, mk_CIST_PortConfig None None None None None None (Some v) None None None).
Definition cmd_setportnetwork := port_yesno "network_port"
  (λ v, mk_CIST_PortConfig None None None None None None None (Some v) None None).
Definition cmd_setportdonttxmt := port_yesno "dont_txmt"
  (λ v, mk_CIST_PortConfig None None None None None None None None (Some v) None).
Definition cmd_setportbpdufilter := port_yesno "bpdu_filter_port"
  (λ v, mk_CIST_PortConfig None None None None None None None None None (Some v)).

Definition cmd_setportp2p (argv : list (list Z)) : C Z :=
  with_port argv (λ br_index port_index,
    s ← arg 3 argv;
    i ← getenum s [chars "no"; chars "yes"; chars "auto"];
    v ← of_array ([p2pForceFalse; p2pForceTrue; p2pAuto] !! Z.to_nat i);
    set_port_cfg br_index port_index "admin_p2p"
      (mk_CIST_PortConfig None None None (Some v) None None None None None None)).

Definition cmd_portmcheck (argv : list (list Z)) : C Z :=
  with_port argv (λ br_index port_index, request port_mcheck (br_index, port_index)).

(** *** Trees *)

Definition set_tree_port_cfg (br_index port_index mstid : Z) (field : string)
    (c : MSTI_PortConfig) : C Z :=
  r ← request set_msti_port_config (br_index, port_index, u16 mstid, c);
  (if r ≠? 0 then printf (couldnt_change ("per-tree port " ++ field)) else mret tt) ;;
  mret r.

Definition cmd_settreeportprio (argv : list (list Z)) : C Z :=
  with_port argv (λ br_index port_index,
    with_mstid 3 argv (λ mstid,
      prio ← uint_arg 4 argv;
      set_tree_port_cfg br_index port_index mstid "port_priority"
        (mk_MSTI_PortConfig None (Some (u8 (at_most_255 prio)))))).

Definition cmd_settreeportcost (argv : list (list Z)) : C Z :=
  with_port argv (λ br_index port_index,
    with_mstid 3 argv (λ mstid,
      v ← uint_arg 4 argv;
      set_tree_port_cfg br_index port_index mstid "admin_internal_port_path_cost"
        (mk_MSTI_PortConfig (Some v) None))).

Definition cmd_createtree (argv : list (list Z)) : C Z :=
  with_bridge argv (λ br_index,
    with_mstid 2 argv (λ mstid, request create_msti (br_index, u16 mstid))).

Definition cmd_deletetree (argv : list (list Z)) : C Z :=
  with_bridge argv (λ br_index,
    with_mstid 2 argv (λ mstid, request delete_msti (br_index, u16 mstid))).

Definition cmd_debuglevel (argv : list (list Z)) : C Z :=
  level ← uint_arg 1 argv; request set_debug_level (s32 level).

(** *** Tables *)

(** One ParseList after the other, each with its own copy of the argument. *)
Fixpoint parse_all (parse : bool → list Z → list Z → option (Z * list Z))
    (args : list (list Z)) (array : list Z) : C (Z * list Z) :=
  match args with
  | [] => mret (0, array)
  | a :: args =>
      strdup_ok ← hostcall (malloc_ok H);
      '(ret, array) ← of_array (parse strdup_ok a array);
      if (ret : Z) <? 0 then mret (ret, array) else parse_all parse args array
  end.

Definition cmd_setvid2fid (argv : list (list Z)) : C Z :=
  with_bridge argv (λ br_index,
    '(ret, vids2fids) ← parse_all (ParseList MAX_VID MAX_FID true) (drop 2 argv)
                          (replicate (Z.to_nat (MAX_VID + 1)) UNSET);
    if (ret : Z) <? 0 then mret ret else request set_vids2fids (br_index, vids2fids)).

Definition cmd_setfid2mstid (argv : list (list Z)) : C Z :=
  with_bridge argv (λ br_index,
    '(ret, fids2mstids) ← parse_all (ParseList MAX_FID MAX_MSTID false) (drop 2 argv)
                            (replicate (Z.to_nat (MAX_FID + 1)) UNSET);
    if (ret : Z) <? 0 then mret ret else request set_fids2mstids (br_index, fids2mstids)).

(** *** Showing

    [format] is the static variable that the option -f sets. *)
Context (format : format_id_t).

Definition in_format (plain json : printed) : C Z :=
  let '(text, r) := match format with FORMAT_PLAIN => plain | FORMAT_JSON => json end in
  printf text ;; mret r.

Definition do_arraystart_fmt : C unit :=
  match format with FORMAT_JSON => printf [91] | FORMAT_PLAIN => mret tt end.
Definition do_arrayend_fmt : C unit :=
  match format with FORMAT_JSON => printf [93] | FORMAT_PLAIN => mret tt end.
Definition do_arraynext_fmt : C unit :=
  match format with FORMAT_JSON => printf [44] | FORMAT_PLAIN => mret tt end.

(** The answer to a request, or -1. *)
Definition with_answer (c : ctl_command) (x : IN c) (f : OUT c → C Z) : C Z :=
  r ← client_side_function c x;
  match (r : reply (OUT c)) with inl _ => mret (-1) | inr o => f o end.

(** The loops that show one object after the other; the last error is the result. *)
Fixpoint show_each {X} (show : X → C Z) (first : bool) (l : list X) (r : Z) : C Z :=
  match l with
  | [] => mret r
  | x :: l =>
      (if first then mret tt else do_arraynext_fmt) ;;
      err ← show x;
      show_each show false l (if err ≠? 0 then err else r)
  end.

Definition show_array {X} (show : X → C Z) (l : list X) : C Z :=
  do_arraystart_fmt ;;
  r ← show_each show true l 0;
  do_arrayend_fmt ;; mret r.

Definition do_showbridge (br_name : list Z) (param_id : param_id_t) : C Z :=
  br_index ← get_index_die H br_name false;
  if br_index <? 0 then mret br_index else
  with_answer get_cist_bridge_status br_index (λ '(s, root_port_name),
    in_format (do_showbridge_fmt_plain s br_name (chars root_port_name) param_id)
              (do_showbridge_fmt_json s br_name (chars root_port_name) param_id)).

(** [snprintf(path, ..., SYSFS_CLASS_NET "/%.230s/<file>", name)] *)
Definition sysfs_path (name : list Z) (file : string) : list Z :=
  chars SYSFS_CLASS_NET ++ 47 :: take 230 name ++ 47 :: chars file.

Definition isbridge (d_name : list Z) : C bool :=
  hostcall (λ n, stat_is_dir H n (sysfs_path d_name "bridge")).

Fixpoint filter_entries (p : list Z → C bool) (l : list (list Z)) : C (list (list Z)) :=
  match l with
  | [] => mret []
  | x :: l => b ← p x; l' ← filter_entries p l; mret (if (b : bool) then x :: l' else l')
  end.

Definition get_bridge_list : C (option (list (list Z))) :=
  l ← hostcall (λ n, scandir H n (chars SYSFS_CLASS_NET));
  match (l : option (list (list Z))) with
  | None => mret None
  | Some l => l ← filter_entries isbridge l; mret (Some l)
  end.

(** The objects named by the arguments from [first] on; the last one is a parameter if it
    has such a name and is not the only one. *)
Definition names_and_param (params : list (param_id_t * string)) (names : list (list Z)) :
    list (list Z) * param_id_t :=
  if (1 <? length names)%nat then
    match find_param params (List.last names []) with
    | Some p => (removelast names, p)
    | None => (names, PARAM_NULL)
    end
  else (names, PARAM_NULL).

Definition cmd_showbridge (argv : list (list Z)) : C Z :=
  match drop 1 argv with
  | [] =>
      l ← get_bridge_list;
      match (l : option (list (list Z))) with
      | None => mret (-1)
      | Some l => show_array (λ name, do_showbridge name PARAM_NULL) l
      end
  | names =>
      let '(names, param_id) := names_and_param cist_bridge_params names in
      show_array (λ name, do_showbridge name param_id) names
  end.

Definition cmd_showtree (argv : list (list Z)) : C Z :=
  with_bridge argv (λ br_index,
    with_mstid 2 argv (λ mstid,
      with_answer get_msti_bridge_status (br_index, u16 mstid) (λ '(s, root_port_name),
        name ← arg 1 argv;
        in_format (do_showtree_fmt_plain s name mstid (chars root_port_name))
                  (do_showtree_fmt_json s name mstid (chars root_port_name))))).

Definition do_showport (br_index : Z) (bridge_name port_name : list Z) (param_id : param_id_t) :
    C Z :=
  port_index ← get_index_die H port_name false;
  if port_index <? 0 then mret port_index else
  with_answer get_cist_port_status (br_index, port_index) (λ s, λ st,
    in_format (do_showport_fmt_plain (c_detail st) s bridge_name port_name param_id)
              (do_showport_fmt_json (c_detail st) s bridge_name port_name param_id) st).

Definition not_dot_dotdot (n : list Z) : bool :=
  negb (bool_decide (n = [46]) || bool_decide (n = [46; 46])).

Definition get_port_list (br_ifname : list Z) : C (option (list (list Z))) :=
  l ← hostcall (λ n, scandir H n (sysfs_path br_ifname "brif"));
  mret (match (l : option (list (list Z))) with
        | None => None
        | Some l => Some (List.filter not_dot_dotdot l)
        end).

Definition cmd_showport (argv : list (list Z)) : C Z :=
  with_bridge argv (λ br_index,
    br_name ← arg 1 argv;
    match drop 2 argv with
    | [] =>
        l ← get_port_list br_name;
        match (l : option (list (list Z))) with
        | None => mret (-1)
        | Some l => show_array (λ name, do_showport br_index br_name name PARAM_NULL) l
        end
    | names =>
        let '(names, param_id) := names_and_param cist_port_params names in
        show_array (λ name, do_showport br_index br_name name param_id) names
    end).

(** The parameters named by the arguments; [None]: one is unknown. *)
Fixpoint find_params (names : list (list Z)) : option (list param_id_t) :=
  match names with
  | [] => Some []
  | s :: names =>
      p ← find_param cist_port_params s;
      l ← find_params names;
      Some (p :: l)
  end.

Definition cmd_showportparams (argv : list (list Z)) : C Z :=
  with_bridge argv (λ br_index,
    match find_params (drop 3 argv) with
    | None => mret (-1)
    | Some ids =>
        br_name ← arg 1 argv;
        intf_name ← arg 2 argv;
        show_array (λ param_id, do_showport br_index br_name intf_name param_id) ids
    end).

Definition cmd_showportdetail (argv : list (list Z)) : C Z :=
  (λ s, CDone tt (s <| c_detail := true |>)) ;; cmd_showport argv.

Definition cmd_showtreeport (argv : list (list Z)) : C Z :=
  with_port argv (λ br_index port_index,
    with_mstid 3 argv (λ mstid,
      with_answer get_msti_port_status (br_index, port_index, u16 mstid) (λ s,
        br_name ← arg 1 argv;
        port_name ← arg 2 argv;
        in_format (do_showtreeport_fmt_plain s br_name port_name mstid)
                  (do_showtreeport_fmt_json s br_name port_name mstid)))).

(** The rounds a table can take: one for each entry, and the last. *)
Definition table_fuel : nat := 4097.

Definition cmd_showvid2fid (argv : list (list Z)) : C Z :=
  with_bridge argv (λ br_index,
    with_answer get_vids2fids br_index (λ vid2fid,
      name ← arg 1 argv;
      text ← of_array (do_showvid2fid_fmt format table_fuel vid2fid name);
      printf text ;; mret 0)).

Definition cmd_showfid2mstid (argv : list (list Z)) : C Z :=
  with_bridge argv (λ br_index,
    with_answer get_fids2mstids br_index (λ fid2mstid,
      name ← arg 1 argv;
      text ← of_array (do_showfid2mstid_fmt format table_fuel fid2mstid name);
      printf text ;; mret 0)).

Definition cmd_showmstilist (argv : list (list Z)) : C Z :=
  with_bridge argv (λ br_index,
    with_answer get_mstilist br_index (λ mstids,
      name ← arg 1 argv;
      in_format (do_showmstilist_fmt_plain name mstids) (do_showmstilist_fmt_json name mstids))).

Definition cmd_showmstconfid (argv : list (list Z)) : C Z :=
  with_bridge argv (λ br_index,
    with_answer get_mstconfid br_index (λ cfgid,
      name ← arg 1 argv;
      in_format (do_showmstconfid_fmt_plain cfgid name) (do_showmstconfid_fmt_json cfgid name))).
End commands.
