(* ===== verification/Batch.v ===== *)
(** * The command table and the batch mode (src/ctl_main.c)

    The table of commands, how a command line is checked against it, and how the lines of
    a batch file are read, checked and run. *)
From S2P Require Import Prelude Types Clib Kernel Control.
From S2P Require Import Tables Client Show Commands.

(** ** Lines and words *)

(** fgets(line, n + 1, f): at most [n] characters, up to and with a newline; what it
    returns and what is left. *)
Fixpoint fgets (n : nat) (s : list Z) : list Z * list Z :=
  match n, s with
  | S n', c :: s' =>
      if c =? NEWLINE then ([c], s')
      else let '(l, rest) := fgets n' s' in (c :: l, rest)
  | _, _ => ([], s)
  end.

(** [char line[64]] *)
Definition LINE_SIZE : nat := 64.

(** What the loop over the file reads, one call of fgets() after the other. *)
Fixpoint batch_lines (fuel : nat) (s : list Z) : list (list Z) :=
  match fuel with
  | O => []
  | S fuel =>
      match fgets (LINE_SIZE - 1) s with
      | ([], _) => []
      | (l, rest) => until_nul l :: batch_lines fuel rest
      end
  end.
Definition file_lines (file : list Z) : list (list Z) := batch_lines (S (length file)) file.

(** The words strtok(line, delim) finds. *)
Fixpoint strtok (delim : list Z) (word s : list Z) : list (list Z) :=
  match s with
  | [] => match word with [] => [] | _ => [rev word] end
  | c :: s =>
      if bool_decide (c ∈ delim)
      then match word with [] => strtok delim [] s | _ => rev word :: strtok delim [] s end
      else strtok delim (c :: word) s
  end.

(** The loop over the words: [None] if a word is stored outside of the array; otherwise the
    result, -1 or the number of words, and the array. *)
Fixpoint store_words (words : list (list Z)) (argv : list (option (list Z))) (argv_size cnt : nat) :
    option (Z * list (option (list Z))) :=
  match words with
  | [] => Some (Z.of_nat cnt, argv)
  | ptr :: words =>
      if (cnt <? length argv)%nat then
        let argv := <[cnt := Some ptr]> argv in
        if (argv_size <=? S cnt)%nat then Some (-1, argv) else store_words words argv argv_size (S cnt)
      else None
  end.
Definition split_line_into_parts (line : list Z) (argv : list (option (list Z))) (argv_size : nat) :
    option (Z * list (option (list Z))) :=
  store_words (strtok [32; NEWLINE] [] line) argv argv_size 0.

Definition skip_line (line : list Z) : bool :=
  match line with
  | [] => true
  | c :: _ => (c =? NEWLINE) || (c =? 35)
  end.

(** ** The table *)

Record command := mk_command {
  nargs : nat;
  optargs : nat;
  cmd_name : string;
  func : list (list Z) → C Z;
  cmd_format : string;
  cmd_help : string
}.

Section batch.
Context (K : kernel) (A : abi) (B : client_abi) (H : host) (uid : Z) (format : format_id_t).

Definition commands : list command :=
  [mk_command 1 32 "addbridge" (cmd_addbridge K A B H uid)
     "<bridge> [<bridge> ...]" "Add bridges to the mstpd's list";
   mk_command 1 32 "delbridge" (cmd_delbridge K A B H uid)
     "<bridge> [<bridge> ...]" "Remove bridges from the mstpd's list";
   mk_command 0 32 "showbridge" (cmd_showbridge K A B H uid format)
     "[<bridge> ... [param]]" "Show bridge state for the CIST";
   mk_command 1 0 "showmstilist" (cmd_showmstilist K A B H uid format)
     "<bridge>" "Show list of registered MSTIs";
   mk_command 1 0 "showmstconfid" (cmd_showmstconfid K A B H uid format)
     "<bridge>" "Show MST ConfigId";
   mk_command 1 0 "showvid2fid" (cmd_showvid2fid K A B H uid format)
     "<bridge>" "Show VID-to-FID allocation table";
   mk_command 1 0 "showfid2mstid" (cmd_showfid2mstid K A B H uid format)
     "<bridge>" "Show FID-to-MSTID allocation table";
   mk_command 1 32 "showport" (cmd_showport K A B H uid format)
     "<bridge> [<port>...[port] [param]]" "Show port state for the CIST";
   mk_command 3 32 "showportparams" (cmd_showportparams K A B H uid format)
     "<bridge> <port> <param>...[param]" "Show port state for the CIST";
   mk_command 1 32 "showportdetail" (cmd_showportdetail K A B H uid format)
     "<bridge> [<port> ... [param]]" "Show port detailed state for the CIST";
   mk_command 2 0 "showtree" (cmd_showtree K A B H uid format)
     "<bridge> <mstid>" "Show bridge state for the given MSTI";
   mk_command 3 0 "showtreeport" (cmd_showtreeport K A B H uid format)
     "<bridge> <port> <mstid>" "Show port detailed state for the given MSTI";
   mk_command 3 0 "setmstconfid" (cmd_setmstconfid K A B H uid)
     "<bridge> <revision> <name>" "Set MST ConfigId elements: Revision Level (0-65535) and Name";
   mk_command 2 32 "setvid2fid" (cmd_setvid2fid K A B H uid)
     "<bridge> <FID>:<VIDs List> [<FID>:<VIDs List> ...]" "Set VIDs-to-FIDs allocation";
   mk_command 2 32 "setfid2mstid" (cmd_setfid2mstid K A B H uid)
     "<bridge> <mstid>:<FIDs List> [<mstid>:<FIDs List> ...]" "Set FIDs-to-MSTIDs allocation";
   mk_command 2 0 "setmaxage" (cmd_setbridgemaxage K A B H uid)
     "<bridge> <max_age>" "Set bridge max age (6-40)";
   mk_command 2 0 "setfdelay" (cmd_setbridgefdelay K A B H uid)
     "<bridge> <fwd_delay>" "Set bridge forward delay (4-30)";
   mk_command 2 0 "setmaxhops" (cmd_setbridgemaxhops K A B H uid)
     "<bridge> <max_hops>" "Set bridge max hops (6-40)";
   mk_command 2 0 "sethello" (cmd_setbridgehello K A B H uid)
     "<bridge> <hello_time>" "Set bridge hello time (1-10)";
   mk_command 2 0 "setageing" (cmd_setbridgeageing K A B H uid)
     "<bridge> <ageing_time>" "Set bridge ageing time (10-1000000)";
   mk_command 2 0 "setforcevers" (cmd_setbridgeforcevers K A B H uid)
     "<bridge> {mstp|rstp|stp}" "Force Spanning Tree protocol version";
   mk_command 2 0 "settxholdcount" (cmd_setbridgetxholdcount K A B H uid)
     "<bridge> <tx_hold_count>" "Set bridge transmit hold count (1-10)";
   mk_command 2 0 "createtree" (cmd_createtree K A B H uid)
     "<bridge> <mstid>" "Create new MSTI";
   mk_command 2 0 "deletetree" (cmd_deletetree K A B H uid)
     "<bridge> <mstid>" "Delete existing MSTI";
   mk_command 3 0 "settreeprio" (cmd_settreeprio K A B H uid)
     "<bridge> <mstid> <priority>" "Set bridge priority (0-15) for the given MSTI";
   mk_command 3 0 "setportpathcost" (cmd_setportpathcost K A B H uid)
     "<bridge> <port> <cost>" "Set port external path cost for the CIST (0 = auto)";
   mk_command 3 0 "setportadminedge" (cmd_setportadminedge K A B H uid)
     "<bridge> <port> {yes|no}" "Set initial edge state";
   mk_command 3 0 "setportautoedge" (cmd_setportautoedge K A B H uid)
     "<bridge> <port> {yes|no}" "Enable auto transition to/from edge state";
   mk_command 3 0 "setportp2p" (cmd_setportp2p K A B H uid)
     "<bridge> <port> {yes|no|auto}" "Set p2p detection mode";
   mk_command 3 0 "setportrestrrole" (cmd_setportrestrrole K A B H uid)
     "<bridge> <port> {yes|no}" "Restrict port ability to take Root role";
   mk_command 3 0 "setportrestrtcn" (cmd_setportrestrtcn K A B H uid)
     "<bridge> <port> {yes|no}" "Restrict port ability to propagate received TCNs";
   mk_command 2 0 "portmcheck" (cmd_portmcheck K A B H uid)
     "<bridge> <port>" "Try to get back from STP to rapid (RSTP/MSTP) mode";
   mk_command 3 0 "setbpduguard" (cmd_setportbpduguard K A B H uid)
     "<bridge> <port> {yes|no}" "Set bpdu guard state";
   mk_command 4 0 "settreeportprio" (cmd_settreeportprio K A B H uid)
     "<bridge> <port> <mstid> <priority>" "Set port priority (0-15) for the given MSTI";
   mk_command 4 0 "settreeportcost" (cmd_settreeportcost K A B H uid)
     "<bridge> <port> <mstid> <cost>" "Set port internal path cost for the given MSTI (0 = auto)";
   mk_command 3 0 "setportnetwork" (cmd_setportnetwork K A B H uid)
     "<bridge> <port> {yes|no}" "Set port network state";
   mk_command 3 0 "setportdonttxmt" (cmd_setportdonttxmt K A B H uid)
     "<bridge> <port> {yes|no}" "Disable/Enable sending BPDU";
   mk_command 3 0 "setportbpdufilter" (cmd_setportbpdufilter K A B H uid)
     "<bridge> <port> {yes|no}" "Set BPDU filter state";
   mk_command 1 0 "debuglevel" (cmd_debuglevel K A B H uid)
     "<level>" "Level of verbosity"].

Definition command_lookup (cmd : list Z) : option command :=
  List.find (λ c, bool_decide (cmd = chars (cmd_name c))) commands.

(** [argv] holds at least the name of the command. *)
Definition command_lookup_and_validate (argv : list (list Z)) : option command :=
  cmd ← command_lookup (default [] (head argv));
  let argc := length argv in
  if (argc <? nargs cmd + 1)%nat || (nargs cmd + optargs cmd + 1 <? argc)%nat
  then None else Some cmd.

(** ** Batch files *)

(** [char *argv[8]] *)
Definition ARGV_SIZE : nat := 8.

(** What is to be found in [argv[0]] to [argv[argc - 1]]: [None] if a store is out of bounds
    or an element was never set; [Some None] if there are too many words. *)
Definition line_argv (line : list Z) : option (option (list (list Z))) :=
  '(argc, argv) ← split_line_into_parts line (replicate ARGV_SIZE None) ARGV_SIZE;
  if (argc : Z) <? 0 then Some None else Some <$> mapM id (take (Z.to_nat argc) argv).

(** The loop of __process_batch_cmds over the lines: the number of commands, or -1. *)
Fixpoint process_lines (run ignore : bool) (lines : list (list Z)) (cmds : Z) : C Z :=
  match lines with
  | [] => mret cmds
  | line :: lines =>
      if skip_line line then process_lines run ignore lines cmds else
      match line_argv line with
      | None => λ _, CFault
      | Some None => mret (-1)
      | Some (Some []) => process_lines run ignore lines cmds
      | Some (Some argv) =>
          match command_lookup_and_validate argv with
          | None => if ignore then process_lines run ignore lines cmds else mret (-1)
          | Some cmd =>
              if run then
                rc ← func cmd argv;
                if rc ≠? 0
                then (if ignore then process_lines run ignore lines cmds else mret (-1))
                else process_lines run ignore lines (cmds + 1)
              else process_lines run ignore lines (cmds + 1)
          end
      end
  end.

Definition __process_batch_cmds (file : list Z) (run ignore : bool) : C Z :=
  process_lines run ignore (file_lines file) 0.

(** Both passes read the file from its beginning. *)
Definition process_batch_cmds (file : list Z) (ignore is_stdin : bool) : C Z :=
  let second := rc ← __process_batch_cmds file true ignore; mret (if rc <? 0 then 1 else 0) in
  if is_stdin then second else
  rc ← __process_batch_cmds file false ignore;
  if rc <? 0 then mret 1 else if rc =? 0 then mret 0 else second.

(** ** Help *)

(** command_helpall: the commands but one. *)
Definition command_helpall : list Z :=
  concat (map (λ c, line (45 :: chars (cmd_help c) ++ [58]) ++
                    line (chars "   " ++ pad 16 (chars (cmd_name c)) ++ 32 :: chars (cmd_format c)))
    (filter (λ c, cmd_name c ≠ "setportdonttxmt"%string) commands)).

Definition help : list Z :=
  concat (map (λ l, line (chars l))
    ["Usage: mstpctl [options] [commands]"; "options:";
     "  -h | --help              Show this help text";
     "  -V | --version           Show version";
     "  -b | --batch <file>      Process file with mstpctl commands";
     "  -s | --stdin             Process mstpctl commands from stdin";
     "                           Make sure to provide newlines between";
     "                           commands. Won't work if `batch` is used";
     "  -i | --ignore            Ignore failing commands during batch";
     "                           processing";
     "  -f | --format <format>   Select output format (json, plain)";
     "commands:"]%string) ++ command_helpall.

(** The end of main(): the command on the command line.  Only an unknown command calls
    for help. *)
Definition main_command (argv : list (list Z)) : C Z :=
  match command_lookup_and_validate argv with
  | None =>
      (if bool_decide (is_Some (command_lookup (default [] (head argv)))) then mret tt
       else printf help) ;;
      mret 1
  | Some cmd => func cmd argv
  end.

(** ** What batch mode does *)

(** The words of a line, if there are fewer than [ARGV_SIZE]. *)
Definition line_words (line : list Z) : option (list (list Z)) :=
  let words := strtok [32; NEWLINE] [] line in
  if (ARGV_SIZE <=? length words)%nat then None else Some words.

(** The stores stay in the array: the loop stops when it is full. *)
Lemma store_words_ok words : ∀ done rest,
  (length done < ARGV_SIZE)%nat → length rest = (ARGV_SIZE - length done)%nat →
  ∃ argc argv, store_words words (map Some done ++ rest) ARGV_SIZE (length done) = Some (argc, argv) ∧
    if (ARGV_SIZE <=? length done + length words)%nat then argc = -1
    else argc = Z.of_nat (length done + length words) ∧
         take (length done + length words) argv = map Some (done ++ words).
Proof.
  induction words as [|w words IH]; intros stored rest Hd Hr; cbn [store_words length].
  - eexists _, _. split; [done|]. rewrite Nat.add_0_r, app_nil_r.
    destruct (Nat.leb_spec ARGV_SIZE (length stored)); [lia|]. split; [done|].
    apply take_app_length'. by rewrite length_map.
  - rewrite length_app, length_map. destruct (Nat.ltb_spec (length stored) (length stored + length rest)); [|lia].
    destruct rest as [|x rest]; [cbn [length] in Hr; lia|].
    rewrite insert_app_r_alt by (by rewrite length_map). rewrite length_map, Nat.sub_diag. cbn [insert list_insert].
    destruct (Nat.leb_spec ARGV_SIZE (S (length stored))).
    + eexists _, _. split; [done|]. destruct (Nat.leb_spec ARGV_SIZE (length stored + S (length words))); [done|lia].
    + destruct (IH (stored ++ [w]) rest) as (argc & argv & E & Hres); [rewrite length_app; cbn [length] in *; lia|
        rewrite length_app; cbn [length] in *; lia|].
      rewrite length_app, map_app, <- app_assoc in E. cbn [length map app] in E. rewrite Nat.add_1_r in E.
      exists argc, argv. split; [exact E|]. rewrite length_app in Hres. cbn [length] in Hres.
      replace (length stored + 1 + length words)%nat with (length stored + S (length words))%nat in Hres by lia.
      by rewrite <- app_assoc in Hres.
Qed.

Lemma mapM_some {X} (l : list X) : mapM id (map Some l) = Some l.
Proof. induction l as [|x l IH]; [done|]. cbn. by rewrite IH. Qed.

Lemma line_argv_words l : line_argv l = Some (line_words l).
Proof.
  unfold line_argv, line_words, split_line_into_parts.
  destruct (store_words_ok (strtok [32; NEWLINE] [] l) [] (replicate ARGV_SIZE None)) as (argc & argv & E & H0);
    [unfold ARGV_SIZE; cbn; lia|done|].
  cbn [map app length Nat.add] in *. rewrite E. cbn [mbind option_bind].
  destruct (_ <=? _)%nat; [by subst argc|]. destruct H0 as [-> Ht].
  destruct (Z.ltb_spec (Z.of_nat (length (strtok [32; NEWLINE] [] l))) 0); [lia|].
  by rewrite Nat2Z.id, Ht, mapM_some.
Qed.

(** A line that the first pass refuses. *)
Definition rejects (line : list Z) : bool :=
  negb (skip_line line) &&
  match line_words line with
  | None => true
  | Some [] => false
  | Some argv => match command_lookup_and_validate argv with None => true | Some _ => false end
  end.

(** The commands of the lines that are not refused. *)
Definition line_command (line : list Z) : option (command * list (list Z)) :=
  if skip_line line then None else
  argv ← line_words line;
  cmd ← command_lookup_and_validate argv;
  if bool_decide (argv = []) then None else Some (cmd, argv).

(** Commands one after the other, up to the first that fails. *)
Fixpoint run_commands (cs : list (command * list (list Z))) : C bool :=
  match cs with
  | [] => mret true
  | (cmd, argv) :: cs =>
      rc ← func cmd argv;
      if rc ≠? 0 then mret false else run_commands cs
  end.

Lemma line_commands_cons l lines :
  omap line_command (l :: lines) =
    match line_command l with
    | Some c => c :: omap line_command lines
    | None => omap line_command lines
    end.
Proof. reflexivity. Qed.

(** The three ways a line is handled that is not refused. *)
Lemma line_cases l :
  rejects l = false →
  (skip_line l = true ∧ line_command l = None) ∨
  (skip_line l = false ∧ line_words l = Some [] ∧ line_command l = None) ∨
  ∃ a argv cmd, skip_line l = false ∧ line_words l = Some (a :: argv) ∧
    command_lookup_and_validate (a :: argv) = Some cmd ∧ line_command l = Some (cmd, a :: argv).
Proof.
  unfold rejects, line_command. destruct (skip_line l); [by left|]. right.
  destruct (line_words l) as [[|a argv]|]; [left|right|done].
  - split; [done|]. split; [done|]. cbn. by destruct (command_lookup_and_validate []).
  - cbn [negb andb mbind option_bind] in *.
    destruct (command_lookup_and_validate (a :: argv)) as [c|] eqn:E; [|done].
    exists a, argv, c. done.
Qed.

(** The number of commands in the lines. *)
Lemma check_lines lines : ∀ n s,
  process_lines false false lines n s =
    CDone (if existsb rejects lines then -1
           else n + Z.of_nat (length (omap line_command lines))) s.
Proof.
  induction lines as [|l lines IH]; intros n s; [cbn; by rewrite Z.add_0_r|].
  cbn [process_lines existsb]. rewrite line_argv_words, line_commands_cons. destruct (rejects l) eqn:Hr.
  - clear IH. unfold rejects in Hr. destruct (skip_line l); [done|]. cbn [orb].
    destruct (line_words l) as [[|a argv]|]; [done| |done].
    by destruct (command_lookup_and_validate (a :: argv)).
  - cbn [orb]. destruct (line_cases l Hr) as [[-> ->]|[(-> & -> & ->)|
      (a & argv & c & -> & -> & -> & ->)]]; rewrite IH; [done..|].
    destruct (existsb rejects lines); [done|]. f_equal. cbn [length]. lia.
Qed.

Lemma run_lines lines : ∀ n s, existsb rejects lines = false →
  process_lines true false lines n s =
    (ok ← run_commands (omap line_command lines);
     mret (if (ok : bool) then n + Z.of_nat (length (omap line_command lines)) else -1)) s.
Proof.
  induction lines as [|l lines IH]; intros n s; [cbn; by rewrite Z.add_0_r|].
  cbn [process_lines existsb]. rewrite line_argv_words, line_commands_cons.
  intros [Hr E]%orb_false_iff. destruct (line_cases l Hr) as [[-> ->]|[(-> & -> & ->)|
    (a & argv & c & -> & -> & -> & ->)]]; [by apply IH..|].
  cbn [run_commands]. unfold mbind, C_bind. destruct (func c (a :: argv) s) as [rc s'| | |]; [|done..].
  destruct (rc ≠? 0); [done|]. rewrite IH by done. unfold mbind, C_bind.
  destruct (run_commands _ s') as [ok s''| | |]; [|done..].
  unfold mret, C_ret. cbn [length]. destruct ok; [|done]. f_equal. lia.
Qed.


(** *** Lines longer than the buffer *)

Lemma fgets_length n s l rest : fgets n s = (l, rest) → length s = (length l + length rest)%nat.
Proof.
  revert s l rest. induction n as [|n IH]; intros [|c s] l rest E; cbn in E;
    try (injection E as <- <-; done).
  destruct (c =? NEWLINE); [by injection E as <- <-|].
  destruct (fgets n s) as [l' r'] eqn:E'. injection E as <- <-. cbn. by rewrite (IH _ _ _ E').
Qed.

(** The line and its NUL fit into the buffer. *)
Lemma fgets_fits n : ∀ s l rest, fgets n s = (l, rest) → (length l <= n)%nat.
Proof.
  induction n as [|n IH]; intros [|c s] l rest E; cbn in E; try (injection E as <- <-; cbn; lia).
  destruct (c =? NEWLINE); [injection E as <- <-; cbn; lia|].
  destruct (fgets n s) as [l' r'] eqn:E'. injection E as <- <-. apply IH in E'. cbn. lia.
Qed.
Lemma file_lines_fit file : Forall (λ l, (length l + 1 <= LINE_SIZE)%nat) (file_lines file).
Proof.
  assert (∀ fuel s, Forall (λ l, (length l + 1 <= LINE_SIZE)%nat) (batch_lines fuel s)) as H0; [|apply H0].
  intros fuel. induction fuel as [|fuel IH]; intros s; [constructor|].
  cbn [batch_lines]. destruct (fgets (LINE_SIZE - 1) s) as [[|c l] rest] eqn:E; [constructor|]. constructor; [|apply IH].
  apply fgets_fits in E. assert (∀ x, (length (until_nul x) <= length x)%nat) as Hu; [|specialize (Hu (c :: l)); unfold LINE_SIZE in *; lia].
  induction x as [|y x IHx]; [done|]. cbn. destruct (_ =? _); cbn; lia.
Qed.

(** Fuel beyond the length of the file makes no difference. *)
Lemma batch_lines_fuel f1 f2 s :
  (length s < f1)%nat → (length s < f2)%nat → batch_lines f1 s = batch_lines f2 s.
Proof.
  revert f2 s. induction f1 as [|f1 IH]; intros [|f2] s H1 H2; try lia. cbn [batch_lines].
  destruct (fgets (LINE_SIZE - 1) s) as [[|c l] rest] eqn:E; [done|].
  apply fgets_length in E. cbn in E. f_equal. apply IH; lia.
Qed.

Lemma fgets_full n l s :
  length l = n → NEWLINE ∉ l → fgets n (l ++ s) = (l, s).
Proof.
  revert n. induction l as [|c l IH]; intros [|n] Hl Hn; try done.
  cbn. apply not_elem_of_cons in Hn as [Hc Hn].
  rewrite (proj2 (Z.eqb_neq c NEWLINE)) by done. by rewrite (IH n) by (cbn in Hl; lia || done).
Qed.

Lemma file_lines_full l s :
  length l = 63%nat → NEWLINE ∉ l → file_lines (l ++ s) = until_nul l :: file_lines s.
Proof.
  intros Hl Hn. unfold file_lines at 1. cbn [batch_lines].
  rewrite (fgets_full (LINE_SIZE - 1) l s Hl Hn). destruct l as [|c l]; [done|].
  f_equal. apply batch_lines_fuel; rewrite ?length_app; cbn in *; lia.
Qed.

(** A long comment is not a comment.  The buffer holds 63 characters of a line; what
    follows them is read as the next line.  So the first 63 characters of a comment are
    skipped, and the rest of it is run as a command. *)
Theorem long_comment_runs comment text ignore is_stdin s :
  length comment = 62%nat → NEWLINE ∉ comment →
  process_batch_cmds (35 :: comment ++ text) ignore is_stdin s =
    process_batch_cmds text ignore is_stdin s.
Proof.
  intros Hl Hn.
  assert (file_lines (35 :: comment ++ text) = until_nul (35 :: comment) :: file_lines text) as E.
  { apply (file_lines_full (35 :: comment)); [cbn; lia|]. by apply not_elem_of_cons. }
  unfold process_batch_cmds, __process_batch_cmds. by rewrite E.
Qed.
End batch.
