(* ===== verification/Remote.v ===== *)
(** * Requests are remote calls

    What CLIENT_SIDE_FUNCTION, send_ctl_message, ctl_rcv_handler and SERVER_MESSAGE_CASE
    amount to together: the client calls the daemon's function. *)
From S2P Require Import Prelude Types Monad Md5 Outputs Procs Bridge Mgmt Clib Kernel Track Control.
From S2P Require Import Tables Client.

(** ** Errors are not zero *)

(** A computation whose failures have a code that is not zero. *)
Definition fails_nonzero {A} (m : D (reply A)) : Prop :=
  ∀ d e d', m d = DDone (inl e) d' → e ≠ 0.

Lemma fails_minus_one {A} : fails_nonzero (mret (inl (-1)) : D (reply A)).
Proof. intros d e d' E. injection E as <- _. done. Qed.
Lemma fails_output {A} (m : D A) : fails_nonzero (output m).
Proof. intros d e d' E. unfold output, mbind, D_bind, mret, D_ret in E. by destruct (m d). Qed.
Lemma fails_success (m : D bool) : fails_nonzero (success m).
Proof.
  intros d e d' E. unfold success, mbind, D_bind, mret, D_ret in E.
  destruct (m d) as [[] ?| |]; by simplify_eq.
Qed.
Lemma fails_code (m : D Z) : fails_nonzero (code m).
Proof.
  intros d e d' E. unfold code, mbind, D_bind, mret, D_ret in E.
  destruct (m d) as [r ?| |]; [|done..]. destruct (Z.eqb_spec r 0); by simplify_eq.
Qed.
Lemma fails_bind {A B} (m : D A) (f : A → D (reply B)) :
  (∀ a, fails_nonzero (f a)) → fails_nonzero (m ≫= f).
Proof. intros Hf d e d' E. unfold mbind, D_bind in E. destruct (m d); [by eapply Hf|done..]. Qed.
Lemma fails_check_bridge {A} i (f : br_ptr → D (reply A)) :
  (∀ b, fails_nonzero (f b)) → fails_nonzero (CTL_CHECK_BRIDGE i f).
Proof. intros Hf. apply fails_bind. intros [b|]; [apply Hf|apply fails_minus_one]. Qed.
Lemma fails_check_port {A} i j (f : br_ptr → port_id → D (reply A)) :
  (∀ b p, fails_nonzero (f b p)) → fails_nonzero (CTL_CHECK_BRIDGE_PORT i j f).
Proof.
  intros Hf. apply fails_check_bridge. intros b. apply fails_bind.
  intros [p|]; [apply Hf|apply fails_minus_one].
Qed.
Lemma fails_check_tree {A} i j (f : br_ptr → tree_id → D (reply A)) :
  (∀ b t, fails_nonzero (f b t)) → fails_nonzero (CTL_CHECK_BRIDGE_TREE i j f).
Proof.
  intros Hf. apply fails_check_bridge. intros b. apply fails_bind. intros br.
  destruct (bool_decide _); [apply Hf|apply fails_minus_one].
Qed.
Lemma fails_check_ptp {A} i j k (f : br_ptr → ptp_id → D (reply A)) :
  (∀ b p, fails_nonzero (f b p)) → fails_nonzero (CTL_CHECK_BRIDGE_PERTREEPORT i j k f).
Proof.
  intros Hf. apply fails_check_port. intros b p. apply fails_bind. intros x.
  destruct (bool_decide _); [apply Hf|apply fails_minus_one].
Qed.

Create HintDb fails.
#[export] Hint Resolve fails_minus_one fails_output fails_success fails_code fails_bind
  fails_check_bridge fails_check_port fails_check_tree fails_check_ptp : fails.
#[export] Hint Extern 1 (fails_nonzero (if ?b then _ else _)) => destruct b : fails.

Lemma CTL_fails_nonzero K c x : fails_nonzero (CTL K c x).
Proof.
  destruct c; cbn [CTL IN] in *;
    repeat match goal with x : _ * _ |- _ => destruct x end;
    try solve [unfold CTL_get_cist_bridge_status, CTL_get_msti_bridge_status,
      CTL_set_cist_bridge_config, CTL_set_msti_bridge_config, CTL_get_cist_port_status,
      CTL_get_msti_port_status, CTL_set_cist_port_config, CTL_set_msti_port_config,
      CTL_port_mcheck, CTL_get_mstilist, CTL_create_msti, CTL_delete_msti, CTL_get_mstconfid,
      CTL_set_mstconfid, CTL_get_vids2fids, CTL_get_fids2mstids, CTL_set_vid2fid,
      CTL_set_fid2mstid, CTL_set_vids2fids, CTL_set_fids2mstids; eauto with fails].
  intros d e d' E. done.
Qed.

(** ** A request and its answer *)

Section remote.
Context (K : kernel) (A : abi) (B : client_abi) (H : host) (uid : Z).

(** The two sides agree on the layout of the request [x]: copied into its structure and
    out of it on the other side it is itself, and the structures fit the buffers. *)
Record laid_out (c : ctl_command) (x : IN c) : Prop := {
  lo_in : 0 <= sizeof_IN A c <= MSG_BUF_LEN;
  lo_out : 0 <= sizeof_OUT A c <= MSG_BUF_LEN;
  lo_length : Z.of_nat (length (pack_IN B c x)) = sizeof_IN A c;
  lo_unpack : unpack A c (pack_IN B c x) = x
}.

(** What the daemon sends back, before it becomes a message. *)
Definition packed (c : ctl_command) (r : reply (OUT c)) : reply (list Z) :=
  match r with inl e => inl e | inr o => inr (pack A c o) end.

Definition result_of (c : ctl_command) (r : reply (OUT c)) : reply (OUT c) :=
  match r with inl e => inl e | inr o => inr (unpack_OUT B c (pack A c o)) end.

Lemma command_of_CMD_CODE c : command_of (CMD_CODE c) = Some c.
Proof. by destruct c. Qed.
Lemma later_CMD_CODE c : later (CMD_CODE c) = false.
Proof. by destruct c. Qed.
Lemma CMD_CODE_nonneg c : 0 <= CMD_CODE c.
Proof. by destruct c. Qed.

Notation message c x := (request_datagram uid (CMD_CODE c) (pack_IN B c x) (sizeof_IN A c) (sizeof_OUT A c)).

Lemma message_expected c x : laid_out c x → unexpected_message (message c x) = false.
Proof.
  intros [Hi Ho _ _]. pose proof (CMD_CODE_nonneg c) as Hc. unfold MSG_BUF_LEN in *.
  unfold unexpected_message, request_datagram, sizeof_ctl_msg_hdr, MSG_BUF_LEN. cbn.
  rewrite (proj2 (Z.ltb_ge 10000 (sizeof_IN A c))) by lia.
  unfold u64. rewrite Z.mod_small, Z.min_l by lia. cbn.
  rewrite (proj2 (Z.ltb_ge _ 20)), (proj2 (Z.ltb_ge 10000 _)), (proj2 (Z.ltb_ge (CMD_CODE c) 0)) by lia.
  by rewrite Z.eqb_refl.
Qed.

Lemma handle_message_direct c x d :
  laid_out c x →
  handle_message K A (CMD_CODE c) (m_inbuf (message c x)) (sizeof_IN A c) (sizeof_OUT A c) d =
    (r ← CTL K c x; mret (packed c r)) d.
Proof.
  intros [Hi Ho Hl Hu]. unfold handle_message. rewrite command_of_CMD_CODE.
  unfold server_message_case, u64. unfold MSG_BUF_LEN in *.
  rewrite !Z.mod_small, !Z.eqb_refl by lia. cbn [negb orb].
  cbn [request_datagram m_inbuf]. unfold MSG_BUF_LEN.
  rewrite !take_ge by (rewrite ?length_take; lia). by rewrite Hu.
Qed.

Lemma ctl_rcv_handler_direct c x d :
  laid_out c x →
  ctl_rcv_handler K A (message c x) d =
    if ctl_access_ok uid (CMD_CODE c)
    then (r ← CTL K c x; mret (Some (packed c r))) d
    else DDone (Some (inl (-1))) d.
Proof.
  intros Hlo. unfold ctl_rcv_handler. rewrite (message_expected c x Hlo).
  assert (0 <? m_size (message c x) = true) as ->.
  { destruct Hlo. cbn. unfold sizeof_ctl_msg_hdr, MSG_BUF_LEN in *. apply Z.ltb_lt. lia. }
  cbn [negb]. cbn [request_datagram m_uid m_hdr m_inbuf h_cmd h_lin h_lout].
  rewrite later_CMD_CODE. cbn [negb].
  assert (clear_outbuf (sizeof_OUT A c) = dskip) as ->.
  { destruct Hlo. unfold clear_outbuf, u64, MSG_BUF_LEN in *.
    rewrite Z.mod_small, (proj2 (Z.leb_le _ _)) by lia. done. }
  destruct (ctl_access_ok uid (CMD_CODE c)); [|reflexivity].
  unfold mbind, D_bind.
  pose proof (handle_message_direct c x d Hlo) as Hh. cbn [request_datagram m_inbuf] in Hh.
  rewrite Hh. unfold mbind, D_bind, mret, D_ret.
  destruct (CTL K c x d) as [r d1| |]; [|done..].
  destruct r as [e|o]; cbn [packed]; [|reflexivity].
  unfold dwhen, dskip, mret, D_ret. by destruct (e <? 0).
Qed.

(** The client accepts the daemon's answer. *)
Lemma accept_answer c x r log :
  laid_out c x → 0 <= log →
  accept_response (CMD_CODE c) (sizeof_OUT A c) (server_response (message c x) r log) =
    Some (match r with inl e => e | inr _ => 0 end,
          match r with inl _ => [] | inr out => out end).
Proof.
  intros [Hi Ho _ _] Hlog.
  unfold accept_response, server_response. cbn [request_datagram m_hdr r_hdr r_size r_outbuf
    h_cmd h_lout h_llog h_lin h_res].
  set (llog := if log <? LOG_STRING_LEN - 1 then log else LOG_STRING_LEN - 1).
  assert (0 <= llog < LOG_STRING_LEN) as Hl.
  { unfold llog, LOG_STRING_LEN in *. destruct (Z.ltb_spec log (256 - 1)); lia. }
  rewrite !Z.eqb_refl. unfold sizeof_ctl_msg_hdr in *.
  rewrite (proj2 (Z.ltb_ge _ 20)), (proj2 (Z.leb_gt LOG_STRING_LEN llog)) by lia. done.
Qed.

(** C26: A request through the socket is a call of the daemon's function: where the message and
    its answer arrive, the client gets the result of CTL_c, run on the daemon's state by
    the daemon, with its output as the two sides lay it out; a user who may not make the
    request gets -1, and the daemon does nothing. *)
Theorem request_is_remote_call c x s :
  laid_out c x → (∀ n, 0 <= log_length H n) → sendmsg H (c_calls s) = Answered →
  client_side_function K A B H uid c x s =
    (r ← (if ctl_access_ok uid (CMD_CODE c) then in_daemon (CTL K c x) else mret (inl (-1)));
     mret (result_of c r)) (s <| c_calls ::= λ n, S (S n) |>).
Proof.
  intros Hlo Hlog Hsend. unfold client_side_function, send_ctl_message.
  unfold mbind at 1 2 3, C_bind at 1 2 3. unfold hostcall at 1. rewrite Hsend.
  unfold in_daemon. cbn [c_daemon upd_field set_c_calls].
  unfold mbind at 1, C_bind at 1. rewrite ctl_rcv_handler_direct by done.
  destruct (ctl_access_ok uid (CMD_CODE c)).
  - unfold mbind, D_bind, C_bind, mret, D_ret, C_ret. cbn.
    destruct (CTL K c x (c_daemon s)) as [r d| |] eqn:E; [|done..].
    unfold hostcall. cbn. rewrite accept_answer by done.
    destruct r as [e|o]; cbn; [|done].
    apply CTL_fails_nonzero in E. by rewrite (proj2 (Z.eqb_neq e 0)).
  - unfold mbind, C_bind, mret, C_ret, hostcall. cbn. by rewrite accept_answer.
Qed.
End remote.
