(* ===== verification/Session.v ===== *)
(** * Sessions of the client

    What holds of every command a user may type: it cannot make the daemon or the client
    access memory out of bounds, and it leaves the daemon in a reachable state. *)
From S2P Require Import Prelude Types Monad Md5 Outputs Procs Bridge Mgmt Clib Kernel Track Control.
From S2P Require Import Safety Daemon Requests Service Tables Client Show Commands Batch.

(** ** Weakest preconditions for the client *)

Section session.
Context (K : kernel) (A : abi) (B : client_abi) (H : host) (uid : Z) (format : format_id_t).
Context (Hstack : ∀ n, length (k_stack K n) = 64%nat) (HA : abi_ok A).

(** The structures fit the buffers of the daemon; the tables have their C lengths. *)
Record client_abi_ok : Prop := {
  ca_in c : 0 <= sizeof_IN A c <= MSG_BUF_LEN;
  ca_out c : 0 <= sizeof_OUT A c <= MSG_BUF_LEN;
  ca_vids l : Z.of_nat (length (unpack_OUT B get_vids2fids l)) = MAX_VID + 1;
  ca_fids l : Z.of_nat (length (unpack_OUT B get_fids2mstids l)) = MAX_FID + 1
}.
Context (HB : client_abi_ok).

Definition sound_state (s : client) : Prop := reachable_daemon K A (c_daemon s).

(** From a sound state the computation does not fault, ends in a sound state, and what
    it returns, if it does not exit, satisfies [Q]. *)
Definition ckeeps {X} (m : C X) (Q : X → Prop) : Prop := ∀ s, sound_state s →
  match m s with
  | CDone a s' => sound_state s' ∧ Q a
  | CExit _ s' => sound_state s'
  | CFault => False
  | COutOfFuel => True
  end.

Lemma ckeeps_ret {X} (x : X) (Q : X → Prop) : Q x → ckeeps (mret x) Q.
Proof. by intros HQ s Hs. Qed.
Lemma ckeeps_exit {X} e (Q : X → Prop) : ckeeps (exit e) Q.
Proof. by intros s Hs. Qed.
Lemma ckeeps_bind {X Y} (m : C X) (f : X → C Y) P Q :
  ckeeps m P → (∀ x, P x → ckeeps (f x) Q) → ckeeps (m ≫= f) Q.
Proof.
  intros Hm Hf s Hs. specialize (Hm s Hs). unfold mbind, C_bind.
  destruct (m s); [|done..]. destruct Hm. by apply Hf.
Qed.
Lemma ckeeps_mono {X} (m : C X) (P Q : X → Prop) :
  ckeeps m P → (∀ x, P x → Q x) → ckeeps m Q.
Proof. intros Hm HPQ s Hs. specialize (Hm s Hs). destruct (m s); [|done..]. destruct Hm as [? Hx]. eauto. Qed.
Lemma ckeeps_printf t (Q : () → Prop) : Q () → ckeeps (printf t) Q.
Proof. by intros HQ s Hs. Qed.
Lemma ckeeps_hostcall {X} (f : nat → X) (Q : X → Prop) : (∀ n, Q (f n)) → ckeeps (hostcall f) Q.
Proof. intros HQ s Hs. split; [done|apply HQ]. Qed.
Lemma ckeeps_of_array {X} (o : option X) (Q : X → Prop) :
  (∃ x, o = Some x ∧ Q x) → ckeeps (of_array o) Q.
Proof. by intros (x & -> & HQ) s Hs. Qed.
Lemma ckeeps_arg i argv (Q : list Z → Prop) :
  (i < length argv)%nat → (∀ x, Q x) → ckeeps (arg i argv) Q.
Proof.
  intros Hi HQ. apply ckeeps_of_array. apply lookup_lt_is_Some_2 in Hi as [x Hx]. eauto.
Qed.

(** *** Requests *)

Lemma ckeeps_handler m :
  datagram_ok m → 0 <= h_lout (m_hdr m) →
  ckeeps (in_daemon (ctl_rcv_handler K A m)) (λ _, True).
Proof.
  intros Hm Ho s Hs. unfold in_daemon.
  pose proof (serve_keeps K A Hstack HA (Request m) (c_daemon s)
    (reachable_DI K A Hstack HA _ Hs) (conj Hm Ho)) as Hk.
  unfold dkeeps, dwp in Hk. cbn [serve] in Hk. unfold mbind, D_bind in Hk.
  destruct (ctl_rcv_handler K A m (c_daemon s)) as [r d| |] eqn:E; [|done..].
  split; [|done]. unfold sound_state. cbn.
  apply (rd_step K A (c_daemon s) (Request m)); [done|by split|].
  cbn [serve]. unfold mbind, D_bind. by rewrite E.
Qed.

Lemma ckeeps_send cmd inbuf lin lout :
  - 2 ^ 31 <= lin < 2 ^ 31 → 0 <= lout →
  ckeeps (send_ctl_message K A H uid cmd inbuf lin lout) (λ _, True).
Proof.
  intros Hlin Hlout. unfold send_ctl_message.
  apply (ckeeps_bind _ _ (λ _, True)); [by apply ckeeps_hostcall|]. intros t _.
  assert (datagram_ok (request_datagram uid cmd inbuf lin lout)) as Hm.
  { split; [done|]. cbn. unfold sizeof_ctl_msg_hdr, MSG_BUF_LEN. lia. }
  destruct t; [by apply ckeeps_ret|..].
  - eapply ckeeps_bind; [by apply ckeeps_handler|]. intros _ _. by apply ckeeps_ret.
  - eapply ckeeps_bind; [by apply ckeeps_handler|]. intros [r|] _; [|by apply ckeeps_ret].
    apply (ckeeps_bind _ _ (λ _, True)); [by apply ckeeps_hostcall|]. intros log _.
    by apply ckeeps_ret.
Qed.

Lemma ckeeps_client_side c x :
  ckeeps (client_side_function K A B H uid c x) (λ r, ∀ o, r = inr o → ∃ l, o = unpack_OUT B c l).
Proof.
  unfold client_side_function. eapply ckeeps_bind; [apply ckeeps_send|].
  - pose proof (ca_in HB c). unfold MSG_BUF_LEN in *. lia.
  - apply (ca_out HB c).
  - intros [[res out]|] _; apply ckeeps_ret; [|by intros o].
    destruct (res ≠? 0); intros o [= <-]; eauto.
Qed.

Lemma ckeeps_request c x (Q : Z → Prop) : (∀ z, Q z) → ckeeps (request K A B H uid c x) Q.
Proof.
  intros HQ. eapply ckeeps_bind; [apply ckeeps_client_side|]. intros r _. by apply ckeeps_ret.
Qed.

Lemma ckeeps_bridges_request cmd l (Q : Z → Prop) :
  (∀ z, Q z) → ckeeps (bridges_request K A B H uid cmd l) Q.
Proof.
  intros HQ. unfold bridges_request. eapply ckeeps_bind; [apply ckeeps_send|].
  - unfold s32. pose proof (Z.mod_pos_bound (u64 ((nth 0 l 0 + 1) * 4) + 2 ^ 31) (2 ^ 32)). lia.
  - done.
  - intros r _. by apply ckeeps_ret.
Qed.

(** *** Arguments *)

Lemma ckeeps_getuint s (Q : Z → Prop) : (∀ z, Q z) → ckeeps (getuint s) Q.
Proof.
  intros HQ. unfold getuint. destruct (strtoul 0 s).
  destruct (_ || _); [apply ckeeps_exit|by apply ckeeps_ret].
Qed.

Lemma option_index_range i s opt j :
  option_index i s opt = Some j → i <= j < i + Z.of_nat (length opt).
Proof.
  revert i. induction opt as [|o opt IH]; intros i E; [done|]. cbn in E.
  destruct (s ==? o); [injection E as <-; cbn; lia|]. apply IH in E. cbn. lia.
Qed.

Lemma ckeeps_getenum s opt (Q : Z → Prop) :
  (∀ i, 0 <= i < Z.of_nat (length opt) → Q i) → ckeeps (getenum s opt) Q.
Proof.
  intros HQ. unfold getenum. destruct (option_index 0 s opt) as [i|] eqn:E; [|apply ckeeps_exit].
  apply ckeeps_ret, HQ. apply option_index_range in E. lia.
Qed.

Lemma ckeeps_getyesno s yes no (Q : Z → Prop) : (∀ z, Q z) → ckeeps (getyesno s yes no) Q.
Proof.
  intros HQ. unfold getyesno. apply (ckeeps_bind _ _ (λ _, True)); [by apply ckeeps_getenum|].
  intros i _. by apply ckeeps_ret.
Qed.

Lemma ckeeps_get_index_die n die (Q : Z → Prop) : (∀ z, Q z) → ckeeps (get_index_die H n die) Q.
Proof.
  intros HQ. apply (ckeeps_bind _ _ (λ _, True)); [by apply ckeeps_hostcall|]. intros r _.
  destruct (r =? 0); [destruct die; [apply ckeeps_exit|]|]; by apply ckeeps_ret.
Qed.

(** *** The ways commands begin *)

Definition any : Z → Prop := λ _, True.

Lemma ckeeps_with_bridge argv f :
  (1 < length argv)%nat → (∀ i, ckeeps (f i) any) → ckeeps (with_bridge H argv f) any.
Proof.
  intros Hl Hf. apply (ckeeps_bind _ _ (λ _, True)); [by apply ckeeps_arg|]. intros n _.
  apply (ckeeps_bind _ _ any); [by apply ckeeps_get_index_die|]. intros i _.
  destruct (i <? 0); [by apply ckeeps_ret|apply Hf].
Qed.

Lemma ckeeps_with_port argv f :
  (2 < length argv)%nat → (∀ i j, ckeeps (f i j) any) → ckeeps (with_port H argv f) any.
Proof.
  intros Hl Hf. apply ckeeps_with_bridge; [lia|]. intros i.
  apply (ckeeps_bind _ _ (λ _, True)); [by apply ckeeps_arg|]. intros n _.
  apply (ckeeps_bind _ _ any); [by apply ckeeps_get_index_die|]. intros j _.
  destruct (j <? 0); [by apply ckeeps_ret|apply Hf].
Qed.

Lemma ckeeps_with_mstid k argv f :
  (k < length argv)%nat → (∀ i, ckeeps (f i) any) → ckeeps (with_mstid k argv f) any.
Proof.
  intros Hl Hf. apply (ckeeps_bind _ _ (λ _, True)); [by apply ckeeps_arg|]. intros n _.
  cbv zeta. destruct (_ <? 0); [by apply ckeeps_ret|apply Hf].
Qed.

Lemma ckeeps_uint_arg k argv f :
  (k < length argv)%nat → (∀ i, ckeeps (f i) any) → ckeeps (uint_arg k argv ≫= f) any.
Proof.
  intros Hl Hf. apply (ckeeps_bind _ _ any); [|intros i _; apply Hf].
  apply (ckeeps_bind _ _ (λ _, True)); [by apply ckeeps_arg|]. intros s _. by apply ckeeps_getuint.
Qed.

Lemma ckeeps_bind_arg k argv f :
  (k < length argv)%nat → (∀ s, ckeeps (f s) any) → ckeeps (arg k argv ≫= f) any.
Proof. intros Hl Hf. apply (ckeeps_bind _ _ (λ _, True)); [by apply ckeeps_arg|auto]. Qed.

Lemma ckeeps_with_answer c x f :
  (∀ l, ckeeps (f (unpack_OUT B c l)) any) → ckeeps (with_answer K A B H uid c x f) any.
Proof.
  intros Hf. eapply ckeeps_bind; [apply ckeeps_client_side|]. intros [e|o] Ho; [by apply ckeeps_ret|].
  destruct (Ho o eq_refl) as [l ->]. apply Hf.
Qed.

(** A request, and a message if it failed. *)
Lemma ckeeps_report c x what :
  ckeeps (r ← request K A B H uid c x;
          (if r ≠? 0 then printf what else mret ()) ;; mret r) any.
Proof.
  apply (ckeeps_bind _ _ any); [by apply ckeeps_request|]. intros r _.
  apply (ckeeps_bind _ _ (λ _, True)); [|intros _ _; by apply ckeeps_ret].
  destruct (r ≠? 0); [by apply ckeeps_printf|by apply ckeeps_ret].
Qed.

Lemma ckeeps_in_format plain json : ckeeps (in_format format plain json) any.
Proof.
  unfold in_format. destruct (match format with FORMAT_PLAIN => plain | FORMAT_JSON => json end).
  apply (ckeeps_bind _ _ (λ _, True)); [by apply ckeeps_printf|]. intros _ _. by apply ckeeps_ret.
Qed.

(** *** Loops *)

Lemma ckeeps_get_indexes names : ckeeps (get_indexes H names) (λ _, True).
Proof.
  induction names as [|n names IH]; [by apply ckeeps_ret|]. cbn.
  apply (ckeeps_bind _ _ any); [by apply ckeeps_get_index_die|]. intros i _.
  eapply ckeeps_bind; [exact IH|]. intros l _. by apply ckeeps_ret.
Qed.

Lemma ckeeps_bridges_command cmd argv : ckeeps (bridges_command K A B H uid cmd argv) any.
Proof.
  unfold bridges_command. apply (ckeeps_bind _ _ (λ _, True)); [by apply ckeeps_hostcall|].
  intros ok _. destruct ok; [|by apply ckeeps_ret].
  eapply ckeeps_bind; [apply ckeeps_get_indexes|]. intros l _. by apply ckeeps_bridges_request.
Qed.

Lemma ckeeps_parse_all max_index max_value no_zero args : ∀ array,
  0 <= max_index → Z.of_nat (length array) = max_index + 1 →
  ckeeps (parse_all H (ParseList max_index max_value no_zero) args array) (λ _, True).
Proof.
  induction args as [|a args IH]; intros array Hm Hl; [by apply ckeeps_ret|]. cbn [parse_all].
  apply (ckeeps_bind _ _ (λ _, True)); [by apply ckeeps_hostcall|]. intros ok _.
  destruct (ParseList_result max_index max_value no_zero ok a array Hm Hl)
    as (ret & array' & E & _ & v & _ & Hlen & _).
  apply (ckeeps_bind _ _ (λ p, length (snd p) = length array)).
  - apply ckeeps_of_array. eauto.
  - intros [r a'] Ha. cbn in Ha. destruct (r <? 0); [by apply ckeeps_ret|].
    apply IH; [done|by rewrite Ha].
Qed.

Lemma ckeeps_text (t : list Z) : ckeeps (printf t ;; mret 0) any.
Proof.
  apply (ckeeps_bind _ _ (λ _, True)); [by apply ckeeps_printf|]. intros _ _. by apply ckeeps_ret.
Qed.

Lemma ckeeps_show_table T argv array n :
  tb_max_value T < UNSET → (1 < length argv)%nat →
  Z.of_nat (tb_start T) < Z.of_nat (length array) → (length array < n)%nat →
  ckeeps (name ← arg 1 argv; text ← of_array (show_table T format n array name);
          printf text ;; mret 0) any.
Proof.
  intros HT Ha Hl Hn. apply ckeeps_bind_arg; [done|]. intros name.
  apply (ckeeps_bind _ _ (λ _, True)).
  - apply ckeeps_of_array. destruct (show_table_total T format n array name) as [x ->]; [done|lia|].
    eauto.
  - intros t _. apply ckeeps_text.
Qed.

Lemma ckeeps_json c : ckeeps (match format with FORMAT_JSON => printf c | FORMAT_PLAIN => mret () end)
  (λ _, True).
Proof. destruct format; [by apply ckeeps_ret|by apply ckeeps_printf]. Qed.

Lemma ckeeps_show_array {X} (show : X → C Z) l :
  (∀ x, ckeeps (show x) any) → ckeeps (show_array format show l) any.
Proof.
  intros Hs. assert (∀ first r, ckeeps (show_each format show first l r) any) as He.
  { induction l as [|x l IH]; intros first r; cbn; [by apply ckeeps_ret|].
    apply (ckeeps_bind _ _ (λ _, True)); [destruct first; [by apply ckeeps_ret|apply ckeeps_json]|].
    intros _ _. eapply ckeeps_bind; [apply Hs|]. intros e _. apply IH. }
  unfold show_array. eapply ckeeps_bind; [apply ckeeps_json|]. intros _ _.
  eapply ckeeps_bind; [apply He|]. intros r _.
  eapply ckeeps_bind; [apply ckeeps_json|]. intros _ _. by apply ckeeps_ret.
Qed.

Lemma ckeeps_do_showbridge n p : ckeeps (do_showbridge K A B H uid format n p) any.
Proof.
  unfold do_showbridge. apply (ckeeps_bind _ _ any); [by apply ckeeps_get_index_die|]. intros i _.
  destruct (i <? 0); [by apply ckeeps_ret|]. apply ckeeps_with_answer. intros l.
  destruct (unpack_OUT B get_cist_bridge_status l). apply ckeeps_in_format.
Qed.

Lemma ckeeps_do_showport i b n p : ckeeps (do_showport K A B H uid format i b n p) any.
Proof.
  unfold do_showport. apply (ckeeps_bind _ _ any); [by apply ckeeps_get_index_die|]. intros j _.
  destruct (j <? 0); [by apply ckeeps_ret|]. apply ckeeps_with_answer.
  intros l s. by apply ckeeps_in_format.
Qed.

Lemma ckeeps_filter_entries p l :
  (∀ x, ckeeps (p x) (λ _, True)) → ckeeps (filter_entries p l) (λ _, True).
Proof.
  intros Hp. induction l as [|x l IH]; [by apply ckeeps_ret|]. cbn.
  eapply ckeeps_bind; [apply Hp|]. intros b _. eapply ckeeps_bind; [exact IH|].
  intros l' _. by apply ckeeps_ret.
Qed.

Lemma ckeeps_cmd_showbridge argv : ckeeps (cmd_showbridge K A B H uid format argv) any.
Proof.
  unfold cmd_showbridge. destruct (drop 1 argv) as [|n names].
  - apply (ckeeps_bind _ _ (λ _, True)).
    + apply (ckeeps_bind _ _ (λ _, True)); [by apply ckeeps_hostcall|]. intros [l|] _;
        [|by apply ckeeps_ret].
      eapply ckeeps_bind; [apply ckeeps_filter_entries; intros x; by apply ckeeps_hostcall|].
      intros l' _. by apply ckeeps_ret.
    + intros [l|] _; [|by apply ckeeps_ret]. apply ckeeps_show_array. intros x.
      apply ckeeps_do_showbridge.
  - destruct (names_and_param cist_bridge_params (n :: names)).
    apply ckeeps_show_array. intros x. apply ckeeps_do_showbridge.
Qed.

Lemma ckeeps_cmd_showport argv : (1 < length argv)%nat →
  ckeeps (cmd_showport K A B H uid format argv) any.
Proof.
  intros Hl. apply ckeeps_with_bridge; [done|]. intros i. apply ckeeps_bind_arg; [done|].
  intros br. destruct (drop 2 argv) as [|n names].
  - apply (ckeeps_bind _ _ (λ _, True)).
    + apply (ckeeps_bind _ _ (λ _, True)); [by apply ckeeps_hostcall|]. intros l _.
      by apply ckeeps_ret.
    + intros [l|] _; [|by apply ckeeps_ret]. apply ckeeps_show_array. intros x.
      apply ckeeps_do_showport.
  - destruct (names_and_param cist_port_params (n :: names)).
    apply ckeeps_show_array. intros x. apply ckeeps_do_showport.
Qed.

Lemma ckeeps_cmd_showportdetail argv : (1 < length argv)%nat →
  ckeeps (cmd_showportdetail K A B H uid format argv) any.
Proof.
  intros Hl. apply (ckeeps_bind _ _ (λ _, True)); [by intros s Hs|]. intros _ _.
  by apply ckeeps_cmd_showport.
Qed.

Lemma ckeeps_port_yesno what c argv : (3 < length argv)%nat →
  ckeeps (port_yesno K A B H uid what c argv) any.
Proof.
  intros Hl. apply ckeeps_with_port; [lia|]. intros i j. apply ckeeps_bind_arg; [done|]. intros s.
  apply (ckeeps_bind _ _ any); [by apply ckeeps_getyesno|]. intros v _. apply ckeeps_report.
Qed.

(** A choice among the words [opt], each with its value. *)
Lemma ckeeps_choice s opt (vals : list Z) f :
  length vals = length opt → (∀ v, ckeeps (f v) any) →
  ckeeps (i ← getenum s opt; v ← of_array (vals !! Z.to_nat i); f v) any.
Proof.
  intros Hl Hf. apply (ckeeps_bind _ _ (λ i, 0 <= i < Z.of_nat (length opt)));
    [by apply ckeeps_getenum|]. intros i Hi.
  apply (ckeeps_bind _ _ (λ _, True)); [|auto]. apply ckeeps_of_array.
  destruct (lookup_lt_is_Some_2 vals (Z.to_nat i)) as [x ->]; [lia|by eauto].
Qed.

Lemma ckeeps_cmd_showvid2fid argv : (1 < length argv)%nat →
  ckeeps (cmd_showvid2fid K A B H uid format argv) any.
Proof.
  intros Hl. apply ckeeps_with_bridge; [done|]. intros i. apply ckeeps_with_answer. intros l.
  pose proof (ca_vids HB l). unfold MAX_VID in *.
  apply ckeeps_show_table; [done|done|cbn; lia|unfold table_fuel; lia].
Qed.

Lemma ckeeps_cmd_showfid2mstid argv : (1 < length argv)%nat →
  ckeeps (cmd_showfid2mstid K A B H uid format argv) any.
Proof.
  intros Hl. apply ckeeps_with_bridge; [done|]. intros i. apply ckeeps_with_answer. intros l.
  pose proof (ca_fids HB l). unfold MAX_FID in *.
  apply ckeeps_show_table; [done|done|cbn; lia|unfold table_fuel; lia].
Qed.

Lemma ckeeps_cmd_showportparams argv : (3 < length argv)%nat →
  ckeeps (cmd_showportparams K A B H uid format argv) any.
Proof.
  intros Hl. apply ckeeps_with_bridge; [lia|]. intros i.
  destruct (find_params (drop 3 argv)); [|by apply ckeeps_ret].
  repeat (apply ckeeps_bind_arg; [lia|intros ?]).
  apply ckeeps_show_array. intros p. apply ckeeps_do_showport.
Qed.

Lemma ckeeps_cmd_showtree argv : (2 < length argv)%nat →
  ckeeps (cmd_showtree K A B H uid format argv) any.
Proof.
  intros Hl. apply ckeeps_with_bridge; [lia|]. intros i. apply ckeeps_with_mstid; [lia|].
  intros m. apply ckeeps_with_answer. intros l. destruct (unpack_OUT _ _ _).
  apply ckeeps_bind_arg; [lia|]. intros n. apply ckeeps_in_format.
Qed.

Lemma ckeeps_cmd_setmstconfid argv : (3 < length argv)%nat →
  ckeeps (cmd_setmstconfid K A B H uid argv) any.
Proof.
  intros Hl. apply ckeeps_with_bridge; [lia|]. intros i. apply ckeeps_uint_arg; [lia|]. intros r.
  destruct (_ <? r); [by apply ckeeps_ret|]. apply ckeeps_bind_arg; [lia|]. intros n.
  by apply ckeeps_request.
Qed.

(** setvid2fid and setfid2mstid *)
Lemma ckeeps_set_table max_index max_value no_zero args array f :
  0 <= max_index → Z.of_nat (length array) = max_index + 1 → (∀ l, ckeeps (f l) any) →
  ckeeps ('(ret, l) ← parse_all H (ParseList max_index max_value no_zero) args array;
          if (ret : Z) <? 0 then mret ret else f l) any.
Proof.
  intros Hm Hl Hf. eapply ckeeps_bind; [by apply ckeeps_parse_all|]. intros [r l] _.
  destruct (r <? 0); [by apply ckeeps_ret|apply Hf].
Qed.

Lemma ckeeps_cmd_setvid2fid argv : (1 < length argv)%nat →
  ckeeps (cmd_setvid2fid K A B H uid argv) any.
Proof.
  intros Hl. apply ckeeps_with_bridge; [lia|]. intros i.
  apply ckeeps_set_table; [done|done|]. intros l. by apply ckeeps_request.
Qed.

Lemma ckeeps_cmd_setfid2mstid argv : (1 < length argv)%nat →
  ckeeps (cmd_setfid2mstid K A B H uid argv) any.
Proof.
  intros Hl. apply ckeeps_with_bridge; [lia|]. intros i.
  apply ckeeps_set_table; [done|done|]. intros l. by apply ckeeps_request.
Qed.

Lemma ckeeps_cmd_setbridgeforcevers argv : (2 < length argv)%nat →
  ckeeps (cmd_setbridgeforcevers K A B H uid argv) any.
Proof.
  intros Hl. apply ckeeps_with_bridge; [lia|]. intros i. apply ckeeps_bind_arg; [lia|]. intros s.
  apply ckeeps_choice; [done|]. intros v. apply ckeeps_report.
Qed.

Lemma ckeeps_cmd_setportp2p argv : (3 < length argv)%nat →
  ckeeps (cmd_setportp2p K A B H uid argv) any.
Proof.
  intros Hl. apply ckeeps_with_port; [lia|]. intros i j. apply ckeeps_bind_arg; [lia|]. intros s.
  apply ckeeps_choice; [done|]. intros v. apply ckeeps_report.
Qed.

(** ** Every command of the table *)

Ltac safe_step :=
  first
  [ apply ckeeps_bridges_command
  | apply ckeeps_cmd_showbridge
  | apply ckeeps_cmd_showvid2fid; lia
  | apply ckeeps_cmd_showfid2mstid; lia
  | apply ckeeps_cmd_showportparams; lia
  | apply ckeeps_cmd_showtree; lia
  | apply ckeeps_cmd_setmstconfid; lia
  | apply ckeeps_cmd_setvid2fid; lia
  | apply ckeeps_cmd_setfid2mstid; lia
  | apply ckeeps_cmd_setbridgeforcevers; lia
  | apply ckeeps_cmd_setportp2p; lia
  | apply ckeeps_cmd_showport; lia
  | apply ckeeps_cmd_showportdetail; lia
  | apply ckeeps_port_yesno; lia
  | apply ckeeps_with_port; [lia|intros ? ?]
  | apply ckeeps_with_bridge; [lia|intros ?]
  | apply ckeeps_with_mstid; [lia|intros ?]
  | apply ckeeps_uint_arg; [lia|intros ?]
  | apply ckeeps_with_answer; intros ?
  | apply ckeeps_in_format
  | apply ckeeps_report
  | apply ckeeps_request; done
  | apply ckeeps_ret; done
  | apply ckeeps_bind_arg; [lia|intros ?] ].

Lemma commands_sound : Forall (λ c, ∀ argv, (nargs c + 1 <= length argv)%nat →
  ckeeps (func c argv) any) (commands K A B H uid format).
Proof.
  unfold commands.
  repeat (apply Forall_cons; split; [intros argv Hl; cbn [func nargs] in *|]); [..|done].
  all: unfold cmd_addbridge, cmd_delbridge, cmd_showmstilist, cmd_showmstconfid,
    cmd_setportadminedge, cmd_setportautoedge, cmd_setportrestrrole, cmd_setportrestrtcn,
    cmd_setportbpduguard, cmd_setportnetwork, cmd_setportdonttxmt, cmd_setportbpdufilter,
    cmd_setbridgemaxage, cmd_setbridgefdelay, cmd_setbridgemaxhops, cmd_setbridgehello,
    cmd_setbridgeageing, cmd_setbridgetxholdcount, cmd_createtree, cmd_deletetree,
    cmd_settreeprio, cmd_setportpathcost, cmd_portmcheck, cmd_settreeportprio,
    cmd_settreeportcost, cmd_showtreeport, cmd_showtree, cmd_debuglevel.
  all: repeat safe_step.
Qed.

Lemma validated_sound argv cmd :
  command_lookup_and_validate K A B H uid format argv = Some cmd → ckeeps (func cmd argv) any.
Proof.
  unfold command_lookup_and_validate, command_lookup.
  destruct (List.find _ _) as [c|] eqn:E; [|done]. cbn [mbind option_bind].
  destruct (length argv <? nargs c + 1)%nat eqn:Hn; cbn [orb]; [done|].
  destruct (nargs c + optargs c + 1 <? length argv)%nat; [done|]. intros Heq. injection Heq as <-. apply find_some in E as [Hin _].
  apply Nat.ltb_ge in Hn.
  pose proof commands_sound as Hs. rewrite Forall_forall in Hs. apply Hs; [|done].
  by apply list_elem_of_In.
Qed.

Lemma ckeeps_main_command argv : ckeeps (main_command K A B H uid format argv) any.
Proof.
  unfold main_command. destruct (command_lookup_and_validate _ _ _ _ _ _ _) as [c|] eqn:E;
    [by apply validated_sound|].
  apply (ckeeps_bind _ _ (λ _, True)); [|intros _ _; by apply ckeeps_ret].
  case_bool_decide; [by apply ckeeps_ret|by apply ckeeps_printf].
Qed.

Lemma ckeeps_process_lines run ignore lines : ∀ n,
  ckeeps (process_lines K A B H uid format run ignore lines n) any.
Proof.
  induction lines as [|l lines IH]; intros n; cbn [process_lines]; [by apply ckeeps_ret|].
  destruct (skip_line l); [apply IH|].
  rewrite line_argv_words. destruct (line_words l) as [[|a argv]|]; [apply IH| |by apply ckeeps_ret].
  destruct (command_lookup_and_validate _ _ _ _ _ _ _) as [c|] eqn:E.
  - destruct run; [|apply IH]. eapply ckeeps_bind; [by apply validated_sound|]. intros rc _.
    destruct (rc ≠? 0); [|apply IH]. destruct ignore; [apply IH|by apply ckeeps_ret].
  - destruct ignore; [apply IH|by apply ckeeps_ret].
Qed.

Lemma ckeeps_process_batch file ignore is_stdin :
  ckeeps (process_batch_cmds K A B H uid format file ignore is_stdin) any.
Proof.
  unfold process_batch_cmds. cbv zeta.
  assert (ckeeps (rc ← __process_batch_cmds K A B H uid format file true ignore;
                  mret (if rc <? 0 then 1 else 0)) any) as H2.
  { eapply ckeeps_bind; [apply ckeeps_process_lines|]. intros rc _. by apply ckeeps_ret. }
  destruct is_stdin; [done|]. eapply ckeeps_bind; [apply ckeeps_process_lines|]. intros rc _.
  destruct (rc <? 0); [by apply ckeeps_ret|]. destruct (rc =? 0); [by apply ckeeps_ret|done].
Qed.

End session.
