(* ===== verification/Ctlmain.v ===== *)
(** * main() of the client (src/ctl_main.c)

    The options of mstpctl, and that whatever they are the client and the daemon it
    talks to are safe. *)
From S2P Require Import Prelude Types Monad Md5 Clib Kernel Track Control.
From S2P Require Import Safety Daemon Requests Service Tables Client Show Commands Batch Session.

(** What getopt_long() returns, with [optarg]. *)
Inductive client_option :=
| Option_help
| Option_version
| Option_batch (optarg : option (list Z))
| Option_stdin
| Option_ignore
| Option_format (optarg : list Z)
| Option_unknown.

Record client_settings := mk_client_settings {
  cs_format : format_id_t;
  cs_batch : option (list Z);   (* what the batch file contains *)
  cs_is_stdin : bool;
  cs_ignore : bool
}.
Definition no_settings : client_settings := mk_client_settings FORMAT_PLAIN None false false.

Section main.
Context (K : kernel) (A : abi) (B : client_abi) (H : host) (uid : Z).
Context (fopen : nat → list Z → option (list Z)) (stdin : list Z) (PACKAGE_VERSION : string).
Context (ctl_client_init : nat → bool).

Notation help := (help K A B H uid).

(** The label at the end of main(). *)
Definition help_exit {X} : C (Z + X) := printf (help FORMAT_PLAIN) ;; mret (inl 1).

(** The loop over the options: the exit status, or the settings. *)
Fixpoint read_client_options (opts : list client_option) (s : client_settings) :
    C (Z + client_settings) :=
  let '(mk_client_settings format batch_file is_stdin ignore) := s in
  match opts with
  | [] => mret (inr s)
  | Option_help :: _ => printf (help format) ;; mret (inl 0)
  | Option_version :: _ => printf (line (chars PACKAGE_VERSION)) ;; mret (inl 0)
  | Option_batch optarg :: opts =>
      if is_stdin then help_exit else
      match optarg with
      | None | Some [] => help_exit
      | Some file_name =>
          f ← hostcall (λ n, fopen n file_name);
          match (f : option (list Z)) with
          | None => help_exit
          | Some contents =>
              read_client_options opts (mk_client_settings format (Some contents) is_stdin ignore)
          end
      end
  | Option_stdin :: opts =>
      match batch_file with
      | Some _ => help_exit
      | None => read_client_options opts (mk_client_settings format (Some stdin) true ignore)
      end
  | Option_ignore :: opts =>
      read_client_options opts (mk_client_settings format batch_file is_stdin true)
  | Option_format optarg :: opts =>
      if optarg ==? chars "json"
      then read_client_options opts (mk_client_settings FORMAT_JSON batch_file is_stdin ignore)
      else if optarg ==? chars "plain"
      then read_client_options opts (mk_client_settings FORMAT_PLAIN batch_file is_stdin ignore)
      else help_exit
  | Option_unknown :: _ => help_exit
  end.

(** main(): [argv] holds the arguments after the options. *)
Definition client_main (opts : list client_option) (argv : list (list Z)) : C Z :=
  r ← read_client_options opts no_settings;
  match (r : Z + client_settings) with
  | inl status => mret status
  | inr (mk_client_settings format batch_file is_stdin ignore) =>
      if bool_decide (argv = []) && bool_decide (batch_file = None)
      then printf (help format) ;; mret 1
      else
        ok ← hostcall ctl_client_init;
        if negb (ok : bool) then mret 1 else
        match batch_file with
        | Some file => process_batch_cmds K A B H uid format file ignore is_stdin
        | None => main_command K A B H uid format argv
        end
  end.
End main.

(** ** mstpctl is safe *)

Section safe.
Context (K : kernel) (A : abi) (B : client_abi) (H : host) (uid : Z).
Context (fopen : nat → list Z → option (list Z)) (stdin : list Z) (PACKAGE_VERSION : string).
Context (ctl_client_init : nat → bool).
Context (Hstack : ∀ n, length (k_stack K n) = 64%nat) (HA : abi_ok A) (HB : client_abi_ok A B).

Lemma ckeeps_help_exit {X} (Q : Z + X → Prop) :
  (∀ e, Q (inl e)) → ckeeps K A (help_exit K A B H uid) Q.
Proof.
  intros HQ. apply (ckeeps_bind _ _ _ _ (λ _, True)); [by apply ckeeps_printf|].
  intros _ _. by apply ckeeps_ret.
Qed.

Lemma ckeeps_client_options opts : ∀ s,
  ckeeps K A (read_client_options K A B H uid fopen stdin PACKAGE_VERSION opts s) (λ _, True).
Proof.
  induction opts as [|o opts IH]; intros [format batch_file is_stdin ignore];
    [by apply ckeeps_ret|]. cbn [read_client_options].
  destruct o as [| |[[|c f]|]| | |f|].
  - apply (ckeeps_bind _ _ _ _ (λ _, True)); [by apply ckeeps_printf|]. intros _ _. by apply ckeeps_ret.
  - apply (ckeeps_bind _ _ _ _ (λ _, True)); [by apply ckeeps_printf|]. intros _ _. by apply ckeeps_ret.
  - destruct is_stdin; by apply ckeeps_help_exit.
  - destruct is_stdin; [by apply ckeeps_help_exit|].
    apply (ckeeps_bind _ _ _ _ (λ _, True)); [by apply ckeeps_hostcall|].
    intros [contents|] _; [apply IH|by apply ckeeps_help_exit].
  - destruct is_stdin; by apply ckeeps_help_exit.
  - destruct batch_file; [by apply ckeeps_help_exit|apply IH].
  - apply IH.
  - destruct (f ==? _); [apply IH|]. destruct (f ==? _); [apply IH|by apply ckeeps_help_exit].
  - by apply ckeeps_help_exit.
Qed.

(** C25: No user can make mstpctl or the daemon access memory out of bounds.  Whatever the
    options, the words on the command line and the contents of a batch file are, whoever
    the user is, and whatever the host answers: from a daemon that a sequence of events
    led to, the client reads its arguments and tables within their bounds, the daemon
    handles all its requests without a fault, and the daemon is again in such a state when
    the client returns or exits. *)
Theorem client_main_safe opts argv s :
  reachable_daemon K A (c_daemon s) →
  match client_main K A B H uid fopen stdin PACKAGE_VERSION ctl_client_init opts argv s with
  | CDone _ s' | CExit _ s' => reachable_daemon K A (c_daemon s')
  | CFault => False
  | COutOfFuel => True
  end.
Proof.
  intros Hs. assert (ckeeps K A (client_main K A B H uid fopen stdin PACKAGE_VERSION ctl_client_init
    opts argv) (λ _, True)) as Hk.
  { unfold client_main. eapply ckeeps_bind; [apply ckeeps_client_options|].
    intros [status|[format batch_file is_stdin ignore]] _; [by apply ckeeps_ret|].
    destruct (_ && _).
    { apply (ckeeps_bind _ _ _ _ (λ _, True)); [by apply ckeeps_printf|]. intros _ _. by apply ckeeps_ret. }
    apply (ckeeps_bind _ _ _ _ (λ _, True)); [by apply ckeeps_hostcall|]. intros ok _.
    destruct (negb ok); [by apply ckeeps_ret|].
    destruct batch_file; [by apply ckeeps_process_batch|by apply ckeeps_main_command]. }
  specialize (Hk s Hs). by destruct (client_main _ _ _ _ _ _ _ _ _ _ _ s); [destruct Hk| | |].
Qed.
End safe.
