(* ===== verification/Netlink.v ===== *)
(** * Messages of the kernel (src/libnetlink.c, src/brmon.c)

    The daemon learns of interfaces and their bridges from the link messages of
    rtnetlink.  Here is how a datagram of the kernel is taken apart: rtnl_listen goes
    through its messages, parse_rtattr through the attributes of one, and listen_msg
    turns a message into a call of bridge_notify; and how a request is put together
    (addattr_l, br_set_state). *)
From S2P Require Import Prelude Types Monad Clib Vectors Kernel Track.

(** ** Octets of a buffer

    A pointer into a buffer is an offset.  [None] is an access outside of the buffer. *)
Definition octets_at (buf : list Z) (off n : Z) : option (list Z) :=
  if (0 <=? off) && (off + n <=? Z.of_nat (length buf))
  then Some (take (Z.to_nat n) (drop (Z.to_nat off) buf)) else None.

Definition store_octets (l : list Z) (off : Z) (buf : list Z) : option (list Z) :=
  if (0 <=? off) && (off + Z.of_nat (length l) <=? Z.of_nat (length buf))
  then Some (take (Z.to_nat off) buf ++ l ++ drop (Z.to_nat off + length l) buf) else None.

(** The integers of netlink are in the order of the host. *)
Class HostOrder := {
  put_uint : nat → Z → list Z;
  get_uint : list Z → Z;
  length_put_uint n v : length (put_uint n v) = n;
  get_put_uint n v : get_uint (put_uint n v) = v mod 256 ^ Z.of_nat n;
  get_uint_range l : Forall in_u8 l → 0 <= get_uint l < 256 ^ Z.of_nat (length l);
  put_uint_octets n v : Forall in_u8 (put_uint n v);
  put_uint_0 n : put_uint n 0 = replicate n 0
}.

Lemma be_bytes_0 n : be_bytes n 0 = replicate n 0.
Proof. induction n as [|n IH]; [done|]. cbn [be_bytes replicate]. by rewrite IH, Zdiv_0_l. Qed.

#[export] Program Instance big_endian : HostOrder | 20 := {|
  put_uint := be_bytes; get_uint := be_value
|}.
Next Obligation. apply length_be_bytes. Qed.
Next Obligation. apply be_value_be_bytes. Qed.
Next Obligation. intros l Hl. by apply be_value_bound. Qed.
Next Obligation. apply Forall_be_bytes. Qed.
Next Obligation. apply be_bytes_0. Qed.

#[export] Program Instance little_endian : HostOrder | 10 := {|
  put_uint n v := rev (be_bytes n v); get_uint l := be_value (rev l)
|}.
Next Obligation. intros n v; cbv beta. by rewrite length_rev, length_be_bytes. Qed.
Next Obligation. intros n v; cbv beta. by rewrite rev_involutive, be_value_be_bytes. Qed.
Next Obligation. intros l Hl; cbv beta. rewrite <- (length_rev l). by apply be_value_bound, Forall_rev. Qed.
Next Obligation. intros n v; cbv beta. apply Forall_rev, Forall_be_bytes. Qed.
Next Obligation. intros n; cbv beta. rewrite be_bytes_0, rev_alt. apply reverse_replicate. Qed.

Section netlink.
Context `{HostOrder}.

Definition uint_at (buf : list Z) (off : Z) (n : nat) : option Z :=
  get_uint <$> octets_at buf off (Z.of_nat n).
Definition int_at (buf : list Z) (off : Z) : option Z := s32 <$> uint_at buf off 4.

(** ** Attributes *)

(** RTA_ALIGN and NLMSG_ALIGN *)
Definition align4 (n : Z) : Z := Z.land (n + 3) (Z.lnot 3).

Definition sizeof_rtattr : Z := 4.
Definition RTA_LENGTH (n : Z) : Z := sizeof_rtattr + n.
Definition RTA_DATA (rta : Z) : Z := rta + RTA_LENGTH 0.
Definition rta_len (buf : list Z) (rta : Z) : option Z := uint_at buf rta 2.
Definition rta_type (buf : list Z) (rta : Z) : option Z := uint_at buf (rta + 2) 2.

Definition RTA_OK (buf : list Z) (rta len : Z) : option bool :=
  if len <? sizeof_rtattr then Some false else
  l ← rta_len buf rta; Some ((sizeof_rtattr <=? l) && (l <=? len)).

(** The loop of parse_rtattr_flags; [tb] is the table of pointers.  An unused tail is
    logged with the length that is read there. *)
Fixpoint parse_rtattr_loop (fuel : nat) (buf : list Z) (tb : list (option Z)) (max rta len : Z) :
    option (list (option Z)) :=
  match fuel with
  | O => None
  | S fuel =>
      ok ← RTA_OK buf rta len;
      if (ok : bool) then
        l ← rta_len buf rta;
        type ← rta_type buf rta;
        let tb := if (type <=? max) && bool_decide (tb !! Z.to_nat type = Some None)
                  then <[Z.to_nat type := Some rta]> tb else tb in
        parse_rtattr_loop fuel buf tb max (rta + align4 l) (len - align4 l)
      else if len ≠? 0 then rta_len buf rta ;; Some tb else Some tb
  end.

Definition parse_rtattr (buf : list Z) (max rta len : Z) : option (list (option Z)) :=
  parse_rtattr_loop (S (Z.to_nat len)) buf (replicate (Z.to_nat max + 1) None) max rta len.

(** addattr_l: the result and the buffer that holds the message. *)
Definition addattr_l (maxlen type : Z) (data buf : list Z) : option (Z * list Z) :=
  let len := RTA_LENGTH (Z.of_nat (length data)) in
  n ← uint_at buf 0 4;
  if maxlen <? align4 n + align4 len then Some (-1, buf) else
  let rta := align4 n in
  buf ← store_octets (put_uint 2 type) (rta + 2) buf;
  buf ← store_octets (put_uint 2 len) rta buf;
  buf ← store_octets data (RTA_DATA rta) buf;
  buf ← store_octets (put_uint 4 (align4 n + align4 len)) 0 buf;
  Some (0, buf).

(** ** Headers *)

Definition sizeof_nlmsghdr : Z := 16.
Definition sizeof_ifinfomsg : Z := 16.
Definition NLMSG_LENGTH (n : Z) : Z := n + align4 sizeof_nlmsghdr.
Definition NLMSG_DATA (h : Z) : Z := h + NLMSG_LENGTH 0.
Definition nlmsg_len (buf : list Z) (h : Z) : option Z := int_at buf h.
Definition nlmsg_type (buf : list Z) (h : Z) : option Z := uint_at buf (h + 4) 2.
Definition ifi_family (buf : list Z) (ifi : Z) : option Z := uint_at buf ifi 1.
Definition ifi_index (buf : list Z) (ifi : Z) : option Z := int_at buf (ifi + 4).
Definition ifi_flags (buf : list Z) (ifi : Z) : option Z := uint_at buf (ifi + 8) 4.
Definition IFLA_RTA (ifi : Z) : Z := ifi + align4 sizeof_ifinfomsg.

(** linux/netlink.h, linux/rtnetlink.h, linux/if_link.h, sys/socket.h *)
Definition NLMSG_DONE : Z := 3.
Definition RTM_NEWLINK : Z := 16.
Definition RTM_DELLINK : Z := 17.
Definition RTM_SETLINK : Z := 19.
Definition AF_UNSPEC : Z := 0.
Definition AF_BRIDGE : Z := 7.
Definition IFLA_IFNAME : Z := 3.
Definition IFLA_MTU : Z := 4.
Definition IFLA_MASTER : Z := 10.
Definition IFLA_PROTINFO : Z := 12.
Definition IFLA_OPERSTATE : Z := 16.

(** ** br_set_state (bridge_track.c): the request it sends *)

Definition NLM_F_REQUEST : Z := 1.
Definition NLM_F_REPLACE : Z := 0x100.
Definition sizeof_req_buf : Z := 256.
Definition set_state_request (ifindex state : Z) : option (list Z) :=
  let req := replicate (Z.to_nat (sizeof_nlmsghdr + sizeof_ifinfomsg + sizeof_req_buf)) 0 in
  req ← store_octets (put_uint 4 (NLMSG_LENGTH sizeof_ifinfomsg)) 0 req;
  req ← store_octets (put_uint 2 (Z.lor NLM_F_REQUEST NLM_F_REPLACE)) 6 req;
  req ← store_octets (put_uint 2 RTM_SETLINK) 4 req;
  req ← store_octets (put_uint 1 AF_BRIDGE) (NLMSG_DATA 0) req;
  req ← store_octets (put_uint 4 ifindex) (NLMSG_DATA 0 + 4) req;
  r ← addattr_l sizeof_req_buf IFLA_PROTINFO (put_uint 1 state) req;
  Some (snd r).

(** ** listen_msg *)

(** A C string in the buffer. *)
Definition string_at (buf : list Z) (off : Z) : option (list Z) :=
  if (0 <=? off) && bool_decide (0 ∈ drop (Z.to_nat off) buf)
  then Some (until_nul (drop (Z.to_nat off) buf)) else None.

Definition text (l : list Z) : string :=
  String.string_of_list_ascii (map (λ c, Ascii.ascii_of_nat (Z.to_nat c)) l).

(** [char path[32 + IFNAMSIZ]] in is_bridge *)
Definition sizeof_path : Z := 48.

Context (K : kernel) (IFLA_MAX : Z).

Definition reads {A} (o : option A) : D A := match o with Some a => mret a | None => dfault end.

(** [tb[type]] *)
Definition attribute (tb : list (option Z)) (type : Z) : option Z := mjoin (tb !! Z.to_nat type).

(** An attribute whose value is only logged. *)
Definition logged (buf : list Z) (tb : list (option Z)) (type : Z) (n : nat) : D unit :=
  match attribute tb type with
  | Some r => reads (uint_at buf (RTA_DATA r) n) ;; dskip
  | None => dskip
  end.

(** [is_bridge(name)], with its buffer. *)
Definition is_bridge_at (name : list Z) : D bool :=
  if sizeof_path <? 15 + Z.of_nat (length name) + 7 + 1 then dfault else is_bridge K (text name).

Definition listen_msg (buf : list Z) (h : Z) : D Z :=
  len ← reads (nlmsg_len buf h);
  type ← reads (nlmsg_type buf h);
  if type =? NLMSG_DONE then mret 0 else
  let len := len - NLMSG_LENGTH sizeof_ifinfomsg in
  if len <? 0 then mret (-1) else
  let ifi := NLMSG_DATA h in
  family ← reads (ifi_family buf ifi);
  if negb ((family =? AF_BRIDGE) || (family =? AF_UNSPEC)) then mret 0 else
  if negb ((type =? RTM_NEWLINK) || (type =? RTM_DELLINK)) then mret 0 else
  tb ← reads (parse_rtattr buf IFLA_MAX (IFLA_RTA ifi) len);
  if bool_decide (is_Some (attribute tb IFLA_MASTER)) && (family ≠? AF_BRIDGE) then mret 0 else
  match attribute tb IFLA_IFNAME with
  | None => mret (-1)
  | Some ifname =>
      index ← reads (ifi_index buf ifi);
      name ← reads (string_at buf (RTA_DATA ifname));
      logged buf tb IFLA_OPERSTATE 1 ;;
      logged buf tb IFLA_MTU 4 ;;
      match attribute tb IFLA_MASTER with
      | Some r => m ← reads (int_at buf (RTA_DATA r)); index_to_name K m ;; dskip
      | None => dskip
      end ;;
      logged buf tb IFLA_PROTINFO 1 ;;
      br_index ←
        match attribute tb IFLA_MASTER with
        | Some r => reads (int_at buf (RTA_DATA r))
        | None => b ← is_bridge_at name; mret (if (b : bool) then index else -1)
        end;
      flags ← reads (ifi_flags buf ifi);
      bridge_notify K br_index index (type =? RTM_NEWLINK) flags ;;
      mret 0
  end.

(** ** rtnl_listen *)

(** The messages of a datagram of [status] octets: an error, or what is left of [status].
    The comparison with [sizeof] is one of unsigned numbers: a [status] below zero, after
    a last message that is not aligned, does not end the loop. *)
Fixpoint listen_messages (fuel : nat) (buf : list Z) (h status : Z) : D (Z + Z) :=
  match fuel with
  | O => λ _, DOutOfFuel
  | S fuel =>
      if u64 status <? sizeof_nlmsghdr then mret (inr status) else
      len ← reads (nlmsg_len buf h);
      if (s32 (len - sizeof_nlmsghdr) <? 0) || (status <? len) then mret (inl (-1)) else
      err ← listen_msg buf h;
      if err <? 0 then mret (inl err) else
      listen_messages fuel buf (h + u32 (align4 len)) (s32 (status - align4 len))
  end.

(** What recvmsg() gives: an error, or the size, the length of the sender's address,
    whether the message was truncated, and the buffer. *)
Inductive recv_result :=
| Recv_EINTR
| Recv_EAGAIN
| Recv_ENOBUFS
| Recv_error
| Received (status namelen : Z) (trunc : bool) (buf : list Z).

Definition sizeof_sockaddr_nl : Z := 12.

(** The loop of rtnl_listen over the results of recvmsg(), on a socket that does not
    block. *)
Fixpoint rtnl_listen (results : list recv_result) : D Z :=
  match results with
  | [] => mret 0
  | Recv_EINTR :: results => rtnl_listen results
  | Recv_EAGAIN :: _ => mret 0
  | Recv_ENOBUFS :: results => rtnl_listen results
  | Recv_error :: _ => mret (-1)
  | Received status namelen trunc buf :: results =>
      if status =? 0 then mret (-1) else
      if namelen ≠? sizeof_sockaddr_nl then mret (-1) else
      r ← listen_messages (S (Z.to_nat status)) buf 0 status;
      match (r : Z + Z) with
      | inl e => mret e
      | inr status =>
          if trunc then rtnl_listen results else
          if status ≠? 0 then mret (-1) else rtnl_listen results
      end
  end.

(** ** rtnl_dump_filter

    The answer to the request for all links, at the start.  [local_pid] and [dump] are
    those of the handle, [nl_pid] is the sender's. *)
Definition NLMSG_ERROR : Z := 2.
Definition nlmsg_seq (buf : list Z) (h : Z) : option Z := uint_at buf (h + 8) 4.
Definition nlmsg_pid (buf : list Z) (h : Z) : option Z := uint_at buf (h + 12) 4.

Definition NLMSG_OK (buf : list Z) (h len : Z) : option bool :=
  if len <? sizeof_nlmsghdr then Some false else
  l ← uint_at buf h 4; Some ((sizeof_nlmsghdr <=? l) && (l <=? len)).

(** Both are results below zero in every case but one. *)
Definition rtnl_dump_done (buf : list Z) (h : Z) : D Z :=
  l ← reads (uint_at buf h 4);
  if l <? NLMSG_LENGTH 4 then mret (-1) else
  len ← reads (int_at buf (NLMSG_DATA h));
  mret (if len <? 0 then -1 else 0).
Definition rtnl_dump_error (buf : list Z) (h : Z) : D Z :=
  l ← reads (uint_at buf h 4);
  (if l <? NLMSG_LENGTH 20 then dskip else reads (int_at buf (NLMSG_DATA h)) ;; dskip) ;;
  mret (-1).

Context (local_pid dump : Z).

(** The messages of one buffer: an error, or whether the last message was found and what
    is left of the length. *)
Fixpoint dump_messages (fuel : nat) (nl_pid : Z) (buf : list Z) (h msglen : Z) : D (Z + bool * Z) :=
  match fuel with
  | O => λ _, DOutOfFuel
  | S fuel =>
      ok ← reads (NLMSG_OK buf h msglen);
      if negb (ok : bool) then mret (inr (false, msglen)) else
      l ← reads (uint_at buf h 4);
      let next := dump_messages fuel nl_pid buf (h + align4 l) (msglen - align4 l) in
      pid ← reads (nlmsg_pid buf h);
      seq ← reads (nlmsg_seq buf h);
      if (nl_pid ≠? 0) || (pid ≠? local_pid) || (seq ≠? dump) then next else
      type ← reads (nlmsg_type buf h);
      if type =? NLMSG_DONE then
        err ← rtnl_dump_done buf h;
        mret (if err <? 0 then inl (-1) else inr (true, msglen))
      else if type =? NLMSG_ERROR then
        err ← rtnl_dump_error buf h;
        if err <? 0 then mret (inl (-1)) else next
      else
        err ← listen_msg buf h;
        if err <? 0 then mret (inl err) else next
  end.

(** What rtnl_recvmsg() gives: an error, or the sender, the size, whether the message was
    truncated, and the buffer. *)
Inductive dump_result :=
| Dump_error (err : Z)
| Dumped (nl_pid status : Z) (trunc : bool) (buf : list Z).

(** The loop waits for the next buffer; [None]: there is none. *)
Fixpoint rtnl_dump_filter (results : list dump_result) : D (option Z) :=
  match results with
  | [] => mret None
  | Dump_error err :: _ => mret (Some err)
  | Dumped nl_pid status trunc buf :: results =>
      r ← dump_messages (S (Z.to_nat status)) nl_pid buf 0 status;
      match (r : Z + bool * Z) with
      | inl err => mret (Some err)
      | inr (true, _) => mret (Some 0)
      | inr (false, msglen) =>
          if trunc then rtnl_dump_filter results
          else if msglen ≠? 0 then mret (Some (-1)) else rtnl_dump_filter results
      end
  end.

Definition br_ev_handler (results : list recv_result) : D unit := rtnl_listen results ;; dskip.
End netlink.
