(* ===== verification/Linkmsg.v ===== *)
(** * What the messages of the kernel mean

    The octets of a link message as the kernel lays them out, and the theorems: taking
    attributes apart stays in the buffer, a request carries what it was built from, and
    a datagram of link messages is the sequence of their notifications. *)
From S2P Require Import Prelude Types Monad Clib Vectors Kernel Track Netlink.

Section linkmsg.
Context `{HostOrder}.

(** ** Reading and writing octets *)

Lemma octets_at_inv buf off n l : octets_at buf off n = Some l →
  0 <= off ∧ off + n <= Z.of_nat (length buf) ∧ l = take (Z.to_nat n) (drop (Z.to_nat off) buf).
Proof.
  unfold octets_at. destruct (Z.leb_spec 0 off), (Z.leb_spec (off + n) (Z.of_nat (length buf)));
    cbn; try done. intros [= <-]. done.
Qed.

Lemma octets_at_Some buf off n : 0 <= off → off + n <= Z.of_nat (length buf) →
  octets_at buf off n = Some (take (Z.to_nat n) (drop (Z.to_nat off) buf)).
Proof.
  intros H1 H2. unfold octets_at.
  by rewrite (proj2 (Z.leb_le _ _) H1), (proj2 (Z.leb_le _ _) H2).
Qed.

(** The octets after a prefix. *)
Lemma octets_at_app pre l k n : 0 <= k →
  octets_at (pre ++ l) (Z.of_nat (length pre) + k) n = octets_at l k n.
Proof.
  intros Hk. unfold octets_at. rewrite length_app.
  replace (Z.to_nat (Z.of_nat (length pre) + k)) with (length pre + Z.to_nat k)%nat by lia.
  rewrite drop_app_add.
  destruct (Z.leb_spec 0 k), (Z.leb_spec 0 (Z.of_nat (length pre) + k)); try lia.
  destruct (Z.leb_spec (Z.of_nat (length pre) + k + n) (Z.of_nat (length pre + length l))),
    (Z.leb_spec (k + n) (Z.of_nat (length l))); lia || done.
Qed.

Lemma octets_at_head l post n : n = Z.of_nat (length l) → octets_at (l ++ post) 0 n = Some l.
Proof.
  intros ->. rewrite octets_at_Some by (rewrite ?length_app; lia).
  by rewrite Nat2Z.id, drop_0, take_app_length.
Qed.

Lemma uint_at_app pre l k n : 0 <= k → uint_at (pre ++ l) (Z.of_nat (length pre) + k) n = uint_at l k n.
Proof. intros Hk. unfold uint_at. by rewrite octets_at_app. Qed.

Lemma uint_at_head n v post : 0 <= v < 256 ^ Z.of_nat n → uint_at (put_uint n v ++ post) 0 n = Some v.
Proof.
  intros Hv. unfold uint_at. rewrite octets_at_head by (by rewrite length_put_uint). cbn.
  by rewrite get_put_uint, Z.mod_small.
Qed.

Lemma uint_at_Some buf off n : Forall in_u8 buf → 0 <= off → off + Z.of_nat n <= Z.of_nat (length buf) →
  ∃ v, uint_at buf off n = Some v ∧ 0 <= v < 256 ^ Z.of_nat n.
Proof.
  intros Hb H1 H2. unfold uint_at. rewrite octets_at_Some by done. eexists. split; [done|].
  assert (Forall in_u8 (take (Z.to_nat (Z.of_nat n)) (drop (Z.to_nat off) buf))) as Hr
    by (by apply Forall_take, Forall_drop).
  apply get_uint_range in Hr. rewrite length_take, length_drop in Hr.
  by replace (_ `min` _)%nat with n in Hr by lia.
Qed.

Lemma uint_at_inv buf off n v : uint_at buf off n = Some v →
  0 <= off ∧ off + Z.of_nat n <= Z.of_nat (length buf).
Proof. unfold uint_at. intros (l & (? & ? & _)%octets_at_inv & _)%fmap_Some. done. Qed.

Lemma align4_eq n : align4 n = (n + 3) / 4 * 4.
Proof.
  unfold align4. rewrite <- Z.ldiff_land. change 3 with (Z.ones 2) at 2.
  by rewrite Z.ldiff_ones_r, Z.shiftr_div_pow2, Z.shiftl_mul_pow2.
Qed.

Lemma align4_bounds n : n <= align4 n < n + 4.
Proof.
  rewrite align4_eq. pose proof (Z.mod_pos_bound (n + 3) 4). pose proof (Z.div_mod (n + 3) 4). lia.
Qed.

(** ** Going through attributes *)

Section attributes.
Context (buf : list Z) (Hbuf : Forall in_u8 buf).

(** What the table says of an attribute: where it lies between [lo] and [hi]. *)
Definition attribute_ok (lo hi type rta : Z) : Prop :=
  ∃ l, rta_type buf rta = Some type ∧ rta_len buf rta = Some l ∧
    sizeof_rtattr <= l ∧ lo <= rta ∧ rta + l <= hi.

Definition table_ok (lo hi : Z) (tb : list (option Z)) : Prop :=
  ∀ i rta, tb !! i = Some (Some rta) → attribute_ok lo hi (Z.of_nat i) rta.

Lemma RTA_OK_Some rta len : 0 <= rta → rta + len <= Z.of_nat (length buf) →
  ∃ ok, RTA_OK buf rta len = Some ok ∧
    (ok = true → ∃ l type, rta_len buf rta = Some l ∧ rta_type buf rta = Some type ∧
       0 <= type ∧ sizeof_rtattr <= l <= len).
Proof.
  intros H0 Hl. unfold RTA_OK, rta_len, rta_type, sizeof_rtattr.
  destruct (Z.ltb_spec len 4); [by exists false|].
  destruct (uint_at_Some buf rta 2 Hbuf) as (l & El & _); [lia..|].
  destruct (uint_at_Some buf (rta + 2) 2 Hbuf) as (t & Et & Ht); [lia..|].
  rewrite El. cbn [mbind option_bind]. eexists. split; [done|]. intros Hok.
  exists l, t. apply andb_true_iff in Hok. split_and!; done || lia.
Qed.

Lemma parse_rtattr_loop_ok max lo hi fuel : ∀ tb rta len,
  (Z.to_nat len < fuel)%nat → 0 <= lo <= rta → rta + len = hi → -4 < len →
  hi + 5 <= Z.of_nat (length buf) → table_ok lo hi tb →
  ∃ tb', parse_rtattr_loop fuel buf tb max rta len = Some tb' ∧
    length tb' = length tb ∧ table_ok lo hi tb'.
Proof.
  induction fuel as [|fuel IH]; intros tb rta len Hf Hlo Hhi Hlen Hroom Htb; [lia|].
  cbn [parse_rtattr_loop].
  destruct (RTA_OK_Some rta len) as (ok & -> & Hok); [lia..|]. cbn [mbind option_bind].
  destruct ok.
  - destruct (Hok eq_refl) as (l & type & El & Et & Ht & Hl). rewrite El, Et.
    cbn [mbind option_bind]. unfold sizeof_rtattr in Hl. pose proof (align4_bounds l).
    match goal with |- context [parse_rtattr_loop _ _ ?t _ _ _] => set (tb1 := t) end.
    assert (length tb1 = length tb ∧ table_ok lo hi tb1) as [<- Ht1].
    { unfold tb1. destruct (_ && _); [|done]. split; [by rewrite length_insert|].
      intros i r [(<- & [= <-] & _)|[_ Hi]]%list_lookup_insert_Some; [|by apply Htb].
      rewrite Z2Nat.id by done. exists l. unfold sizeof_rtattr. split_and!; done || lia. }
    apply IH; [lia..|done].
  - destruct (Z.eqb_spec len 0); cbn; [by exists tb|].
    destruct (uint_at_Some buf rta 2 Hbuf) as (l & El & _); [lia..|].
    unfold rta_len. rewrite El. by exists tb.
Qed.

(** C34: Going through the attributes of a message ends and stays in the buffer whatever they
    contain, as long as five octets of the buffer follow the message (the log of a leftover
    length reads the header of an attribute there); and every pointer it finds is to an
    attribute of that type which lies in the message. *)
Theorem parse_rtattr_safe max rta len :
  0 <= max → 0 <= rta → 0 <= len → rta + len + 5 <= Z.of_nat (length buf) →
  ∃ tb, parse_rtattr buf max rta len = Some tb ∧ Z.of_nat (length tb) = max + 1 ∧
    ∀ type r, attribute tb type = Some r → 0 <= type →
      attribute_ok rta (rta + len) type r.
Proof.
  intros Hm H0 Hl Hroom. unfold parse_rtattr.
  destruct (parse_rtattr_loop_ok max rta (rta + len) (S (Z.to_nat len))
    (replicate (Z.to_nat max + 1) None) rta len) as (tb & -> & Hlen & Htb); try lia.
  { intros i r [E _]%lookup_replicate_1. done. }
  exists tb. split; [done|]. rewrite Hlen, length_replicate. split; [lia|].
  intros type r E Ht. unfold attribute in E. destruct (tb !! Z.to_nat type) as [[r'|]|] eqn:Ei;
    try done. cbn in E. injection E as ->. apply Htb in Ei. by rewrite Z2Nat.id in Ei.
Qed.
End attributes.

(** ** The messages the kernel sends *)

Definition attr_octets (a : Z * list Z) : list Z :=
  let '(type, data) := a in
  let n := Z.of_nat (length data) in
  put_uint 2 (RTA_LENGTH n) ++ put_uint 2 type ++ data ++ replicate (Z.to_nat (align4 n - n)) 0.
Definition attrs_octets (attrs : list (Z * list Z)) : list Z := concat (map attr_octets attrs).

(** A link message; [lm_hdr], [lm_pad] and [lm_change] are members nobody reads. *)
Record link_message := mk_link_message {
  lm_type : Z;
  lm_hdr : list Z;
  lm_family : Z;
  lm_pad : list Z;
  lm_index : Z;
  lm_flags : Z;
  lm_change : list Z;
  lm_attrs : list (Z * list Z)
}.

Definition message_octets (m : link_message) : list Z :=
  put_uint 4 (NLMSG_LENGTH sizeof_ifinfomsg + Z.of_nat (length (attrs_octets (lm_attrs m)))) ++
  put_uint 2 (lm_type m) ++ lm_hdr m ++ put_uint 1 (lm_family m) ++ lm_pad m ++
  put_uint 4 (lm_index m) ++ put_uint 4 (lm_flags m) ++ lm_change m ++ attrs_octets (lm_attrs m).

Definition find_attr (attrs : list (Z * list Z)) (type : Z) : option (list Z) :=
  snd <$> List.find (λ a, a.1 =? type) attrs.

Definition wf_attr (a : Z * list Z) : Prop :=
  in_u16 a.1 ∧ RTA_LENGTH (Z.of_nat (length a.2)) < 2 ^ 16.

(** What rtnetlink guarantees: members in their ranges, names that end with a NUL, and
    attributes with the data of their types. *)
Record wf_link_message (m : link_message) : Prop := {
  wl_type : in_u16 (lm_type m);
  wl_hdr : length (lm_hdr m) = 10%nat;
  wl_family : in_u8 (lm_family m);
  wl_pad : length (lm_pad m) = 3%nat;
  wl_index : 0 <= lm_index m < 2 ^ 31;
  wl_flags : in_u32 (lm_flags m);
  wl_change : length (lm_change m) = 4%nat;
  wl_attrs : Forall wf_attr (lm_attrs m);
  wl_length : NLMSG_LENGTH sizeof_ifinfomsg + Z.of_nat (length (attrs_octets (lm_attrs m))) < 2 ^ 31;
  wl_ifname d : find_attr (lm_attrs m) IFLA_IFNAME = Some d → 0 ∈ d ∧ (length d <= IFNAMSIZ)%nat;
  wl_master d : find_attr (lm_attrs m) IFLA_MASTER = Some d → length d = 4%nat;
  wl_mtu d : find_attr (lm_attrs m) IFLA_MTU = Some d → length d = 4%nat;
  wl_operstate d : find_attr (lm_attrs m) IFLA_OPERSTATE = Some d → (1 <= length d)%nat;
  wl_protinfo d : find_attr (lm_attrs m) IFLA_PROTINFO = Some d → (1 <= length d)%nat
}.

(** *** Reading a message *)

Lemma uint_at_skip pre l k n m : Z.of_nat (length pre) = m → m <= k →
  uint_at (pre ++ l) k n = uint_at l (k - m) n.
Proof.
  intros <- Hk. replace k with (Z.of_nat (length pre) + (k - Z.of_nat (length pre))) at 1 by lia.
  apply uint_at_app. lia.
Qed.

Lemma uint_at_data buf off n d rest : 0 <= off → drop (Z.to_nat off) buf = d ++ rest →
  (1 <= n <= length d)%nat → uint_at buf off n = Some (get_uint (take n d)).
Proof.
  intros H0 Hd Hn. unfold uint_at. apply (f_equal length) in Hd as Hl.
  rewrite length_drop, length_app in Hl.
  rewrite octets_at_Some by lia. by rewrite Nat2Z.id, Hd, take_app_le by lia.
Qed.

Lemma string_at_data buf off d rest : 0 <= off → drop (Z.to_nat off) buf = d ++ rest → 0 ∈ d →
  string_at buf off = Some (until_nul d).
Proof.
  intros H0 Hd Hz. unfold string_at. rewrite Hd, (proj2 (Z.leb_le _ _) H0), bool_decide_true
    by (apply elem_of_app; by left). cbn [andb]. f_equal. clear -Hz. induction d as [|c d IH]; cbn.
  - by apply elem_of_nil in Hz.
  - destruct (Z.eqb_spec c 0); [done|]. apply elem_of_cons in Hz as [?|Hz]; [done|].
    by rewrite IH.
Qed.

Lemma length_until_nul l : (length (until_nul l) <= length l)%nat.
Proof. induction l as [|c l IH]; cbn; [done|]. destruct (c =? 0); cbn; lia. Qed.

Lemma until_nul_shorter l : 0 ∈ l → (length (until_nul l) < length l)%nat.
Proof.
  induction l as [|c l IH]; cbn; [by intros ?%elem_of_nil|]. destruct (Z.eqb_spec c 0); [cbn; lia|].
  intros [?|Hl]%elem_of_cons; [done|]. apply IH in Hl. cbn. lia.
Qed.

Lemma length_attr_octets type d : wf_attr (type, d) →
  Z.of_nat (length (attr_octets (type, d))) = align4 (RTA_LENGTH (Z.of_nat (length d))).
Proof.
  intros _. unfold attr_octets. rewrite !length_app, !length_put_uint, length_replicate.
  pose proof (align4_bounds (Z.of_nat (length d))). unfold RTA_LENGTH, sizeof_rtattr.
  rewrite !align4_eq in *. replace (4 + Z.of_nat (length d) + 3) with (Z.of_nat (length d) + 3 + 1 * 4) by lia.
  rewrite Z.div_add by done. lia.
Qed.

(** The table of a list of attributes whose first lies at [off]. *)
Fixpoint record_attrs (tb : list (option Z)) (max off : Z) (attrs : list (Z * list Z)) :
    list (option Z) :=
  match attrs with
  | [] => tb
  | (type, d) :: attrs =>
      let tb := if (type <=? max) && bool_decide (tb !! Z.to_nat type = Some None)
                then <[Z.to_nat type := Some off]> tb else tb in
      record_attrs tb max (off + Z.of_nat (length (attr_octets (type, d)))) attrs
  end.

Lemma parse_attrs max post attrs : ∀ fuel tb pre,
  Forall wf_attr attrs → (length (attrs_octets attrs) < fuel)%nat →
  parse_rtattr_loop fuel (pre ++ attrs_octets attrs ++ post) tb max (Z.of_nat (length pre))
    (Z.of_nat (length (attrs_octets attrs))) = Some (record_attrs tb max (Z.of_nat (length pre)) attrs).
Proof.
  induction attrs as [|[type d] attrs IH]; intros fuel tb pre Hwf Hf; (destruct fuel as [|fuel]; [lia|]).
  { done. }
  apply Forall_cons in Hwf as [Ha Hwf]. pose proof (length_attr_octets _ _ Ha) as Hlen.
  destruct Ha as [Ht Hd]. cbn [fst snd] in *. unfold in_u16 in Ht.
  set (n := RTA_LENGTH (Z.of_nat (length d))) in *.
  assert (4 <= n) as Hn by (unfold n, RTA_LENGTH, sizeof_rtattr; lia).
  pose proof (align4_bounds n) as Hal.
  change (attrs_octets ((type, d) :: attrs)) with (attr_octets (type, d) ++ attrs_octets attrs) in *.
  rewrite length_app in *. rewrite Nat2Z.inj_add, Hlen.
  set (buf := pre ++ _).
  assert (rta_len buf (Z.of_nat (length pre)) = Some n) as El.
  { unfold rta_len, buf. rewrite (uint_at_skip _ _ _ _ _ eq_refl), Z.sub_diag by lia.
    unfold attr_octets. rewrite <- !app_assoc. apply uint_at_head. change (256 ^ Z.of_nat 2) with (2 ^ 16). lia. }
  assert (rta_type buf (Z.of_nat (length pre)) = Some type) as Et.
  { unfold rta_type, buf. rewrite (uint_at_skip _ _ _ _ _ eq_refl) by lia.
    unfold attr_octets. rewrite <- !app_assoc. rewrite (uint_at_skip _ _ _ _ 2) by (rewrite ?length_put_uint; lia).
    replace (_ - _ - 2) with 0 by lia. apply uint_at_head. change (256 ^ Z.of_nat 2) with 65536. lia. }
  cbn [parse_rtattr_loop record_attrs]. unfold RTA_OK. unfold sizeof_rtattr.
  rewrite (proj2 (Z.ltb_ge _ _)) by lia. rewrite El, Et. cbn [mbind option_bind].
  rewrite (proj2 (Z.leb_le 4 n)), (proj2 (Z.leb_le n _)) by lia. cbn [andb].
  specialize (IH fuel (if (type <=? max) && bool_decide (tb !! Z.to_nat type = Some None)
    then <[Z.to_nat type := Some (Z.of_nat (length pre))]> tb else tb)
    (pre ++ attr_octets (type, d)) Hwf ltac:(lia)).
  rewrite <- app_assoc, length_app, Nat2Z.inj_add, Hlen in IH.
  unfold buf. rewrite <- (app_assoc (attr_octets _)). rewrite Hlen. rewrite <- IH. f_equal; lia.
Qed.

(** The first attribute of a type. *)
Fixpoint first_at (off : Z) (attrs : list (Z * list Z)) (t : Z) : option Z :=
  match attrs with
  | [] => None
  | (type, d) :: attrs =>
      if type =? t then Some off
      else first_at (off + Z.of_nat (length (attr_octets (type, d)))) attrs t
  end.

Lemma attribute_insert tb type t off :
  0 <= type → 0 <= t → tb !! Z.to_nat type = Some None →
  attribute (<[Z.to_nat type := Some off]> tb) t = if type =? t then Some off else attribute tb t.
Proof.
  intros Htype Ht Hi. unfold attribute. destruct (Z.eqb_spec type t) as [->|Hne].
  - by rewrite list_lookup_insert_eq by (by eapply lookup_lt_Some).
  - by rewrite list_lookup_insert_ne by lia.
Qed.

Lemma attribute_record max attrs t : 0 <= t <= max → ∀ tb off,
  Forall wf_attr attrs → Z.of_nat (length tb) = max + 1 →
  attribute (record_attrs tb max off attrs) t =
    match attribute tb t with Some r => Some r | None => first_at off attrs t end.
Proof.
  intros Ht. induction attrs as [|[type d] attrs IH]; intros tb off Hwf Hlen; cbn.
  { by destruct (attribute tb t). }
  apply Forall_cons in Hwf as [[Ha _] Hwf]. cbn in Ha. unfold in_u16 in Ha.
  rewrite IH by (done || by destruct (_ && _); rewrite ?length_insert). clear IH.
  destruct (bool_decide_reflect (tb !! Z.to_nat type = Some None)) as [Hi|Hi].
  - destruct (Z.leb_spec type max); cbn [andb].
    + rewrite attribute_insert by (done || lia). destruct (Z.eqb_spec type t) as [->|]; [|done].
      unfold attribute. by rewrite Hi.
    + apply lookup_lt_Some in Hi. lia.
  - rewrite andb_false_r. destruct (Z.eqb_spec type t) as [->|]; [|done].
    unfold attribute. destruct (lookup_lt_is_Some_2 tb (Z.to_nat t)) as [[r|] Hr]; [lia| |done].
    by rewrite Hr.
Qed.

Lemma first_at_find attrs post t : ∀ pre, Forall wf_attr attrs →
  match first_at (Z.of_nat (length pre)) attrs t with
  | None => find_attr attrs t = None
  | Some r => 0 <= r ∧ ∃ d rest, find_attr attrs t = Some d ∧
      drop (Z.to_nat (RTA_DATA r)) (pre ++ attrs_octets attrs ++ post) = d ++ rest
  end.
Proof.
  induction attrs as [|[type d] attrs IH]; intros pre Hwf; [done|]. cbn [first_at].
  apply Forall_cons in Hwf as [Ha Hwf]. unfold find_attr. cbn [List.find fst].
  change (attrs_octets ((type, d) :: attrs)) with (attr_octets (type, d) ++ attrs_octets attrs).
  destruct (type =? t).
  - split; [lia|]. exists d. eexists. split; [done|].
    replace (Z.to_nat (RTA_DATA _)) with (length pre + 4)%nat
      by (unfold RTA_DATA, RTA_LENGTH, sizeof_rtattr; lia).
    rewrite drop_app_add. unfold attr_octets. rewrite <- !app_assoc, (app_assoc (put_uint 2 _)).
    rewrite drop_app_length' by (by rewrite length_app, !length_put_uint). done.
  - specialize (IH (pre ++ attr_octets (type, d)) Hwf). rewrite length_app, Nat2Z.inj_add in IH.
    by rewrite <- !app_assoc in *.
Qed.

(** The table parse_rtattr makes of the attributes of a message. *)
Lemma parse_message max pre attrs post t : 0 <= t <= max → Forall wf_attr attrs →
  ∃ tb, parse_rtattr (pre ++ attrs_octets attrs ++ post) max (Z.of_nat (length pre))
          (Z.of_nat (length (attrs_octets attrs))) = Some tb ∧
    ∀ t, 0 <= t <= max → attribute tb t = first_at (Z.of_nat (length pre)) attrs t.
Proof.
  intros Hm Hwf. unfold parse_rtattr. rewrite parse_attrs by (done || lia). eexists. split; [done|].
  intros t' Ht'. rewrite attribute_record by (done || (rewrite length_replicate; lia)).
  unfold attribute. by rewrite lookup_replicate_2 by lia.
Qed.

(** *** The headers *)

Section message.
Context (pre post : list Z) (m : link_message) (Hm : wf_link_message m).
Notation buf := (pre ++ message_octets m ++ post).
Notation h := (Z.of_nat (length pre)).

(** Reads the member at offset [k] by going over the ones before it. *)
Ltac member :=
  rewrite (uint_at_skip _ _ _ _ _ eq_refl) by lia; unfold message_octets; rewrite <- ?app_assoc;
  repeat first
    [ match goal with |- uint_at (put_uint ?n _ ++ _) ?k _ = _ =>
        replace k with 0 by lia; apply uint_at_head end
    | erewrite uint_at_skip by (rewrite ?length_put_uint; done || lia) ].

Notation total := (NLMSG_LENGTH sizeof_ifinfomsg + Z.of_nat (length (attrs_octets (lm_attrs m)))).

Lemma total_bounds : 32 <= total < 2 ^ 31.
Proof.
  pose proof (wl_length _ Hm) as Hl. unfold NLMSG_LENGTH, sizeof_ifinfomsg in *.
  change (align4 sizeof_nlmsghdr) with 16 in *. lia.
Qed.

Lemma s32_small x : 0 <= x < 2 ^ 31 → s32 x = x.
Proof. intros Hx. unfold s32. rewrite Z.mod_small; lia. Qed.

Lemma message_total : uint_at buf h 4 = Some total.
Proof. pose proof total_bounds. member. change (256 ^ Z.of_nat 4) with (2 ^ 32). lia. Qed.

Lemma message_len : nlmsg_len buf h = Some total.
Proof.
  pose proof total_bounds. unfold nlmsg_len, int_at. rewrite message_total.
  cbn [fmap option_fmap option_map]. by rewrite s32_small by lia.
Qed.

Lemma message_type : nlmsg_type buf h = Some (lm_type m).
Proof. unfold nlmsg_type. member. apply Hm. Qed.

Lemma message_family : ifi_family buf (NLMSG_DATA h) = Some (lm_family m).
Proof.
  unfold ifi_family, NLMSG_DATA, NLMSG_LENGTH. change (align4 sizeof_nlmsghdr) with 16.
  pose proof (wl_hdr _ Hm). member. apply Hm.
Qed.

Lemma message_index : ifi_index buf (NLMSG_DATA h) = Some (lm_index m).
Proof.
  unfold ifi_index, int_at, NLMSG_DATA, NLMSG_LENGTH. change (align4 sizeof_nlmsghdr) with 16.
  pose proof (wl_hdr _ Hm). pose proof (wl_pad _ Hm). pose proof (wl_index _ Hm).
  assert (uint_at buf (h + (0 + 16) + 4) 4 = Some (lm_index m)) as ->
    by (member; change (256 ^ Z.of_nat 4) with (2 ^ 32); lia).
  cbn [fmap option_fmap option_map]. by rewrite s32_small by lia.
Qed.

Lemma message_flags : ifi_flags buf (NLMSG_DATA h) = Some (lm_flags m).
Proof.
  unfold ifi_flags, NLMSG_DATA, NLMSG_LENGTH. change (align4 sizeof_nlmsghdr) with 16.
  pose proof (wl_hdr _ Hm). pose proof (wl_pad _ Hm). member. apply Hm.
Qed.

(** The buffer up to the attributes. *)
Lemma message_attrs : ∃ pre', buf = pre' ++ attrs_octets (lm_attrs m) ++ post ∧
  IFLA_RTA (NLMSG_DATA h) = Z.of_nat (length pre').
Proof.
  eexists (pre ++ put_uint 4 total ++ put_uint 2 (lm_type m) ++ lm_hdr m ++
    put_uint 1 (lm_family m) ++ lm_pad m ++ put_uint 4 (lm_index m) ++ put_uint 4 (lm_flags m) ++
    lm_change m). split.
  - unfold message_octets. by rewrite <- !app_assoc.
  - rewrite !length_app, !length_put_uint, (wl_hdr _ Hm), (wl_pad _ Hm), (wl_change _ Hm).
    unfold IFLA_RTA, NLMSG_DATA, NLMSG_LENGTH. change (align4 sizeof_nlmsghdr) with 16.
    change (align4 sizeof_ifinfomsg) with 16. lia.
Qed.

(** ** The notification of a message *)

Context (K : kernel) (IFLA_MAX : Z) (Hmax : IFLA_OPERSTATE <= IFLA_MAX).

(** What the daemon does with a message: its result, and the call of bridge_notify. *)
Definition notice : D Z :=
  let master := find_attr (lm_attrs m) IFLA_MASTER in
  if lm_type m =? NLMSG_DONE then mret 0 else
  if negb ((lm_family m =? AF_BRIDGE) || (lm_family m =? AF_UNSPEC)) then mret 0 else
  if negb ((lm_type m =? RTM_NEWLINK) || (lm_type m =? RTM_DELLINK)) then mret 0 else
  if bool_decide (is_Some master) && (lm_family m ≠? AF_BRIDGE) then mret 0 else
  match find_attr (lm_attrs m) IFLA_IFNAME with
  | None => mret (-1)
  | Some name =>
      (match master with Some d => index_to_name K (s32 (get_uint d)) ;; dskip | None => dskip end) ;;
      br_index ←
        match master with
        | Some d => mret (s32 (get_uint d))
        | None => b ← is_bridge K (text (until_nul name));
                  mret (if (b : bool) then lm_index m else -1)
        end;
      bridge_notify K br_index (lm_index m) (lm_type m =? RTM_NEWLINK) (lm_flags m) ;; mret 0
  end.

Lemma dbind_ret {A B} (a : A) (f : A → D B) : (mret a ≫= f) = f a.
Proof. done. Qed.
Lemma dbind_reads {A B} (a : A) (f : A → D B) : (reads (Some a) ≫= f) = f a.
Proof. done. Qed.
Lemma dbind_skip {B} (f : unit → D B) : (dskip ≫= f) = f tt.
Proof. done. Qed.

(** What the table says of an attribute, and what the message carries. *)
Definition finds (tb : list (option Z)) (t : Z) : Prop :=
  (attribute tb t = None ∧ find_attr (lm_attrs m) t = None) ∨
  ∃ r d rest, attribute tb t = Some r ∧ find_attr (lm_attrs m) t = Some d ∧
    0 <= RTA_DATA r ∧ drop (Z.to_nat (RTA_DATA r)) buf = d ++ rest.

Lemma message_table : ∃ tb,
  parse_rtattr buf IFLA_MAX (IFLA_RTA (NLMSG_DATA h)) (total - NLMSG_LENGTH sizeof_ifinfomsg) = Some tb ∧
  ∀ t, 0 <= t <= IFLA_MAX → finds tb t.
Proof.
  replace (total - NLMSG_LENGTH sizeof_ifinfomsg) with (Z.of_nat (length (attrs_octets (lm_attrs m)))) by lia.
  destruct message_attrs as (pre' & Hbuf & ->).
  destruct (parse_message IFLA_MAX pre' (lm_attrs m) post 0) as (tb & Htb & Hfirst);
    [unfold IFLA_OPERSTATE in *; lia|apply Hm|].
  exists tb. unfold finds. rewrite Hbuf. split; [done|]. intros t Ht. rewrite Hfirst by done.
  pose proof (first_at_find (lm_attrs m) post t pre' (wl_attrs _ Hm)) as Hf.
  destruct (first_at _ _ _) as [r|]; [right|by left].
  destruct Hf as (H0 & d & rest & Hd & Hdrop). exists r, d, rest.
  unfold RTA_DATA, RTA_LENGTH, sizeof_rtattr in *. split_and!; done || lia.
Qed.

Lemma logged_skip tb t n : finds tb t → (1 <= n)%nat →
  (∀ d, find_attr (lm_attrs m) t = Some d → (n <= length d)%nat) → logged buf tb t n = dskip.
Proof.
  intros Hf Hn Hl. unfold logged. destruct Hf as [[-> _]|(r & d & rest & -> & Hd & H0 & Hdrop)]; [done|].
  apply Hl in Hd. by rewrite (uint_at_data _ _ _ _ _ H0 Hdrop) by lia.
Qed.

Lemma read_name tb r : finds tb IFLA_IFNAME → attribute tb IFLA_IFNAME = Some r →
  ∃ d, find_attr (lm_attrs m) IFLA_IFNAME = Some d ∧
    string_at buf (RTA_DATA r) = Some (until_nul d) ∧
    is_bridge_at K (until_nul d) = is_bridge K (text (until_nul d)).
Proof.
  intros [[E _]|(r' & d & rest & E & Hd & H0 & Hdrop)] Hr; [by rewrite E in Hr|].
  rewrite E in Hr. injection Hr as ->. exists d. destruct (wl_ifname _ Hm d Hd) as [Hz Hl].
  split_and!; [done|by eapply string_at_data|].
  apply until_nul_shorter in Hz. unfold is_bridge_at, sizeof_path, IFNAMSIZ in *.
  by rewrite (proj2 (Z.ltb_ge _ _)) by lia.
Qed.

Lemma read_master tb r : finds tb IFLA_MASTER → attribute tb IFLA_MASTER = Some r →
  ∃ d, find_attr (lm_attrs m) IFLA_MASTER = Some d ∧
    int_at buf (RTA_DATA r) = Some (s32 (get_uint d)).
Proof.
  intros [[E _]|(r' & d & rest & E & Hd & H0 & Hdrop)] Hr; [by rewrite E in Hr|].
  rewrite E in Hr. injection Hr as ->. exists d. pose proof (wl_master _ Hm d Hd) as Hl.
  split; [done|]. unfold int_at. rewrite (uint_at_data _ _ _ _ _ H0 Hdrop) by lia.
  by rewrite take_ge by lia.
Qed.

Lemma finds_none tb t : finds tb t → attribute tb t = None → find_attr (lm_attrs m) t = None.
Proof. intros [[_ E]|(r & d & rest & E & _)] Hn; [done|]. by rewrite E in Hn. Qed.

Lemma listen_message : listen_msg K IFLA_MAX buf h = notice.
Proof.
  unfold listen_msg, notice. rewrite message_len, message_type. rewrite !dbind_reads.
  destruct (lm_type m =? NLMSG_DONE); [done|]. cbv zeta.
  pose proof total_bounds as Ht. rewrite (proj2 (Z.ltb_ge (total - _) 0)) by
    (unfold NLMSG_LENGTH, sizeof_ifinfomsg in *; change (align4 sizeof_nlmsghdr) with 16 in *; lia).
  rewrite message_family. rewrite dbind_reads.
  destruct (negb _); [done|]. destruct (negb _); [done|].
  destruct message_table as (tb & -> & Hf). rewrite dbind_reads.
  unfold IFLA_OPERSTATE in Hmax.
  assert (∀ t, 0 <= t <= 16 → finds tb t) as Hf' by (intros t ?; apply Hf; lia). clear Hf.
  pose proof (Hf' IFLA_MASTER ltac:(by compute)) as Hma.
  pose proof (Hf' IFLA_IFNAME ltac:(by compute)) as Hna.
  assert (∀ d, find_attr (lm_attrs m) IFLA_MTU = Some d → (4 <= length d)%nat) as Hmtu
    by (intros d ->%(wl_mtu _ Hm); lia).
  rewrite !(logged_skip tb) by first [by apply Hf'; compute|lia|apply Hm|exact Hmtu].
  rewrite message_index, message_flags.
  destruct (attribute tb IFLA_IFNAME) as [rn|] eqn:En.
  - destruct (read_name tb rn Hna En) as (name & -> & -> & Hb). rewrite !dbind_reads, !dbind_skip.
    destruct (attribute tb IFLA_MASTER) as [rm|] eqn:Em.
    + destruct (read_master tb rm Hma Em) as (d & -> & ->). rewrite !dbind_reads.
      rewrite !bool_decide_true by eauto. done.
    + rewrite (finds_none tb _ Hma Em). rewrite Hb. done.
  - rewrite (finds_none tb _ Hna En). destruct (attribute tb IFLA_MASTER) as [rm|] eqn:Em.
    + destruct (read_master tb rm Hma Em) as (d & -> & _). by rewrite !bool_decide_true by eauto.
    + by rewrite (finds_none tb _ Hma Em).
Qed.
End message.

(** ** A datagram *)

Section datagram.
Context (K : kernel) (IFLA_MAX : Z) (Hmax : IFLA_OPERSTATE <= IFLA_MAX).

(** The notifications of messages in order, up to the first that fails. *)
Fixpoint notices (ms : list link_message) : D (Z + Z) :=
  match ms with
  | [] => mret (inr 0)
  | m :: ms => err ← notice m K; if err <? 0 then mret (inl err) else notices ms
  end.

Definition datagram_octets (ms : list link_message) : list Z := concat (map message_octets ms).

Lemma attrs_octets_aligned attrs : Forall wf_attr attrs →
  align4 (Z.of_nat (length (attrs_octets attrs))) = Z.of_nat (length (attrs_octets attrs)).
Proof.
  intros Hwf. assert (Z.of_nat (length (attrs_octets attrs)) mod 4 = 0) as Hmod.
  { induction attrs as [|[t d] attrs IH]; [done|]. apply Forall_cons in Hwf as [Ha Hwf].
    change (attrs_octets _) with (attr_octets (t, d) ++ attrs_octets attrs).
    rewrite length_app, Nat2Z.inj_add, length_attr_octets, align4_eq by done.
    rewrite Z.add_comm, Z.mod_add by done. by apply IH. }
  rewrite align4_eq. pose proof (Z.div_mod (Z.of_nat (length (attrs_octets attrs))) 4).
  set (n := Z.of_nat _) in *. replace (n + 3) with (3 + (n / 4) * 4) by lia.
  rewrite Z.div_add by done. change (3 / 4) with 0. lia.
Qed.

Lemma length_message m : wf_link_message m → Z.of_nat (length (message_octets m)) =
  NLMSG_LENGTH sizeof_ifinfomsg + Z.of_nat (length (attrs_octets (lm_attrs m))).
Proof.
  intros Hm. unfold message_octets. rewrite !length_app, !length_put_uint.
  rewrite (wl_hdr _ Hm), (wl_pad _ Hm), (wl_change _ Hm).
  unfold NLMSG_LENGTH, sizeof_ifinfomsg. change (align4 sizeof_nlmsghdr) with 16. lia.
Qed.

Lemma message_aligned m : wf_link_message m →
  align4 (Z.of_nat (length (message_octets m))) = Z.of_nat (length (message_octets m)).
Proof.
  intros Hm. rewrite length_message by done. pose proof (attrs_octets_aligned _ (wl_attrs _ Hm)) as Ha.
  unfold NLMSG_LENGTH, sizeof_ifinfomsg. change (align4 sizeof_nlmsghdr) with 16.
  rewrite align4_eq in *. replace (16 + 16 + _ + 3) with (Z.of_nat (length (attrs_octets (lm_attrs m))) + 3 + 8 * 4) by lia.
  rewrite Z.div_add by done. lia.
Qed.

Lemma messages_fewer ms : Forall wf_link_message ms → (length ms < S (length (datagram_octets ms)))%nat.
Proof.
  induction 1 as [|m ms Hm Hwf IH]; cbn; [lia|]. rewrite length_app.
  change (concat (map message_octets ms)) with (datagram_octets ms).
  pose proof (length_message m Hm). pose proof (total_bounds m Hm). lia.
Qed.

Lemma listen_datagram post ms : ∀ fuel pre d,
  Forall wf_link_message ms → (length ms < fuel)%nat →
  Z.of_nat (length (datagram_octets ms)) < 2 ^ 31 →
  listen_messages K IFLA_MAX fuel (pre ++ datagram_octets ms ++ post) (Z.of_nat (length pre))
    (Z.of_nat (length (datagram_octets ms))) d = notices ms d.
Proof.
  induction ms as [|m ms IH]; intros fuel pre d Hwf Hf Hlen; (destruct fuel as [|fuel]; [cbn in Hf; lia|]).
  { done. }
  apply Forall_cons in Hwf as [Hm Hwf].
  change (datagram_octets (m :: ms)) with (message_octets m ++ datagram_octets ms) in *.
  rewrite length_app in *. rewrite Nat2Z.inj_add in *.
  pose proof (length_message m Hm) as Hl. pose proof (total_bounds m Hm) as Ht.
  pose proof (message_aligned m Hm) as Hal.
  cbn [listen_messages notices]. unfold u64, sizeof_nlmsghdr.
  rewrite Z.mod_small, (proj2 (Z.ltb_ge _ 16)) by lia.
  rewrite <- app_assoc. rewrite (message_len pre _ m Hm), dbind_reads.
  rewrite s32_small, (proj2 (Z.ltb_ge _ 0)), (proj2 (Z.ltb_ge _ _)) by lia. cbn [orb].
  rewrite (listen_message pre _ m Hm K IFLA_MAX Hmax).
  unfold mbind, D_bind. destruct (notice m K d) as [err d1| |]; [|done..].
  destruct (err <? 0); [done|]. rewrite <- Hl, Hal.
  unfold u32. rewrite Z.mod_small, s32_small by lia.
  specialize (IH fuel (pre ++ message_octets m) d1 Hwf ltac:(cbn in Hf; lia) ltac:(lia)).
  rewrite <- app_assoc, length_app, Nat2Z.inj_add in IH.
  rewrite <- IH. f_equal. lia.
Qed.

(** C30: What the daemon does with a datagram of link messages, whatever is left of its buffer
    from before, is to carry out the notification of each message in order: the headers
    and attributes are read as the kernel wrote them, in the byte order of the host. *)
Theorem datagram_is_notices ms post d :
  Forall wf_link_message ms → Z.of_nat (length (datagram_octets ms)) < 2 ^ 31 →
  listen_messages K IFLA_MAX (S (length (datagram_octets ms))) (datagram_octets ms ++ post) 0
    (Z.of_nat (length (datagram_octets ms))) d = notices ms d.
Proof.
  intros Hwf Hlen. apply (listen_datagram post ms _ []); [done| |done].
  by apply messages_fewer.
Qed.
End datagram.

(** ** The request that sets the state of a port *)

Definition set_state_message (ifindex state : Z) : link_message := {|
  lm_type := RTM_SETLINK;
  lm_hdr := put_uint 2 (Z.lor NLM_F_REQUEST NLM_F_REPLACE) ++ replicate 8 0;
  lm_family := AF_BRIDGE;
  lm_pad := [0; 0; 0];
  lm_index := ifindex;
  lm_flags := 0;
  lm_change := [0; 0; 0; 0];
  lm_attrs := [(IFLA_PROTINFO, put_uint 1 state)]
|}.

Lemma store_app pre old post l off : off = Z.of_nat (length pre) → length old = length l →
  store_octets l off (pre ++ old ++ post) = Some (pre ++ l ++ post).
Proof.
  intros -> Hl. unfold store_octets. rewrite !length_app, Hl.
  rewrite (proj2 (Z.leb_le 0 _)), (proj2 (Z.leb_le _ _)) by lia. cbn [andb].
  rewrite Nat2Z.id, take_app_length, drop_app_add, <- Hl, drop_app_length. done.
Qed.

Lemma octets1 (l : list Z) : length l = 1%nat → ∃ a, l = [a].
Proof. destruct l as [|a [|]]; eauto; discriminate. Qed.
Lemma octets2 (l : list Z) : length l = 2%nat → ∃ a b, l = [a; b].
Proof. destruct l as [|a [|b [|]]]; eauto; discriminate. Qed.
Lemma octets4 (l : list Z) : length l = 4%nat → ∃ a b c d, l = [a; b; c; d].
Proof. destruct l as [|a [|b [|c [|d [|]]]]]; eauto 10; discriminate. Qed.

(** Evaluate the next store, or the next octets that are read. *)
Ltac store_step :=
  match goal with |- context [store_octets ?l ?o ?b ≫= _] =>
    let v := eval vm_compute in (store_octets l o b) in
    change (store_octets l o b) with v; cbn [mbind option_bind]
  end.
Ltac read_step :=
  match goal with |- context [octets_at ?b ?o ?n] =>
    let v := eval vm_compute in (octets_at b o n) in
    change (octets_at b o n) with v; cbn [fmap option_fmap option_map mbind option_bind]
  end.

(** What br_set_state sends is a link message of the family of bridges, of the interface,
    with the state as its only attribute, and room that is not used. *)
Theorem set_state_request_message ifindex state :
  set_state_request ifindex state =
    Some (message_octets (set_state_message ifindex state) ++ replicate 248 0).
Proof.
  assert (message_octets (set_state_message ifindex state) =
    put_uint 4 40 ++ put_uint 2 RTM_SETLINK ++ (put_uint 2 0x101 ++ replicate 8 0) ++
    put_uint 1 AF_BRIDGE ++ [0; 0; 0] ++ put_uint 4 ifindex ++ put_uint 4 0 ++ [0; 0; 0; 0] ++
    put_uint 2 5 ++ put_uint 2 IFLA_PROTINFO ++ put_uint 1 state ++ [0; 0; 0]) as ->.
  { unfold message_octets, set_state_message, attrs_octets, attr_octets. cbn [map concat lm_type
      lm_hdr lm_family lm_pad lm_index lm_flags lm_change lm_attrs].
    rewrite !length_app, !length_put_uint, app_nil_r. reflexivity. }
  rewrite (put_uint_0 4).
  assert (get_uint (put_uint 4 32) = 32) as Hget by apply get_put_uint.
  unfold set_state_request, addattr_l. change (Z.lor NLM_F_REQUEST NLM_F_REPLACE) with 0x101.
  change (NLMSG_LENGTH sizeof_ifinfomsg) with 32. unfold uint_at.
  rewrite (length_put_uint 1 state).
  destruct (octets4 _ (length_put_uint 4 32)) as (a1 & a2 & a3 & a4 & Ea).
  destruct (octets2 _ (length_put_uint 2 0x101)) as (b1 & b2 & Eb).
  destruct (octets2 _ (length_put_uint 2 RTM_SETLINK)) as (c1 & c2 & Ec).
  destruct (octets1 _ (length_put_uint 1 AF_BRIDGE)) as (d1 & Ed).
  destruct (octets4 _ (length_put_uint 4 ifindex)) as (e1 & e2 & e3 & e4 & Ee).
  destruct (octets2 _ (length_put_uint 2 IFLA_PROTINFO)) as (f1 & f2 & Ef).
  destruct (octets2 _ (length_put_uint 2 5)) as (g1 & g2 & Eg).
  destruct (octets1 _ (length_put_uint 1 state)) as (h1 & Eh).
  destruct (octets4 _ (length_put_uint 4 40)) as (i1 & i2 & i3 & i4 & Ei).
  change (Z.of_nat 4) with 4. rewrite Ea in *.
  change (RTA_LENGTH (Z.of_nat 1)) with 5. rewrite Eb, Ec, Ed, Ee, Ef, Eh, Ei, Eg.
  do 5 store_step. read_step. rewrite Hget.
  change (sizeof_req_buf <? align4 32 + align4 5) with false. cbv beta iota zeta.
  change (align4 32 + align4 5) with 40. rewrite Ei. do 4 store_step. reflexivity.
Qed.
End linkmsg.
