(* ===== verification/Loop.v ===== *)
(** * The event loop (src/epoll_loop.c)

    Descriptors have handler objects; epoll_wait() gives the handlers whose descriptors
    are ready.  A handler may unregister and free any handler while the events of one
    call are dispatched: the pointers of the handler and of its event to each other let
    remove_epoll() cancel what is pending.  The one-second timer runs between the calls. *)
From S2P Require Import Prelude.

(** ** Handlers *)

Definition handler_ptr : Type := nat.

(** The handler objects that are not freed, with their [ref_ev]; the descriptors epoll
    watches, by handler; and [ev[i].data.ptr] for the events of the last epoll_wait(). *)
Record loop := mk_loop {
  ref_ev : gmap handler_ptr (option nat);
  watched : gset handler_ptr;
  ev : list (option handler_ptr)
}.
#[export] Instance eta_loop : Eta loop := λ r, mk_loop (ref_ev r) (watched r) (ev r).
#[export] Instance set_ref_ev : Setter ref_ev := ltac:(build_setter).
#[export] Instance set_watched : Setter watched := ltac:(build_setter).
#[export] Instance set_ev : Setter ev := ltac:(build_setter).

(** epoll_ctl() may fail for reasons of its own ([ok = false]). It always refuses to add
    what it watches already (EEXIST) and to delete what it does not watch (ENOENT). *)
Definition epoll_ctl_add (ok : bool) (h : handler_ptr) (s : loop) : Z * loop :=
  if ok && negb (bool_decide (h ∈ watched s)) then (0, s <| watched ::= λ w, {[h]} ∪ w |>) else (-1, s).
Definition epoll_ctl_del (ok : bool) (h : handler_ptr) (s : loop) : Z * loop :=
  if ok && bool_decide (h ∈ watched s) then (0, s <| watched ::= λ w, w ∖ {[h]} |>) else (-1, s).

(** [None]: the handler object does not exist. *)
Definition add_epoll (ok : bool) (h : handler_ptr) (s : loop) : option (Z * loop) :=
  ref_ev s !! h ;;
  let s := s <| ref_ev ::= <[h := None]> |> in
  Some (epoll_ctl_add ok h s).

Definition remove_epoll (ok : bool) (h : handler_ptr) (s : loop) : option (Z * loop) :=
  r ← ref_ev s !! h;
  let '(ret, s) := epoll_ctl_del ok h s in
  if ret <? 0 then Some (-1, s) else
  match r with
  | None => Some (0, s)
  | Some i =>
      p ← ev s !! i;
      if bool_decide (p = Some h)
      then Some (0, s <| ev ::= <[i := None]> |> <| ref_ev ::= <[h := None]> |>)
      else Some (0, s)
  end.

(** What a handler may do with handlers. *)
Inductive handler_op :=
| New (h : handler_ptr) (r : option nat)    (* an object at h, whose ref_ev happens to be r *)
| Add (ok : bool) (h : handler_ptr)         (* add_epoll *)
| Remove (ok : bool) (h : handler_ptr)      (* remove_epoll *)
| Free (h : handler_ptr).

Definition run_op (op : handler_op) (s : loop) : option loop :=
  match op with
  | New h r => Some (s <| ref_ev ::= <[h := r]> |>)
  | Add ok h => snd <$> add_epoll ok h s
  | Remove ok h => snd <$> remove_epoll ok h s
  | Free h => ref_ev s !! h ;; Some (s <| ref_ev ::= delete h |>)
  end.

(** The rules that the user of the loop must keep: an object is made where there is none,
    it is added at most once, removed only while it exists (whether or not it is watched),
    and freed only while it is not watched. *)
Definition op_allowed (op : handler_op) (s : loop) : bool :=
  match op with
  | New h _ => bool_decide (ref_ev s !! h = None)
  | Add _ h | Free h => bool_decide (is_Some (ref_ev s !! h)) && negb (bool_decide (h ∈ watched s))
  | Remove _ h => bool_decide (is_Some (ref_ev s !! h))
  end.

Fixpoint run_ops (ops : list handler_op) (s : loop) : option loop :=
  match ops with
  | [] => Some s
  | op :: ops => s ← run_op op s; run_ops ops s
  end.
Fixpoint ops_allowed (ops : list handler_op) (s : loop) : bool :=
  match ops with
  | [] => true
  | op :: ops => op_allowed op s && match run_op op s with Some s => ops_allowed ops s | None => true end
  end.

(** ** Dispatch

    The three loops over the events of epoll_wait(); [body] is what a handler does when
    it is called for an event in some state of the loop.  [None] is an access through a pointer to a freed object. *)
Section dispatch.
Context (body : nat → handler_ptr → loop → list handler_op).

(** [p->ref_ev = r] *)
Definition set_ref (p : handler_ptr) (r : option nat) (s : loop) : option loop :=
  ref_ev s !! p ;; Some (s <| ref_ev ::= <[p := r]> |>).

(** One of the loops: [f] for every event with a handler. *)
Fixpoint for_events (f : nat → handler_ptr → loop → option loop) (i n : nat) (s : loop) : option loop :=
  match n with
  | O => Some s
  | S n =>
      p ← ev s !! i;
      s ← match p with None => Some s | Some p => f i p s end;
      for_events f (S i) n s
  end.

(** [p->handler(ev[i].events, p)] *)
Definition call_handler (i : nat) (p : handler_ptr) (s : loop) : option loop :=
  ref_ev s !! p ;; run_ops (body i p s) s.

Definition dispatch_with (call : nat → handler_ptr → loop → option loop)
    (events : list handler_ptr) (s : loop) : option loop :=
  let s := s <| ev := map Some events |> in
  s ← for_events (λ i p, set_ref p (Some i)) 0 (length events) s;
  s ← for_events call 0 (length events) s;
  for_events (λ _ p, set_ref p None) 0 (length events) s.
Definition dispatch := dispatch_with call_handler.

(** A call that fails if the handler is not registered any more. *)
Definition call_registered (i : nat) (p : handler_ptr) (s : loop) : option loop :=
  if bool_decide (p ∈ watched s) then call_handler i p s else None.
End dispatch.

(** ** The timer *)

Record timespec_t := mk_timespec { tv_sec : Z; tv_nsec : Z }.

(** The result is an [int]. *)
Definition time_diff (second first : timespec_t) : Z :=
  s32 ((tv_sec second - tv_sec first) * 1000 + Z.quot (tv_nsec second - tv_nsec first) 1000000).

(** One round before epoll_wait(), at time [tv]: whether run_timeouts() is called, the new
    [nexttimeout], and the timeout of epoll_wait(). *)
Definition check_timer (nexttimeout tv : timespec_t) : bool * timespec_t * Z :=
  let timeout := time_diff nexttimeout tv in
  if (timeout <? 0) || (1000 <? timeout) then
    let next := mk_timespec (tv_sec nexttimeout + 1) (tv_nsec nexttimeout) in
    (true,
     if (timeout <? -4000) || (1000 <? timeout)
     then mk_timespec (tv_sec tv + 1) (tv_nsec tv) else next, 0)
  else (false, nexttimeout, timeout).

(** The timer over a sequence of rounds: the timeouts given to epoll_wait(), the number of
    ticks and the last [nexttimeout]. *)
Fixpoint run_timer (nexttimeout : timespec_t) (rounds : list timespec_t) : list Z * Z * timespec_t :=
  match rounds with
  | [] => ([], 0, nexttimeout)
  | tv :: rounds =>
      let '(tick, next, timeout) := check_timer nexttimeout tv in
      let '(timeouts, ticks, last) := run_timer next rounds in
      (timeout :: timeouts, (if (tick : bool) then 1 else 0) + ticks, last)
  end.

(** ** Dispatch is safe *)

(** Between dispatches: no watched handler has a pending event, and the handlers that epoll
    watches exist. *)
Definition loop_ok (s : loop) : Prop := ∀ h, h ∈ watched s → ref_ev s !! h = Some None.

(** During the calls: events and watched handlers point to each other. *)
Record pending_ok (n : nat) (s : loop) : Prop := {
  po_length : length (ev s) = n;
  po_iff i h : ev s !! i = Some (Some h) ↔ h ∈ watched s ∧ ref_ev s !! h = Some (Some i);
  po_watched h : h ∈ watched s → is_Some (ref_ev s !! h)
}.

Ltac allowed_hyp H :=
  cbn [op_allowed] in H;
  repeat match type of H with
  | _ && _ = true => apply andb_true_iff in H as [?H H]
  end;
  repeat match goal with
  | H : negb _ = true |- _ => apply negb_true_iff in H
  | H : bool_decide _ = true |- _ => apply bool_decide_eq_true in H
  | H : bool_decide _ = false |- _ => apply bool_decide_eq_false in H
  | H : is_Some _ |- _ => let r := fresh "r" in let E := fresh "E" in destruct H as [r E]
  end.

Lemma remove_epoll_ok n ok h r s : pending_ok n s → ref_ev s !! h = Some r →
  ∃ ret s', remove_epoll ok h s = Some (ret, s') ∧ pending_ok n s'.
Proof.
  intros Hs Hh. destruct (Hs) as [Hl Hi Hw]. unfold remove_epoll. rewrite Hh. cbn [mbind option_bind].
  unfold epoll_ctl_del. destruct ok; cbn [andb Z.ltb Z.compare]; [|by eexists _, _].
  destruct (bool_decide_reflect (h ∈ watched s)) as [Hin|]; cbn [Z.ltb Z.compare]; [|by eexists _, _].
  destruct r as [i|].
  - assert (He : ev s !! i = Some (Some h)) by (by apply Hi). cbn. rewrite He. cbn.
    rewrite bool_decide_true by done. eexists _, _. split; [done|].
    assert (i < length (ev s))%nat by (by eapply lookup_lt_Some).
    split; cbn.
    + by rewrite length_insert.
    + intros j p. rewrite list_lookup_insert_Some, lookup_insert_Some, Hi, elem_of_difference, elem_of_singleton.
      naive_solver.
    + intros p [Hp Hne]%elem_of_difference. rewrite elem_of_singleton in Hne.
      rewrite lookup_insert_ne by done. auto.
  - cbn. eexists _, _. split; [done|]. split; cbn; [done| |set_solver].
    intros j p. rewrite Hi, elem_of_difference, elem_of_singleton. naive_solver.
Qed.

(** A handler that is removed does not point to an event any more. *)
Lemma remove_epoll_watched n h s : pending_ok n s → h ∈ watched s →
  ∃ s', remove_epoll true h s = Some (0, s') ∧ watched s' = watched s ∖ {[h]} ∧ ref_ev s' !! h = Some None.
Proof.
  intros [Hl Hi Hw] Hin. destruct (Hw h Hin) as [r Hr]. unfold remove_epoll, epoll_ctl_del.
  rewrite Hr, bool_decide_true by done. cbn [mbind option_bind andb Z.ltb Z.compare].
  destruct r as [i|]; [|by eexists].
  assert (He : ev s !! i = Some (Some h)) by (by apply Hi). cbn. rewrite He. cbn.
  rewrite bool_decide_true by done. eexists. split; [done|]. split; [done|]. cbn. apply lookup_insert_eq.
Qed.

(** An object that is not watched may come, go and change. *)
Lemma pending_unwatched n h (f : gmap handler_ptr (option nat) → gmap handler_ptr (option nat)) s :
  (∀ p, p ≠ h → f (ref_ev s) !! p = ref_ev s !! p) → h ∉ watched s →
  pending_ok n s → pending_ok n (s <| ref_ev ::= f |>).
Proof.
  intros Hf Hn [Hl Hi Hw]. split; cbn; [done| |].
  - intros i p. rewrite Hi. split; intros [Hp Hr]; (split; [done|]); [rewrite Hf|rewrite Hf in Hr]; congruence || set_solver.
  - intros p Hp. rewrite Hf by set_solver. auto.
Qed.

Lemma run_op_ok n op s : pending_ok n s → op_allowed op s = true →
  ∃ s', run_op op s = Some s' ∧ pending_ok n s'.
Proof.
  intros Hs Ha. destruct op as [h r|ok h|ok h|h]; allowed_hyp Ha; cbn [run_op].
  - eexists. split; [done|]. apply pending_unwatched with h; [intros; by rewrite lookup_insert_ne| |done].
    intros Hw%(po_watched _ _ Hs). rewrite Ha in Hw. by destruct Hw.
  - unfold add_epoll. rewrite E. cbn [mbind option_bind fmap option_fmap option_map]. eexists. split; [done|].
    set (s1 := s <| ref_ev ::= _ |>).
    assert (H1 : pending_ok n s1) by (apply pending_unwatched with h; [intros; by rewrite lookup_insert_ne|done|done]).
    assert (E1 : ref_ev s1 !! h = Some None) by (unfold s1; cbn; apply lookup_insert_eq).
    assert (W1 : h ∉ watched s1) by done.
    clearbody s1. clear Ha E Hs. destruct H1 as [Hl Hi Hw]. unfold epoll_ctl_add.
    destruct (ok && _); cbn; [|done]. split; cbn; [done| |].
    + intros i p. rewrite Hi, elem_of_union, elem_of_singleton. split; [naive_solver|].
      intros [[->|Hp] Hr]; [congruence|done].
    + intros p [Hp%elem_of_singleton|Hp]%elem_of_union; [subst p; rewrite E1; by eexists|auto].
  - destruct (remove_epoll_ok n ok h r s Hs E) as (ret & s' & -> & Hs'). by exists s'.
  - rewrite E. cbn [mbind option_bind]. eexists. split; [done|].
    apply pending_unwatched with h; [intros; by rewrite lookup_delete_ne|done|done].
Qed.

Lemma run_ops_ok n ops : ∀ s, pending_ok n s → ops_allowed ops s = true →
  ∃ s', run_ops ops s = Some s' ∧ pending_ok n s'.
Proof.
  induction ops as [|op ops IH]; intros s Hs Ha; [by exists s|]. cbn in *.
  apply andb_true_iff in Ha as [Ha Hr]. destruct (run_op_ok n op s Hs Ha) as (s1 & E & H1).
  rewrite E in *. by apply IH.
Qed.

(** What is done between the dispatches, by the timer for example, finds no event pending. *)
Lemma run_op_quiet op s : loop_ok s → op_allowed op s = true → ∃ s', run_op op s = Some s' ∧ loop_ok s'.
Proof.
  intros Hs Ha. destruct op as [h r|ok h|ok h|h]; allowed_hyp Ha; cbn [run_op].
  - eexists. split; [done|]. intros p Hp. cbn in *. rewrite lookup_insert_ne; [auto|].
    intros ->. rewrite (Hs _ Hp) in Ha. done.
  - unfold add_epoll, epoll_ctl_add. rewrite E. cbn [mbind option_bind].
    destruct (ok && _); (eexists; split; [done|]); intros p; cbn.
    + intros [->%elem_of_singleton|Hp]%elem_of_union; [apply lookup_insert_eq|].
      rewrite lookup_insert_ne; [auto|set_solver].
    + intros Hp. rewrite lookup_insert_ne; [auto|set_solver].
  - unfold remove_epoll, epoll_ctl_del. rewrite E. cbn [mbind option_bind].
    destruct ok; cbn [andb Z.ltb Z.compare]; [|by exists s].
    destruct (bool_decide_reflect (h ∈ watched s)) as [Hin|]; cbn [Z.ltb Z.compare]; [|by exists s].
    rewrite (Hs h Hin) in E. injection E as <-. eexists. split; [done|]. intros p Hp. cbn in *. set_solver.
  - rewrite E. cbn [mbind option_bind]. eexists. split; [done|]. intros p Hp. cbn in *.
    rewrite lookup_delete_ne; [auto|set_solver].
Qed.

Lemma run_ops_quiet ops : ∀ s, loop_ok s → ops_allowed ops s = true →
  ∃ s', run_ops ops s = Some s' ∧ loop_ok s'.
Proof.
  induction ops as [|op ops IH]; intros s Hs Ha; [by exists s|]. cbn in *.
  apply andb_true_iff in Ha as [Ha Hr]. destruct (run_op_quiet op s Hs Ha) as (s1 & E & H1).
  rewrite E in *. by apply IH.
Qed.

(** A loop over the events with an invariant. *)
Lemma for_events_inv (I : nat → loop → Prop) f N :
  (∀ j s, (j < N)%nat → I j s → ∃ x, ev s !! j = Some x ∧
     match x with None => I (S j) s | Some p => ∃ s', f j p s = Some s' ∧ I (S j) s' end) →
  ∀ n i s, (i + n = N)%nat → I i s → ∃ s', for_events f i n s = Some s' ∧ I N s'.
Proof.
  intros Hstep n. induction n as [|n IH]; intros i s Hn Hi; cbn [for_events].
  - exists s. split; [done|]. by replace N with i by lia.
  - destruct (Hstep i s ltac:(lia) Hi) as ([p|] & -> & Hx); cbn [mbind option_bind].
    + destruct Hx as (s' & -> & Hs'). by apply IH; [lia|].
    + by apply IH; [lia|].
Qed.

Section dispatch_ok.
Context (body : nat → handler_ptr → loop → list handler_op).
Hypothesis body_allowed : ∀ i p s, pending_ok (length (ev s)) s → p ∈ watched s →
  ops_allowed (body i p s) s = true.

Lemma call_handler_ok N j p s : pending_ok N s → ev s !! j = Some (Some p) →
  ∃ s', call_registered body j p s = Some s' ∧ call_handler body j p s = Some s' ∧ pending_ok N s'.
Proof.
  intros Hs Hp. apply (po_iff _ _ Hs) in Hp as [Hw Hr]. unfold call_registered.
  rewrite bool_decide_true by done. unfold call_handler. rewrite Hr. cbn [mbind option_bind].
  destruct (run_ops_ok N (body j p s) s Hs) as (s' & -> & Hs'); [|by exists s'].
  apply body_allowed; [by rewrite (po_length _ _ Hs)|done].
Qed.

(** The three loops. *)
Lemma set_refs_ok events s : loop_ok s → NoDup events → (∀ h, h ∈ events → h ∈ watched s) →
  ∃ s', for_events (λ i p, set_ref p (Some i)) 0 (length events) (s <| ev := map Some events |>) = Some s' ∧
    pending_ok (length events) s'.
Proof.
  intros Hq Hnd Hin.
  set (I := λ j s', ev s' = map Some events ∧ watched s' = watched s ∧
    (∀ h, h ∈ watched s → is_Some (ref_ev s' !! h)) ∧
    ∀ h i, h ∈ watched s → ref_ev s' !! h = Some (Some i) ↔ (i < j)%nat ∧ events !! i = Some h).
  destruct (for_events_inv I (λ i p, set_ref p (Some i)) (length events)) with (n := length events)
    (i := 0%nat) (s := s <| ev := map Some events |>) as (s' & -> & He & Hws & Hs & Hr).
  - intros j s1 Hj (He & Hws & Hs & Hr). destruct (lookup_lt_is_Some_2 events j Hj) as [p Hp].
    exists (Some p). rewrite He. split; [by rewrite list_lookup_fmap, Hp|].
    destruct (Hs p) as [r Hrp]; [by apply Hin; eapply list_elem_of_lookup_2|].
    unfold set_ref. rewrite Hrp. cbn [mbind option_bind]. eexists. split; [done|].
    split; [done|]. split; [done|]. split; cbn.
    + intros h Hh. destruct (decide (h = p)) as [->|]; [by rewrite lookup_insert_eq|].
      rewrite lookup_insert_ne by done. auto.
    + intros h i Hh. destruct (decide (h = p)) as [->|Hne].
      * rewrite lookup_insert_eq. split; [intros [= <-]; split; [lia|done]|].
        intros [_ Hi]. by rewrite (NoDup_lookup events i j p Hnd Hi Hp).
      * rewrite lookup_insert_ne, Hr by done. split; [intros [? ?]; split; [lia|done]|].
        intros [Hi1 Hi2]. split; [|done]. destruct (decide (i = j)) as [->|]; [|lia]. congruence.
  - done.
  - split; [done|]. split; [done|]. cbn. split; intros h; intros; rewrite Hq by done; [by eexists|]. split; [done|lia].
  - eexists. split; [done|]. split; [by rewrite He, length_map| |].
    + intros i h. rewrite He, Hws, list_lookup_fmap, fmap_Some. split.
      * intros (x & Hx & [= ->]). assert (x ∈ watched s) by (apply Hin; by eapply list_elem_of_lookup_2).
        split; [done|]. rewrite Hr by done. split; [by eapply lookup_lt_Some|done].
      * intros [Hh Hx]. rewrite Hr in Hx by done. exists h. by destruct Hx.
    + intros h Hh. rewrite Hws in Hh. auto.
Qed.

Lemma calls_ok N s : pending_ok N s →
  ∃ s', for_events (call_registered body) 0 N s = Some s' ∧
    for_events (call_handler body) 0 N s = Some s' ∧ pending_ok N s'.
Proof.
  intros Hs. assert (∀ n i s1, (i + n = N)%nat → pending_ok N s1 →
    ∃ s', for_events (call_registered body) i n s1 = Some s' ∧
      for_events (call_handler body) i n s1 = Some s' ∧ pending_ok N s') as H; [|by apply (H N 0%nat s)].
  clear s Hs. intros n. induction n as [|n IH]; intros i s Hn Hs; cbn [for_events]; [by exists s|].
  destruct (lookup_lt_is_Some_2 (ev s) i) as [[p|] Hp]; [rewrite (po_length _ _ Hs); lia| |];
    rewrite Hp; cbn [mbind option_bind].
  - destruct (call_handler_ok N i p s Hs Hp) as (s' & -> & -> & Hs'). by apply IH; [lia|].
  - by apply IH; [lia|].
Qed.

Lemma clear_refs_ok N s : pending_ok N s →
  ∃ s', for_events (λ _ p, set_ref p None) 0 N s = Some s' ∧ loop_ok s'.
Proof.
  intros Hs. set (I := λ j s', ev s' = ev s ∧ watched s' = watched s ∧
    (∀ h, h ∈ watched s → is_Some (ref_ev s' !! h)) ∧
    ∀ h i, h ∈ watched s → ref_ev s' !! h = Some (Some i) → (j <= i)%nat ∧ ev s !! i = Some (Some h)).
  destruct (for_events_inv I (λ _ p, set_ref p None) N) with (n := N) (i := 0%nat) (s := s)
    as (s' & -> & He & Hw & Hx & Hr).
  - intros j s1 Hj (He & Hw & Hx & Hr). destruct (lookup_lt_is_Some_2 (ev s) j) as [x Hj'];
      [rewrite (po_length _ _ Hs); lia|]. exists x. rewrite He. split; [done|]. destruct x as [p|].
    + apply (po_iff _ _ Hs) in Hj' as Hp. destruct Hp as [Hp _]. unfold set_ref.
      destruct (Hx p Hp) as [r ->]. cbn [mbind option_bind]. eexists. split; [done|].
      split; [done|]. split; [done|]. split; cbn.
      * intros h Hh. destruct (decide (h = p)) as [->|]; [by rewrite lookup_insert_eq|].
        rewrite lookup_insert_ne by done. auto.
      * intros h i Hh. destruct (decide (h = p)) as [->|]; [by rewrite lookup_insert_eq|].
        rewrite lookup_insert_ne by done. intros [Hle Hi]%Hr; [|done]. split; [|done].
        destruct (decide (i = j)) as [->|]; [congruence|lia].
    + split; [done|]. split; [done|]. split; [done|]. intros h i Hh [Hle Hi]%Hr; [|done]. split; [|done].
      destruct (decide (i = j)) as [->|]; [congruence|lia].
  - done.
  - split; [done|]. split; [done|]. split; [apply (po_watched _ _ Hs)|].
    intros h i Hh Hi. split; [lia|]. by apply (po_iff _ _ Hs).
  - exists s'. split; [done|]. intros h Hh. rewrite Hw in Hh. destruct (Hx h Hh) as [[i|] Hi]; [|done].
    destruct (Hr h i Hh Hi) as [Hle Hl%lookup_lt_Some]. rewrite (po_length _ _ Hs) in Hl. lia.
Qed.

(** C31: Handlers may make, add, remove and free any handlers while the events of one
    epoll_wait() are dispatched, as long as they keep the rules: they use objects that
    exist, add no handler that is added already and free none that is still added. Then no
    pointer to a freed handler is used and no handler is called that was removed: calls
    that check for it give the same result. Afterwards no watched handler points to an
    event, so that the next round can begin. *)
Theorem dispatch_safe events s :
  loop_ok s → NoDup events → (∀ h, h ∈ events → h ∈ watched s) →
  ∃ s', dispatch body events s = Some s' ∧
    dispatch_with (call_registered body) events s = Some s' ∧ loop_ok s'.
Proof.
  intros Hs Hnd Hin. unfold dispatch, dispatch_with.
  destruct (set_refs_ok events s Hs Hnd Hin) as (s1 & -> & H1). cbn [mbind option_bind].
  destruct (calls_ok _ s1 H1) as (s2 & -> & -> & H2). cbn [mbind option_bind].
  destruct (clear_refs_ok _ s2 H2) as (s3 & -> & H3). by exists s3.
Qed.
End dispatch_ok.

Definition two_handlers : loop := mk_loop {[1%nat := None; 2%nat := None]} {[1%nat; 2%nat]} [].

(** The first handler removes the second one, whose event is pending, and frees it if that
    succeeds; then it makes a new one at the same address and adds it. *)
Definition replaces_second (i : nat) (p : handler_ptr) (s : loop) : list handler_op :=
  if bool_decide (p = 1%nat ∧ 2%nat ∈ watched s)
  then [Remove true 2%nat; Free 2%nat; New 2%nat (Some 7%nat); Add true 2%nat] else [].

Lemma replaces_second_allowed i p s : pending_ok (length (ev s)) s → p ∈ watched s →
  ops_allowed (replaces_second i p s) s = true.
Proof.
  intros Hs _. unfold replaces_second. destruct (bool_decide_reflect (p = 1%nat ∧ 2%nat ∈ watched s))
    as [(_ & Hw)|]; [|done].
  destruct (remove_epoll_watched _ 2%nat s Hs Hw) as (s1 & E & Hw1 & Hr1).
  cbn [ops_allowed run_op op_allowed]. rewrite E, (bool_decide_true (is_Some _)) by apply (po_watched _ _ Hs _ Hw).
  cbn [andb].
  cbn [fmap option_fmap option_map snd]. rewrite Hr1. unfold add_epoll.
  cbn [mbind option_bind]. rewrite (bool_decide_true (is_Some _)) by (by eexists).
  rewrite bool_decide_false by set_solver. cbn. rewrite lookup_delete_eq, lookup_insert_eq.
  rewrite bool_decide_true by done. rewrite bool_decide_true by (by eexists).
  by rewrite bool_decide_false by set_solver.
Qed.

Lemma dispatch_safe_witness : ∃ s', dispatch replaces_second [1%nat; 2%nat] two_handlers = Some s' ∧ loop_ok s'.
Proof.
  destruct (dispatch_safe replaces_second replaces_second_allowed [1%nat; 2%nat] two_handlers) as (s' & Hd & _ & Hs').
  - intros h. unfold two_handlers. cbn [watched ref_ev].
    intros [E%elem_of_singleton|E%elem_of_singleton]%elem_of_union; rewrite E; vm_compute; reflexivity.
  - repeat constructor; set_solver.
  - set_solver.
  - by exists s'.
Defined.

(** The rule on add_epoll() is needed: it forgets the pending event of a handler that is
    added already, before epoll_ctl() refuses it. Such a handler may then be removed and
    freed while its event still points to it. *)
Example add_registered_breaks :
  dispatch (λ _ h _, if bool_decide (h = 1%nat) then [Add true 2%nat; Remove true 2%nat; Free 2%nat] else [])
    [1%nat; 2%nat] two_handlers = None.
Proof. vm_compute. reflexivity. Qed.

(** ** The timer keeps time *)

Definition ns (t : timespec_t) : Z := tv_sec t * 1000000000 + tv_nsec t.
Definition later (t : timespec_t) (n : Z) : timespec_t := mk_timespec (tv_sec t + n) (tv_nsec t).

Lemma check_timer_bounds next tv : let '(_, _, timeout) := check_timer next tv in 0 <= timeout <= 1000.
Proof.
  unfold check_timer. destruct (Z.ltb_spec (time_diff next tv) 0), (Z.ltb_spec 1000 (time_diff next tv));
    cbn; lia.
Qed.

Lemma time_diff_ns next tv : - 4000000000 <= ns next - ns tv <= 1000000000 →
  -4000 <= time_diff next tv <= 1000 ∧
  (time_diff next tv < 0 → ns next < ns tv) ∧
  (0 <= time_diff next tv → ns tv < ns next + 1000000).
Proof.
  intros Hd. unfold time_diff, ns in *.
  set (ds := tv_sec next - tv_sec tv) in *. set (dn := tv_nsec next - tv_nsec tv) in *.
  pose proof (Z.quot_rem' dn 1000000) as Hq.
  assert (-1000000 < Z.rem dn 1000000 < 1000000) as Hr
    by (pose proof (Z.rem_bound_abs dn 1000000); lia).
  assert (0 <= Z.rem dn 1000000 * dn) by (apply Z.rem_sign_mul; lia).
  assert (-4000 <= ds * 1000 + Z.quot dn 1000000 <= 1000) by (split; nia).
  assert (s32 (ds * 1000 + Z.quot dn 1000000) = ds * 1000 + Z.quot dn 1000000) as ->.
  { unfold s32. rewrite Z.mod_small; lia. }
  split; [done|]. split; nia.
Qed.

(** No round comes more than four seconds late, nor more than a second early. *)
Fixpoint on_time (next : timespec_t) (rounds : list timespec_t) : Prop :=
  match rounds with
  | [] => True
  | tv :: rounds => - 4000000000 <= ns next - ns tv <= 1000000000 ∧
      on_time (snd (fst (check_timer next tv))) rounds
  end.

Lemma check_timer_on_time next tv : - 4000000000 <= ns next - ns tv <= 1000000000 →
  check_timer next tv =
    if time_diff next tv <? 0 then (true, later next 1, 0) else (false, next, time_diff next tv).
Proof.
  intros [Hd _]%time_diff_ns. unfold check_timer.
  rewrite (proj2 (Z.ltb_ge 1000 _)), (proj2 (Z.ltb_ge _ (-4000))) by lia.
  by destruct (time_diff next tv <? 0).
Qed.

Lemma run_timer_on_time rounds : ∀ next, on_time next rounds →
  snd (run_timer next rounds) = later next (snd (fst (run_timer next rounds))).
Proof.
  induction rounds as [|tv rounds IH]; intros next Hr; cbn [run_timer].
  { unfold later. cbn. destruct next. cbn. f_equal; lia. }
  destruct Hr as [Hd Hr]. rewrite check_timer_on_time in * by done.
  destruct (time_diff next tv <? 0); cbn [fst snd] in Hr; specialize (IH _ Hr);
    destruct (run_timer _ rounds) as [[timeouts ticks] last]; cbn [fst snd] in *; subst last;
    unfold later; cbn; f_equal; lia.
Qed.

Lemma on_time_app rounds tv : ∀ next, on_time next (rounds ++ [tv]) →
  on_time next rounds ∧ let last := snd (run_timer next rounds) in
    - 4000000000 <= ns last - ns tv <= 1000000000.
Proof.
  induction rounds as [|tv' rounds IH]; intros next Hr; cbn [app on_time run_timer] in *.
  { by destruct Hr. }
  destruct Hr as [Hd Hr]. destruct (check_timer next tv') as [[tick next'] timeout] eqn:E.
  cbn [fst snd] in *. destruct (IH _ Hr) as [H1 H2].
  by destruct (run_timer next' rounds) as [[timeouts ticks] last].
Qed.

(** C32: The loop never blocks: whatever the clock shows, epoll_wait() is given a timeout from
    0 to 1000 milliseconds.  And the timer does not drift: as long as the rounds come on
    time, the number of calls of run_timeouts() before a round that has none is the number
    of whole seconds since the loop began, with a millisecond's grace. *)
Theorem timer_keeps_time t0 rounds tv :
  Forall (λ t, 0 <= t <= 1000) (fst (fst (run_timer (later t0 1) rounds))) ∧
  (on_time (later t0 1) (rounds ++ [tv]) →
   let '(_, ticks, last) := run_timer (later t0 1) rounds in
   last = later t0 (ticks + 1) ∧
   (fst (fst (check_timer last tv)) = false →
    ticks * 1000000000 <= ns tv - ns t0 < (ticks + 1) * 1000000000 + 1000000)).
Proof.
  split.
  - generalize (later t0 1). induction rounds as [|r rounds IH]; intros next; [constructor|].
    cbn [run_timer]. pose proof (check_timer_bounds next r) as Hb.
    destruct (check_timer next r) as [[tick next'] timeout]. specialize (IH next').
    destruct (run_timer next' rounds) as [[timeouts ticks] last]. by constructor.
  - intros [Hr Hd]%on_time_app. apply run_timer_on_time in Hr.
    destruct (run_timer (later t0 1) rounds) as [[timeouts ticks] last]. cbn [fst snd] in *.
    assert (last = later t0 (ticks + 1)) as E
      by (rewrite Hr; unfold later; cbn; f_equal; lia).
    split; [done|]. rewrite check_timer_on_time by done.
    destruct (time_diff_ns _ _ Hd) as (_ & _ & Hn).
    destruct (Z.ltb_spec (time_diff last tv) 0); [done|]. intros _. specialize (Hn ltac:(lia)).
    rewrite E in *. unfold ns, later in *. cbn in *. lia.
Qed.

(** Rounds half a second apart. *)
Lemma timer_keeps_time_witness :
  let at_ms n := mk_timespec (n / 1000) (n mod 1000 * 1000000) in
  let rounds := map at_ms [0; 500; 1001; 1500; 2002] in
  fst (run_timer (later (at_ms 0) 1) rounds) = ([1000; 500; 0; 500; 0], 2) ∧
  2 * 1000000000 <= ns (at_ms 2500) - ns (at_ms 0) < 3 * 1000000000 + 1000000.
Proof.
  cbv zeta. split; [vm_compute; reflexivity|].
  destruct (timer_keeps_time (mk_timespec (0 / 1000) (0 mod 1000 * 1000000))
    (map (λ n, mk_timespec (n / 1000) (n mod 1000 * 1000000)) [0; 500; 1001; 1500; 2002])
    (mk_timespec (2500 / 1000) (2500 mod 1000 * 1000000))) as [_ H].
  assert (Ho : on_time (later (mk_timespec (0 / 1000) (0 mod 1000 * 1000000)) 1)
    (map (λ n, mk_timespec (n / 1000) (n mod 1000 * 1000000)) [0; 500; 1001; 1500; 2002] ++
     [mk_timespec (2500 / 1000) (2500 mod 1000 * 1000000)])).
  { vm_compute. repeat split; discriminate. }
  specialize (H Ho). vm_compute in H. exact (proj2 H eq_refl).
Defined.
