(* ===== verification/Mainloop.v ===== *)
(** * The daemon from its start to its end (src/main.c, src/epoll_loop.c)

    The options of mstpd, the set-up, and the loop that serves what the descriptors
    deliver.  The three handlers of the daemon never unregister one another, so the
    events of one epoll_wait() are served in order (the general case is in Loop). *)
From S2P Require Import Prelude Types Monad Clib Vectors Wire Kernel Track Control Service Netlink Loop.

(** ** Options *)

Definition LOG_LEVEL_INFO : Z := 2.
Definition LOG_LEVEL_DEFAULT : Z := LOG_LEVEL_INFO.
Definition LOG_LEVEL_MAX : Z := 100.

(** What getopt() returns, with [optarg]. *)
Inductive daemon_option := Opt_d | Opt_s | Opt_v (optarg : list Z) | Opt_V | Opt_other.

Record settings := mk_settings { daemonize : bool; print_to_syslog : bool; log_level : Z }.
Definition default_settings : settings := mk_settings true false LOG_LEVEL_DEFAULT.

(** The exit status, or the settings. *)
Fixpoint read_options (opts : list daemon_option) (s : settings) : Z + settings :=
  match opts with
  | [] => inr (mk_settings (daemonize s) (daemonize s || print_to_syslog s) (log_level s))
  | Opt_d :: opts => read_options opts (mk_settings false (print_to_syslog s) (log_level s))
  | Opt_s :: opts => read_options opts (mk_settings (daemonize s) true (log_level s))
  | Opt_v optarg :: opts =>
      let '(v, end_) := strtoul 0 optarg in
      let l := s64 v in
      if bool_decide (optarg = []) || negb (bool_decide (end_ = [])) || (LOG_LEVEL_MAX <? l)
      then inl 1
      else read_options opts (mk_settings (daemonize s) (print_to_syslog s) (s32 l))
  | Opt_V :: _ => inl 0
  | Opt_other :: _ => inl (-1)
  end.

(** ** Set-up *)

(** The sizes of the packed structures. *)
Definition sanity_check : Z :=
  if (length (put zero_bridge_id) =? 8)%nat && (length (put zero_config_id) =? 51)%nat then 0 else -1.

Definition driver_mstp_init : Z := 0.
Definition signal_init : Z := 0.

(** How the system calls of the set-up end. *)
Record setup := mk_setup {
  pid_file_opened : bool;
  daemon_ok : bool;
  epoll_created : bool;
  ctl_socket_ok : bool;
  packet_sock_ok : bool;
  netsock_ok : bool;
  rtnl_opened : bool;
  rtnl_state_opened : bool;
  linkdump_sent : bool;
  link_dump : list dump_result;
  nonblock_set : bool;
  monitor_added : bool
}.

Section mainloop.
Context `{HostOrder} (K : kernel) (A : abi) (IFLA_MAX local_pid dump : Z).

(** [None]: the answer to the dump request never ends. *)
Definition init_bridge_ops (u : setup) : D (option Z) :=
  if negb (rtnl_opened u) then mret (Some (-1)) else
  if negb (rtnl_state_opened u) then mret (Some (-1)) else
  if negb (linkdump_sent u) then mret (Some (-1)) else
  r ← rtnl_dump_filter K IFLA_MAX local_pid dump (link_dump u);
  mret (r ← (r : option Z);
        Some (if r <? 0 then -1 else if nonblock_set u && monitor_added u then 0 else -1)).

(** ** The loop *)

(** A ready descriptor, with what it delivers when it is read. *)
Inductive ready :=
| Ready_packet (if_index cc : Z) (buf : list Z)
| Ready_ctl (m : ctl_datagram)
| Ready_monitor (results : list recv_result).

Definition handler (e : ready) : D unit :=
  match e with
  | Ready_packet idx cc buf => packet_rcv idx cc buf
  | Ready_ctl m => ctl_rcv_handler K A m ;; dskip
  | Ready_monitor results => br_ev_handler K IFLA_MAX results
  end.

Inductive waited := Wait_EINTR | Wait_error | Wait_events (l : list ready).

(** One round of the loop: whether a signal has set [quit], the clock, and the result of
    epoll_wait(). *)
Record round := mk_round { r_quit : bool; r_now : timespec_t; r_wait : waited }.

Fixpoint epoll_main_loop (nexttimeout : timespec_t) (rounds : list round) : D Z :=
  match rounds with
  | [] => mret 0
  | r :: rounds =>
      if r_quit r then mret 0 else
      let '(tick, nexttimeout, _) := check_timer nexttimeout (r_now r) in
      dwhen tick bridge_one_second ;;
      match r_wait r with
      | Wait_error => mret (-1)
      | Wait_EINTR => epoll_main_loop nexttimeout rounds
      | Wait_events l => dfor_each l handler ;; epoll_main_loop nexttimeout rounds
      end
  end.

(** main(): [start] is the clock when the loop begins. *)
Definition daemon_main (opts : list daemon_option) (u : setup) (start : timespec_t)
    (rounds : list round) : D Z :=
  match read_options opts default_settings with
  | inl status => mret status
  | inr s =>
      (λ d, DDone tt (d <| d_log_level := log_level s |>)) ;;
      if sanity_check <? 0 then mret 1 else
      if daemonize s && negb (pid_file_opened u && daemon_ok u) then mret (-1) else
      if (signal_init ≠? 0) || (driver_mstp_init ≠? 0) || negb (epoll_created u)
         || negb (ctl_socket_ok u) || negb (packet_sock_ok u) || negb (netsock_ok u)
      then mret (-1) else
      r ← init_bridge_ops u;
      match (r : option Z) with
      | None => mret 0
      | Some r =>
          if r ≠? 0 then mret (-1) else
          c ← epoll_main_loop (later start 1) rounds;
          bridge_track_fini K ;;
          mret c
      end
  end.
End mainloop.
