(* ===== verification/Lifetime.v ===== *)
(** * The life of the daemon

    From main() to its return, with any options, any outcome of the set-up, any events
    and any clock, the daemon accesses no memory out of bounds. *)
From S2P Require Import Prelude Types Monad Clib Vectors Kernel Track Control.
From S2P Require Import Safety Daemon Requests Service Netlink Linkmsg Loop Mainloop.

Section lifetime.
Context `{HostOrder} (K : kernel) (A : abi) (IFLA_MAX local_pid dump : Z).
Context (Hstack : ∀ n, length (k_stack K n) = 64%nat) (HA : abi_ok A).
Context (Hmax : IFLA_OPERSTATE <= IFLA_MAX).

(** ** Computations from a reachable daemon *)

Definition stays {X} (m : D X) : Prop := ∀ d, reachable_daemon K A d →
  match m d with DDone _ d' => reachable_daemon K A d' | DFault => False | DOutOfFuel => True end.

Lemma stays_ret {X} (x : X) : stays (mret x).
Proof. by intros d Hd. Qed.
Lemma stays_bind {X Y} (m : D X) (f : X → D Y) : stays m → (∀ x, stays (f x)) → stays (m ≫= f).
Proof.
  intros Hm Hf d Hd. specialize (Hm d Hd). unfold mbind, D_bind.
  destruct (m d); [|done..]. by apply Hf.
Qed.
Lemma stays_reads {X Y} (o : option X) (f : X → D Y) :
  is_Some o → (∀ x, o = Some x → stays (f x)) → stays (reads o ≫= f).
Proof. intros [x ->] Hf. by apply Hf. Qed.

Lemma stays_serve i : input_ok i → stays (serve K A i).
Proof.
  intros Hi d Hd. pose proof (serve_keeps K A Hstack HA i d (reachable_DI K A Hstack HA d Hd) Hi) as Hk.
  unfold dkeeps, dwp in Hk. destruct (serve K A i d) as [[] d'| |] eqn:E; [|done..].
  by eapply rd_step.
Qed.

Lemma stays_then_skip {X} (m : D X) : stays (m ;; dskip) → stays m.
Proof. intros Hm d Hd. specialize (Hm d Hd). unfold mbind, D_bind in Hm. by destruct (m d). Qed.

Lemma stays_syscall {X} (f : nat → X) : stays (syscall f).
Proof.
  intros d Hd. unfold syscall.
  pose proof (rd_environment K A d (d_clock d) (d_calloc d) (S (d_calls d)) Hd) as Hr. by destruct d.
Qed.

Lemma stays_notify br idx newlink flags : stays (bridge_notify K br idx newlink flags).
Proof. apply stays_then_skip. by apply (stays_serve (Netlink br idx newlink flags)). Qed.

Lemma stays_when b m : stays m → stays (dwhen b m).
Proof. intros Hm. destruct b; [done|apply stays_ret]. Qed.

Lemma stays_for_each {X} (l : list X) body :
  (∀ x, x ∈ l → stays (body x)) → stays (dfor_each l body).
Proof.
  induction l as [|x l IH]; intros Hb; [apply stays_ret|]. cbn. apply stays_bind.
  - apply Hb. by left.
  - intros []. apply IH. intros y Hy. apply Hb. by right.
Qed.

(** ** The monitor *)

Lemma stays_notice m : stays (notice m K).
Proof.
  unfold notice. cbv zeta. repeat match goal with |- stays (if ?b then _ else _) =>
    destruct b; [apply stays_ret|] end.
  destruct (find_attr _ IFLA_IFNAME); [|apply stays_ret].
  destruct (find_attr _ IFLA_MASTER).
  - apply stays_bind; [apply stays_bind; [apply stays_syscall|intros _; apply stays_ret]|].
    intros []. apply stays_bind; [apply stays_ret|]. intros br.
    apply stays_bind; [apply stays_notify|]. intros _. apply stays_ret.
  - apply stays_bind; [apply stays_ret|]. intros [].
    apply stays_bind; [apply stays_bind; [apply stays_syscall|intros b; apply stays_ret]|].
    intros br. apply stays_bind; [apply stays_notify|]. intros _. apply stays_ret.
Qed.

Lemma stays_notices ms : stays (notices K ms).
Proof.
  induction ms as [|m ms IH]; [apply stays_ret|]. cbn. apply stays_bind; [apply stays_notice|].
  intros err. destruct (err <? 0); [apply stays_ret|exact IH].
Qed.

(** What the kernel sends: link messages, at the start followed by the end of the dump. *)
Definition link_datagram (buf : list Z) (status : Z) (tail : list Z) : Prop :=
  ∃ ms post, Forall wf_link_message ms ∧ buf = datagram_octets ms ++ tail ++ post ∧
    status = Z.of_nat (length (datagram_octets ms) + length tail) ∧ status < 2 ^ 31.

Definition recv_ok (r : recv_result) : Prop :=
  match r with Received status _ _ buf => link_datagram buf status [] | _ => True end.

Definition done_octets (hdr code : list Z) : list Z :=
  put_uint 4 20 ++ put_uint 2 NLMSG_DONE ++ hdr ++ code.
Definition dump_ok (r : dump_result) : Prop :=
  match r with
  | Dump_error _ => True
  | Dumped _ status _ buf => link_datagram buf status [] ∨
      ∃ hdr code, length hdr = 10%nat ∧ length code = 4%nat ∧ link_datagram buf status (done_octets hdr code)
  end.

Lemma stays_listen results : Forall recv_ok results → stays (rtnl_listen K IFLA_MAX results).
Proof.
  induction 1 as [|r results Hr Hrs IH]; [apply stays_ret|].
  destruct r as [| | | |status namelen trunc buf]; cbn [rtnl_listen]; try done; try apply stays_ret.
  destruct (status =? 0); [apply stays_ret|]. destruct (namelen ≠? _); [apply stays_ret|].
  apply stays_bind.
  - destruct Hr as (ms & post & Hms & -> & -> & Hl). cbn [length] in *. rewrite Nat.add_0_r, Nat2Z.id in *.
    intros d Hd. cbn [app].
    pose proof (listen_datagram K IFLA_MAX Hmax post ms _ [] d Hms (messages_fewer ms Hms) Hl) as E.
    change (Z.of_nat (length [])) with 0 in E. cbn [app] in E. rewrite E. by apply stays_notices.
  - intros [e|rest]; [apply stays_ret|]. destruct trunc; [done|].
    destruct (rest ≠? 0); [apply stays_ret|done].
Qed.

(** *** The dump at the start *)

Lemma uint_at_is_Some buf off n : 0 <= off → off + Z.of_nat n <= Z.of_nat (length buf) →
  is_Some (uint_at buf off n).
Proof. intros H1 H2. unfold uint_at. rewrite octets_at_Some by done. by eexists. Qed.
Lemma int_at_is_Some buf off : 0 <= off → off + 4 <= Z.of_nat (length buf) → is_Some (int_at buf off).
Proof. intros H1 H2. unfold int_at. by apply fmap_is_Some, uint_at_is_Some. Qed.

(** A message of length [l] that lies in the buffer. *)
Lemma stays_dump_done buf h l : uint_at buf h 4 = Some l → 0 <= h → h + l <= Z.of_nat (length buf) →
  stays (rtnl_dump_done buf h).
Proof.
  intros El H0 Hl. unfold rtnl_dump_done. apply stays_reads; [by rewrite El|]. intros ? E.
  rewrite El in E. injection E as <-. unfold NLMSG_DATA, NLMSG_LENGTH.
  change (align4 sizeof_nlmsghdr) with 16. destruct (Z.ltb_spec l (4 + 16)); [apply stays_ret|].
  apply stays_reads; [apply int_at_is_Some; lia|]. intros. apply stays_ret.
Qed.

Lemma stays_dump_error buf h l : uint_at buf h 4 = Some l → 0 <= h → h + l <= Z.of_nat (length buf) →
  stays (rtnl_dump_error buf h).
Proof.
  intros El H0 Hl. unfold rtnl_dump_error. apply stays_reads; [by rewrite El|]. intros ? E.
  rewrite El in E. injection E as <-. unfold NLMSG_DATA, NLMSG_LENGTH.
  change (align4 sizeof_nlmsghdr) with 16. apply stays_bind; [|intros; apply stays_ret].
  destruct (Z.ltb_spec l (20 + 16)); [apply stays_ret|].
  apply stays_reads; [apply int_at_is_Some; lia|]. intros. apply stays_ret.
Qed.

Notation dump_from fuel nl_pid buf h msglen := (dump_messages K IFLA_MAX local_pid dump fuel nl_pid buf h msglen).

(** One message: the rest, and the message itself if it is a link message. *)
Lemma stays_dump_step fuel nl_pid buf h msglen l :
  0 <= h → h + msglen <= Z.of_nat (length buf) → uint_at buf h 4 = Some l → 16 <= l <= msglen →
  stays (dump_from fuel nl_pid buf (h + align4 l) (msglen - align4 l)) →
  (nlmsg_type buf h ≠ Some NLMSG_DONE → stays (listen_msg K IFLA_MAX buf h)) →
  stays (dump_from (S fuel) nl_pid buf h msglen).
Proof.
  intros H0 Hb El Hl Hnext Hmsg. cbn [dump_messages]. unfold NLMSG_OK, sizeof_nlmsghdr.
  rewrite (proj2 (Z.ltb_ge msglen 16)), El by lia. cbn [mbind option_bind].
  rewrite (proj2 (Z.leb_le 16 l)), (proj2 (Z.leb_le l msglen)) by lia. cbn [andb].
  apply stays_reads; [done|]. intros ? [= <-]. cbn [negb].
  apply stays_reads; [done|]. intros ? [= <-]. cbv zeta.
  apply stays_reads; [apply uint_at_is_Some; lia|]. intros pid _.
  apply stays_reads; [apply uint_at_is_Some; lia|]. intros seq _.
  destruct (_ || _); [done|].
  apply stays_reads; [apply uint_at_is_Some; lia|]. intros type Et.
  destruct (Z.eqb_spec type NLMSG_DONE) as [->|Hd].
  { apply stays_bind; [by eapply stays_dump_done; [done|done|lia]|]. intros. apply stays_ret. }
  destruct (type =? NLMSG_ERROR).
  { apply stays_bind; [by eapply stays_dump_error; [done|done|lia]|]. intros err.
    destruct (err <? 0); [apply stays_ret|done]. }
  apply stays_bind; [apply Hmsg; congruence|]. intros err.
  destruct (err <? 0); [apply stays_ret|done].
Qed.

Lemma stays_dump_end fuel nl_pid buf h : stays (dump_from fuel nl_pid buf h 0).
Proof. destruct fuel; [by intros d Hd|]. apply stays_reads; [done|]. intros ? [= <-]. apply stays_ret. Qed.

Lemma stays_dump_tail tail post nl_pid fuel pre :
  tail = [] ∨ (∃ hdr code, length hdr = 10%nat ∧ length code = 4%nat ∧ tail = done_octets hdr code) →
  stays (dump_from fuel nl_pid (pre ++ tail ++ post) (Z.of_nat (length pre)) (Z.of_nat (length tail))).
Proof.
  intros [->|(hdr & code & Hh & Hc & ->)]; [apply stays_dump_end|].
  assert (length (done_octets hdr code) = 20%nat) as Hl
    by (unfold done_octets; by rewrite !length_app, !length_put_uint, Hh, Hc).
  destruct fuel as [|fuel]; [by intros d Hd|].
  apply (stays_dump_step _ _ _ _ _ 20).
  - lia.
  - rewrite !length_app. lia.
  - rewrite (uint_at_skip _ _ _ _ _ eq_refl), Z.sub_diag by lia. unfold done_octets.
    rewrite <- !app_assoc. by apply uint_at_head.
  - rewrite Hl. lia.
  - rewrite Hl. change (Z.of_nat 20 - align4 20) with 0. apply stays_dump_end.
  - intros Ht. destruct Ht. unfold nlmsg_type. rewrite (uint_at_skip _ _ _ _ _ eq_refl) by lia.
    unfold done_octets. rewrite <- !app_assoc.
    rewrite (uint_at_skip _ _ _ _ 4) by (rewrite ?length_put_uint; lia).
    replace (_ - _ - 4) with 0 by lia. by apply uint_at_head.
Qed.

Lemma stays_dump tail post nl_pid ms : ∀ fuel pre,
  tail = [] ∨ (∃ hdr code, length hdr = 10%nat ∧ length code = 4%nat ∧ tail = done_octets hdr code) →
  Forall wf_link_message ms →
  stays (dump_from fuel nl_pid (pre ++ datagram_octets ms ++ tail ++ post) (Z.of_nat (length pre))
    (Z.of_nat (length (datagram_octets ms) + length tail))).
Proof.
  induction ms as [|m ms IH]; intros fuel pre Ht Hms;
    [exact (stays_dump_tail tail post nl_pid fuel pre Ht)|].
  apply Forall_cons in Hms as [Hm Hms]. destruct fuel as [|fuel]; [by intros d Hd|].
  change (datagram_octets (m :: ms)) with (message_octets m ++ datagram_octets ms).
  pose proof (length_message m Hm) as Hl. pose proof (message_aligned m Hm) as Hal.
  pose proof (total_bounds m Hm) as Hb. rewrite <- Hl in Hb. rewrite <- app_assoc.
  eapply stays_dump_step.
  - lia.
  - rewrite !length_app. lia.
  - by apply message_total.
  - rewrite <- Hl, length_app. lia.
  - rewrite <- Hl, Hal. specialize (IH fuel (pre ++ message_octets m) Ht Hms).
    rewrite <- app_assoc, length_app in IH. rewrite length_app.
    replace (Z.of_nat (length pre) + _) with (Z.of_nat (length pre + length (message_octets m))) by lia.
    by replace (Z.of_nat (length (message_octets m) + _ + _) - _)
      with (Z.of_nat (length (datagram_octets ms) + length tail)) by lia.
  - intros _. rewrite listen_message by done. apply stays_notice.
Qed.

Lemma stays_dump_filter results : Forall dump_ok results →
  stays (rtnl_dump_filter K IFLA_MAX local_pid dump results).
Proof.
  induction 1 as [|r results Hr Hrs IH]; [apply stays_ret|].
  destruct r as [err|nl_pid status trunc buf]; cbn [rtnl_dump_filter]; [apply stays_ret|].
  apply stays_bind.
  - destruct Hr as [(ms & post & Hms & -> & -> & _)|(hdr & code & Hh & Hc & ms & post & Hms & -> & -> & _)].
    + apply (stays_dump [] post nl_pid ms _ []); [by left|done].
    + apply (stays_dump (done_octets hdr code) post nl_pid ms _ []); [right; eauto|done].
  - intros [e|[[] rest]]; [apply stays_ret..|]. destruct trunc; [done|].
    destruct (rest ≠? 0); [apply stays_ret|done].
Qed.

(** ** The loop and main() *)

Definition ready_ok (e : ready) : Prop :=
  match e with
  | Ready_packet idx cc buf => input_ok (Frame idx cc buf)
  | Ready_ctl m => input_ok (Request m)
  | Ready_monitor results => Forall recv_ok results
  end.
Definition round_ok (r : round) : Prop :=
  match r_wait r with Wait_events l => Forall ready_ok l | _ => True end.

Lemma stays_handler e : ready_ok e → stays (handler K A IFLA_MAX e).
Proof.
  destruct e as [idx cc buf|m|results]; cbn [ready_ok handler]; intros He.
  - by apply (stays_serve (Frame idx cc buf)).
  - by apply (stays_serve (Request m)).
  - apply stays_bind; [by apply stays_listen|]. intros. apply stays_ret.
Qed.

Lemma stays_main_loop rounds : ∀ next, Forall round_ok rounds →
  stays (epoll_main_loop K A IFLA_MAX next rounds).
Proof.
  induction rounds as [|r rounds IH]; intros next Hr; [apply stays_ret|].
  apply Forall_cons in Hr as [Hr Hrs]. cbn [epoll_main_loop].
  destruct (r_quit r); [apply stays_ret|].
  destruct (check_timer next (r_now r)) as [[tick next'] timeout].
  apply stays_bind; [apply stays_when; exact (stays_serve Tick Logic.I)|]. intros [].
  unfold round_ok in Hr. destruct (r_wait r) as [| |l]; [by apply IH|apply stays_ret|].
  apply stays_bind; [|intros []; by apply IH]. apply stays_for_each. intros e He.
  apply stays_handler. by eapply Forall_forall in Hr.
Qed.

(** C18: mstpd never accesses memory out of bounds in its life.  Whatever its options, however
    the system calls of its set-up end, whatever the clock shows, in which order and number
    its descriptors become ready, main() runs without a fault, and the daemon is in a
    reachable state when it returns.  What arrives is assumed to be well formed as follows
    ([dump_ok], [round_ok]): the netlink datagrams are sequences of messages as the kernel
    sends them, a frame comes in a receive buffer of its size, the sizes of a control request
    are ints and the size of the answer it announces is not negative
    ([negative_answer_size_faults]).  That main() returns is not claimed: the machines may
    recurse without end ([master_port_oscillates]). *)
Theorem daemon_life_safe opts u start rounds :
  Forall dump_ok (link_dump u) → Forall round_ok rounds →
  match daemon_main K A IFLA_MAX local_pid dump opts u start rounds new_daemon with
  | DDone _ d => reachable_daemon K A d
  | DFault => False
  | DOutOfFuel => True
  end.
Proof.
  intros Hu Hr. unfold daemon_main.
  destruct (read_options opts default_settings) as [status|s]; [exact (rd_start K A 0)|].
  pose proof (rd_start K A (log_level s)) as Hd.
  assert (sanity_check <? 0 = false) as -> by reflexivity. unfold mbind at 1, D_bind at 1.
  revert Hd. generalize (new_daemon <| d_log_level := log_level s |>).
  refine (_ : stays _).
  destruct (daemonize s && _); [apply stays_ret|]. destruct (_ || _); [apply stays_ret|].
  apply stays_bind.
  - unfold init_bridge_ops. repeat match goal with |- stays (if ?b then _ else _) =>
      destruct b; [apply stays_ret|] end.
    apply stays_bind; [by apply stays_dump_filter|]. intros r. apply stays_ret.
  - intros [r|]; [|apply stays_ret]. destruct (r ≠? 0); [apply stays_ret|].
    apply stays_bind; [by apply stays_main_loop|]. intros c.
    apply stays_bind; [exact (stays_serve Stop Logic.I)|]. intros. apply stays_ret.
Qed.
End lifetime.
