(* ===== verification/Terminal.v ===== *)
(** * A terminal: the theorems on the client, in a scene

    A host, a layout of the structures on the client's side and a client, on which the
    theorems on requests, sessions and batch files are instantiated. *)
From S2P Require Import Prelude Types Monad Clib Md5 Outputs Procs Bridge Mgmt Kernel Track Control.
From S2P Require Import Safety Daemon Requests Service Sample Scenario.
From S2P Require Import Tables Client Show Json Commands Batch Remote Session Ctlmain.

(** ** The scene *)

(** Little-endian octets. *)
Definition le_bytes (n : nat) (x : Z) : list Z :=
  map (λ i, Z.land (Z.shiftr x (8 * Z.of_nat i)) 255) (seq 0 n).
Definition ints (l : list Z) : list Z := concat (map (le_bytes 4) l).

Definition blank_bridge_status : CIST_BridgeStatus :=
  mk_CIST_BridgeStatus zero_bridge_id 0 0 false "" "" zero_bridge_id 0 0 0 0 0 0 0 0 zero_bridge_id
    0 false false 0 0 0.
Definition blank_msti_status : MSTI_BridgeStatus :=
  mk_MSTI_BridgeStatus zero_bridge_id 0 0 false "" "" zero_bridge_id 0 0.
Definition blank_port_status : CIST_PortStatus :=
  mk_CIST_PortStatus 0 0 0 0 0 zero_bridge_id 0 zero_bridge_id 0 false 0 false false false false
    0 false false false roleDisabled false zero_bridge_id 0 0 0 false false false false false
    0 0 0 0 0 0 0 false false false false false false.
Definition blank_msti_port_status : MSTI_PortStatus :=
  mk_MSTI_PortStatus 0 0 0 0 0 zero_bridge_id 0 zero_bridge_id 0 roleDisabled false.

(** The client's side of [scene_abi]; its answers carry no data. *)
Definition scene_client_abi : client_abi := {|
  pack_IN c := match c return IN c → list Z with
    | get_cist_bridge_status | get_mstilist | get_mstconfid | get_vids2fids
    | get_fids2mstids | set_debug_level => λ br, ints [br; 0; 0; 0]
    | get_msti_bridge_status | get_cist_port_status | port_mcheck | create_msti
    | delete_msti => λ '(br, x), ints [br; x; 0; 0]
    | get_msti_port_status | set_msti_bridge_config | set_vid2fid | set_fid2mstid =>
        λ '(br, x, y), ints [br; x; y; 0]
    | set_cist_bridge_config => λ '(br, _), ints [br; 0; 0; 0]
    | set_cist_port_config => λ '(br, x, _), ints [br; x; 0; 0]
    | set_msti_port_config => λ '(br, x, y, _), ints [br; x; y; 0]
    | set_mstconfid => λ '(br, x, _), ints [br; x; 0; 0]
    | set_vids2fids | set_fids2mstids => λ '(br, l), ints [br] ++ concat (map (le_bytes 2) l)
    end;
  unpack_OUT c _ := match c return OUT c with
    | get_cist_bridge_status => (blank_bridge_status, "")
    | get_msti_bridge_status => (blank_msti_status, "")
    | get_cist_port_status => blank_port_status
    | get_msti_port_status => blank_msti_port_status
    | get_mstilist => [1; 0]
    | get_vids2fids => replicate 4095 0
    | get_fids2mstids => replicate 4096 0
    | get_mstconfid => zero_config_id
    | _ => tt
    end;
  bytes_of_ints := ints
|}.

(** br0 and eth0 exist, memory is available and the daemon answers. *)
Definition scene_host : host := {|
  if_nametoindex _ n := if n ==? chars "br0" then 1 else if n ==? chars "eth0" then 2 else 0;
  malloc_ok _ := true;
  sendmsg _ := Answered;
  log_length _ := 0;
  scandir _ _ := Some [];
  stat_is_dir _ _ := false
|}.

Definition scene_client (d : daemon) : client := mk_client d 0 [] false.

Lemma scene_laid_out : laid_out scene_abi scene_client_abi create_msti (1, 5).
Proof. split; vm_compute; done. Qed.

Lemma scene_client_abi_ok : client_abi_ok scene_abi scene_client_abi.
Proof. split; intros []; vm_compute; done. Qed.

(** ** The theorems in the scene *)

(** A request to create an MSTI on a bridge the daemon does not know. *)
Lemma request_is_remote_call_witness :
  client_side_function scene_kernel scene_abi scene_client_abi scene_host 0 create_msti (1, 5)
    (scene_client new_daemon) = CDone (inl (-1)) (scene_client new_daemon <| c_calls := 2%nat |>).
Proof.
  rewrite (request_is_remote_call scene_kernel scene_abi scene_client_abi scene_host 0 create_msti
    (1, 5) (scene_client new_daemon) scene_laid_out (λ _, Z.le_refl 0) eq_refl).
  reflexivity.
Defined.

(** The user creates a tree on the bridge that runs, and asks for what there is. *)
Definition scene_batch : list Z :=
  chars "createtree br0 5" ++ [NEWLINE] ++ chars "showvid2fid br0" ++ [NEWLINE].
Lemma client_main_safe_witness : ∃ d,
  client_main scene_kernel scene_abi scene_client_abi scene_host 0 (λ _ _, Some scene_batch) [] "0.1.0"
    (λ _, true) [Option_format (chars "json"); Option_batch (Some (chars "batch"))] []
    (scene_client (scene_running d)) ≠ CFault.
Proof.
  destruct scene_running_reachable as [d Hd]. exists d. intros Hf.
  pose proof (client_main_safe scene_kernel scene_abi scene_client_abi scene_host 0
    (λ _ _, Some scene_batch) [] "0.1.0" (λ _, true) scene_stack scene_abi_ok scene_client_abi_ok
    [Option_format (chars "json"); Option_batch (Some (chars "batch"))] []
    (scene_client (scene_running d)) Hd) as Hs.
  rewrite Hf in Hs. exact Hs.
Defined.

(** A comment of 63 characters, then the end of a sentence. *)
Lemma long_comment_runs_witness :
  let comment := replicate 62 120 in
  process_batch_cmds scene_kernel scene_abi scene_client_abi scene_host 0 FORMAT_PLAIN
    (35 :: comment ++ chars "deletetree br0 5") false false (scene_client new_daemon) =
  process_batch_cmds scene_kernel scene_abi scene_client_abi scene_host 0 FORMAT_PLAIN
    (chars "deletetree br0 5") false false (scene_client new_daemon).
Proof.
  cbv zeta. apply long_comment_runs; [reflexivity|].
  intros Hin. apply elem_of_replicate in Hin. destruct Hin as [Hc _]. discriminate Hc.
Defined.

(** The status of a port that is down. *)
Lemma showport_json_reads_back_witness : ∃ fields,
  read_object (do_showport_fmt_json false blank_port_status (chars "br0") (chars "eth0") PARAM_NULL).1 = Some fields ∧
  ∃ v, do_showport_fmt_plain false blank_port_status (chars "br0") (chars "eth0") PARAM_STATE = (line v, 0) ∧
    (chars "state", v) ∈ fields.
Proof.
  destruct (showport_json_reads_back false blank_port_status (chars "br0") (chars "eth0"))
    as (fields & H1 & _ & _ & _ & H); [by apply clean_chars..|].
  exists fields. split; [exact H1|]. apply H.
  - by apply (bool_decide_unpack _); vm_compute.
  - right. by apply (bool_decide_unpack _); vm_compute.
Defined.
