(* ===== verification/Boot.v ===== *)
(** * The start of a daemon: the theorems on netlink and main(), in a scene

    The kernel of Scenario tells of the interface eth0 in the bridge br0, to a daemon
    that has just been started in the foreground. *)
From S2P Require Import Prelude Types Monad Clib Vectors Kernel Track Control.
From S2P Require Import Safety Daemon Requests Service Scenario Netlink Linkmsg Loop Mainloop Lifetime.

Definition eth0_attrs : list (Z * list Z) :=
  [(IFLA_IFNAME, chars "eth0" ++ [0]); (IFLA_MASTER, put_uint 4 1); (IFLA_MTU, put_uint 4 1500)].
Definition eth0_message : link_message := {|
  lm_type := RTM_NEWLINK; lm_hdr := replicate 10 0; lm_family := AF_BRIDGE; lm_pad := [0; 0; 0];
  lm_index := 2; lm_flags := IFF_UP + IFF_RUNNING; lm_change := [0; 0; 0; 0]; lm_attrs := eth0_attrs
|}.

Lemma eth0_message_ok : wf_link_message eth0_message.
Proof.
  assert (wf_attr (IFLA_IFNAME, chars "eth0" ++ [0]) ∧ wf_attr (IFLA_MASTER, put_uint 4 1) ∧
    wf_attr (IFLA_MTU, put_uint 4 1500)) as (H1 & H2 & H3) by (repeat split; vm_compute; done).
  split; try (vm_compute; done).
  - repeat constructor; done.
  - intros d Hd. vm_compute in Hd. injection Hd as <-.
    split; [do 4 right; by left|vm_compute; lia].
  - intros d Hd. vm_compute in Hd. by injection Hd as <-.
  - intros d Hd. vm_compute in Hd. by injection Hd as <-.
Qed.

(** A buffer with the message and what was there before. *)
Definition eth0_buffer : list Z := datagram_octets [eth0_message] ++ replicate 100 255.
Definition eth0_size : Z := Z.of_nat (length (datagram_octets [eth0_message])).

Lemma parse_rtattr_safe_witness : ∃ tb,
  parse_rtattr eth0_buffer 60 32 (eth0_size - 32) = Some tb ∧ attribute tb IFLA_MTU = Some 52.
Proof.
  destruct (parse_rtattr_safe eth0_buffer) with (max := 60) (rta := 32) (len := eth0_size - 32)
    as (tb & Htb & _); try (vm_compute; done).
  - assert (forallb (λ x, (0 <=? x) && (x <? 256)) eth0_buffer = true) as Hb by (vm_compute; done).
    apply Forall_forall. intros x Hx%list_elem_of_In. rewrite forallb_forall in Hb.
    apply Hb in Hx. unfold in_u8. lia.
  - exists tb. split; [exact Htb|]. vm_compute in Htb. injection Htb as <-. reflexivity.
Defined.

Lemma datagram_is_notices_witness :
  listen_messages scene_kernel 60 (S (length (datagram_octets [eth0_message]))) eth0_buffer 0 eth0_size new_daemon =
  notices scene_kernel [eth0_message] new_daemon.
Proof.
  apply (datagram_is_notices scene_kernel 60).
  - vm_compute; discriminate.
  - constructor; [exact eth0_message_ok|constructor].
  - vm_compute. reflexivity.
Defined.

(** All goes well; the dump is empty; then the kernel tells of eth0, and a signal ends it. *)
Definition boot_setup : setup := {|
  pid_file_opened := true; daemon_ok := true; epoll_created := true; ctl_socket_ok := true;
  packet_sock_ok := true; netsock_ok := true; rtnl_opened := true; rtnl_state_opened := true;
  linkdump_sent := true;
  link_dump := [Dumped 0 20 false (done_octets (replicate 10 0) [0; 0; 0; 0] ++ replicate 10 0)];
  nonblock_set := true; monitor_added := true
|}.
Definition boot_rounds : list round :=
  [mk_round false (mk_timespec 0 0)
     (Wait_events [Ready_monitor [Received eth0_size 12 false eth0_buffer; Recv_EAGAIN]]);
   mk_round true (mk_timespec 1 0) Wait_EINTR].

Lemma daemon_life_safe_witness :
  daemon_main scene_kernel scene_abi 60 7 1 [Opt_d] boot_setup (mk_timespec 0 0) boot_rounds new_daemon ≠ DFault.
Proof.
  intros Hf.
  pose proof (daemon_life_safe scene_kernel scene_abi 60 7 1 scene_stack scene_abi_ok
    ltac:(by compute) [Opt_d] boot_setup (mk_timespec 0 0) boot_rounds) as Hs.
  rewrite Hf in Hs. apply Hs; clear Hs Hf.
  - constructor; [|constructor]. right. exists (replicate 10 0), [0; 0; 0; 0].
    split; [done|]. split; [done|]. exists [], (replicate 10 0). split; [constructor|].
    split; [reflexivity|]. split; vm_compute; done.
  - constructor; [|constructor; [exact Logic.I|constructor]].
    constructor; [|constructor]. constructor; [|constructor; [exact Logic.I|constructor]].
    exists [eth0_message], (replicate 100 255).
    split; [constructor; [exact eth0_message_ok|constructor]|]. split; [reflexivity|].
    split; [vm_compute; reflexivity|vm_compute; reflexivity].
Defined.
