(* ===== verification/Sim.v ===== *)
(** wasm/wasm_api.c: many bridges in one process, their ports joined by virtual cables.

    The protocol code is the daemon's (mstp.c), with another interface layer: the BPDUs a
    port sends are queued and handed to the port its cable leads to, and the time is that
    of the caller.  A [sim] holds one world per bridge, the table of ports with its cables,
    and the frames on their way. *)
From S2P Require Import Prelude Types Monad Clib Vectors Outputs Wire Bridge Mgmt Kernel Track.

(** ** The state *)

(** A [port_t *]: the handle of the bridge and the address of the port in it. *)
Definition port_ptr : Type := Z * port_id.

Record port_slot_t := mk_port_slot {
  ps_prt : option port_ptr;   (* None marks a free slot *)
  ps_brh : Z;
  ps_peer : Z;
  ps_admin_up : bool;
  ps_mute : bool
}.
#[export] Instance eta_port_slot : Eta port_slot_t := λ r,
  mk_port_slot (ps_prt r) (ps_brh r) (ps_peer r) (ps_admin_up r) (ps_mute r).
#[export] Instance set_ps_prt : Setter ps_prt := ltac:(build_setter).
#[export] Instance set_ps_brh : Setter ps_brh := ltac:(build_setter).
#[export] Instance set_ps_peer : Setter ps_peer := ltac:(build_setter).
#[export] Instance set_ps_admin_up : Setter ps_admin_up := ltac:(build_setter).
#[export] Instance set_ps_mute : Setter ps_mute := ltac:(build_setter).

Record frame_t := mk_frame {
  f_seq : Z;
  f_src : Z;
  f_dst : Z;
  f_len : Z;
  f_data : list Z
}.

Record capture_frame_t := mk_capture_frame {
  c_t : Z;
  c_subsec : Z;
  c_port : Z;
  c_len : Z;
  c_src : list Z;
  c_data : list Z
}.

(** g_capture and its indices: the ring is a map from the indices in use. *)
Record capture_t := mk_capture {
  cap_on : bool;
  cap_ring : gmap Z capture_frame_t;
  cap_head : Z;
  cap_count : Z;
  cap_t : Z;
  cap_subsec : Z
}.
#[export] Instance eta_capture : Eta capture_t := λ r,
  mk_capture (cap_on r) (cap_ring r) (cap_head r) (cap_count r) (cap_t r) (cap_subsec r).
#[export] Instance set_cap_on : Setter cap_on := ltac:(build_setter).
#[export] Instance set_cap_ring : Setter cap_ring := ltac:(build_setter).
#[export] Instance set_cap_head : Setter cap_head := ltac:(build_setter).
#[export] Instance set_cap_count : Setter cap_count := ltac:(build_setter).
#[export] Instance set_cap_t : Setter cap_t := ltac:(build_setter).
#[export] Instance set_cap_subsec : Setter cap_subsec := ltac:(build_setter).

(** [s_clock] and [s_calloc] are the clock readings and the outcomes of the allocations
    still to come, as in a world. *)
Record sim := mk_sim {
  s_now : Z;
  s_bridges : gmap Z world;         (* g_bridges: the handles in use *)
  s_ports : gmap Z port_slot_t;     (* g_ports: a slot that was never used is all zeros *)
  s_queue : list frame_t;
  s_delivered : Z;
  s_seq : Z;
  s_capture : capture_t;
  s_clock : list timespec;
  s_calloc : list bool
}.
#[export] Instance eta_sim : Eta sim := λ r,
  mk_sim (s_now r) (s_bridges r) (s_ports r) (s_queue r) (s_delivered r) (s_seq r)
    (s_capture r) (s_clock r) (s_calloc r).
#[export] Instance set_s_now : Setter s_now := ltac:(build_setter).
#[export] Instance set_s_bridges : Setter s_bridges := ltac:(build_setter).
#[export] Instance set_s_ports : Setter s_ports := ltac:(build_setter).
#[export] Instance set_s_queue : Setter s_queue := ltac:(build_setter).
#[export] Instance set_s_delivered : Setter s_delivered := ltac:(build_setter).
#[export] Instance set_s_seq : Setter s_seq := ltac:(build_setter).
#[export] Instance set_s_capture : Setter s_capture := ltac:(build_setter).
#[export] Instance set_s_clock : Setter s_clock := ltac:(build_setter).
#[export] Instance set_s_calloc : Setter s_calloc := ltac:(build_setter).

Definition zero_slot : port_slot_t := mk_port_slot None 0 0 false false.
Definition zero_capture : capture_t := mk_capture false ∅ 0 0 0 0.
Definition new_sim (clock : list timespec) : sim := mk_sim 0 ∅ ∅ [] 0 0 zero_capture clock [].

(** ** Computations *)

Inductive noutcome (A : Type) :=
| NDone (a : A) (s : sim)
| NFault
| NOutOfFuel.
Arguments NDone {A} a s.
Arguments NFault {A}.
Arguments NOutOfFuel {A}.

Definition N (A : Type) : Type := sim → noutcome A.

#[export] Instance N_ret : MRet N := λ A a s, NDone a s.
#[export] Instance N_bind : MBind N := λ A B f m s,
  match m s with
  | NDone a s' => f a s'
  | NFault => NFault
  | NOutOfFuel => NOutOfFuel
  end.

Definition nskip : N unit := mret tt.
Definition nfault {A} : N A := λ _, NFault.
Definition n_out_of_fuel {A} : N A := λ _, NOutOfFuel.
Definition nwhen (b : bool) (m : N unit) : N unit := if b then m else nskip.
Definition nread : N sim := λ s, NDone s s.
Definition nupd (f : sim → sim) : N unit := λ s, NDone tt (f s).

Fixpoint nfor_each {A} (l : list A) (body : A → N unit) : N unit :=
  match l with
  | [] => nskip
  | x :: l' => body x ;; nfor_each l' body
  end.

(** The outcome of the next [malloc] or [calloc]. *)
Definition nalloc : N bool := λ s,
  match s_calloc s with
  | [] => NDone true s
  | b :: l => NDone b (s <| s_calloc := l |>)
  end.

(** ** The tables *)

Definition MSTPW_MAX_BRIDGES : Z := 256.
Definition MSTPW_MAX_PORTS : Z := 4096.

Definition slot (s : sim) (h : Z) : port_slot_t := default zero_slot (s_ports s !! h).

(** [g_ports[h]] *)
Definition in_table (h : Z) : bool := (0 <=? h) && (h <? MSTPW_MAX_PORTS).
Definition get_slot (h : Z) : N port_slot_t := λ s,
  if in_table h then NDone (slot s h) s else NFault.
Definition upd_slot (h : Z) (f : port_slot_t → port_slot_t) : N unit := λ s,
  if in_table h then NDone tt (s <| s_ports ::= <[h := f (slot s h)]> |>) else NFault.

Definition br_handle_ok (h : Z) (s : sim) : bool :=
  (0 <=? h) && (h <? MSTPW_MAX_BRIDGES) && bool_decide (is_Some (s_bridges s !! h)).
Definition port_handle_ok (h : Z) (s : sim) : bool :=
  in_table h && bool_decide (is_Some (ps_prt (slot s h))).

(** The first index the test accepts, or -1. *)
Definition first_free (n : Z) (test : Z → bool) : Z :=
  default (-1) (head (filter test (zrange 0 (n - 1)))).
Definition alloc_br_handle (s : sim) : Z :=
  first_free MSTPW_MAX_BRIDGES (λ i, bool_decide (s_bridges s !! i = None)).
Definition alloc_port_handle (s : sim) : Z :=
  first_free MSTPW_MAX_PORTS (λ i, bool_decide (ps_prt (slot s i) = None)).

(** [if(!br_handle_ok(brh)) return -1;] and the like. *)
Definition on_bridge (brh : Z) (m : N Z) : N Z :=
  s ← nread; if negb (br_handle_ok brh s) then mret (-1) else m.
Definition on_port (porth : Z) (m : port_ptr → N Z) : N Z :=
  s ← nread;
  if negb (port_handle_ok porth s) then mret (-1) else
  match ps_prt (slot s porth) with Some prt => m prt | None => nfault end.

(** ** Capture *)

Definition MSTPW_CAPTURE_CAP : Z := 8192.

Definition capture_reset : N unit :=
  nupd (λ s, s <| s_capture ::= λ c,
    c <| cap_ring := ∅ |> <| cap_head := 0 |> <| cap_count := 0 |> <| cap_t := 0 |>
      <| cap_subsec := 0 |> |>).

(** The frame goes to the next free index, or takes the place of the oldest one. *)
Definition capture_push (c : capture_t) (now port : Z) (src data : list Z) (len : Z) : capture_t :=
  let c := if now ≠? cap_t c then c <| cap_t := now |> <| cap_subsec := 0 |> else c in
  let f := mk_capture_frame now (cap_subsec c) port len src data in
  let c := c <| cap_subsec ::= λ n, u32 (n + 1) |> in
  if cap_count c <? MSTPW_CAPTURE_CAP then
    c <| cap_ring ::= <[(cap_head c + cap_count c) mod MSTPW_CAPTURE_CAP := f]> |>
      <| cap_count ::= λ n, n + 1 |>
  else
    c <| cap_ring ::= <[cap_head c := f]> |>
      <| cap_head ::= λ n, (n + 1) mod MSTPW_CAPTURE_CAP |>.

Definition capture_record (port : Z) (src data : list Z) (len : Z) : N unit :=
  s ← nread;
  if negb (cap_on (s_capture s)) then nskip else
  ok ← nalloc;
  if negb ok then nskip else
  nupd (λ s, s <| s_capture ::= λ c, capture_push c (s_now s) port src data len |>).

(** ** BPDU transport *)

Definition frame_enqueue (src dst : Z) (data : list Z) (len : Z) : N unit :=
  ok ← nalloc;
  if negb ok then nskip else
  nupd (λ s, s <| s_seq ::= λ n, u32 (n + 1) |>) ;;
  nupd (λ s, s <| s_queue ::= λ q, q ++ [mk_frame (s_seq s) src dst len data] |>).

Definition frame_purge_dst (dst : Z) : N unit :=
  nupd (λ s, s <| s_queue ::= filter (λ f, f_dst f ≠ dst) |>).

Definition MSTPW_DELIVER_CAP : Z := 2000000.

(** The octets of a BPDU the code sends [size] of. *)
Definition bpdu_octets (b : bpdu_t) (size : Z) : list Z := take (Z.to_nat size) (put b).

(** MSTP_OUT_tx_bpdu, after the counters: the port has handle [porth] and address [src]. *)
Definition transmit (porth : Z) (src : list Z) (b : bpdu_t) (size : Z) : N unit :=
  let data := bpdu_octets b size in
  capture_record porth src data size ;;
  s ← nread;
  if negb (port_handle_ok porth s) then nskip else
  if ps_mute (slot s porth) then nskip else
  let peer := ps_peer (slot s porth) in
  if negb (port_handle_ok peer s) then nskip else
  frame_enqueue porth peer data size.

(** ** Calls into the protocol code *)

Definition lend_to (s : sim) (w : world) : world :=
  w <| w_out := [] |> <| w_clock := s_clock s |> <| w_calloc := s_calloc s |>.
Definition take_back (s : sim) (w : world) : sim :=
  s <| s_clock := w_clock w |> <| s_calloc := w_calloc w |>.

(** What the code does about the actions of a call, in their order: it transmits; a port
    can only be shut down when it receives a BPDU. *)
Definition perform (shutdown : N unit) (e : event) : N unit :=
  match e with
  | EvSend porth src _ b size => transmit porth src b size
  | EvShutdown _ => shutdown
  | EvSetState _ _ | EvFlush _ | EvAgeing _ _ => nskip
  end.

Definition call_with (shutdown : N unit) (brh : Z) {A} (m : M A) : N A := λ s,
  match s_bridges s !! brh with
  | None => NFault
  | Some w =>
      match m (lend_to s w) with
      | Done a w' =>
          (nfor_each (w_out w') (perform shutdown) ;; mret a)
            (take_back s w' <| s_bridges ::= <[brh := w']> |>)
      | Fault => NFault
      | OutOfFuel => NOutOfFuel
      end
  end.
Definition call (brh : Z) {A} (m : M A) : N A := call_with nfault brh m.

Definition read_prt (prt : port_ptr) : N port_t := λ s,
  match s_bridges s !! prt.1 ≫= λ w, w_ports w !! prt.2 with
  | Some x => NDone x s
  | None => NFault
  end.
Definition upd_prt_sysdeps (prt : port_ptr) (f : sysdep_if_data_t → sysdep_if_data_t) : N unit :=
  call prt.1 (upd_port prt.2 (λ x, x <| prt_sysdeps ::= f |>)).

(** ** Carrier *)

Definition port_carrier (porth : Z) (s : sim) : bool :=
  let p := slot s porth in
  if negb (ps_admin_up p) then false else
  if negb (port_handle_ok (ps_peer p) s) then true else
  ps_admin_up (slot s (ps_peer p)).

(** The first loop of [sync_carrier]: whether the carrier of the port has changed. *)
Definition set_carrier (porth : Z) : N bool :=
  s ← nread;
  if negb (port_handle_ok porth s) then mret false else
  match ps_prt (slot s porth) with
  | None => nfault
  | Some prt =>
      let carrier := port_carrier porth s in
      x ← read_prt prt;
      let changed := negb (Bool.eqb carrier (up (prt_sysdeps x))) in
      upd_prt_sysdeps prt (λ d, d <| up := carrier |>) ;;
      nwhen (changed && negb carrier) (frame_purge_dst porth) ;;
      mret changed
  end.

(** The second loop: the bridge is told. *)
Definition notify_carrier (porth : Z) (changed : bool) : N unit :=
  if negb changed then nskip else
  p ← get_slot porth;
  match ps_prt p with
  | None => nfault
  | Some prt =>
      x ← read_prt prt;
      let d := prt_sysdeps x in
      call prt.1 (MSTP_IN_set_port_enable prt.2 (up d) (speed d) (duplex d))
  end.

Definition sync_carrier (a b : Z) : N unit :=
  changed_a ← set_carrier a;
  changed_b ← set_carrier b;
  notify_carrier a changed_a ;;
  notify_carrier b changed_b.

Definition pull (p : port_slot_t) : port_slot_t := p <| ps_peer := -1 |> <| ps_mute := false |>.

Definition unplug (porth : Z) : N Z :=
  p ← get_slot porth;
  let peer := ps_peer p in
  upd_slot porth pull ;;
  s ← nread;
  nwhen (port_handle_ok peer s) (upd_slot peer pull) ;;
  mret peer.

(** MSTP_OUT_shutdown_port. *)
Definition sim_shutdown_port (porth : Z) : N unit :=
  upd_slot porth (λ p, p <| ps_admin_up := false |>) ;;
  p ← get_slot porth;
  sync_carrier porth (ps_peer p).

(** ** MAC addresses *)

Definition hexval (c : Z) : Z :=
  if is_digit c then c - 48
  else if (97 <=? c) && (c <=? 102) then c - 97 + 10
  else if (65 <=? c) && (c <=? 70) then c - 65 + 10
  else -1.

(** The octets read from the string; [out] holds those read so far. *)
Fixpoint parse_mac_from (s : list Z) (out : list Z) : option (list Z) :=
  if (length out <? ETH_ALEN)%nat then
    match s with
    | [] => None
    | c :: s1 =>
        if (c =? 58) || (c =? 45) then parse_mac_from s1 out else
        if hexval c <? 0 then None else
        match s1 with
        | [] => None
        | d :: s2 =>
            if hexval d <? 0 then None else
            parse_mac_from s2 (out ++ [u8 (Z.lor (Z.shiftl (hexval c) 4) (hexval d))])
        end
    end
  else Some out.

(** [None] is the null pointer. *)
Definition parse_mac (s : option string) : option (list Z) :=
  match s with Some s => parse_mac_from (chars s) [] | None => None end.

(** ** The C API: bridges and ports *)

Section api.
(** The stack buffer of RecalcConfigDigest, and the octets of the heap behind those of a
    frame: MSTP_IN_rx_bpdu copies a whole [bpdu_t], whatever the length of the frame. *)
Context (stack : list Z) (behind : frame_t → list Z).

Definition zero_if_sysdeps : sysdep_if_data_t := prt_sysdeps zero_port.
Definition zero_br_sysdeps : sysdep_br_data_t := br_sysdeps zero_bridge.

(** [snprintf(dst, IFNAMSIZ, "%s", name ? name : def)] *)
Definition name_or (def : string) (name : option string) : string :=
  strncpy (IFNAMSIZ - 1) (default def name).

Definition free_bridge_slot (brh : Z) : N unit := nupd (λ s, s <| s_bridges ::= delete brh |>).

Definition mstpw_bridge_create (name mac : option string) : N Z :=
  s ← nread;
  let brh := alloc_br_handle s in
  if brh <? 0 then mret (-1) else
  ok ← nalloc;
  if negb ok then mret (-1) else
  let mac := default [2; 0; 0; 0; u8 (Z.shiftr brh 8); u8 (Z.land brh 255)] (parse_mac mac) in
  let sys := zero_br_sysdeps <| br_if_index := brh |> <| br_name := name_or "br" name |>
               <| br_macaddr := mac |> in
  nupd (λ s, s <| s_bridges ::= <[brh := blank_world <| w_br ::= λ br, br <| br_sysdeps := sys |> |>]> |>) ;;
  created ← (if negb (driver_create_bridge 0%nat mac) then mret false
             else call brh (MSTP_IN_bridge_create stack mac));
  if negb created then free_bridge_slot brh ;; mret (-1) else mret brh.

Definition mstpw_bridge_set_enable (brh : Z) (up : bool) : N Z :=
  on_bridge brh (
    call brh (upd_br (λ br, br <| br_sysdeps ::= λ d, d <| br_up := up |> |>
                               <| stp_enabled := up |>)) ;;
    call brh (MSTP_IN_set_bridge_enable up) ;;
    mret 0).

Definition delete_port (porth : Z) (prt : port_ptr) : N unit :=
  call prt.1 (MSTP_IN_delete_port prt.2) ;;
  call prt.1 (free_port prt.2) ;;
  upd_slot porth (λ p, p <| ps_prt := None |> <| ps_admin_up := false |>).

(** The cable is pulled, the port deleted and the other end told.  [purge]: the frames on
    their way to the port are dropped, as mstpw_bridge_delete does; mstpw_port_delete
    leaves them in the queue. *)
Definition remove_port (porth : Z) (prt : port_ptr) (purge : bool) : N unit :=
  peer ← unplug porth;
  delete_port porth prt ;;
  nwhen purge (frame_purge_dst porth) ;;
  sync_carrier peer (-1).

(** One round of the loop of mstpw_bridge_delete. *)
Definition delete_port_of (brh i : Z) : N unit :=
  p ← get_slot i;
  match ps_prt p with
  | Some prt =>
      if ps_brh p =? brh then remove_port i prt true else nskip
  | None => nskip
  end.

Definition mstpw_bridge_delete (brh : Z) : N Z :=
  on_bridge brh (
    nfor_each (zrange 0 (MSTPW_MAX_PORTS - 1)) (delete_port_of brh) ;;
    call brh MSTP_IN_delete_bridge ;;
    free_bridge_slot brh ;;
    mret 0).

(** The port object, and whether it could be added to its bridge. *)
Definition new_port_of (brh porth portno : Z) (sys : sysdep_if_data_t) : N (option port_ptr) :=
  ok ← nalloc;
  if negb ok then mret None else
  s ← nread;
  match s_bridges s !! brh with
  | None => nfault
  | Some w =>
      let p := fresh_addr (w_ports w) in
      created ← (if negb (driver_create_port p (u16 portno)) then mret false
                 else call brh (alloc_port p (zero_port <| prt_sysdeps := sys |>) ;;
                                MSTP_IN_port_create_and_add_tail p (u16 portno)));
      if negb created then call brh (free_port p) ;; mret None else mret (Some (brh, p))
  end.

Definition mstpw_port_create (brh : Z) (name mac : option string) (portno speed : Z) (duplex : bool) : N Z :=
  on_bridge brh (
    if (portno <=? 0) || (MAX_PORT_NUMBER <? portno) then mret (-1) else
    s ← nread;
    let porth := alloc_port_handle s in
    if porth <? 0 then mret (-1) else
    let mac := default [2; 0; 0; u8 brh; u8 (Z.shiftr porth 8); u8 (Z.land porth 255)] (parse_mac mac) in
    let sys := mk_sysdep_if_data porth mac (name_or "p" name) false
                 (if 0 <? speed then speed else 1000) (Z.b2z duplex) in
    prt ← new_port_of brh porth portno sys;
    match prt with
    | None => mret (-1)
    | Some prt =>
        upd_slot porth (λ _, mk_port_slot (Some prt) brh (-1) false false) ;;
        mret porth
    end).

Definition mstpw_port_set_enable (porth : Z) (up : bool) (new_speed : Z) (new_duplex : bool) : N Z :=
  on_port porth (λ prt,
    nwhen up (upd_prt_sysdeps prt (λ d,
      d <| speed := if 0 <? new_speed then new_speed else speed d |> <| duplex := Z.b2z new_duplex |>)) ;;
    upd_slot porth (λ p, p <| ps_admin_up := up |>) ;;
    p ← get_slot porth;
    sync_carrier porth (ps_peer p) ;;
    mret 0).

Definition mstpw_port_delete (porth : Z) : N Z :=
  on_port porth (λ prt, remove_port porth prt false ;; mret 0).

(** The common part of the two kinds of cables.  (The order in which C evaluates the two
    arguments [unplug(a)] and [unplug(b)] is unspecified; here from left to right.) *)
Definition plug (a b : Z) (mute_b : bool) : N Z :=
  s ← nread;
  if negb (port_handle_ok a s) || negb (port_handle_ok b s) || (a =? b) then mret (-1) else
  peer_a ← unplug a;
  peer_b ← unplug b;
  sync_carrier peer_a peer_b ;;
  upd_slot a (λ p, p <| ps_peer := b |>) ;;
  upd_slot b (λ p, p <| ps_peer := a |>) ;;
  nwhen mute_b (upd_slot b (λ p, p <| ps_mute := true |>)) ;;
  sync_carrier a b ;;
  mret 0.

Definition mstpw_link (a b : Z) : N Z := plug a b false.
Definition mstpw_link_oneway (from to : Z) : N Z := plug from to true.

Definition mstpw_unlink (porth : Z) : N Z :=
  on_port porth (λ _, peer ← unplug porth; sync_carrier porth peer ;; mret 0).

(** ** Time *)

Definition mstpw_one_second : N unit :=
  nupd (λ s, s <| s_now ::= λ n, u32 (n + 1) |>) ;;
  nfor_each (zrange 0 (MSTPW_MAX_BRIDGES - 1)) (λ j,
    s ← nread;
    match s_bridges s !! j with
    | Some w => nwhen (stp_enabled (w_br w)) (call j MSTP_IN_one_second)
    | None => nskip
    end).

(** The BPDU is read where the frame lies in memory. *)
Definition read_bpdu (f : frame_t) : option bpdu_t := fst <$> get (f_data f ++ behind f).

(** One frame; whether it was delivered. *)
Definition deliver_frame (f : frame_t) : N bool :=
  s ← nread;
  if negb (port_handle_ok (f_dst f) s) then mret false else
  match ps_prt (slot s (f_dst f)) with
  | None => nfault
  | Some prt =>
      x ← read_prt prt;
      if negb (up (prt_sysdeps x)) then mret false else
      nupd (λ s, s <| s_delivered ::= λ n, u32 (n + 1) |>) ;;
      match read_bpdu f with
      | None => nfault
      | Some b =>
          call_with (sim_shutdown_port (if_index (prt_sysdeps x))) prt.1
            (MSTP_IN_rx_bpdu prt.2 b (f_len f)) ;;
          mret true
      end
  end.

(** The frames of one generation; the last component tells that the cap was reached. *)
Fixpoint deliver_wave (wave : list frame_t) (guard delivered : Z) : N (Z * Z * bool) :=
  match wave with
  | [] => mret (guard, delivered, false)
  | f :: wave' =>
      let guard := u32 (guard + 1) in
      if MSTPW_DELIVER_CAP <? guard then
        nupd (λ s, s <| s_queue := [] |>) ;; mret (guard, delivered, true)
      else
        d ← deliver_frame f;
        deliver_wave wave' guard (if (d : bool) then s32 (delivered + 1) else delivered)
  end.

(** One round of the loop, and whether there is another one. *)
Definition deliver_round (guard delivered : Z) : N (Z * Z * bool) :=
  s ← nread;
  let wave := s_queue s in
  nupd (λ s, s <| s_queue := [] |>) ;;
  r ← deliver_wave wave guard delivered;
  let '(guard, delivered, capped) := r in
  s ← nread;
  mret (guard, delivered, negb capped && negb (bool_decide (s_queue s = []))).

(** At most [2 ^ n] rounds. *)
Fixpoint deliver_rounds (n : nat) (guard delivered : Z) : N (Z * Z * bool) :=
  match n with
  | O => deliver_round guard delivered
  | S n' =>
      r ← deliver_rounds n' guard delivered;
      let '(guard, delivered, more) := r in
      if (more : bool) then deliver_rounds n' guard delivered else mret r
  end.

(** 2 ^ 21 exceeds MSTPW_DELIVER_CAP. *)
Definition round_depth : nat := 21.

Definition mstpw_deliver_bpdus (all : bool) : N Z :=
  r ← (if all then deliver_rounds round_depth 0 0 else deliver_round 0 0);
  let '(guard, delivered, more) := r in
  if all && (more : bool) then n_out_of_fuel else mret delivered.

Fixpoint step_seconds (n : nat) : N unit :=
  match n with
  | O => nskip
  | S n' => mstpw_one_second ;; mstpw_deliver_bpdus true ;; step_seconds n'
  end.
Definition mstpw_step (seconds : Z) : N unit := step_seconds (Z.to_nat seconds).

Definition mstpw_capture_enable (on : bool) : N unit :=
  nupd (λ s, s <| s_capture ::= λ c, c <| cap_on := on |> |>) ;; capture_reset.

(** ** Configuration *)

Definition blank_bridge_cfg : CIST_BridgeConfig := mk_CIST_BridgeConfig None None None None None None None.
Definition blank_port_cfg : CIST_PortConfig :=
  mk_CIST_PortConfig None None None None None None None None None None.

Definition code (ok : bool) : Z := if ok then 0 else -1.

Definition mstpw_set_mst_config_id (brh revision : Z) (name : option string) : N Z :=
  on_bridge brh (
    call brh (MSTP_IN_set_mst_config_id (u16 revision) (chars (default EmptyString name))) ;; mret 0).

Definition mstpw_set_force_protocol_version (brh version : Z) : N Z :=
  on_bridge brh (call brh (MSTP_IN_set_cist_bridge_config
    (mk_CIST_BridgeConfig None None (Some version) None None None None))).

(** A value that is not positive is left unchanged. *)
Definition if_positive (f : Z → Z) (v : Z) : option Z := if 0 <? v then Some (f v) else None.

Definition mstpw_set_bridge_times (brh max_age forward_delay hello_time max_hops tx_hold_count : Z) : N Z :=
  on_bridge brh (call brh (MSTP_IN_set_cist_bridge_config
    (mk_CIST_BridgeConfig (if_positive u8 max_age) (if_positive u8 forward_delay) None
       (if_positive u32 tx_hold_count) (if_positive u8 max_hops) (if_positive u8 hello_time) None))).

Definition mstpw_create_msti (brh mstid : Z) : N Z :=
  on_bridge brh (
    if negb (driver_create_msti (u16 mstid)) then mret (-1) else
    ok ← call brh (MSTP_IN_create_msti (u16 mstid)); mret (code ok)).

Definition mstpw_delete_msti (brh mstid : Z) : N Z :=
  on_bridge brh (
    if negb (driver_delete_msti (u16 mstid)) then mret (-1) else
    ok ← call brh (MSTP_IN_delete_msti (u16 mstid)); mret (code ok)).

Definition mstpw_set_vid2fid (brh vid fid : Z) : N Z :=
  on_bridge brh (ok ← call brh (MSTP_IN_set_vid2fid stack (u16 vid) (u16 fid)); mret (code ok)).

Definition mstpw_set_fid2mstid (brh fid mstid : Z) : N Z :=
  on_bridge brh (ok ← call brh (MSTP_IN_set_fid2mstid stack (u16 fid) (u16 mstid)); mret (code ok)).

Definition find_tree (mstid : Z) : M (option tree_id) :=
  l ← trees_of_bridge; mret (head (filter (λ t, t = u16 mstid) l)).
Definition find_ptp (p : port_id) (mstid : Z) : M (option ptp_id) :=
  l ← ptps_of_port p; mret (head (filter (λ k, ptp_MSTID k = u16 mstid) l)).

Definition mstpw_set_bridge_priority (brh mstid priority : Z) : N Z :=
  on_bridge brh (
    t ← call brh (find_tree mstid);
    match t with
    | None => mret (-1)
    | Some t => call brh (MSTP_IN_set_msti_bridge_config t (u8 priority))
    end).

Definition mstpw_set_port_path_cost (porth mstid cost : Z) : N Z :=
  on_port porth (λ prt,
    if mstid =? 0 then
      call prt.1 (MSTP_IN_set_cist_port_config prt.2
        (mk_CIST_PortConfig (Some (u32 cost)) None None None None None None None None None))
    else
      k ← call prt.1 (find_ptp prt.2 mstid);
      match k with
      | None => mret (-1)
      | Some k => call prt.1 (MSTP_IN_set_msti_port_config k (mk_MSTI_PortConfig (Some (u32 cost)) None))
      end).

Definition set_port_config (porth : Z) (cfg : CIST_PortConfig) : N Z :=
  on_port porth (λ prt, call prt.1 (MSTP_IN_set_cist_port_config prt.2 cfg)).

Definition mstpw_set_port_admin_edge (porth : Z) (yes : bool) : N Z :=
  set_port_config porth (mk_CIST_PortConfig None (Some yes) None None None None None None None None).
Definition mstpw_set_port_auto_edge (porth : Z) (yes : bool) : N Z :=
  set_port_config porth (mk_CIST_PortConfig None None (Some yes) None None None None None None None).
Definition mstpw_set_port_admin_p2p (porth p2p : Z) : N Z :=
  set_port_config porth (mk_CIST_PortConfig None None None (Some p2p) None None None None None None).
Definition mstpw_set_port_restricted_role (porth : Z) (yes : bool) : N Z :=
  set_port_config porth (mk_CIST_PortConfig None None None None (Some yes) None None None None None).
Definition mstpw_set_port_restricted_tcn (porth : Z) (yes : bool) : N Z :=
  set_port_config porth (mk_CIST_PortConfig None None None None None (Some yes) None None None None).
Definition mstpw_set_port_bpdu_guard (porth : Z) (yes : bool) : N Z :=
  set_port_config porth (mk_CIST_PortConfig None None None None None None (Some yes) None None None).
Definition mstpw_set_port_network (porth : Z) (yes : bool) : N Z :=
  set_port_config porth (mk_CIST_PortConfig None None None None None None None (Some yes) None None).

(** The numbers of the roles. *)
Definition role_code (r : port_role_t) : Z :=
  match r with
  | roleDisabled => 0 | roleRoot => 1 | roleDesignated => 2 | roleAlternate => 3
  | roleBackup => 4 | roleMaster => 5
  end.

(** A member of the per-tree port, or -1. *)
Definition of_ptp (porth mstid : Z) (f : per_tree_port_t → Z) : N Z :=
  on_port porth (λ prt,
    call prt.1 (k ← find_ptp prt.2 mstid;
                match k with
                | None => mret (-1)
                | Some k => x ← get_ptp k; mret (f x)
                end)).
Definition mstpw_port_role (porth mstid : Z) : N Z := of_ptp porth mstid (λ x, role_code (role x)).
Definition mstpw_port_state (porth mstid : Z) : N Z := of_ptp porth mstid ptp_state.

(** ** All calls *)

Inductive api :=
| ApiBridgeCreate (name mac : option string)
| ApiBridgeSetEnable (brh : Z) (up : bool)
| ApiBridgeDelete (brh : Z)
| ApiPortCreate (brh : Z) (name mac : option string) (portno speed : Z) (duplex : bool)
| ApiPortSetEnable (porth : Z) (up : bool) (speed : Z) (duplex : bool)
| ApiPortDelete (porth : Z)
| ApiLink (a b : Z)
| ApiLinkOneway (from to : Z)
| ApiUnlink (porth : Z)
| ApiOneSecondTick
| ApiDeliverBpdus (all : bool)
| ApiStep (seconds : Z)
| ApiCaptureEnable (on : bool)
| ApiSetMstConfigId (brh revision : Z) (name : option string)
| ApiSetForceProtocolVersion (brh version : Z)
| ApiSetBridgeTimes (brh max_age forward_delay hello_time max_hops tx_hold_count : Z)
| ApiCreateMsti (brh mstid : Z)
| ApiDeleteMsti (brh mstid : Z)
| ApiSetVid2Fid (brh vid fid : Z)
| ApiSetFid2Mstid (brh fid mstid : Z)
| ApiSetBridgePriority (brh mstid priority : Z)
| ApiSetPortPathCost (porth mstid cost : Z)
| ApiSetPortAdminEdge (porth : Z) (yes : bool)
| ApiSetPortAutoEdge (porth : Z) (yes : bool)
| ApiSetPortAdminP2p (porth p2p : Z)
| ApiSetPortBpduGuard (porth : Z) (yes : bool)
| ApiSetPortRestrictedRole (porth : Z) (yes : bool)
| ApiSetPortRestrictedTcn (porth : Z) (yes : bool)
| ApiSetPortNetwork (porth : Z) (yes : bool)
| ApiPortRole (porth mstid : Z)
| ApiPortState (porth mstid : Z).

Definition void (m : N unit) : N Z := m ;; mret 0.

Definition serve_api (c : api) : N Z :=
  match c with
  | ApiBridgeCreate name mac => mstpw_bridge_create name mac
  | ApiBridgeSetEnable brh up => mstpw_bridge_set_enable brh up
  | ApiBridgeDelete brh => mstpw_bridge_delete brh
  | ApiPortCreate brh name mac portno speed duplex => mstpw_port_create brh name mac portno speed duplex
  | ApiPortSetEnable porth up speed duplex => mstpw_port_set_enable porth up speed duplex
  | ApiPortDelete porth => mstpw_port_delete porth
  | ApiLink a b => mstpw_link a b
  | ApiLinkOneway from to => mstpw_link_oneway from to
  | ApiUnlink porth => mstpw_unlink porth
  | ApiOneSecondTick => void mstpw_one_second
  | ApiDeliverBpdus all => mstpw_deliver_bpdus all
  | ApiStep seconds => void (mstpw_step seconds)
  | ApiCaptureEnable on => void (mstpw_capture_enable on)
  | ApiSetMstConfigId brh revision name => mstpw_set_mst_config_id brh revision name
  | ApiSetForceProtocolVersion brh version => mstpw_set_force_protocol_version brh version
  | ApiSetBridgeTimes brh a f h m t => mstpw_set_bridge_times brh a f h m t
  | ApiCreateMsti brh mstid => mstpw_create_msti brh mstid
  | ApiDeleteMsti brh mstid => mstpw_delete_msti brh mstid
  | ApiSetVid2Fid brh vid fid => mstpw_set_vid2fid brh vid fid
  | ApiSetFid2Mstid brh fid mstid => mstpw_set_fid2mstid brh fid mstid
  | ApiSetBridgePriority brh mstid priority => mstpw_set_bridge_priority brh mstid priority
  | ApiSetPortPathCost porth mstid cost => mstpw_set_port_path_cost porth mstid cost
  | ApiSetPortAdminEdge porth yes => mstpw_set_port_admin_edge porth yes
  | ApiSetPortAutoEdge porth yes => mstpw_set_port_auto_edge porth yes
  | ApiSetPortAdminP2p porth p2p => mstpw_set_port_admin_p2p porth p2p
  | ApiSetPortBpduGuard porth yes => mstpw_set_port_bpdu_guard porth yes
  | ApiSetPortRestrictedRole porth yes => mstpw_set_port_restricted_role porth yes
  | ApiSetPortRestrictedTcn porth yes => mstpw_set_port_restricted_tcn porth yes
  | ApiSetPortNetwork porth yes => mstpw_set_port_network porth yes
  | ApiPortRole porth mstid => mstpw_port_role porth mstid
  | ApiPortState porth mstid => mstpw_port_state porth mstid
  end.
End api.
