(* ===== verification/Silent.v ===== *)
(** The actions of a call: [emits P] relates the worlds before and after a call whose
    actions all satisfy [P].  No event shuts a port down but the reception of a BPDU
    ([silent]), and every BPDU that is sent is sent with its header ([has_header]). *)
From S2P Require Import Prelude Types Monad Clib Vectors Outputs Wire Procs RoleSelect PortSM TreeSM.
From S2P Require Import Prtsm Bridge Mgmt Wf Safety Links System Frame Follows.

(** What is sent has the flags, or is a TCN BPDU, which has none. *)
Definition has_header (e : event) : Prop :=
  match e with
  | EvSend _ _ _ b size =>
      5 <= size ∨ 4 <= size ∧ protocolVersion b = protoSTP ∧ bpduType b = bpduTypeTCN
  | _ => True
  end.

Section emits.
Context (P : event → Prop).
Hypothesis Hquiet : ∀ e, is_shutdown e = false → has_header e → P e.

Definition emits (w w' : world) : Prop := ∃ l, w_out w' = w_out w ++ l ∧ Forall P l.

#[local] Instance emits_preorder : PreOrder emits.
Proof.
  split; [intros w; exists []; by rewrite app_nil_r|].
  intros w1 w2 w3 (l & Hl & Hs) (l' & Hl' & Hs'). exists (l ++ l').
  rewrite Hl', Hl, app_assoc. split; [done|]. by apply Forall_app.
Qed.

Lemma emits_same w w' : w_out w' = w_out w → emits w w'.
Proof. intros H. exists []. by rewrite app_nil_r. Qed.

Lemma emits_upd_br f : follows emits (upd_br f).
Proof. intros w a w' [= _ <-]. by apply emits_same. Qed.
Lemma emits_upd_port q f : follows emits (upd_port q f).
Proof. intros w a w'. unfold upd_port. destruct (_ !! _); [|done]. intros [= _ <-]. by apply emits_same. Qed.
Lemma emits_upd_tree t f : follows emits (upd_tree t f).
Proof. intros w a w'. unfold upd_tree. destruct (_ !! _); [|done]. intros [= _ <-]. by apply emits_same. Qed.
Lemma emits_upd_ptp k f : follows emits (upd_ptp k f).
Proof. intros w a w'. unfold upd_ptp. destruct (_ !! _); [|done]. intros [= _ <-]. by apply emits_same. Qed.
Lemma emits_emit e : P e → follows emits (emit e).
Proof. intros He w a w' [= _ <-]. exists [e]. split; [done|]. by constructor. Qed.
Lemma emits_calloc_ok : follows emits calloc_ok.
Proof. intros w a w'. unfold calloc_ok. destruct (w_calloc w); intros [= _ <-]; by apply emits_same. Qed.
Lemma emits_clock : follows emits clock_gettime.
Proof. intros w a w'. unfold clock_gettime. destruct (w_clock w); [done|]. intros [= _ <-]. by apply emits_same. Qed.
Lemma emits_new_tree t x : follows emits (new_tree t x).
Proof. intros w a w' [= _ <-]. by apply emits_same. Qed.
Lemma emits_free_tree t : follows emits (free_tree t).
Proof. intros w a w' [= _ <-]. by apply emits_same. Qed.
Lemma emits_new_ptp k x : follows emits (new_ptp k x).
Proof. intros w a w' [= _ <-]. by apply emits_same. Qed.
Lemma emits_free_ptp k : follows emits (free_ptp k).
Proof. intros w a w' [= _ <-]. by apply emits_same. Qed.
Lemma emits_alloc_port p x : follows emits (alloc_port p x).
Proof. intros w a w' [= _ <-]. by apply emits_same. Qed.
Lemma emits_free_port p : follows emits (free_port p).
Proof. intros w a w' [= _ <-]. by apply emits_same. Qed.
#[local] Hint Resolve emits_upd_br emits_upd_port emits_upd_tree emits_upd_ptp emits_calloc_ok
  emits_clock emits_new_tree emits_free_tree emits_new_ptp emits_free_ptp emits_alloc_port
  emits_free_port : follows.
#[local] Hint Extern 1 (follows emits (emit _)) => apply emits_emit, Hquiet; [reflexivity|exact Logic.I] : follows.

(** *** What is sent *)

Lemma emits_tx p b size : has_header (EvSend 0 [] 0 b size) → follows emits (MSTP_OUT_tx_bpdu p b size).
Proof.
  intros Hb. unfold MSTP_OUT_tx_bpdu. follows_auto. apply emits_emit, Hquiet; [reflexivity|exact Hb].
Qed.
Lemma MST_BPDU_size (n : nat) : 5 <= MST_BPDU_SIZE_WO_MSTI_MSGS + sizeof_msti_configuration_message * Z.of_nat n.
Proof.
  assert (0 <= sizeof_msti_configuration_message) by (by vm_compute).
  assert (5 <= MST_BPDU_SIZE_WO_MSTI_MSGS) by (by vm_compute). lia.
Qed.
#[local] Hint Extern 1 (follows emits (MSTP_OUT_tx_bpdu _ _ _)) =>
  apply emits_tx; first [by left | by right | left; apply MST_BPDU_size] : follows.
Lemma emits_txConfig p : follows emits (txConfig p).
Proof. follows_auto. Qed.
Lemma emits_txTcn p : follows emits (txTcn p).
Proof. follows_auto. Qed.
Lemma emits_txMstp p : follows emits (txMstp p).
Proof. follows_auto. Qed.
#[local] Hint Resolve emits_txConfig emits_txTcn emits_txMstp : follows.

Lemma emits_select_root t l r : follows emits (select_root t l r).
Proof. revert r. induction l; intros r; simpl; follows_auto. Qed.
#[local] Hint Resolve emits_select_root : follows.
Lemma emits_PPMSM n p d : follows emits (PPMSM_runf n p d).
Proof. revert d. induction n; intros d; simpl; follows_auto. Qed.
Lemma emits_PTSM n p d : follows emits (PTSM_runf n p d).
Proof. revert d. induction n; intros d; simpl; follows_auto. Qed.
Lemma emits_PISM n k d : follows emits (PISM_runf n k d).
Proof. revert d. induction n; intros d; simpl; follows_auto. Qed.
Lemma emits_PSTSM n k d : follows emits (PSTSM_runf n k d).
Proof. revert d. induction n; intros d; simpl; follows_auto. Qed.
Lemma emits_TCSM n k d : follows emits (TCSM_runf n k d).
Proof. revert d. induction n; intros d; simpl; follows_auto. Qed.
Lemma emits_PRTSM n v k d : follows emits (PRTSM_runf n v k d).
Proof. revert d. induction n; intros d; simpl; follows_auto. Qed.
#[local] Hint Resolve emits_PPMSM emits_PTSM emits_PISM emits_PSTSM emits_TCSM emits_PRTSM : follows.
Lemma emits_loop n tv : follows emits (br_state_machines_loop n tv).
Proof. induction n; cbn [br_state_machines_loop]; follows_auto. Qed.
#[local] Hint Resolve emits_loop : follows.
Lemma emits_run : follows emits br_state_machines_run.
Proof. follows_auto. Qed.
Lemma emits_set_tree_addresses l mac c : follows emits (set_tree_addresses l mac c).
Proof. revert c. induction l; intros c; simpl; follows_auto. Qed.
Lemma emits_internal_costs l c b : follows emits (set_internal_costs l c b).
Proof. revert b. induction l; intros b; simpl; follows_auto. Qed.
Lemma emits_create_port p l : follows emits (create_ptps_of_port p l).
Proof. induction l; simpl; follows_auto. Qed.
Lemma emits_create_tree t a l : follows emits (create_ptps_of_tree t a l).
Proof. induction l; simpl; follows_auto. Qed.
#[local] Hint Resolve emits_run emits_set_tree_addresses emits_internal_costs emits_create_port
  emits_create_tree : follows.

Lemma emits_br_begin : follows emits br_state_machines_begin.
Proof. follows_auto. Qed.
Lemma emits_tree_begin t : follows emits (tree_state_machines_begin t).
Proof. follows_auto. Qed.
Lemma emits_prt_begin p : follows emits (prt_state_machines_begin p).
Proof. follows_auto. Qed.
Lemma emits_set_port_enable p u s d : follows emits (MSTP_IN_set_port_enable p u s d).
Proof. follows_auto. Qed.
Lemma emits_delete_port p : follows emits (MSTP_IN_delete_port p).
Proof. follows_auto. Qed.
#[local] Hint Resolve emits_br_begin emits_tree_begin emits_prt_begin emits_set_port_enable
  emits_delete_port : follows.

Lemma emits_delete_bridge : follows emits MSTP_IN_delete_bridge.
Proof. follows_auto. Qed.
Lemma emits_bridge_create stack mac : follows emits (MSTP_IN_bridge_create stack mac).
Proof. follows_auto. Qed.

(** *** The events *)

(** A BPDU that arrives may have the port shut down. *)
Lemma emits_rx_bpdu p b size : (∀ n, P (EvShutdown n)) → follows emits (MSTP_IN_rx_bpdu p b size).
Proof. intros Hshut. follows_auto; apply emits_emit, Hshut. Qed.

Definition receives (i : input) : bool := match i with RxBpdu _ _ _ => true | _ => false end.

(** A port is shut down by nothing but a BPDU it receives. *)
Lemma emits_handle stack i : receives i = false → follows emits (handle stack i).
Proof. destruct i; cbn [handle receives]; [..|discriminate| | | | | | | | | | | |]; intros _; follows_auto. Qed.

(** Every call into the protocol but the reception of a BPDU. *)
Lemma emits_calls :
  (∀ mac, follows emits (MSTP_IN_set_bridge_address mac)) ∧
  (∀ up, follows emits (MSTP_IN_set_bridge_enable up)) ∧
  (∀ p up s d, follows emits (MSTP_IN_set_port_enable p up s d)) ∧
  (∀ p n, follows emits (MSTP_IN_port_create_and_add_tail p n)) ∧
  follows emits MSTP_IN_one_second ∧
  (∀ cfg, follows emits (MSTP_IN_set_cist_bridge_config cfg)) ∧
  (∀ t pri, follows emits (MSTP_IN_set_msti_bridge_config t pri)) ∧
  (∀ p cfg, follows emits (MSTP_IN_set_cist_port_config p cfg)) ∧
  (∀ k cfg, follows emits (MSTP_IN_set_msti_port_config k cfg)) ∧
  (∀ p, follows emits (MSTP_IN_port_mcheck p)) ∧
  (∀ s vid fid, follows emits (MSTP_IN_set_vid2fid s vid fid)) ∧
  (∀ s fid m, follows emits (MSTP_IN_set_fid2mstid s fid m)) ∧
  (∀ m, follows emits (MSTP_IN_create_msti m)) ∧
  (∀ m, follows emits (MSTP_IN_delete_msti m)) ∧
  (∀ rev n, follows emits (MSTP_IN_set_mst_config_id rev n)).
Proof. repeat match goal with |- _ ∧ _ => split end; intros; follows_auto. Qed.
End emits.

#[export] Instance emits_is_preorder P : PreOrder (emits P) := emits_preorder P.

Definition silent : world → world → Prop := emits (λ e, is_shutdown e = false).

Lemma silent_upd_br f : follows silent (upd_br f).
Proof. apply emits_upd_br. Qed.
Lemma silent_upd_port q f : follows silent (upd_port q f).
Proof. apply emits_upd_port. Qed.
Lemma silent_free_port p : follows silent (free_port p).
Proof. apply emits_free_port. Qed.
Lemma silent_delete_bridge : follows silent MSTP_IN_delete_bridge.
Proof. by apply emits_delete_bridge. Qed.
Lemma silent_bridge_create stack mac : follows silent (MSTP_IN_bridge_create stack mac).
Proof. by apply emits_bridge_create. Qed.

(** A port is shut down by nothing but a BPDU it receives. *)
Lemma silent_handle stack i : receives i = false → follows silent (handle stack i).
Proof. intros Hi. by apply emits_handle. Qed.
