(* ===== verification/Cables.v ===== *)
(** The simulation of wasm_api.c keeps its tables in order: every port of a bridge is in
    the table under its own handle, cables join two ports, and a port is up, for the
    simulation and for the protocol, exactly when its cable carries. *)
From S2P Require Import Prelude Types Monad Clib Vectors Outputs Wire Procs RoleSelect PortSM TreeSM.
From S2P Require Import Prtsm Bridge Mgmt Kernel Track Sim Wf Safety Links System Frame Follows Inventory Silent.

(** ** Weakest preconditions *)

Definition nwp {A} (m : N A) (Q : A → sim → Prop) (s : sim) : Prop :=
  match m s with NDone a s' => Q a s' | NFault => False | NOutOfFuel => True end.

Lemma nwp_ret {A} (a : A) (Q : A → sim → Prop) s : Q a s → nwp (mret a) Q s.
Proof. done. Qed.
Lemma nwp_bind {A B} (m : N A) (f : A → N B) Q s :
  nwp m (λ a s', nwp (f a) Q s') s → nwp (m ≫= f) Q s.
Proof. unfold nwp, mbind, N_bind. by destruct (m s). Qed.
Lemma nwp_mono {A} (m : N A) (Q Q' : A → sim → Prop) s :
  nwp m Q s → (∀ a s', Q a s' → Q' a s') → nwp m Q' s.
Proof. unfold nwp. destruct (m s); auto. Qed.
Lemma nwp_read (Q : sim → sim → Prop) s : Q s s → nwp nread Q s.
Proof. done. Qed.
Lemma nwp_upd f (Q : unit → sim → Prop) s : Q tt (f s) → nwp (nupd f) Q s.
Proof. done. Qed.
Lemma nwp_alloc (Q : bool → sim → Prop) s :
  (∀ ok l, Q ok (s <| s_calloc := l |>)) → nwp nalloc Q s.
Proof.
  intros H. unfold nwp, nalloc. destruct (s_calloc s) eqn:Hl; [|apply H].
  specialize (H true (s_calloc s)). rewrite Hl in H. by destruct s; cbn in *; subst.
Qed.
Lemma nwp_get_slot h (Q : port_slot_t → sim → Prop) s :
  in_table h = true → Q (slot s h) s → nwp (get_slot h) Q s.
Proof. unfold nwp, get_slot. by intros ->. Qed.
Lemma nwp_upd_slot h f (Q : unit → sim → Prop) s :
  in_table h = true → Q tt (s <| s_ports ::= <[h := f (slot s h)]> |>) → nwp (upd_slot h f) Q s.
Proof. unfold nwp, upd_slot. by intros ->. Qed.
Lemma nwp_when b (m : N unit) (Q : unit → sim → Prop) s :
  (b = false → Q tt s) → (b = true → nwp m Q s) → nwp (nwhen b m) Q s.
Proof. destruct b; [auto|]. intros H _. by apply H. Qed.
Lemma nwp_for_each {A} (I : sim → Prop) (l : list A) body s :
  (∀ x s, x ∈ l → I s → nwp (body x) (λ _, I) s) → I s → nwp (nfor_each l body) (λ _, I) s.
Proof.
  revert s. induction l as [|x l IH]; intros s Hb Hs; cbn [nfor_each]; [done|].
  apply nwp_bind. eapply nwp_mono; [apply Hb; [by left|done]|]. intros ? s' Hs'.
  apply IH; [|done]. intros y s1 Hy. apply Hb. by right.
Qed.
Lemma nwp_Done {A} (m : N A) Q s a s' : nwp m Q s → m s = NDone a s' → Q a s'.
Proof. unfold nwp. intros H Hd. by rewrite Hd in H. Qed.

(** ** What transmitting leaves alone *)

(** The tables of bridges and ports, all the invariant is about. *)
Definition tables (s : sim) := (s_bridges s, s_ports s).

Lemma tables_enqueue src dst data len s :
  nwp (frame_enqueue src dst data len) (λ _ s', tables s' = tables s) s.
Proof.
  unfold frame_enqueue. apply nwp_bind, nwp_alloc. intros [] l; [|done].
  apply nwp_bind, nwp_upd, nwp_upd. done.
Qed.

Lemma tables_capture port src data len s :
  nwp (capture_record port src data len) (λ _ s', tables s' = tables s) s.
Proof.
  unfold capture_record. apply nwp_bind, nwp_read. destruct (cap_on _); [|done].
  apply nwp_bind, nwp_alloc. by intros [] l.
Qed.

Lemma tables_transmit porth src b size s :
  nwp (transmit porth src b size) (λ _ s', tables s' = tables s) s.
Proof.
  unfold transmit. apply nwp_bind. eapply nwp_mono; [apply tables_capture|].
  intros ? s1 H1. apply nwp_bind, nwp_read.
  destruct (negb (port_handle_ok porth s1)); [done|]. destruct (ps_mute _); [done|].
  destruct (negb _); [done|]. eapply nwp_mono; [apply tables_enqueue|]. intros ? s2 H2.
  by rewrite H2.
Qed.

Lemma tables_perform evs shutdown s :
  Forall (λ e, is_shutdown e = false) evs →
  nwp (nfor_each evs (perform shutdown)) (λ _ s', tables s' = tables s) s.
Proof.
  intros He. apply nwp_for_each; [|done]. rewrite Forall_forall in He.
  intros e s1 Hin H1. specialize (He e Hin). destruct e; try done; cbn [perform].
  eapply nwp_mono; [apply tables_transmit|]. intros ? s2 H2. by rewrite H2.
Qed.

(** ** A call into the protocol code *)

(** [m] in the world of bridge [b]: the tables afterwards have the new world, whatever is
    transmitted. *)
Lemma nwp_call b w {A} (m : M A) (Q : A → sim → Prop) s :
  s_bridges s !! b = Some w → wp True m (λ _ _, True) (lend_to s w) → follows silent m →
  (∀ a w' s', m (lend_to s w) = Done a w' → s_bridges s' = <[b := w']> (s_bridges s) →
     s_ports s' = s_ports s → Q a s') →
  nwp (call b m) Q s.
Proof.
  intros Hb Hm Hsil HQ. unfold nwp, call, call_with. rewrite Hb. unfold wp in Hm.
  destruct (m (lend_to s w)) as [a w'| |] eqn:Hd; [|done|done].
  pose proof (Hsil _ _ _ Hd) as (l & Hl & Hs). cbn in Hl. rewrite Hl.
  change (nwp (nfor_each l (perform nfault) ;; mret a) Q (take_back s w' <| s_bridges ::= <[b := w']> |>)).
  apply nwp_bind. eapply nwp_mono; [by apply tables_perform|].
  intros ? s' [= H1 H2]. apply nwp_ret. by eapply HQ.
Qed.

Lemma nwp_read_prt prt w x (Q : port_t → sim → Prop) s :
  s_bridges s !! prt.1 = Some w → w_ports w !! prt.2 = Some x → Q x s → nwp (read_prt prt) Q s.
Proof. unfold nwp, read_prt. intros ->. cbn. by intros ->. Qed.

(** ** The invariant *)

Section invariant.
Context (stack : list Z) (Hstack : length stack = 64%nat).

Record bridge_ok (b : Z) (w : world) : Prop := {
  bo_handle : 0 <= b < MSTPW_MAX_BRIDGES;
  bo_reachable : reachable stack w;
  bo_index : br_if_index (br_sysdeps (w_br w)) = b;
  bo_enabled : bridgeEnabled (w_br w) = stp_enabled (w_br w);
  bo_up : br_up (br_sysdeps (w_br w)) = stp_enabled (w_br w)
}.

Definition in_use (s : sim) (h : Z) : Prop := is_Some (ps_prt (slot s h)).

(** The slot [h] is that of the port [prt]: [L], [T] are the handles of the ports whose
    carrier has yet to be set, and those whose bridge has yet to be told. *)
Definition slot_ok (L T : Z → Prop) (s : sim) (h : Z) (prt : port_ptr) : Prop :=
  in_table h = true ∧ ps_brh (slot s h) = prt.1 ∧
  ∃ w x, s_bridges s !! prt.1 = Some w ∧ prt.2 ∈ br_ports (w_br w) ∧ w_ports w !! prt.2 = Some x ∧
    if_index (prt_sysdeps x) = h ∧
    (¬ L h → up (prt_sysdeps x) = port_carrier h s) ∧
    (¬ T h → portEnabled x = up (prt_sysdeps x)).

(** A cable has two ends. *)
Definition cable_ok (s : sim) (h : Z) : Prop :=
  let peer := ps_peer (slot s h) in
  peer = -1 ∨ (in_use s peer ∧ ps_peer (slot s peer) = h ∧ peer ≠ h).

Record SI (L T : Z → Prop) (s : sim) : Prop := {
  si_bridge b w : s_bridges s !! b = Some w → bridge_ok b w;
  si_slot h prt : ps_prt (slot s h) = Some prt → slot_ok L T s h prt;
  si_port b w p x : s_bridges s !! b = Some w → p ∈ br_ports (w_br w) → w_ports w !! p = Some x →
    ps_prt (slot s (if_index (prt_sysdeps x))) = Some (b, p);
  si_cable h : in_use s h → cable_ok s h
}.

Definition none (_ : Z) : Prop := False.

Lemma slot_tables s s' h : s_ports s' = s_ports s → slot s' h = slot s h.
Proof. unfold slot. by intros ->. Qed.
Lemma handle_tables s s' h : s_ports s' = s_ports s → port_handle_ok h s' = port_handle_ok h s.
Proof. intros H. unfold port_handle_ok. by rewrite (slot_tables _ _ _ H). Qed.
Lemma carrier_tables s s' h : s_ports s' = s_ports s → port_carrier h s' = port_carrier h s.
Proof.
  intros H. unfold port_carrier. by rewrite !(handle_tables _ _ _ H), !(slot_tables _ _ _ H).
Qed.

Lemma SI_tables L T s s' : s_bridges s' = s_bridges s → s_ports s' = s_ports s → SI L T s → SI L T s'.
Proof.
  intros Hb Hp [H1 H2 H3 H4]. split.
  - intros b w. rewrite Hb. apply H1.
  - intros h prt. unfold slot_ok. rewrite Hb, (slot_tables _ _ _ Hp), (carrier_tables _ _ _ Hp). apply H2.
  - intros b w p x. rewrite Hb, (slot_tables _ _ _ Hp). apply H3.
  - intros h. unfold in_use, cable_ok, in_use. rewrite !(slot_tables _ _ _ Hp). apply H4.
Qed.

Lemma SI_weaken (L T L' T' : Z → Prop) s :
  (∀ h, in_use s h → L h → L' h) → (∀ h, in_use s h → T h → T' h) → SI L T s → SI L' T' s.
Proof.
  intros HL HT [H1 H2 H3 H4]. split; [done| |done..].
  intros h prt Hh. destruct (H2 h prt Hh) as (? & ? & w & x & ? & ? & ? & ? & Hc & Hd).
  split; [done|]. split; [done|]. exists w, x. split_and!; try done.
  - intros Hn. apply Hc. intros Hl. by apply Hn, HL; [exists prt|].
  - intros Hn. apply Hd. intros Hl. by apply Hn, HT; [exists prt|].
Qed.

(** *** Handles *)

Lemma SI_handle L T s h : SI L T s → port_handle_ok h s = true ↔ in_use s h.
Proof.
  intros Hs. unfold port_handle_ok, in_use. rewrite andb_true_iff, bool_decide_eq_true.
  split; [by intros []|]. intros [prt Hp]. split; [|by exists prt]. by apply (si_slot _ _ _ Hs h prt).
Qed.

Lemma SI_minus_one L T s : SI L T s → ¬ in_use s (-1).
Proof. intros Hs [prt Hp]. by destruct (si_slot _ _ _ Hs _ _ Hp). Qed.

Lemma wf_port_lookup w p : wf_world w → p ∈ br_ports (w_br w) → is_Some (w_ports w !! p).
Proof. intros [[_ Hi] _] Hp. destruct (inv_port _ _ _ Hi p Hp) as (x & Hx & _). by exists x. Qed.

Lemma bridge_ok_wf b w : bridge_ok b w → wf_world w.
Proof. intros []. by eapply reachable_wf_world. Qed.

(** Two slots of one port are one. *)
Lemma SI_slot_inj L T s h1 h2 prt :
  SI L T s → ps_prt (slot s h1) = Some prt → ps_prt (slot s h2) = Some prt → h1 = h2.
Proof.
  intros Hs H1 H2. destruct (si_slot _ _ _ Hs _ _ H1) as (_ & _ & w1 & x1 & ? & _ & ? & <- & _).
  destruct (si_slot _ _ _ Hs _ _ H2) as (_ & _ & w2 & x2 & ? & _ & ? & <- & _). by simplify_eq.
Qed.

(** *** A bridge changes

    What is known of the bridge and of its ports but [p] stays; [p] keeps its index. *)
Definition port_changes (p : port_id) (w w' : world) : Prop :=
  br_view (w_br w') = br_view (w_br w) ∧
  (∀ q, q ≠ p → port_view <$> w_ports w' !! q = port_view <$> w_ports w !! q).

Lemma bridge_ok_view b w w' :
  bridge_ok b w → reachable stack w' → br_view (w_br w') = br_view (w_br w) → bridge_ok b w'.
Proof. intros [] Hr [= Ha Hb Hc Hd]. split; congruence. Qed.

Lemma view_lookup w w' p x' : port_view <$> w_ports w' !! p = port_view <$> w_ports w !! p →
  w_ports w' !! p = Some x' → ∃ x, w_ports w !! p = Some x ∧ port_view x = port_view x'.
Proof.
  intros H Hx. rewrite Hx in H. destruct (w_ports w !! p) as [x|]; [|done]. injection H as H1 H2.
  exists x. split; [done|]. unfold port_view. congruence.
Qed.

Lemma SI_port_changes (L T L' T' : Z → Prop) s s' h prt w w' x x' :
  SI L T s → ps_prt (slot s h) = Some prt → s_bridges s !! prt.1 = Some w →
  s_bridges s' = <[prt.1 := w']> (s_bridges s) → s_ports s' = s_ports s →
  reachable stack w' → port_changes prt.2 w w' →
  w_ports w !! prt.2 = Some x → w_ports w' !! prt.2 = Some x' →
  if_index (prt_sysdeps x') = if_index (prt_sysdeps x) →
  (¬ L' h → up (prt_sysdeps x') = port_carrier h s) →
  (¬ T' h → portEnabled x' = up (prt_sysdeps x')) →
  (∀ h', h' ≠ h → (L h' → L' h') ∧ (T h' → T' h')) →
  SI L' T' s'.
Proof.
  intros Hs Hh Hw Hb Hp Hr [Hbr Hq] Hx Hx' Hi HL HT Hrest. pose proof Hs as [H1 H2 H3 H4].
  assert (Hports : br_ports (w_br w') = br_ports (w_br w)) by (by injection Hbr).
  split.
  - intros b v. rewrite Hb. intros [[<- <-]|[_ Hv]]%lookup_insert_Some; [|by apply H1].
    eapply bridge_ok_view; [by apply H1|done|done].
  - intros h1 prt1. rewrite (slot_tables _ _ _ Hp). intros Hh1.
    destruct (H2 h1 prt1 Hh1) as (Ht & Hbrh & v & y & Hv & Hin & Hy & Hyi & Hl & Hd).
    unfold slot_ok. rewrite (slot_tables _ _ _ Hp), (carrier_tables _ _ _ Hp), Hb.
    split; [done|]. split; [done|]. destruct (decide (h1 = h)) as [->|Hne].
    + simplify_eq. exists w', x'. rewrite lookup_insert_eq, Hports. split_and!; done.
    + destruct (Hrest h1 Hne) as [HL1 HT1]. destruct (decide (prt1.1 = prt.1)) as [He|Hne1].
      * rewrite He in *. rewrite Hw in Hv. injection Hv as <-. rewrite lookup_insert_eq.
        assert (Hne2 : prt1.2 ≠ prt.2).
        { intros Heq. apply Hne. eapply SI_slot_inj; [exact Hs|exact Hh1|].
          destruct prt, prt1; cbn in *; by subst. }
        specialize (Hq _ Hne2). rewrite Hy in Hq. destruct (w_ports w' !! prt1.2) as [y'|] eqn:Hy'; [|done].
        injection Hq as Hq1 Hq2. exists w', y'. rewrite Hports, Hq1, Hq2. split_and!; try done; auto.
      * rewrite lookup_insert_ne by done. exists v, y. split_and!; try done; auto.
  - intros b v p y. rewrite Hb, (slot_tables _ _ _ Hp).
    intros [[<- <-]|[_ Hv]]%lookup_insert_Some; [|by apply H3]. rewrite Hports. intros Hin Hy.
    destruct (decide (p = prt.2)) as [->|Hne].
    + simplify_eq. rewrite Hi. by eapply H3.
    + destruct (view_lookup _ _ _ _ (Hq p Hne) Hy) as (y0 & Hy0 & [= Hv0 _]). rewrite <- Hv0.
      by eapply H3.
  - intros h1. unfold in_use, cable_ok, in_use. rewrite !(slot_tables _ _ _ Hp). apply H4.
Qed.

(** What the simulation knows of the ports stays. *)
Lemma SI_same_ports L T s s' b w w' :
  SI L T s → s_bridges s !! b = Some w → s_bridges s' = <[b := w']> (s_bridges s) →
  s_ports s' = s_ports s → bridge_ok b w' → br_ports (w_br w') = br_ports (w_br w) →
  (∀ p, port_view <$> w_ports w' !! p = port_view <$> w_ports w !! p) → SI L T s'.
Proof.
  intros [H1 H2 H3 H4] Hw Hb Hp Hok Hports Hq. split.
  - intros b1 v. rewrite Hb. intros [[<- <-]|[_ Hv]]%lookup_insert_Some; [done|by apply H1].
  - intros h prt. rewrite (slot_tables _ _ _ Hp). intros Hh.
    destruct (H2 h prt Hh) as (Ht & Hbrh & v & y & Hv & Hin & Hy & Hyi & Hl & Hd).
    unfold slot_ok. rewrite (slot_tables _ _ _ Hp), (carrier_tables _ _ _ Hp), Hb.
    split; [done|]. split; [done|]. destruct (decide (prt.1 = b)) as [He|Hne].
    + rewrite He in *. rewrite Hw in Hv. injection Hv as <-. rewrite lookup_insert_eq.
      specialize (Hq prt.2). rewrite Hy in Hq.
      destruct (w_ports w' !! prt.2) as [y'|] eqn:Hy'; [|done]. injection Hq as Hq1 Hq2.
      exists w', y'. rewrite Hports, Hq1, Hq2. by split_and!.
    + rewrite lookup_insert_ne by done. by exists v, y.
  - intros b1 v p y. rewrite Hb, (slot_tables _ _ _ Hp).
    intros [[<- <-]|[_ Hv]]%lookup_insert_Some; [|by apply H3]. rewrite Hports. intros Hin Hy.
    destruct (view_lookup _ _ _ _ (Hq p) Hy) as (y0 & Hy0 & [= Hv0 _]). rewrite <- Hv0. by eapply H3.
  - intros h. unfold in_use, cable_ok, in_use. rewrite !(slot_tables _ _ _ Hp). apply H4.
Qed.

(** An event that leaves alone what the interface layer works with. *)
Lemma SI_same_view L T s s' b w w' :
  SI L T s → s_bridges s !! b = Some w → s_bridges s' = <[b := w']> (s_bridges s) →
  s_ports s' = s_ports s → reachable stack w' → same_view w w' → SI L T s'.
Proof.
  intros Hs Hw Hb Hp Hr [Hbr Hq]. eapply SI_same_ports; [exact Hs|exact Hw|exact Hb|exact Hp| | |exact Hq].
  - eapply bridge_ok_view; [by apply (si_bridge _ _ _ Hs)|done|done].
  - by injection Hbr.
Qed.

(** *** The slots change

    No port comes or goes; the carrier of a port outside of [L'] is what it was. *)
Lemma SI_slots (L L' T : Z → Prop) s s' :
  SI L T s → s_bridges s' = s_bridges s →
  (∀ h, ps_prt (slot s' h) = ps_prt (slot s h) ∧ ps_brh (slot s' h) = ps_brh (slot s h)) →
  (∀ h, in_use s h → ¬ L' h → ¬ L h ∧ port_carrier h s' = port_carrier h s) →
  (∀ h, in_use s' h → cable_ok s' h) → SI L' T s'.
Proof.
  intros [H1 H2 H3 H4] Hb Hp Hc Hcable. split.
  - intros b w. rewrite Hb. apply H1.
  - intros h prt. destruct (Hp h) as [-> Hbrh]. intros Hh.
    destruct (H2 h prt Hh) as (Ht & Hbr & v & y & Hv & Hin & Hy & Hyi & Hl & Hd).
    unfold slot_ok. rewrite Hbrh, Hb. split; [done|]. split; [done|]. exists v, y. split_and!; try done.
    intros HL. destruct (Hc h) as [Hn ->]; [by exists prt|done|]. auto.
  - intros b w p x. rewrite Hb. destruct (Hp (if_index (prt_sysdeps x))) as [-> _]. apply H3.
  - exact Hcable.
Qed.
End invariant.

(** ** Carriers and cables *)

Section cables.
Context (stack : list Z) (Hstack : length stack = 64%nat).
Local Abbreviation SI := (SI stack).

Lemma slot_insert s h v x :
  slot (s <| s_ports ::= <[h := v]> |>) x = if decide (h = x) then v else slot s x.
Proof.
  unfold slot. cbn. destruct (decide (h = x)) as [->|]; [by rewrite lookup_insert_eq|].
  by rewrite lookup_insert_ne.
Qed.

(** A bridge lent to the protocol code, and what an event makes of it. *)
Lemma reachable_lend s w : reachable stack w → reachable stack (lend_to s w).
Proof. intros Hr. eapply reach_env; [exact Hr|]. apply (env_lend w [] (s_clock s) (s_calloc s)). Qed.

Lemma reachable_handle s w i w' :
  reachable stack w → valid_input w i → handle stack i (lend_to s w) = Done tt w' → reachable stack w'.
Proof.
  intros Hr Hv Hh. eapply (reach_step stack i (s_clock s) (s_calloc s) (lend_to s w)); [|by destruct i|exact Hh].
  by apply reachable_lend.
Qed.

Lemma handle_no_fault s w i :
  reachable stack w → valid_input w i → wp True (handle stack i) (λ _ _, True) (lend_to s w).
Proof.
  intros Hr Hv. eapply wp_mono; [apply handle_keeps; [done| |]|done].
  - by eapply reachable_wf_world, reachable_lend.
  - by destruct i.
Qed.

(** What decides the carrier of [x]. *)
Lemma carrier_same s s' x :
  (∀ y, ps_prt (slot s' y) = ps_prt (slot s y) ∧ ps_admin_up (slot s' y) = ps_admin_up (slot s y)) →
  ps_peer (slot s' x) = ps_peer (slot s x) → port_carrier x s' = port_carrier x s.
Proof.
  intros H Hp. unfold port_carrier, port_handle_ok. rewrite Hp.
  destruct (H x) as [_ ->]. by destruct (H (ps_peer (slot s x))) as [-> ->].
Qed.

(** *** sync_carrier *)

Lemma nwp_set_carrier L T h s : SI L T s →
  nwp (set_carrier h) (λ c s',
    SI (λ x, L x ∧ x ≠ h) (λ x, T x ∨ (x = h ∧ c = true)) s' ∧
    s_ports s' = s_ports s ∧ (c = true → in_use s h)) s.
Proof.
  intros Hs. unfold set_carrier. apply nwp_bind, nwp_read.
  destruct (port_handle_ok h s) eqn:Hh; cbn [negb]; cycle 1.
  { apply nwp_ret. split; [|done]. eapply SI_weaken; [| |exact Hs].
    - intros x Hx HL. split; [done|]. intros ->. apply (SI_handle _ _ _ _ _ Hs) in Hx. congruence.
    - intros x Hx HT. by left. }
  apply (SI_handle _ _ _ _ _ Hs) in Hh. pose proof Hh as [prt Hp]. rewrite Hp.
  destruct (si_slot _ _ _ _ Hs h prt Hp) as (Ht & Hbrh & w & x & Hw & Hin & Hx & Hi & Hl & Hd).
  apply nwp_bind. eapply nwp_read_prt; [done..|]. cbv zeta. set (c := negb (Bool.eqb _ _)).
  assert (Hc : c = false → port_carrier h s = up (prt_sysdeps x))
    by (intros Hc; unfold c in Hc; apply negb_false_iff, eqb_prop in Hc; done).
  apply nwp_bind. unfold upd_prt_sysdeps.
  eapply nwp_call; [exact Hw| |apply silent_upd_port|].
  { eapply wp_upd_port; [exact Hx|done]. }
  intros [] w' s' (y & Hy & ->)%upd_port_Done Hb Hpt.
  cbn in Hy. rewrite Hx in Hy. injection Hy as <-.
  assert (Hs' : SI (λ x, L x ∧ x ≠ h) (λ x, T x ∨ (x = h ∧ c = true)) s').
  { eapply SI_port_changes; [exact Hs|exact Hp|exact Hw|exact Hb|exact Hpt|..].
    - eapply reach_env; [apply (reachable_lend s w); by eapply bo_reachable, (si_bridge _ _ _ _ Hs)|].
      by eapply env_port.
    - split; [done|]. intros q Hq. cbn. by rewrite lookup_insert_ne.
    - exact Hx.
    - cbn. apply lookup_insert_eq.
    - done.
    - intros _. done.
    - cbn. intros Hn. assert (Hcf : c = false) by (destruct c; [|done]; exfalso; auto).
      rewrite (Hc Hcf). apply Hd. auto.
    - intros z Hz. by split; [|left]. }
  apply nwp_bind, nwp_when; intros _; [|apply nwp_upd]; apply nwp_ret; (split; [|done]);
    [exact Hs'|by apply (SI_tables _ _ _ s')].
Qed.

Lemma nwp_notify L T h c s : SI L T s → (c = true → in_use s h) →
  nwp (notify_carrier h c) (λ _ s',
    SI L (λ x, T x ∧ ¬ (x = h ∧ c = true)) s' ∧ s_ports s' = s_ports s) s.
Proof.
  intros Hs Hc. unfold notify_carrier. destruct c; cbn [negb]; cycle 1.
  { apply nwp_ret. split; [|done]. eapply SI_weaken; [done| |exact Hs]. intros x _ HT. by split; [|intros []]. }
  destruct (Hc eq_refl) as [prt Hp].
  destruct (si_slot _ _ _ _ Hs h prt Hp) as (Ht & Hbrh & w & x & Hw & Hin & Hx & Hi & Hl & Hd).
  apply nwp_bind, nwp_get_slot; [done|]. rewrite Hp.
  apply nwp_bind. eapply nwp_read_prt; [done..|]. cbv zeta.
  set (i := SetPortEnable prt.2 (up (prt_sysdeps x)) (speed (prt_sysdeps x)) (duplex (prt_sysdeps x))).
  assert (Hr : reachable stack w) by (by eapply bo_reachable, (si_bridge _ _ _ _ Hs)).
  eapply (nwp_call _ _ (handle stack i)); [exact Hw|by apply handle_no_fault|by apply silent_handle|].
  intros [] w' s' Hh Hb Hpt.
  assert (Hr' : reachable stack w') by (by eapply (reachable_handle s w i)).
  destruct (set_port_enable_view _ _ _ _ _ _ Hh) as (Hv & Hq & Hself).
  destruct (Hself x Hx) as (x' & Hx' & [= Hsys He]). split; [|done].
  eapply SI_port_changes; [exact Hs|exact Hp|exact Hw|exact Hb|exact Hpt|exact Hr'|by split|exact Hx|
    exact Hx'|by rewrite Hsys|..].
  - intros HL. rewrite Hsys. by apply Hl.
  - intros _. by rewrite Hsys.
  - intros z Hz. split; [done|]. intros HT. by split; [|intros []].
Qed.

Lemma in_use_tables s s' h : s_ports s' = s_ports s → in_use s h → in_use s' h.
Proof. unfold in_use. intros H. by rewrite (slot_tables _ _ _ H). Qed.

Lemma nwp_sync L a b s : SI L none s →
  nwp (sync_carrier a b) (λ _ s',
    SI (λ x, L x ∧ x ≠ a ∧ x ≠ b) none s' ∧ s_ports s' = s_ports s) s.
Proof.
  intros Hs. unfold sync_carrier.
  apply nwp_bind. eapply nwp_mono; [by apply nwp_set_carrier|]. intros ca s1 (Hs1 & Hp1 & Ha).
  apply nwp_bind. eapply nwp_mono; [by apply nwp_set_carrier|]. intros cb s2 (Hs2 & Hp2 & Hb).
  assert (Ha2 : ca = true → in_use s2 a) by (intros; eapply in_use_tables; [etrans; [exact Hp2|exact Hp1]|auto]).
  apply nwp_bind. eapply nwp_mono; [by apply nwp_notify|]. intros [] s3 (Hs3 & Hp3).
  assert (Hb3 : cb = true → in_use s3 b) by (intros; eapply in_use_tables; [etrans; [exact Hp3|exact Hp2]|auto]).
  eapply nwp_mono; [by apply nwp_notify|]. intros [] s4 (Hs4 & Hp4). split; [|congruence].
  eapply SI_weaken; [| |exact Hs4]; unfold none; cbn; tauto.
Qed.

(** *** Cables *)

Lemma slots_unplug h peer s s' :
  (∀ x, slot s' x = if decide (x = h ∨ (x = peer ∧ port_handle_ok peer s = true)) then pull (slot s x) else slot s x) →
  ∀ x, ps_prt (slot s' x) = ps_prt (slot s x) ∧ ps_brh (slot s' x) = ps_brh (slot s x) ∧
       ps_admin_up (slot s' x) = ps_admin_up (slot s x).
Proof. intros H x. rewrite H. by destruct (decide _). Qed.

(** The slots of [s'] are those of [s] up to [peer] and [mute]; a cable of [s'] is one of
    [s]. *)
Definition fewer_cables (s s' : sim) : Prop :=
  s_bridges s' = s_bridges s ∧
  ∀ x, ps_prt (slot s' x) = ps_prt (slot s x) ∧ ps_brh (slot s' x) = ps_brh (slot s x) ∧
       ps_admin_up (slot s' x) = ps_admin_up (slot s x) ∧
       (ps_peer (slot s' x) = ps_peer (slot s x) ∨ ps_peer (slot s' x) = -1).

Lemma nwp_unplug L T h s : SI L T s → in_use s h →
  nwp (unplug h) (λ peer s', SI (λ x, L x ∨ x = h ∨ x = peer) T s' ∧
    fewer_cables s s' ∧ ps_peer (slot s' h) = -1) s.
Proof.
  intros Hs Hh. pose proof Hh as [prt Hp]. destruct (si_slot _ _ _ _ Hs h prt Hp) as (Ht & _).
  unfold unplug. apply nwp_bind, nwp_get_slot; [done|]. cbv zeta. set (peer := ps_peer (slot s h)).
  apply nwp_bind, nwp_upd_slot; [done|]. set (s1 := s <| s_ports ::= _ |>).
  apply nwp_bind, nwp_read.
  assert (Hok : port_handle_ok peer s1 = port_handle_ok peer s).
  { unfold port_handle_ok, s1. rewrite slot_insert. by destruct (decide _) as [<-|]. }
  assert (Hfin : ∀ s', s_bridges s' = s_bridges s →
    (∀ x, slot s' x = if decide (x = h ∨ (x = peer ∧ port_handle_ok peer s = true)) then pull (slot s x) else slot s x) →
    SI (λ x, L x ∨ x = h ∨ x = peer) T s' ∧ fewer_cables s s' ∧ ps_peer (slot s' h) = -1).
  { intros s' Hb Hsl. pose proof (slots_unplug _ _ _ _ Hsl) as Hkeep.
    assert (Hh' : ps_peer (slot s' h) = -1) by (rewrite Hsl, decide_True by (by left); done).
    assert (Hpeer : ∀ x, ps_peer (slot s' x) = ps_peer (slot s x) ∨ ps_peer (slot s' x) = -1).
    { intros x. rewrite Hsl. destruct (decide _); [by right|by left]. }
    split; [|split; [split; [done|]|done]]; [|intros x; destruct (Hkeep x) as (? & ? & ?); by split_and!].
    eapply SI_slots; [exact Hs|done| | |].
    - intros x. by destruct (Hkeep x) as (? & ? & _).
    - intros x Hx HL. split; [tauto|]. apply carrier_same; [intros y; by destruct (Hkeep y) as (? & _ & ?)|].
      rewrite Hsl, decide_False; [done|]. intros [?|[? _]]; tauto.
    - intros x Hx. unfold in_use in Hx. rewrite (proj1 (Hkeep x)) in Hx. unfold cable_ok.
      rewrite (Hsl x). destruct (decide _) as [|Hd]; [by left|]. destruct (si_cable _ _ _ _ Hs x Hx) as [|(Hu & Hback & Hne)]; [by left|].
      right. set (y := ps_peer (slot s x)) in *. split_and!; [|rewrite Hsl, decide_False; [done|]|done].
      { unfold in_use. rewrite (proj1 (Hkeep y)). done. }
      intros [Hy|[Hy Hyok]].
      + apply Hd. right. assert (Hpx : peer = x) by (unfold peer; rewrite <- Hy; exact Hback).
        split; [done|]. rewrite Hpx. by apply (SI_handle _ _ _ _ _ Hs).
      + destruct (si_cable _ _ _ _ Hs h Hh) as [Hm|(_ & Hhb & _)].
        * fold peer in Hm. rewrite Hm in Hyok. apply (SI_handle _ _ _ _ _ Hs) in Hyok.
          by apply (SI_minus_one _ _ _ _ Hs) in Hyok.
        * apply Hd. left. fold peer in Hhb. rewrite <- Hback, Hy. done. }
  rewrite Hok. apply nwp_bind, nwp_when; intros Hpo.
  - apply nwp_ret, Hfin; [done|]. intros x. unfold s1. rewrite slot_insert, Hpo.
    destruct (decide (h = x)) as [->|]; [by rewrite decide_True by (by left)|].
    rewrite decide_False; [done|]. by intros [?|[_ ?]].
  - apply nwp_upd_slot.
    { apply (SI_handle _ _ _ _ _ Hs) in Hpo as [q Hq]. by destruct (si_slot _ _ _ _ Hs _ _ Hq). }
    apply nwp_ret, Hfin; [done|]. intros x. rewrite slot_insert, Hpo.
    destruct (decide (peer = x)) as [->|Hnp].
    { rewrite decide_True by (by right). unfold s1. rewrite slot_insert. by destruct (decide _) as [<-|]. }
    unfold s1. rewrite slot_insert. destruct (decide (h = x)) as [->|]; [by rewrite decide_True by (by left)|].
    rewrite decide_False; [done|]. by intros [?|[? _]].
Qed.
End cables.
