(* ===== verification/Moves.v ===== *)
(** What the calls of the simulation do to one part of its state: [moves R m] says that
    [m], when it returns, leads from a state to one that is related to it. *)
From S2P Require Import Prelude Types Monad Clib Vectors Outputs Wire Bridge Mgmt Kernel Track Sim Wf.

Definition moves (R : relation sim) {A} (m : N A) : Prop := ∀ s a s', m s = NDone a s' → R s s'.

Create HintDb moves.

Section moves.
Context {R : relation sim} `{!PreOrder R}.

Lemma moves_ret {A} (a : A) : moves R (mret a).
Proof. by intros s b s' [= _ <-]. Qed.
Lemma moves_bind {A B} (m : N A) (f : A → N B) : moves R m → (∀ a, moves R (f a)) → moves R (m ≫= f).
Proof.
  intros Hm Hf s b s'. unfold mbind, N_bind. destruct (m s) as [a s1| |] eqn:H1; [|done|done].
  intros H2. etrans; [by eapply Hm|by eapply Hf].
Qed.
Lemma moves_for_each {A} (l : list A) body : (∀ x, moves R (body x)) → moves R (nfor_each l body).
Proof. intros Hb. induction l; [apply moves_ret|by apply moves_bind]. Qed.
Lemma moves_when b (m : N unit) : moves R m → moves R (nwhen b m).
Proof. destruct b; [done|]. intros _. apply moves_ret. Qed.
Lemma moves_read : moves R nread.
Proof. by intros s a s' [= _ <-]. Qed.
Lemma moves_fault {A} : moves R (@nfault A).
Proof. by intros s a s'. Qed.
Lemma moves_out_of_fuel {A} : moves R (@n_out_of_fuel A).
Proof. by intros s a s'. Qed.
Lemma moves_get_slot h : moves R (get_slot h).
Proof. intros s a s'. unfold get_slot. destruct (in_table h); [|done]. by intros [= _ <-]. Qed.
Lemma moves_read_prt prt : moves R (read_prt prt).
Proof. intros s a s'. unfold read_prt. destruct (_ ≫= _); [|done]. by intros [= _ <-]. Qed.
Lemma moves_upd f : (∀ s, R s (f s)) → moves R (nupd f).
Proof. intros Hf s a s' [= _ <-]. apply Hf. Qed.
Lemma moves_alloc : (∀ s l, R s (s <| s_calloc := l |>)) → moves R nalloc.
Proof. intros H s a s'. unfold nalloc. destruct (s_calloc s); intros [= _ <-]; [done|apply H]. Qed.
Lemma moves_upd_slot h f : (∀ s l, R s (s <| s_ports := l |>)) → moves R (upd_slot h f).
Proof. intros H s a s'. unfold upd_slot. destruct (in_table h); [|done]. intros [= _ <-]. apply (H s). Qed.

(** A call into the protocol code, whose actions are carried out. *)
Lemma moves_call shutdown b {A} (m : M A) :
  (∀ s w w', s_bridges s !! b = Some w → R s (take_back s w' <| s_bridges ::= <[b := w']> |>)) →
  (∀ e, moves R (perform shutdown e)) → moves R (call_with shutdown b m).
Proof.
  intros Hb He s a s'. unfold call_with. destruct (s_bridges s !! b) as [w|] eqn:Hw; [|done].
  destruct (m _) as [a' w'| |]; [|done|done]. intros H. etrans; [by eapply (Hb s w w')|].
  assert (Hp : moves R (nfor_each (w_out w') (perform shutdown) ;; mret a')).
  { apply moves_bind; [by apply moves_for_each|intros; apply moves_ret]. }
  by eapply Hp.
Qed.
End moves.
#[export] Hint Resolve moves_ret moves_read moves_fault moves_out_of_fuel moves_get_slot moves_read_prt : moves.

Ltac moves_step :=
  lazymatch goal with
  | |- moves _ (let _ := _ in _) => cbv zeta
  | |- moves _ (_ ≫= _) => apply moves_bind; [|intros ?]
  | |- moves _ (nfor_each _ _) => apply moves_for_each; intros ?
  | |- moves _ (nwhen _ _) => apply moves_when
  | _ =>
    first
      [ solve [eauto with moves typeclass_instances]
      | lazymatch goal with
        | |- moves _ (match ?b with _ => _ end) => destruct b
        | |- moves _ ?m => let h := head_of m in unfold h
        end ]
  end.
Ltac moves_auto := repeat moves_step.
