(* ===== verification/Simulation.v ===== *)
(** Every call of the simulation's API keeps its tables in order, whatever the caller
    asks for: no pointer is invalid, no index out of its table. *)
From S2P Require Import Prelude Types Monad Clib Vectors Outputs Wire Procs RoleSelect PortSM TreeSM.
From S2P Require Import Prtsm Bridge Mgmt Kernel Track Sim Wf Safety Links System Frame Follows Inventory.
From S2P Require Import Silent Cables Moves.

(** ** A BPDU can be read where there are octets enough

    [long n g P]: given at least [n] octets, of any value, the reader takes [n] of them
    and returns a value with the property [P]. *)
Definition long {A} (n : nat) (g : reader A) (P : A → Prop) : Prop :=
  ∀ l, (n <= length l)%nat → ∃ a l', g l = Some (a, l') ∧ length l = (n + length l')%nat ∧ P a.

Lemma long_ret {A} (a : A) (P : A → Prop) : P a → long 0 (mret a) P.
Proof. intros Ha l _. by exists a, l. Qed.
Lemma long_bind {A B} n n1 n2 (g : reader A) (f : A → reader B) P Q :
  long n1 g P → n = (n1 + n2)%nat → (∀ a, P a → long n2 (f a) Q) → long n (g ≫= f) Q.
Proof.
  intros Hg -> Hf l Hn. destruct (Hg l) as (a & l1 & H1 & Hl1 & Ha); [lia|].
  destruct (Hf a Ha l1) as (b & l2 & H2 & Hl2 & Hb); [lia|].
  exists b, l2. rewrite (reader_bind_Some _ _ _ _ _ H1). split; [done|]. split; [lia|done].
Qed.
Lemma long_octets n : long n (get_octets n) (λ _, True).
Proof.
  intros l Hn. unfold get_octets. destruct (Nat.leb_spec n (length l)); [|lia].
  exists (take n l), (drop n l). split; [done|]. rewrite length_drop. split; [lia|done].
Qed.
Lemma long_be n : long n (get_be n) (λ _, True).
Proof. eapply long_bind; [apply long_octets|by rewrite Nat.add_0_r|]. intros l _. by apply long_ret. Qed.

Ltac long_member g := eapply long_bind; [exact g|reflexivity|intros ? _].
Lemma long_bridge_id : long 8 (get (A := bridge_identifier_t)) (λ _, True).
Proof. long_member (long_be 2). long_member (long_octets ETH_ALEN). by apply long_ret. Qed.
Lemma long_config_id : long 51 (get (A := mst_configuration_identifier_t)) (λ _, True).
Proof.
  long_member (long_be 1). long_member (long_octets CONFIGURATION_NAME_LEN). long_member (long_be 2).
  long_member (long_octets CONFIGURATION_DIGEST_LEN). by apply long_ret.
Qed.
Lemma long_msti : long 16 (get (A := msti_configuration_message_t)) (λ _, True).
Proof.
  long_member (long_be 1). long_member long_bridge_id. long_member (long_be 4).
  do 3 long_member (long_be 1). by apply long_ret.
Qed.
Lemma long_array {A} (g : reader A) n k : long n g (λ _, True) →
  long (k * n) (get_array g k) (λ l, length l = k).
Proof.
  intros Hg. induction k as [|k IH]; [by apply long_ret|]. cbn [get_array Nat.mul].
  eapply long_bind; [exact Hg|reflexivity|intros a _].
  eapply long_bind; [exact IH|by rewrite Nat.add_0_r|]. intros l Hl. apply long_ret. cbn. by rewrite Hl.
Qed.
Lemma long_time : long 2 get_time (λ _, True).
Proof. do 2 long_member (long_be 1). by apply long_ret. Qed.

Lemma long_eq {A} n n' (g : reader A) P : long n g P → n = n' → long n' g P.
Proof. by intros H <-. Qed.

Lemma long_bpdu : long (Z.to_nat sizeof_bpdu) (get (A := bpdu_t)) (λ b, length (mstConfiguration b) = 64%nat).
Proof.
  change (get (A := bpdu_t)) with get_bpdu. unfold get_bpdu. eapply long_eq.
  - long_member (long_be 2). do 3 long_member (long_be 1). long_member long_bridge_id.
    long_member (long_be 4). long_member long_bridge_id. long_member (long_be 2).
    do 4 long_member long_time. long_member (long_be 1). long_member (long_be 2).
    long_member long_config_id. long_member (long_be 4). long_member long_bridge_id.
    long_member (long_be 1).
    eapply long_bind; [exact (long_array _ 16 (Z.to_nat MAX_STANDARD_MSTIS) long_msti)|reflexivity|].
    intros l Hl. by apply long_ret.
  - vm_compute. reflexivity.
Qed.

(** ** Events *)

Section simulation.
Context (stack : list Z) (Hstack : length stack = 64%nat).
Context (behind : frame_t → list Z) (Hbehind : ∀ f, (Z.to_nat sizeof_bpdu <= length (behind f))%nat).
Local Abbreviation SI := (SI stack).
Local Abbreviation ok := (SI none none).

Lemma bridge_reachable L T s b w : SI L T s → s_bridges s !! b = Some w → reachable stack w.
Proof. intros Hs Hw. by eapply bo_reachable, (si_bridge _ _ _ _ Hs). Qed.

Lemma bridge_wf L T s b w : SI L T s → s_bridges s !! b = Some w → wf_world w.
Proof. intros Hs Hw. by eapply reachable_wf_world, (bridge_reachable _ _ _ _ _ Hs). Qed.

(** [m] is the event [i], with a result. *)
Definition does (i : input) {A} (m : M A) : Prop :=
  ∀ w, handle stack i w = match m w with Done _ w' => Done tt w' | Fault => Fault | OutOfFuel => OutOfFuel end.

Lemma does_ignore {A} (m : M A) w :
  ignore m w = match m w with Done _ w' => Done tt w' | Fault => Fault | OutOfFuel => OutOfFuel end.
Proof. unfold ignore, mbind, M_bind. by destruct (m w). Qed.
Lemma does_self i : does i (handle stack i).
Proof. intros w. destruct (handle stack i w) as [[] ?| |]; done. Qed.

Lemma does_Done i {A} (m : M A) w a w' : does i m → m w = Done a w' → handle stack i w = Done tt w'.
Proof. intros H Hm. by rewrite (H w), Hm. Qed.

(** The call of an event on a bridge in order. *)
Lemma nwp_input L T b w i {A} (m : M A) (Q : A → sim → Prop) s :
  SI L T s → s_bridges s !! b = Some w → does i m → valid_input w i → receives i = false →
  (∀ a w' s', m (lend_to s w) = Done a w' → reachable stack w' →
     s_bridges s' = <[b := w']> (s_bridges s) → s_ports s' = s_ports s → Q a s') →
  nwp (call b m) Q s.
Proof.
  intros Hs Hw Hi Hv Hr HQ. pose proof (bridge_reachable _ _ _ _ _ Hs Hw) as Hre.
  eapply nwp_call; [exact Hw| | |].
  - pose proof (handle_no_fault stack Hstack s w i Hre Hv) as Hf. unfold wp in *. rewrite (Hi _) in Hf.
    by destruct (m (lend_to s w)).
  - intros v a v' Hm. by eapply silent_handle; [|eapply does_Done].
  - intros a w' s' Hm Hb Hp. eapply HQ; [exact Hm| |exact Hb|exact Hp].
    eapply reachable_handle; [exact Hre|exact Hv|by eapply does_Done].
Qed.

Lemma nwp_event L T b w i {A} (m : M A) s :
  SI L T s → s_bridges s !! b = Some w → does i m → valid_input w i → receives i = false →
  follows same_view m → nwp (call b m) (λ _ s', SI L T s' ∧ s_ports s' = s_ports s) s.
Proof.
  intros Hs Hw Hi Hv Hr Hf. eapply nwp_input; [done..|]. intros a w' s' Hm Hre Hb Hp. split; [|done].
  eapply SI_same_view; [exact Hs|exact Hw|exact Hb|exact Hp|exact Hre|].
  apply Hf in Hm as [H1 H2]. by split.
Qed.

(** A call that only reads. *)
Lemma nwp_query L T b w {A} (m : M A) (P : A → Prop) s :
  SI L T s → s_bridges s !! b = Some w → follows eq m → wp True m (λ a _, P a) (lend_to s w) →
  nwp (call b m) (λ a s', P a ∧ SI L T s' ∧ s_ports s' = s_ports s ∧ 
    s_bridges s' = <[b := lend_to s w]> (s_bridges s)) s.
Proof.
  intros Hs Hw Hf Hm. eapply nwp_call; [exact Hw|eapply wp_mono; [exact Hm|done]| |].
  { intros v a v' Hv. apply Hf in Hv as <-. reflexivity. }
  intros a w' s' Hd Hb Hp. split; [exact (wp_Done _ _ _ _ _ _ Hm Hd)|]. apply Hf in Hd as <-. split; [|by split].
  eapply SI_same_view; [exact Hs|exact Hw|exact Hb|exact Hp| |by split].
  by eapply reachable_lend, bridge_reachable.
Qed.

Lemma nwp_with_bridge L T brh (m : N Z) (Q : Z → sim → Prop) s :
  SI L T s → Q (-1) s → (∀ w, s_bridges s !! brh = Some w → nwp m Q s) → nwp (on_bridge brh m) Q s.
Proof.
  intros Hs Hn Hm. unfold on_bridge. apply nwp_bind, nwp_read.
  destruct (br_handle_ok brh s) eqn:Hb; [|done]. cbn [negb]. unfold br_handle_ok in Hb.
  apply andb_true_iff in Hb as [_ [w Hw]%bool_decide_eq_true]. by apply (Hm w).
Qed.

(** What is known of a port in the table. *)
Lemma nwp_with_port L T porth (m : port_ptr → N Z) (Q : Z → sim → Prop) s :
  SI L T s → Q (-1) s →
  (∀ prt w x, ps_prt (slot s porth) = Some prt → in_table porth = true → s_bridges s !! prt.1 = Some w →
     prt.2 ∈ br_ports (w_br w) → w_ports w !! prt.2 = Some x → nwp (m prt) Q s) →
  nwp (on_port porth m) Q s.
Proof.
  intros Hs Hn Hm. unfold on_port. apply nwp_bind, nwp_read.
  destruct (port_handle_ok porth s) eqn:Hh; [|done]. cbn [negb].
  apply (SI_handle _ _ _ _ _ Hs) in Hh as [prt Hp]. rewrite Hp.
  destruct (si_slot _ _ _ _ Hs porth prt Hp) as (? & _ & w & x & ? & ? & ? & _). by eapply Hm.
Qed.

(** ** Configuration *)

Lemma view_inputs i : match i with
  | OneSecond | RxBpdu _ _ _ | SetCistBridgeConfig _ | SetMstiBridgeConfig _ _ | SetCistPortConfig _ _
  | SetMstiPortConfig _ _ | SetVid2Fid _ _ | SetFid2Mstid _ _ | CreateMsti _ | DeleteMsti _
  | SetMstConfigId _ _ => follows same_view (handle stack i)
  | _ => True
  end.
Proof. destruct i; cbn [handle]; try done; follows_auto. Qed.

(** A request to a bridge that is one event. *)
Lemma api_bridge_request brh i {A} (m : M A) (f : A → Z) s :
  ok s → does i m → (∀ w, valid_input w i) → receives i = false → follows same_view m →
  nwp (on_bridge brh (r ← call brh m; mret (f r))) (λ _ s', ok s') s.
Proof.
  intros Hs Hi Hv Hr Hf. eapply nwp_with_bridge; [exact Hs|exact Hs|]. intros w Hw.
  apply nwp_bind. eapply nwp_mono; [by eapply nwp_event|]. by intros a s' [Hs' _].
Qed.

(** As above, when the result of the event is returned. *)
Lemma api_bridge_query brh i (m : M Z) s :
  ok s → does i m → (∀ w, valid_input w i) → receives i = false → follows same_view m →
  nwp (on_bridge brh (call brh m)) (λ _ s', ok s') s.
Proof.
  intros Hs Hi Hv Hr Hf. eapply nwp_with_bridge; [exact Hs|exact Hs|]. intros w Hw.
  eapply nwp_mono; [by eapply nwp_event|]. by intros a s' [Hs' _].
Qed.

Lemma api_port_config porth cfg s : ok s → nwp (set_port_config porth cfg) (λ _ s', ok s') s.
Proof.
  intros Hs. eapply nwp_with_port; [exact Hs|exact Hs|]. intros prt w x Hp Ht Hw Hin Hx.
  eapply nwp_mono; [eapply (nwp_event _ _ _ _ (SetCistPortConfig prt.2 cfg)); [done..| |done|done|]|
    by intros a s' [Hs' _]]; [intros v; apply does_ignore|follows_auto].
Qed.

Lemma u16_nonneg v : 0 <= u16 v.
Proof. unfold u16. apply Z.mod_pos_bound. lia. Qed.

Ltac request := eapply api_bridge_request;
  [eassumption|intros v; (apply does_self || apply does_ignore)|..|follows_auto].

Lemma api_set_mst_config_id brh rev name s : ok s →
  nwp (mstpw_set_mst_config_id brh rev name) (λ _ s', ok s') s.
Proof.
  intros Hs. apply (api_bridge_request brh (SetMstConfigId (u16 rev) (chars (default EmptyString name)))
    (MSTP_IN_set_mst_config_id _ _) (λ _, 0)); [exact Hs|apply does_self|done|done|follows_auto].
Qed.

Lemma api_cist_bridge_config brh cfg s : ok s →
  nwp (on_bridge brh (call brh (MSTP_IN_set_cist_bridge_config cfg))) (λ _ s', ok s') s.
Proof.
  intros Hs. apply (api_bridge_query brh (SetCistBridgeConfig cfg)); [exact Hs| |done|done|follows_auto].
  intros w. apply does_ignore.
Qed.

Lemma api_create_msti brh m s : ok s → nwp (mstpw_create_msti brh m) (λ _ s', ok s') s.
Proof.
  intros Hs. apply (api_bridge_request brh (CreateMsti (u16 m)) _ code); [exact Hs| |done|done|follows_auto].
  intros w. apply does_ignore.
Qed.
Lemma api_delete_msti brh m s : ok s → nwp (mstpw_delete_msti brh m) (λ _ s', ok s') s.
Proof.
  intros Hs. apply (api_bridge_request brh (DeleteMsti (u16 m)) _ code); [exact Hs| |done|done|follows_auto].
  intros w. apply does_ignore.
Qed.
Lemma api_vid2fid brh vid fid s : ok s → nwp (mstpw_set_vid2fid stack brh vid fid) (λ _ s', ok s') s.
Proof.
  intros Hs. apply (api_bridge_request brh (SetVid2Fid (u16 vid) (u16 fid)) _ code);
    [exact Hs| |intros; apply u16_nonneg|done|follows_auto]. intros w. apply does_ignore.
Qed.
Lemma api_fid2mstid brh fid m s : ok s → nwp (mstpw_set_fid2mstid stack brh fid m) (λ _ s', ok s') s.
Proof.
  intros Hs. apply (api_bridge_request brh (SetFid2Mstid (u16 fid) (u16 m)) _ code);
    [exact Hs| |intros; apply u16_nonneg|done|follows_auto]. intros w. apply does_ignore.
Qed.

(** *** The tree or the per-tree port of an MSTID *)

Lemma head_filter_Some {A} (P : A → Prop) `{!∀ x, Decision (P x)} (l : list A) a :
  head (filter P l) = Some a → a ∈ l ∧ P a.
Proof.
  intros Ha. assert (Hin : a ∈ filter P l) by (destruct (filter P l); [done|]; injection Ha as ->; by left).
  apply list_elem_of_filter in Hin as [? ?]. done.
Qed.

Lemma wp_find_tree m w : wp True (find_tree m) (λ o _, ∀ t, o = Some t → t ∈ br_trees (w_br w)) w.
Proof.
  unfold find_tree, trees_of_bridge. apply wp_bind, wp_bind, wp_get_br, wp_ret, wp_ret.
  intros t [Ht _]%head_filter_Some. exact Ht.
Qed.

Lemma wp_find_ptp p m w x : wf_world w → p ∈ br_ports (w_br w) → w_ports w !! p = Some x →
  wp True (find_ptp p m) (λ o _, ∀ k, o = Some k → valid_ptp (w_br w) k) w.
Proof.
  intros [[Hb Hi] _] Hp Hx. unfold find_ptp, ptps_of_port.
  apply wp_bind, wp_bind. eapply wp_get_port; [exact Hx|]. apply wp_ret, wp_ret.
  intros k [Hk _]%head_filter_Some. destruct (inv_port _ _ _ Hi p Hp) as (y & Hy & [Htr _ _]).
  simplify_eq. apply list_elem_of_fmap in Hk as (t & -> & Ht). rewrite Htr in Ht. by split.
Qed.

Lemma reads_find_ptp p m : follows eq (find_ptp p m).
Proof. unfold find_ptp. follows_auto. Qed.

Lemma api_bridge_priority brh m pri s : ok s →
  nwp (mstpw_set_bridge_priority brh m pri) (λ _ s', ok s') s.
Proof.
  intros Hs. eapply nwp_with_bridge; [exact Hs|exact Hs|]. intros w Hw. apply nwp_bind.
  eapply nwp_mono; [eapply (nwp_query _ _ _ _ (find_tree m) (λ o, ∀ t, o = Some t → t ∈ br_trees (w_br w)));
    [exact Hs|exact Hw|unfold find_tree; follows_auto|exact (wp_find_tree m (lend_to s w))]|].
  intros [t|] s1 (Ht & Hs1 & _ & Hb1); [|exact Hs1].
  eapply nwp_mono; [eapply (nwp_event _ _ _ (lend_to s w) (SetMstiBridgeConfig t (u8 pri)));
    [exact Hs1|rewrite Hb1; apply lookup_insert_eq|intros v; apply does_ignore|by apply Ht|done|follows_auto]|].
  by intros a s2 [Hs2 _].
Qed.

Lemma api_port_path_cost h m cost s : ok s →
  nwp (mstpw_set_port_path_cost h m cost) (λ _ s', ok s') s.
Proof.
  intros Hs. unfold mstpw_set_port_path_cost. destruct (m =? 0) eqn:Hm.
  { eapply nwp_mono; [|by intros a s' H; exact H]. exact (api_port_config h _ s Hs). }
  eapply nwp_with_port; [exact Hs|exact Hs|]. intros prt w x Hp Ht Hw Hin Hx. apply nwp_bind.
  pose proof (bridge_wf _ _ _ _ _ Hs Hw) as Hwf.
  eapply nwp_mono; [eapply (nwp_query _ _ _ _ (find_ptp prt.2 m) (λ o, ∀ k, o = Some k → valid_ptp (w_br w) k));
    [exact Hs|exact Hw|apply reads_find_ptp|]|].
  { eapply (wp_find_ptp _ _ (lend_to s w)); [|exact Hin|exact Hx].
    eapply reachable_wf_world; [done|]. by eapply reachable_lend, bridge_reachable. }
  intros [k|] s1 (Hk & Hs1 & _ & Hb1); [|exact Hs1].
  eapply nwp_mono; [eapply (nwp_event _ _ _ (lend_to s w) (SetMstiPortConfig k _));
    [exact Hs1|rewrite Hb1; apply lookup_insert_eq|intros v; apply does_ignore|by apply Hk|done|follows_auto]|].
  by intros a s2 [Hs2 _].
Qed.

Lemma api_of_ptp h m f s : ok s → nwp (of_ptp h m f) (λ _ s', ok s') s.
Proof.
  intros Hs. eapply nwp_with_port; [exact Hs|exact Hs|]. intros prt w x Hp Ht Hw Hin Hx.
  pose proof (reachable_lend stack s w (bridge_reachable _ _ _ _ _ Hs Hw)) as Hr.
  pose proof (reachable_wf_world _ _ Hstack Hr) as Hwf.
  eapply nwp_mono; [eapply (nwp_query _ _ _ _ _ (λ _, True)); [exact Hs|exact Hw|follows_auto; apply reads_find_ptp|]|
    by intros a s' (_ & Hs' & _)].
  apply wp_bind. assert (Hk := wp_find_ptp prt.2 m (lend_to s w) x Hwf Hin Hx).
  pose proof (reads_find_ptp prt.2 m (lend_to s w)) as Hread. unfold wp at 1. unfold wp in Hk.
  destruct (find_ptp prt.2 m (lend_to s w)) as [o w'| |]; [|done|done].
  specialize (Hread _ _ eq_refl) as <-. destruct o as [k|]; [|done].
  destruct Hwf as [[Hb Hi] _]. destruct (inv_ptp _ _ _ Hi k (Hk k eq_refl)) as (y & Hy & _).
  apply wp_bind. by eapply wp_get_ptp.
Qed.

(** ** Cables *)

Lemma nwp_sync_ok L a b s :
  SI L none s → (∀ h, in_use s h → L h → h = a ∨ h = b) →
  nwp (sync_carrier a b) (λ _ s', ok s' ∧ s_ports s' = s_ports s) s.
Proof.
  intros Hs HL. eapply nwp_mono; [by apply nwp_sync|]. intros [] s' [Hs' Hp]. split; [|done].
  eapply SI_weaken; [|done|exact Hs']. intros h Hh (Hl & Hna & Hnb).
  destruct (HL h); [|exact Hl|done|done]. unfold in_use in *. by rewrite <- (slot_tables _ _ _ Hp).
Qed.

Lemma api_unlink h s : ok s → nwp (mstpw_unlink h) (λ _ s', ok s') s.
Proof.
  intros Hs. eapply nwp_with_port; [exact Hs|exact Hs|]. intros prt w x Hp _ _ _ _.
  apply nwp_bind. eapply nwp_mono; [eapply nwp_unplug; [exact Hs|by exists prt]|].
  intros peer s1 (Hs1 & _). apply nwp_bind.
  eapply nwp_mono; [eapply nwp_sync_ok; [exact Hs1|unfold none; tauto]|]. by intros [] s2 [Hs2 _].
Qed.

(** The administrative state of a port. *)
Lemma nwp_admin_up L h prt up s : SI L none s → ps_prt (slot s h) = Some prt →
  nwp (upd_slot h (λ p, p <| ps_admin_up := up |>)) (λ _ s',
    SI (λ x, L x ∨ x = h ∨ x = ps_peer (slot s h)) none s' ∧ in_table h = true ∧
    ps_peer (slot s' h) = ps_peer (slot s h) ∧ ps_prt (slot s' h) = ps_prt (slot s h)) s.
Proof.
  intros Hs Hp. destruct (si_slot _ _ _ _ Hs h prt Hp) as (Ht & _). apply nwp_upd_slot; [done|].
  set (s1 := s <| s_ports ::= _ |>).
  assert (Hsl : ∀ x, ps_prt (slot s1 x) = ps_prt (slot s x) ∧ ps_brh (slot s1 x) = ps_brh (slot s x) ∧
    ps_peer (slot s1 x) = ps_peer (slot s x) ∧ (x ≠ h → slot s1 x = slot s x)).
  { intros x. unfold s1. rewrite slot_insert. by destruct (decide _) as [<-|]. }
  split; [|by destruct (Hsl h) as (? & _ & ? & _)]. eapply SI_slots; [exact Hs|done| | |].
  - intros x. by destruct (Hsl x) as (? & ? & _).
  - intros x Hx HL. split; [tauto|]. unfold port_carrier, port_handle_ok.
    destruct (Hsl x) as (_ & _ & Hpe & Hne). rewrite Hne by tauto. set (y := ps_peer (slot s x)).
    assert (Hy : in_use s y → slot s1 y = slot s y).
    { intros Hu. apply (Hsl y). intros Hyh. destruct (si_cable _ _ _ _ Hs x Hx) as [Hm|(_ & Hb & _)]; unfold y in *.
      - rewrite Hm in Hu. by apply (SI_minus_one _ _ _ _ Hs) in Hu.
      - apply HL. right. right. by rewrite Hyh in Hb. }
    destruct (Hsl y) as (-> & _). destruct (decide (in_use s y)) as [Hu|Hu]; [by rewrite (Hy Hu)|].
    unfold in_use in Hu. rewrite (bool_decide_false _ Hu), andb_false_r. done.
  - intros x. unfold in_use, cable_ok, in_use. destruct (Hsl x) as (-> & _ & -> & _).
    destruct (Hsl (ps_peer (slot s x))) as (-> & _ & -> & _). apply (si_cable _ _ _ _ Hs).
Qed.

Lemma api_shutdown h prt s : ok s → ps_prt (slot s h) = Some prt →
  nwp (sim_shutdown_port h) (λ _ s', ok s' ∧ ps_prt (slot s' h) = Some prt) s.
Proof.
  intros Hs Hp. apply nwp_bind. eapply nwp_mono; [by eapply nwp_admin_up|]. intros [] s1 (Hs1 & Ht & Hpe & Hpr).
  apply nwp_bind, nwp_get_slot; [done|].
  eapply nwp_mono; [eapply nwp_sync_ok; [exact Hs1|]|].
  - rewrite Hpe. unfold none. tauto.
  - intros [] s2 [Hs2 Hp2]. split; [done|]. by rewrite (slot_tables _ _ _ Hp2), Hpr.
Qed.

Lemma api_port_set_enable h up speed duplex s : ok s →
  nwp (mstpw_port_set_enable h up speed duplex) (λ _ s', ok s') s.
Proof.
  intros Hs. eapply nwp_with_port; [exact Hs|exact Hs|]. intros prt w x Hp Ht Hw Hin Hx.
  destruct (si_slot _ _ _ _ Hs h prt Hp) as (_ & _ & w1 & x1 & Hw1 & _ & Hx1 & Hi & Hl & Hd).
  simplify_eq. apply nwp_bind.
  eapply (nwp_mono _ (λ _ s', ok s' ∧ s_ports s' = s_ports s)).
  - apply nwp_when; [done|]. intros _. unfold upd_prt_sysdeps.
    eapply nwp_call; [exact Hw| |apply silent_upd_port|]; [by eapply wp_upd_port|].
    intros [] w' s' (y & Hy & ->)%upd_port_Done Hb Hpt. cbn in Hy. rewrite Hx in Hy. injection Hy as <-.
    split; [|done]. eapply SI_port_changes; [exact Hs|exact Hp|exact Hw|exact Hb|exact Hpt|..].
    + eapply reach_env; [apply (reachable_lend stack s w); by eapply bridge_reachable|]. by eapply env_port.
    + split; [done|]. intros q Hq. cbn. by rewrite lookup_insert_ne.
    + exact Hx.
    + cbn. apply lookup_insert_eq.
    + done.
    + exact Hl.
    + exact Hd.
    + done.
  - intros [] s1 [Hs1 Hp1]. apply nwp_bind. eapply nwp_mono; [eapply nwp_admin_up; [exact Hs1|]|].
    { by rewrite (slot_tables _ _ _ Hp1). }
    intros [] s2 (Hs2 & _ & Hpe & _). apply nwp_bind, nwp_get_slot; [done|]. apply nwp_bind.
    eapply nwp_mono; [eapply nwp_sync_ok; [exact Hs2|]|by intros [] s3 [Hs3 _]].
    rewrite Hpe. unfold none. tauto.
Qed.

Lemma fewer_in_use s s' x : fewer_cables s s' → in_use s' x ↔ in_use s x.
Proof. intros [_ H]. unfold in_use. by destruct (H x) as [-> _]. Qed.

Lemma fewer_unplugged s s' x : fewer_cables s s' → ps_peer (slot s x) = -1 → ps_peer (slot s' x) = -1.
Proof. intros [_ H]. by destruct (H x) as (_ & _ & _ & [-> | ->]). Qed.

(** A cable between two ports that have none. *)
Lemma SI_plugged L a b s s' : SI L none s → in_use s a → in_use s b → a ≠ b →
  ps_peer (slot s a) = -1 → ps_peer (slot s b) = -1 → s_bridges s' = s_bridges s →
  (∀ x, ps_prt (slot s' x) = ps_prt (slot s x) ∧ ps_brh (slot s' x) = ps_brh (slot s x) ∧
        ps_admin_up (slot s' x) = ps_admin_up (slot s x)) →
  ps_peer (slot s' a) = b → ps_peer (slot s' b) = a →
  (∀ x, x ≠ a → x ≠ b → ps_peer (slot s' x) = ps_peer (slot s x)) →
  SI (λ x, L x ∨ x = a ∨ x = b) none s'.
Proof.
  intros Hs Ha Hb Hne Hpa Hpb Hbr Hsl Hpa' Hpb' Hpx.
  assert (Hfree : ∀ x y, in_use s x → (y = a ∨ y = b) → ps_peer (slot s x) ≠ y).
  { intros x y Hx Hy Hxy. destruct (si_cable _ _ _ _ Hs x Hx) as [Hm|(_ & Hback & _)].
    - apply (SI_minus_one _ _ _ _ Hs). rewrite <- Hm, Hxy. by destruct Hy as [-> | ->].
    - rewrite Hxy in Hback. apply (SI_minus_one _ _ _ _ Hs).
      assert (Hx1 : x = -1) by (destruct Hy as [-> | ->]; congruence). by rewrite <- Hx1. }
  assert (Hu : ∀ x, in_use s' x ↔ in_use s x) by (intros x; unfold in_use; by destruct (Hsl x) as [-> _]).
  eapply SI_slots; [exact Hs|done| | |].
  - intros x. by destruct (Hsl x) as (? & ? & _).
  - intros x Hx HL. split; [tauto|]. apply carrier_same; [intros y; by destruct (Hsl y) as (? & _ & ?)|].
    apply Hpx; tauto.
  - intros x Hx. apply Hu in Hx. unfold cable_ok. destruct (decide (x = a)) as [->|Hxa].
    { right. rewrite Hpa', Hpb', Hu. by split_and!. }
    destruct (decide (x = b)) as [->|Hxb]; [right; rewrite Hpb', Hpa', Hu; by split_and!|].
    rewrite Hpx by done. destruct (si_cable _ _ _ _ Hs x Hx) as [|(Hy & Hback & Hny)]; [by left|right].
    rewrite Hu, Hpx; [by split_and!|..]; apply Hfree; auto.
Qed.

Lemma api_plug a b mute s : ok s → nwp (plug a b mute) (λ _ s', ok s') s.
Proof.
  intros Hs. unfold plug. apply nwp_bind, nwp_read.
  destruct (port_handle_ok a s) eqn:Ha; [|done]. destruct (port_handle_ok b s) eqn:Hb; [|done].
  destruct (Z.eqb_spec a b) as [|Hne]; [done|]. cbn [negb orb].
  apply (SI_handle _ _ _ _ _ Hs) in Ha, Hb.
  assert (Hta : in_table a = true) by (destruct Ha as [q Hq]; by destruct (si_slot _ _ _ _ Hs _ _ Hq)).
  assert (Htb : in_table b = true) by (destruct Hb as [q Hq]; by destruct (si_slot _ _ _ _ Hs _ _ Hq)).
  apply nwp_bind. eapply nwp_mono; [eapply nwp_unplug; [exact Hs|exact Ha]|].
  intros pa s1 (Hs1 & Hf1 & Hp1). apply nwp_bind.
  eapply nwp_mono; [eapply nwp_unplug; [exact Hs1|by apply (fewer_in_use _ _ _ Hf1)]|].
  intros pb s2 (Hs2 & Hf2 & Hp2). apply (fewer_unplugged _ _ _ Hf2) in Hp1.
  apply nwp_bind. eapply nwp_mono; [by apply nwp_sync|]. intros [] s3 (Hs3 & Hp3).
  assert (Hu : ∀ x, in_use s x → in_use s3 x).
  { intros x Hx. eapply in_use_tables; [exact Hp3|]. by apply (fewer_in_use _ _ _ Hf2), (fewer_in_use _ _ _ Hf1). }
  rewrite <- (slot_tables _ _ a Hp3) in Hp1. rewrite <- (slot_tables _ _ b Hp3) in Hp2.
  apply nwp_bind, nwp_upd_slot; [done|]. apply nwp_bind, nwp_upd_slot; [done|]. set (s5 := _ <| s_ports ::= _ |>).
  assert (Hfin : ∀ s', s_bridges s' = s_bridges s3 →
    (∀ x, ps_prt (slot s' x) = ps_prt (slot s5 x) ∧ ps_brh (slot s' x) = ps_brh (slot s5 x) ∧
          ps_admin_up (slot s' x) = ps_admin_up (slot s5 x) ∧ ps_peer (slot s' x) = ps_peer (slot s5 x)) →
    nwp (sync_carrier a b ;; mret 0) (λ _ s', ok s') s').
  { intros s' Hbr Hsl. assert (H5 : ∀ x, slot s5 x = if decide (b = x) then slot s3 x <| ps_peer := a |>
      else if decide (a = x) then slot s3 x <| ps_peer := b |> else slot s3 x).
    { intros x. unfold s5. rewrite slot_insert. destruct (decide (b = x)) as [<-|].
      - by rewrite slot_insert, decide_False.
      - rewrite slot_insert. by destruct (decide (a = x)) as [<-|]. }
    assert (Hs' : SI (λ x, (((none x ∨ x = a ∨ x = pa) ∨ x = b ∨ x = pb) ∧ x ≠ pa ∧ x ≠ pb) ∨ x = a ∨ x = b) none s').
    { eapply (SI_plugged _ a b s3); [exact Hs3|by apply Hu|by apply Hu|done|done|done|done|..].
      - intros x. destruct (Hsl x) as (-> & -> & -> & _). rewrite H5. destruct (decide (b = x)); [done|]. by destruct (decide (a = x)).
      - destruct (Hsl a) as (_ & _ & _ & ->). by rewrite H5, decide_False, decide_True.
      - destruct (Hsl b) as (_ & _ & _ & ->). by rewrite H5, decide_True.
      - intros x Hxa Hxb. destruct (Hsl x) as (_ & _ & _ & ->). by rewrite H5, !decide_False. }
    apply nwp_bind. eapply nwp_mono; [eapply nwp_sync_ok; [exact Hs'|unfold none; tauto]|].
    by intros [] s6 [Hs6 _]. }
  apply nwp_bind, nwp_when; intros _; [by apply Hfin|]. apply nwp_upd_slot; [done|].
  apply Hfin; [done|]. intros x. rewrite slot_insert. by destruct (decide (b = x)) as [<-|].
Qed.

(** ** Ports come and go *)

Lemma elem_of_list_del' {A} `{EqDecision A} (x y : A) l : y ∈ list_del x l ↔ y ∈ l ∧ y ≠ x.
Proof. unfold list_del. rewrite list_elem_of_filter. tauto. Qed.

(** The port goes, from its bridge and from the table; it has no cable. *)
Lemma nwp_delete_port L h prt s : SI L none s → ps_prt (slot s h) = Some prt → ps_peer (slot s h) = -1 →
  nwp (delete_port h prt) (λ _ s', SI L none s' ∧ ps_prt (slot s' h) = None ∧
    (∀ x, x ≠ h → slot s' x = slot s x) ∧ (∀ b, is_Some (s_bridges s !! b) → is_Some (s_bridges s' !! b))) s.
Proof.
  intros Hs Hp Hpeer. destruct (si_slot _ _ _ _ Hs h prt Hp) as (Ht & _ & w & x & Hw & Hin & Hx & Hi & _).
  unfold delete_port. apply nwp_bind.
  eapply (nwp_input _ _ _ _ (DeletePort prt.2)); [exact Hs|exact Hw|apply does_self|exact Hin|done|].
  intros [] w1 s1 Hm Hr1 Hb1 Hp1. apply delete_port_view in Hm as [Hv1 Hq1].
  assert (Hports1 : br_ports (w_br w1) = list_del prt.2 (br_ports (w_br w))) by (by injection Hv1).
  apply nwp_bind. eapply (nwp_call _ w1).
  { rewrite Hb1. apply lookup_insert_eq. }
  { done. }
  { apply silent_free_port. }
  intros [] w2 s2 [= <-] Hb2 Hp2. apply nwp_upd_slot; [done|]. set (s3 := s2 <| s_ports ::= _ |>).
  set (w2 := lend_to s1 w1 <| w_ports ::= delete prt.2 |>) in *.
  assert (Hb3 : s_bridges s3 = <[prt.1 := w2]> (s_bridges s)) by (cbn; by rewrite Hb2, Hb1, insert_insert_eq).
  assert (Hsl : ∀ y, slot s3 y = if decide (h = y) then slot s y <| ps_prt := None |> <| ps_admin_up := false |> else slot s y).
  { intros y. unfold s3. rewrite slot_insert, !(slot_tables _ _ _ Hp2), !(slot_tables _ _ _ Hp1).
    by destruct (decide (h = y)) as [<-|]. }
  assert (Hq : ∀ q, q ≠ prt.2 → port_view <$> w_ports w2 !! q = port_view <$> w_ports w !! q).
  { intros q Hne. cbn. rewrite lookup_delete_ne by done. by apply Hq1. }
  assert (Hold : ∀ y, in_use s3 y → y ≠ h ∧ in_use s y).
  { intros y. unfold in_use. rewrite Hsl. destruct (decide (h = y)); [by intros []|]. by split. }
  assert (Hfar : ∀ y, in_use s y → y ≠ h → ps_peer (slot s y) ≠ h).
  { intros y Hy Hne He. destruct (si_cable _ _ _ _ Hs y Hy) as [Hm|(_ & Hback & _)].
    - apply (SI_minus_one _ _ _ _ Hs). rewrite <- Hm, He. by exists prt.
    - rewrite He, Hpeer in Hback. apply (SI_minus_one _ _ _ _ Hs). by rewrite Hback. }
  split; [|split; [by rewrite Hsl, decide_True|split]]; cycle 1.
  { intros y Hy. by rewrite Hsl, decide_False. }
  { intros b Hb. rewrite Hb3. destruct (decide (prt.1 = b)) as [->|]; [rewrite lookup_insert_eq; by eexists|].
    by rewrite lookup_insert_ne. }
  split.
  - intros b v. rewrite Hb3. intros [[<- <-]|[_ Hv]]%lookup_insert_Some; [|by apply (si_bridge _ _ _ _ Hs)].
    destruct (si_bridge _ _ _ _ Hs _ _ Hw). injection Hv1 as Ha Hb Hc Hd. split; cbn; try congruence.
    eapply reach_env; [exact (reachable_lend stack s1 w1 Hr1)|]. apply env_free. cbn. rewrite Hports1.
    by intros [_ ?]%elem_of_list_del'.
  - intros y q. rewrite Hsl. destruct (decide (h = y)) as [->|Hne]; [done|]. intros Hy.
    destruct (si_slot _ _ _ _ Hs y q Hy) as (Hty & Hbrh & v & z & Hv & Hinz & Hz & Hzi & Hl & Hd).
    unfold slot_ok. rewrite Hsl, decide_False by done. split; [done|]. split; [done|].
    assert (Hcar : port_carrier y s3 = port_carrier y s).
    { unfold port_carrier, port_handle_ok. rewrite (Hsl y), decide_False by done.
      rewrite (Hsl (ps_peer _)), decide_False; [done|]. intros He. symmetry in He. revert He.
      apply Hfar; [by exists q|congruence]. }
    rewrite Hcar, Hb3. destruct (decide (q.1 = prt.1)) as [He|Hnb].
    + rewrite He in *. rewrite Hw in Hv. injection Hv as <-. rewrite lookup_insert_eq.
      assert (Hnp : q.2 ≠ prt.2).
      { intros Heq. apply Hne. eapply SI_slot_inj; [exact Hs|exact Hp|]. rewrite Hy. f_equal.
        destruct prt, q; cbn in *; by subst. }
      specialize (Hq _ Hnp). rewrite Hz in Hq. destruct (w_ports w2 !! q.2) as [z'|] eqn:Hz'; [|done].
      injection Hq as Hq1' Hq2'. exists w2, z'. rewrite Hq1', Hq2'. split_and!; try done.
      cbn. rewrite Hports1. by apply elem_of_list_del'.
    + rewrite lookup_insert_ne by done. by exists v, z.
  - intros b v p z. rewrite Hb3. intros [[<- <-]|[Hnb Hv]]%lookup_insert_Some.
    + cbn. rewrite Hports1. intros [Hinp Hnp]%elem_of_list_del' Hz.
      destruct (view_lookup _ _ _ _ (Hq p Hnp) Hz) as (z0 & Hz0 & [= Hsys _]). rewrite <- Hsys.
      pose proof (si_port _ _ _ _ Hs _ _ _ _ Hw Hinp Hz0) as Hslot. rewrite Hsl, decide_False; [exact Hslot|].
      intros He. rewrite <- He, Hp in Hslot. injection Hslot as Heq. apply Hnp. by rewrite Heq.
    + intros Hinp Hz. pose proof (si_port _ _ _ _ Hs _ _ _ _ Hv Hinp Hz) as Hslot.
      rewrite Hsl, decide_False; [exact Hslot|]. intros He. rewrite <- He, Hp in Hslot. injection Hslot as Heq.
      apply Hnb. by rewrite Heq.
  - intros y [Hne Hy]%Hold. unfold cable_ok, in_use. rewrite !Hsl, !decide_False by done.
    destruct (si_cable _ _ _ _ Hs y Hy) as [|(Hu & Hback & Hny)]; [by left|right].
    rewrite decide_False by (intros He; symmetry in He; revert He; by apply Hfar). by split_and!.
Qed.

(** *** No bridge comes or goes meanwhile *)

Definition same_bridges (s s' : sim) : Prop :=
  ∀ b, is_Some (s_bridges s !! b) → is_Some (s_bridges s' !! b).
#[local] Instance same_bridges_preorder : PreOrder same_bridges.
Proof. split; [by intros s b|]. intros s1 s2 s3 H1 H2 b Hb. by apply H2, H1. Qed.

Lemma same_bridges_upd f : (∀ s, s_bridges (f s) = s_bridges s) → moves same_bridges (nupd f).
Proof. intros Hf. apply moves_upd. intros s b. by rewrite Hf. Qed.
Lemma same_bridges_alloc : moves same_bridges nalloc.
Proof. apply moves_alloc. by intros s l b. Qed.
Lemma same_bridges_upd_slot h f : moves same_bridges (upd_slot h f).
Proof. apply moves_upd_slot. by intros s l b. Qed.
#[local] Hint Resolve same_bridges_alloc same_bridges_upd_slot : moves.
#[local] Hint Extern 1 (moves same_bridges (nupd _)) => apply same_bridges_upd; reflexivity : moves.

Lemma same_bridges_call b {A} (m : M A) : moves same_bridges (call b m).
Proof.
  apply moves_call; [|intros []; cbn [perform]; moves_auto]. intros s w w' Hw x Hx. cbn.
  destruct (decide (b = x)) as [->|]; [rewrite lookup_insert_eq; by eexists|]. by rewrite lookup_insert_ne.
Qed.
#[local] Hint Resolve same_bridges_call : moves.

Lemma same_bridges_sync a b : moves same_bridges (sync_carrier a b).
Proof. moves_auto. Qed.

Lemma nwp_same_bridges {A} (m : N A) Q s : moves same_bridges m → nwp m Q s →
  nwp m (λ a s', Q a s' ∧ ∀ b, is_Some (s_bridges s !! b) → is_Some (s_bridges s' !! b)) s.
Proof. intros Hm. unfold nwp. specialize (Hm s). destruct (m s) as [a s'| |]; [|done..]. split; [done|by apply (Hm a)]. Qed.

(** A port loses its cable, then goes; the other end is told. *)
Lemma api_remove_port h prt (purge : bool) s : ok s → ps_prt (slot s h) = Some prt →
  nwp (remove_port h prt purge)
    (λ _ s', ok s' ∧ ps_prt (slot s' h) = None ∧
       (∀ x, ps_prt (slot s' x) = ps_prt (slot s x) ∨ x = h) ∧ (∀ x, ps_brh (slot s' x) = ps_brh (slot s x) ∨ x = h) ∧
       (∀ b, is_Some (s_bridges s !! b) → is_Some (s_bridges s' !! b))) s.
Proof.
  intros Hs Hp. apply nwp_bind. eapply nwp_mono; [eapply nwp_unplug; [exact Hs|by exists prt]|].
  intros peer s1 (Hs1 & [Hb1 Hf1] & Hp1). apply nwp_bind.
  eapply nwp_mono; [eapply nwp_delete_port; [exact Hs1| |exact Hp1]|].
  { by destruct (Hf1 h) as [-> _]. }
  intros [] s2 (Hs2 & Hn2 & Hx2 & Hb2). apply nwp_bind.
  apply (nwp_mono _ (λ _ s3, s_bridges s3 = s_bridges s2 ∧ s_ports s3 = s_ports s2)).
  { apply nwp_when; [done|]. intros _. by apply nwp_upd. }
  intros [] s3 [Hb3 Hp3]. apply (SI_tables _ _ _ _ _ Hb3 Hp3) in Hs2 as Hs3.
  assert (Hbr : ∀ s4, s_ports s4 = s_ports s3 →
    ps_prt (slot s4 h) = None ∧ (∀ x, ps_prt (slot s4 x) = ps_prt (slot s x) ∨ x = h) ∧
    (∀ x, ps_brh (slot s4 x) = ps_brh (slot s x) ∨ x = h)).
  { intros s4 Hp4. assert (Hsl : ∀ x, slot s4 x = slot s2 x) by (intros x; apply slot_tables; congruence).
    split; [by rewrite Hsl|]. split; intros x; rewrite Hsl; (destruct (decide (x = h)); [by right|left]);
      rewrite Hx2 by done; by destruct (Hf1 x) as (? & ? & _). }
  eapply (nwp_mono _ (λ _ s4, (ok s4 ∧ s_ports s4 = s_ports s3) ∧
    (∀ b, is_Some (s_bridges s3 !! b) → is_Some (s_bridges s4 !! b)))).
  - apply nwp_same_bridges; [apply same_bridges_sync|]. eapply nwp_sync_ok; [exact Hs3|].
    intros x Hx [Hn|[Hh|Hpe]]; [destruct Hn| |by left]. subst x. destruct Hx as [q Hq].
    rewrite (slot_tables _ _ _ Hp3), Hn2 in Hq. done.
  - intros [] s4 [[Hs4 Hp4] Hb4]. destruct (Hbr s4 Hp4) as (? & ? & ?). split; [done|]. split_and!; try done.
    intros b Hb. apply Hb4. rewrite Hb3. apply Hb2. by rewrite Hb1.
Qed.

Lemma api_port_delete h s : ok s → nwp (mstpw_port_delete h) (λ _ s', ok s') s.
Proof.
  intros Hs. eapply nwp_with_port; [exact Hs|exact Hs|]. intros prt w x Hp _ _ _ _.
  apply nwp_bind. eapply nwp_mono; [by apply api_remove_port|]. by intros [] s' [Hs' _].
Qed.

(** *** Bridges *)

(** No port of the bridge [b] is left in the slots before [n]. *)
Definition cleared (b n : Z) (s : sim) : Prop :=
  ∀ h, h < n → ps_prt (slot s h) ≠ None → ps_brh (slot s h) ≠ b.

Lemma api_delete_port_of b i s : ok s → in_table i = true → cleared b i s → is_Some (s_bridges s !! b) →
  nwp (delete_port_of b i) (λ _ s', ok s' ∧ cleared b (i + 1) s' ∧ is_Some (s_bridges s' !! b)) s.
Proof.
  intros Hs Ht Hc Hb. unfold delete_port_of. apply nwp_bind, nwp_get_slot; [done|].
  assert (Hstep : (ps_prt (slot s i) ≠ None → ps_brh (slot s i) ≠ b) → cleared b (i + 1) s).
  { intros Hi h Hh. destruct (decide (h = i)) as [->|]; [done|]. apply Hc. lia. }
  destruct (ps_prt (slot s i)) as [prt|] eqn:Hp; [|by split_and!; [|apply Hstep|]].
  destruct (Z.eqb_spec (ps_brh (slot s i)) b) as [He|]; [|by split_and!; [|apply Hstep|]].
  eapply nwp_mono; [exact (api_remove_port i prt true s Hs Hp)|].
  intros [] s' (Hs' & Hn & Hprt & Hbrh & Hbr). split_and!; [done| |by apply Hbr].
  intros h Hh Hu. destruct (decide (h = i)) as [->|Hne]; [by rewrite Hn in Hu|].
  destruct (Hbrh h) as [->|]; [|done]. apply Hc; [lia|]. by destruct (Hprt h) as [<-|].
Qed.

Lemma api_delete_ports b n : ∀ i s, ok s → 0 <= i → i + Z.of_nat n <= MSTPW_MAX_PORTS → cleared b i s →
  is_Some (s_bridges s !! b) →
  nwp (nfor_each (map (λ j, i + Z.of_nat j) (seq 0 n)) (delete_port_of b))
    (λ _ s', ok s' ∧ cleared b (i + Z.of_nat n) s' ∧ is_Some (s_bridges s' !! b)) s.
Proof.
  induction n as [|n IH]; intros i s Hs Hi Hn Hc Hb; cbn [seq map nfor_each].
  { by rewrite Z.add_0_r. }
  rewrite Z.add_0_r. apply nwp_bind. eapply nwp_mono; [apply api_delete_port_of; [done| |done|done]|].
  { unfold in_table. apply andb_true_iff. split; [lia|]. apply Z.ltb_lt. lia. }
  intros [] s1 (Hs1 & Hc1 & Hb1). rewrite <- seq_shift, map_map.
  rewrite (map_ext _ (λ j, (i + 1) + Z.of_nat j)) by (intros; lia).
  replace (i + Z.of_nat (S n)) with ((i + 1) + Z.of_nat n) by lia. apply IH; [done|lia|lia|done|done].
Qed.

(** A bridge without ports in the table. *)
Lemma SI_delete_bridge b s s' : ok s → (∀ h prt, ps_prt (slot s h) = Some prt → prt.1 ≠ b) →
  s_bridges s' = delete b (s_bridges s) → s_ports s' = s_ports s → ok s'.
Proof.
  intros [H1 H2 H3 H4] Hb Hbr Hp. split.
  - intros c w. rewrite Hbr. intros [_ Hw]%lookup_delete_Some. by apply H1.
  - intros h prt. rewrite (slot_tables _ _ _ Hp). intros Hh.
    destruct (H2 h prt Hh) as (Ht & Hbrh & w & x & Hw & Hrest). unfold slot_ok.
    rewrite (slot_tables _ _ _ Hp), (carrier_tables _ _ _ Hp), Hbr. split; [done|]. split; [done|].
    exists w, x. rewrite lookup_delete_ne; [done|]. intros He. by eapply Hb.
  - intros c w p x. rewrite Hbr, (slot_tables _ _ _ Hp). intros [_ Hw]%lookup_delete_Some. by apply H3.
  - intros h. unfold in_use, cable_ok, in_use. rewrite !(slot_tables _ _ _ Hp). apply H4.
Qed.

Lemma api_bridge_delete b s : ok s → nwp (mstpw_bridge_delete b) (λ _ s', ok s') s.
Proof.
  intros Hs. eapply nwp_with_bridge; [exact Hs|exact Hs|]. intros w Hw. apply nwp_bind.
  eapply nwp_mono; [apply (api_delete_ports b (Z.to_nat (MSTPW_MAX_PORTS - 1 - 0 + 1)) 0)|].
  { exact Hs. } { lia. } { unfold MSTPW_MAX_PORTS. lia. }
  { intros h Hh Hu. exfalso. destruct (ps_prt (slot s h)) as [q|] eqn:Hq; [|done].
    destruct (si_slot _ _ _ _ Hs h q Hq) as ([Ht _]%andb_true_iff & _). lia. }
  { by exists w. }
  intros [] s1 (Hs1 & Hc & [w1 Hw1]). apply nwp_bind.
  eapply nwp_call; [exact Hw1| |apply silent_delete_bridge|].
  { apply delete_bridge_safe. eapply reachable_wf_world; [done|]. by eapply reachable_lend, bridge_reachable. }
  intros [] w2 s2 _ Hb2 Hp2. apply nwp_bind, nwp_upd, nwp_ret.
  apply (SI_delete_bridge b s1); [done| |cbn; by rewrite Hb2, delete_insert_eq|done].
  intros h prt Hh He. destruct (si_slot _ _ _ _ Hs1 h prt Hh) as ([Ht1 Ht2]%andb_true_iff & Hbrh & _).
  apply (Hc h); [unfold MSTPW_MAX_PORTS in *; lia|by rewrite Hh|congruence].
Qed.

Lemma first_index_Some n test i : first_free n test = i → 0 <= i → 0 <= i < n ∧ test i = true.
Proof.
  unfold first_free. destruct (head _) as [j|] eqn:Hj; cbn; [|lia]. intros <- _.
  apply head_filter_Some in Hj as [Hin Ht]. apply elem_of_zrange in Hin. split; [lia|]. by apply Is_true_true.
Qed.

(** A new bridge, which has no ports. *)
Lemma SI_new_bridge b w s s' : ok s → s_bridges s !! b = None → bridge_ok stack b w → br_ports (w_br w) = [] →
  s_bridges s' = <[b := w]> (s_bridges s) → s_ports s' = s_ports s → ok s'.
Proof.
  intros [H1 H2 H3 H4] Hn Hok Hports Hbr Hp. split.
  - intros c v. rewrite Hbr. intros [[<- <-]|[_ Hv]]%lookup_insert_Some; [done|by apply H1].
  - intros h prt. rewrite (slot_tables _ _ _ Hp). intros Hh.
    destruct (H2 h prt Hh) as (Ht & Hbrh & v & x & Hv & Hrest). unfold slot_ok.
    rewrite (slot_tables _ _ _ Hp), (carrier_tables _ _ _ Hp), Hbr. split; [done|]. split; [done|].
    exists v, x. rewrite lookup_insert_ne; [done|]. intros He. by rewrite <- He, Hn in Hv.
  - intros c v p x. rewrite Hbr, (slot_tables _ _ _ Hp).
    intros [[<- <-]|[_ Hv]]%lookup_insert_Some; [|by apply H3]. rewrite Hports. by intros ?%elem_of_nil.
  - intros h. unfold in_use, cable_ok, in_use. rewrite !(slot_tables _ _ _ Hp). apply H4.
Qed.

Lemma api_bridge_create name mac s : ok s →
  nwp (mstpw_bridge_create stack name mac) (λ _ s', ok s') s.
Proof.
  intros Hs. unfold mstpw_bridge_create. apply nwp_bind, nwp_read. cbv zeta.
  remember (alloc_br_handle s) as b eqn:Eb. destruct (Z.ltb_spec b 0); [done|].
  apply eq_sym, first_index_Some in Eb as [Hrange Hfree%bool_decide_eq_true]; [|done].
  apply nwp_bind, nwp_alloc. intros ok1 l. set (s1 := s <| s_calloc := l |>).
  assert (Hs1 : ok s1) by by apply (SI_tables _ _ _ s). destruct ok1; [|done]. cbn [negb].
  set (sys := zero_br_sysdeps <| br_if_index := _ |> <| _ := _ |> <| _ := _ |>).
  set (w0 := blank_world <| w_br ::= _ |>). apply nwp_bind, nwp_upd. set (s2 := s1 <| s_bridges ::= _ |>).
  apply nwp_bind. eapply (nwp_call b w0); [apply lookup_insert_eq| |apply silent_bridge_create|].
  { eapply wp_mono; [by apply bridge_create_wf|done]. }
  intros created w' s3 Hm Hb3 Hp3. cbn in Hb3. rewrite insert_insert_eq in Hb3. destruct created; cbn [negb].
  - apply nwp_ret, (SI_new_bridge b w' s1 s3); [done|done| | |exact Hb3|exact Hp3].
    + apply bridge_create_view in Hm as Hv. destruct Hv as [Hv _]. injection Hv as Ha Hb Hc Hd.
      split; [done|by eapply reach_create in Hm|..]; rewrite ?Hb, ?Hc, ?Hd; done.
    + apply bridge_create_view in Hm as [Hv _]. by injection Hv.
  - apply nwp_bind, nwp_upd, nwp_ret. eapply (SI_tables _ _ _ s1); [|exact Hp3|exact Hs1].
    cbn. rewrite Hb3, delete_insert_eq. by apply delete_id.
Qed.

Lemma api_bridge_set_enable b e s : ok s → nwp (mstpw_bridge_set_enable b e) (λ _ s', ok s') s.
Proof.
  intros Hs. eapply nwp_with_bridge; [exact Hs|exact Hs|]. intros w Hw. apply nwp_bind.
  eapply nwp_call; [exact Hw|done|apply silent_upd_br|]. intros [] w1 s1 [= <-] Hb1 Hp1.
  set (w1 := lend_to s w <| w_br ::= _ |>) in *. pose proof (bridge_reachable _ _ _ _ _ Hs Hw) as Hr.
  assert (Hr1 : reachable stack w1).
  { eapply reach_env; [exact (reachable_lend stack s w Hr)|].
    apply (env_bridge (lend_to s w) (λ d, d <| br_up := e |>) e). }
  assert (Hw1 : s_bridges s1 !! b = Some w1) by (rewrite Hb1; apply lookup_insert_eq).
  apply nwp_bind. eapply (nwp_call b w1); [exact Hw1|apply (handle_no_fault stack Hstack s1 w1 (SetBridgeEnable e) Hr1 I)|
    apply (silent_handle stack (SetBridgeEnable e)); done|].
  intros [] w2 s2 Hm Hb2 Hp2. apply nwp_ret.
  assert (Hr2 : reachable stack w2) by exact (reachable_handle stack s1 w1 (SetBridgeEnable e) w2 Hr1 I Hm).
  apply set_bridge_enable_view in Hm as [Hv Hq]. rewrite Hb1, insert_insert_eq in Hb2.
  injection Hv as Ha Hb Hc Hd. eapply SI_same_ports; [exact Hs|exact Hw|exact Hb2|congruence| |exact Ha|exact Hq].
  destruct (si_bridge _ _ _ _ Hs _ _ Hw). split; rewrite ?Hb, ?Hc, ?Hd; done.
Qed.

(** *** Ports *)

Lemma SI_new_port s s' b w w' h p x' :
  ok s → s_bridges s !! b = Some w → ps_prt (slot s h) = None → in_table h = true →
  s_bridges s' = <[b := w']> (s_bridges s) →
  (∀ y, slot s' y = if decide (h = y) then mk_port_slot (Some (b, p)) b (-1) false false else slot s y) →
  bridge_ok stack b w' → br_ports (w_br w') = br_ports (w_br w) ++ [p] → p ∉ br_ports (w_br w) →
  (∀ q, q ≠ p → port_view <$> w_ports w' !! q = port_view <$> w_ports w !! q) →
  w_ports w' !! p = Some x' → if_index (prt_sysdeps x') = h → up (prt_sysdeps x') = false →
  portEnabled x' = false → ok s'.
Proof.
  intros Hs Hw Hfree Ht Hb Hsl Hok Hports Hp Hq Hx' Hi Hup Hen. pose proof Hs as [H1 H2 H3 H4].
  assert (Hold : ∀ y, in_use s y → h ≠ y) by (intros y [q Hy] ->; congruence).
  assert (Hpeer : ∀ y, in_use s y → h ≠ ps_peer (slot s y)).
  { intros y Hy. destruct (H4 y Hy) as [-> |(Hu & _)]; [|by apply Hold]. intros ->. done. }
  assert (Hcar : ∀ y, in_use s y → port_carrier y s' = port_carrier y s).
  { intros y Hy. unfold port_carrier, port_handle_ok.
    rewrite (Hsl y), decide_False by (by apply Hold). by rewrite (Hsl (ps_peer _)), decide_False by (by apply Hpeer). }
  split.
  - intros c v. rewrite Hb. intros [[<- <-]|[_ Hv]]%lookup_insert_Some; [done|by apply H1].
  - intros y prt. unfold slot_ok. rewrite Hsl, Hb. destruct (decide (h = y)) as [<-|Hne].
    + intros [= <-]. split; [done|]. split; [done|]. exists w', x'. rewrite lookup_insert_eq, Hports.
      split_and!; try done; cbn.
      * apply elem_of_app. right. by left.
      * intros _. unfold port_carrier. by rewrite Hsl, decide_True.
      * intros _. by rewrite Hup.
    + intros Hy. destruct (H2 y prt Hy) as (Hty & Hbrh & v & z & Hv & Hin & Hz & Hzi & Hl & Hd).
      split; [done|]. split; [done|]. rewrite Hcar by by exists prt. destruct (decide (prt.1 = b)) as [He|Hnb].
      * rewrite He in *. rewrite Hw in Hv. injection Hv as <-. rewrite lookup_insert_eq.
        assert (Hnp : prt.2 ≠ p) by (by intros <-). specialize (Hq _ Hnp). rewrite Hz in Hq.
        destruct (w_ports w' !! prt.2) as [z'|] eqn:Hz'; [|done]. injection Hq as Hq1 Hq2.
        exists w', z'. rewrite Hports, Hq1, Hq2. split_and!; try done. apply elem_of_app. by left.
      * rewrite lookup_insert_ne by done. by exists v, z.
  - assert (Hslot : ∀ c v q z, s_bridges s !! c = Some v → q ∈ br_ports (w_br v) → w_ports v !! q = Some z →
              ps_prt (slot s' (if_index (prt_sysdeps z))) = Some (c, q)).
    { intros c v q z Hv Hin Hz. pose proof (H3 c v q z Hv Hin Hz) as Hc. rewrite Hsl, decide_False; [done|].
      apply Hold. by exists (c, q). }
    intros c v q z. rewrite Hb. intros [[<- <-]|[_ Hv]]%lookup_insert_Some; [|by apply Hslot].
    rewrite Hports. intros [Hin|Hin%list_elem_of_singleton]%elem_of_app Hz.
    + destruct (view_lookup _ _ _ _ (Hq q ltac:(by intros ->)) Hz) as (z0 & Hz0 & [= Hv0 _]).
      rewrite <- Hv0. by eapply Hslot.
    + subst q. rewrite Hx' in Hz. injection Hz as <-. by rewrite Hsl, decide_True.
  - intros y. unfold in_use at 1, cable_ok. rewrite (Hsl y). destruct (decide (h = y)) as [<-|Hne]; [by left|].
    intros Hy. destruct (H4 y Hy) as [|(Hu & Hback & Hny)]; [by left|right].
    unfold in_use. rewrite Hsl, decide_False by (by apply Hpeer). by split_and!.
Qed.

(** What creates the port object gives: the port in its bridge, which is in no slot yet,
    or nothing. *)
Lemma nwp_new_port b h portno sys w s : ok s → s_bridges s !! b = Some w →
  if_index sys = h → up sys = false →
  nwp (new_port_of b h portno sys) (λ o s', s_ports s' = s_ports s ∧
    match o with
    | None => ok s'
    | Some prt => ∃ w' p x', prt = (b, p) ∧ s_bridges s' = <[b := w']> (s_bridges s) ∧ bridge_ok stack b w' ∧
        br_ports (w_br w') = br_ports (w_br w) ++ [p] ∧ p ∉ br_ports (w_br w) ∧
        (∀ q, q ≠ p → port_view <$> w_ports w' !! q = port_view <$> w_ports w !! q) ∧
        w_ports w' !! p = Some x' ∧ port_view x' = (sys, false)
    end) s.
Proof.
  intros Hs Hw Hi Hup. unfold new_port_of. apply nwp_bind, nwp_alloc. intros al l.
  set (s1 := s <| s_calloc := l |>). assert (Hs1 : ok s1) by by apply (SI_tables _ _ _ s).
  destruct al; [|done]. cbn [negb]. apply nwp_bind, nwp_read. change (s_bridges s1) with (s_bridges s). rewrite Hw.
  cbv zeta. generalize (fresh_addr_new (w_ports w)). generalize (fresh_addr (w_ports w)). intros p Hfresh.
  change port_id in p. change (w_ports w !! p = None) in Hfresh.
  assert (Hp : p ∉ br_ports (w_br w)).
  { intros Hin. destruct (wf_port_lookup w p (bridge_wf _ _ _ _ _ Hs Hw) Hin) as [x Hx].
    by rewrite Hfresh in Hx. }
  set (x0 := zero_port <| prt_sysdeps := sys |>). cbn [driver_create_port negb].
  apply nwp_bind. eapply (nwp_input _ _ b w (CreatePort p x0 (u16 portno))); [exact Hs1|exact Hw| | |done|].
  { intros v. apply does_ignore. }
  { split; [|cbn; lia]. split; [done|]. split; [reflexivity|cbn; lia]. }
  intros created w' s2 Hm Hr2 Hb2 Hp2. unfold mbind, M_bind, alloc_port in Hm.
  set (w1 := lend_to s1 w <| w_ports ::= <[p := x0]> |>) in *.
  apply (port_create_view p _ w1 created w' x0) in Hm as [Hv (_ & Hq & Hself)]; [|apply lookup_insert_eq].
  destruct (Hself x0 (lookup_insert_eq _ _ _)) as (x' & Hx' & Hxv).
  assert (Hq' : ∀ q, q ≠ p → port_view <$> w_ports w' !! q = port_view <$> w_ports w !! q).
  { intros q Hne. specialize (Hq q Hne). cbn in Hq. by rewrite lookup_insert_ne in Hq. }
  injection Hv as Ha Hb Hc Hd.
  assert (Hok : bridge_ok stack b w') by (destruct (si_bridge _ _ _ _ Hs _ _ Hw); split; rewrite ?Hb, ?Hc, ?Hd; done).
  destruct created; cbn [negb].
  - apply nwp_ret. split; [done|]. exists w', p, x'. by split_and!.
  - apply nwp_bind. eapply (nwp_call b w'); [rewrite Hb2; apply lookup_insert_eq|done|apply silent_free_port|].
    intros [] w3 s3 [= <-] Hb3 Hp3. rewrite Hb2, insert_insert_eq in Hb3. apply nwp_ret. split; [by rewrite Hp3, Hp2|].
    eapply SI_same_ports; [exact Hs1|exact Hw|exact Hb3|by rewrite Hp3, Hp2| |exact Ha|].
    + destruct Hok. split; [done| |done..]. eapply reach_env; [by apply (reachable_lend stack s2)|].
      apply env_free. cbn. rewrite Ha. exact Hp.
    + intros q. destruct (decide (q = p)) as [->|Hne].
      * cbn. by rewrite lookup_delete_eq, Hfresh.
      * cbn. rewrite lookup_delete_ne by done. by apply Hq'.
Qed.

Lemma api_port_create b name mac portno speed duplex s : ok s →
  nwp (mstpw_port_create b name mac portno speed duplex) (λ _ s', ok s') s.
Proof.
  intros Hs. eapply nwp_with_bridge; [exact Hs|exact Hs|]. intros w Hw. destruct (_ || _); [done|].
  apply nwp_bind, nwp_read. cbv zeta. remember (alloc_port_handle s) as h eqn:Eh.
  destruct (Z.ltb_spec h 0); [done|].
  apply eq_sym, first_index_Some in Eh as [Hrange Hfree%bool_decide_eq_true]; [|done].
  assert (Ht : in_table h = true) by (unfold in_table; apply andb_true_iff; split; lia).
  set (sys := mk_sysdep_if_data _ _ _ _ _ _). apply nwp_bind.
  eapply nwp_mono; [by apply (nwp_new_port b h portno sys w)|]. intros [prt|] s1 [Hp1 H1]; [|exact H1].
  destruct H1 as (w' & p & x' & -> & Hb1 & Hok & Hports & Hp & Hq & Hx' & [= Hsys Hen]).
  apply nwp_bind, nwp_upd_slot; [done|]. apply nwp_ret.
  eapply (SI_new_port s _ b w w' h p x'); [exact Hs|exact Hw|exact Hfree|exact Ht|exact Hb1| |exact Hok|exact Hports|
    exact Hp|exact Hq|exact Hx'|by rewrite Hsys|by rewrite Hsys|exact Hen].
  intros y. rewrite slot_insert. destruct (decide (h = y)); [done|]. by apply slot_tables.
Qed.

(** ** Time *)

Lemma api_one_second s : ok s → nwp mstpw_one_second (λ _ s', ok s') s.
Proof.
  intros Hs. unfold mstpw_one_second. apply nwp_bind, nwp_upd.
  apply nwp_for_each; [|by apply (SI_tables _ _ _ s)]. clear s Hs. intros j s _ Hs. apply nwp_bind, nwp_read.
  destruct (s_bridges s !! j) as [w|] eqn:Hw; [|done]. apply nwp_when; [done|]. intros _.
  eapply nwp_mono; [eapply (nwp_event _ _ _ _ OneSecond); [exact Hs|exact Hw|apply does_self|done|done|apply (view_inputs OneSecond)]|].
  by intros [] s' [Hs' _].
Qed.


(** *** Delivery *)

(** The actions of the reception of a BPDU: the port may be shut down. *)
Lemma api_actions h prt evs s : ok s → ps_prt (slot s h) = Some prt →
  nwp (nfor_each evs (perform (sim_shutdown_port h))) (λ _ s', ok s' ∧ ps_prt (slot s' h) = Some prt) s.
Proof.
  intros Hs Hp. apply nwp_for_each; [|done]. clear s Hs Hp. intros e s _ [Hs Hp]. destruct e; cbn [perform]; try done.
  - eapply nwp_mono; [apply tables_transmit|]. intros ? s' [= Hb Hpt].
    split; [by eapply SI_tables|by rewrite (slot_tables _ _ _ Hpt)].
  - by apply api_shutdown.
Qed.

Lemma api_rx h prt w b size s : ok s → ps_prt (slot s h) = Some prt → s_bridges s !! prt.1 = Some w →
  prt.2 ∈ br_ports (w_br w) → length (mstConfiguration b) = 64%nat →
  nwp (call_with (sim_shutdown_port h) prt.1 (MSTP_IN_rx_bpdu prt.2 b size)) (λ _ s', ok s') s.
Proof.
  intros Hs Hp Hw Hin Hb. pose proof (bridge_reachable _ _ _ _ _ Hs Hw) as Hr.
  pose proof (handle_no_fault stack Hstack s w (RxBpdu prt.2 b size) Hr (conj Hin Hb)) as Hf.
  unfold nwp, call_with. rewrite Hw. unfold wp in Hf. cbn [handle] in Hf.
  destruct (MSTP_IN_rx_bpdu prt.2 b size (lend_to s w)) as [[] w'| |] eqn:Hm; [|done|done].
  set (s0 := take_back s w' <| s_bridges ::= _ |>).
  change (nwp (nfor_each (w_out w') (perform (sim_shutdown_port h)) ;; mret tt) (λ _ s', ok s') s0).
  apply nwp_bind. eapply nwp_mono; [apply (api_actions h prt); [|exact Hp]|by intros ? s' [Hs' _]].
  eapply (SI_same_view stack none none s s0 prt.1 w w'); [exact Hs|exact Hw|done|done| |].
  - exact (reachable_handle stack s w (RxBpdu prt.2 b size) w' Hr (conj Hin Hb) Hm).
  - apply (proj1 (proj2 (proj2 view_events))) in Hm as [H1 H2]. by split.
Qed.

Lemma read_bpdu_long f : ∃ b, read_bpdu behind f = Some b ∧ length (mstConfiguration b) = 64%nat.
Proof.
  destruct (long_bpdu (f_data f ++ behind f)) as (b & l & Hb & _ & Hn).
  - rewrite length_app. specialize (Hbehind f). lia.
  - exists b. unfold read_bpdu. by rewrite Hb.
Qed.

Lemma api_deliver_frame f s : ok s → nwp (deliver_frame behind f) (λ _ s', ok s') s.
Proof.
  intros Hs. unfold deliver_frame. apply nwp_bind, nwp_read.
  destruct (port_handle_ok (f_dst f) s) eqn:Hh; [|done]. cbn [negb].
  apply (SI_handle _ _ _ _ _ Hs) in Hh as [prt Hp]. rewrite Hp.
  destruct (si_slot _ _ _ _ Hs _ prt Hp) as (Ht & _ & w & x & Hw & Hin & Hx & Hi & _).
  apply nwp_bind. eapply nwp_read_prt; [done..|]. destruct (up (prt_sysdeps x)); [|done]. cbn [negb].
  apply nwp_bind, nwp_upd. destruct (read_bpdu_long f) as (b & -> & Hb). apply nwp_bind.
  rewrite Hi. eapply nwp_mono; [eapply (api_rx _ _ w); [by apply (SI_tables _ _ _ s)|exact Hp|exact Hw|exact Hin|exact Hb]|].
  done.
Qed.

Lemma api_deliver_wave wave : ∀ guard delivered s, ok s →
  nwp (deliver_wave behind wave guard delivered) (λ _ s', ok s') s.
Proof.
  induction wave as [|f wave IH]; intros guard delivered s Hs; cbn [deliver_wave]; [done|].
  destruct (_ <? _); [apply nwp_bind, nwp_upd; by apply (SI_tables _ _ _ s)|].
  apply nwp_bind. eapply nwp_mono; [by apply api_deliver_frame|]. intros d s' Hs'. by apply IH.
Qed.

Lemma api_deliver_round guard delivered s : ok s →
  nwp (deliver_round behind guard delivered) (λ _ s', ok s') s.
Proof.
  intros Hs. unfold deliver_round. apply nwp_bind, nwp_read. cbv zeta. apply nwp_bind, nwp_upd, nwp_bind.
  eapply nwp_mono; [apply api_deliver_wave; by apply (SI_tables _ _ _ s)|].
  intros [[g d] c] s' Hs'. by apply nwp_bind, nwp_read.
Qed.

Lemma api_deliver_rounds n : ∀ guard delivered s, ok s →
  nwp (deliver_rounds behind n guard delivered) (λ _ s', ok s') s.
Proof.
  induction n as [|n IH]; intros guard delivered s Hs; cbn [deliver_rounds]; [by apply api_deliver_round|].
  apply nwp_bind. eapply nwp_mono; [by apply IH|]. intros [[g d] []] s' Hs'; [by apply IH|done].
Qed.

Lemma api_deliver all s : ok s → nwp (mstpw_deliver_bpdus behind all) (λ _ s', ok s') s.
Proof.
  intros Hs. unfold mstpw_deliver_bpdus. apply nwp_bind.
  eapply (nwp_mono _ (λ _ s', ok s')); [destruct all; [by apply api_deliver_rounds|by apply api_deliver_round]|].
  intros [[g d] more] s' Hs'. destruct (_ && _); done.
Qed.

Lemma api_step n : ∀ s, ok s → nwp (step_seconds behind n) (λ _ s', ok s') s.
Proof.
  induction n as [|n IH]; intros s Hs; cbn [step_seconds]; [done|].
  apply nwp_bind. eapply nwp_mono; [by apply api_one_second|]. intros ? s1 Hs1.
  apply nwp_bind. eapply nwp_mono; [by apply api_deliver|]. intros ? s2 Hs2. by apply IH.
Qed.

(** ** Every call *)

Lemma api_void (m : N unit) s : nwp m (λ _ s', ok s') s → nwp (void m) (λ _ s', ok s') s.
Proof. intros H. apply nwp_bind. eapply nwp_mono; [exact H|done]. Qed.

Lemma serve_api_keeps c s : ok s → nwp (serve_api stack behind c) (λ _ s', ok s') s.
Proof.
  intros Hs. destruct c; cbn [serve_api].
  - by apply api_bridge_create.
  - by apply api_bridge_set_enable.
  - by apply api_bridge_delete.
  - by apply api_port_create.
  - by apply api_port_set_enable.
  - by apply api_port_delete.
  - by apply api_plug.
  - by apply api_plug.
  - by apply api_unlink.
  - by apply api_void, api_one_second.
  - by apply api_deliver.
  - by apply api_void, api_step.
  - apply api_void, nwp_bind, nwp_upd, nwp_upd. by apply (SI_tables _ _ _ s).
  - by apply api_set_mst_config_id.
  - by apply api_cist_bridge_config.
  - by apply api_cist_bridge_config.
  - by apply api_create_msti.
  - by apply api_delete_msti.
  - by apply api_vid2fid.
  - by apply api_fid2mstid.
  - by apply api_bridge_priority.
  - by apply api_port_path_cost.
  - by apply api_port_config.
  - by apply api_port_config.
  - by apply api_port_config.
  - by apply api_port_config.
  - by apply api_port_config.
  - by apply api_port_config.
  - by apply api_port_config.
  - by apply api_of_ptp.
  - by apply api_of_ptp.
Qed.

(** Any calls, each with its own clock readings and allocation outcomes. *)
Inductive reachable_sim : sim → Prop :=
| sim_start clock : reachable_sim (new_sim clock)
| sim_environment clock allocs s : reachable_sim s →
    reachable_sim (s <| s_clock := clock |> <| s_calloc := allocs |>)
| sim_call c clock allocs s r s' : reachable_sim s →
    serve_api stack behind c (s <| s_clock := clock |> <| s_calloc := allocs |>) = NDone r s' →
    reachable_sim s'.

Lemma ok_new clock : ok (new_sim clock).
Proof.
  assert (Hn : ∀ h, ps_prt (slot (new_sim clock) h) = None) by (intros h; unfold slot; cbn; by rewrite lookup_empty).
  split.
  - intros b w. cbn. by rewrite lookup_empty.
  - intros h prt. by rewrite Hn.
  - intros b w p x. cbn. by rewrite lookup_empty.
  - intros h [prt Hh]. by rewrite Hn in Hh.
Qed.

Lemma reachable_sim_ok s : reachable_sim s → ok s.
Proof.
  induction 1 as [clock|clock allocs s _ IH|c clock allocs s r s' _ IH Hc]; [apply ok_new|by apply (SI_tables _ _ _ s)|].
  eapply (nwp_Done _ (λ _ s', ok s')); [|exact Hc]. apply serve_api_keeps. by apply (SI_tables _ _ _ s).
Qed.
End simulation.
