(* ===== verification/Queue.v ===== *)
(** The frames between the ports: whatever the calls of the simulation, each holds the
    header of its BPDU. *)
From S2P Require Import Prelude Types Monad Clib Vectors Outputs Wire Procs Bridge Mgmt Kernel Track Sim.
From S2P Require Import Wf Safety Links System Frame Follows Silent Moves Cables Simulation.

(** Version, type and flags, which only a TCN BPDU lacks. *)
Definition frame_ok (f : frame_t) : Prop :=
  match f_data f with
  | _ :: _ :: version :: type :: rest => rest ≠ [] ∨ version = protoSTP ∧ type = bpduTypeTCN
  | _ => False
  end.

Lemma sent_frame_ok port src l b size seq from to :
  has_header (EvSend port src l b size) → frame_ok (mk_frame seq from to size (bpdu_octets b size)).
Proof.
  intros Hh. unfold frame_ok, bpdu_octets, has_header in *. cbn [f_data].
  assert (E : ∃ x0 x1 x4 rest, put b = x0 :: x1 :: protocolVersion b mod 256 :: bpduType b mod 256 :: x4 :: rest).
  { change (put b) with (put_bpdu b). unfold put_bpdu. cbn [be_bytes app].
    do 4 eexists. rewrite !Z.div_1_r. reflexivity. }
  destruct E as (x0 & x1 & x4 & rest & ->). destruct Hh as [Hs|(Hs & Hv & Ht)].
  - destruct (Z.to_nat size) as [|[|[|[|[|n]]]]] eqn:En; try lia. cbn [take]. by left.
  - destruct (Z.to_nat size) as [|[|[|[|n]]]] eqn:En; try lia. cbn [take]. right. rewrite Hv, Ht. done.
Qed.

(** ** Calls

    A call into the protocol code whose actions satisfy [P]. *)
Lemma moves_call_of (R : relation sim) `{Hpre : !PreOrder R} (P : event → Prop) shutdown b {A} (m : M A) :
  (∀ s w w', s_bridges s !! b = Some w → R s (take_back s w' <| s_bridges ::= <[b := w']> |>)) →
  follows (emits P) m → (∀ e, P e → moves R (perform shutdown e)) → moves R (call_with shutdown b m).
Proof.
  intros Hb Hm He s a s'. unfold call_with. destruct (s_bridges s !! b) as [w|] eqn:Hw; [|done].
  destruct (m (lend_to s w)) as [a' w'| |] eqn:Hd; [|done|done]. intros H. etrans; [by eapply (Hb s w w')|].
  apply Hm in Hd as (l & Hl & HP). cbn in Hl. rewrite Hl in H.
  assert (Hp : moves R (nfor_each l (perform shutdown) ;; mret a')); [|by eapply Hp].
  apply moves_bind; [|intros; apply moves_ret]. clear -He HP Hpre.
  induction HP as [|e l HPe _ IH]; cbn [nfor_each]; [apply moves_ret|].
  apply moves_bind; [by apply He|intros _; exact IH].
Qed.

(** The frames in the queue keep their headers. *)
Definition headed (s s' : sim) : Prop := Forall frame_ok (s_queue s) → Forall frame_ok (s_queue s').
#[export] Instance headed_preorder : PreOrder headed.
Proof. split; [intros s H; exact H|]. intros s1 s2 s3 H1 H2 H. by apply H2, H1. Qed.

Lemma headed_same s s' : s_queue s' = s_queue s → headed s s'.
Proof. unfold headed. by intros ->. Qed.
Lemma headed_alloc : moves headed nalloc.
Proof. apply moves_alloc. intros s l. by apply headed_same. Qed.
Lemma headed_upd_slot h f : moves headed (upd_slot h f).
Proof. apply moves_upd_slot. intros s l. by apply headed_same. Qed.
#[local] Hint Resolve headed_alloc headed_upd_slot : moves.
#[local] Hint Extern 1 (moves headed (nupd _)) => apply moves_upd; intros ?; first [by apply headed_same | intros _; constructor] : moves.

Lemma headed_purge h : moves headed (frame_purge_dst h).
Proof.
  apply moves_upd. intros s H. cbn. apply Forall_forall. intros f [_ Hf]%list_elem_of_filter.
  rewrite Forall_forall in H. by apply H.
Qed.
Lemma headed_transmit port src l b size : has_header (EvSend port src l b size) → moves headed (transmit port src b size).
Proof.
  intros Hh. unfold transmit, frame_enqueue. cbv zeta. apply moves_bind; [moves_auto|intros _].
  apply moves_bind; [moves_auto|intros s]. destruct (negb _); [apply moves_ret|].
  destruct (ps_mute _); [apply moves_ret|]. destruct (negb _); [apply moves_ret|].
  apply moves_bind; [moves_auto|intros ok]. destruct (negb ok); [apply moves_ret|].
  apply moves_bind; [moves_auto|intros _]. apply moves_upd. intros s1 H. cbn.
  apply Forall_app. split; [exact H|]. constructor; [|done]. by eapply sent_frame_ok.
Qed.
#[local] Hint Resolve headed_purge : moves.

Lemma headed_call_with shutdown b {A} (m : M A) :
  follows (emits has_header) m → moves headed shutdown → moves headed (call_with shutdown b m).
Proof.
  intros Hm Hs. apply (moves_call_of headed has_header); [|done|].
  - intros s w w' _. by apply headed_same.
  - intros e He. destruct e; cbn [perform]; [apply moves_ret..| |exact Hs]. by eapply headed_transmit.
Qed.
Lemma headed_call b {A} (m : M A) : follows (emits has_header) m → moves headed (call b m).
Proof. intros Hm. apply headed_call_with; [done|apply moves_fault]. Qed.

Lemma headers_quiet e : is_shutdown e = false → has_header e → has_header e.
Proof. done. Qed.
Lemma headers_upd_br f : follows (emits has_header) (upd_br f).
Proof. apply emits_upd_br. Qed.
Lemma headers_upd_port p f : follows (emits has_header) (upd_port p f).
Proof. apply emits_upd_port. Qed.
Lemma headers_alloc_port p x : follows (emits has_header) (alloc_port p x).
Proof. apply emits_alloc_port. Qed.
Lemma headers_free_port p : follows (emits has_header) (free_port p).
Proof. apply emits_free_port. Qed.
Lemma headers_bridge_create stack mac : follows (emits has_header) (MSTP_IN_bridge_create stack mac).
Proof. apply emits_bridge_create. Qed.
Lemma headers_delete_bridge : follows (emits has_header) MSTP_IN_delete_bridge.
Proof. apply emits_delete_bridge, headers_quiet. Qed.
Lemma headers_delete_port p : follows (emits has_header) (MSTP_IN_delete_port p).
Proof. apply emits_delete_port, headers_quiet. Qed.
Lemma headers_rx_bpdu p b size : follows (emits has_header) (MSTP_IN_rx_bpdu p b size).
Proof. apply emits_rx_bpdu; [apply headers_quiet|done]. Qed.
#[local] Hint Resolve headers_upd_br headers_upd_port headers_alloc_port headers_free_port
  headers_bridge_create headers_delete_bridge headers_delete_port headers_rx_bpdu : follows.
#[local] Hint Extern 1 (follows (emits has_header) _) =>
  solve [apply (emits_calls has_header headers_quiet)] : follows.
#[local] Hint Extern 1 (moves headed (call _ _)) => apply headed_call; solve [follows_auto] : moves.

Lemma headed_sync a b : moves headed (sync_carrier a b).
Proof. moves_auto. Qed.
#[local] Hint Resolve headed_sync : moves.
Lemma headed_rx h b {A} (m : M A) : follows (emits has_header) m →
  moves headed (call_with (sim_shutdown_port h) b m).
Proof. intros Hm. apply headed_call_with; [done|]. moves_auto. Qed.
#[local] Hint Extern 1 (moves headed (call_with _ _ _)) => apply headed_rx; solve [follows_auto] : moves.

Section calls.
Context (stack : list Z) (behind : frame_t → list Z).

Lemma headed_wave wave : ∀ g d, moves headed (deliver_wave behind wave g d).
Proof. induction wave; intros g d; cbn [deliver_wave]; moves_auto. Qed.
#[local] Hint Resolve headed_wave : moves.
Lemma headed_rounds n : ∀ g d, moves headed (deliver_rounds behind n g d).
Proof. induction n; intros g d; cbn [deliver_rounds]; moves_auto. Qed.
#[local] Hint Resolve headed_rounds : moves.
Lemma headed_seconds n : moves headed (step_seconds behind n).
Proof. induction n; cbn [step_seconds]; moves_auto. Qed.
#[local] Hint Resolve headed_seconds : moves.

Lemma headed_api c : moves headed (serve_api stack behind c).
Proof. destruct c; cbn [serve_api]; moves_auto. Qed.

Lemma reachable_queue_ok s : reachable_sim stack behind s → Forall frame_ok (s_queue s).
Proof.
  induction 1 as [clock|clock allocs s _ IH|c clock allocs s r s' _ IH Hc]; [constructor|exact IH|]. by apply headed_api in Hc; apply Hc.
Qed.
End calls.
