(* ===== verification/Network.v ===== *)
(** What the simulation promises: the calls that change it never fail, its cables carry what
    they should, and the delivery of BPDUs comes to an end. *)
From S2P Require Import Prelude Types Monad Clib Vectors Outputs Wire Procs RoleSelect PortSM TreeSM.
From S2P Require Import Prtsm Bridge Mgmt Kernel Track Sim Wf Safety Links System Sample Frame Follows Inventory.
From S2P Require Import Silent Cables Simulation.

Section network.
Context (stack : list Z) (behind : frame_t → list Z).

(** No call of the API that changes the simulation faults. *)
Lemma api_no_fault c s :
  length stack = 64%nat → (∀ f, (Z.to_nat sizeof_bpdu <= length (behind f))%nat) →
  reachable_sim stack behind s → serve_api stack behind c s ≠ NFault.
Proof.
  intros Hstack Hbehind Hs Hf. pose proof (reachable_sim_ok stack Hstack behind Hbehind s Hs) as Hok.
  pose proof (serve_api_keeps stack Hstack behind Hbehind c s Hok) as Hk. unfold nwp in Hk. by rewrite Hf in Hk.
Qed.

(** C16: after any calls: a cable joins two ports, each of which knows the other; every
    port in the table is one of its bridge's, under its own handle; its bridge is in a
    state that the events of the protocol lead to; and the port is up, for the interface
    layer and for the protocol, exactly when it is enabled and so is the other end of its
    cable if it has one. *)
Theorem sim_cables h prt s :
  length stack = 64%nat → (∀ f, (Z.to_nat sizeof_bpdu <= length (behind f))%nat) →
  reachable_sim stack behind s → ps_prt (slot s h) = Some prt →
  let peer := ps_peer (slot s h) in
  (peer = -1 ∨ (port_handle_ok peer s = true ∧ ps_peer (slot s peer) = h ∧ peer ≠ h)) ∧
  ∃ w x, s_bridges s !! prt.1 = Some w ∧ reachable stack w ∧ prt.2 ∈ br_ports (w_br w) ∧
    w_ports w !! prt.2 = Some x ∧ if_index (prt_sysdeps x) = h ∧
    up (prt_sysdeps x) = port_carrier h s ∧ portEnabled x = port_carrier h s.
Proof.
  intros Hstack Hbehind Hs Hp peer. pose proof (reachable_sim_ok stack Hstack behind Hbehind s Hs) as Hok. split.
  - assert (Hh : in_use s h) by by exists prt.
    destruct (si_cable _ _ _ _ Hok h Hh) as [|(Hu & Hb & Hn)]; [by left|right].
    split; [|done]. by apply (SI_handle _ _ _ _ _ Hok).
  - destruct (si_slot _ _ _ _ Hok h prt Hp) as (_ & _ & w & x & Hw & Hin & Hx & Hi & Hl & Hd).
    exists w, x. split_and!; try done.
    + by apply (bo_reachable stack prt.1 w), (si_bridge _ _ _ _ Hok).
    + apply Hl; intros [].
    + rewrite Hd by intros []. apply Hl. intros [].
Qed.

(** ** The delivery ends *)

Lemma nbind_Done_inv {A B} (m : N A) (f : A → N B) s b s' :
  (m ≫= f) s = NDone b s' → ∃ a s1, m s = NDone a s1 ∧ f a s1 = NDone b s'.
Proof. unfold mbind, N_bind. destruct (m s); [eauto|done|done]. Qed.

(** The guard counts the frames, and stops at the cap. *)
Definition counted (guard delivered guard' delivered' : Z) : Prop :=
  guard <= guard' <= MSTPW_DELIVER_CAP + 1 ∧ delivered <= delivered' <= delivered + (guard' - guard) ∧
  delivered' <= MSTPW_DELIVER_CAP.

Lemma wave_counts wave : ∀ guard delivered s g d capped s',
  0 <= delivered <= guard → guard <= MSTPW_DELIVER_CAP →
  deliver_wave behind wave guard delivered s = NDone (g, d, capped) s' →
  counted guard delivered g d ∧
  (if capped then s_queue s' = [] else g = guard + Z.of_nat (length wave) ∧ g <= MSTPW_DELIVER_CAP).
Proof.
  unfold counted, MSTPW_DELIVER_CAP.
  induction wave as [|f wave IH]; intros guard delivered s g d capped s' Hd Hg H; cbn [deliver_wave] in H.
  { injection H as <- <- <- <-. cbn. lia. }
  assert (Hu : u32 (guard + 1) = guard + 1) by (unfold u32; apply Z.mod_small; lia). rewrite Hu in H.
  unfold MSTPW_DELIVER_CAP in H.
  destruct (Z.ltb_spec 2000000 (guard + 1)) as [Hc|Hc].
  { apply nbind_Done_inv in H as ([] & s1 & [= <-] & [= <- <- <- <-]). cbn. split; [lia|done]. }
  apply nbind_Done_inv in H as (b & s1 & _ & H).
  assert (Hs : s32 (delivered + 1) = delivered + 1) by (unfold s32; rewrite Z.mod_small; lia). rewrite Hs in H.
  apply IH in H; [|destruct b; lia|lia]. destruct H as [H1 H2]. split; [destruct b; lia|].
  destruct capped; [done|]. cbn [length]. lia.
Qed.

Lemma round_counts guard delivered s g d more s' :
  0 <= delivered <= guard → guard <= MSTPW_DELIVER_CAP →
  deliver_round behind guard delivered s = NDone (g, d, more) s' →
  counted guard delivered g d ∧
  (if more then guard + 1 <= g <= MSTPW_DELIVER_CAP else s_queue s' = []).
Proof.
  intros Hd Hg H. unfold deliver_round in H. apply nbind_Done_inv in H as (s0 & s1 & [= <- <-] & H).
  apply nbind_Done_inv in H as ([] & s2 & [= <-] & H).
  apply nbind_Done_inv in H as ([[g1 d1] capped] & s3 & Hw & H).
  apply nbind_Done_inv in H as (s4 & s5 & [= <- <-] & [= <- <- <- <-]).
  pose proof (wave_counts _ _ _ _ _ _ _ _ Hd Hg Hw) as [Hc Hq]. split; [exact Hc|].
  destruct capped; cbn [negb andb]; [done|]. destruct (bool_decide_reflect (s_queue s3 = [])) as [|Hne]; [done|].
  cbn [negb]. destruct (s_queue s) as [|f wave] eqn:Hs.
  - cbn [deliver_wave] in Hw. injection Hw as _ _ <-. by destruct Hne.
  - cbn [length] in Hq. lia.
Qed.

Lemma rounds_count n : ∀ guard delivered s g d more s',
  0 <= delivered <= guard → guard <= MSTPW_DELIVER_CAP →
  deliver_rounds behind n guard delivered s = NDone (g, d, more) s' →
  counted guard delivered g d ∧
  (if more then guard + 2 ^ Z.of_nat n <= g <= MSTPW_DELIVER_CAP else s_queue s' = []).
Proof.
  induction n as [|n IH]; intros guard delivered s g d more s' Hd Hg H; cbn [deliver_rounds] in H.
  { by apply round_counts in H. }
  apply nbind_Done_inv in H as ([[g1 d1] m1] & s1 & H1 & H). apply IH in H1 as [Hc1 Hm1]; [|done|done].
  destruct m1; [|injection H as <- <- <- <-; done].
  unfold counted in *. apply IH in H as [Hc2 Hm2]; [|lia|lia]. split; [lia|].
  destruct more; [|done]. rewrite Nat2Z.inj_succ, Z.pow_succ_r by lia. lia.
Qed.

(** C17: delivering all BPDUs comes to an end whatever the bridges answer: the cap on the
    number of frames bounds the rounds of the loop by those modelled, no frame is left in
    the queue, and the number returned is that of at most MSTPW_DELIVER_CAP frames. *)
Theorem deliver_all_ends s :
  (∀ g d s', deliver_rounds behind round_depth 0 0 s ≠ NDone (g, d, true) s') ∧
  ∀ n s', mstpw_deliver_bpdus behind true s = NDone n s' →
    s_queue s' = [] ∧ 0 <= n <= MSTPW_DELIVER_CAP.
Proof.
  assert (Hz : 0 <= 0 <= 0) by lia. assert (Hcap : 0 <= MSTPW_DELIVER_CAP) by (unfold MSTPW_DELIVER_CAP; lia). split.
  - intros g d s' H. apply (rounds_count _ _ _ _ _ _ _ _ Hz Hcap) in H as [_ H].
    change (2 ^ Z.of_nat round_depth) with 2097152 in H. unfold MSTPW_DELIVER_CAP in H. lia.
  - intros n s' H. unfold mstpw_deliver_bpdus in H. apply nbind_Done_inv in H as ([[g d] more] & s1 & H1 & H).
    apply (rounds_count _ _ _ _ _ _ _ _ Hz Hcap) in H1 as [Hc Hm].
    destruct more; [discriminate H|]. injection H as <- <-. split; [done|].
    unfold counted, MSTPW_DELIVER_CAP in *. lia.
Qed.
End network.
