(* ===== verification/Ring.v ===== *)
(** Bridges at work in the simulation: a port that is created where another one was receives
    the BPDUs of a cable it never had; and a bridge with a cable between its own ports, on
    which the theorems on the simulation are applied. *)
From S2P Require Import Prelude Types Monad Clib Vectors Outputs Wire Procs RoleSelect PortSM TreeSM.
From S2P Require Import Prtsm Bridge Mgmt Kernel Track Sim Wf Safety Links System Sample Frame Follows Inventory.
From S2P Require Import Silent Cables Simulation Network.

(** Behind the frames there are zeros; the clock stands still. *)
Definition zeros (_ : frame_t) : list Z := replicate (Z.to_nat sizeof_bpdu) 0.
Definition readings : list timespec := replicate 200 (0, 0).

Fixpoint run (l : list api) (s : sim) : option sim :=
  match l with
  | [] => Some s
  | c :: l =>
      match serve_api sample_stack zeros c (s <| s_clock := readings |> <| s_calloc := [] |>) with
      | NDone _ s' => run l s'
      | _ => None
      end
  end.

Lemma run_reachable l : ∀ s s', reachable_sim sample_stack zeros s → run l s = Some s' →
  reachable_sim sample_stack zeros s'.
Proof.
  induction l as [|c l IH]; intros s s' Hs H; cbn [run] in H; [by injection H as <-|].
  destruct (serve_api _ _ _ _) as [r s1| |] eqn:Hc; [|done|done]. eapply IH; [|exact H]. by eapply sim_call.
Qed.

Lemma zeros_long f : (Z.to_nat sizeof_bpdu <= length (zeros f))%nat.
Proof. unfold zeros. by rewrite length_replicate. Qed.

(** The role and the state of a port in the CIST, as the API tells them. *)
Definition cist_view (s : sim) (h : Z) : Z * Z :=
  match mstpw_port_role h 0 s, mstpw_port_state h 0 s with
  | NDone r _, NDone st _ => (r, st)
  | _, _ => (-2, -2)
  end.

Definition root_forwarding : Z * Z := (role_code roleRoot, BR_STATE_FORWARDING).

(** ** A port in the place of another

    Port 0 of bridge 0 and port 1 of bridge 1 are linked and come up; before their BPDUs are
    delivered port 1 is deleted, and a port is created, which gets the free handle 1. *)
Definition replaced : list api :=
  [ApiBridgeCreate None None; ApiBridgeCreate None None;
   ApiPortCreate 0 None None 1 1000 true; ApiPortCreate 1 None None 1 1000 true; ApiLink 0 1;
   ApiBridgeSetEnable 0 true; ApiBridgeSetEnable 1 true;
   ApiPortSetEnable 0 true 1000 true; ApiPortSetEnable 1 true 1000 true;
   ApiPortDelete 1; ApiPortCreate 1 None None 2 1000 true; ApiPortSetEnable 1 true 1000 true].

(** The peer of port 1 and its part in the CIST, before and after the delivery. *)
Definition replaced_history : option ((Z * (Z * Z)) * (Z * (Z * Z))) :=
  s1 ← run replaced (new_sim []);
  s2 ← run [ApiDeliverBpdus true] s1;
  mret ((ps_peer (slot s1 1), cist_view s1 1), (ps_peer (slot s2 1), cist_view s2 1)).

(** mstpw_port_delete leaves the frames for the port in the queue, and the next port to
    get its handle receives them: here a port that never had a cable hears the bridge at
    the other end of the one its predecessor had, and becomes the Root port. *)
Theorem new_port_hears_old_cable :
  replaced_history = Some ((-1, (role_code roleDesignated, BR_STATE_BLOCKING)), (-1, root_forwarding)).
Proof. vm_compute. reflexivity. Qed.

(** ** The hypotheses of the theorems on the simulation can hold *)

Lemma option_holds {A} (o : option A) (f : A → bool) :
  match o with Some s => f s | None => false end = true → ∃ s, o = Some s ∧ f s = true.
Proof. destruct o; [eauto|done]. Qed.

(** One bridge, with a cable between its two ports. *)
Definition looped : list api :=
  [ApiBridgeCreate None None; ApiPortCreate 0 None None 1 1000 true; ApiPortCreate 0 None None 2 1000 true;
   ApiLink 0 1; ApiBridgeSetEnable 0 true; ApiPortSetEnable 0 true 1000 true; ApiPortSetEnable 1 true 1000 true].

Definition up_and_queued (s : sim) : bool :=
  bool_decide (ps_prt (slot s 0) = Some (0, 1%nat)) && (length (s_queue s) =? 2)%nat &&
  bool_decide (s_calloc s = []).

Lemma looped_up :
  match run looped (new_sim []) with Some s => up_and_queued s | None => false end = true.
Proof. vm_compute. reflexivity. Qed.

Lemma looped_reachable : ∃ s, reachable_sim sample_stack zeros s ∧
  ps_prt (slot s 0) = Some (0, 1%nat) ∧ length (s_queue s) = 2%nat ∧ s_calloc s = [].
Proof.
  pose proof (option_holds (run looped (new_sim [])) up_and_queued) as E. specialize (E looped_up).
  destruct E as (s & Hr & Hs). unfold up_and_queued in Hs. exists s.
  apply andb_true_iff in Hs as [Hs H3%bool_decide_eq_true].
  apply andb_true_iff in Hs as [H1%bool_decide_eq_true H2%Nat.eqb_eq].
  split; [|exact (conj H1 (conj H2 H3))]. apply (run_reachable looped (new_sim []) s); [constructor|exact Hr].
Qed.

Lemma sim_cables_witness : ∃ s w x, reachable_sim sample_stack zeros s ∧ s_bridges s !! 0 = Some w ∧
  w_ports w !! 1%nat = Some x ∧ portEnabled x = port_carrier 0 s.
Proof.
  destruct looped_reachable as (s & Hs & Hp & _).
  destruct (sim_cables sample_stack zeros 0 (0, 1%nat) s eq_refl zeros_long Hs Hp)
    as (_ & w & x & Hw & _ & _ & Hx & _ & _ & He).
  by exists s, w, x.
Defined.

Lemma deliver_all_ends_witness :
  mstpw_deliver_bpdus zeros true (new_sim []) = NDone 0 (new_sim []) ∧ 0 <= 0 <= MSTPW_DELIVER_CAP.
Proof.
  assert (H : mstpw_deliver_bpdus zeros true (new_sim []) = NDone 0 (new_sim [])) by (vm_compute; reflexivity).
  split; [exact H|]. exact (proj2 (proj2 (deliver_all_ends zeros (new_sim [])) _ _ H)).
Defined.
