(* ===== verification/JsonText.v ===== *)
(** JSON values, their texts, and a reader of them.

    The reader knows what RFC 8259 says of objects, arrays, strings with their escapes,
    literals and whole numbers (without blanks, fractions and exponents); it finds in the
    text of any value this very value. *)
From S2P Require Import Prelude Clib Tables.

Inductive json :=
| JNull
| JBool (b : bool)
| JNum (n : Z)
| JStr (s : list Z)
| JArr (l : list json)
| JObj (fields : list (list Z * json)).

(** ** Texts *)

(** An octet in a string. *)
Definition escaped (c : Z) : list Z :=
  if c =? 34 then [92; 34] else if c =? 92 then [92; 92] else if c =? 10 then [92; 110]
  else if c =? 13 then [92; 114] else if c =? 9 then [92; 116]
  else if c <? 32 then [92; 117; 48; 48; digit_char (c / 16); digit_char (c mod 16)]
  else [c].
Definition string_text (s : list Z) : list Z := quoted (concat (map escaped s)).

Definition number_text (n : Z) : list Z := if n <? 0 then 45 :: print_u (- n) else print_u n.
Definition bool_text (b : bool) : list Z := if b then chars "true" else chars "false".

(** The texts of a list with commas between them: [first] tells that none comes before. *)
Fixpoint separated (first : bool) (l : list (list Z)) : list Z :=
  match l with
  | [] => []
  | t :: l => (if first then [] else [44]) ++ t ++ separated false l
  end.

Fixpoint json_text (j : json) : list Z :=
  match j with
  | JNull => chars "null"
  | JBool b => bool_text b
  | JNum n => number_text n
  | JStr s => string_text s
  | JArr l => 91 :: separated true (map json_text l) ++ [93]
  | JObj fields => 123 :: separated true (map (λ f, string_text f.1 ++ 58 :: json_text f.2) fields) ++ [125]
  end.

(** ** The reader *)

Definition hex_digit (c : Z) : option Z := digit_in 16 c.

Definition escape_value (e : Z) : option Z :=
  if (e =? 34) || (e =? 92) || (e =? 47) then Some e
  else if e =? 98 then Some 8 else if e =? 102 then Some 12 else if e =? 110 then Some 10
  else if e =? 114 then Some 13 else if e =? 116 then Some 9 else None.

(** A string after its first quote, and what follows the last one. *)
Fixpoint read_text (s : list Z) : option (list Z * list Z) :=
  match s with
  | [] => None
  | c :: s =>
      if c =? 34 then Some ([], s)
      else if c =? 92 then
        match s with
        | [] => None
        | e :: s =>
            if e =? 117 then
              match s with
              | h1 :: h2 :: h3 :: h4 :: s =>
                  d1 ← hex_digit h1; d2 ← hex_digit h2; d3 ← hex_digit h3; d4 ← hex_digit h4;
                  r ← read_text s; Some (((d1 * 16 + d2) * 16 + d3) * 16 + d4 :: r.1, r.2)
              | _ => None
              end
            else v ← escape_value e; r ← read_text s; Some (v :: r.1, r.2)
        end
      else if c <? 32 then None
      else r ← read_text s; Some (c :: r.1, r.2)
  end.

Definition read_number (s : list Z) : option (Z * list Z) :=
  match s with
  | 45 :: s => if starts_digit 10 s then let '(v, s) := scan_digits 10 0 s in Some (- v, s) else None
  | _ => if starts_digit 10 s then Some (scan_digits 10 0 s) else None
  end.

Definition read_literal (s : list Z) : option (json * list Z) :=
  match s with
  | 110 :: 117 :: 108 :: 108 :: s => Some (JNull, s)
  | 116 :: 114 :: 117 :: 101 :: s => Some (JBool true, s)
  | 102 :: 97 :: 108 :: 115 :: 101 :: s => Some (JBool false, s)
  | _ => '(v, s) ← read_number s; Some (JNum v, s)
  end.

Section items.
Context {A} (rd : list Z → option (A * list Z)) (close : Z).

(** At most [n] items, at least one, up to the closing bracket. *)
Fixpoint read_items (n : nat) (s : list Z) : option (list A * list Z) :=
  match n with
  | O => None
  | S n =>
      r ← rd s;
      match r.2 with
      | c :: s =>
          if c =? close then Some ([r.1], s)
          else if c =? 44 then q ← read_items n s; Some (r.1 :: q.1, q.2)
          else None
      | [] => None
      end
  end.

Definition read_closed (n : nat) (s : list Z) : option (list A * list Z) :=
  match s with
  | c :: s' => if c =? close then Some ([], s') else read_items n s
  | [] => None
  end.
End items.

Definition read_field (rd : list Z → option (json * list Z)) (s : list Z) : option ((list Z * json) * list Z) :=
  match s with
  | 34 :: s =>
      r ← read_text s;
      match r.2 with
      | 58 :: s => v ← rd s; Some ((r.1, v.1), v.2)
      | _ => None
      end
  | _ => None
  end.

Fixpoint read_json (fuel : nat) (s : list Z) : option (json * list Z) :=
  match fuel with
  | O => None
  | S fuel =>
      match s with
      | 34 :: s => r ← read_text s; Some (JStr r.1, r.2)
      | 91 :: s => r ← read_closed (read_json fuel) 93 fuel s; Some (JArr r.1, r.2)
      | 123 :: s => r ← read_closed (read_field (read_json fuel)) 125 fuel s; Some (JObj r.1, r.2)
      | _ => read_literal s
      end
  end.

(** The value of a whole text. *)
Definition parse_json (s : list Z) : option json :=
  match read_json (S (length s)) s with Some (j, []) => Some j | _ => None end.

(** ** The reader reads what is written *)

(** Numbers a [printf] can write, and octets in the strings. *)
Definition octets_ok (s : list Z) : Prop := Forall (λ c, 0 <= c) s.
Fixpoint json_ok (j : json) : Prop :=
  match j with
  | JNull | JBool _ => True
  | JNum n => - 2 ^ 63 <= n < 2 ^ 63
  | JStr s => octets_ok s
  | JArr l => foldr and True (map json_ok l)
  | JObj fields => foldr and True (map (λ f, octets_ok f.1 ∧ json_ok f.2) fields)
  end.

Section json_induction.
Context (P : json → Prop) (Hnull : P JNull) (Hbool : ∀ b, P (JBool b)) (Hnum : ∀ n, P (JNum n))
  (Hstr : ∀ s, P (JStr s)) (Harr : ∀ l, Forall P l → P (JArr l))
  (Hobj : ∀ l : list (list Z * json), Forall (λ f, P f.2) l → P (JObj l)).

Fixpoint json_induction (j : json) : P j :=
  match j with
  | JNull => Hnull
  | JBool b => Hbool b
  | JNum n => Hnum n
  | JStr s => Hstr s
  | JArr l => Harr l ((fix go l : Forall P l :=
      match l with [] => Forall_nil_2 _ | j :: l => Forall_cons_2 _ _ _ (json_induction j) (go l) end) l)
  | JObj l => Hobj l ((fix go l : Forall (λ f, P f.2) l :=
      match l with [] => Forall_nil_2 _ | f :: l => Forall_cons_2 _ _ _ (json_induction f.2) (go l) end) l)
  end.
End json_induction.

Lemma foldr_and {A} (Q : A → Prop) l : foldr and True (map Q l) ↔ Forall Q l.
Proof. induction l as [|x l IH]; cbn; [by split|]. by rewrite IH, Forall_cons. Qed.

(** *** Strings *)

Lemma hex_digit_char d : 0 <= d < 16 → hex_digit (digit_char d) = Some d.
Proof. intros Hd. by apply digit_in_char. Qed.

Lemma read_escaped c s rest t : 0 <= c → read_text s = Some (t, rest) →
  read_text (escaped c ++ s) = Some (c :: t, rest).
Proof.
  intros Hc Hs. unfold escaped.
  repeat match goal with |- context [if c =? ?n then _ else _] => destruct (Z.eqb_spec c n) as [->|] end.
  1-5: cbn; by rewrite Hs.
  destruct (Z.ltb_spec c 32) as [Hl|Hl].
  - pose proof (Z.div_mod c 16 ltac:(lia)). pose proof (Z.mod_pos_bound c 16 ltac:(lia)).
    assert (0 <= c / 16 < 16) by lia.
    change ((d3 ← hex_digit (digit_char (c / 16)); d4 ← hex_digit (digit_char (c mod 16));
            r ← read_text s; Some ((0 * 16 + d3) * 16 + d4 :: r.1, r.2)) = Some (c :: t, rest)).
    rewrite !hex_digit_char, Hs by done. cbn [mbind option_bind fst snd].
    by replace ((0 * 16 + c / 16) * 16 + c mod 16) with c by lia.
  - cbn. rewrite (proj2 (Z.eqb_neq c 34)), (proj2 (Z.eqb_neq c 92)), (proj2 (Z.ltb_ge c 32)) by done.
    by rewrite Hs.
Qed.

Lemma read_string_text s rest : octets_ok s →
  read_text (concat (map escaped s) ++ 34 :: rest) = Some (s, rest).
Proof.
  induction 1 as [|c s Hc Hs IH]; [done|]. cbn [map concat]. rewrite <- app_assoc. by apply read_escaped.
Qed.

Lemma string_text_app s rest : string_text s ++ rest = 34 :: concat (map escaped s) ++ 34 :: rest.
Proof. unfold string_text, quoted, DQUOTE. cbn. by rewrite <- app_assoc. Qed.

(** *** Numbers *)

Definition stops (rest : list Z) : Prop := starts_digit 10 rest = false.

Lemma print_u_scans v tail : 0 <= v < 2 ^ 64 → stops tail →
  starts_digit 10 (print_u v ++ tail) = true ∧ scan_digits 10 0 (print_u v ++ tail) = (v, tail).
Proof.
  intros Hv Ht. destruct (scan_print_digits 64 10 v [] tail 0) as (l & Hl & Hs & Hscan); [lia| |lia|].
  { split; [lia|]. eapply Z.lt_le_trans; [apply Hv|]. by vm_compute. }
  unfold print_u. rewrite Hl, app_nil_r. split; [done|].
  by rewrite Hscan, Z.mul_0_l, Z.add_0_l, scan_digits_stop.
Qed.

(** What starts with a digit is neither a literal nor anything in brackets or quotes. *)
Lemma read_literal_digit s : starts_digit 10 s = true →
  read_literal s = Some (JNum (scan_digits 10 0 s).1, (scan_digits 10 0 s).2).
Proof.
  intros Hs. pose proof Hs as Hd. destruct (starts_digit_inv _ _ Hd) as (c & s' & d & -> & Hc%digit_in_10).
  unfold is_digit in Hc. apply andb_true_iff in Hc as [H1%Z.leb_le H2%Z.leb_le].
  assert (Hn : read_number (c :: s') = Some (scan_digits 10 0 (c :: s'))).
  { unfold read_number. rewrite Hs. destruct (Z.eqb_spec c 45); [lia|].
    repeat case_match; try done; lia. }
  unfold read_literal. rewrite Hn. cbn [mbind option_bind]. destruct (scan_digits 10 0 (c :: s')).
  repeat case_match; try done; lia.
Qed.

Lemma number_text_reads n rest : - 2 ^ 63 <= n < 2 ^ 63 → stops rest →
  read_literal (number_text n ++ rest) = Some (JNum n, rest).
Proof.
  intros Hn Hr. unfold number_text. destruct (Z.ltb_spec n 0).
  - destruct (print_u_scans (- n) rest ltac:(lia) Hr) as [Hd Hs].
    cbn [app read_literal read_number]. rewrite Hd, Hs. cbn. by rewrite Z.opp_involutive.
  - destruct (print_u_scans n rest ltac:(lia) Hr) as [Hd Hs]. by rewrite read_literal_digit, Hs.
Qed.

Lemma print_digits_nonempty fuel v acc : print_digits (S fuel) 10 v acc ≠ [].
Proof.
  revert v acc. induction fuel as [|fuel IH]; intros v acc; cbn [print_digits]; [by destruct (_ =? 0)|].
  destruct (_ =? 0); [done|]. apply IH.
Qed.

Lemma number_text_head n : ∃ c t, number_text n = c :: t ∧ c ≠ 34 ∧ c ≠ 91 ∧ c ≠ 123.
Proof.
  unfold number_text. destruct (Z.ltb_spec n 0); [by eexists _, _|].
  assert (Hd : Forall (λ c, is_digit c = true) (print_u n)) by (apply print_u_digits; [done|lia]).
  destruct (print_u n) as [|c t] eqn:Hp; [by apply print_digits_nonempty in Hp|].
  exists c, t. apply Forall_cons in Hd as [Hc _]. unfold is_digit in Hc. split; [done|]. lia.
Qed.

(** *** Items *)

(** [rd] reads the text of [x], whatever stops it, with fuel for texts as long. *)
Definition reads {A} (rd : list Z → option (A * list Z)) (t : list Z) (x : A) : Prop :=
  ∀ rest, stops rest → rd (t ++ rest) = Some (x, rest).

Lemma separated_cons first t l : separated first (t :: l) = (if first then [] else [44]) ++ t ++ separated false l.
Proof. done. Qed.

Lemma stops_separated l close rest : (close = 93 ∨ close = 125) → stops (separated false l ++ close :: rest).
Proof. destruct l as [|t l]; [|done]. by intros [-> | ->]. Qed.

Lemma read_items_reads {A} (rd : list Z → option (A * list Z)) close (tx : A → list Z) l :
  (close = 93 ∨ close = 125) → Forall (λ x, reads rd (tx x) x) l → l ≠ [] → ∀ n rest, (length l <= n)%nat →
  read_items rd close n (separated true (map tx l) ++ close :: rest) = Some (l, rest).
Proof.
  intros Hc. induction l as [|x l IH]; [done|]. intros [Hx Hl]%Forall_cons _ n rest Hn.
  destruct n as [|n]; [cbn in Hn; lia|]. cbn [length] in Hn.
  cbn [map separated read_items app]. rewrite <- app_assoc, Hx by by apply stops_separated.
  cbn [mbind option_bind fst snd]. destruct l as [|y l].
  - cbn [map separated app]. by rewrite Z.eqb_refl.
  - cbn [map separated app]. change (44 =? 44) with true. destruct (Z.eqb_spec 44 close); [lia|].
    change (tx y ++ separated false (map tx l)) with (separated true (map tx (y :: l))).
    rewrite IH; [done|done|done|]. lia.
Qed.

(** No text is empty. *)
Lemma length_separated {A} (tx : A → list Z) l : Forall (λ x, tx x ≠ []) l → ∀ first,
  (length l <= length (separated first (map tx l)))%nat ∧
  Forall (λ x, length (tx x) <= length (separated first (map tx l)))%nat l.
Proof.
  induction 1 as [|x l Hx Hl IH]; intros first; [by split|]. destruct (IH false) as [H1 H2].
  assert (0 < length (tx x))%nat by (destruct (tx x); [done|cbn; lia]).
  cbn [map separated length]. rewrite !length_app. split; [lia|]. constructor; [lia|].
  eapply Forall_impl; [exact H2|]. cbn. intros; lia.
Qed.

Lemma read_closed_reads {A} (rd : list Z → option (A * list Z)) close (tx : A → list Z) l n rest :
  (close = 93 ∨ close = 125) → Forall (λ x, reads rd (tx x) x) l → Forall (λ x, tx x ≠ []) l →
  Forall (λ x, head (tx x) ≠ Some close) l → (length l <= n)%nat →
  read_closed rd close n (separated true (map tx l) ++ close :: rest) = Some (l, rest).
Proof.
  intros Hc Hl Hne Hh Hn. unfold read_closed. destruct l as [|x l].
  { cbn [map separated app]. by rewrite Z.eqb_refl. }
  rewrite <- (read_items_reads rd close tx (x :: l) Hc Hl ltac:(done) n rest Hn).
  apply Forall_cons in Hh as [Hx _]. apply Forall_cons in Hne as [Hne _].
  cbn [map separated app]. destruct (tx x) as [|c t]; [done|]. cbn [app].
  destruct (Z.eqb_spec c close) as [->|]; [by destruct Hx|done].
Qed.

(** *** Values *)

Lemma json_text_head j : ∃ c t, json_text j = c :: t ∧ c ≠ 93 ∧ c ≠ 125.
Proof.
  destruct j as [|[]|n|s|l|l]; cbn [json_text]; try (eexists _, _; split; [reflexivity|done]).
  unfold number_text. destruct (Z.ltb_spec n 0); [by eexists _, _|].
  assert (Hd : Forall (λ c, is_digit c = true) (print_u n)) by (apply print_u_digits; [done|lia]).
  destruct (print_u n) as [|c t] eqn:Hp; [by apply print_digits_nonempty in Hp|].
  exists c, t. apply Forall_cons in Hd as [Hc _]. unfold is_digit in Hc. split; [done|]. lia.
Qed.

Lemma json_text_nonempty j : json_text j ≠ [].
Proof. destruct (json_text_head j) as (c & t & -> & _). done. Qed.

Definition field_text (f : list Z * json) : list Z := string_text f.1 ++ 58 :: json_text f.2.

Lemma read_field_reads rd f : octets_ok f.1 → reads rd (json_text f.2) f.2 → reads (read_field rd) (field_text f) f.
Proof.
  intros Hf Hr rest Hs. unfold field_text. rewrite <- app_assoc, string_text_app. unfold read_field.
  rewrite read_string_text by done. cbn [mbind option_bind fst snd app]. rewrite Hr by done. by destruct f.
Qed.

Lemma read_json_text j : ∀ fuel, json_ok j → (length (json_text j) < fuel)%nat →
  reads (read_json fuel) (json_text j) j.
Proof.
  induction j as [|b|n|s|l IH|l IH] using json_induction; intros fuel Hok Hf rest Hr;
    (destruct fuel as [|fuel]; [lia|]); cbn [json_text] in *.
  - done.
  - by destruct b.
  - destruct (number_text_head n) as (c & t & Hn & H1 & H2 & H3).
    pose proof (number_text_reads n rest Hok Hr) as E. rewrite Hn in *. cbn [app read_json] in *.
    rewrite <- E. repeat case_match; done.
  - rewrite string_text_app. cbn [read_json]. by rewrite read_string_text.
  - cbn [json_ok] in Hok. apply foldr_and in Hok. cbn [length] in Hf. rewrite length_app in Hf.
    assert (Hne : Forall (λ j, json_text j ≠ []) l) by (apply Forall_forall; intros; apply json_text_nonempty).
    destruct (length_separated json_text l Hne true) as [H1 H2].
    cbn [app read_json]. rewrite <- app_assoc. cbn [app]. rewrite read_closed_reads; [done|by left| |done| |lia].
    + apply Forall_forall. intros j Hj. rewrite Forall_forall in IH, Hok, H2. apply IH; [done|by apply Hok|].
      specialize (H2 j Hj). cbn in H2. lia.
    + apply Forall_forall. intros j _. destruct (json_text_head j) as (c & t & -> & Hc & _). cbn. congruence.
  - cbn [json_ok] in Hok. apply foldr_and in Hok. cbn [length] in Hf. rewrite length_app in Hf.
    change (λ f, string_text f.1 ++ 58 :: json_text f.2) with field_text in *.
    assert (Hne : Forall (λ f, field_text f ≠ []) l).
    { apply Forall_forall. intros f _. unfold field_text, string_text, quoted. done. }
    destruct (length_separated field_text l Hne true) as [H1 H2].
    cbn [app read_json]. rewrite <- app_assoc. cbn [app]. rewrite read_closed_reads; [done|by right| |done| |lia].
    + apply Forall_forall. intros f Hj. rewrite Forall_forall in IH, Hok, H2.
      destruct (Hok f Hj) as [Hk Hv]. apply read_field_reads; [done|]. apply IH; [done|done|].
      specialize (H2 f Hj). cbv beta in H2. unfold field_text at 1 in H2. rewrite length_app in H2.
      cbn [length] in H2. lia.
    + apply Forall_forall. intros f _. done.
Qed.

Lemma parse_json_text j : json_ok j → parse_json (json_text j) = Some j.
Proof.
  intros Hj. unfold parse_json.
  pose proof (read_json_text j (S (length (json_text j))) Hj ltac:(lia) [] eq_refl) as H.
  rewrite app_nil_r in H. by rewrite H.
Qed.
