(* ===== verification/Builder.v ===== *)
(** The string builder of wasm_api.c and the JSON documents of the simulation's API.

    The builder has a heap buffer that is doubled as the text grows.  Its allocations have
    the outcomes to come of the simulation.  The getters of the protocol code are run in
    the world of their bridge and change nothing there. *)
From S2P Require Import Prelude Types Monad Clib Vectors Outputs Wire Bridge Mgmt Kernel Track.
From S2P Require Import Tables Sim.

(** ** sb_t

    [sb_buf] is the size of the allocation [buf] points to; its octets are the text, a NUL,
    and whatever the heap held.  [len] is the length of the text. *)
Record sb_t := mk_sb {
  sb_buf : option Z;
  sb_text : list Z;
  sb_cap : Z
}.
#[export] Instance eta_sb : Eta sb_t := λ r, mk_sb (sb_buf r) (sb_text r) (sb_cap r).
#[export] Instance set_sb_buf : Setter sb_buf := ltac:(build_setter).
#[export] Instance set_sb_text : Setter sb_text := ltac:(build_setter).
#[export] Instance set_sb_cap : Setter sb_cap := ltac:(build_setter).

Definition sb_len (s : sb_t) : Z := Z.of_nat (length (sb_text s)).

Definition sb_init : N sb_t := ok ← nalloc; mret (mk_sb (if (ok : bool) then Some 1024 else None) [] 1024).

(** [while(need > cap) cap *= 2;] where a [size_t] has 32 bits. *)
Fixpoint sb_double (fuel : nat) (need cap : Z) : option Z :=
  if cap <? need then
    match fuel with O => None | S fuel => sb_double fuel need (u32 (cap * 2)) end
  else Some cap.

(** [vsnprintf(s->buf + s->len, n + 1, fmt, ap2)] *)
Definition sb_append (t : list Z) (s : sb_t) : N sb_t :=
  match sb_buf s with
  | Some room =>
      if sb_len s + Z.of_nat (length t) + 1 <=? room then mret (s <| sb_text ::= λ x, x ++ t |>) else nfault
  | None => nfault
  end.

(** [t] is what the format and its arguments make. *)
Definition sb_printf (t : list Z) (s : sb_t) : N sb_t :=
  match sb_buf s with
  | None => mret s
  | Some _ =>
      let n := Z.of_nat (length t) in
      if INT_MAX <? n then mret s else
      let need := u32 (sb_len s + n + 1) in
      if sb_cap s <? need then
        match sb_double 32 need (sb_cap s) with
        | None => n_out_of_fuel
        | Some cap =>
            ok ← nalloc;
            let s := s <| sb_cap := cap |> in
            if negb ok then mret s else sb_append t (s <| sb_buf := Some cap |>)
        end
      else sb_append t s
  end.

(** The string the API returns: NULL if there was no memory. *)
Definition sb_result (s : sb_t) : option (list Z) :=
  match sb_buf s with Some _ => Some (sb_text s) | None => None end.

(** ** Values

    A builder together with [first]. *)
Definition field_state : Type := sb_t * bool.

(** The body of a loop, which passes the builder on. *)
Fixpoint nfold {A S} (body : A → S → N S) (l : list A) (o : S) : N S :=
  match l with
  | [] => mret o
  | x :: l => o ← body x o; nfold body l o
  end.

(** One octet of [sb_json_str]. *)
Definition sb_json_octet (c : Z) (s : sb_t) : N sb_t :=
  let c := u8 c in
  if c =? 34 then sb_printf [92; 34] s else
  if c =? 92 then sb_printf [92; 92] s else
  if c =? 10 then sb_printf [92; 110] s else
  if c =? 13 then sb_printf [92; 114] s else
  if c =? 9 then sb_printf [92; 116] s else
  if c <? 32 then sb_printf [92; 117; 48; 48; digit_char (c / 16); digit_char (c mod 16)] s else
  sb_printf [c] s.

Definition sb_json_str (str : list Z) (s : sb_t) : N sb_t :=
  s ← sb_printf [DQUOTE] s;
  s ← nfold sb_json_octet (until_nul str) s;
  sb_printf [DQUOTE] s.

Definition sb_key (key : string) (o : field_state) : N field_state :=
  let '(s, first) := o in
  s ← sb_printf ((if (first : bool) then [] else [44]) ++ quoted (chars key) ++ [58]) s;
  mret (s, false).

(** A key, and what [value] writes. *)
Definition sb_kv (key : string) (value : sb_t → N sb_t) (o : field_state) : N field_state :=
  r ← sb_key key o; s ← value r.1; mret (s, r.2).

(** A [long] has 32 bits, as has an [unsigned long]. *)
Definition print_d (v : Z) : list Z := if v <? 0 then 45 :: print_u (- v) else print_u v.
Definition sb_kv_uint (key : string) (v : Z) : field_state → N field_state :=
  sb_kv key (sb_printf (print_u (u32 v))).
Definition sb_kv_int (key : string) (v : Z) : field_state → N field_state :=
  sb_kv key (sb_printf (print_d (s32 v))).
Definition sb_kv_bool (key : string) (v : bool) : field_state → N field_state :=
  sb_kv key (sb_printf (if v then chars "true" else chars "false")).
Definition sb_kv_str (key : string) (v : list Z) : field_state → N field_state :=
  sb_kv key (sb_json_str v).

(** "%02x" *)
Definition hex2 (v : Z) : list Z := [digit_char (u8 v / 16); digit_char (u8 v mod 16)].

Definition sb_kv_hex (key : string) (data : list Z) : field_state → N field_state :=
  sb_kv key (λ s,
    s ← sb_printf [DQUOTE] s;
    s ← nfold (λ c, sb_printf (hex2 c)) data s;
    sb_printf [DQUOTE] s).

Fixpoint mac_text (m : list Z) : list Z :=
  match m with
  | [] => []
  | [x] => hex2 x
  | x :: m => hex2 x ++ 58 :: mac_text m
  end.
Definition bridge_id_text (id : bridge_identifier_t) : list Z :=
  print_u (u16 (priority id)) ++ 46 :: mac_text (mac_address id).
Definition sb_bridge_id (key : string) (id : bridge_identifier_t) : field_state → N field_state :=
  sb_kv_str key (bridge_id_text id).

Definition sb_port_id (key : string) (pid : Z) (o : field_state) : N field_state :=
  let v := u16 pid in
  o ← sb_kv_uint key v o;
  sb_kv_uint (key ++ "_number")%string (Z.land v 0x0FFF) o.

(** ** Names *)

Definition role_name (r : port_role_t) : string :=
  match r with
  | roleDisabled => "Disabled" | roleRoot => "Root" | roleDesignated => "Designated"
  | roleAlternate => "Alternate" | roleBackup => "Backup" | roleMaster => "Master"
  end.
Definition state_name (state : Z) : string :=
  if state =? BR_STATE_DISABLED then "disabled" else
  if state =? BR_STATE_LISTENING then "listening" else
  if state =? BR_STATE_LEARNING then "learning" else
  if state =? BR_STATE_FORWARDING then "forwarding" else
  if state =? BR_STATE_BLOCKING then "blocking" else "unknown".
Definition protocol_version_name (v : Z) : string :=
  if v =? protoSTP then "stp" else if v =? protoRSTP then "rstp" else if v =? protoMSTP then "mstp"
  else "unknown".
Definition admin_p2p_name (p2p : Z) : string :=
  if p2p =? p2pAuto then "auto" else if p2p =? p2pForceTrue then "yes"
  else if p2p =? p2pForceFalse then "no" else "unknown".

(** ** Documents *)

(** What a getter returns in the world of the bridge. *)
Definition query (brh : Z) {A} (m : M A) : N A := λ s,
  match s_bridges s !! brh with
  | None => NFault
  | Some w => match m (lend_to s w) with Done a _ => NDone a s | Fault => NFault | OutOfFuel => NOutOfFuel end
  end.

(** ["%s{"], a comma first unless nothing comes before. *)
Definition sb_open (first : bool) (s : sb_t) : N sb_t := sb_printf ((if first then [] else [44]) ++ [123]) s.

(** The MSTIs of a port; the state is the builder and [mfirst]. *)
Definition json_port_msti (brh : Z) (k : ptp_id) (o : field_state) : N field_state :=
  let '(s, mfirst) := o in
  if ptp_MSTID k =? 0 then mret (s, mfirst) else
  mst ← query brh (MSTP_IN_get_msti_port_status k);
  s ← sb_open mfirst s;
  o ← sb_kv_uint "mstid" (ptp_MSTID k) (s, true);
  o ← sb_kv_str "role" (chars (role_name (mps_role mst))) o;
  o ← sb_kv_str "state" (chars (state_name (mps_state mst))) o;
  o ← sb_kv_uint "admin_internal_path_cost" (mps_admin_internal_port_path_cost mst) o;
  o ← sb_kv_uint "internal_path_cost" (mps_internal_port_path_cost mst) o;
  o ← sb_kv_bool "disputed" (mps_disputed mst) o;
  s ← sb_printf [125] o.1;
  mret (s, false).

Definition json_port_cist (brh : Z) (cist : option ptp_id) (o : field_state) : N field_state :=
  match cist with
  | None => mret o
  | Some k =>
      x ← query brh (get_ptp k);
      o ← sb_kv_bool "proposing" (proposing x) o;
      o ← sb_kv_bool "proposed" (proposed x) o;
      o ← sb_kv_bool "agree" (agree x) o;
      o ← sb_kv_bool "agreed" (agreed x) o;
      o ← sb_kv_bool "sync" (sync x) o;
      o ← sb_kv_bool "synced" (synced x) o;
      sb_kv_bool "re_root" (reRoot x) o
  end.

Definition json_port (porth : Z) (s : sb_t) : N sb_t :=
  p ← get_slot porth;
  match ps_prt p with
  | None => nfault
  | Some prt =>
      x ← read_prt prt;
      st ← query prt.1 (MSTP_IN_get_cist_port_status prt.2);
      s ← sb_printf [123] s;
      o ← sb_kv_int "handle" porth (s, true);
      o ← sb_kv_str "name" (chars (name (prt_sysdeps x))) o;
      o ← sb_kv_int "peer" (ps_peer p) o;
      o ← sb_kv_bool "up" (up (prt_sysdeps x)) o;
      o ← sb_port_id "port_id" (cps_port_id st) o;
      o ← sb_kv_str "role" (chars (role_name (cps_role st))) o;
      o ← sb_kv_str "state" (chars (state_name (cps_state st))) o;
      o ← sb_kv_bool "admin_edge" (cps_admin_edge_port st) o;
      o ← sb_kv_bool "auto_edge" (cps_auto_edge_port st) o;
      o ← sb_kv_bool "oper_edge" (cps_oper_edge_port st) o;
      o ← sb_kv_str "admin_p2p" (chars (admin_p2p_name (cps_admin_p2p st))) o;
      o ← sb_kv_bool "oper_p2p" (cps_oper_p2p st) o;
      o ← sb_kv_bool "bpdu_guard_port" (cps_bpdu_guard_port st) o;
      o ← sb_kv_bool "bpdu_guard_error" (cps_bpdu_guard_error st) o;
      o ← sb_kv_bool "restricted_role" (cps_restricted_role st) o;
      o ← sb_kv_bool "restricted_tcn" (cps_restricted_tcn st) o;
      o ← sb_kv_bool "disputed" (cps_disputed st) o;
      o ← sb_kv_bool "network_port" (cps_network_port st) o;
      o ← sb_kv_bool "ba_inconsistent" (cps_ba_inconsistent st) o;
      o ← sb_kv_bool "send_rstp" (cps_sendRSTP st) o;
      cist ← query prt.1 (find_ptp prt.2 0);
      o ← json_port_cist prt.1 cist o;
      o ← sb_kv_uint "admin_external_path_cost" (cps_admin_external_port_path_cost st) o;
      o ← sb_kv_uint "external_path_cost" (cps_external_port_path_cost st) o;
      o ← sb_kv_uint "internal_path_cost" (cps_internal_port_path_cost st) o;
      o ← sb_bridge_id "designated_root" (cps_designated_root st) o;
      o ← sb_bridge_id "designated_bridge" (cps_designated_bridge st) o;
      o ← sb_port_id "designated_port" (cps_designated_port st) o;
      o ← sb_kv_uint "designated_external_cost" (cps_designated_external_cost st) o;
      o ← sb_kv_uint "tx_bpdu" (cps_num_tx_bpdu st) o;
      o ← sb_kv_uint "rx_bpdu" (cps_num_rx_bpdu st) o;
      o ← sb_kv_uint "tx_tcn" (cps_num_tx_tcn st) o;
      o ← sb_kv_uint "rx_tcn" (cps_num_rx_tcn st) o;
      o ← sb_key "mstis" o;
      s ← sb_printf [91] o.1;
      ks ← query prt.1 (ptps_of_port prt.2);
      o ← nfold (json_port_msti prt.1) ks (s, true);
      sb_printf [93; 125] o.1
  end.

(** The ports of the bridge; the state is the builder and [pfirst]. *)
Definition json_bridge_port (brh i : Z) (o : field_state) : N field_state :=
  let '(s, pfirst) := o in
  p ← get_slot i;
  if bool_decide (ps_prt p = None) || negb (ps_brh p =? brh) then mret (s, pfirst) else
  s ← (if pfirst then mret s else sb_printf [44] s);
  s ← json_port i s;
  mret (s, false).

Definition json_bridge_msti (brh : Z) (t : tree_id) (o : field_state) : N field_state :=
  let '(s, mfirst) := o in
  if t =? 0 then mret (s, mfirst) else
  mst ← query brh (MSTP_IN_get_msti_bridge_status t);
  s ← sb_open mfirst s;
  o ← sb_kv_uint "mstid" t (s, true);
  o ← sb_bridge_id "regional_root" (mbs_regional_root mst) o;
  o ← sb_kv_uint "internal_path_cost" (mbs_internal_path_cost mst) o;
  s ← sb_printf [125] o.1;
  mret (s, false).

Definition json_bridge (brh : Z) (s : sb_t) : N sb_t :=
  st ← query brh MSTP_IN_get_cist_bridge_status;
  br ← query brh get_br;
  s ← sb_printf [123] s;
  o ← sb_kv_int "handle" brh (s, true);
  o ← sb_kv_str "name" (chars (br_name (br_sysdeps br))) o;
  o ← sb_kv_bool "enabled" (cbs_enabled st) o;
  o ← sb_bridge_id "bridge_id" (cbs_bridge_id st) o;
  o ← sb_bridge_id "designated_root" (cbs_designated_root st) o;
  o ← sb_kv_uint "root_path_cost" (cbs_root_path_cost st) o;
  o ← sb_bridge_id "regional_root" (cbs_regional_root st) o;
  o ← sb_kv_uint "internal_path_cost" (cbs_internal_path_cost st) o;
  o ← sb_kv_bool "is_root" (ncmp_bridge_id (cbs_bridge_id st) (cbs_designated_root st) =? 0) o;
  o ← sb_kv_bool "topology_change" (cbs_topology_change st) o;
  o ← sb_kv_uint "topology_change_count" (cbs_topology_change_count st) o;
  o ← sb_kv_uint "max_age" (cbs_bridge_max_age st) o;
  o ← sb_kv_uint "forward_delay" (cbs_bridge_forward_delay st) o;
  o ← sb_kv_uint "hello_time" (cbs_bridge_hello_time st) o;
  o ← sb_kv_uint "max_hops" (cbs_max_hops st) o;
  o ← sb_kv_uint "tx_hold_count" (cbs_tx_hold_count st) o;
  o ← sb_kv_str "protocol_version" (chars (protocol_version_name (cbs_protocol_version st))) o;
  let id := MstConfigId br in
  o ← sb_kv_str "mst_config_name" (configuration_name id) o;
  o ← sb_kv_uint "mst_config_revision" (u16 (revision_level id)) o;
  o ← sb_key "ports" o;
  s ← sb_printf [91] o.1;
  p ← nfold (json_bridge_port brh) (zrange 0 (MSTPW_MAX_PORTS - 1)) (s, true);
  s ← sb_printf [93] p.1;
  o ← sb_key "mstis" (s, false);
  s ← sb_printf [91] o.1;
  ts ← query brh trees_of_bridge;
  o ← nfold (json_bridge_msti brh) ts (s, true);
  sb_printf [93; 125] o.1.

(** ** The getters of the API *)

Definition NULL_TEXT : list Z := chars "null".

Definition mstpw_bridge_json (brh : Z) : N (option (list Z)) :=
  s ← sb_init;
  w ← nread;
  s ← (if negb (br_handle_ok brh w) then sb_printf NULL_TEXT s else json_bridge brh s);
  mret (sb_result s).

Definition mstpw_port_json (porth : Z) : N (option (list Z)) :=
  s ← sb_init;
  w ← nread;
  s ← (if negb (port_handle_ok porth w) then sb_printf NULL_TEXT s else json_port porth s);
  mret (sb_result s).

Definition json_topology_bridge (i : Z) (o : field_state) : N field_state :=
  let '(s, bfirst) := o in
  w ← nread;
  if bool_decide (s_bridges w !! i = None) then mret (s, bfirst) else
  s ← (if bfirst then mret s else sb_printf [44] s);
  s ← json_bridge i s;
  mret (s, false).

Definition mstpw_topology_json : N (option (list Z)) :=
  s ← sb_init;
  s ← sb_printf [123] s;
  w ← nread;
  o ← sb_kv_uint "frames_delivered" (s_delivered w) (s, true);
  o ← sb_key "bridges" o;
  s ← sb_printf [91] o.1;
  o ← nfold json_topology_bridge (zrange 0 (MSTPW_MAX_BRIDGES - 1)) (s, true);
  s ← sb_printf [93; 125] o.1;
  mret (sb_result s).

(** A frame in the queue, whose header is read where it lies: version, type and flags are
    octets 2, 3 and 4. *)
Definition json_queued (since : Z) (f : frame_t) (o : field_state) : N field_state :=
  let '(s, first_frame) := o in
  if f_seq f <=? since then mret (s, first_frame) else
  match f_data f with
  | _ :: _ :: version :: type :: rest =>
      let rst := type =? bpduTypeRST in
      let tcn := (version =? protoSTP) && (type =? bpduTypeTCN) in
      let fl := default 0 (head rest) in
      if (rst || negb tcn) && bool_decide (rest = []) then nfault else
      s ← sb_open first_frame s;
      o ← sb_kv_uint "seq" (f_seq f) (s, true);
      o ← sb_kv_int "src" (f_src f) o;
      o ← sb_kv_int "dst" (f_dst f) o;
      o ← sb_kv_bool "proposal" (rst && flag_set fl offsetProposal) o;
      o ← sb_kv_bool "agreement" (rst && flag_set fl offsetAgreement) o;
      o ← sb_kv_bool "tc" (tcn || flag_set fl offsetTc) o;
      s ← sb_printf [125] o.1;
      mret (s, false)
  | _ => nfault
  end.

Definition mstpw_queued_json (since : Z) : N (option (list Z)) :=
  s ← sb_init;
  s ← sb_printf [91] s;
  w ← nread;
  o ← nfold (json_queued (u32 since)) (s_queue w) (s, true);
  s ← sb_printf [93] o.1;
  mret (sb_result s).

(** The MAC address of a port, if the handle is good. *)
Definition mac_of (h : Z) : N (option (list Z)) :=
  w ← nread;
  if negb (port_handle_ok h w) then mret None else
  match ps_prt (slot w h) with
  | Some prt => x ← read_prt prt; mret (Some (macaddr (prt_sysdeps x)))
  | None => nfault
  end.

Definition names_of (h : Z) (o : field_state) : N field_state :=
  w ← nread;
  if negb (port_handle_ok h w) then mret o else
  match ps_prt (slot w h) with
  | None => nfault
  | Some prt =>
      x ← read_prt prt;
      o ← sb_kv_str "port_name" (chars (name (prt_sysdeps x))) o;
      let br := match s_bridges w !! ps_brh (slot w h) with
                | Some v => chars (br_name (br_sysdeps (w_br v)))
                | None => []
                end in
      sb_kv_str "bridge" br o
  end.

(** Whether the frames sent from this address are asked for. *)
Definition on_link (filter : bool) (localmac peermac : option (list Z)) (src : list Z) : bool :=
  negb filter ||
  match localmac with
  | None => false
  | Some local => bool_decide (src = local) || bool_decide (Some src = peermac)
  end.

Definition json_captured (wanted : list Z → bool) (i : Z) (o : field_state) : N field_state :=
  let '(s, first_frame) := o in
  w ← nread;
  let g := s_capture w in
  match cap_ring g !! ((cap_head g + i) mod MSTPW_CAPTURE_CAP) with
  | None => nfault
  | Some c =>
      if negb (wanted (c_src c)) then mret (s, first_frame) else
      s ← sb_open first_frame s;
      o ← sb_kv_uint "t" (c_t c) (s, true);
      o ← sb_kv_uint "subsec" (c_subsec c) o;
      o ← sb_kv_int "port" (c_port c) o;
      o ← names_of (c_port c) o;
      o ← sb_kv_hex "src" (c_src c) o;
      o ← sb_kv_hex "data" (c_data c) o;
      s ← sb_printf [125] o.1;
      mret (s, false)
  end.

Definition mstpw_capture_json (porth : Z) : N (option (list Z)) :=
  let filter := 0 <=? porth in
  localmac ← (if filter then mac_of porth else mret None);
  w ← nread;
  peermac ← (if bool_decide (is_Some localmac) then mac_of (ps_peer (slot w porth)) else mret None);
  s ← sb_init;
  s ← sb_printf [91] s;
  o ← nfold (json_captured (on_link filter localmac peermac))
        (zrange 0 (cap_count (s_capture w) - 1)) (s, true);
  s ← sb_printf [93] o.1;
  mret (sb_result s).
