(* ===== verification/Documents.v ===== *)
(** What the documents of the simulation's API are: the texts of JSON values, which a reader
    gets back, unless an allocation fails. *)
From S2P Require Import Prelude Types Monad Clib Vectors Outputs Wire Bridge Mgmt Kernel Track.
From S2P Require Import Tables Sim JsonText Builder.

(** ** The builder *)

(** A buffer that was allocated as [cap] says and holds the text. *)
Definition sb_good (b : sb_t) : Prop :=
  sb_buf b = Some (sb_cap b) ∧ sb_len b + 1 <= sb_cap b ∧ ∃ k : nat, (k <= 21)%nat ∧ sb_cap b = 1024 * 2 ^ Z.of_nat k.

Lemma sb_double_found need : need <= 2 ^ 31 → ∀ fuel k : nat, (k <= 21)%nat → (21 <= fuel + k)%nat →
  ∃ k' : nat, (k' <= 21)%nat ∧ sb_double fuel need (1024 * 2 ^ Z.of_nat k) = Some (1024 * 2 ^ Z.of_nat k') ∧
    need <= 1024 * 2 ^ Z.of_nat k'.
Proof.
  intros Hn fuel. induction fuel as [|fuel IH]; intros k Hk Hf; cbn [sb_double];
    (destruct (Z.ltb_spec (1024 * 2 ^ Z.of_nat k) need) as [Hlt|]; [|by exists k]).
  - assert (k = 21)%nat as -> by lia. change (1024 * 2 ^ Z.of_nat 21) with (2 ^ 31) in Hlt. lia.
  - assert (Hk' : (k < 21)%nat).
    { destruct (decide (k = 21)%nat) as [->|]; [|lia]. change (1024 * 2 ^ Z.of_nat 21) with (2 ^ 31) in Hlt. lia. }
    assert (Hu : u32 (1024 * 2 ^ Z.of_nat k * 2) = 1024 * 2 ^ Z.of_nat (S k)).
    { rewrite Nat2Z.inj_succ, Z.pow_succ_r by lia. unfold u32. rewrite Z.mod_small; [lia|].
      assert (2 ^ Z.of_nat k <= 2 ^ 20) by (apply Z.pow_le_mono_r; lia).
      assert (0 < 2 ^ Z.of_nat k) by (apply Z.pow_pos_nonneg; lia). lia. }
    rewrite Hu. apply IH; lia.
Qed.

Section builder.
Context (s : sim) (Hs : s_calloc s = []).

Lemma nalloc_true : nalloc s = NDone true s.
Proof. unfold nalloc. by rewrite Hs. Qed.

(** [m] appends [t], returns what [mk] makes of the builder, and leaves the simulation as it
    is; [writes] is for a builder, [adds] for items or fields with their commas. *)
Definition outs {X} (m : sb_t → N X) (mk : sb_t → X) (t : list Z) : Prop := ∀ b,
  sb_good b → sb_len b + Z.of_nat (length t) < INT_MAX →
  ∃ b', m b s = NDone (mk b') s ∧ sb_good b' ∧ sb_text b' = sb_text b ++ t.
Definition seen {A} (first : bool) (l : list A) : bool := match l with [] => first | _ => false end.
Local Abbreviation writes m t := (outs m (λ b, b) t).
Local Abbreviation adds m first ts :=
  (outs (λ b, m (b, first)) (λ b, (b, seen first ts)) (separated first ts)).

Lemma sb_len_app b b' t : sb_text b' = sb_text b ++ t → sb_len b' = sb_len b + Z.of_nat (length t).
Proof. unfold sb_len. intros ->. rewrite length_app. lia. Qed.

Lemma writes_printf t : writes (sb_printf t) t.
Proof.
  intros b (Hb & Hl & k & Hk & Hc) Hn. unfold INT_MAX in Hn.
  assert (H0 : 0 <= sb_len b) by (unfold sb_len; lia).
  unfold sb_printf. rewrite Hb. unfold INT_MAX. destruct (Z.ltb_spec (2 ^ 31 - 1) (Z.of_nat (length t))); [lia|].
  assert (Hu : u32 (sb_len b + Z.of_nat (length t) + 1) = sb_len b + Z.of_nat (length t) + 1)
    by (unfold u32; rewrite Z.mod_small; lia). rewrite Hu.
  assert (Happ : ∀ b0, sb_text b0 = sb_text b → sb_buf b0 = Some (sb_cap b0) →
    sb_len b + Z.of_nat (length t) + 1 <= sb_cap b0 →
    sb_append t b0 s = NDone (b0 <| sb_text ::= λ x, x ++ t |>) s).
  { intros b0 Ht Hb0 Hr. unfold sb_append, sb_len. rewrite Hb0, Ht.
    destruct (Z.leb_spec (Z.of_nat (length (sb_text b)) + Z.of_nat (length t) + 1) (sb_cap b0)); [done|].
    unfold sb_len in Hr. lia. }
  destruct (Z.ltb_spec (sb_cap b) (sb_len b + Z.of_nat (length t) + 1)) as [Hlt|Hge].
  - destruct (sb_double_found (sb_len b + Z.of_nat (length t) + 1) ltac:(lia) 32 k Hk ltac:(lia)) as (k' & Hk' & Hd & Hle).
    rewrite Hc, Hd. unfold mbind, N_bind. rewrite nalloc_true. cbn [negb]. rewrite Happ by done.
    eexists. split; [reflexivity|]. split; [|done]. split; [done|]. split; [|by exists k'].
    unfold sb_len in *. cbn. rewrite length_app. lia.
  - rewrite Happ by done. eexists. split; [reflexivity|]. split; [|done]. split; [done|]. split; [|by exists k].
    unfold sb_len in *. cbn. rewrite length_app. lia.
Qed.

Lemma outs_bind {X Y} (m : sb_t → N X) mk (k : X → N Y) mk' t1 t2 :
  outs m mk t1 → outs (λ b, k (mk b)) mk' t2 → outs (λ b, m b ≫= k) mk' (t1 ++ t2).
Proof.
  intros Hm Hk b Hb Hl. rewrite length_app in Hl. destruct (Hm b Hb) as (b1 & H1 & Hb1 & Ht1); [lia|].
  destruct (Hk b1 Hb1) as (b2 & H2 & Hb2 & Ht2); [rewrite (sb_len_app _ _ _ Ht1); lia|].
  exists b2. unfold mbind, N_bind. rewrite H1, H2. split; [done|]. split; [done|]. by rewrite Ht2, Ht1, <- app_assoc.
Qed.

Lemma outs_ret {X} (mk : sb_t → X) : outs (λ b, mret (mk b)) mk [].
Proof. intros b Hb _. exists b. by rewrite app_nil_r. Qed.
Lemma outs_last {X} (m : sb_t → N X) mk t : outs m mk t → outs m mk (t ++ []).
Proof. by rewrite app_nil_r. Qed.
Lemma outs_run {A X} (m : N A) a (k : A → sb_t → N X) mk t :
  m s = NDone a s → outs (k a) mk t → outs (λ b, m ≫= λ a, k a b) mk t.
Proof. intros Hm Hk b Hb Hl. unfold mbind, N_bind. rewrite Hm. by apply Hk. Qed.

Lemma writes_bind m k t1 t2 : writes m t1 → writes k t2 → writes (λ b, m b ≫= λ b, k b) (t1 ++ t2).
Proof. intros Hm Hk. by eapply outs_bind. Qed.
Lemma writes_ret : writes (λ b, mret b) [].
Proof. apply (outs_ret (λ b, b)). Qed.

Lemma writes_fold {A} (body : A → sb_t → N sb_t) (tx : A → list Z) l :
  (∀ x, writes (body x) (tx x)) → writes (nfold body l) (concat (map tx l)).
Proof.
  intros Hb. induction l as [|x l IH]; [apply writes_ret|]. cbn [nfold map concat]. by apply writes_bind.
Qed.

Lemma separated_app first l1 l2 : separated first (l1 ++ l2) = separated first l1 ++ separated (seen first l1) l2.
Proof.
  revert first. induction l1 as [|t l1 IH]; intros first; [done|]. cbn [app separated seen].
  rewrite IH, <- !app_assoc. by destruct l1.
Qed.
Lemma seen_app {A} first (l1 l2 : list A) : seen first (l1 ++ l2) = seen (seen first l1) l2.
Proof. by destruct l1, l2. Qed.

Lemma adds_bind m k first ts1 ts2 : adds m first ts1 → adds k (seen first ts1) ts2 →
  adds (λ o, m o ≫= λ o, k o) first (ts1 ++ ts2).
Proof. intros Hm Hk. rewrite separated_app, seen_app. by eapply outs_bind. Qed.
Lemma adds_ret first : adds (λ o, mret o) first (@nil (list Z)).
Proof. apply (outs_ret (λ b, (b, first))). Qed.

(** One item or a list of them before the others, and what ends them. *)
Lemma outs_adds {X} m first ts ts' z (k : field_state → N X) mk :
  adds m first ts → outs (λ b, k (b, seen first ts)) mk (separated (seen first ts) ts' ++ z) →
  outs (λ b, m (b, first) ≫= k) mk (separated first (ts ++ ts') ++ z).
Proof. intros Hm Hk. rewrite separated_app, <- app_assoc. by eapply outs_bind. Qed.
Lemma outs_add {X} m first t ts z (k : field_state → N X) mk :
  adds m first [t] → outs (λ b, k (b, false)) mk (separated false ts ++ z) →
  outs (λ b, m (b, first) ≫= k) mk (separated first (t :: ts) ++ z).
Proof. apply (outs_adds m first [t]). Qed.
Lemma outs_add2 {X} m first t1 t2 ts z (k : field_state → N X) mk :
  adds m first [t1; t2] → outs (λ b, k (b, false)) mk (separated false ts ++ z) →
  outs (λ b, m (b, first) ≫= k) mk (separated first (t1 :: t2 :: ts) ++ z).
Proof. apply (outs_adds m first [t1; t2]). Qed.

Lemma adds_fold {A} (body : A → field_state → N field_state) (tx : A → list (list Z)) l first :
  (∀ x first, x ∈ l → adds (body x) first (tx x)) → adds (nfold body l) first (concat (map tx l)).
Proof.
  revert first. induction l as [|x l IH]; intros first Hb; [apply adds_ret|]. cbn [nfold map concat].
  apply (adds_bind (body x) (nfold body l)); [apply Hb; by left|]. apply IH. intros y f Hy. apply Hb. by right.
Qed.

(** *** Fields *)

Definition plain (key : string) : Prop := string_text (chars key) = quoted (chars key).

Lemma adds_key_value key value j first : plain key → writes value (json_text j) →
  adds (sb_kv key value) first [field_text (chars key, j)].
Proof.
  intros Hp Hv. unfold plain in Hp. intros b Hb Hl.
  assert (E : separated first [field_text (chars key, j)] =
    ((if first then [] else [44]) ++ quoted (chars key) ++ [58]) ++ json_text j).
  { unfold separated, field_text. cbn [fst snd]. rewrite Hp, app_nil_r, <- !app_assoc. done. }
  rewrite E in *. rewrite length_app in Hl.
  destruct (writes_printf _ b Hb ltac:(instantiate (1 := (if first then [] else [44]) ++ quoted (chars key) ++ [58]); lia))
    as (b1 & H1 & Hb1 & Ht1).
  destruct (Hv b1 Hb1) as (b2 & H2 & Hb2 & Ht2); [rewrite (sb_len_app _ _ _ Ht1); lia|].
  exists b2. unfold sb_kv, sb_key, mbind, N_bind. rewrite H1. cbn [fst]. unfold mret, N_ret. cbn [fst snd].
  rewrite H2. split; [done|]. split; [done|]. by rewrite Ht2, Ht1, <- app_assoc.
Qed.
End builder.
Abbreviation writes s m t := (outs s m (λ b, b) t).
Abbreviation adds s m first ts :=
  (outs s (λ b, m (b, first)) (λ b, (b, seen first ts)) (separated first ts)).

Definition uint_field (key : string) (v : Z) : list Z * json := (chars key, JNum (u32 v)).
Definition int_field (key : string) (v : Z) : list Z * json := (chars key, JNum (s32 v)).
Definition bool_field (key : string) (v : bool) : list Z * json := (chars key, JBool v).
Definition str_field (key : string) (v : list Z) : list Z * json := (chars key, JStr (map u8 (until_nul v))).
Definition hex_field (key : string) (v : list Z) : list Z * json := (chars key, JStr (concat (map hex2 v))).
Definition bridge_id_field (key : string) (id : bridge_identifier_t) : list Z * json :=
  str_field key (bridge_id_text id).
Definition port_id_fields (key : string) (pid : Z) : list (list Z * json) :=
  [uint_field key (u16 pid); uint_field (key ++ "_number") (Z.land (u16 pid) 0x0FFF)].

Lemma number_text_uint v : number_text (u32 v) = print_u (u32 v).
Proof. unfold number_text, u32. pose proof (Z.mod_pos_bound v (2 ^ 32) ltac:(lia)). destruct (Z.ltb_spec (v mod 2 ^ 32) 0); [lia|done]. Qed.

Lemma concat_plain s : Forall (λ c, escaped c = [c]) s → concat (map escaped s) = s.
Proof. induction 1 as [|c s Hc _ IH]; [done|]. cbn. by rewrite Hc, IH. Qed.

Lemma escaped_digit d : 0 <= d < 16 → escaped (digit_char d) = [digit_char d].
Proof.
  intros Hd. unfold digit_char, escaped. destruct (Z.ltb_spec d 10);
    repeat match goal with |- context [?c =? ?n] => destruct (Z.eqb_spec c n); [lia|] end;
    match goal with |- context [?c <? 32] => destruct (Z.ltb_spec c 32); [lia|done] end.
Qed.
Lemma hex2_plain v : Forall (λ c, escaped c = [c]) (hex2 v).
Proof.
  pose proof (Z.mod_pos_bound v (2 ^ 8) ltac:(lia)) as Hv. change (v mod 2 ^ 8) with (u8 v) in Hv.
  pose proof (Z.div_mod (u8 v) 16 ltac:(lia)). pose proof (Z.mod_pos_bound (u8 v) 16 ltac:(lia)).
  unfold hex2. apply Forall_cons_2; [|apply Forall_cons_2; [|done]]; apply escaped_digit; lia.
Qed.

Section fields.
Context (s : sim) (Hs : s_calloc s = []).
Local Abbreviation adds m first ts := (adds s m first ts).
Local Abbreviation writes m t := (writes s m t).

Lemma adds_uint key v first : plain key → adds (sb_kv_uint key v) first [field_text (uint_field key v)].
Proof.
  intros Hp. apply adds_key_value; [done..|]. cbn [json_text]. rewrite number_text_uint. by apply writes_printf.
Qed.
Lemma adds_int key v first : plain key → adds (sb_kv_int key v) first [field_text (int_field key v)].
Proof. intros Hp. apply adds_key_value; [done..|]. by apply writes_printf. Qed.
Lemma adds_bool key v first : plain key → adds (sb_kv_bool key v) first [field_text (bool_field key v)].
Proof. intros Hp. apply adds_key_value; [done..|]. by apply writes_printf. Qed.

Lemma writes_json_octet c : writes (sb_json_octet c) (escaped (u8 c)).
Proof.
  unfold sb_json_octet, escaped. repeat case_match; by apply writes_printf.
Qed.
Lemma writes_json_str v : writes (sb_json_str v) (json_text (JStr (map u8 (until_nul v)))).
Proof.
  cbn [json_text]. unfold string_text, quoted. rewrite map_map. apply (writes_bind s _ _ [DQUOTE]); [by apply writes_printf|].
  apply writes_bind; [|by apply writes_printf]. apply writes_fold, writes_json_octet.
Qed.
Lemma adds_str key v first : plain key → adds (sb_kv_str key v) first [field_text (str_field key v)].
Proof. intros Hp. apply adds_key_value; [done..|]. apply writes_json_str. Qed.
Lemma adds_bridge_id key id first : plain key →
  adds (sb_bridge_id key id) first [field_text (bridge_id_field key id)].
Proof. apply adds_str. Qed.

Lemma adds_hex key v first : plain key → adds (sb_kv_hex key v) first [field_text (hex_field key v)].
Proof.
  intros Hp. apply adds_key_value; [done..|]. cbn [json_text]. unfold string_text, quoted.
  apply (writes_bind s _ _ [DQUOTE]); [by apply writes_printf|]. apply writes_bind; [|by apply writes_printf].
  rewrite concat_plain; [apply writes_fold; intros; by apply writes_printf|].
  induction v as [|x v IH]; [constructor|]. cbn [map concat]. apply Forall_app. split; [apply hex2_plain|exact IH].
Qed.

Lemma adds_port_id key pid first : plain key → plain (key ++ "_number") →
  adds (sb_port_id key pid) first (map field_text (port_id_fields key pid)).
Proof.
  intros H1 H2. unfold sb_port_id, port_id_fields.
  apply (adds_bind s _ _ first [_] [_]); by apply adds_uint.
Qed.
End fields.

(** ** The values *)

Fixpoint collect {A B} (f : A → option (list B)) (l : list A) : option (list B) :=
  match l with
  | [] => Some []
  | x :: l => xs ← f x; rest ← collect f l; Some (xs ++ rest)
  end.

Lemma collect_some {A B} (f : A → option (list B)) l :
  (∀ x, x ∈ l → is_Some (f x)) → is_Some (collect f l).
Proof.
  induction l as [|x l IH]; intros H; [by eexists|]. cbn [collect].
  destruct (H x (list_elem_of_here _ _)) as [xs ->]. destruct IH as [r Hr]; [intros; apply H; by right|].
  cbn. rewrite Hr. by eexists.
Qed.

(** What a getter tells. *)
Definition asks (s : sim) (brh : Z) {A} (m : M A) : option A :=
  match query brh m s with NDone a _ => Some a | _ => None end.
Lemma query_asks s brh {A} (m : M A) a : asks s brh m = Some a → query brh m s = NDone a s.
Proof.
  unfold asks, query. destruct (s_bridges s !! brh) as [w|]; [|done].
  destruct (m (lend_to s w)); [|done..]. by intros [= ->].
Qed.

(** Whatever is printed can be read. *)
Definition msti_port_value (k : ptp_id) (mst : MSTI_PortStatus) : json := JObj
  [uint_field "mstid" (ptp_MSTID k);
   str_field "role" (chars (role_name (mps_role mst)));
   str_field "state" (chars (state_name (mps_state mst)));
   uint_field "admin_internal_path_cost" (mps_admin_internal_port_path_cost mst);
   uint_field "internal_path_cost" (mps_internal_port_path_cost mst);
   bool_field "disputed" (mps_disputed mst)].

Definition cist_port_fields (x : per_tree_port_t) : list (list Z * json) :=
  [bool_field "proposing" (proposing x); bool_field "proposed" (proposed x);
   bool_field "agree" (agree x); bool_field "agreed" (agreed x);
   bool_field "sync" (sync x); bool_field "synced" (synced x); bool_field "re_root" (reRoot x)].

(** A port: its handle, its peer, its object and its status, the fields of its part in the
    CIST, and its MSTIs. *)
Definition port_value_of (porth peer : Z) (x : port_t) (st : CIST_PortStatus)
    (cist : list (list Z * json)) (mstis : list json) : json := JObj (
  [int_field "handle" porth; str_field "name" (chars (name (prt_sysdeps x))); int_field "peer" peer;
   bool_field "up" (up (prt_sysdeps x))] ++ port_id_fields "port_id" (cps_port_id st) ++
  [str_field "role" (chars (role_name (cps_role st)));
   str_field "state" (chars (state_name (cps_state st)));
   bool_field "admin_edge" (cps_admin_edge_port st); bool_field "auto_edge" (cps_auto_edge_port st);
   bool_field "oper_edge" (cps_oper_edge_port st);
   str_field "admin_p2p" (chars (admin_p2p_name (cps_admin_p2p st)));
   bool_field "oper_p2p" (cps_oper_p2p st); bool_field "bpdu_guard_port" (cps_bpdu_guard_port st);
   bool_field "bpdu_guard_error" (cps_bpdu_guard_error st);
   bool_field "restricted_role" (cps_restricted_role st);
   bool_field "restricted_tcn" (cps_restricted_tcn st); bool_field "disputed" (cps_disputed st);
   bool_field "network_port" (cps_network_port st); bool_field "ba_inconsistent" (cps_ba_inconsistent st);
   bool_field "send_rstp" (cps_sendRSTP st)] ++ cist ++
  [uint_field "admin_external_path_cost" (cps_admin_external_port_path_cost st);
   uint_field "external_path_cost" (cps_external_port_path_cost st);
   uint_field "internal_path_cost" (cps_internal_port_path_cost st);
   bridge_id_field "designated_root" (cps_designated_root st);
   bridge_id_field "designated_bridge" (cps_designated_bridge st)] ++
  port_id_fields "designated_port" (cps_designated_port st) ++
  [uint_field "designated_external_cost" (cps_designated_external_cost st);
   uint_field "tx_bpdu" (cps_num_tx_bpdu st); uint_field "rx_bpdu" (cps_num_rx_bpdu st);
   uint_field "tx_tcn" (cps_num_tx_tcn st); uint_field "rx_tcn" (cps_num_rx_tcn st);
   (chars "mstis", JArr mstis)]).

Definition msti_bridge_value (t : tree_id) (mst : MSTI_BridgeStatus) : json := JObj
  [uint_field "mstid" t; bridge_id_field "regional_root" (mbs_regional_root mst);
   uint_field "internal_path_cost" (mbs_internal_path_cost mst)].

Definition bridge_value_of (brh : Z) (br : bridge_t) (st : CIST_BridgeStatus) (ports mstis : list json) : json := JObj
  [int_field "handle" brh; str_field "name" (chars (br_name (br_sysdeps br)));
   bool_field "enabled" (cbs_enabled st); bridge_id_field "bridge_id" (cbs_bridge_id st);
   bridge_id_field "designated_root" (cbs_designated_root st);
   uint_field "root_path_cost" (cbs_root_path_cost st);
   bridge_id_field "regional_root" (cbs_regional_root st);
   uint_field "internal_path_cost" (cbs_internal_path_cost st);
   bool_field "is_root" (ncmp_bridge_id (cbs_bridge_id st) (cbs_designated_root st) =? 0);
   bool_field "topology_change" (cbs_topology_change st);
   uint_field "topology_change_count" (cbs_topology_change_count st);
   uint_field "max_age" (cbs_bridge_max_age st); uint_field "forward_delay" (cbs_bridge_forward_delay st);
   uint_field "hello_time" (cbs_bridge_hello_time st); uint_field "max_hops" (cbs_max_hops st);
   uint_field "tx_hold_count" (cbs_tx_hold_count st);
   str_field "protocol_version" (chars (protocol_version_name (cbs_protocol_version st)));
   str_field "mst_config_name" (configuration_name (MstConfigId br));
   uint_field "mst_config_revision" (u16 (revision_level (MstConfigId br)));
   (chars "ports", JArr ports); (chars "mstis", JArr mstis)].

(** The MSTIs of a list of trees, the CIST left out. *)
Section values.
Context (s : sim).

Definition msti_port_values (brh : Z) (ks : list ptp_id) : option (list json) :=
  collect (λ k, if ptp_MSTID k =? 0 then Some [] else
                mst ← asks s brh (MSTP_IN_get_msti_port_status k); Some [msti_port_value k mst]) ks.
Definition msti_bridge_values (brh : Z) (ts : list tree_id) : option (list json) :=
  collect (λ t, if t =? 0 then Some [] else
                mst ← asks s brh (MSTP_IN_get_msti_bridge_status t); Some [msti_bridge_value t mst]) ts.

Definition cist_fields (brh : Z) (cist : option ptp_id) : option (list (list Z * json)) :=
  match cist with None => Some [] | Some k => cist_port_fields <$> asks s brh (get_ptp k) end.

Definition port_value (porth : Z) : option json :=
  let p := slot s porth in
  prt ← ps_prt p;
  x ← s_bridges s !! prt.1 ≫= λ w, w_ports w !! prt.2;
  st ← asks s prt.1 (MSTP_IN_get_cist_port_status prt.2);
  cist ← asks s prt.1 (find_ptp prt.2 0);
  cist ← cist_fields prt.1 cist;
  ks ← asks s prt.1 (ptps_of_port prt.2);
  mstis ← msti_port_values prt.1 ks;
  Some (port_value_of porth (ps_peer p) x st cist mstis).

Definition bridge_value (brh : Z) : option json :=
  st ← asks s brh MSTP_IN_get_cist_bridge_status;
  br ← asks s brh get_br;
  ports ← collect (λ i, if bool_decide (ps_prt (slot s i) = None) || negb (ps_brh (slot s i) =? brh)
                        then Some [] else v ← port_value i; Some [v]) (zrange 0 (MSTPW_MAX_PORTS - 1));
  ts ← asks s brh trees_of_bridge;
  mstis ← msti_bridge_values brh ts;
  Some (bridge_value_of brh br st ports mstis).

Definition topology_value : option json :=
  bridges ← collect (λ i, if bool_decide (s_bridges s !! i = None) then Some [] else
                          v ← bridge_value i; Some [v]) (zrange 0 (MSTPW_MAX_BRIDGES - 1));
  Some (JObj [uint_field "frames_delivered" (s_delivered s); (chars "bridges", JArr bridges)]).
End values.

(** ** What is written are the texts of the values *)

Section texts.
Context (s : sim) (Hs : s_calloc s = []).
Local Abbreviation outs := (outs s).
Local Abbreviation adds m first ts := (adds s m first ts).
Local Abbreviation writes m t := (writes s m t).

Lemma outs_more {X} m ts ts' z (k : field_state → N X) mk :
  adds m false ts → outs (λ b, k (b, false)) mk (separated false ts' ++ z) →
  outs (λ b, m (b, false) ≫= k) mk (separated false (ts ++ ts') ++ z).
Proof. intros Hm Hk. eapply outs_adds; [exact Hm|]. by destruct ts. Qed.

Lemma outs_key key first : outs (λ b, sb_key key (b, first)) (λ b, (b, false))
  ((if first then [] else [44]) ++ quoted (chars key) ++ [58]).
Proof.
  rewrite <- (app_nil_r (_ ++ _ ++ _)). apply (outs_bind s _ (λ b, b) (λ b, mret (b, false))); [by apply writes_printf|apply outs_ret].
Qed.

(** An array in an object: its key and bracket, its items, and what follows. *)
Lemma array_text key vs first ts z : plain key →
  separated first (field_text (chars key, JArr vs) :: ts) ++ z =
  ((if first then [] else [44]) ++ quoted (chars key) ++ [58]) ++ [91] ++
  separated true (map json_text vs) ++ [93] ++ separated false ts ++ z.
Proof.
  unfold plain. intros Hp. cbn [separated]. unfold field_text. cbn [fst snd json_text]. rewrite Hp.
  rewrite <- !app_assoc. cbn [app]. by rewrite <- !app_assoc.
Qed.

Lemma nfold_collect {A} (body : A → field_state → N field_state) f l : ∀ vs first,
  (∀ x vs first, x ∈ l → f x = Some vs → adds (body x) first (map json_text vs)) →
  collect f l = Some vs → adds (nfold body l) first (map json_text vs).
Proof.
  induction l as [|x l IH]; intros vs first Hb Hc; cbn [collect] in Hc; [injection Hc as <-; apply adds_ret|].
  apply bind_Some in Hc as (xs & Hx & (rest & Hr & [= <-])%bind_Some). rewrite map_app. cbn [nfold].
  apply (adds_bind s (body x) (nfold body l)); [apply Hb; [by left|done]|].
  apply IH; [|done]. intros y ws f' Hy. apply Hb. by right.
Qed.

(** A field, or two, and the closing bracket. *)
Ltac field := first
  [ eapply outs_add; [solve [by first [apply adds_uint|apply adds_int|apply adds_bool|apply adds_str|
                              apply adds_bridge_id|apply adds_hex]]|]
  | eapply outs_add2; [solve [by apply adds_port_id]|] ]; cbv beta.
Ltac closed := cbn [separated app fst]; by apply writes_printf.
(** An object that is an item: its bracket, after a comma. *)
Ltac item_text := intros; cbn [map separated]; rewrite app_nil_r.

Lemma object_text first fields : (if first : bool then [] else [44]) ++ json_text (JObj fields) =
  ((if first then [] else [44]) ++ [123]) ++ separated true (map field_text fields) ++ [125].
Proof. by rewrite <- app_assoc. Qed.

Lemma msti_port_text brh k vs first :
  (if ptp_MSTID k =? 0 then Some [] else
   mst ← asks s brh (MSTP_IN_get_msti_port_status k); Some [msti_port_value k mst]) = Some vs →
  adds (json_port_msti brh k) first (map json_text vs).
Proof.
  unfold json_port_msti. intros H. destruct (ptp_MSTID k =? 0); [injection H as <-; apply adds_ret|].
  apply bind_Some in H as (mst & Hm & [= <-]). eapply outs_run; [by apply query_asks|].
  cbn [map separated seen]. rewrite app_nil_r. unfold msti_port_value. rewrite object_text.
  eapply outs_bind; [by apply writes_printf|]. cbv beta. cbn [map]. do 6 field.
  cbn [separated app fst]. rewrite <- (app_nil_r [125]).
  eapply (outs_bind _ _ (λ b, b)); [by apply writes_printf|apply (outs_ret s (λ b, (b, false)))].
Qed.

Lemma msti_bridge_text brh t vs first :
  (if t =? 0 then Some [] else
   mst ← asks s brh (MSTP_IN_get_msti_bridge_status t); Some [msti_bridge_value t mst]) = Some vs →
  adds (json_bridge_msti brh t) first (map json_text vs).
Proof.
  unfold json_bridge_msti. intros H. destruct (t =? 0); [injection H as <-; apply adds_ret|].
  apply bind_Some in H as (mst & Hm & [= <-]). eapply outs_run; [by apply query_asks|].
  cbn [map separated seen]. rewrite app_nil_r. unfold msti_bridge_value. rewrite object_text.
  eapply outs_bind; [by apply writes_printf|]. cbv beta. cbn [map]. do 3 field.
  cbn [separated app fst]. rewrite <- (app_nil_r [125]).
  eapply (outs_bind _ _ (λ b, b)); [by apply writes_printf|apply (outs_ret s (λ b, (b, false)))].
Qed.

Lemma cist_text brh cist fields : cist_fields s brh cist = Some fields →
  adds (json_port_cist brh cist) false (map field_text fields).
Proof.
  unfold cist_fields, json_port_cist. destruct cist as [k|]; [|intros [= <-]; apply adds_ret].
  intros (x & Hx & ->)%fmap_Some. eapply outs_run; [by apply query_asks|].
  cbn [cist_port_fields map]. rewrite <- (app_nil_r (separated _ _)). do 6 field. rewrite app_nil_r.
  by apply adds_bool.
Qed.

Lemma port_text porth j : in_table porth = true → port_value s porth = Some j →
  writes (json_port porth) (json_text j).
Proof.
  intros Ht H. unfold port_value in H. apply bind_Some in H as (prt & Hp & H).
  apply bind_Some in H as (x & Hx & H). apply bind_Some in H as (st & Hst & H).
  apply bind_Some in H as (cist & Hc & H). apply bind_Some in H as (fields & Hf & H).
  apply bind_Some in H as (ks & Hks & H). apply bind_Some in H as (mstis & Hm & [= <-]).
  unfold json_port. apply (outs_run s (get_slot porth) (slot s porth)); [unfold get_slot; by rewrite Ht|].
  rewrite Hp. apply (outs_run s (read_prt prt) x); [unfold read_prt; by rewrite Hx|].
  eapply outs_run; [by apply query_asks|]. cbv beta. unfold port_value_of. cbn [json_text].
  change (λ f, string_text f.1 ++ 58 :: json_text f.2) with field_text.
  match goal with |- outs _ _ (123 :: ?t) => change (123 :: t) with ([123] ++ t) end.
  eapply outs_bind; [by apply writes_printf|]. cbv beta. rewrite !map_app. cbn [map app port_id_fields].
  do 20 field.
  eapply outs_run; [by apply query_asks|]. cbv beta. eapply outs_more; [by apply cist_text|]. cbv beta.
  do 11 field. rewrite array_text by done. eapply outs_bind; [apply outs_key|]. cbv beta. cbn [fst].
  eapply outs_bind; [by apply writes_printf|]. cbv beta. eapply outs_run; [by apply query_asks|].
  eapply outs_bind; [eapply nfold_collect; [|exact Hm]|closed]. intros k vs first _. apply msti_port_text.
Qed.

Lemma zrange_in_table i : i ∈ zrange 0 (MSTPW_MAX_PORTS - 1) → in_table i = true.
Proof. rewrite elem_of_zrange. unfold in_table. intros ?. apply andb_true_iff. lia. Qed.

Lemma port_items brh i vs first :
  (if bool_decide (ps_prt (slot s i) = None) || negb (ps_brh (slot s i) =? brh)
   then Some [] else v ← port_value s i; Some [v]) = Some vs → in_table i = true →
  adds (json_bridge_port brh i) first (map json_text vs).
Proof.
  intros H Ht. unfold json_bridge_port.
  apply (outs_run s (get_slot i) (slot s i)); [unfold get_slot; by rewrite Ht|].
  destruct (_ || _); [injection H as <-; apply adds_ret|]. apply bind_Some in H as (v & Hv & [= <-]).
  cbn [map separated seen]. rewrite app_nil_r. eapply outs_bind.
  - instantiate (1 := λ b, b). destruct first; [apply writes_ret|by apply writes_printf].
  - cbv beta. rewrite <- (app_nil_r (json_text v)).
    eapply (outs_bind _ _ (λ b, b)); [by apply port_text|apply (outs_ret s (λ b, (b, false)))].
Qed.

Lemma bridge_text brh j : bridge_value s brh = Some j → writes (json_bridge brh) (json_text j).
Proof.
  intros H. unfold bridge_value in H. apply bind_Some in H as (st & Hst & H).
  apply bind_Some in H as (br & Hbr & H). apply bind_Some in H as (ports & Hp & H).
  apply bind_Some in H as (ts & Hts & H). apply bind_Some in H as (mstis & Hm & [= <-]).
  unfold json_bridge. do 2 (eapply outs_run; [by apply query_asks|]). cbv beta. unfold bridge_value_of. cbn [json_text].
  change (λ f, string_text f.1 ++ 58 :: json_text f.2) with field_text.
  match goal with |- outs _ _ (123 :: ?t) => change (123 :: t) with ([123] ++ t) end.
  eapply outs_bind; [by apply writes_printf|]. cbv beta. cbn [map]. do 19 field.
  rewrite array_text by done. eapply outs_bind; [apply outs_key|]. cbv beta. cbn [fst].
  eapply outs_bind; [by apply writes_printf|]. cbv beta.
  eapply outs_bind; [eapply nfold_collect; [|exact Hp]|].
  { intros i vs first Hi Hv. apply port_items; [done|]. by apply zrange_in_table. }
  cbn [fst]. eapply outs_bind; [by apply writes_printf|]. cbv beta.
  rewrite array_text by done. eapply outs_bind; [apply outs_key|]. cbv beta. cbn [fst].
  eapply outs_bind; [by apply writes_printf|]. cbv beta. eapply outs_run; [by apply query_asks|].
  eapply outs_bind; [eapply nfold_collect; [|exact Hm]|closed]. intros t vs first _. apply msti_bridge_text.
Qed.

Lemma bridge_items i vs first :
  (if bool_decide (s_bridges s !! i = None) then Some [] else v ← bridge_value s i; Some [v]) = Some vs →
  adds (json_topology_bridge i) first (map json_text vs).
Proof.
  intros H. unfold json_topology_bridge. apply (outs_run s nread s); [done|].
  destruct (bool_decide _); [injection H as <-; apply adds_ret|]. apply bind_Some in H as (v & Hv & [= <-]).
  cbn [map separated seen]. rewrite app_nil_r. eapply outs_bind.
  - instantiate (1 := λ b, b). destruct first; [apply writes_ret|by apply writes_printf].
  - cbv beta. rewrite <- (app_nil_r (json_text v)).
    eapply (outs_bind _ _ (λ b, b)); [by apply bridge_text|apply (outs_ret s (λ b, (b, false)))].
Qed.

(** ** Whole documents *)

Definition fits (t : list Z) : Prop := Z.of_nat (length t) < INT_MAX.

Lemma document {X} (m : sb_t → N X) mk t : outs m mk t → fits t →
  ∃ b, sb_good b ∧ sb_text b = t ∧ (sb_init ≫= m) s = NDone (mk b) s.
Proof.
  intros Hm Ht. destruct (Hm (mk_sb (Some 1024) [] 1024)) as (b & H1 & H2 & H3); [| |].
  - split; [done|]. split; [unfold sb_len; cbn; lia|]. exists 0%nat. cbn. lia.
  - unfold fits in Ht. unfold sb_len. cbn. lia.
  - exists b. split; [done|]. split; [done|]. unfold sb_init, mbind, N_bind. by rewrite nalloc_true.
Qed.
End texts.

