(* ===== verification/Topology.v ===== *)
(** The documents of the API read back: whatever the simulation has been asked before, the
    JSON of a port, of a bridge and of the whole topology is that of the values of their
    status; and a failed reallocation makes the builder write past its buffer. *)
From S2P Require Import Prelude Types Monad Clib Vectors Outputs Wire Procs RoleSelect PortSM TreeSM.
From S2P Require Import Prtsm Bridge Mgmt Kernel Track Tables Sim Wf Safety Links System Sample Frame Follows.
From S2P Require Import Inventory Silent Cables Simulation Ring JsonText Builder Documents.

(** ** The getters answer *)

Definition answers (w : world) {A} (m : M A) (P : A → Prop) : Prop := wp False m (λ a _, P a) w.

Section getters.
Context (w : world) (Hw : wf_world w).

Lemma port_objects p : p ∈ br_ports (w_br w) → ∃ x, w_ports w !! p = Some x ∧ prt_trees x = br_trees (w_br w).
Proof.
  destruct Hw as [[_ Hi] _]. intros Hp. destruct (inv_port _ _ _ Hi p Hp) as (x & Hx & [Htr _ _]). by exists x.
Qed.
Lemma ptp_objects k : valid_ptp (w_br w) k → is_Some (w_ptps w !! k).
Proof. destruct Hw as [[_ Hi] _]. intros Hk. destruct (inv_ptp _ _ _ Hi k Hk) as (x & Hx & _). by exists x. Qed.
Lemma tree_objects t : t ∈ br_trees (w_br w) → is_Some (w_trees w !! t).
Proof. destruct Hw as [[_ Hi] _]. intros Ht. destruct (inv_tree _ _ _ Hi t Ht) as (x & Hx & _). by exists x. Qed.
Lemma cist_first : ∃ l, br_trees (w_br w) = 0 :: l.
Proof. destruct Hw as [[Hb _] _]. apply Hb. Qed.

Lemma answers_ptps p : p ∈ br_ports (w_br w) →
  answers w (ptps_of_port p) (λ ks, ∀ k, k ∈ ks → valid_ptp (w_br w) k).
Proof.
  intros Hp. destruct (port_objects p Hp) as (x & Hx & Htr). apply wp_bind. eapply wp_get_port; [exact Hx|].
  apply wp_ret. rewrite Htr. intros k (t & -> & Ht)%list_elem_of_fmap. by split.
Qed.

Lemma answers_find_ptp p m : p ∈ br_ports (w_br w) →
  answers w (find_ptp p m) (λ o, ∀ k, o = Some k → valid_ptp (w_br w) k).
Proof.
  intros Hp. apply wp_bind. eapply wp_mono; [by apply answers_ptps|]. intros ks w' Hk. apply wp_ret.
  intros k [Hin _]%head_filter_Some. by apply Hk.
Qed.

Lemma answers_get_ptp k : valid_ptp (w_br w) k → answers w (get_ptp k) (λ _, True).
Proof. intros [x Hx]%ptp_objects. by eapply wp_get_ptp. Qed.

Lemma answers_cist_port p : p ∈ br_ports (w_br w) →
  answers w (MSTP_IN_get_cist_port_status p) (λ _, True).
Proof.
  intros Hp. destruct (port_objects p Hp) as (x & Hx & Htr). destruct cist_first as [l Hl].
  destruct (ptp_objects (p, 0)) as [k Hk]. { split; [done|]. cbn. rewrite Hl. by left. }
  unfold answers, MSTP_IN_get_cist_port_status, GET_CIST_PTP_FROM_PORT, ptps_of_port.
  apply wp_bind, wp_bind, wp_bind. eapply wp_get_port; [exact Hx|]. apply wp_ret. rewrite Htr, Hl. cbn [map head].
  apply wp_ret, wp_bind. eapply wp_get_ptp; [exact Hk|]. apply wp_bind. eapply wp_get_port; [exact Hx|].
  by apply wp_bind, wp_get_br.
Qed.

Lemma answers_msti_port k : valid_ptp (w_br w) k → answers w (MSTP_IN_get_msti_port_status k) (λ _, True).
Proof.
  intros Hk. destruct (ptp_objects k Hk) as [y Hy]. destruct (port_objects (ptp_port k)) as (x & Hx & _); [by destruct Hk|].
  apply wp_bind. eapply wp_get_ptp; [exact Hy|]. apply wp_bind. eapply wp_get_port; [exact Hx|]. by apply wp_bind, wp_get_br.
Qed.

Lemma answers_cist_bridge : answers w MSTP_IN_get_cist_bridge_status (λ _, True).
Proof.
  destruct cist_first as [l Hl]. destruct (tree_objects 0) as [y Hy]; [rewrite Hl; by left|].
  unfold answers, MSTP_IN_get_cist_bridge_status, GET_CIST_TREE, trees_of_bridge.
  apply wp_bind, wp_bind, wp_bind, wp_get_br, wp_ret. rewrite Hl. apply wp_ret, wp_bind.
  eapply wp_get_tree; [exact Hy|]. by apply wp_bind, wp_get_br.
Qed.

Lemma answers_msti_bridge t : t ∈ br_trees (w_br w) → answers w (MSTP_IN_get_msti_bridge_status t) (λ _, True).
Proof. intros [y Hy]%tree_objects. apply wp_bind. by eapply wp_get_tree. Qed.
End getters.

(** ** Every document has a value *)

Section values.
Context (stack : list Z) (Hstack : length stack = 64%nat).
Context (behind : frame_t → list Z) (Hbehind : ∀ f, (Z.to_nat sizeof_bpdu <= length (behind f))%nat).
Context (s : sim) (Hs : reachable_sim stack behind s).

Lemma reachable_tables : SI stack none none s.
Proof. by eapply reachable_sim_ok. Qed.

Lemma lent_wf b w : s_bridges s !! b = Some w → wf_world (lend_to s w).
Proof.
  intros Hw. eapply reachable_wf_world; [exact Hstack|]. apply reachable_lend.
  eapply bo_reachable, (si_bridge _ _ _ _ reachable_tables); exact Hw.
Qed.

Lemma asks_answers {A} b w (m : M A) P :
  s_bridges s !! b = Some w → answers (lend_to s w) m P → ∃ a, asks s b m = Some a ∧ P a.
Proof.
  intros Hw Hm. unfold asks, query. rewrite Hw. unfold answers, wp in Hm.
  destruct (m (lend_to s w)) as [a w'| |]; [|done|done]. by exists a.
Qed.

(** Asks what is known to be answered. *)
Ltac ask H Hw := let a := fresh "a" in let P := fresh "P" in
  destruct (asks_answers _ _ _ _ Hw H) as (a & -> & P); cbn [mbind option_bind].

Lemma port_has_value h : in_use s h → is_Some (port_value s h).
Proof.
  intros [prt Hp]. destruct (si_slot _ _ _ _ reachable_tables h prt Hp) as (_ & _ & w & x & Hw & Hin & Hx & _).
  pose proof (lent_wf _ _ Hw) as Hwf. unfold port_value. rewrite Hp. cbn [mbind option_bind].
  rewrite Hw. cbn [mbind option_bind]. rewrite Hx. cbn [mbind option_bind].
  ask (answers_cist_port _ Hwf prt.2 Hin) Hw. ask (answers_find_ptp _ Hwf prt.2 0 Hin) Hw.
  assert (is_Some (cist_fields s prt.1 a0)) as [c ->].
  { destruct a0 as [k|]; [|by eexists]. cbn [cist_fields].
    ask (answers_get_ptp _ Hwf k (P0 k eq_refl)) Hw. by eexists. }
  cbn [mbind option_bind]. ask (answers_ptps _ Hwf prt.2 Hin) Hw.
  destruct (collect_some (λ k, if ptp_MSTID k =? 0 then Some [] else
    mst ← asks s prt.1 (MSTP_IN_get_msti_port_status k); Some [msti_port_value k mst]) a1) as [ms Hms].
  { intros k Hk. destruct (_ =? _); [by eexists|]. ask (answers_msti_port _ Hwf k (P1 k Hk)) Hw. by eexists. }
  unfold msti_port_values. rewrite Hms. by eexists.
Qed.

Lemma bridge_has_value b w : s_bridges s !! b = Some w → is_Some (bridge_value s b).
Proof.
  intros Hw. pose proof (lent_wf _ _ Hw) as Hwf. unfold bridge_value. ask (answers_cist_bridge _ Hwf) Hw.
  assert (Hbr : answers (lend_to s w) get_br (λ _, True)) by by apply wp_get_br. ask Hbr Hw.
  match goal with |- context [collect ?f ?l] => destruct (collect_some f l) as [ports ->] end.
  { intros i _. destruct (_ || _) eqn:Ho; [by eexists|]. apply orb_false_iff in Ho as [Hi _].
    destruct (port_has_value i) as [v ->]; [|by eexists]. apply bool_decide_eq_false in Hi.
    unfold in_use. by destruct (ps_prt (slot s i)). }
  cbn [mbind option_bind].
  assert (Ht : answers (lend_to s w) trees_of_bridge (λ l, ∀ t, t ∈ l → t ∈ br_trees (w_br w)))
    by by apply wp_bind, wp_get_br, wp_ret.
  ask Ht Hw. unfold msti_bridge_values.
  match goal with |- context [collect ?f ?l] => destruct (collect_some f l) as [ms ->] end; [|by eexists].
  intros t Hin. destruct (_ =? _); [by eexists|]. ask (answers_msti_bridge _ Hwf t (P1 t Hin)) Hw. by eexists.
Qed.

Lemma topology_has_value : is_Some (topology_value s).
Proof.
  unfold topology_value. match goal with |- context [collect ?f ?l] => destruct (collect_some f l) as [v ->] end; [|by eexists].
  intros i _. destruct (s_bridges s !! i) as [w|] eqn:Hw; [|by eexists].
  destruct (bridge_has_value i w Hw) as [v ->]. by eexists.
Qed.
End values.

(** ** The values can be printed and read *)

Definition field_ok (f : list Z * json) : Prop := octets_ok f.1 ∧ json_ok f.2.

Lemma octets_chars k : octets_ok (chars k).
Proof. apply Forall_forall. intros c (a & -> & _)%list_elem_of_fmap. lia. Qed.
Lemma octets_u8 l : octets_ok (map u8 l).
Proof. apply Forall_forall. intros c (a & -> & _)%list_elem_of_fmap. by apply Z.mod_pos_bound. Qed.

Lemma uint_field_ok k v : field_ok (uint_field k v).
Proof. split; [apply octets_chars|]. cbn. unfold u32. pose proof (Z.mod_pos_bound v (2 ^ 32)). lia. Qed.
Lemma int_field_ok k v : field_ok (int_field k v).
Proof. split; [apply octets_chars|]. cbn. unfold s32. pose proof (Z.mod_pos_bound (v + 2 ^ 31) (2 ^ 32)). lia. Qed.
Lemma bool_field_ok k v : field_ok (bool_field k v).
Proof. split; [apply octets_chars|done]. Qed.
Lemma str_field_ok k v : field_ok (str_field k v).
Proof. split; [apply octets_chars|apply octets_u8]. Qed.
Lemma array_field_ok k l : Forall json_ok l → field_ok (chars k, JArr l).
Proof. intros Hl. split; [apply octets_chars|]. by apply foldr_and. Qed.
Lemma object_ok l : Forall field_ok l → json_ok (JObj l).
Proof. intros Hl. by apply foldr_and. Qed.
Lemma bridge_id_field_ok k v : field_ok (bridge_id_field k v).
Proof. apply str_field_ok. Qed.

Create HintDb fields.
#[export] Hint Resolve uint_field_ok int_field_ok bool_field_ok str_field_ok bridge_id_field_ok
  array_field_ok : fields.
Ltac fields_ok :=
  repeat first [ apply Forall_nil_2 | apply Forall_cons_2; [by auto with fields|] | apply Forall_app; split
               | assumption ].

Lemma collect_Forall {A B} (P : B → Prop) (f : A → option (list B)) l vs :
  (∀ x v, f x = Some v → Forall P v) → collect f l = Some vs → Forall P vs.
Proof.
  intros Hf. revert vs. induction l as [|x l IH]; intros vs H; cbn [collect] in H; [by injection H as <-|].
  apply bind_Some in H as (xs & Hx & (r & Hr & [= <-])%bind_Some). apply Forall_app. split; [by eapply Hf|by apply IH].
Qed.

(** An item that may be left out. *)
Lemma item_ok {A} (P : json → Prop) (b : bool) (m : option A) g v :
  (if b then Some [] else a ← m; Some [g a]) = Some v → (∀ a, m = Some a → P (g a)) → Forall P v.
Proof.
  intros H Hp. destruct b; [by injection H as <-|]. apply bind_Some in H as (a & Ha & [= <-]).
  apply Forall_singleton. by apply Hp.
Qed.

Section printable.
Context (s : sim).

Lemma msti_ports_ok b ks l : msti_port_values s b ks = Some l → Forall json_ok l.
Proof.
  apply collect_Forall. intros k v H. eapply (item_ok _ _ _ (msti_port_value k)); [exact H|].
  intros mst _. apply object_ok. fields_ok.
Qed.
Lemma msti_bridges_ok b ts l : msti_bridge_values s b ts = Some l → Forall json_ok l.
Proof.
  apply collect_Forall. intros t v H. eapply (item_ok _ _ _ (msti_bridge_value t)); [exact H|].
  intros mst _. apply object_ok. fields_ok.
Qed.
Lemma cist_fields_ok b o l : cist_fields s b o = Some l → Forall field_ok l.
Proof.
  destruct o as [k|]; cbn [cist_fields]; [|by intros [= <-]]. intros (x & _ & ->)%fmap_Some. fields_ok.
Qed.

Lemma port_value_ok h j : port_value s h = Some j → json_ok j.
Proof.
  unfold port_value. intros (prt & _ & H)%bind_Some. apply bind_Some in H as (x & _ & H).
  apply bind_Some in H as (st & _ & H). apply bind_Some in H as (c & _ & H).
  apply bind_Some in H as (fs & Hc%cist_fields_ok & H). apply bind_Some in H as (ks & _ & H).
  apply bind_Some in H as (ms & Hm%msti_ports_ok & [= <-]). apply object_ok.
  unfold port_id_fields. fields_ok.
Qed.

Lemma bridge_value_ok b j : bridge_value s b = Some j → json_ok j.
Proof.
  unfold bridge_value. intros (st & _ & H)%bind_Some. apply bind_Some in H as (br & _ & H).
  apply bind_Some in H as (ports & Hp & H). apply bind_Some in H as (ts & _ & H).
  apply bind_Some in H as (ms & Hm%msti_bridges_ok & [= <-]). apply object_ok.
  assert (Forall json_ok ports).
  { revert Hp. apply collect_Forall. intros i v H. eapply (item_ok _ _ _ (λ v, v)); [exact H|].
    intros a. apply port_value_ok. }
  fields_ok.
Qed.

Lemma topology_value_ok j : topology_value s = Some j → json_ok j.
Proof.
  unfold topology_value. intros (bs & Hb & [= <-])%bind_Some. apply object_ok.
  assert (Forall json_ok bs).
  { revert Hb. apply collect_Forall. intros i v H. eapply (item_ok _ _ _ (λ v, v)); [exact H|].
    intros a. apply bridge_value_ok. }
  fields_ok.
Qed.
End printable.

(** ** The theorems *)

(** The document that [m] returns is that of [j]: unless it has 2 GiB, it is returned and
    read back as [j], and the simulation is as it was. *)
Definition is_document (m : N (option (list Z))) (j : json) (s : sim) : Prop :=
  fits (json_text j) → ∃ text, m s = NDone (Some text) s ∧ parse_json text = Some j.

Lemma writes_document s (m : sb_t → N sb_t) j : s_calloc s = [] → writes s m (json_text j) → json_ok j →
  is_document (s ← sb_init; s ← m s; mret (sb_result s)) j s.
Proof.
  intros Hs Hm Hj Hf. destruct (document s Hs m _ _ Hm Hf) as (b & (Hb & _) & Ht & Hd).
  exists (json_text j). split; [|by apply parse_json_text]. unfold mbind, N_bind in *.
  destruct (sb_init s) as [b0 s0| |]; [|done|done]. rewrite Hd. unfold mret, N_ret, sb_result.
  by rewrite Hb, Ht.
Qed.

Lemma topology_text s j : s_calloc s = [] → topology_value s = Some j →
  writes s (λ s, s ← sb_printf [123] s;
                 w ← nread;
                 o ← sb_kv_uint "frames_delivered" (s_delivered w) (s, true);
                 o ← sb_key "bridges" o;
                 s ← sb_printf [91] o.1;
                 o ← nfold json_topology_bridge (zrange 0 (MSTPW_MAX_BRIDGES - 1)) (s, true);
                 sb_printf [93; 125] o.1) (json_text j).
Proof.
  intros Hs. unfold topology_value. intros (bs & Hb & [= <-])%bind_Some. cbn [json_text].
  change (λ f, string_text f.1 ++ 58 :: json_text f.2) with field_text.
  match goal with |- outs _ _ _ (123 :: ?t) => change (123 :: t) with ([123] ++ t) end.
  eapply outs_bind; [by apply writes_printf|]. cbv beta. apply (outs_run s nread s); [done|]. cbn [map].
  eapply outs_add; [by apply adds_uint|]. cbv beta. rewrite array_text by done.
  eapply outs_bind; [by apply outs_key|]. cbv beta. cbn [fst].
  eapply outs_bind; [by apply writes_printf|]. cbv beta.
  eapply outs_bind; [eapply nfold_collect; [|exact Hb]|cbn [separated app fst]; by apply writes_printf].
  intros i vs first _. by apply bridge_items.
Qed.

Lemma init_done s : s_calloc s = [] → sb_init s = NDone (mk_sb (Some 1024) [] 1024) s.
Proof. intros Hs. unfold sb_init, mbind, N_bind. by rewrite nalloc_true. Qed.

(** A document for a handle: null if the handle is not good. *)
Lemma handle_document s (good : sim → bool) (m : sb_t → N sb_t) j : s_calloc s = [] →
  (if good s then writes s m (json_text j) ∧ json_ok j else j = JNull) →
  is_document (s ← sb_init; w ← nread; s ← (if negb (good w) then sb_printf NULL_TEXT s else m s);
               mret (sb_result s)) j s.
Proof.
  intros Hc Hj.
  assert (Hd : is_document (s' ← sb_init; s' ← (if negb (good s) then sb_printf NULL_TEXT else m) s';
                            mret (sb_result s')) j s).
  { apply writes_document; [done|..]; (destruct (good s); [apply Hj|subst j]); [by apply writes_printf|done]. }
  intros Hf. destruct (Hd Hf) as (text & H & Hp). exists text. split; [|done].
  unfold mbind, N_bind in *. rewrite init_done in * by done. unfold nread. by destruct (good s).
Qed.

(** ** When memory runs out *)

(** C20: when the realloc of a growing document is refused, whatever has been written so far,
    the builder leaves the buffer as it was but keeps the doubled capacity: the text that was
    too long is dropped without a word, and any later text that fits the capacity and not the
    buffer is written past the end of the buffer. *)
Theorem refused_realloc_overflows s b l t1 t2 : s_calloc s = false :: l → sb_good b → sb_cap b < 2 ^ 31 →
  sb_cap b < sb_len b + Z.of_nat (length t1) + 1 <= 2 * sb_cap b →
  sb_cap b < sb_len b + Z.of_nat (length t2) + 1 <= 2 * sb_cap b →
  ∃ b' s', sb_printf t1 b s = NDone b' s' ∧ sb_text b' = sb_text b ∧ sb_printf t2 b' s' = NFault.
Proof.
  intros Hs (Hb & Hl & k & Hk & Hc) Hlt H1 H2.
  assert (0 <= sb_len b) by (unfold sb_len; lia). assert (0 < 2 ^ Z.of_nat k) by (apply Z.pow_pos_nonneg; lia).
  assert (Hk' : (k < 21)%nat).
  { destruct (decide (k = 21)%nat) as [->|]; [|lia]. change (1024 * 2 ^ Z.of_nat 21) with (2 ^ 31) in Hc. lia. }
  assert (2 ^ Z.of_nat k <= 2 ^ 20) by (apply Z.pow_le_mono_r; lia).
  assert (Hu : ∀ t : list Z, sb_len b + Z.of_nat (length t) + 1 <= 2 * sb_cap b →
    u32 (sb_len b + Z.of_nat (length t) + 1) = sb_len b + Z.of_nat (length t) + 1).
  { intros t Ht. unfold u32. rewrite Z.mod_small; lia. }
  exists (b <| sb_cap := 2 * sb_cap b |>), (s <| s_calloc := l |>). split; [|split; [done|]].
  - unfold sb_printf. rewrite Hb. destruct (Z.ltb_spec INT_MAX (Z.of_nat (length t1))) as [Hi|_]; [unfold INT_MAX in Hi; lia|].
    rewrite Hu by lia. destruct (Z.ltb_spec (sb_cap b) (sb_len b + Z.of_nat (length t1) + 1)); [|lia].
    cbn [sb_double]. destruct (Z.ltb_spec (sb_cap b) (sb_len b + Z.of_nat (length t1) + 1)); [|lia].
    assert (u32 (sb_cap b * 2) = 2 * sb_cap b) as -> by (unfold u32; rewrite Z.mod_small; lia).
    destruct (Z.ltb_spec (2 * sb_cap b) (sb_len b + Z.of_nat (length t1) + 1)); [lia|].
    unfold mbind, N_bind, nalloc. by rewrite Hs.
  - unfold sb_printf. cbn. rewrite Hb. destruct (Z.ltb_spec INT_MAX (Z.of_nat (length t2))) as [Hi|_]; [unfold INT_MAX in Hi; lia|].
    change (sb_len (b <| sb_cap := 2 * sb_cap b |>)) with (sb_len b). rewrite Hu by lia.
    destruct (Z.ltb_spec (2 * sb_cap b) (sb_len b + Z.of_nat (length t2) + 1)); [lia|].
    unfold sb_append. cbn. rewrite Hb. change (sb_len (b <| sb_cap := 2 * sb_cap b |>)) with (sb_len b).
    destruct (Z.leb_spec (sb_len b + Z.of_nat (length t2) + 1) (sb_cap b)); [lia|done].
Qed.

Inductive verdict := Returned (text : bool) | Overflow | Endless.
Definition verdict_of (o : noutcome (option (list Z))) : verdict :=
  match o with NDone t _ => Returned (bool_decide (is_Some t)) | NFault => Overflow | NOutOfFuel => Endless end.

(** The outcomes of the document of the bridge with a cable between its ports, for outcomes
    of malloc and realloc. *)
Definition looped_json (allocs : list (list bool)) : option (list verdict) :=
  s ← run looped (new_sim []);
  Some (map (λ l, verdict_of (mstpw_bridge_json 0 (s <| s_calloc := l |>))) allocs).

Lemma refused_realloc_overflows_witness : ∃ b' s',
  sb_printf (replicate 100 65) (mk_sb (Some 1024) (replicate 1000 32) 1024) (new_sim [] <| s_calloc := [false] |>) = NDone b' s' ∧
  sb_text b' = replicate 1000 32 ∧ sb_printf (replicate 50 66) b' s' = NFault.
Proof.
  apply (refused_realloc_overflows (new_sim [] <| s_calloc := [false] |>) (mk_sb (Some 1024) (replicate 1000 32) 1024) []
    (replicate 100 65) (replicate 50 66)).
  - reflexivity.
  - split; [reflexivity|]. split; [vm_compute; discriminate|]. exists 0%nat. split; [lia|reflexivity].
  - reflexivity.
  - split; [vm_compute; reflexivity|vm_compute; discriminate].
  - split; [vm_compute; reflexivity|vm_compute; discriminate].
Defined.

(** It happens in the document of a bridge with two ports.  When the first malloc is refused
    the document is NULL. *)
Example bridge_document_overflows :
  looped_json [[false]; [true; false]] = Some [Returned false; Overflow].
Proof. vm_compute. reflexivity. Qed.
