(* ===== verification/Captures.v ===== *)
(** The capture of the simulation: the ring of g_capture holds the BPDUs transmitted last,
    the oldest first, after any calls of the API. *)
From S2P Require Import Prelude Types Monad Clib Vectors Outputs Wire Procs Bridge Mgmt Kernel Track Tables Sim Wf.
From S2P Require Import Sample Follows Moves Cables Simulation Queue Network Ring JsonText Builder Documents Topology.

(** ** The frames, in the order of mstpw_capture_json

    A slot that was never used is all zeros. *)
Definition zero_frame : capture_frame_t := mk_capture_frame 0 0 0 0 [] [].
Definition captured_at (c : capture_t) (i : Z) : capture_frame_t :=
  default zero_frame (cap_ring c !! ((cap_head c + i) mod MSTPW_CAPTURE_CAP)).
Definition captured (c : capture_t) : list capture_frame_t := map (captured_at c) (zrange 0 (cap_count c - 1)).

Definition last_n {A} (n : nat) (l : list A) : list A := drop (length l - n) l.
Definition capacity : nat := Z.to_nat MSTPW_CAPTURE_CAP.

(** The indices are in range and the slots between them in use. *)
Definition capture_ok (c : capture_t) : Prop :=
  0 <= cap_head c < MSTPW_CAPTURE_CAP ∧ 0 <= cap_count c <= MSTPW_CAPTURE_CAP ∧
  ∀ i, 0 <= i < cap_count c → is_Some (cap_ring c !! ((cap_head c + i) mod MSTPW_CAPTURE_CAP)).

(** *** Lists *)

Lemma last_n_short {A} n (l : list A) : (length l <= n)%nat → last_n n l = l.
Proof. intros H. unfold last_n. by replace (length l - n)%nat with 0%nat by lia. Qed.
Lemma length_last_n {A} n (l : list A) : (length (last_n n l) <= n)%nat.
Proof. unfold last_n. rewrite length_drop. lia. Qed.
Lemma last_n_app {A} n (l1 l2 : list A) : last_n n (last_n n l1 ++ l2) = last_n n (l1 ++ l2).
Proof.
  unfold last_n. rewrite !length_app, length_drop.
  destruct (decide (length l1 <= n)%nat) as [Hl|Hl].
  - by replace (length l1 - n)%nat with 0%nat by lia; rewrite drop_0, Nat.sub_0_r.
  - replace (length l1 - (length l1 - n) + length l2 - n)%nat with (length l2) by lia.
    rewrite !drop_app, length_drop, drop_drop. f_equal; [f_equal; lia|f_equal; lia].
Qed.

Lemma length_zrange lo hi : length (zrange lo hi) = Z.to_nat (hi - lo + 1).
Proof. unfold zrange. by rewrite length_map, length_seq. Qed.
Lemma zrange_lookup lo hi i : (i < Z.to_nat (hi - lo + 1))%nat → zrange lo hi !! i = Some (lo + Z.of_nat i).
Proof. intros Hi. unfold zrange. rewrite list_lookup_fmap, lookup_seq_lt by done. done. Qed.

Lemma length_captured c : length (captured c) = Z.to_nat (cap_count c).
Proof. unfold captured. rewrite length_map, length_zrange. f_equal. lia. Qed.
Lemma captured_lookup c i : (i < Z.to_nat (cap_count c))%nat → captured c !! i = Some (captured_at c (Z.of_nat i)).
Proof. intros Hi. unfold captured. rewrite list_lookup_fmap, zrange_lookup by lia. done. Qed.

(** ** One frame *)

Definition frame_of (c : capture_t) (now port : Z) (src data : list Z) (len : Z) : capture_frame_t :=
  mk_capture_frame now (if now =? cap_t c then cap_subsec c else 0) port len src data.

Lemma mod_add_small a b : 0 <= a < MSTPW_CAPTURE_CAP → 0 <= b < MSTPW_CAPTURE_CAP →
  (a + b) mod MSTPW_CAPTURE_CAP = if a + b <? MSTPW_CAPTURE_CAP then a + b else a + b - MSTPW_CAPTURE_CAP.
Proof.
  unfold MSTPW_CAPTURE_CAP. intros Ha Hb. destruct (Z.ltb_spec (a + b) 8192); [apply Z.mod_small; lia|].
  symmetry. apply (Z.mod_unique _ _ 1); lia.
Qed.

(** A slot other than the one written keeps its frame; this one has the new frame. *)
Lemma captured_at_push c now port src data len i :
  capture_ok c → 0 <= i < MSTPW_CAPTURE_CAP →
  let c' := capture_push c now port src data len in
  captured_at c' i =
    if cap_count c <? MSTPW_CAPTURE_CAP
    then if i =? cap_count c then frame_of c now port src data len else captured_at c i
    else if i =? MSTPW_CAPTURE_CAP - 1 then frame_of c now port src data len else captured_at c (i + 1).
Proof.
  intros (Hh & Hn & _) Hi c'. subst c'. unfold capture_push, frame_of, captured_at.
  replace (if now ≠? cap_t c then c <| cap_t := now |> <| cap_subsec := 0 |> else c)
    with (c <| cap_t := now |> <| cap_subsec := if now =? cap_t c then cap_subsec c else 0 |>).
  2: { destruct (Z.eqb_spec now (cap_t c)) as [->|]; cbn; [by destruct c|done]. }
  cbn. destruct (Z.ltb_spec (cap_count c) MSTPW_CAPTURE_CAP) as [Hl|Hl]; cbn.
  - rewrite !mod_add_small by lia. destruct (Z.eqb_spec i (cap_count c)) as [->|Hne].
    + by rewrite lookup_insert_eq.
    + rewrite lookup_insert_ne; [done|]. intros He. apply Hne.
      destruct (Z.ltb_spec (cap_head c + cap_count c) MSTPW_CAPTURE_CAP),
        (Z.ltb_spec (cap_head c + i) MSTPW_CAPTURE_CAP); lia.
  - assert (cap_count c = MSTPW_CAPTURE_CAP) as Hc by lia.
    assert (E : (cap_head c + 1) mod MSTPW_CAPTURE_CAP + i = cap_head c + 1 + i ∨ cap_head c + 1 = MSTPW_CAPTURE_CAP ∧
      (cap_head c + 1) mod MSTPW_CAPTURE_CAP = 0).
    { destruct (decide (cap_head c + 1 = MSTPW_CAPTURE_CAP)) as [E|]; [right; by rewrite E|left].
      rewrite Z.mod_small; [done|]. lia. }
    assert (Hm : ((cap_head c + 1) mod MSTPW_CAPTURE_CAP + i) mod MSTPW_CAPTURE_CAP =
                 (cap_head c + (i + 1)) mod MSTPW_CAPTURE_CAP).
    { rewrite Z.add_mod_idemp_l by (unfold MSTPW_CAPTURE_CAP; lia). f_equal. lia. }
    rewrite Hm. destruct (Z.eqb_spec i (MSTPW_CAPTURE_CAP - 1)) as [->|Hne].
    + replace (cap_head c + (MSTPW_CAPTURE_CAP - 1 + 1)) with (cap_head c + 1 * MSTPW_CAPTURE_CAP) by lia.
      rewrite Z.mod_add, Z.mod_small, lookup_insert_eq by (lia || (unfold MSTPW_CAPTURE_CAP; lia)). done.
    + rewrite lookup_insert_ne; [done|]. rewrite mod_add_small by lia.
      destruct (Z.ltb_spec (cap_head c + (i + 1)) MSTPW_CAPTURE_CAP); lia.
Qed.

Lemma cap_count_push c now port src data len :
  cap_count (capture_push c now port src data len) =
    if cap_count c <? MSTPW_CAPTURE_CAP then cap_count c + 1 else cap_count c.
Proof. unfold capture_push. destruct (now ≠? cap_t c); cbn; by destruct (_ <? _). Qed.
Lemma cap_on_push c now port src data len : cap_on (capture_push c now port src data len) = cap_on c.
Proof. unfold capture_push. destruct (now ≠? cap_t c); cbn; by destruct (_ <? _). Qed.

(** The ring is the list of the last frames. *)
Lemma captured_push c now port src data len : capture_ok c →
  captured (capture_push c now port src data len) =
    last_n capacity (captured c ++ [frame_of c now port src data len]).
Proof.
  intros Hc. pose proof Hc as (Hh & Hn & _). assert (0 < MSTPW_CAPTURE_CAP) by done.
  apply list_eq. intros i. unfold last_n, capacity. rewrite length_app, length_captured. cbn [length].
  rewrite lookup_drop.
  destruct (decide (i < Z.to_nat (cap_count (capture_push c now port src data len)))%nat) as [Hi|Hi].
  - rewrite captured_lookup by done. rewrite cap_count_push in Hi.
    destruct (Z.ltb_spec (cap_count c) MSTPW_CAPTURE_CAP) as [Hl|Hl].
    + replace (Z.to_nat (cap_count c) + 1 - Z.to_nat MSTPW_CAPTURE_CAP)%nat with 0%nat by lia. cbn [Nat.add].
      rewrite captured_at_push by (done || lia). destruct (Z.ltb_spec (cap_count c) MSTPW_CAPTURE_CAP); [|lia].
      destruct (Z.eqb_spec (Z.of_nat i) (cap_count c)) as [He|He].
      * rewrite lookup_app_r by (rewrite length_captured; lia). rewrite length_captured.
        by replace (i - Z.to_nat (cap_count c))%nat with 0%nat by lia.
      * rewrite lookup_app_l by (rewrite length_captured; lia). by rewrite captured_lookup by lia.
    + replace (Z.to_nat (cap_count c) + 1 - Z.to_nat MSTPW_CAPTURE_CAP)%nat with 1%nat by lia. cbn [Nat.add].
      rewrite captured_at_push by (done || lia). destruct (Z.ltb_spec (cap_count c) MSTPW_CAPTURE_CAP); [lia|].
      destruct (Z.eqb_spec (Z.of_nat i) (MSTPW_CAPTURE_CAP - 1)) as [He|He].
      * rewrite lookup_app_r by (rewrite length_captured; lia). rewrite length_captured.
        by replace (S i - Z.to_nat (cap_count c))%nat with 0%nat by lia.
      * rewrite lookup_app_l by (rewrite length_captured; lia). rewrite captured_lookup by lia. 
        by rewrite Nat2Z.inj_succ.
  - rewrite (proj2 (lookup_ge_None _ _)) by (rewrite length_captured; lia).
    symmetry. apply lookup_ge_None. rewrite length_app, length_captured. cbn [length].
    rewrite cap_count_push in Hi. destruct (Z.ltb_spec (cap_count c) MSTPW_CAPTURE_CAP); lia.
Qed.

Lemma capture_ok_push c now port src data len : capture_ok c → capture_ok (capture_push c now port src data len).
Proof.
  intros (Hh & Hn & Hr). assert (H0 : 0 < MSTPW_CAPTURE_CAP) by done. unfold capture_push.
  replace (if now ≠? cap_t c then c <| cap_t := now |> <| cap_subsec := 0 |> else c)
    with (c <| cap_t := now |> <| cap_subsec := if now =? cap_t c then cap_subsec c else 0 |>).
  2: { destruct (Z.eqb_spec now (cap_t c)) as [->|]; cbn; [by destruct c|done]. }
  cbn. destruct (Z.ltb_spec (cap_count c) MSTPW_CAPTURE_CAP) as [Hl|Hl]; unfold capture_ok; cbn.
  - split; [done|]. split; [lia|]. intros i Hi. destruct (decide (i = cap_count c)) as [->|]; [rewrite lookup_insert_eq; by eexists|].
    apply lookup_insert_is_Some'. right. apply Hr. lia.
  - split; [by apply Z.mod_pos_bound|]. split; [lia|]. intros i Hi. apply lookup_insert_is_Some'.
    rewrite Z.add_mod_idemp_l by lia. destruct (decide (i = MSTPW_CAPTURE_CAP - 1)) as [->|]; [left|right].
    + replace (cap_head c + 1 + (MSTPW_CAPTURE_CAP - 1)) with (cap_head c + 1 * MSTPW_CAPTURE_CAP) by lia.
      rewrite Z.mod_add by lia. by rewrite Z.mod_small.
    + replace (cap_head c + 1 + i) with (cap_head c + (i + 1)) by lia. apply Hr. lia.
Qed.

(** ** Any call *)

(** The frames of [l] were captured in between, if capturing is on. *)
Definition captures (s s' : sim) : Prop :=
  cap_on (s_capture s') = cap_on (s_capture s) ∧
  (capture_ok (s_capture s) → capture_ok (s_capture s') ∧
    ∃ l, captured (s_capture s') = last_n capacity (captured (s_capture s) ++ l) ∧
         (cap_on (s_capture s) = false → l = [])).

Lemma captured_short c : capture_ok c → last_n capacity (captured c) = captured c.
Proof. intros (_ & Hn & _). apply last_n_short. rewrite length_captured. unfold capacity. lia. Qed.

#[export] Instance captures_preorder : PreOrder captures.
Proof.
  split.
  - intros s. split; [done|]. intros Hs. split; [done|]. exists []. by rewrite app_nil_r, captured_short.
  - intros s1 s2 s3 [H1 H1'] [H2 H2']. split; [congruence|]. intros Hs.
    destruct (H1' Hs) as (Hs2 & l & Hl & Hoff). destruct (H2' Hs2) as (Hs3 & l' & Hl' & Hoff').
    split; [done|]. exists (l ++ l'). rewrite Hl', Hl, last_n_app, <- app_assoc. split; [done|].
    intros Ho. rewrite Hoff by done. apply Hoff'. congruence.
Qed.

Lemma captures_same s s' : s_capture s' = s_capture s → captures s s'.
Proof.
  intros E. unfold captures. rewrite E. split; [done|]. intros Hs. split; [done|]. exists [].
  by rewrite app_nil_r, captured_short.
Qed.

Lemma captures_alloc : moves captures nalloc.
Proof. apply moves_alloc. intros s l. by apply captures_same. Qed.
Lemma captures_upd_slot h f : moves captures (upd_slot h f).
Proof. apply moves_upd_slot. intros s l. by apply captures_same. Qed.
#[local] Hint Resolve captures_alloc captures_upd_slot : moves.
#[local] Hint Extern 1 (moves captures (nupd _)) => apply moves_upd; intros ?; by apply captures_same : moves.

Lemma captures_record port src data len : moves captures (capture_record port src data len).
Proof.
  intros s a s'. unfold capture_record. unfold mbind, N_bind, nread. destruct (cap_on (s_capture s)) eqn:Hon; [|by intros [= _ <-]].
  cbn [negb]. destruct (nalloc s) as [ok s1| |] eqn:Ha; [|done|done].
  assert (Hc : captures s s1) by by apply captures_alloc in Ha. destruct ok; cbn [negb]; [|by intros [= _ <-]].
  intros [= _ <-]. etrans; [exact Hc|]. split; [apply cap_on_push|]. intros Hs.
  split; [by apply capture_ok_push|]. eexists. split; [by apply captured_push|].
  intros Hoff. destruct Hc as [He _]. congruence.
Qed.
#[local] Hint Resolve captures_record : moves.

Lemma captures_call_with shutdown b {A} (m : M A) : moves captures shutdown → moves captures (call_with shutdown b m).
Proof.
  intros Hs. apply moves_call; [|intros []; cbn [perform]; moves_auto]. intros s w w' _. by apply captures_same.
Qed.
Lemma captures_call b {A} (m : M A) : moves captures (call b m).
Proof. apply captures_call_with. apply moves_fault. Qed.
#[local] Hint Resolve captures_call : moves.
Lemma captures_sync a b : moves captures (sync_carrier a b).
Proof. moves_auto. Qed.
#[local] Hint Resolve captures_sync : moves.
Lemma captures_shutdown h : moves captures (sim_shutdown_port h).
Proof. moves_auto. Qed.
Lemma captures_rx h b {A} (m : M A) : moves captures (call_with (sim_shutdown_port h) b m).
Proof. apply captures_call_with, captures_shutdown. Qed.
#[local] Hint Resolve captures_rx : moves.

Section calls.
Context (stack : list Z) (behind : frame_t → list Z).

Lemma captures_wave wave : ∀ g d, moves captures (deliver_wave behind wave g d).
Proof. induction wave; intros g d; cbn [deliver_wave]; moves_auto. Qed.
#[local] Hint Resolve captures_wave : moves.
Lemma captures_rounds n : ∀ g d, moves captures (deliver_rounds behind n g d).
Proof. induction n; intros g d; cbn [deliver_rounds]; moves_auto. Qed.
#[local] Hint Resolve captures_rounds : moves.
Lemma captures_seconds n : moves captures (step_seconds behind n).
Proof. induction n; cbn [step_seconds]; moves_auto. Qed.
#[local] Hint Resolve captures_seconds : moves.

Lemma captures_api c : (∀ on, c ≠ ApiCaptureEnable on) → moves captures (serve_api stack behind c).
Proof. intros Hc. destruct c; cbn [serve_api]; try (by destruct (Hc on)); moves_auto. Qed.
End calls.

(** ** The documents *)

Section capture_documents.
Context (s : sim).

Definition port_of (h : Z) : option port_t :=
  prt ← ps_prt (slot s h); s_bridges s !! prt.1 ≫= λ w, w_ports w !! prt.2.

Definition names_fields (h : Z) : option (list (list Z * json)) :=
  if negb (port_handle_ok h s) then Some [] else
  x ← port_of h;
  Some [str_field "port_name" (chars (name (prt_sysdeps x)));
        str_field "bridge" match s_bridges s !! ps_brh (slot s h) with
                           | Some v => chars (br_name (br_sysdeps (w_br v)))
                           | None => []
                           end].

Definition captured_value (f : capture_frame_t) : option json :=
  names ← names_fields (c_port f);
  Some (JObj ([uint_field "t" (c_t f); uint_field "subsec" (c_subsec f); int_field "port" (c_port f)] ++ names ++
              [hex_field "src" (c_src f); hex_field "data" (c_data f)])).

(** The filter of a document: every frame, or those of the link of a port. *)
Definition mac_value (h : Z) : option (option (list Z)) :=
  if negb (port_handle_ok h s) then Some None else
  x ← port_of h; Some (Some (macaddr (prt_sysdeps x))).
Definition filter_value (porth : Z) : option (list Z → bool) :=
  localmac ← (if 0 <=? porth then mac_value porth else Some None);
  peermac ← (if bool_decide (is_Some localmac) then mac_value (ps_peer (slot s porth)) else Some None);
  Some (on_link (0 <=? porth) localmac peermac).

Definition capture_value (porth : Z) : option json :=
  wanted ← filter_value porth;
  l ← collect (λ f, if negb (wanted (c_src f)) then Some [] else v ← captured_value f; Some [v])
        (captured (s_capture s));
  Some (JArr l).

(** *** Texts *)

Context (Hs : s_calloc s = []).

Lemma port_of_read h prt x : ps_prt (slot s h) = Some prt → port_of h = Some x → read_prt prt s = NDone x s.
Proof. unfold port_of, read_prt. intros ->. cbn [mbind option_bind]. by intros ->. Qed.

Lemma port_of_prt h x : port_of h = Some x → ∃ prt, ps_prt (slot s h) = Some prt ∧ read_prt prt s = NDone x s.
Proof.
  intros H. pose proof H as H'. unfold port_of in H. apply bind_Some in H as (prt & Hp & _). exists prt.
  split; [done|]. by eapply port_of_read.
Qed.

Lemma names_text h fs : names_fields h = Some fs → adds s (names_of h) false (map field_text fs).
Proof.
  unfold names_fields, names_of. intros H. apply (outs_run s nread s); [done|].
  destruct (negb _); [injection H as <-; apply adds_ret|]. apply bind_Some in H as (x & Hx & [= <-]).
  destruct (port_of_prt h x Hx) as (prt & -> & Hr). apply (outs_run s _ x); [done|].
  cbn [map]. rewrite <- (app_nil_r (separated _ _)). eapply outs_add; [by apply adds_str|]. cbv beta.
  rewrite app_nil_r. by apply adds_str.
Qed.

Lemma captured_text wanted i vs first :
  is_Some (cap_ring (s_capture s) !! ((cap_head (s_capture s) + i) mod MSTPW_CAPTURE_CAP)) →
  (let f := captured_at (s_capture s) i in
   if negb (wanted (c_src f)) then Some [] else v ← captured_value f; Some [v]) = Some vs →
  adds s (json_captured wanted i) first (map json_text vs).
Proof.
  intros [f Hf] H. unfold captured_at in H. rewrite Hf in H. cbn [default from_option id] in H.
  unfold json_captured. apply (outs_run s nread s); [done|]. cbv zeta. rewrite Hf.
  destruct (negb _); [injection H as <-; apply adds_ret|]. apply bind_Some in H as (v & Hv & [= <-]).
  unfold captured_value in Hv. apply bind_Some in Hv as (ns & Hn & [= <-]).
  cbn [map separated seen]. rewrite app_nil_r, object_text. eapply outs_bind; [by apply writes_printf|]. cbv beta.
  cbn [map app]. rewrite map_app. cbn [map].
  do 2 (eapply outs_add; [by apply adds_uint|]; cbv beta). eapply outs_add; [by apply adds_int|]. cbv beta.
  eapply outs_more; [by apply names_text|]. cbv beta. do 2 (eapply outs_add; [by apply adds_hex|]; cbv beta).
  cbn [separated app fst]. rewrite <- (app_nil_r [125]).
  eapply (outs_bind _ _ (λ b, b)); [by apply writes_printf|apply (outs_ret s (λ b, (b, false)))].
Qed.

Lemma mac_reads h o : mac_value h = Some o → mac_of h s = NDone o s.
Proof.
  unfold mac_value, mac_of, mbind, N_bind, nread. destruct (negb _); [by intros [= <-]|].
  intros (x & Hx & [= <-])%bind_Some. destruct (port_of_prt h x Hx) as (prt & -> & Hr). by rewrite Hr.
Qed.

Lemma collect_fmap {A B C} (g : C → A) (f : A → option (list B)) l : collect f (map g l) = collect (λ x, f (g x)) l.
Proof. induction l as [|x l IH]; [done|]. cbn [map collect]. by rewrite IH. Qed.

(** *** The queue *)

Definition queued_value (f : frame_t) : option json :=
  match f_data f with
  | _ :: _ :: version :: type :: rest =>
      let rst := type =? bpduTypeRST in
      let tcn := (version =? protoSTP) && (type =? bpduTypeTCN) in
      let flag n := flag_set (default 0 (head rest)) n in
      if (rst || negb tcn) && bool_decide (rest = []) then None else
      Some (JObj [uint_field "seq" (f_seq f); int_field "src" (f_src f); int_field "dst" (f_dst f);
                  bool_field "proposal" (rst && flag offsetProposal);
                  bool_field "agreement" (rst && flag offsetAgreement);
                  bool_field "tc" (tcn || flag offsetTc)])
  | _ => None
  end.
(** The frames after the one with the sequence number [since]. *)
Definition queue_value (since : Z) : option json :=
  l ← collect (λ f, if f_seq f <=? u32 since then Some [] else v ← queued_value f; Some [v]) (s_queue s);
  Some (JArr l).

Lemma queued_text since f vs first :
  (if f_seq f <=? u32 since then Some [] else v ← queued_value f; Some [v]) = Some vs →
  adds s (json_queued (u32 since) f) first (map json_text vs).
Proof.
  intros H. unfold json_queued. destruct (f_seq f <=? u32 since); [injection H as <-; apply adds_ret|].
  apply bind_Some in H as (v & Hv & [= <-]). unfold queued_value in Hv.
  destruct (f_data f) as [|x0 [|x1 [|version [|type rest]]]]; try done. cbv zeta in *.
  destruct (_ && bool_decide (rest = [])); [done|]. injection Hv as <-.
  cbn [map separated seen]. rewrite app_nil_r, object_text. eapply outs_bind; [by apply writes_printf|]. cbv beta.
  cbn [map app]. eapply outs_add; [by apply adds_uint|]. cbv beta.
  do 2 (eapply outs_add; [by apply adds_int|]; cbv beta). do 3 (eapply outs_add; [by apply adds_bool|]; cbv beta).
  cbn [separated app fst]. rewrite <- (app_nil_r [125]).
  eapply (outs_bind _ _ (λ b, b)); [by apply writes_printf|apply (outs_ret s (λ b, (b, false)))].
Qed.

Lemma queue_text since j : queue_value since = Some j →
  outs s (λ s, s ← sb_printf [91] s;
               w ← nread;
               o ← nfold (json_queued (u32 since)) (s_queue w) (s, true);
               sb_printf [93] o.1) (λ b, b) (json_text j).
Proof.
  unfold queue_value. intros (l & Hl & [= <-])%bind_Some. cbn [json_text].
  match goal with |- outs _ _ _ (91 :: ?t) => change (91 :: t) with ([91] ++ t) end.
  eapply outs_bind; [by apply writes_printf|]. cbv beta. apply (outs_run s nread s); [done|].
  eapply outs_bind; [eapply nfold_collect; [|exact Hl]|cbn [fst]; by apply writes_printf].
  intros f vs first _ Hv. by apply queued_text.
Qed.

Lemma capture_document porth j : capture_ok (s_capture s) → capture_value porth = Some j → json_ok j →
  is_document (mstpw_capture_json porth) j s.
Proof.
  intros (_ & _ & Hr) H Hj Hf. unfold capture_value in H. apply bind_Some in H as (wanted & Hw & H).
  apply bind_Some in H as (l & Hl & [= <-]). unfold filter_value in Hw.
  apply bind_Some in Hw as (local & Hlo & Hw). apply bind_Some in Hw as (peer & Hpe & [= <-]).
  unfold captured in Hl. rewrite collect_fmap in Hl.
  assert (Ht : outs s (λ b, s0 ← sb_printf [91] b;
                       o ← nfold (json_captured (on_link (0 <=? porth) local peer))
                             (zrange 0 (cap_count (s_capture s) - 1)) (s0, true);
                       sb_printf [93] o.1) (λ b, b) (json_text (JArr l))).
  { cbn [json_text]. match goal with |- outs _ _ _ (91 :: ?t) => change (91 :: t) with ([91] ++ t) end.
    eapply outs_bind; [by apply writes_printf|]. cbv beta.
    eapply outs_bind; [eapply nfold_collect; [|exact Hl]|cbn [fst]; by apply writes_printf].
    intros i vs first Hi%elem_of_zrange Hv. apply captured_text; [apply Hr; lia|exact Hv]. }
  destruct (document s Hs _ _ _ Ht Hf) as (b & (Hb & _) & Htx & Hd).
  exists (json_text (JArr l)). split; [|by apply parse_json_text].
  unfold mstpw_capture_json. unfold mbind, N_bind in *.
  assert (E1 : (if 0 <=? porth then mac_of porth else mret None) s = NDone local s).
  { destruct (0 <=? porth); [by apply mac_reads|by injection Hlo as <-]. }
  rewrite E1. unfold nread.
  assert (E2 : (if bool_decide (is_Some local) then mac_of (ps_peer (slot s porth)) else mret None) s = NDone peer s).
  { destruct (bool_decide _); [by apply mac_reads|by injection Hpe as <-]. }
  rewrite E2, init_done in * by done. 
  destruct (sb_printf [91] _ s) as [b1 s1| |]; [|done|done].
  destruct (nfold _ _ _ s1) as [[b2 first] s2| |]; [|done|done]. rewrite Hd. unfold mret, N_ret, sb_result.
  by rewrite Hb, Htx.
Qed.
End capture_documents.

Lemma api_cases c : (∃ on, c = ApiCaptureEnable on) ∨ ∀ on, c ≠ ApiCaptureEnable on.
Proof. destruct c; try (by right). left. by eexists. Qed.

Lemma reachable_capture_ok stack behind s : reachable_sim stack behind s → capture_ok (s_capture s).
Proof.
  assert (Hz : ∀ on, capture_ok (zero_capture <| cap_on := on |>)).
  { intros on. unfold capture_ok, MSTPW_CAPTURE_CAP. cbn. split; [lia|]. split; [lia|]. intros; lia. }
  induction 1 as [clock|clock allocs s _ IH|c clock allocs s r s' _ IH Hc]; [exact (Hz false)|exact IH|].
  destruct (api_cases c) as [[on ->]|Hne].
  - injection Hc as _ <-. apply (Hz on).
  - apply (captures_api stack behind c Hne) in Hc as [_ Hc]. by apply Hc.
Qed.

Section existence.
Context (stack : list Z) (Hstack : length stack = 64%nat).
Context (behind : frame_t → list Z) (Hbehind : ∀ f, (Z.to_nat sizeof_bpdu <= length (behind f))%nat).

Context (s : sim) (Hs : reachable_sim stack behind s).

Lemma port_of_some h : port_handle_ok h s = true → is_Some (port_of s h).
Proof.
  pose proof (reachable_tables _ Hstack _ Hbehind s Hs) as Hok. intros Hh. apply (SI_handle _ _ _ _ _ Hok) in Hh as [prt Hp].
  destruct (si_slot _ _ _ _ Hok h prt Hp) as (_ & _ & w & x & Hw & _ & Hx & _).
  unfold port_of. rewrite Hp. cbn [mbind option_bind]. rewrite Hw. cbn [mbind option_bind]. by exists x.
Qed.

Lemma names_some h : is_Some (names_fields s h).
Proof.
  unfold names_fields. destruct (port_handle_ok h s) eqn:Hh; [|by eexists]. cbn [negb].
  destruct (port_of_some h Hh) as [x ->]. by eexists.
Qed.
Lemma mac_some h : is_Some (mac_value s h).
Proof.
  unfold mac_value. destruct (port_handle_ok h s) eqn:Hh; [|by eexists]. cbn [negb].
  destruct (port_of_some h Hh) as [x ->]. by eexists.
Qed.

Lemma capture_has_value porth : is_Some (capture_value s porth).
Proof.
  unfold capture_value, filter_value.
  assert (is_Some (if 0 <=? porth then mac_value s porth else Some None)) as [local ->]
    by (destruct (0 <=? porth); [apply mac_some|by eexists]). cbn [mbind option_bind].
  assert (is_Some (if bool_decide (is_Some local) then mac_value s (ps_peer (slot s porth)) else Some None)) as [peer ->]
    by (destruct (bool_decide _); [apply mac_some|by eexists]). cbn [mbind option_bind].
  match goal with |- context [collect ?f ?l] => destruct (collect_some f l) as [v ->] end; [|by eexists].
  intros f _. destruct (negb _); [by eexists|]. unfold captured_value.
  destruct (names_some (c_port f)) as [ns ->]. by eexists.
Qed.
End existence.

(** Every frame in the queue has the header that is shown. *)
Lemma queue_has_value stack behind s since : reachable_sim stack behind s → is_Some (queue_value s since).
Proof.
  intros Hs%reachable_queue_ok. unfold queue_value.
  match goal with |- context [collect ?f ?l] => destruct (collect_some f l) as [v ->] end; [|by eexists].
  intros f Hf. destruct (_ <=? _); [by eexists|]. rewrite Forall_forall in Hs. specialize (Hs f Hf).
  unfold queued_value, frame_ok in *. destruct (f_data f) as [|x0 [|x1 [|version [|type rest]]]]; try done.
  destruct Hs as [Hr|[-> ->]]; [|by eexists]. rewrite (bool_decide_false (rest = [])) by done.
  rewrite andb_false_r. by eexists.
Qed.

Lemma queue_value_ok s since j : queue_value s since = Some j → json_ok j.
Proof.
  unfold queue_value. intros (l & Hl & [= <-])%bind_Some. apply foldr_and.
  revert Hl. apply collect_Forall. intros f v H. eapply (item_ok _ _ _ (λ v, v)); [exact H|].
  intros a Ha. unfold queued_value in Ha.
  destruct (f_data f) as [|x0 [|x1 [|version [|type rest]]]]; try done. cbv zeta in Ha.
  destruct (_ && bool_decide (rest = [])); [done|]. injection Ha as <-. apply object_ok. fields_ok.
Qed.

Lemma hex2_octets l : octets_ok (concat (map hex2 l)).
Proof.
  induction l as [|v l IH]; [constructor|]. cbn [map concat]. apply Forall_app. split; [|exact IH].
  pose proof (Z.mod_pos_bound v (2 ^ 8) ltac:(lia)) as Hv. change (v mod 2 ^ 8) with (u8 v) in Hv.
  assert (Hd : ∀ d, 0 <= d → 0 <= digit_char d) by (intros d Hd; unfold digit_char; destruct (d <? 10); lia).
  unfold hex2. apply Forall_cons_2; [|apply Forall_cons_2; [|done]]; apply Hd; [apply Z.div_pos|apply Z.mod_pos_bound]; lia.
Qed.
Lemma hex_field_ok k v : field_ok (hex_field k v).
Proof. split; [apply octets_chars|apply hex2_octets]. Qed.
#[export] Hint Resolve hex_field_ok : fields.

Lemma capture_value_ok s porth j : capture_value s porth = Some j → json_ok j.
Proof.
  unfold capture_value. intros (w & _ & (l & Hl & [= <-])%bind_Some)%bind_Some. apply foldr_and.
  revert Hl. apply collect_Forall. intros f v H. eapply (item_ok _ _ _ (λ v, v)); [exact H|].
  intros a Ha. unfold captured_value in Ha. apply bind_Some in Ha as (ns & Hn & [= <-]). apply object_ok.
  assert (Forall field_ok ns).
  { unfold names_fields in Hn. destruct (port_handle_ok (c_port f) s); [|by injection Hn as <-].
    apply bind_Some in Hn as (x & _ & [= <-]). fields_ok. }
  fields_ok.
Qed.

(** ** What is captured is what is sent *)

(** The frames that the send actions among [es] leave, from a capture [c], in order. *)
Definition record_sent (now : Z) (c : capture_t) (e : event) : capture_t :=
  match e with
  | EvSend port src _ b size => capture_push c now port src (bpdu_octets b size) size
  | _ => c
  end.
Fixpoint sent_frames (now : Z) (c : capture_t) (es : list event) : list capture_frame_t :=
  match es with
  | [] => []
  | e :: es =>
      match e with
      | EvSend port src _ b size => [frame_of c now port src (bpdu_octets b size) size]
      | _ => []
      end ++ sent_frames now (record_sent now c e) es
  end.

Lemma captured_sent now es : ∀ c, capture_ok c →
  captured (foldl (record_sent now) c es) = last_n capacity (captured c ++ sent_frames now c es).
Proof.
  induction es as [|e es IH]; intros c Hc; cbn [foldl sent_frames]; [by rewrite app_nil_r, captured_short|].
  destruct e; cbn [record_sent]; try by apply IH.
  rewrite IH by by apply capture_ok_push. rewrite captured_push by done.
  by rewrite last_n_app, <- app_assoc.
Qed.

(** A port transmits; nothing but its send is recorded, whether or not a cable carries it. *)
Lemma transmit_records port src b size s r s' : cap_on (s_capture s) = true → s_calloc s = [] →
  transmit port src b size s = NDone r s' →
  s_capture s' = capture_push (s_capture s) (s_now s) port src (bpdu_octets b size) size ∧
  s_calloc s' = [] ∧ s_now s' = s_now s.
Proof.
  intros Hon Ha. unfold transmit. intros H.
  apply nbind_Done_inv in H as ([] & s1 & H1 & H). unfold capture_record in H1.
  apply nbind_Done_inv in H1 as (s0 & s0' & [= <- <-] & H1). rewrite Hon in H1. cbn [negb] in H1.
  apply nbind_Done_inv in H1 as (ok & s0 & Hal & H1). rewrite nalloc_true in Hal by done. injection Hal as <- <-.
  cbn [negb] in H1. injection H1 as <-.
  apply nbind_Done_inv in H as (s1 & s1' & [= <- <-] & H).
  destruct (negb _); [by injection H as _ <-|]. destruct (ps_mute _); [by injection H as _ <-|].
  destruct (negb _); [by injection H as _ <-|]. unfold frame_enqueue in H.
  apply nbind_Done_inv in H as (ok & s2 & Hal & H). rewrite nalloc_true in Hal by done. injection Hal as <- <-.
  cbn [negb] in H. apply nbind_Done_inv in H as ([] & s3 & [= <-] & [= _ <-]). done.
Qed.

Lemma perform_records shutdown es : ∀ s r s', Forall (λ e, is_shutdown e = false) es →
  cap_on (s_capture s) = true → s_calloc s = [] →
  nfor_each es (perform shutdown) s = NDone r s' →
  s_capture s' = foldl (record_sent (s_now s)) (s_capture s) es.
Proof.
  induction es as [|e es IH]; intros s r s' He Hon Ha H; cbn [nfor_each] in H; [by injection H as _ <-|].
  apply Forall_cons in He as [Hq He]. apply nbind_Done_inv in H as ([] & s1 & H1 & H). cbn [foldl].
  destruct e; cbn [perform] in H1; try discriminate Hq; cbn [record_sent];
    try (injection H1 as <-; by apply (IH _ _ _ He Hon Ha H)).
  apply transmit_records in H1 as (E & Ha1 & En); [|done|done]. rewrite <- E, <- En.
  apply (IH s1 r s' He); [|done|exact H]. by rewrite E, cap_on_push.
Qed.


(** The two ports of a bridge come up while capturing is on; then port 0 transmits. *)
Definition capturing (s : sim) : bool :=
  cap_on (s_capture s) && bool_decide (s_calloc s = []) && (length (captured (s_capture s)) =? 2)%nat &&
  match transmit 0 sample_mac zero_bpdu 35 s with NDone _ _ => true | _ => false end.
Lemma captured_up :
  match run (ApiCaptureEnable true :: looped) (new_sim []) with Some s => capturing s | None => false end = true.
Proof. vm_compute. reflexivity. Qed.

