(* ===== verification/Calls.v ===== *)
(** All the calls of the simulation's API: those that change the simulation and those that
    ask for a document. *)
From S2P Require Import Prelude Types Monad Clib Vectors Outputs Wire Procs Bridge Mgmt Kernel Track Tables Sim Wf.
From S2P Require Import Sample Cables Simulation Queue Network Ring JsonText Builder Documents Topology Captures.

(** ** Documents *)

Inductive document :=
| BridgeJson (brh : Z)
| PortJson (porth : Z)
| TopologyJson
| CaptureJson (porth : Z)
| QueuedJson (since : Z).

Definition serve_document (d : document) : N (option (list Z)) :=
  match d with
  | BridgeJson brh => mstpw_bridge_json brh
  | PortJson porth => mstpw_port_json porth
  | TopologyJson => mstpw_topology_json
  | CaptureJson porth => mstpw_capture_json porth
  | QueuedJson since => mstpw_queued_json since
  end.

(** What the document is to say: null for a handle that is not in use. *)
Definition document_value (s : sim) (d : document) : option json :=
  match d with
  | BridgeJson brh => if br_handle_ok brh s then bridge_value s brh else Some JNull
  | PortJson porth => if port_handle_ok porth s then port_value s porth else Some JNull
  | TopologyJson => topology_value s
  | CaptureJson porth => capture_value s porth
  | QueuedJson since => queue_value s since
  end.

Section calls.
Context (stack : list Z) (behind : frame_t → list Z).
Context (Hstack : length stack = 64%nat) (Hbehind : ∀ f, (Z.to_nat sizeof_bpdu <= length (behind f))%nat).

Lemma bridge_document brh s : reachable_sim stack behind s → s_calloc s = [] →
  ∃ j, document_value s (BridgeJson brh) = Some j ∧ is_document (mstpw_bridge_json brh) j s.
Proof.
  intros Hs Hc. cbn [document_value]. destruct (br_handle_ok brh s) eqn:Hb.
  - pose proof Hb as Hb'. unfold br_handle_ok in Hb'. apply andb_true_iff in Hb' as [_ [w Hw]%bool_decide_eq_true].
    destruct (bridge_has_value _ Hstack _ Hbehind s Hs brh w Hw) as [j Hj]. exists j. split; [done|].
    apply (handle_document s (br_handle_ok brh)); [done|]. rewrite Hb.
    split; [by apply bridge_text|by eapply bridge_value_ok].
  - exists JNull. split; [done|]. apply (handle_document s (br_handle_ok brh)); [done|]. by rewrite Hb.
Qed.

Lemma port_document porth s : reachable_sim stack behind s → s_calloc s = [] →
  ∃ j, document_value s (PortJson porth) = Some j ∧ is_document (mstpw_port_json porth) j s.
Proof.
  intros Hs Hc. pose proof (reachable_tables _ Hstack _ Hbehind s Hs) as Hok.
  cbn [document_value]. destruct (port_handle_ok porth s) eqn:Hh.
  - pose proof Hh as Hu. apply (SI_handle _ _ _ _ _ Hok) in Hu.
    destruct (port_has_value _ Hstack _ Hbehind s Hs porth Hu) as [j Hj]. exists j. split; [done|].
    apply (handle_document s (port_handle_ok porth)); [done|]. rewrite Hh.
    split; [|by eapply port_value_ok]. apply port_text; [done| |done].
    unfold port_handle_ok in Hh. by apply andb_true_iff in Hh as [? _].
  - exists JNull. split; [done|]. apply (handle_document s (port_handle_ok porth)); [done|]. by rewrite Hh.
Qed.

Lemma every_document d s : reachable_sim stack behind s → s_calloc s = [] →
  ∃ j, document_value s d = Some j ∧ is_document (serve_document d) j s.
Proof.
  intros Hs Hc. destruct d as [brh|porth| |porth|since]; cbn [serve_document].
  - by apply bridge_document.
  - by apply port_document.
  - destruct (topology_has_value _ Hstack _ Hbehind s Hs) as [j Hj]. exists j. split; [done|].
    intros Hf. destruct (writes_document s _ j Hc (topology_text s j Hc Hj) (topology_value_ok s j Hj) Hf)
      as (text & Hd & Hp). exists text. split; [|done]. rewrite <- Hd. unfold mstpw_topology_json.
    unfold mbind, N_bind. by repeat case_match.
  - destruct (capture_has_value _ Hstack _ Hbehind s Hs porth) as [j Hj]. exists j. split; [done|].
    apply capture_document; [done|exact (reachable_capture_ok stack behind s Hs)|done|by eapply capture_value_ok].
  - destruct (queue_has_value stack behind s since Hs) as [j Hj]. exists j. split; [done|].
    intros Hf. destruct (writes_document s _ j Hc (queue_text s Hc since j Hj) (queue_value_ok s since j Hj) Hf)
      as (text & Hd & Hp). exists text. split; [|done]. rewrite <- Hd. unfold mstpw_queued_json.
    unfold mbind, N_bind. by repeat case_match.
Qed.

(** C37: whatever the simulation has been asked, if memory can be had: every document of its
    API, that of a bridge, of a port, of the topology, of the captured frames (all, or those
    of the link of a port) and of the frames in the queue, is the text of its value; a
    reader of JSON gets the value back, whatever the names of the bridges and ports contain,
    from every document shorter than 2 GiB; and asking for it changes nothing. The document
    of an unknown bridge or port is null. *)
Theorem documents_read_back d s : reachable_sim stack behind s → s_calloc s = [] →
  ∃ j, document_value s d = Some j ∧
    (fits (json_text j) →
     ∃ text, serve_document d s = NDone (Some text) s ∧ parse_json text = Some j).
Proof. apply every_document. Qed.

(** ** All calls *)

Inductive call :=
| Act (c : api)
| Ask (d : document).

Definition serve_call (c : call) : N (Z + option (list Z)) :=
  match c with
  | Act c => r ← serve_api stack behind c; mret (inl r)
  | Ask d => r ← serve_document d; mret (inr r)
  end.

(** A document is asked for while memory can be had, and has less than 2 GiB. *)
Definition call_ok (c : call) (s : sim) : Prop :=
  match c with
  | Act _ => True
  | Ask d => s_calloc s = [] ∧ ∀ j, document_value s d = Some j → fits (json_text j)
  end.

(** C15: after any calls of the simulation's API, those that change it and those that ask
    for its documents (but the four that concern the log and the trace), in any order and
    with any arguments, no further call dereferences an invalid pointer or leaves its
    tables; a document is returned; and the calls can go on.  The clock and the allocator
    may do what they like, but for the allocations of a document, which must be granted
    ([refused_realloc_overflows]), and the document must have less than 2 GiB; the memory behind a queued frame
    must be readable for the length of a BPDU. *)
Theorem sim_no_fault c s : reachable_sim stack behind s → call_ok c s →
  serve_call c s ≠ NFault ∧
  (∀ r s', serve_call c s = NDone r s' → reachable_sim stack behind s') ∧
  (∀ d, c = Ask d → ∃ text, serve_call c s = NDone (inr (Some text)) s).
Proof.
  intros Hs Hc. destruct c as [c|d]; cbn [serve_call call_ok] in *.
  - pose proof (api_no_fault stack behind c s Hstack Hbehind Hs) as Hf. unfold mbind, N_bind.
    destruct (serve_api stack behind c s) as [r s'| |] eqn:Hd; [|done|done]. split; [done|]. split; [|done].
    intros r0 s0 [= _ <-]. apply (sim_call stack behind c (s_clock s) (s_calloc s) s r); [done|]. by destruct s.
  - destruct Hc as [Hc Hfit]. destruct (every_document d s Hs Hc) as (j & Hj & Hd).
    destruct (Hd (Hfit j Hj)) as (text & Ht & _). unfold mbind, N_bind. rewrite Ht. split; [done|].
    split; [by intros r s' [= _ <-]|]. intros d' _. by eexists.
Qed.
End calls.

(** The document of the queue of the looped bridge, then five seconds of simulated time. *)
Lemma documents_read_back_witness : ∃ s, reachable_sim sample_stack zeros s ∧ length (s_queue s) = 2%nat ∧
  ∃ j, queue_value s 0 = Some j ∧ is_document (mstpw_queued_json 0) j s.
Proof.
  destruct looped_reachable as (s & Hs & _ & Hq & Hc). exists s. split; [exact Hs|]. split; [exact Hq|].
  exact (documents_read_back sample_stack zeros eq_refl zeros_long (QueuedJson 0) s Hs Hc).
Defined.

Lemma sim_no_fault_witness : ∃ s, reachable_sim sample_stack zeros s ∧
  ps_prt (slot s 0) = Some (0, 1%nat) ∧ serve_call sample_stack zeros (Act (ApiStep 5)) s ≠ NFault.
Proof.
  destruct looped_reachable as (s & Hs & Hp & _). exists s. split; [exact Hs|]. split; [exact Hp|].
  exact (proj1 (sim_no_fault sample_stack zeros eq_refl zeros_long (Act (ApiStep 5)) s Hs Logic.I)).
Defined.
