(* ===== verification/Packet.v ===== *)
(** packet.c: the raw socket, its filter, and the frames that go out. *)
From S2P Require Import Prelude Types Monad Clib Vectors Outputs Wire Procs Bridge Mgmt Kernel Track Control.
From S2P Require Import Wf Safety Links System Frame Follows Daemon Inventory Events Requests Service.

(** ** The filter

    Classic BPF, which the kernel runs on every frame; the octets of the frame are
    numbered from its destination address on. *)
Record sock_filter := mk_sock_filter { sf_code : Z; sf_jt : nat; sf_jf : nat; sf_k : Z }.

Definition stp_filter : list sock_filter :=
  [mk_sock_filter 0x28 0 0 0x0000000c;
   mk_sock_filter 0x25 3 0 0x000005dc;
   mk_sock_filter 0x30 0 0 0x0000000e;
   mk_sock_filter 0x15 0 1 0x00000042;
   mk_sock_filter 0x6 0 0 0x00000480;
   mk_sock_filter 0x6 0 0 0x00000000].

Definition octet (p : list Z) (i : Z) : option Z := p !! Z.to_nat i.
Definition half (p : list Z) (i : Z) : option Z := hi ← octet p i; lo ← octet p (i + 1); Some (hi * 256 + lo).

(** What linux/Documentation/networking/filter.rst says of the instructions the filter has:
    [run prog a p] is the number of octets of [p] the rest [prog] of a program lets
    through, with [a] in the accumulator. *)
Class BpfLaws (run : list sock_filter → Z → list Z → Z) := {
  bpf_ldh jt jf k rest a p :
    run (mk_sock_filter 0x28 jt jf k :: rest) a p = match half p k with Some v => run rest v p | None => 0 end;
  bpf_ldb jt jf k rest a p :
    run (mk_sock_filter 0x30 jt jf k :: rest) a p = match octet p k with Some v => run rest v p | None => 0 end;
  bpf_jgt jt jf k rest a p :
    run (mk_sock_filter 0x25 jt jf k :: rest) a p = run (drop (if k <? a then jt else jf) rest) a p;
  bpf_jeq jt jf k rest a p :
    run (mk_sock_filter 0x15 jt jf k :: rest) a p = run (drop (if a =? k then jt else jf) rest) a p;
  bpf_ret jt jf k rest a p : run (mk_sock_filter 0x6 jt jf k :: rest) a p = k
}.

(** ** packet_send *)

(** [sll_addr] as it is set, and the other members that depend on the call. *)
Record sockaddr_ll := mk_sockaddr_ll { sll_ifindex : Z; sll_addr : list Z }.

Inductive send_report := SentAll | SendFailed | WouldBlock | ShortWrite (l len : Z).

(** What is sent where, and what is logged when sendmsg returns [l] with [errno]. *)
Definition packet_send (EWOULDBLOCK : Z) (sendmsg : sockaddr_ll → list Z → Z * Z)
    (ifindex : Z) (iov : list (list Z)) (len : Z) : sockaddr_ll * list Z * send_report :=
  let addr := match iov with
              | base :: _ => if (ETH_ALEN <? length base)%nat then take ETH_ALEN base ++ [0; 0] else replicate 8 0
              | [] => replicate 8 0
              end in
  let sl := mk_sockaddr_ll ifindex addr in
  let '(l, errno) := sendmsg sl (concat iov) in
  (sl, concat iov,
   if l <? 0 then if errno =? EWOULDBLOCK then WouldBlock else SendFailed
   else if l =? len then SentAll else ShortWrite l len).

(** The two parts of the frame of an [EvSend] action. *)
Definition bpdu_iov (src : list Z) (len8023 : Z) (b : bpdu_t) (size : Z) : list (list Z) :=
  [put_llc_header (mk_llc_header bridge_group_address src len8023 LLC_SAP_BSPAN LLC_SAP_BSPAN LLC_PDU_TYPE_U);
   take (Z.to_nat size) (put b)].

(** ** packet_sock_init *)

(** How the calls end; [None]: socket() fails. *)
Record socket_setup := mk_socket_setup {
  new_socket : option Z;
  filter_set : bool;
  nonblock : bool;
  priority_set : bool;
  epoll_added : bool
}.

(** The descriptors that are open, and that of packet_event if it is registered. *)
Record socket_state := mk_socket_state { open_fds : gset Z; event_fd : option Z }.

Definition packet_sock_init (u : socket_setup) (st : socket_state) : Z * socket_state :=
  match new_socket u with
  | None => (-1, st)
  | Some s =>
      let st := mk_socket_state ({[s]} ∪ open_fds st) (event_fd st) in
      let close st := (-1, mk_socket_state (open_fds st ∖ {[s]}) (event_fd st)) in
      if negb (filter_set u) then close st else
      if negb (nonblock u) then close st else
      (* a priority that cannot be set is only logged *)
      if epoll_added u then (0, mk_socket_state (open_fds st) (Some s)) else close st
  end.

(** * Theorems *)

(** ** The filter lets BPDUs through *)

Section filter.
Context (run : list sock_filter → Z → list Z → Z) `{!BpfLaws run}.

Definition filtered (p : list Z) : Z := run stp_filter 0 p.

(** A length field of 802.3, and the SAP of the spanning tree in the octet after it. *)
Definition looks_like_stp (p : list Z) : bool :=
  match half p 12, octet p 14 with
  | Some l, Some sap => (l <=? 0x5dc) && (sap =? 0x42)
  | _, _ => false
  end.

Lemma filtered_spec p : filtered p = if looks_like_stp p then 0x480 else 0.
Proof.
  unfold filtered, stp_filter, looks_like_stp. rewrite bpf_ldh. change 0x0000000c with 12. change 0x0000000e with 14.
  destruct (half p 12) as [l|]; [|done]. rewrite bpf_jgt.
  destruct (Z.ltb_spec 0x5dc l), (Z.leb_spec l 0x5dc); try lia; cbn [drop].
  { rewrite bpf_ret. by destruct (octet p 14). }
  rewrite bpf_ldb. destruct (octet p 14) as [sap|]; [|done]. rewrite bpf_jeq. cbn [andb].
  by destruct (sap =? 0x42); cbn [drop]; rewrite bpf_ret.
Qed.

Lemma get_octets_prefix n l x rest : get_octets n l = Some (x, rest) → l = x ++ rest ∧ length x = n.
Proof.
  unfold get_octets. destruct (Nat.leb_spec n (length l)); [|done]. intros [= <- <-].
  rewrite take_drop, length_take. split; [done|lia].
Qed.

Lemma get_be_prefix n l v rest : get_be n l = Some (v, rest) → ∃ x, l = x ++ rest ∧ length x = n ∧ v = be_value x.
Proof.
  unfold get_be. intros (x & r & Hx & [= <- <-])%reader_bind_inv. apply get_octets_prefix in Hx as [-> Hx]. by exists x.
Qed.

(** Where the members of the header lie. *)
Lemma llc_header_octets data h rest : get_llc_header data = Some (h, rest) →
  half data 12 = Some (h_len8023 h) ∧ octet data 14 = Some (d_sap h).
Proof.
  unfold get_llc_header. intros (dst & r1 & H1 & H)%reader_bind_inv. apply reader_bind_inv in H as (src & r2 & H2 & H).
  apply reader_bind_inv in H as (l & r3 & H3 & H). apply reader_bind_inv in H as (d & r4 & H4 & H).
  apply reader_bind_inv in H as (s & r5 & H5 & H). apply reader_bind_inv in H as (c & r6 & H6 & [= <- <-]).
  apply get_octets_prefix in H1 as [-> L1]. apply get_octets_prefix in H2 as [-> L2].
  apply get_be_prefix in H3 as (x & -> & L3 & ->). apply get_be_prefix in H4 as (y & -> & L4 & ->).
  change ETH_ALEN with 6%nat in *.
  destruct x as [|x1 [|x2 [|]]]; try discriminate L3. destruct y as [|y1 [|]]; try discriminate L4.
  assert (E : ∀ i, (12 <= i)%nat → (dst ++ src ++ [x1; x2] ++ [y1] ++ r4) !! i = ([x1; x2; y1] ++ r4) !! (i - 12)%nat).
  { intros i Hi. rewrite !lookup_app_r by lia. f_equal. lia. }
  unfold half, octet. rewrite !E by lia. by split.
Qed.

(** Every frame whose header the daemon accepts. *)
Lemma accepted_looks_like_stp data len h rest size :
  get_llc_header data = Some (h, rest) → llc_check h len = Some size → looks_like_stp data = true.
Proof.
  intros Hh Hc. destruct (llc_header_octets _ _ _ Hh) as [Hl Hs]. unfold looks_like_stp. rewrite Hl, Hs.
  unfold llc_check, ETH_DATA_LEN, LLC_SAP_BSPAN in Hc. destruct (sizeof_llc_header <? _); [|done].
  destruct (memcmp _ _ =? 0); [|done]. cbn [negb] in Hc.
  destruct (h_len8023 h <=? 1500) eqn:Hle; [|done]. cbn [andb] in Hc.
  destruct (_ && _); [|done]. cbn [negb] in Hc. destruct (d_sap h =? 0x42) eqn:Hd; [|done]. done.
Qed.
End filter.

(** A machine that runs such programs: jumps skip instructions. *)
Fixpoint bpf_skip (prog : list sock_filter) (skip : nat) (a : Z) (p : list Z) : Z :=
  match prog with
  | [] => 0
  | i :: rest =>
      match skip with
      | S skip => bpf_skip rest skip a p
      | O =>
          if sf_code i =? 0x28 then match half p (sf_k i) with Some v => bpf_skip rest 0 v p | None => 0 end
          else if sf_code i =? 0x30 then match octet p (sf_k i) with Some v => bpf_skip rest 0 v p | None => 0 end
          else if sf_code i =? 0x25 then bpf_skip rest (if sf_k i <? a then sf_jt i else sf_jf i) a p
          else if sf_code i =? 0x15 then bpf_skip rest (if a =? sf_k i then sf_jt i else sf_jf i) a p
          else if sf_code i =? 0x6 then sf_k i else 0
      end
  end.
Definition bpf_run (prog : list sock_filter) : Z → list Z → Z := bpf_skip prog 0.

Lemma bpf_skip_drop prog n a p : bpf_skip prog n a p = bpf_run (drop n prog) a p.
Proof.
  revert n. induction prog as [|i prog IH]; intros [|n]; try done. cbn [drop bpf_skip]. apply IH.
Qed.

#[export] Instance bpf_run_laws : BpfLaws bpf_run.
Proof. split; intros; unfold bpf_run at 1; cbn [bpf_skip sf_code sf_k Z.eqb Pos.eqb]; try apply bpf_skip_drop; done. Qed.

(** C14: the socket's filter lets a frame through exactly when it has a length of 802.3 and
    the SAP of the spanning tree, and then up to 1152 octets; so it stops no frame that the
    daemon would take a BPDU from, and every frame a bridge sends passes whole. *)
Theorem stp_filter_exact run `{!BpfLaws run} :
  (∀ p, filtered run p = if looks_like_stp p then 0x480 else 0) ∧
  (∀ data len h rest size, get_llc_header data = Some (h, rest) → llc_check h len = Some size →
     filtered run data = 0x480) ∧
  (∀ src b size, length src = ETH_ALEN → 0 < size <= sizeof_bpdu →
     let f := sent_frame src (size + LLC_PDU_LEN_U) b size in
     filtered run f = 0x480 ∧ Z.of_nat (length f) <= 0x480).
Proof.
  assert (Hall : ∀ data len h rest size, get_llc_header data = Some (h, rest) → llc_check h len = Some size →
    filtered run data = 0x480).
  { intros data len h rest size Hh Hc. by rewrite filtered_spec, (accepted_looks_like_stp data len h rest size). }
  split; [apply (filtered_spec run)|]. split; [exact Hall|].
  intros src b size Hsrc Hsize f. change sizeof_bpdu with 1126 in Hsize. split.
  - destruct (llc_check_sent src size (sizeof_llc_header + size)) as [Hc|[? _]]; [lia|unfold sizeof_llc_header; lia| |lia].
    eapply Hall; [|exact Hc]. apply get_llc_header_app; try done; cbn; unfold in_u16, in_u8, LLC_PDU_LEN_U, LLC_SAP_BSPAN, LLC_PDU_TYPE_U; lia.
  - unfold f, sent_frame, put_llc_header. cbn [dest_addr src_addr].
    rewrite !length_app, !length_be_bytes, length_take, Hsrc. change (length bridge_group_address) with 6%nat.
    change ETH_ALEN with 6%nat. lia.
Qed.

Lemma stp_filter_exact_witness :
  filtered bpf_run (sent_frame [2; 0; 0; 0; 0; 1] 38 zero_bpdu 35) = 0x480.
Proof.
  exact (proj1 (proj2 (proj2 (stp_filter_exact bpf_run)) [2; 0; 0; 0; 0; 1] zero_bpdu 35 eq_refl ltac:(done))).
Defined.

(** ** The socket *)

(** What packet_send hands to sendmsg for a BPDU is the frame, for the group address; it
    complains exactly when the call fails or sends something else than the whole of it. *)
Lemma packet_send_frame e sendmsg ifindex src size b :
  length src = ETH_ALEN → 0 < size <= sizeof_bpdu → (Z.to_nat size <= length (put b))%nat →
  let f := sent_frame src (size + LLC_PDU_LEN_U) b size in
  let sl := mk_sockaddr_ll ifindex (bridge_group_address ++ [0; 0]) in
  packet_send e sendmsg ifindex (bpdu_iov src (size + LLC_PDU_LEN_U) b size) (sizeof_llc_header + size) =
    (sl, f, let '(l, errno) := sendmsg sl f in
            if l <? 0 then if errno =? e then WouldBlock else SendFailed
            else if l =? Z.of_nat (length f) then SentAll else ShortWrite l (Z.of_nat (length f))).
Proof.
  intros Hsrc Hsize Hlen f sl. unfold packet_send, bpdu_iov.
  assert (Hf : concat [put_llc_header (mk_llc_header bridge_group_address src (size + LLC_PDU_LEN_U) LLC_SAP_BSPAN
      LLC_SAP_BSPAN LLC_PDU_TYPE_U); take (Z.to_nat size) (put b)] = f).
  { cbn [concat]. by rewrite app_nil_r. }
  assert (Hl : sizeof_llc_header + size = Z.of_nat (length f)).
  { unfold f, sent_frame, put_llc_header, sizeof_llc_header. cbn [dest_addr src_addr].
    rewrite !length_app, !length_be_bytes, length_take, Hsrc. change (length bridge_group_address) with 6%nat.
    change ETH_ALEN with 6%nat. lia. }
  rewrite Hf, <- Hl. destruct (Nat.ltb_spec ETH_ALEN (length (put_llc_header (mk_llc_header bridge_group_address src
    (size + LLC_PDU_LEN_U) LLC_SAP_BSPAN LLC_SAP_BSPAN LLC_PDU_TYPE_U)))) as [_|H].
  - change (mk_sockaddr_ll ifindex _) with sl. by destruct (sendmsg sl f).
  - unfold put_llc_header in H. cbn [dest_addr src_addr] in H. rewrite !length_app, Hsrc in H.
    change (length bridge_group_address) with 6%nat in H. change ETH_ALEN with 6%nat in H. lia.
Qed.

(** The set-up ends with the socket open and its handler registered, or with every
    descriptor it opened closed again. *)
Lemma packet_sock_init_clean u st :
  match new_socket u with
  | Some s => s ∉ open_fds st →
      packet_sock_init u st = (0, mk_socket_state ({[s]} ∪ open_fds st) (Some s)) ∨
      packet_sock_init u st = (-1, st)
  | None => packet_sock_init u st = (-1, st)
  end.
Proof.
  unfold packet_sock_init. destruct (new_socket u) as [s|]; [|done]. intros Hs. cbn [open_fds event_fd].
  assert (E : mk_socket_state (({[s]} ∪ open_fds st) ∖ {[s]}) (event_fd st) = st).
  { destruct st as [o e]. cbn in *. f_equal. set_solver. }
  rewrite E. repeat case_match; auto.
Qed.
