(* ===== verification/Xstrata.v ===== *)
(** broadcom_xstrata/: the driver for Broadcom Xstrata switches (driver_deps.c), which runs
    shell commands, and bcmexp (bcmexp.c), which they start: it types a command into the
    shell of the switch and copies to standard output what comes back.

    The characters that come from the terminal, and how select() returns, are events of
    the environment. *)
From S2P Require Import Prelude Types Clib.

(** ** driver_deps.c *)

Definition port_states_bcm : list string := ["Disable"; "LIsten"; "LEarn"; "Forward"; "Disable"]%string.

Definition if_linux2bcm (name : string) : string :=
  if String.eqb name "" then "???" else
  if String.eqb name "GbE1" then "ge3" else
  if String.eqb name "GbE2" then "ge4" else "???".

(** [snprintf(cmd, 256, ...)] *)
Definition to_cmd (s : string) : list Z := take 255 (chars s).

(** The command and the new state; [None]: the state is no index of the array. *)
Definition driver_set_new_state (name : string) (new_state : Z) : option (list Z * Z) :=
  if new_state <? 0 then None else
  st ← port_states_bcm !! Z.to_nat new_state;
  Some (to_cmd ("bcmexp port " ++ if_linux2bcm name ++ " stp=" ++ st ++ " &>/dev/null"), new_state).

Definition driver_flush_all_fids (name : string) : list Z :=
  to_cmd ("bcmexp l2 clear port=" ++ if_linux2bcm name ++ " &>/dev/null").

Definition driver_set_ageing_time (ageingTime : Z) : Z := ageingTime.

Definition driver_create_msti (mstid : Z) : bool := true.
Definition driver_delete_msti (mstid : Z) : bool := true.

(** ** bcmexp.c *)

Definition MPROMPT : list Z := chars "BCM.0> ".
Definition sizeof_recent_input : nat := 8.
Definition sizeof_outbuf : Z := 81920.
Definition sizeof_cmd : nat := 256.

(** What select() and read() on the terminal give: a time-out, a character, its end, an error. *)
Inductive pty_event := Quiet | Octet (c : Z) | Closed | Broken.

Record term := mk_term {
  recent_input : list Z;
  outbuf : list Z;             (* up to its NUL *)
  printed : list Z;            (* standard output *)
  typed : list Z;              (* what was written to the terminal *)
  events : list pty_event;     (* to come *)
  selects : list bool          (* whether select() finds the terminal writable *)
}.
#[export] Instance eta_term : Eta term := λ r,
  mk_term (recent_input r) (outbuf r) (printed r) (typed r) (events r) (selects r).
#[export] Instance set_recent_input : Setter recent_input := ltac:(build_setter).
#[export] Instance set_outbuf : Setter outbuf := ltac:(build_setter).
#[export] Instance set_printed : Setter printed := ltac:(build_setter).
#[export] Instance set_typed : Setter typed := ltac:(build_setter).
#[export] Instance set_events : Setter events := ltac:(build_setter).
#[export] Instance set_selects : Setter selects := ltac:(build_setter).

(** [TWaiting]: nothing more happens at the terminal, and the program waits. *)
Inductive toutcome (A : Type) :=
| TDone (a : A) (t : term)
| TFault
| TWaiting (t : term).
Arguments TDone {A} a t.
Arguments TFault {A}.
Arguments TWaiting {A} t.

Definition T (A : Type) : Type := term → toutcome A.
#[export] Instance T_ret : MRet T := λ A a t, TDone a t.
#[export] Instance T_bind : MBind T := λ A B f m t,
  match m t with TDone a t' => f a t' | TFault => TFault | TWaiting t' => TWaiting t' end.
Definition tskip : T unit := mret tt.
Definition tfault {A} : T A := λ _, TFault.
Definition tupd (f : term → term) : T unit := λ t, TDone tt (f t).
Definition twhen (b : bool) (m : T unit) : T unit := if b then m else tskip.

(** *** Output *)

(** isprint() in the C locale. *)
Definition isprint (c : Z) : bool := (32 <=? c) && (c <=? 126).

Definition starts_with (prefix s : list Z) : bool := bool_decide (take (length prefix) s = prefix).

(** Lines that clear the screen (without the escape character) or show the prompt. *)
Definition left_out (line : list Z) : bool := starts_with (chars "[H[J") line || starts_with MPROMPT line.

(** One round of the loop; strncat() writes the character and a NUL. *)
Definition p_printable_1 (c : Z) : T unit := λ t,
  if negb ((c =? 10) || isprint c) then tskip t else
  if negb (Z.of_nat (length (outbuf t)) + 2 <=? sizeof_outbuf) then TFault else
  let line := outbuf t ++ [c] in
  if c =? 10 then
    TDone tt (t <| printed ::= λ p, if left_out line then p else p ++ line |> <| outbuf := [] |>)
  else TDone tt (t <| outbuf := line |>).

Fixpoint p_printable (buf : list Z) : T unit :=
  match buf with
  | [] => tskip
  | c :: buf => p_printable_1 c ;; p_printable buf
  end.

Definition log_pty_data (the_character : Z) : T unit :=
  p_printable [the_character] ;;
  tupd (λ t, t <| recent_input ::= λ r, drop 1 r ++ [the_character] |>).

(** *** Input *)

(** Whether [needle] is at the start of a string; [None]: the octets known do not tell. *)
Fixpoint str_matches (needle mem : list Z) : option bool :=
  match needle, mem with
  | [], _ => Some true
  | _, [] => None
  | c :: needle, x :: mem => if c =? x then str_matches needle mem else Some false
  end.
(** [strstr(mem, needle) != NULL] *)
Fixpoint strstr (needle mem : list Z) : option bool :=
  b ← str_matches needle mem;
  if (b : bool) then Some true else
  match mem with
  | [] => None
  | x :: mem => if x =? 0 then Some false else strstr needle mem
  end.

Section bcmexp.
(** The octets in memory after recent_input, which has no room for a NUL. *)
Context (behind : list Z).

Definition at_main_prompt : T bool := λ t,
  match strstr MPROMPT (recent_input t ++ behind) with Some b => TDone b t | None => TFault end.

(** The loop of the functions that wait: [stop] is asked after each character. *)
Fixpoint wait_loop (stop : T bool) (bell : bool) (evs : list pty_event) : T Z :=
  match evs with
  | [] => λ t, TWaiting (t <| events := [] |>)
  | Quiet :: evs => wait_loop stop bell evs
  | Broken :: evs => tupd (λ t, t <| events := evs |>) ;; mret (-1)
  | Closed :: evs => tupd (λ t, t <| events := evs |>) ;; mret 0
  | Octet c :: evs =>
      tupd (λ t, t <| events := evs |>) ;;
      log_pty_data c ;;
      found ← stop;
      if (found : bool) then twhen bell (p_printable [7]) ;; mret 1 else wait_loop stop bell evs
  end.
Definition wait (stop : T bool) (bell : bool) : T Z := λ t, wait_loop stop bell (events t) t.

Definition wait_for_main_prompt (bell : bool) : T Z := wait at_main_prompt bell.
Definition wait_for_one_character : T Z := wait (mret true) false.

(** The comparison from the ends of both, until one of them is used up. *)
Fixpoint agree (l1 l2 : list Z) : bool :=
  match l1, l2 with
  | x :: l1, y :: l2 => (x =? y) && agree l1 l2
  | _, _ => true
  end.
Definition wait_for_string (the_string : list Z) (bell : bool) : T Z :=
  wait (λ t, TDone (agree (rev (recent_input t)) (rev the_string)) t) bell.

Fixpoint send_loop (sel : list bool) (the_string : list Z) : T Z :=
  match sel with
  | [] => λ t, TWaiting (t <| selects := [] |>)
  | false :: sel => send_loop sel the_string
  | true :: sel =>
      match the_string with
      | [] => tupd (λ t, t <| selects := sel |>) ;; mret 1
      | c :: s => tupd (λ t, t <| selects := sel |> <| typed ::= λ l, l ++ [c] |>) ;; send_loop sel s
      end
  end.
Definition send_constant (the_string : list Z) : T Z := λ t, send_loop (selects t) the_string t.

Definition send_command (the_string : list Z) (add_cr : bool) (expect_prompt : Z) : T Z :=
  r ← send_constant the_string;
  if r <? 1 then mret r else
  r ← (if add_cr then send_constant [13] else mret r);
  if r <? 1 then mret r else
  if expect_prompt =? 0 then mret r else
  r ← wait_for_one_character;
  if r <? 1 then mret r else wait_for_main_prompt (negb (expect_prompt - 1 =? 0)).

(** *** main() *)

(** [strncat(cmd, src, n)]; [None]: past the end of [cmd]. *)
Definition strncat_cmd (n : nat) (src cmd : list Z) : option (list Z) :=
  let s := take n src in
  if (length cmd + length s + 1 <=? sizeof_cmd)%nat then Some (cmd ++ s) else None.

Fixpoint add_args (first : bool) (args : list (list Z)) (cmd : list Z) : option (list Z) :=
  match args with
  | [] => strncat_cmd 255 [10] cmd
  | a :: args =>
      cmd ← (if first then Some cmd else strncat_cmd 255 [32] cmd);
      cmd ← strncat_cmd 255 a cmd;
      add_args false args cmd
  end.
Definition build_cmd (args : list (list Z)) : option (list Z) := add_args true args [].

(** [args] are the arguments after the name of the program. *)
Definition bcmexp_main (args : list (list Z)) : T Z :=
  if bool_decide (args = []) then mret 0 else
  match build_cmd args with
  | None => tfault
  | Some cmd =>
      wait_for_main_prompt false ;;
      send_constant cmd ;;
      wait_for_string MPROMPT false ;;
      wait_for_string MPROMPT false ;;
      mret 0
  end.
End bcmexp.

Definition start (evs : list pty_event) (sel : list bool) : term :=
  mk_term (replicate sizeof_recent_input 0) [] [] [] evs sel.
