(* ===== verification/Switch.v ===== *)
(** What bcmexp promises: it types the command it was given after the first prompt, shows
    the lines that come back, and ends at the second prompt after it; and where its buffers
    end. *)
From S2P Require Import Prelude Types Clib Xstrata.

(** ** Lines

    What is shown of a text: its printable characters, cut into lines; the last part is
    kept until its end comes. *)
Definition kept (c : Z) : Prop := (c =? 10) || isprint c = true.
#[export] Instance kept_dec c : Decision (kept c) := decide (_ = true).

Fixpoint split_lines (line s : list Z) : list (list Z) * list Z :=
  match s with
  | [] => ([], line)
  | c :: s =>
      if c =? 10 then let r := split_lines [] s in ((line ++ [c]) :: r.1, r.2)
      else split_lines (line ++ [c]) s
  end.
Definition lines_of (line text : list Z) : list (list Z) * list Z := split_lines line (filter kept text).
Definition shown (ls : list (list Z)) : list Z := concat (filter (λ l, left_out l = false) ls).

(** A line and its NUL fit. *)
Definition line_fits (l : list Z) : bool := Z.of_nat (length l) + 1 <=? sizeof_outbuf.

Lemma split_lines_app s1 : ∀ line s2,
  split_lines line (s1 ++ s2) =
    let r := split_lines line s1 in let q := split_lines r.2 s2 in (r.1 ++ q.1, q.2).
Proof.
  induction s1 as [|c s1 IH]; intros line s2; [cbn; by destruct (split_lines line s2)|].
  cbn [app split_lines]. destruct (c =? 10); rewrite IH; done.
Qed.
Lemma lines_of_app line s1 s2 :
  lines_of line (s1 ++ s2) =
    let r := lines_of line s1 in let q := lines_of r.2 s2 in (r.1 ++ q.1, q.2).
Proof. unfold lines_of. by rewrite filter_app, split_lines_app. Qed.
Lemma lines_of_1 line c : lines_of line [c] =
  if decide (kept c) then if c =? 10 then ([line ++ [c]], []) else ([], line ++ [c]) else ([], line).
Proof. unfold lines_of. cbn. destruct (decide (kept c)); [|done]. cbn. by destruct (c =? 10). Qed.
Lemma shown_app l1 l2 : shown (l1 ++ l2) = shown l1 ++ shown l2.
Proof. unfold shown. by rewrite filter_app, concat_app. Qed.

Lemma shown_cons l ls : shown (l :: ls) = (if left_out l then [] else l) ++ shown ls.
Proof. unfold shown. cbn. destruct (decide (left_out l = false)) as [->|Hl]; [done|]. by destruct (left_out l). Qed.

Lemma long_line s : ∀ line, line_fits line = false →
  forallb line_fits (lines_of line s).1 && line_fits (lines_of line s).2 = false.
Proof.
  unfold lines_of. induction (filter kept s) as [|c l IH]; intros line Hl; [by cbn; rewrite Hl|].
  assert (Hl' : line_fits (line ++ [c]) = false).
  { unfold line_fits in *. rewrite length_app. cbn [length]. apply Z.leb_gt in Hl. apply Z.leb_gt. lia. }
  cbn [split_lines]. destruct (c =? 10); [|by apply IH]. cbn [fst snd forallb]. by rewrite Hl'.
Qed.

(** The first line that is too long goes past the end of the buffer. *)
Lemma p_printable_spec buf : ∀ t, line_fits (outbuf t) = true →
  let r := lines_of (outbuf t) buf in
  p_printable buf t =
    if forallb line_fits r.1 && line_fits r.2
    then TDone tt (mk_term (recent_input t) r.2 (printed t ++ shown r.1) (typed t) (events t) (selects t))
    else TFault.
Proof.
  induction buf as [|c buf IH]; intros t Ht; cbn zeta.
  { unfold lines_of. cbn [filter list_filter split_lines fst snd forallb shown p_printable andb].
    rewrite Ht. cbn [andb]. rewrite app_nil_r. by destruct t. }
  change (c :: buf) with ([c] ++ buf). rewrite lines_of_app, lines_of_1. cbn zeta.
  cbn [app p_printable]. unfold mbind, T_bind, p_printable_1. unfold kept.
  destruct (decide _) as [Hk|Hk].
  2: { destruct ((c =? 10) || isprint c); [done|]. cbn [negb fst snd app tskip]. unfold mret, T_ret. by apply IH. }
  rewrite Hk. cbn [negb].
  assert (E : (Z.of_nat (length (outbuf t)) + 2 <=? sizeof_outbuf) = line_fits (outbuf t ++ [c])).
  { unfold line_fits. rewrite length_app. cbn [length]. f_equal. lia. }
  rewrite E. destruct (line_fits (outbuf t ++ [c])) eqn:Hf; cbn [negb].
  - destruct (c =? 10); cbn [fst snd app forallb].
    + rewrite IH by done. rewrite Hf, shown_cons. cbn [andb].
      change (outbuf (_ <| outbuf := [] |>)) with (@nil Z).
      destruct (_ && _); [|done]. destruct t. cbn. by destruct (left_out _); rewrite <- ?app_assoc.
    + by rewrite IH.
  - (* the line is too long, and does not get shorter *)
    destruct (c =? 10); cbn [fst snd app forallb]; [by rewrite Hf|]. by rewrite long_line.
Qed.

(** ** The command line *)

Fixpoint join (args : list (list Z)) : list Z :=
  match args with
  | [] => []
  | [a] => a
  | a :: args => a ++ 32 :: join args
  end.

(** What [add_args] appends. *)
Definition rest_of (first : bool) (args : list (list Z)) : list Z :=
  match args with [] => [] | _ => (if first then [] else [32]) ++ join args end.

Lemma rest_of_cons first a args :
  rest_of first (a :: args) = (if first then [] else [32]) ++ a ++ rest_of false args.
Proof. destruct args; cbn; [by rewrite app_nil_r|done]. Qed.

(** The buffer is as long as the last newline and NUL allow. *)
Lemma add_args_spec args : ∀ first cmd,
  add_args first args cmd =
    if (length cmd + length (rest_of first args) + 2 <=? sizeof_cmd)%nat
    then Some (cmd ++ rest_of first args ++ [10]) else None.
Proof.
  assert (Hc : ∀ s cmd, strncat_cmd 255 s cmd = None ∨
     ∃ s', strncat_cmd 255 s cmd = Some (cmd ++ s') ∧ (s' = s ∨ length s' = 255%nat)).
  { intros s cmd. unfold strncat_cmd. destruct (_ <=? _)%nat; [right|by left]. eexists. split; [done|].
    destruct (decide (length s <= 255)%nat); [left; by apply take_ge|right; rewrite length_take; lia]. }
  assert (Hlong : ∀ args first cmd, (255 <= length cmd)%nat → add_args first args cmd = None).
  { induction args0 as [|a args0 IH]; intros first cmd Hl; cbn [add_args].
    - unfold strncat_cmd, sizeof_cmd. cbn [take length]. destruct (Nat.leb_spec (length cmd + 1 + 1) 256); [lia|done].
    - destruct first; cbn [mbind option_bind].
      + destruct (Hc a cmd) as [->|(s' & -> & _)]; [done|]. cbn [mbind option_bind]. apply IH. rewrite length_app. lia.
      + destruct (Hc [32] cmd) as [->|(s1 & -> & _)]; [done|]. cbn [mbind option_bind].
        destruct (Hc a (cmd ++ s1)) as [->|(s' & -> & _)]; [done|]. cbn [mbind option_bind]. apply IH.
        rewrite !length_app. lia. }
  induction args as [|a args IH]; intros first cmd.
  { cbn [add_args rest_of length app]. unfold strncat_cmd. cbn [take length]. f_equal.
    replace (length cmd + 1 + 1)%nat with (length cmd + 0 + 2)%nat by lia. done. }
  rewrite rest_of_cons. cbn [add_args].
  assert (Hstep : ∀ cmd, (a' ← strncat_cmd 255 a cmd; add_args false args a') =
    if (length cmd + length (a ++ rest_of false args) + 2 <=? sizeof_cmd)%nat
    then Some (cmd ++ (a ++ rest_of false args) ++ [10]) else None).
  { intros cmd'. unfold strncat_cmd at 1.
    destruct (decide (length a <= 255)%nat) as [Ha|Ha].
    - rewrite take_ge by done. destruct (Nat.leb_spec (length cmd' + length a + 1) sizeof_cmd) as [Hl|Hl]; cbn [mbind option_bind].
      + rewrite IH, !length_app, <- !app_assoc.
        by replace (length cmd' + (length a + length (rest_of false args)) + 2)%nat
          with (length cmd' + length a + length (rest_of false args) + 2)%nat by lia.
      + rewrite length_app. destruct (Nat.leb_spec (length cmd' + (length a + length (rest_of false args)) + 2) sizeof_cmd); [lia|done].
    - rewrite length_app. unfold sizeof_cmd in *.
      destruct (Nat.leb_spec (length cmd' + (length a + length (rest_of false args)) + 2) 256); [lia|].
      destruct (_ <=? _)%nat; [|done]. cbn [mbind option_bind]. apply Hlong. rewrite length_app, length_take. lia. }
  destruct first; cbn [mbind option_bind app]; [apply Hstep|].
  assert (Hsp : strncat_cmd 255 [32] cmd = if (length cmd + 2 <=? sizeof_cmd)%nat then Some (cmd ++ [32]) else None).
  { unfold strncat_cmd. cbn [take length]. by replace (length cmd + 1 + 1)%nat with (length cmd + 2)%nat by lia. }
  rewrite Hsp. cbn [length]. destruct (Nat.leb_spec (length cmd + 2) sizeof_cmd) as [Hl|Hl]; cbn [mbind option_bind].
  - etrans; [exact (Hstep (cmd ++ [32]))|]. rewrite length_app, <- app_assoc. cbn [length app].
    by replace (length cmd + 1 + length (a ++ rest_of false args) + 2)%nat
      with (length cmd + S (length (a ++ rest_of false args)) + 2)%nat by lia.
  - destruct (Nat.leb_spec (length cmd + S (length (a ++ rest_of false args)) + 2) sizeof_cmd); [lia|done].
Qed.

Lemma build_cmd_spec args : args ≠ [] →
  build_cmd args = if (length (join args) + 2 <=? sizeof_cmd)%nat then Some (join args ++ [10]) else None.
Proof. intros Hn. unfold build_cmd. rewrite add_args_spec. destruct args; [done|]. cbn [rest_of app length]. done. Qed.

(** ** Reading

    The program's state is determined by the text that came so far. *)
Definition window (text : list Z) : list Z := drop (length text) (replicate sizeof_recent_input 0 ++ text).
Definition fits (text : list Z) : bool :=
  let r := lines_of [] text in forallb line_fits r.1 && line_fits r.2.
Definition term_at (text ty : list Z) (evs : list pty_event) (sel : list bool) : term :=
  let r := lines_of [] text in mk_term (window text) r.2 (shown r.1) ty evs sel.

Definition octets (evs : list pty_event) : list Z := omap (λ e, match e with Octet c => Some c | _ => None end) evs.
Definition alive (e : pty_event) : Prop := match e with Quiet | Octet _ => True | _ => False end.

Lemma window_snoc text c : window (text ++ [c]) = drop 1 (window text) ++ [c].
Proof.
  unfold window. rewrite drop_drop, (app_assoc _ text), length_app, drop_app_le; [done|].
  rewrite length_app, length_replicate. cbn [length]. unfold sizeof_recent_input. lia.
Qed.

Lemma fits_app text s : fits (text ++ s) = true → fits text = true.
Proof.
  unfold fits. rewrite lines_of_app. cbn zeta. set (r := lines_of [] text).
  destruct (forallb line_fits r.1) eqn:E1; cbn [fst snd]; rewrite forallb_app, E1; cbn [andb]; [|done].
  intros H. destruct (line_fits r.2) eqn:E2; [done|]. by rewrite (long_line s r.2 E2) in H.
Qed.

Lemma log_pty_data_at text c ty evs sel :
  fits (text ++ [c]) = true →
  log_pty_data c (term_at text ty evs sel) = TDone tt (term_at (text ++ [c]) ty evs sel).
Proof.
  intros Hf. pose proof (fits_app _ _ Hf) as H0. unfold fits in Hf, H0. cbn zeta in Hf, H0.
  unfold log_pty_data, mbind, T_bind. rewrite p_printable_spec by (by apply andb_true_iff in H0 as [_ ?]).
  apply andb_true_iff in H0 as [H1 H2]. rewrite lines_of_app in Hf. cbn [fst snd] in Hf. rewrite forallb_app, H1 in Hf. cbn [andb] in Hf.
  unfold term_at. cbn zeta. cbn [outbuf]. rewrite Hf. cbn [recent_input printed typed events selects].
  rewrite window_snoc, lines_of_app. cbn [fst snd]. by rewrite shown_app.
Qed.

(** *** A wait ends with the first text that satisfies its test *)
Section waits.
Context (stop : T bool) (P : list Z → bool).
Context (Hstop : ∀ text ty evs sel, text ≠ [] → Forall (λ c, c ≠ 0) text →
  stop (term_at text ty evs sel) = TDone (P text) (term_at text ty evs sel)).

(** [evs] brings [s], which is the first to satisfy [P] after [text]. *)
Definition first_at (text : list Z) (evs : list pty_event) (s : list Z) : Prop :=
  Forall alive evs ∧ octets evs = s ∧ (∃ c, last evs = Some (Octet c)) ∧ P (text ++ s) = true ∧
  ∀ s', s' `prefix_of` s → s' ≠ [] → P (text ++ s') = true → s' = s.

Lemma wait_loop_at evs : ∀ text s ty evs0 sel rest,
  first_at text evs s → Forall (λ c, c ≠ 0) (text ++ s) → fits (text ++ s) = true →
  wait_loop stop false (evs ++ rest) (term_at text ty evs0 sel) = TDone 1 (term_at (text ++ s) ty rest sel).
Proof.
  induction evs as [|e evs IH]; intros text s ty evs0 sel rest (Ha & Ho & (c0 & Hl) & HP & Hmin) Hnz Hf; [done|].
  apply Forall_cons in Ha as [He Ha].
  destruct e as [|c| |]; try done; cbn [app wait_loop].
  - apply IH; [|done..]. split_and!; try done. destruct evs; [done|]. by exists c0.
  - cbn [octets omap list_omap] in Ho. fold (octets evs) in Ho. subst s.
    change (octets (Octet c :: evs)) with (c :: octets evs) in *.
    assert (Hsplit : text ++ c :: octets evs = (text ++ [c]) ++ octets evs) by (by rewrite <- app_assoc).
    rewrite Hsplit in Hf, Hnz, HP |- *.
    unfold mbind at 1, T_bind at 1, tupd at 1.
    change (term_at text ty evs0 sel <| events := evs ++ rest |>) with (term_at text ty (evs ++ rest) sel).
    unfold mbind at 1, T_bind at 1. rewrite log_pty_data_at by (by eapply fits_app).
    unfold mbind, T_bind. rewrite Hstop; [|by destruct text|by apply Forall_app in Hnz as [? _]].
    destruct (P (text ++ [c])) eqn:Hp.
    + assert (Hs : [c] = c :: octets evs) by (apply Hmin; [by exists (octets evs)|done|done]).
      injection Hs as Hs. rewrite <- Hs, app_nil_r. destruct evs as [|e evs]; [done|].
      exfalso. cbn in Hl. clear -Hs Hl Ha. revert e Hs Hl Ha. induction evs as [|e' evs IHe]; intros e Hs Hl Ha.
      * cbn in Hl. injection Hl as ->. done.
      * apply (IHe e'); [|done|by apply Forall_cons in Ha as [_ ?]].
        destruct e; cbn in Hs |- *; done.
    + apply IH; [|done..]. assert (Hne : evs ≠ []).
      { intros ->. cbn [octets omap list_omap] in HP. rewrite app_nil_r in HP. congruence. }
      split_and!; try done.
      * exists c0. by destruct evs.
      * intros s' Hs' Hn Hp'. rewrite <- app_assoc in Hp'.
        apply (app_inj_1 [c] [c]); [done|]. cbn [app]. apply Hmin; [by apply prefix_cons|done|done].
Qed.
End waits.

(** *** The tests *)
Definition ends_prompt (text : list Z) : bool := bool_decide (MPROMPT `suffix_of` text).
(** at_main_prompt() looks at eight characters, the prompt has seven. *)
Definition seen_prompt (text : list Z) : bool :=
  (sizeof_recent_input <=? length text)%nat && (ends_prompt text || ends_prompt (removelast text)).

Lemma window_length text : length (window text) = sizeof_recent_input.
Proof. unfold window. rewrite length_drop, length_app, length_replicate. lia. Qed.
Lemma window_suffix text : window text `suffix_of` replicate sizeof_recent_input 0 ++ text.
Proof. exists (take (length text) (replicate sizeof_recent_input 0 ++ text)). unfold window. by rewrite take_drop. Qed.

Lemma suffix_both {A} (l k1 k2 : list A) :
  k2 `suffix_of` l → (length k1 <= length k2)%nat → k1 `suffix_of` l → k1 `suffix_of` k2.
Proof.
  intros [p2 ->] Hl [p1 H]. assert (Hp : (length p2 <= length p1)%nat).
  { apply (f_equal length) in H. rewrite !length_app in H. lia. }
  exists (drop (length p2) p1). apply (f_equal (drop (length p2))) in H.
  rewrite drop_app_length in H. rewrite H. by apply drop_app_le.
Qed.

Lemma prompt_nonzero : Forall (λ c, c ≠ 0) MPROMPT.
Proof. vm_compute. repeat constructor; done. Qed.

Lemma nonzero_suffix p n text : Forall (λ c, c ≠ 0) p → p `suffix_of` replicate n 0 ++ text → p `suffix_of` text.
Proof.
  intros Hp Hs. destruct (decide (length p <= length text)%nat) as [Hl|Hl].
  - eapply suffix_both; [|done|exact Hs]. by exists (replicate n 0).
  - exfalso. assert (Ht : (0 :: text) `suffix_of` p).
    { eapply suffix_both; [exact Hs|cbn; lia|]. destruct n as [|n].
      - apply suffix_length in Hs. cbn in Hs. lia.
      - exists (replicate n 0). rewrite replicate_S_end, <- app_assoc. done. }
    destruct Ht as [k ->]. apply Forall_app in Hp as [_ Hp]. by apply Forall_cons in Hp as [? _].
Qed.

Lemma window_prompt text : MPROMPT `suffix_of` window text ↔ MPROMPT `suffix_of` text.
Proof.
  split; intros H.
  - apply (nonzero_suffix MPROMPT sizeof_recent_input); [apply prompt_nonzero|].
    etrans; [exact H|apply window_suffix].
  - apply (suffix_both (replicate sizeof_recent_input 0 ++ text)); [apply window_suffix|by rewrite window_length; unfold sizeof_recent_input; cbn; lia|].
    etrans; [exact H|by exists (replicate sizeof_recent_input 0)].
Qed.

Lemma agree_prefix l2 : ∀ l1, (length l2 <= length l1)%nat → agree l1 l2 = bool_decide (l2 `prefix_of` l1).
Proof.
  induction l2 as [|y l2 IH]; intros [|x l1] Hl; cbn [agree length] in *; try lia.
  - by rewrite bool_decide_eq_true_2 by apply prefix_nil.
  - by rewrite bool_decide_eq_true_2 by apply prefix_nil.
  - rewrite IH by lia. destruct (Z.eqb_spec x y) as [->|Hn]; cbn [andb].
    + apply bool_decide_ext. split; [by apply prefix_cons|by apply prefix_cons_inv_2].
    + rewrite bool_decide_eq_false_2; [done|]. intros H. by apply prefix_cons_inv_1 in H.
Qed.

Lemma stop_string_at text : agree (rev (window text)) (rev MPROMPT) = ends_prompt text.
Proof.
  rewrite agree_prefix by (rewrite !length_rev, window_length; unfold sizeof_recent_input; cbn; lia). unfold ends_prompt.
  apply bool_decide_ext. rewrite <- window_prompt, !rev_alt. rewrite suffix_prefix_reverse. done.
Qed.

Lemma str_matches_text w b : ∀ needle, Forall (λ c, c ≠ 0) needle →
  str_matches needle (w ++ 0 :: b) = Some (bool_decide (needle `prefix_of` w)).
Proof.
  induction w as [|x w IH]; intros [|c needle] Hn; cbn [str_matches app];
    try (by rewrite bool_decide_eq_true_2 by apply prefix_nil); apply Forall_cons in Hn as [Hc Hn].
  - destruct (Z.eqb_spec c 0); [done|]. rewrite bool_decide_eq_false_2; [done|]. by intros H%prefix_nil_inv.
  - destruct (Z.eqb_spec c x) as [->|Hx].
    + rewrite IH by done. f_equal. apply bool_decide_ext. split; [by apply prefix_cons|by apply prefix_cons_inv_2].
    + rewrite bool_decide_eq_false_2; [done|]. intros H. by apply prefix_cons_inv_1 in H.
Qed.

Fixpoint occurs (needle w : list Z) : bool :=
  bool_decide (needle `prefix_of` w) || match w with [] => false | _ :: w => occurs needle w end.

Lemma strstr_text needle w b : Forall (λ c, c ≠ 0) needle → Forall (λ c, c ≠ 0) w →
  strstr needle (w ++ 0 :: b) = Some (occurs needle w).
Proof.
  intros Hn. induction w as [|x w IH]; intros Hw.
  - pose proof (str_matches_text [] b needle Hn) as H. cbn [app] in H. cbn [app strstr occurs]. rewrite H.
    cbn [mbind option_bind]. by destruct (bool_decide _).
  - apply Forall_cons in Hw as [Hx Hw]. pose proof (str_matches_text (x :: w) b needle Hn) as H. cbn [app] in H.
    cbn [app strstr occurs]. rewrite H. cbn [mbind option_bind]. destruct (bool_decide _); [done|].
    destruct (Z.eqb_spec x 0); [done|]. by apply IH.
Qed.

Lemma occurs_short needle w : (length w < length needle)%nat → occurs needle w = false.
Proof.
  induction w as [|x w IH]; intros Hl; cbn [occurs]; rewrite bool_decide_eq_false_2 by (intros H%prefix_length; lia); [done|].
  apply IH. cbn [length] in Hl. lia.
Qed.

Lemma occurs_8 w : length w = 8%nat → occurs MPROMPT w = ends_prompt w || ends_prompt (removelast w).
Proof.
  intros Hl. do 8 (destruct w as [|? w]; [done|]). destruct w; [|done].
  assert (Hsame : ∀ l k : list Z, length l = length k → l `prefix_of` k ↔ l `suffix_of` k).
  { intros l k He. split; intros [d E]; assert (Hd : d = []) by
      (apply (f_equal length) in E; rewrite length_app in E; destruct d; [done|cbn in E; lia]); subst d;
      exists []; rewrite ?app_nil_r in *; done. }
  cbn [occurs]. unfold ends_prompt. cbn [removelast].
  rewrite (bool_decide_ext (MPROMPT `prefix_of` [z; z0; z1; z2; z3; z4; z5; z6]) (MPROMPT `suffix_of` [z; z0; z1; z2; z3; z4; z5])).
  2: { rewrite <- Hsame by done. split; intros H; [|etrans; [exact H|by exists [z6]]]. destruct H as [k E].
    assert (Hk : length k = 1%nat) by (apply (f_equal length) in E; rewrite length_app in E; cbn in E; lia).
    destruct k as [|k0 [|]]; [done| |done]. exists []. cbn in E |- *. by simplify_eq. }
  rewrite (bool_decide_ext (MPROMPT `prefix_of` [z0; z1; z2; z3; z4; z5; z6]) (MPROMPT `suffix_of` [z0; z1; z2; z3; z4; z5; z6]) (Hsame MPROMPT [z0; z1; z2; z3; z4; z5; z6] eq_refl)).
  rewrite (bool_decide_ext (MPROMPT `suffix_of` [z; z0; z1; z2; z3; z4; z5; z6]) (MPROMPT `suffix_of` [z0; z1; z2; z3; z4; z5; z6])).
  2: { split; intros H; [|etrans; [exact H|by exists [z]]]. eapply suffix_both; [by exists [z]|cbn; lia|done]. }
  rewrite orb_comm. f_equal.
  pose proof (occurs_short MPROMPT [z1; z2; z3; z4; z5; z6] ltac:(cbn; lia)) as Hs. cbn [occurs] in Hs. by rewrite Hs, orb_false_r.
Qed.

Lemma window_long text : (8 <= length text)%nat → window text = drop (length text - 8) text.
Proof.
  intros Hl. unfold window. rewrite drop_app_ge by (rewrite length_replicate; unfold sizeof_recent_input; lia).
  by rewrite length_replicate.
Qed.

(** Memory after recent_input that starts with a NUL. *)
Lemma at_main_prompt_at b text ty evs sel : text ≠ [] → Forall (λ c, c ≠ 0) text →
  at_main_prompt (0 :: b) (term_at text ty evs sel) = TDone (seen_prompt text) (term_at text ty evs sel).
Proof.
  intros Hne Hnz. unfold at_main_prompt. cbn [recent_input term_at]. unfold seen_prompt.
  destruct (Nat.leb_spec sizeof_recent_input (length text)) as [Hl|Hl]; cbn [andb].
  - assert (Hw : Forall (λ c, c ≠ 0) (window text)) by (rewrite window_long by done; by apply Forall_drop).
    rewrite strstr_text, occurs_8 by (done || apply prompt_nonzero || apply window_length).
    unfold ends_prompt. do 2 f_equal.
    + apply bool_decide_ext, window_prompt.
    + apply bool_decide_ext. rewrite window_long by done.
      assert (E : removelast text = take (length text - 8) text ++ removelast (drop (length text - 8) text)).
      { rewrite <- removelast_app; [by rewrite take_drop|]. intros E%(f_equal length). rewrite length_drop in E. cbn in E. unfold sizeof_recent_input in Hl. lia. }
      assert (Hsuf : removelast (drop (length text - 8) text) `suffix_of` removelast text) by (rewrite E; by eexists).
      split; intros H; [by etrans|]. eapply suffix_both; [exact Hsuf| |exact H].
      rewrite removelast_firstn_len, length_take, length_drop. unfold sizeof_recent_input in Hl. cbn [length MPROMPT]. change (length MPROMPT) with 7%nat. lia.
  - assert (Hw : ∃ w, window text = 0 :: w).
    { unfold window. rewrite drop_app_le by (rewrite length_replicate; lia). rewrite drop_replicate.
      destruct (sizeof_recent_input - length text)%nat eqn:E; [lia|]. by eexists. }
    destruct Hw as [w ->]. done.
Qed.

(** Checking [first_at]. *)
Definition first_at_b (P : list Z → bool) (text : list Z) (evs : list pty_event) : bool :=
  let s := octets evs in
  forallb (λ e, match e with Quiet | Octet _ => true | _ => false end) evs &&
  match last evs with Some (Octet _) => true | _ => false end &&
  P (text ++ s) && forallb (λ n, negb (P (text ++ take n s))) (seq 1 (length s - 1)).

Lemma first_at_check P text evs : first_at_b P text evs = true → first_at P text evs (octets evs).
Proof.
  unfold first_at_b. intros [[[Ha Hl]%andb_true_iff HP]%andb_true_iff Hm]%andb_true_iff. split_and!; try done.
  - apply Forall_forall. intros e He. rewrite forallb_forall in Ha. apply list_elem_of_In, Ha in He. by destruct e.
  - destruct (last evs) as [[]|]; try done. by eexists.
  - intros s' [k E] Hn Hs. destruct k as [|c k]; [by rewrite app_nil_r in E|].
    rewrite forallb_forall in Hm. specialize (Hm (length s')). rewrite E in Hm. rewrite take_app_length, Hs in Hm.
    discriminate Hm. apply in_seq. rewrite length_app. cbn [length]. destruct s'; [done|]. cbn [length]. lia.
Qed.

(** ** Typing *)

(** What select() still says after it found the terminal writable [n] + 1 times; the last
    time shows that the string ended. *)
Fixpoint after_writable (n : nat) (sel : list bool) : option (list bool) :=
  match sel with
  | [] => None
  | false :: sel => after_writable n sel
  | true :: sel => match n with O => Some sel | S n => after_writable n sel end
  end.

Lemma send_loop_at sel : ∀ s text ty evs sel0 sel', after_writable (length s) sel = Some sel' →
  send_loop sel s (term_at text ty evs sel0) = TDone 1 (term_at text (ty ++ s) evs sel').
Proof.
  induction sel as [|[] sel IH]; intros s text ty evs sel0 sel' H; [done| |by apply IH].
  destruct s as [|c s]; cbn [send_loop]; [injection H as ->; by rewrite app_nil_r|].
  unfold mbind, T_bind, tupd.
  change (term_at text ty evs sel0 <| selects := sel |> <| typed ::= λ l, l ++ [c] |>) with (term_at text (ty ++ [c]) evs sel).
  rewrite (IH _ _ _ _ _ sel') by done. by rewrite <- app_assoc.
Qed.

(** ** A session *)

Lemma wait_at stop P text s ty evs sel rest :
  (∀ text ty evs sel, text ≠ [] → Forall (λ c, c ≠ 0) text →
    stop (term_at text ty evs sel) = TDone (P text) (term_at text ty evs sel)) →
  first_at P text evs s → Forall (λ c, c ≠ 0) (text ++ s) → fits (text ++ s) = true →
  wait stop false (term_at text ty (evs ++ rest) sel) = TDone 1 (term_at (text ++ s) ty rest sel).
Proof. intros Hs Hf Hn Hok. unfold wait. by apply (wait_loop_at stop P). Qed.

Lemma first_prompt_missed b args sel : args ≠ [] → build_cmd args ≠ None →
  bcmexp_main (0 :: b) args (start (map Octet MPROMPT) sel) = TWaiting (term_at MPROMPT [] [] sel).
Proof.
  intros Hn Hb. unfold bcmexp_main. rewrite bool_decide_eq_false_2 by done.
  destruct (build_cmd args); [|done]. reflexivity.
Qed.

(** C35: bcmexp, given a command of at most 254 characters, reads up to the first prompt, types
    the command with a newline after it, reads up to the second prompt that follows, shows the
    lines that came back but those that begin with the prompt or a clear-screen sequence
    ([left_out]), and ends with status 0, whatever else is still to come. This for a text
    without NUL, whose lines of printable characters, with their NUL, fit the 81920 octets of
    their buffer; since recent_input has no room for its own NUL, one must be next to it in
    memory ([0 :: b]); and the terminal must become writable in time. A longer command is
    written past the end of its buffer. And a prompt that is the very first thing the switch
    says is not seen: the program waits for ever with nothing typed. *)
Theorem bcmexp_session b args s1 s2 s3 evs1 evs2 evs3 rest sel sel' :
  args ≠ [] →
  first_at seen_prompt [] evs1 s1 → first_at ends_prompt s1 evs2 s2 → first_at ends_prompt (s1 ++ s2) evs3 s3 →
  let text := s1 ++ s2 ++ s3 in
  Forall (λ c, c ≠ 0) text → fits text = true → after_writable (S (length (join args))) sel = Some sel' →
  let run evs := bcmexp_main (0 :: b) args (start evs sel) in
  if (length (join args) <=? 254)%nat
  then run (evs1 ++ evs2 ++ evs3 ++ rest) = TDone 0 (term_at text (join args ++ [10]) rest sel') ∧
       run (map Octet MPROMPT) = TWaiting (term_at MPROMPT [] [] sel)
  else ∀ evs, run evs = TFault.
Proof.
  intros Hn H1 H2 H3 text Hnz Hf Hw run. subst run. cbn beta.
  pose proof (build_cmd_spec args Hn) as Hb.
  replace (length (join args) + 2 <=? sizeof_cmd)%nat with (length (join args) <=? 254)%nat in Hb.
  2: { unfold sizeof_cmd. destruct (Nat.leb_spec (length (join args)) 254), (Nat.leb_spec (length (join args) + 2) 256); lia || done. }
  destruct (_ <=? 254)%nat.
  2: { intros evs. unfold bcmexp_main. rewrite bool_decide_eq_false_2, Hb by done. done. }
  split; [|apply first_prompt_missed; [done|by rewrite Hb]].
  unfold bcmexp_main. rewrite bool_decide_eq_false_2, Hb by done.
  unfold mbind at 1, T_bind at 1, wait_for_main_prompt.
  change (start (evs1 ++ evs2 ++ evs3 ++ rest) sel) with (term_at [] [] (evs1 ++ (evs2 ++ evs3 ++ rest)) sel).
  assert (Hnz' := Hnz). unfold text in Hnz', Hf. rewrite app_assoc in Hnz', Hf. apply Forall_app in Hnz' as [Hn2 _].
  pose proof (fits_app _ _ Hf) as Hf2. apply Forall_app in Hn2 as Hn1. destruct Hn1 as [Hn1 _].
  rewrite (wait_at _ seen_prompt [] s1); [|intros; by apply at_main_prompt_at|done|done|by eapply fits_app].
  unfold mbind at 1, T_bind at 1, send_constant. cbn [selects term_at app].
  change (mk_term (window s1) (lines_of [] s1).2 (shown (lines_of [] s1).1) [] (evs2 ++ evs3 ++ rest) sel)
    with (term_at s1 [] (evs2 ++ evs3 ++ rest) sel).
  rewrite (send_loop_at _ _ _ _ _ _ sel') by (by rewrite length_app, Nat.add_comm).
  cbn [app]. unfold mbind at 1, T_bind at 1, wait_for_string.
  assert (Hs : ∀ text ty evs sel, text ≠ [] → Forall (λ c, c ≠ 0) text →
    (λ t, TDone (agree (rev (recent_input t)) (rev MPROMPT)) t) (term_at text ty evs sel) = TDone (ends_prompt text) (term_at text ty evs sel)).
  { intros. cbn beta. f_equal. apply stop_string_at. }
  rewrite (wait_at _ ends_prompt s1 s2) by done.
  unfold mbind at 1, T_bind at 1.
  rewrite (wait_at _ ends_prompt (s1 ++ s2) s3) by (done || by rewrite <- app_assoc).
  unfold text. by rewrite app_assoc.
Qed.

Lemma bcmexp_session_witness :
  let says := λ s, map Octet (chars s) in
  let args := [chars "port"; chars "ge3"; chars "stp=Forward"] in
  let evs1 := Quiet :: Octet 10 :: says "BCM.0> " in
  let evs2 := says "port ge3" ++ [Octet 10] ++ says "ge3 up" ++ [Octet 10] ++ says "BCM.0> " in
  let evs3 := [Octet 10; Quiet] ++ says "BCM.0> " in
  ∃ t, bcmexp_main [0] args (start (evs1 ++ evs2 ++ evs3 ++ [Closed]) (replicate 30 true)) = TDone 0 t ∧
    printed t = [10] ++ chars "ge3 up" ++ [10] ∧ typed t = chars "port ge3 stp=Forward" ++ [10].
Proof.
  intros says args evs1 evs2 evs3. eexists. split_and!.
  - assert (H1 : first_at seen_prompt [] evs1 (octets evs1)) by (by apply first_at_check; vm_compute).
    assert (H2 : first_at ends_prompt (octets evs1) evs2 (octets evs2)) by (by apply first_at_check; vm_compute).
    assert (H3 : first_at ends_prompt (octets evs1 ++ octets evs2) evs3 (octets evs3)) by (by apply first_at_check; vm_compute).
    pose proof (bcmexp_session [] args _ _ _ evs1 evs2 evs3 [Closed] (replicate 30 true) (replicate 8 true) ltac:(done) H1 H2 H3) as H.
    assert (Hnz : Forall (λ c, c ≠ 0) (octets evs1 ++ octets evs2 ++ octets evs3)) by (by apply (bool_decide_unpack _); vm_compute).
    specialize (H Hnz ltac:(by vm_compute) ltac:(by vm_compute)). exact (proj1 H).
  - by vm_compute.
  - by vm_compute.
Defined.
