(* ===== verification/Talk.v ===== *)
(** libnetlink.c: opening a netlink socket, asking for all links, and asking the kernel for
    something and waiting for its answer (rtnl_talk), as br_set_state does with the state of
    a port.

    What the system calls give is an argument. Without libmnl, as mstpd is built, the
    extended acknowledgements are not looked at (nl_dump_ext_ack returns 0). *)
From S2P Require Import Prelude Types Clib Track Netlink.

(** ** The handle *)

Record rtnl_handle := mk_rtnl_handle {
  rh_fd : Z;
  nl_groups : Z;
  local_nl_pid : Z;
  rh_seq : Z;
  rh_dump : Z;
  rh_proto : Z
}.
#[export] Instance eta_rtnl_handle : Eta rtnl_handle := λ r,
  mk_rtnl_handle (rh_fd r) (nl_groups r) (local_nl_pid r) (rh_seq r) (rh_dump r) (rh_proto r).
#[export] Instance set_rh_fd : Setter rh_fd := ltac:(build_setter).
#[export] Instance set_nl_groups : Setter nl_groups := ltac:(build_setter).
#[export] Instance set_local_nl_pid : Setter local_nl_pid := ltac:(build_setter).
#[export] Instance set_rh_seq : Setter rh_seq := ltac:(build_setter).
#[export] Instance set_rh_dump : Setter rh_dump := ltac:(build_setter).
#[export] Instance set_rh_proto : Setter rh_proto := ltac:(build_setter).

(** What the calls of rtnl_open_byproto give: a descriptor or failure; success of the two
    buffer sizes and of bind(); the length, family and nl_pid that getsockname() reports;
    the time. *)
Record open_setup := mk_open_setup {
  os_socket : option Z;
  os_sndbuf : bool;
  os_rcvbuf : bool;
  os_bind : bool;
  os_name : option (Z * Z * Z);
  os_time : Z
}.

Definition AF_NETLINK : Z := 16.
Definition NETLINK_ROUTE : Z := 0.

(** The handle, and the descriptors that are open. *)
Definition rtnl_close (rth : rtnl_handle) (fds : gset Z) : rtnl_handle * gset Z :=
  if 0 <=? rh_fd rth then (rth <| rh_fd := -1 |>, fds ∖ {[rh_fd rth]}) else (rth, fds).

Definition rtnl_open_byproto (u : open_setup) (subscriptions protocol : Z) (fds : gset Z) :
    Z * rtnl_handle * gset Z :=
  let rth := mk_rtnl_handle 0 0 0 0 0 protocol in
  match os_socket u with
  | None => (-1, rth <| rh_fd := -1 |>, fds)
  | Some fd =>
      let rth := rth <| rh_fd := fd |> in
      let fds := {[fd]} ∪ fds in
      let err rth := (-1, (rtnl_close rth fds).1, (rtnl_close rth fds).2) in
      if negb (os_sndbuf u) then err rth else
      if negb (os_rcvbuf u) then err rth else
      let rth := rth <| nl_groups := subscriptions |> in
      if negb (os_bind u) then err rth else
      match os_name u with
      | None => err rth
      | Some (addr_len, family, pid) =>
          let rth := rth <| local_nl_pid := pid |> in
          if addr_len ≠? sizeof_sockaddr_nl then err rth else
          if family ≠? AF_NETLINK then err rth else
          (0, rth <| rh_seq := u32 (os_time u) |>, fds)
      end
  end.

Definition rtnl_open (u : open_setup) (subscriptions : Z) (fds : gset Z) : Z * rtnl_handle * gset Z :=
  rtnl_open_byproto u subscriptions NETLINK_ROUTE fds.

Section talk.
Context `{HostOrder}.

(** ** The request for all links *)

Definition RTM_GETLINK : Z := 18.
Definition NLM_F_DUMP : Z := 0x300.
Definition IFLA_EXT_MASK : Z := 29.
Definition RTEXT_FILTER_VF : Z := 1.

(** The members that are not named are zero. *)
Definition put_nlmsghdr (len type flags seq : Z) : list Z :=
  put_uint 4 len ++ put_uint 2 type ++ put_uint 2 flags ++ put_uint 4 seq ++ replicate 4 0.
Definition put_ifinfomsg (family : Z) : list Z := put_uint 1 family ++ replicate 15 0.

(** The handle, and the octets sent. *)
Definition next_dump (rth : rtnl_handle) : rtnl_handle :=
  let seq := u32 (rh_seq rth + 1) in rth <| rh_seq := seq |> <| rh_dump := seq |>.

Definition __rtnl_linkdump_req (rth : rtnl_handle) (family : Z) : rtnl_handle * list Z :=
  let rth := next_dump rth in
  (rth, put_nlmsghdr (NLMSG_LENGTH sizeof_ifinfomsg) RTM_GETLINK (Z.lor NLM_F_DUMP NLM_F_REQUEST) (rh_seq rth) ++
        put_ifinfomsg family).

Definition rtnl_linkdump_req_filter (rth : rtnl_handle) (family filt_mask : Z) : rtnl_handle * list Z :=
  if (family =? AF_UNSPEC) || (family =? AF_BRIDGE) then
    let rth := next_dump rth in
    (rth, put_nlmsghdr 40 RTM_GETLINK (Z.lor NLM_F_DUMP NLM_F_REQUEST) (rh_seq rth) ++ put_ifinfomsg family ++
          put_uint 2 (RTA_LENGTH 4) ++ put_uint 2 IFLA_EXT_MASK ++ put_uint 4 filt_mask)
  else __rtnl_linkdump_req rth family.

Definition rtnl_linkdump_req (rth : rtnl_handle) (family : Z) : rtnl_handle * list Z :=
  if family =? AF_UNSPEC then rtnl_linkdump_req_filter rth family RTEXT_FILTER_VF
  else __rtnl_linkdump_req rth family.

(** ** Receiving *)

(** A message of the socket: its length, that of the sender's address, the sender,
    MSG_TRUNC, and the octets. *)
Record datagram := mk_datagram {
  dg_len : Z;
  dg_namelen : Z;
  dg_pid : Z;
  dg_trunc : bool;
  dg_data : list Z
}.
(** How recvmsg() ends: EINTR or EAGAIN, another error, a message. *)
Inductive rv := RvAgain | RvError (errno : Z) | Rv (d : datagram).

Definition ENODATA : Z := 61.
Definition ENOMEM : Z := 12.

(** [None]: nothing more comes, and the call waits. *)
Fixpoint __rtnl_recvmsg (evs : list rv) : option ((Z + datagram) * list rv) :=
  match evs with
  | [] => None
  | RvAgain :: evs => __rtnl_recvmsg evs
  | RvError errno :: evs => Some (inl (- errno), evs)
  | Rv d :: evs => Some (if dg_len d =? 0 then inl (- ENODATA) else inr d, evs)
  end.

(** The memory that the n-th malloc() gives, with what is in it; [None]: it fails. *)
Context (malloc : nat → Z → option (list Z)).

(** First a look at the length, then the message itself, into a buffer that is large enough. *)
Definition rtnl_recvmsg (n : nat) (evs : list rv) : option ((Z + datagram * list Z) * list rv) :=
  match __rtnl_recvmsg evs with
  | None => None
  | Some (inl err, evs) => Some (inl err, evs)
  | Some (inr peeked, evs) =>
      let len := if dg_len peeked <? 32768 then 32768 else dg_len peeked in
      match malloc n len with
      | None => Some (inl (- ENOMEM), evs)
      | Some mem =>
          match __rtnl_recvmsg evs with
          | None => None
          | Some (inl err, evs) => Some (inl err, evs)
          | Some (inr d, evs) => Some (inr (d, dg_data d ++ drop (length (dg_data d)) mem), evs)
          end
      end
  end.

(** ** rtnl_talk *)

Definition NLM_F_ACK : Z := 4.
Definition sizeof_nlmsgerr : Z := 20.

(** The messages get their numbers, and ask for an acknowledgement if there is no other
    [answer]. *)
Fixpoint number_messages (answer : bool) (seq : Z) (iov : list (list Z)) : option (list (list Z) * Z) :=
  match iov with
  | [] => Some ([], seq)
  | h :: iov =>
      let seq := u32 (seq + 1) in
      h ← store_octets (put_uint 4 seq) 8 h;
      h ← (if answer then Some h else
             flags ← uint_at h 6 2; store_octets (put_uint 2 (Z.lor flags NLM_F_ACK)) 6 h);
      r ← number_messages answer seq iov;
      Some (h :: r.1, r.2)
  end.

(** How the loop over the messages of a buffer ends: the function returns, with the buffer or
    without; the next buffer is read (goto next); what is left of [status]. *)
Inductive scanned := ScanReturn (r : Z) (buf : bool) | ScanNext | ScanDone (status : Z).

Section scan.
Context (iovlen seq local_pid : Z) (answer : bool).

(** What is left of the arithmetic of sizes is that of 32-bit and 64-bit numbers. [None]: an
    access outside of the buffer. *)
Fixpoint talk_messages (fuel : nat) (i nl_pid : Z) (buf : list Z) (h status : Z) : option scanned :=
  match fuel with
  | O => None
  | S fuel =>
      if u64 status <? sizeof_nlmsghdr then Some (ScanDone status) else
      len ← nlmsg_len buf h;
      let l := s32 (len - sizeof_nlmsghdr) in
      if (l <? 0) || (status <? len) then Some (ScanReturn (-1) false) else
      let skip := talk_messages fuel i nl_pid buf (h + u32 (align4 len)) (s32 (status - align4 len)) in
      pid ← nlmsg_pid buf h;
      s ← nlmsg_seq buf h;
      if (nl_pid ≠? 0) || (pid ≠? local_pid) || (seq <? s) || (s <? u64 (seq - iovlen)) then skip else
      type ← nlmsg_type buf h;
      if type =? NLMSG_ERROR then
        error ← int_at buf (NLMSG_DATA h);
        if l <? sizeof_nlmsgerr then Some (ScanReturn (-1) false) else
        if i <? iovlen then Some ScanNext else
        Some (if error ≠? 0 then ScanReturn (- i) false else ScanReturn 0 answer)
      else if answer then Some (ScanReturn 0 true) else
      (* "Unexpected reply!!!" *)
      skip
  end.
End scan.

Inductive talked :=
| Talked (ret : Z) (buf : option (list Z)) (rest : list rv)
| TalkFault
| TalkOutOfFuel
| TalkWaits.

(** [i] is the number of buffers so far. *)
Fixpoint talk_loop (fuel : nat) (iovlen seq local_pid : Z) (answer : bool) (i : nat) (evs : list rv) : talked :=
  match fuel with
  | O => TalkOutOfFuel
  | S fuel =>
      match rtnl_recvmsg i evs with
      | None => TalkWaits
      | Some (inl err, evs) => Talked err None evs
      | Some (inr (d, buf), evs) =>
          let next := talk_loop fuel iovlen seq local_pid answer (S i) evs in
          if dg_namelen d ≠? sizeof_sockaddr_nl then Talked (-1) None evs else
          match talk_messages iovlen seq local_pid answer (S (S (Z.to_nat (dg_len d)))) (Z.of_nat (S i))
                  (dg_pid d) buf 0 (dg_len d) with
          | None => TalkFault
          | Some (ScanReturn r keep) => Talked r (if keep then Some buf else None) evs
          | Some ScanNext => next
          | Some (ScanDone status) =>
              if dg_trunc d then next else if status ≠? 0 then Talked (-1) None evs else next
          end
      end
  end.

(** The handle, the messages as they are sent ([iov_len] octets of each), and the end.
    [sent] says whether sendmsg() succeeds. *)
Definition __rtnl_talk_iov (rtnl : rtnl_handle) (iov : list (list Z)) (answer sent : bool) (evs : list rv) :
    option (rtnl_handle * list (list Z) * talked) :=
  r ← number_messages answer (rh_seq rtnl) iov;
  let rtnl := rtnl <| rh_seq := r.2 |> in
  Some (rtnl, r.1,
        if negb (sent : bool) then Talked (-1) None evs else
        talk_loop (S (length evs)) (Z.of_nat (length iov)) (if bool_decide (iov = []) then 0 else r.2)
          (local_nl_pid rtnl) answer 0 evs).

(** The octets that are sent are the first [nlmsg_len]. *)
Definition rtnl_talk (rtnl : rtnl_handle) (n : list Z) (answer sent : bool) (evs : list rv) :
    option (rtnl_handle * list Z * talked) :=
  len ← uint_at n 0 4;
  r ← __rtnl_talk_iov rtnl [n] answer sent evs;
  Some (r.1.1, take (Z.to_nat len) (concat r.1.2), r.2).

(** ** br_set_state (bridge_track.c) *)
Definition br_set_state (rth : rtnl_handle) (ifindex state : Z) (sent : bool) (evs : list rv) :
    option (rtnl_handle * list Z * talked) :=
  req ← set_state_request ifindex state;
  rtnl_talk rth req false sent evs.
End talk.
