(* ===== verification/Answers.v ===== *)
(** What rtnl_talk makes of the kernel's answers: it skips what is for others and returns at the
    first acknowledgement of its own request. *)
From S2P Require Import Prelude Types Clib Vectors Kernel Track Netlink Linkmsg Talk.

Section answers.
Context `{HostOrder}.

(** ** Messages of the kernel *)

Record nl_msg := mk_nl_msg { nm_type : Z; nm_flags : Z; nm_seq : Z; nm_pid : Z; nm_body : list Z }.
Definition nm_len (m : nl_msg) : Z := sizeof_nlmsghdr + Z.of_nat (length (nm_body m)).
Definition nl_octets (m : nl_msg) : list Z :=
  put_uint 4 (nm_len m) ++ put_uint 2 (nm_type m) ++ put_uint 2 (nm_flags m) ++
  put_uint 4 (nm_seq m) ++ put_uint 4 (nm_pid m) ++
  nm_body m ++ replicate (Z.to_nat (align4 (nm_len m) - nm_len m)) 0.
Definition all_octets (ms : list nl_msg) : list Z := concat (map nl_octets ms).

(** Members in their ranges, and an error code in every message of that type. *)
Record wf_nl_msg (m : nl_msg) : Prop := {
  nw_type : in_u16 (nm_type m);
  nw_seq : in_u32 (nm_seq m);
  nw_pid : in_u32 (nm_pid m);
  nw_error : nm_type m = NLMSG_ERROR → (4 <= length (nm_body m))%nat
}.

Definition error_of (m : nl_msg) : Z := s32 (get_uint (take 4 (nm_body m))).

(** An acknowledgement of the request [seq] of [pid], or of the one before. *)
Definition acknowledges (seq pid nl_pid : Z) (m : nl_msg) : bool :=
  (nl_pid =? 0) && (nm_pid m =? pid) && (nm_seq m <=? seq) && (u64 (seq - 1) <=? nm_seq m) &&
  (nm_type m =? NLMSG_ERROR).

(** What rtnl_talk() returns for it, when it is in the [i]-th buffer. *)
Definition result_of (i : Z) (m : nl_msg) : Z :=
  if (length (nm_body m) <? 20)%nat then -1 else if error_of m =? 0 then 0 else - i.

Definition first_ack (seq pid nl_pid : Z) (ms : list nl_msg) : option nl_msg :=
  List.find (acknowledges seq pid nl_pid) ms.

(** *** Reading them *)

Lemma length_nl_octets m : Z.of_nat (length (nl_octets m)) = align4 (nm_len m).
Proof.
  unfold nl_octets. rewrite !length_app, !length_put_uint, length_replicate.
  pose proof (align4_bounds (nm_len m)). unfold nm_len, sizeof_nlmsghdr in *. lia.
Qed.

Section one.
Context (pre post : list Z) (m : nl_msg) (Hm : wf_nl_msg m) (Hlen : nm_len m < 2 ^ 31).
Let buf := pre ++ nl_octets m ++ post.
Let h := Z.of_nat (length pre).

Lemma msg_len : nlmsg_len buf h = Some (nm_len m).
Proof.
  unfold nlmsg_len, int_at, buf, h, nl_octets. rewrite <- (Z.add_0_r (Z.of_nat _)), uint_at_app, <- !app_assoc by lia.
  assert (0 <= nm_len m) by (unfold nm_len, sizeof_nlmsghdr; lia).
  rewrite uint_at_head by (change (256 ^ Z.of_nat 4) with (2 ^ 32); lia). cbn. by rewrite s32_small by lia.
Qed.

Ltac find_member :=
  unfold buf, h, nl_octets; rewrite uint_at_app by lia; rewrite <- !app_assoc;
  repeat (erewrite uint_at_skip by (rewrite ?length_put_uint; first [reflexivity|lia]); cbn [Z.sub Z.add Z.opp Z.pos_sub Pos.pred_double]);
  apply uint_at_head.

Lemma msg_pid : nlmsg_pid buf h = Some (nm_pid m).
Proof. unfold nlmsg_pid. find_member. apply Hm. Qed.
Lemma msg_seq : nlmsg_seq buf h = Some (nm_seq m).
Proof. unfold nlmsg_seq. find_member. apply Hm. Qed.
Lemma msg_type : nlmsg_type buf h = Some (nm_type m).
Proof. unfold nlmsg_type. find_member. apply Hm. Qed.

Lemma msg_error : nm_type m = NLMSG_ERROR → int_at buf (NLMSG_DATA h) = Some (error_of m).
Proof.
  intros Ht. pose proof (nw_error _ Hm Ht) as Hb. unfold int_at, error_of.
  rewrite (uint_at_data _ _ _ (nm_body m) (replicate (Z.to_nat (align4 (nm_len m) - nm_len m)) 0 ++ post));
    [done|unfold h, NLMSG_DATA, NLMSG_LENGTH; change (align4 sizeof_nlmsghdr) with 16; lia| |lia].
  unfold NLMSG_DATA, NLMSG_LENGTH, buf, h, nl_octets. change (0 + align4 sizeof_nlmsghdr) with 16.
  rewrite Z2Nat.inj_add, Nat2Z.id, drop_app_add by lia. change (Z.to_nat 16) with 16%nat.
  rewrite <- !app_assoc.
  rewrite (app_assoc (put_uint 4 (nm_len m))), (app_assoc (_ ++ _) (put_uint 2 (nm_flags m))),
    (app_assoc ((_ ++ _) ++ _) (put_uint 4 (nm_seq m))), (app_assoc (((_ ++ _) ++ _) ++ _) (put_uint 4 (nm_pid m))).
  rewrite drop_app_ge by (rewrite !length_app, !length_put_uint; lia).
  by rewrite !length_app, !length_put_uint.
Qed.
End one.

(** ** The messages of a buffer *)

Lemma talk_messages_skip iovlen seq pid answer fuel i nl_pid pre m post status :
  wf_nl_msg m → align4 (nm_len m) <= status < 2 ^ 31 → iovlen = 1 → answer = false →
  acknowledges seq pid nl_pid m = false →
  talk_messages iovlen seq pid answer (S fuel) i nl_pid (pre ++ nl_octets m ++ post) (Z.of_nat (length pre)) status =
  talk_messages iovlen seq pid answer fuel i nl_pid ((pre ++ nl_octets m) ++ post) (Z.of_nat (length (pre ++ nl_octets m)))
    (status - align4 (nm_len m)).
Proof.
  intros Hm Hs -> -> Ha. pose proof (align4_bounds (nm_len m)).
  assert (16 <= nm_len m) by (unfold nm_len, sizeof_nlmsghdr; lia).
  cbn [talk_messages]. unfold u64 at 1. rewrite Z.mod_small by lia. unfold sizeof_nlmsghdr.
  rewrite (proj2 (Z.ltb_ge _ _)) by lia.
  rewrite msg_len, msg_pid, msg_seq, msg_type by (done || lia). cbn [mbind option_bind].
  rewrite s32_small by lia. rewrite !(proj2 (Z.ltb_ge _ _)) by lia. cbn [orb].
  unfold u32. rewrite Z.mod_small, s32_small by lia.
  assert (Hnext : Z.of_nat (length pre) + align4 (nm_len m) = Z.of_nat (length (pre ++ nl_octets m))).
  { rewrite length_app, Nat2Z.inj_add, length_nl_octets. done. }
  rewrite Hnext, <- app_assoc. unfold acknowledges in Ha.
  destruct (nl_pid =? 0); [|done]. destruct (nm_pid m =? pid); [|done]. cbn [andb negb orb] in *.
  rewrite (Z.ltb_antisym (nm_seq m) seq), (Z.ltb_antisym (u64 (seq - 1)) (nm_seq m)).
  destruct (nm_seq m <=? seq); [|done]. destruct (u64 (seq - 1) <=? nm_seq m); [|done]. cbn [andb negb orb] in *.
  by rewrite Ha.
Qed.

Lemma talk_messages_found fuel i seq pid nl_pid pre m post status :
  wf_nl_msg m → nm_len m <= status < 2 ^ 31 → 1 <= i → acknowledges seq pid nl_pid m = true →
  talk_messages 1 seq pid false (S fuel) i nl_pid (pre ++ nl_octets m ++ post) (Z.of_nat (length pre)) status =
  Some (ScanReturn (result_of i m) false).
Proof.
  intros Hm Hs Hi Ha. assert (16 <= nm_len m) by (unfold nm_len, sizeof_nlmsghdr; lia).
  unfold acknowledges in Ha. rewrite !andb_true_iff in Ha. destruct Ha as [[[[Hn Hp] Hseq] Hlow] Ht].
  apply Z.eqb_eq in Ht. cbn [talk_messages]. unfold u64 at 1. rewrite Z.mod_small by lia. unfold sizeof_nlmsghdr.
  rewrite (proj2 (Z.ltb_ge _ _)) by lia.
  rewrite msg_len, msg_pid, msg_seq, msg_type by (done || lia). cbn [mbind option_bind].
  rewrite s32_small by lia. rewrite !(proj2 (Z.ltb_ge _ _)) by lia. cbn [orb].
  rewrite Hn, Hp. cbn [negb orb]. rewrite Ht, Z.eqb_refl, msg_error by done. cbn [mbind option_bind].
  unfold result_of, sizeof_nlmsgerr, nm_len, sizeof_nlmsghdr.
  destruct (Z.ltb_spec (16 + Z.of_nat (length (nm_body m)) - 16) 20), (Nat.ltb_spec (length (nm_body m)) 20); try lia; [done|].
  rewrite (proj2 (Z.ltb_ge i 1)) by lia. by destruct (error_of m =? 0).
Qed.

Lemma talk_messages_octets seq pid i nl_pid post ms : ∀ fuel pre,
  Forall wf_nl_msg ms → (length ms < fuel)%nat → 1 <= i → Z.of_nat (length (all_octets ms)) < 2 ^ 31 →
  talk_messages 1 seq pid false fuel i nl_pid (pre ++ all_octets ms ++ post) (Z.of_nat (length pre))
    (Z.of_nat (length (all_octets ms))) =
  Some (match first_ack seq pid nl_pid ms with Some m => ScanReturn (result_of i m) false | None => ScanDone 0 end).
Proof.
  induction ms as [|m ms IH]; intros fuel pre Hwf Hf Hi Hlen; (destruct fuel as [|fuel]; [cbn in Hf; lia|]).
  { done. }
  apply Forall_cons in Hwf as [Hm Hwf]. change (all_octets (m :: ms)) with (nl_octets m ++ all_octets ms) in *.
  rewrite length_app, Nat2Z.inj_add, length_nl_octets in *. pose proof (align4_bounds (nm_len m)).
  assert (16 <= nm_len m) by (unfold nm_len, sizeof_nlmsghdr; lia).
  rewrite <- app_assoc. cbn [first_ack List.find]. destruct (acknowledges seq pid nl_pid m) eqn:Ha.
  - apply talk_messages_found; [done|lia|done|done].
  - rewrite talk_messages_skip by (done || lia).
    replace (align4 (nm_len m) + _ - align4 (nm_len m)) with (Z.of_nat (length (all_octets ms))) by lia.
    apply IH; [done|cbn in Hf; lia|done|lia].
Qed.
(** ** The buffers

    A datagram reaches rtnl_talk twice, once to tell its length; before that the calls may be
    interrupted. *)
Record delivery := mk_delivery { dl_again : nat; dl_again' : nat; dl_pid : Z; dl_msgs : list nl_msg }.
Definition as_datagram (d : delivery) : datagram :=
  mk_datagram (Z.of_nat (length (all_octets (dl_msgs d)))) sizeof_sockaddr_nl (dl_pid d) false (all_octets (dl_msgs d)).
Definition events_of (d : delivery) : list rv :=
  replicate (dl_again d) RvAgain ++ [Rv (as_datagram d)] ++ replicate (dl_again' d) RvAgain ++ [Rv (as_datagram d)].
Definition wf_delivery (d : delivery) : Prop :=
  dl_msgs d ≠ [] ∧ Forall wf_nl_msg (dl_msgs d) ∧ Z.of_nat (length (all_octets (dl_msgs d))) < 2 ^ 31.
Definition ack_in (seq pid : Z) (d : delivery) : option nl_msg := first_ack seq pid (dl_pid d) (dl_msgs d).

Lemma recv_again n evs : __rtnl_recvmsg (replicate n RvAgain ++ evs) = __rtnl_recvmsg evs.
Proof. induction n; [done|]. cbn. done. Qed.

Lemma all_octets_pos ms : ms ≠ [] → 0 < Z.of_nat (length (all_octets ms)).
Proof.
  destruct ms as [|m ms]; [done|]. intros _. change (all_octets (m :: ms)) with (nl_octets m ++ all_octets ms).
  rewrite length_app, Nat2Z.inj_add, length_nl_octets. pose proof (align4_bounds (nm_len m)).
  unfold nm_len, sizeof_nlmsghdr in *. lia.
Qed.
Lemma length_all_octets ms : (length ms <= length (all_octets ms))%nat.
Proof.
  induction ms as [|m ms IH]; [cbn; lia|]. change (all_octets (m :: ms)) with (nl_octets m ++ all_octets ms).
  pose proof (all_octets_pos [m] ltac:(done)) as Hp. unfold all_octets at 1 in Hp. cbn [map concat] in Hp. rewrite app_nil_r in Hp.
  rewrite length_app. cbn [length]. lia.
Qed.

Section loop.
Context (malloc : nat → Z → option (list Z)) (Hmalloc : ∀ n len, is_Some (malloc n len)).

Lemma rtnl_recvmsg_delivery n d evs : wf_delivery d →
  ∃ post, rtnl_recvmsg malloc n (events_of d ++ evs) = Some (inr (as_datagram d, all_octets (dl_msgs d) ++ post), evs).
Proof.
  intros (Hne & _ & _). pose proof (all_octets_pos _ Hne). unfold rtnl_recvmsg, events_of.
  rewrite <- !app_assoc, recv_again. cbn [app __rtnl_recvmsg]. rewrite (proj2 (Z.eqb_neq (dg_len (as_datagram d)) 0)) by (cbn; lia).
  destruct (Hmalloc n (if dg_len (as_datagram d) <? 32768 then 32768 else dg_len (as_datagram d))) as [mem ->].
  rewrite recv_again. cbn [__rtnl_recvmsg]. rewrite (proj2 (Z.eqb_neq (dg_len (as_datagram d)) 0)) by (cbn; lia).
  cbn [dg_data as_datagram]. by eexists.
Qed.

(** One buffer. *)
Lemma talk_loop_delivery fuel seq pid i d evs : wf_delivery d →
  talk_loop malloc (S fuel) 1 seq pid false i (events_of d ++ evs) =
    match ack_in seq pid d with
    | Some m => Talked (result_of (Z.of_nat (S i)) m) None evs
    | None => talk_loop malloc fuel 1 seq pid false (S i) evs
    end.
Proof.
  intros Hd. cbn [talk_loop]. destruct (rtnl_recvmsg_delivery i d evs Hd) as [post ->].
  destruct Hd as (Hne & Hwf & Hlen). cbn [dg_namelen as_datagram negb Z.eqb sizeof_sockaddr_nl].
  pose proof (talk_messages_octets seq pid (Z.of_nat (S i)) (dl_pid d) post (dl_msgs d)
    (S (S (Z.to_nat (Z.of_nat (length (all_octets (dl_msgs d))))))) []) as Ht.
  cbn [app length] in Ht. change (Z.of_nat 0) with 0 in Ht. unfold as_datagram at 1 2 3. cbn [dg_len dg_pid].
  pose proof (length_all_octets (dl_msgs d)). rewrite Ht by (done || lia).
  unfold ack_in. by destruct (first_ack seq pid (dl_pid d) (dl_msgs d)).
Qed.

(** Buffers without an acknowledgement are gone through. *)
Lemma talk_loop_deliveries seq pid ds : ∀ fuel i evs, Forall wf_delivery ds →
  Forall (λ d, ack_in seq pid d = None) ds →
  talk_loop malloc (length ds + fuel) 1 seq pid false i (concat (map events_of ds) ++ evs) =
  talk_loop malloc fuel 1 seq pid false (length ds + i) evs.
Proof.
  induction ds as [|d ds IH]; intros fuel i evs Hwf Hno; [done|].
  apply Forall_cons in Hwf as [Hd Hwf], Hno as [Ha Hno]. cbn [map concat length Nat.add]. rewrite <- app_assoc.
  rewrite talk_loop_delivery, Ha, IH by done. f_equal. lia.
Qed.

(** More fuel than events. *)
Lemma rtnl_recvmsg_consumes n evs r evs' : rtnl_recvmsg malloc n evs = Some (r, evs') → (length evs' < length evs)%nat.
Proof.
  assert (Hc : ∀ evs r evs', __rtnl_recvmsg evs = Some (r, evs') → (length evs' < length evs)%nat).
  { clear. induction evs as [|[| |] evs IH]; intros r evs' Heq; cbn in Heq |- *; [done| | |]; [apply IH in Heq; lia| |];
      injection Heq as _ <-; lia. }
  unfold rtnl_recvmsg. destruct (__rtnl_recvmsg evs) as [[[e|d] evs1]|] eqn:E1; [| |done]; apply Hc in E1.
  - intros [= _ <-]. done.
  - destruct (malloc n _); [|intros [= _ <-]; done].
    destruct (__rtnl_recvmsg evs1) as [[[e|d'] evs2]|] eqn:E2; [| |done]; apply Hc in E2; intros [= _ <-]; lia.
Qed.

Lemma talk_loop_fuel fuel1 : ∀ fuel2 iovlen seq pid answer i evs,
  (length evs < fuel1)%nat → (length evs < fuel2)%nat →
  talk_loop malloc fuel1 iovlen seq pid answer i evs = talk_loop malloc fuel2 iovlen seq pid answer i evs.
Proof.
  induction fuel1 as [|fuel1 IH]; intros [|fuel2] iovlen seq pid answer i evs H1 H2; try lia.
  cbn [talk_loop]. destruct (rtnl_recvmsg malloc i evs) as [[[e|[d buf]] evs1]|] eqn:Er; [done| |done].
  apply rtnl_recvmsg_consumes in Er. rewrite (IH fuel2) by lia. done.
Qed.

Lemma talk_loop_ends fuel : ∀ iovlen seq pid answer i evs, (length evs < fuel)%nat →
  talk_loop malloc fuel iovlen seq pid answer i evs ≠ TalkOutOfFuel.
Proof.
  induction fuel as [|fuel IH]; intros iovlen seq pid answer i evs Hf; [lia|].
  cbn [talk_loop]. destruct (rtnl_recvmsg malloc i evs) as [[[e|[d buf]] evs1]|] eqn:Er; [done| |done].
  apply rtnl_recvmsg_consumes in Er. pose proof (IH iovlen seq pid answer (S i) evs1 ltac:(lia)).
  repeat case_match; done.
Qed.

(** The whole of a conversation. *)
Lemma rtnl_talk_answer rth n n' len ds d m rest :
  let seq := u32 (rh_seq rth + 1) in let pid := local_nl_pid rth in
  uint_at n 0 4 = Some len → number_messages false (rh_seq rth) [n] = Some ([n'], seq) →
  Forall wf_delivery ds → wf_delivery d → Forall (λ d, ack_in seq pid d = None) ds → ack_in seq pid d = Some m →
  rtnl_talk malloc rth n false true (concat (map events_of (ds ++ [d])) ++ rest) =
    Some (rth <| rh_seq := seq |>, take (Z.to_nat len) n', Talked (result_of (Z.of_nat (S (length ds))) m) None rest).
Proof.
  intros seq pid Hlen Hnum Hwf Hd Hno Hack. unfold rtnl_talk, __rtnl_talk_iov. rewrite Hlen. cbn [mbind option_bind].
  rewrite Hnum. cbn [mbind option_bind fst snd negb concat]. rewrite app_nil_r. do 2 f_equal.
  rewrite bool_decide_eq_false_2 by done. rewrite map_app, concat_app. cbn [map concat]. rewrite app_nil_r, <- app_assoc.
  set (evs := concat _ ++ _). change (Z.of_nat (length [n])) with 1.
  rewrite (talk_loop_fuel _ (length ds + S (length evs))) by lia. unfold evs.
  change (local_nl_pid (rth <| rh_seq := seq |>)) with pid.
  rewrite talk_loop_deliveries, talk_loop_delivery by done. rewrite Hack, Nat.add_0_r. done.
Qed.
End loop.

(** ** br_set_state *)

Lemma number_request seq L t f T : in_u16 f →
  number_messages false seq [put_uint 4 L ++ put_uint 2 t ++ (put_uint 2 f ++ replicate 8 0) ++ T] =
  Some ([put_uint 4 L ++ put_uint 2 t ++
         (put_uint 2 (Z.lor f NLM_F_ACK) ++ put_uint 4 (u32 (seq + 1)) ++ replicate 4 0) ++ T], u32 (seq + 1)).
Proof.
  intros Hf. cbn [number_messages].
  rewrite (eq_refl : replicate 8 0 = replicate 4 0 ++ replicate 4 0).
  replace (put_uint 4 L ++ put_uint 2 t ++ (put_uint 2 f ++ replicate 4 0 ++ replicate 4 0) ++ T)
    with ((put_uint 4 L ++ put_uint 2 t ++ put_uint 2 f) ++ replicate 4 0 ++ (replicate 4 0 ++ T)) by (by rewrite <- !app_assoc).
  rewrite store_app by (rewrite ?length_app, ?length_put_uint; done). cbn [mbind option_bind].
  replace ((put_uint 4 L ++ put_uint 2 t ++ put_uint 2 f) ++ put_uint 4 (u32 (seq + 1)) ++ replicate 4 0 ++ T)
    with ((put_uint 4 L ++ put_uint 2 t) ++ put_uint 2 f ++ (put_uint 4 (u32 (seq + 1)) ++ replicate 4 0 ++ T)) by (by rewrite <- !app_assoc).
  rewrite (uint_at_skip _ _ _ _ 6) by (rewrite ?length_app, ?length_put_uint; lia). change (6 - 6) with 0.
  rewrite uint_at_head by done. cbn [mbind option_bind].
  rewrite store_app by (rewrite ?length_app, ?length_put_uint; done). cbn [mbind option_bind].
  by rewrite <- !app_assoc.
Qed.

(** The request with its number. *)
Definition numbered (seq ifindex state : Z) : link_message :=
  let m := set_state_message ifindex state in
  mk_link_message (lm_type m) (put_uint 2 0x105 ++ put_uint 4 seq ++ replicate 4 0) (lm_family m) (lm_pad m)
    (lm_index m) (lm_flags m) (lm_change m) (lm_attrs m).

Lemma length_numbered seq ifindex state : length (message_octets (numbered seq ifindex state)) = 40%nat.
Proof.
  unfold message_octets, numbered, set_state_message, attrs_octets, attr_octets.
  cbn [map concat lm_type lm_hdr lm_family lm_pad lm_index lm_flags lm_change lm_attrs].
  rewrite !length_app, !length_put_uint. reflexivity.
Qed.

(** C33: br_set_state asks the kernel, with the next number of its handle, to set the state
    of the port, and reads buffer after buffer, however the calls are interrupted and
    whatever is in them for others, up to the first acknowledgement; it returns 0 exactly when
    that is one without an error. (An acknowledgement of the request before is taken
    for its own.) *)
Theorem br_set_state_answer malloc rth ifindex state ds d m rest :
  (∀ n len, is_Some (malloc n len)) →
  let seq := u32 (rh_seq rth + 1) in let pid := local_nl_pid rth in
  Forall wf_delivery ds → wf_delivery d → Forall (λ d, ack_in seq pid d = None) ds → ack_in seq pid d = Some m →
  ∃ r, br_set_state malloc rth ifindex state true (concat (map events_of (ds ++ [d])) ++ rest) =
         Some (rth <| rh_seq := seq |>, message_octets (numbered seq ifindex state), Talked r None rest) ∧
       (r = 0 ↔ (20 <= length (nm_body m))%nat ∧ error_of m = 0) ∧ r <= 0.
Proof.
  intros Hmalloc seq pid Hwf Hd Hno Hack. exists (result_of (Z.of_nat (S (length ds))) m). split.
  - unfold br_set_state. rewrite set_state_request_message. cbn [mbind option_bind].
    set (L := NLMSG_LENGTH sizeof_ifinfomsg + Z.of_nat (length (attrs_octets (lm_attrs (set_state_message ifindex state))))).
    assert (HL : L = 40).
    { unfold L, set_state_message, attrs_octets, attr_octets. cbn [map concat lm_attrs].
      rewrite !length_app, !length_put_uint. reflexivity. }
    unfold message_octets at 1. fold L. rewrite <- !(app_assoc _ _ (replicate 248 0)).
    rewrite (rtnl_talk_answer malloc Hmalloc rth _ (message_octets (numbered seq ifindex state) ++ replicate 248 0) 40 ds d m rest); try done.
    + by rewrite take_app_le, take_ge by (rewrite length_numbered; done).
    + rewrite uint_at_head; [by rewrite HL|by rewrite HL].
    + change (lm_hdr (set_state_message ifindex state)) with (put_uint 2 0x101 ++ replicate 8 0).
      rewrite number_request by done. unfold message_octets, numbered. cbn [lm_type lm_hdr lm_family lm_pad lm_index lm_flags lm_change lm_attrs].
      fold L. change (Z.lor 0x101 NLM_F_ACK) with 0x105. by rewrite <- !(app_assoc _ _ (replicate 248 0)).
  - unfold result_of. destruct (Nat.ltb_spec (length (nm_body m)) 20); [split; [lia|lia]|].
    destruct (Z.eqb_spec (error_of m) 0); split; try lia.
Qed.

(** The acknowledgement of the request before counts; and when the number of a request is 0,
    none does. *)
Lemma stale_acknowledged seq pid m : 0 < seq → in_u32 seq → nm_type m = NLMSG_ERROR → nm_pid m = pid → nm_seq m = seq - 1 →
  acknowledges seq pid 0 m = true.
Proof.
  intros Hs Hu Ht Hp Hn. unfold in_u32 in Hu. unfold acknowledges. rewrite Hp, Hn, Ht. unfold u64. rewrite Z.mod_small by lia.
  rewrite !Z.eqb_refl, !(proj2 (Z.leb_le _ _)) by lia. done.
Qed.
Lemma number_0_not_acknowledged pid nl_pid m : in_u32 (nm_seq m) → acknowledges 0 pid nl_pid m = false.
Proof.
  intros Hu. unfold in_u32 in Hu. unfold acknowledges. change (u64 (0 - 1)) with (2 ^ 64 - 1).
  rewrite (proj2 (Z.leb_gt (2 ^ 64 - 1) _)) by lia. by rewrite andb_false_r.
Qed.

(** ** The other requests *)

(** What the daemon asks at its start is a link message, with the number it waits for. *)
Lemma linkdump_message rth :
  let seq := u32 (rh_seq rth + 1) in
  rtnl_linkdump_req rth AF_BRIDGE =
    (rth <| rh_seq := seq |> <| rh_dump := seq |>,
     message_octets (mk_link_message RTM_GETLINK (put_uint 2 0x301 ++ put_uint 4 seq ++ replicate 4 0)
       AF_BRIDGE [0; 0; 0] 0 0 [0; 0; 0; 0] [])).
Proof.
  intros seq. unfold rtnl_linkdump_req, __rtnl_linkdump_req, next_dump, put_nlmsghdr, put_ifinfomsg, message_octets.
  cbn [AF_BRIDGE AF_UNSPEC Z.eqb rh_seq lm_type lm_hdr lm_family lm_pad lm_index lm_flags lm_change lm_attrs attrs_octets map concat].
  change (Z.lor NLM_F_DUMP NLM_F_REQUEST) with 0x301. fold seq. rewrite !(put_uint_0 4), <- !app_assoc. reflexivity.
Qed.
End answers.

(** The socket is open and the handle knows its number, or it is closed again. *)
Lemma rtnl_open_clean u subscriptions fds :
  let '(r, rth, fds') := rtnl_open u subscriptions fds in
  match os_socket u with
  | Some fd => 0 <= fd → fd ∉ fds →
      (r = 0 ∧ rh_fd rth = fd ∧ fds' = {[fd]} ∪ fds ∧ in_u32 (rh_seq rth)) ∨ (r = -1 ∧ rh_fd rth = -1 ∧ fds' = fds)
  | None => r = -1 ∧ rh_fd rth = -1 ∧ fds' = fds
  end.
Proof.
  unfold rtnl_open, rtnl_open_byproto. destruct (os_socket u) as [fd|]; [|done].
  assert (Hc : ∀ rth, rh_fd rth = fd → 0 <= fd → fd ∉ fds →
    rtnl_close rth ({[fd]} ∪ fds) = (rth <| rh_fd := -1 |>, fds)).
  { intros rth Hfd H0 Hn. unfold rtnl_close. rewrite Hfd, (proj2 (Z.leb_le 0 fd)) by done. f_equal. set_solver. }
  destruct (os_sndbuf u); cbn [negb]; [|intros H0 Hn; right; by rewrite !Hc].
  destruct (os_rcvbuf u); cbn [negb]; [|intros H0 Hn; right; by rewrite !Hc].
  destruct (os_bind u); cbn [negb]; [|intros H0 Hn; right; by rewrite !Hc].
  destruct (os_name u) as [[[al fam] pid]|]; [|intros H0 Hn; right; by rewrite !Hc].
  destruct (negb (al =? _)); [intros H0 Hn; right; by rewrite !Hc|].
  destruct (negb (fam =? _)); [intros H0 Hn; right; by rewrite !Hc|].
  intros _ _. left. split_and!; try done. cbn. unfold u32, in_u32. apply Z.mod_pos_bound. done.
Qed.

Lemma br_set_state_answer_witness :
  let ack seq error := mk_nl_msg NLMSG_ERROR 0 seq 7 (put_uint 4 error ++ replicate 16 0) in
  let other := mk_delivery 1 0 0 [ack 12 0] in
  let ours := mk_delivery 0 2 0 [ack 30 (-1); ack 42 0] in
  ∃ m, br_set_state (λ _ _, Some []) (mk_rtnl_handle 5 0 7 41 0 0) 3 3 true (concat (map events_of ([other] ++ [ours])) ++ []) =
    Some (mk_rtnl_handle 5 0 7 42 0 0, m, Talked 0 None []) ∧ length m = 40%nat.
Proof.
  intros ack other ours.
  assert (Hm : ∀ s e, in_u32 s → wf_nl_msg (ack s e)) by (intros s e Hs; split; [done|done|done|intros _; cbn; lia]).
  destruct (br_set_state_answer (λ _ _, Some []) (mk_rtnl_handle 5 0 7 41 0 0) 3 3 [other] ours (ack 42 0) [])
    as (r & Hr & H0 & _).
  - by eexists.
  - constructor; [|done]. split_and!; [done|repeat constructor; try done; cbn; lia|by vm_compute].
  - split_and!; [done|repeat constructor; try done; cbn; lia|by vm_compute].
  - repeat constructor.
  - reflexivity.
  - assert (r = 0) as -> by (apply H0; by vm_compute). eexists. split; [exact Hr|apply length_numbered].
Defined.
