(* ===== verification/Sockets.v ===== *)
(** The ends of the control channel: the two sockets (ctl_socket_server.c,
    ctl_socket_client.c), and the buffer with the log text that goes with an answer; and
    if_shutdown (netif_utils.c).

    How the system calls end is an argument. *)
From S2P Require Import Prelude Types Clib Track Control Client.

(** ** The log text

    [vsnprintf] at an offset of the buffer, with the room that is left: what fits of [text], and
    a NUL. [None]: a write outside of the buffer. *)
Definition vsnprintf_at (off : Z) (text buf : list Z) : option (list Z) :=
  let room := LOG_STRING_LEN - off in
  let s := take (Z.to_nat (room - 1)) text ++ [0] in
  if (0 <=? off) && (0 <? room) && (off + Z.of_nat (length s) <=? Z.of_nat (length buf))
  then Some (take (Z.to_nat off) buf ++ s ++ drop (Z.to_nat off + length s) buf) else None.

Record log_state := mk_log_state { msg_logbuf : list Z; msg_log_offset : Z }.

(** [_ctl_err_log]; [text] is the formatted text, shorter than 2^31. *)
Definition ctl_err_log (text : list Z) (s : log_state) : option log_state :=
  if LOG_STRING_LEN - 1 <=? msg_log_offset s then Some s else
  buf ← vsnprintf_at (msg_log_offset s) text (msg_logbuf s);
  let off := u32 (msg_log_offset s + Z.of_nat (length text)) in
  Some (if LOG_STRING_LEN <=? off
        then mk_log_state (<[255%nat := 0]> buf) (LOG_STRING_LEN - 1)
        else mk_log_state buf off).

Fixpoint log_all (texts : list (list Z)) (s : log_state) : option log_state :=
  match texts with
  | [] => Some s
  | t :: texts => s ← ctl_err_log t s; log_all texts s
  end.

(** What the octets up to the offset hold. *)
Definition log_holds (s : log_state) (text : list Z) : Prop :=
  length (msg_logbuf s) = Z.to_nat LOG_STRING_LEN ∧
  msg_log_offset s = Z.min (Z.of_nat (length text)) (LOG_STRING_LEN - 1) ∧
  take (Z.to_nat (msg_log_offset s)) (msg_logbuf s) = take (Z.to_nat (LOG_STRING_LEN - 1)) text.

Lemma ctl_err_log_holds text t s : Z.of_nat (length t) < 2 ^ 31 → log_holds s text →
  ∃ s', ctl_err_log t s = Some s' ∧ log_holds s' (text ++ t).
Proof.
  intros Ht (Hl & Ho & Hb). unfold ctl_err_log, log_holds, LOG_STRING_LEN in *. rewrite length_app, Nat2Z.inj_add.
  destruct (Z.leb_spec (256 - 1) (msg_log_offset s)) as [Hfull|Hroom].
  { exists s. split_and!; [done|done|lia|]. rewrite Hb, take_app_le by lia. done. }
  assert (Hoff : msg_log_offset s = Z.of_nat (length text)) by lia.
  assert (Htext : take (length text) (msg_logbuf s) = text).
  { rewrite Hoff, Nat2Z.id in Hb. rewrite Hb. apply take_ge. lia. }
  set (n := length text) in *. unfold vsnprintf_at, LOG_STRING_LEN.
  set (u := take (Z.to_nat (256 - msg_log_offset s - 1)) t).
  assert (Hu : length u = ((255 - n) `min` length t)%nat) by (unfold u; rewrite length_take; lia).
  rewrite (proj2 (Z.leb_le 0 _)), (proj2 (Z.leb_le _ (Z.of_nat (length (msg_logbuf s))))), (proj2 (Z.ltb_lt 0 _)) by (rewrite ?length_app; cbn [length]; lia).
  cbn [andb mbind option_bind]. unfold u32. rewrite Hoff, Z.mod_small, Nat2Z.id by lia. rewrite Htext.
  assert (Hpre : ∀ rest, take 255 ((text ++ (u ++ [0]) ++ rest)) = take 255 (text ++ u ++ [0] ++ rest)) by (intros; by rewrite <- !app_assoc).
  destruct (Z.leb_spec 256 (Z.of_nat n + Z.of_nat (length t))) as [Hov|Hfit]; eexists; (split; [done|]); cbn [msg_logbuf msg_log_offset].
  - rewrite length_insert, !length_app, length_drop, Hl. cbn [length]. split_and!; [lia|lia|].
    rewrite take_insert_ge by lia. change (Z.to_nat (256 - 1)) with 255%nat.
    rewrite Hpre, !(take_app text), (take_ge text) by lia. f_equal. fold n.
    rewrite take_app_le by lia. unfold u. rewrite take_take. f_equal. lia.
  - rewrite !length_app, length_drop, Hl. cbn [length]. split_and!; [lia|lia|].
    assert (Hut : u = t) by (unfold u; apply take_ge; lia). rewrite Hut.
    replace (Z.to_nat (Z.of_nat n + Z.of_nat (length t))) with (length (text ++ t)) by (rewrite length_app; lia).
    rewrite <- (app_assoc t), (app_assoc text), take_app_length. symmetry. apply take_ge. rewrite length_app. lia.
Qed.

(** The log of a request is the beginning of what was logged: never outside of the buffer, and
    never longer than the client accepts. *)
Lemma log_is_prefix texts buf : length buf = Z.to_nat LOG_STRING_LEN →
  Forall (λ t, Z.of_nat (length t) < 2 ^ 31) texts →
  ∃ s, log_all texts (mk_log_state buf 0) = Some s ∧ log_holds s (concat texts) ∧ 0 <= msg_log_offset s < LOG_STRING_LEN.
Proof.
  intros Hb Ht. assert (Hall : ∀ texts text s, Forall (λ t, Z.of_nat (length t) < 2 ^ 31) texts → log_holds s text →
    ∃ s', log_all texts s = Some s' ∧ log_holds s' (text ++ concat texts)).
  { clear. induction texts as [|t texts IH]; intros text s Ht Hs; [exists s; by rewrite app_nil_r|].
    apply Forall_cons in Ht as [H1 Ht]. destruct (ctl_err_log_holds text t s H1 Hs) as (s1 & E & Hs1).
    destruct (IH _ _ Ht Hs1) as (s' & E' & Hs'). exists s'. cbn [log_all concat]. rewrite E. cbn [mbind option_bind].
    split; [done|]. by rewrite <- app_assoc in Hs'. }
  destruct (Hall texts [] (mk_log_state buf 0) Ht) as (s & E & Hs); [done|].
  exists s. split_and!; try done; destruct Hs as (_ & -> & _); unfold LOG_STRING_LEN; lia.
Qed.

(** ** The sockets *)

Definition MSTP_SERVER_SOCK_NAME : list Z := chars ".mstp_server".
Definition sizeof_sun_path : nat := 108.
Definition AF_UNIX : Z := 1.

(** A socket address: all zeros but the family and the name, after a NUL. *)
Definition set_socket_address (name : list Z) : option (Z * list Z) :=
  if (1 + length name + 1 <=? sizeof_sun_path)%nat
  then Some (AF_UNIX, [0] ++ name ++ replicate (sizeof_sun_path - 1 - length name) 0) else None.

(** socket(), setsockopt() or connect(), bind(). *)
Record unix_setup := mk_unix_setup { un_socket : option Z; un_other : bool; un_bind : bool }.

Definition server_socket (u : unix_setup) (fds : gset Z) : Z * gset Z :=
  if negb (length MSTP_SERVER_SOCK_NAME <? sizeof_sun_path)%nat then (-1, fds) else
  match un_socket u with
  | None => (-1, fds)
  | Some s =>
      let fds := {[s]} ∪ fds in
      if negb (un_other u) then (-1, fds ∖ {[s]}) else
      if negb (un_bind u) then (-1, fds ∖ {[s]}) else (s, fds)
  end.

(** The result, the descriptor the client keeps, and the open ones. *)
Definition ctl_client_init (u : unix_setup) (fd : Z) (fds : gset Z) : Z * Z * gset Z :=
  if negb (length MSTP_SERVER_SOCK_NAME <? sizeof_sun_path)%nat then (-1, fd, fds) else
  match un_socket u with
  | None => (-1, fd, fds)
  | Some s =>
      let fds := {[s]} ∪ fds in
      if negb (un_bind u) then (-1, fd, fds ∖ {[s]}) else
      if negb (un_other u) then (-1, fd, fds ∖ {[s]}) else (0, s, fds)
  end.

Definition ctl_client_cleanup (fd : Z) (fds : gset Z) : Z * gset Z :=
  if 0 <=? fd then (-1, fds ∖ {[fd]}) else (fd, fds).

(** A client that was set up and cleaned up leaves nothing open. *)
Lemma client_socket_closed u fds :
  (∀ s, un_socket u = Some s → 0 <= s ∧ s ∉ fds) →
  let '(r, fd, fds1) := ctl_client_init u (-1) fds in ctl_client_cleanup fd fds1 = (-1, fds).
Proof.
  intros Hs. unfold ctl_client_init. cbn [MSTP_SERVER_SOCK_NAME]. destruct (negb _); [done|].
  destruct (un_socket u) as [s|]; [|done]. destruct (Hs s eq_refl) as [H0 Hn].
  assert (E : ({[s]} ∪ fds) ∖ {[s]} = fds) by set_solver.
  destruct (un_bind u); cbn [negb]; [|by rewrite E]. destruct (un_other u); cbn [negb]; [|by rewrite E].
  unfold ctl_client_cleanup. rewrite (proj2 (Z.leb_le 0 s)), E by done. done.
Qed.

Lemma print_digits_length fuel : ∀ k v acc, (1 <= k)%nat → 0 <= v < 10 ^ Z.of_nat k →
  (length (print_digits fuel 10 v acc) <= k + length acc)%nat.
Proof.
  induction fuel as [|fuel IH]; intros k v acc Hk Hv; cbn [print_digits]; [lia|].
  destruct (Z.eqb_spec (v / 10) 0) as [|Hn]; [cbn [length]; lia|].
  assert (10 <= v) by (destruct (Z.lt_ge_cases v 10); [by rewrite Z.div_small in Hn by lia|lia]).
  destruct k as [|[|k]]; [lia|cbn in Hv; lia|].
  etrans; [apply (IH (S k)); [lia|]|cbn [length]; lia]. split; [apply Z.div_pos; lia|].
  apply Z.div_lt_upper_bound; [lia|]. rewrite <- Z.pow_succ_r by lia. replace (Z.succ (Z.of_nat (S k))) with (Z.of_nat (S (S k))) by lia. apply Hv.
Qed.

(** Both names fit: the server's, and the client's with its process number. *)
Lemma socket_names_fit pid : 0 <= pid < 2 ^ 31 →
  is_Some (set_socket_address MSTP_SERVER_SOCK_NAME) ∧ (length (chars "MSTPCTL_" ++ print_u pid) < 64)%nat ∧
  is_Some (set_socket_address (chars "MSTPCTL_" ++ print_u pid)).
Proof.
  intros Hp. pose proof (print_digits_length 64 10 pid [] ltac:(lia) ltac:(lia)) as Hd. fold (print_u pid) in Hd. cbn [length] in Hd.
  assert (Hl : (length (chars "MSTPCTL_" ++ print_u pid) <= 18)%nat).
  { rewrite length_app. change (length (chars "MSTPCTL_")) with 8%nat. lia. }
  split; [by eexists|]. split; [lia|]. unfold set_socket_address, sizeof_sun_path.
  destruct (Nat.leb_spec (1 + length (chars "MSTPCTL_" ++ print_u pid) + 1) 108); [by eexists|lia].
Qed.

(** ** if_shutdown (netif_utils.c) *)

Definition IFF_UP : Z := 1.

(** The flags as they are read, or -1, and those that are written. *)
Definition if_shutdown (flags : Z) (set_ok : bool) : Z * option Z :=
  if flags =? -1 then (-1, None) else
  let flags := Z.land flags (Z.lnot IFF_UP) in
  (if set_ok then 0 else -1, Some flags).

Lemma if_shutdown_flags flags set_ok i : flags ≠ -1 → 0 <= i →
  ∃ f, (if_shutdown flags set_ok).2 = Some f ∧ Z.testbit f i = Z.testbit flags i && negb (i =? 0).
Proof.
  intros Hf Hi. unfold if_shutdown. rewrite (proj2 (Z.eqb_neq flags (-1))) by done. eexists. split; [done|].
  unfold IFF_UP. rewrite Z.land_spec, Z.lnot_spec by done.
  assert (E : Z.testbit 1 i = (i =? 0)).
  { change 1 with (2 ^ 0). rewrite Z.pow2_bits_eqb by done. apply Z.eqb_sym. }
  by rewrite E.
Qed.
